(* ===== verification/_CoqProject ===== *)
-Q . S2P
Prelude.v
CMem.v
CString.v
SieveTree.v
SieveComparator.v
SieveComparatorSpec.v
CFile.v
SieveGenerate.v
SieveEmit.v
SieveCode.v
SieveGenerateProof.v
SieveEmitProof.v
SieveMessage.v
SieveEval.v
SieveSemantics.v
SieveEvalProof.v
SieveSoundness.v
SieveCorrect.v
SieveSpec.v
Auth.v
Acl.v
AclSpec.v
AclTheorems.v
Glob.v
GlobSpec.v
GlobInit.v
GlobMin.v
Mboxname.v
MboxPolicy.v
MboxNames.v
MboxRound.v
MboxTheorems.v
Prog.v
Master.v
MasterConf.v
MasterLoop.v
MasterProof.v
MasterConfProof.v
MasterSched.v
MasterTheorems.v
DbFile.v
CyrusDb.v
BSearch.v
DbOrder.v
BSearchProof.v
Skiplist.v
SkipFile.v
SkipList.v
SkipStep.v
SkipRun.v
SkipFetch.v
SkipWrite.v
SkipScan.v
SkipTxn.v
SkipRecover.v
SkipCheckpoint.v
SkipReplay.v
SkipCrash.v
SkipSpec.v
SkipOpen.v
SkipClient.v
SkipTheorems.v
DbAdmin.v
Flat.v
FlatSpec.v
FlatProof.v
FlatScan.v
FlatClient.v
FlatTheorems.v
Mboxlist.v
MboxlistSpec.v
MboxlistCreate.v
MboxlistAcl.v
MboxlistFind.v
MboxlistFiles.v
MboxlistListing.v
MboxlistTheorems.v
