(* ===== verification/Prelude.v ===== *)
(** * Verification of the Cyrus IMAP server

    A model of parts of Cyrus IMAP ([src/cyrus_imap]) as executable Rocq
    definitions, translated function by function from the C sources, and the
    theorems that make them correct.

    Seven parts are modelled: the master process ([master/]), which starts the
    servers and keeps enough of them; the list of mailboxes ([imap/mboxlist.c]),
    which is changed and searched here; the Sieve engine ([sieve/]), which decides
    what happens to a message at delivery; the databases ([lib/cyrusdb.h], with the
    skiplist and the flat backend), in which the server keeps its mailbox list,
    seen state, subscriptions and delivery records; the patterns of mailbox names
    ([lib/glob.c]) that LIST and its relatives take; mailbox names themselves, as
    clients and as the server write them ([imap/mboxname.c]); and access control
    lists ([lib/acl.c], [lib/acl_afs.c]) with the users and groups they name.

    ** Sieve: the program and the files

    A Sieve script goes through four stages, each its own C file.  The parser
    ([sieve/sieve.y], generated code, not modelled) builds a syntax tree;
    [sieve/bc_generate.c] flattens it into an array of cells;
    [sieve/bc_emit.c] writes the array to a file with 32-bit words in network
    order, strings padded to words, and forward jumps patched afterwards;
    [sieve/bc_eval.c], at delivery, runs the mapped file on a message with
    callbacks for everything that touches the message or the mailbox, and
    collects actions ([sieve/message.c]) that [sieve/script.c] then executes.

    - [Prelude]: faults, machine integers, shared lemmas and tactics.
    - [CMem]: byte strings as memory ([char *] with an offset), big-endian
      words, C strings, [toupper] and the like from the C library.
    - [CFile]: a file descriptor as content, position and size limit; [write],
      [lseek] and the error monad [em] of functions that return -1.
    - [SieveTree] ([sieve/tree.h], [sieve/bytecode.h]): the syntax tree as two
      pairs of mutually inductive types, the opcode numbering.
    - [SieveComparator] ([sieve/comparator.c]): the comparison functions with
      their pointer arithmetic; [SieveComparatorSpec]: what each decides.
    - [SieveGenerate] ([sieve/bc_generate.c]): the generator on a growing array
      whose fresh cells are uninitialised; reading one is a fault.
    - [SieveEmit] ([sieve/bc_emit.c]): the emitter on a file.
    - [SieveCode]: the reference encoding of a tree, first as cells
      ([cl_cells]) and then as bytes ([cl_bytes], [script_bytes]).  It is the contract between
      generator, emitter and interpreter.  [parsed_commandlist] is what the parser lets
      through, [known_commandlist] the scripts of it with comparators the compiler knows,
      [wf_commandlist] those of them the bytecode has words for: the parser also accepts
      [denotify] with ":count" or ":value" ([refused_commandlist]).
    - [SieveGenerateProof], [SieveEmitProof]: generator and emitter implement
      the reference encoding.
    - [SieveMessage] ([sieve/message.c]): action and notification lists,
      parts of addresses.
    - [SieveEval] ([sieve/bc_eval.c], [sieve_script_load] of [sieve/script.c]):
      the interpreter.  The callbacks of [sieve_interp_t] are the class
      [Interp]; the cache of decoded body parts, the table of loaded scripts
      with their [is_executing] flags and the message with its header iterators
      are explicit state.
    - [SieveSemantics]: what a tree means, by recursion on the tree, with no
      bytecode in it.
    - [SieveEvalProof], [SieveSoundness], [SieveCorrect]: the interpreter on
      encoded bytes does what the tree means.
    - [SieveSpec]: properties of the interpreter on its own, for any bytecode.

    ** The master process

    The master opens a listener and a pipe for each service of its configuration,
    starts children for it, and learns from messages in the pipe which of them
    are free.  It runs scheduled commands, and starts anew with the configuration
    on SIGHUP.

    - [Prog]: the monad of programs with a state that may fail, shared with the
      databases; [wp] ("it returns, and then") and [wlp] ("if it returns, then").
    - [Master] ([master/master.c], [master.h], [service.h]): services, the table of
      children, the schedule, and the operations on them; what the system answers
      is the class [Kernel].
    - [MasterConf] ([master/masterconf.c] and the configuration in [master.c]): the
      file, services and events made from it, listeners, SIGHUP.
    - [MasterLoop]: the main loop of [master.c]; one turn is what happens between
      two returns of [select].
    - [MasterProof], [MasterConfProof]: the counters of services and the table of
      children agree, and operations return; [MasterSched]: the schedule.
    - [MasterTheorems]: the theorems, each applied to a master with one service.

    ** Databases: the interface

    A client opens a database with one of several backends and calls it through
    [struct cyrusdb_backend], alone or in a transaction.

    - [DbFile] ([lib/lock_fcntl.c], [lib/map_shared.c], [lib/retry.c] and the
      system calls below them): inodes, names, descriptors, locks, one
      mapping, the program monad [M] (of [Prog]), and the class [Env] of what may differ
      from run to run (failing calls, a full disk, [rand], the clock).
    - [CyrusDb] ([lib/cyrusdb.h]): the calls as the class [Backend]; the finite
      map they refine ([spec_calls]) and the class [BackendOk] of laws that say
      so: of calls alone and in a transaction, of a transaction that is open, of how it
      ends, and of [foreach]; transactions over any backend, and that they refine the map
      ([transact_refine]).
    - [BSearch] ([lib/bsearch.c]): the order of mailbox names and the search of
      sorted lines; [DbOrder]: the class [KeyOrder] of comparators;
      [BSearchProof]: what [bsearch_mem] finds.
    - [DbAdmin] ([lib/cyrusdb.c], and the calls of the backends that do not act on
      an open database): copying, archiving, the recovery stamp, [dump].

    ** The flat backend

    A database is a text file of sorted lines.  Each change writes all of it to
    [fname.NEW]; a commit renames that.

    - [Flat] ([lib/cyrusdb_flat.c]): every function of the backend.
    - [FlatSpec], [FlatProof]: its calls on a file that is [lines l]
      ([flat_db]) and during a transaction ([flat_txn]); [FlatClient]: it is an
      instance of [BackendOk]; [FlatScan]: [foreach] and [myopen].
    - [FlatTheorems]: the theorems, each applied to a small database, and runs
      that end badly.

    ** The skiplist backend

    A database is one file: a header, a dummy record, the records of the last
    checkpoint in key order, and a log of records added and deleted since, cut
    into transactions by commit records.  The records are nodes of a skiplist
    whose pointers, in the file too, are changed in place; the log is what counts
    after a crash.  Readers look at the file through a shared mapping, and
    writers change it through the descriptor.

    - [Skiplist] ([lib/cyrusdb_skiplist.c]): the macros and functions of the
      backend.
    - [SkipFile]: a file as a header and a list of entries, [ser], and reading
      records back.
    - [SkipList]: its own comparator is a [KeyOrder]; the linked
      structure behind a database, [slist], and [find_node] on it; [SkipStep]: insertion and deletion keep it.
    - [SkipRun]: [wp] on a file of this form; [SkipFetch]: locks and reading;
      [SkipWrite]: storing and deleting; [SkipScan]: [foreach] and [consistent].
    - [SkipTxn]: the log of a transaction and [myabort], chains; [SkipRecover], [SkipReplay], [SkipCrash]: recovery; [SkipOpen]: [myopen];
      [SkipCheckpoint]: [mycheckpoint].
    - [SkipSpec], [SkipClient]: the invariant of an open database ([ready]) and
      of a transaction ([live]); the backend is an instance of [BackendOk].
    - [SkipTheorems]: the theorems about the backend, each applied to a small
      database, and runs that end badly.

    ** Mailbox name patterns

    - [CString]: the C string functions and the case tables of [lib/util.c].
    - [Glob] ([lib/glob.c]): [glob_init_suppress] and [glob_test] with their
      pointers into pattern and name as offsets.
    - [GlobSpec]: the language of a pattern ([gmatch]), that the matcher returns,
      and that it decides the language; [GlobInit]: that compiling keeps the
      language, and the theorems; [GlobMin]: matches of parts of names.

    ** Mailbox names

    - [Mboxname] ([imap/mboxname.c]): the conversions between internal and
      external names, in both namespaces and with virtual domains, into a buffer
      of the caller; the check of new names; questions about internal names.
    - [MboxPolicy]: the language of the check, with modified base64 as digits of
      a number; [MboxNames]: each conversion as a function without buffers, and
      that the code prints what it gives; [MboxRound]: names there and back;
      [MboxTheorems]: the theorems.

    ** Access control

    - [Auth] ([lib/auth.h], [lib/auth_unix.c]): the class [Auth] of what the
      lists need from an authorization mechanism, [AuthOk] of what they rely on,
      and the Unix mechanism, its instance; the group and password files are
      parameters.
    - [Acl] ([lib/acl.c], [lib/acl_afs.c]): rights as masks and letters, lists as
      blocks of memory that are cut and mended in place.
    - [AclSpec]: a list as a table; [AclTheorems]: the theorems.

    ** The list of mailboxes

    Every mailbox has an entry with its type, partition and list of rights in a
    database.  Before its files are made the entry is reserved, and outside the
    transaction, so that nobody waits; a failure takes it back.  This is where
    names, their check, rights and the database come together.

    - [Mboxlist] ([imap/mboxlist.c], the paths of [imap/mailbox.c], the hash of
      [lib/util.c]): lookups, creation, removal and renaming of mailboxes,
      changes of rights, remote mailboxes, over any [Backend] and [Auth].  [imapd.conf] is the class
      [Site]; the files of mailboxes, annotations and the MUPDATE server are the
      class [Outside].  The static buffers that lookups return pointers into are
      state: a pointer sees what a later lookup wrote.
    - [MboxlistSpec]: the list as a map of names to entries; the class [ListDb],
      that a backend takes its names and entries, in a file with room; a lookup,
      a change, a commit and an abort on such a list, from the laws of [BackendOk]
      only.
    - [MboxlistCreate], [MboxlistAcl], [MboxlistFiles]: each
      operation as a function of the map and the files, and that the code is
      that function.
    - [MboxlistFind] ([mboxlist_findall], [mboxlist_findall_alt]): what LIST
      searches the list with: the INBOX, then [DB->foreach] over the mailboxes of the
      user and over the others, with [find_p] and [find_cb].  The caller is a parameter,
      and so is what is behind a key in the memory of the database, for keys are not terminated.
    - [MboxlistListing]: what the caller is shown, by the law of [BackendOk] about
      [foreach] and the language of the pattern.
    - [MboxlistTheorems]: the flat and the skiplist backend are [ListDb]s, a small
      list, and the theorems, each applied to it.

    ** Groups of theorems

    Master: [master_counts_children] shows that the counters of the services are
    right in every state the main loop can reach from a start with any
    configuration, and that it goes on; [master_staffs_services] that services get
    the workers they should have, [master_wakes_up] that the loop always comes
    round again within ten seconds, [janitor_sweeps] what is removed from the table
    of children.  Hypotheses: [fork] gives -1 or a positive pid, the clock does not go
    back, messages come from registered children of the service, SIGHUP comes
    when no service without a listener has children.  [stray_child_miscounted] shows what a message of a
    child that is not registered does to the counters, [failed_fork_counted] what a [fork] that
    fails does; [master_bad_runs] has runs
    without the last two hypotheses, and others that end badly.

    List of mailboxes: [entry_roundtrip] shows that entries are read as they were
    written; [createmailbox_refines], [setacl_refines], [deletemailbox_refines] and
    [renamemailbox_refines] that the operations answer and leave what a function
    of the list and the files says, with every refusal, over any backend that
    keeps its laws: a creation that fails leaves the list as it was, deleting or changing
    rights touches one entry.  [create_by_rights] and [setacl_by_rights] say who can
    do it, and what rights come of it: the implicit rights are kept by an owner who changes
    his own entry, unless he takes rights away, and by nobody else.  [findall_sound] shows that LIST shows
    nobody a mailbox that he may not look up, for any pattern and backend; [findall_complete]
    that for a pattern without percent signs it shows every other that matches, and nothing
    else in full; both for a server without virtual domains and a caller that leaves the list
    alone, and the second for names in which and behind which no "!" is found.  Hypotheses of the others: a server of its own, without
    MUPDATE; the database has room ([LIST_COST] for each change); for [setacl] that
    headers can be written; for renaming a local mailbox, and lists of rights that fit the static buffer.
    [mboxlist_goes_wrong] has runs without them, with MUPDATE and without, that end badly.

    Mailbox names: [mboxname_policycheck_decides] gives the language of accepted
    names, [names_roundtrip] shows that what a client is shown for a mailbox names
    it when sent back, and [conversions_fit] which conversions stay inside the
    buffer.  With virtual domains the alternate namespace is in the model and in
    [conversions_fit], not in [names_roundtrip].

    Access control: [acl_set_changes_entry] shows that a change keeps a list
    well formed, does what the mode says to one identifier and nothing to
    others, and stays inside the new block; [acl_myrights_bits] that a user gets
    the rights granted and not denied, and the list is restored;
    [acl_rights_roundtrip] for which settings of [deleteright] rights survive
    being written down.

    Patterns: [glob_test_returns] shows memory safety and termination for all
    patterns, names and minimal lengths, [glob_test_decides] that [GLOB_TEST]
    decides the language for old-style patterns and the new-style ones that are
    [tame]; [wildcards_misjudged] gives patterns that are not, and names they get
    wrong.  Partial matches ([min] not null) are in the model and in
    [glob_test_returns], not in [glob_test_decides]; nor are names below INBOX
    with [GLOB_INBOXCASE], or [GLOB_SUBSTRING], which the program does not use.

    Flat backend: [flat_transaction_refines] shows that any transaction answers
    and leaves what a finite map does, [flat_transaction_invisible] that nothing
    of it is seen before the commit and [abort_txn] takes it back,
    [flat_foreach_in_order] what [foreach] visits, [bsearch_mem_finds] that the
    search finds the line or its place.  [create_keeps_lock], [failed_commit_shows] and
    [save_key_overflows] say what goes wrong on any database, [flat_bad_runs] are runs that end badly.
    Neither this backend nor the skiplist looks at the [force] of [delete]: a key that is not there is
    deleted with the answer 0.
    Hypotheses of the others: no system call fails, the file stays below 2 GB, keys are of
    characters above the newline, data has no newline and no NUL.

    Skiplist: [transaction_refines] shows that any transaction answers and
    leaves what a finite map does, [call_autocommits] the same of single calls,
    [crash_atomic] that a crash at any point between two writes of log entries,
    with the pointers in any state, is repaired to all or nothing of the
    transaction, [abort_undoes] that [myabort] restores the entries,
    [checkpoint_compresses] that [mycheckpoint] moves the records to a new file, and
    [open_creates], [foreach_in_order], [find_node_closest],
    [consistent_accepts] what the other calls do.  [always_consistent] shows that any
    history of transactions answers what the map answers and leaves a
    database [consistent] accepts, [recovered_consistent] the same of the repair after a crash;
    [record_roundtrip], [header_roundtrip], [safe_to_append_exact],
    [comparators_order], [children_follow_parent] are about the structure and
    the file format.  Their hypotheses: no system call fails and the disk has
    room (what happens otherwise is in [recovery_and_full_disk_damage]), the file stays below 2
    GB, and no file [fname.NEW] is left from a checkpoint that was interrupted.

    Compiler correctness: [sieve_generate_bytecode_cells] and
    [sieve_emit_bytecode_bytes] show that the two compiler passes terminate,
    stay inside the array, never read an uninitialised cell and produce exactly
    the reference encoding, the first for everything the parser lets through, which it
    refuses exactly where there is no word for a [denotify]; [sieve_eval_bc_compiled] and
    [compile_script_correct] that running the bytes gives the result, actions,
    notifications and error message of the tree, includes and all.
    Comparators: [octet_cmp_], [octet_contains_], [octet_matches_] and
    [ascii_numeric_cmp] decide lexicographic order, substring, wildcard match
    and numeric order.  Interpreter: the action list respects the
    compatibility rules whatever the bytecode ([sieve_eval_bc_compatible]),
    the header test ([header_contains_spec]), the vacation recipient search
    ([find_me_first]).

    ** Conventions

    A definition returns [result]: a [Fault] is undefined behaviour of C, a
    failed assertion or exhausted fuel.  Theorems about results are of the form
    "the definition returns [Ok] ...", so they include memory safety and
    termination.  [int] and [size_t] values are [Z] with the conversions
    [to_s32], [to_u32], [to_u64] where the C code converts or can wrap.
    Where fuel is used, either the definition computes enough of it from the
    size of its input (comparators, generator, emitter), or a theorem bounds what
    is enough (the interpreter: [sieve_eval_bc_compiled] for scripts without
    includes gives the amount in terms of the script; with includes, whose
    nesting depends on files, some amount is enough, and a larger one gives the same
    result by [sieve_eval_bc_mono]).  In the skiplist backend every loop over
    the file takes its fuel from the length of the file, [retry:] in [myopen] goes
    round at most once and has three turns, and [foreach] takes it from its
    caller, more than there are records being enough; so does LIST, and a name is
    matched at most as often as it is long.  The operations of the list of
    mailboxes begin again when the database asks for it; the backends never do,
    so one turn is enough.

    ** Not modelled

    Memory exhaustion ([xmalloc] ends the process), freeing of memory, [syslog]
    and the verbose printing (so the instances of a service each have
    their name, where the code shares one string and frees it with the first), the parser, and the servers themselves (network
    protocol loops, TLS, authentication).  Of the master: what a child does before
    it becomes a server, the START section, becoming a daemon, signal handlers,
    the dump on SIGUSR1, SNMP, UUID prefixes; pids and counters are unbounded.  Of the list of
    mailboxes: subscriptions and LSUB, quota roots, opening and closing; the
    files of a mailbox.  Of LIST, virtual domains and the alternate namespace are in the model and
    not in the theorems but for [mboxlist_goes_wrong].  Of the skiplist backend:
    [O_SYNC] and paranoia, whose constants are 0.  The Berkeley and quotalegacy
    backends; the table of backends, which depends on the build.  [regcomp]/[regexec], MD5, address
    parsing, MIME decoding and the callbacks are parameters. *)

From stdpp Require Export base numbers list option.
From Stdlib Require Export ZArith Lia.

#[global] Set Default Proof Using "Type".
#[global] Open Scope Z_scope.

(** ** Faults

    Every definition that reads or writes memory, or that loops, returns a
    [result].  A [Fault] is a behaviour C does not define (an access outside
    the object), a failed [assert] or [abort], or, for the loops written with
    fuel, running out of it: theorems that a definition returns [Ok] show that
    none of these happens. *)
Inductive fault := OutOfBounds | AssertFailed | OutOfFuel.

Inductive result (A : Type) :=
  | Ok (a : A)
  | Fault (f : fault).
Arguments Ok {A} _.
Arguments Fault {A} _.

#[global] Instance result_ret : MRet result := fun A a => Ok a.
#[global] Instance result_bind : MBind result := fun A B f m =>
  match m with Ok a => f a | Fault e => Fault e end.

#[global] Instance fault_eq_dec : EqDecision fault.
Proof. solve_decision. Defined.

(** A guard: the C code asserts [b]. *)
Definition c_assert (b : bool) : result unit :=
  if b then Ok tt else Fault AssertFailed.

Lemma bind_ok {A B} (a : A) (f : A → result B) : (Ok a ≫= f) = f a.
Proof. reflexivity. Qed.

Lemma bind_ok_inv {A B} (m : result A) (f : A → result B) b :
  m ≫= f = Ok b → ∃ a, m = Ok a ∧ f a = Ok b.
Proof. destruct m; simpl; [eauto|discriminate]. Qed.

(** [go_bind H] rewrites the head of a bind with the equation [H]. *)
Ltac go_bind H := rewrite H; cbn [mbind result_bind].

(** ** Machine integers *)

(** [int] arithmetic results and conversions, on 32 bits. *)
Definition to_u32 (z : Z) : Z := z mod 4294967296.
Definition to_s32 (z : Z) : Z :=
  let u := to_u32 z in if u <? 2147483648 then u else u - 4294967296.
(** [size_t] on 64 bits. *)
Definition to_u64 (z : Z) : Z := z mod 18446744073709551616.
(** Plain [char] read from a byte, signed on the platforms the code runs on. *)
Definition schar (b : Z) : Z := if b <? 128 then b else b - 256.
(** Truth value of a C expression used as an [int]. *)
Definition b2z (b : bool) : Z := if b then 1 else 0.

Definition is_u32 (z : Z) : Prop := 0 ≤ z < 4294967296.
Definition is_s32 (z : Z) : Prop := -2147483648 ≤ z < 2147483648.
Definition is_byte (z : Z) : Prop := 0 ≤ z < 256.

Lemma to_u32_small z : is_u32 z → to_u32 z = z.
Proof. intros. apply Z.mod_small. exact H. Qed.

Lemma to_u32_range z : is_u32 (to_u32 z).
Proof. apply Z.mod_pos_bound. lia. Qed.

Lemma to_s32_small z : is_s32 z → to_s32 z = z.
Proof.
  unfold is_s32, to_s32, to_u32. intros H.
  destruct (Z.ltb_spec (z mod 4294967296) 2147483648); Z.to_euclidean_division_equations; lia.
Qed.

Lemma to_s32_u32 z : to_s32 (to_u32 z) = to_s32 z.
Proof. unfold to_s32, to_u32. rewrite Z.mod_mod by lia. reflexivity. Qed.

Lemma to_u64_small z : 0 ≤ z < 18446744073709551616 → to_u64 z = z.
Proof. intros. apply Z.mod_small. exact H. Qed.

(** [((num) + 3) & 0xFFFFFFFC] of the headers, on 32 bits. *)
Definition ROUNDUP (num : Z) : Z := Z.land (to_u32 (num + 3)) 4294967292.

Lemma ROUNDUP_spec n :
  0 ≤ n < 4294967292 → ROUNDUP n = 4 * ((n + 3) / 4).
Proof.
  intros H. unfold ROUNDUP. rewrite to_u32_small by (unfold is_u32; lia).
  replace 4294967292 with (Z.ldiff (Z.ones 32) (Z.ones 2)) by reflexivity.
  apply Z.bits_inj'. intros k Hk.
  rewrite Z.land_spec, Z.ldiff_spec.
  replace (4 * ((n + 3) / 4)) with (Z.shiftl (Z.shiftr (n + 3) 2) 2).
  2: { rewrite Z.shiftl_mul_pow2, Z.shiftr_div_pow2 by lia. change (2^2) with 4. lia. }
  rewrite Z.shiftl_spec, !Z.testbit_ones_nonneg by lia.
  destruct (Z.ltb_spec k 2), (Z.ltb_spec k 32); try lia; simpl.
  - rewrite (Z.testbit_neg_r _ (k - 2)) by lia. apply andb_false_r.
  - rewrite Z.shiftr_spec by lia. rewrite andb_true_r. f_equal. lia.
  - rewrite Z.shiftr_spec by lia. rewrite andb_false_r.
    symmetry. replace (k - 2 + 2) with k by lia.
    apply Z.bits_above_log2; [lia|].
    apply Z.log2_lt_pow2; [lia|].
    assert (2 ^ 32 ≤ 2 ^ k) by (apply Z.pow_le_mono_r; lia). lia.
Qed.

Lemma ROUNDUP_bounds n :
  0 ≤ n < 4294967292 → n ≤ ROUNDUP n ≤ n + 3 ∧ ROUNDUP n mod 4 = 0.
Proof.
  intros H. rewrite ROUNDUP_spec by lia.
  Z.to_euclidean_division_equations. lia.
Qed.
