(* ===== verification/CMem.v ===== *)
(** * CMem: byte memory, network-order words, C strings and files

    A block of memory (an mmapped file, a bytecode buffer, a string) is the
    list of its bytes; an address is an offset into the block.  Reads outside
    the block fault.  A file is its contents and its current position. *)
From S2P Require Import Prelude.

Abbreviation bytes := (list Z).

Definition blen (m : bytes) : Z := Z.of_nat (length m).

(** ** Reading *)

Definition byte_at (m : bytes) (i : Z) : option Z :=
  if i <? 0 then None else m !! Z.to_nat i.

Definition rd8 (m : bytes) (i : Z) : result Z :=
  match byte_at m i with Some b => Ok b | None => Fault OutOfBounds end.

(** [ntohl] of a 4-byte load. *)
Definition rd32 (m : bytes) (i : Z) : result Z :=
  b0 ← rd8 m i; b1 ← rd8 m (i + 1); b2 ← rd8 m (i + 2); b3 ← rd8 m (i + 3);
  Ok (b0 * 16777216 + b1 * 65536 + b2 * 256 + b3).

(** A load of [n] bytes. *)
Fixpoint rdn (m : bytes) (i : Z) (n : nat) : result bytes :=
  match n with
  | O => Ok []
  | S n' => b ← rd8 m i; bs ← rdn m (i + 1) n'; Ok (b :: bs)
  end.

(** [n] bytes from [off]. *)
Definition slice (m : bytes) (off n : Z) : result bytes :=
  if (0 <=? off) && (0 <=? n) && (off + n <=? blen m)
  then Ok (take (Z.to_nat n) (drop (Z.to_nat off) m)) else Fault OutOfBounds.

(** The bytes of [htonl v]. *)
Definition be32 (v : Z) : bytes :=
  let u := to_u32 v in
  [u / 16777216; (u / 65536) mod 256; (u / 256) mod 256; u mod 256].

(** The C string starting at the head of [m]: the bytes before the first NUL. *)
Fixpoint cstr (m : bytes) : result bytes :=
  match m with
  | [] => Fault OutOfBounds
  | b :: m' => if b =? 0 then Ok [] else s ← cstr m'; Ok (b :: s)
  end.

Definition cstr_at (m : bytes) (i : Z) : result bytes :=
  if i <? 0 then Fault OutOfBounds else cstr (drop (Z.to_nat i) m).

(** ** Characters

    [isdigit], [isspace] and [isalnum] of the C locale. *)
Definition isdigit (c : Z) : bool := (48 <=? c) && (c <=? 57).
Definition isspace (c : Z) : bool := (c =? 32) || ((9 <=? c) && (c <=? 13)).
Definition isalnum (c : Z) : bool :=
  isdigit c || ((65 <=? c) && (c <=? 90)) || ((97 <=? c) && (c <=? 122)).

(** [strrchr(s, c)]: the string from the last [c] on. *)
Fixpoint strrchr (s : bytes) (c : Z) : option bytes :=
  match s with
  | [] => None
  | x :: s' => match strrchr s' c with Some t => Some t | None => if x =? c then Some s else None end
  end.

(** ** What a block holds *)

(** [bytes_at m off bs]: the bytes [bs] are at offset [off] of [m]. *)
Definition bytes_at (m : bytes) (off : Z) (bs : bytes) : Prop :=
  0 ≤ off ∧ ∀ i b, byte_at bs i = Some b → byte_at m (off + i) = Some b.

Definition all_bytes (m : bytes) : Prop := Forall is_byte m.
(** A C string's characters: bytes other than NUL. *)
Definition is_cstring (s : bytes) : Prop := Forall (λ b, 0 < b < 256) s.

Lemma byte_at_lt m i b : byte_at m i = Some b → 0 ≤ i < blen m.
Proof.
  unfold byte_at, blen. destruct (Z.ltb_spec i 0); [discriminate|].
  intros ?%lookup_lt_Some. lia.
Qed.

Lemma byte_at_is_Some m i : 0 ≤ i < blen m → ∃ b, byte_at m i = Some b.
Proof.
  unfold byte_at, blen. intros. destruct (Z.ltb_spec i 0); [lia|].
  apply lookup_lt_is_Some_2. lia.
Qed.

Lemma byte_at_app m1 m2 i :
  byte_at (m1 ++ m2) i =
    if i <? blen m1 then byte_at m1 i else byte_at m2 (i - blen m1).
Proof.
  unfold byte_at, blen.
  destruct (Z.ltb_spec i (Z.of_nat (length m1))), (Z.ltb_spec i 0), 
    (Z.ltb_spec (i - Z.of_nat (length m1)) 0); try lia; auto.
  - apply lookup_app_l. lia.
  - rewrite lookup_app_r by lia. f_equal. lia.
Qed.

Lemma byte_at_nil i : byte_at [] i = None.
Proof. unfold byte_at. destruct (i <? 0); auto using lookup_nil. Qed.

Lemma byte_at_ext m1 m2 : (∀ i, byte_at m1 i = byte_at m2 i) → m1 = m2.
Proof.
  intros H. apply list_eq. intros i. specialize (H (Z.of_nat i)).
  unfold byte_at in H. destruct (Z.ltb_spec (Z.of_nat i) 0); [lia|].
  by rewrite Nat2Z.id in H.
Qed.

Lemma blen_app a b : blen (a ++ b) = blen a + blen b.
Proof. unfold blen. rewrite length_app. lia. Qed.
Lemma blen_cons x a : blen (x :: a) = 1 + blen a.
Proof. unfold blen. simpl. lia. Qed.
Lemma blen_nil : blen [] = 0. Proof. reflexivity. Qed.
Lemma blen_be32 v : blen (be32 v) = 4. Proof. reflexivity. Qed.
Lemma blen_replicate n x : blen (replicate n x) = Z.of_nat n.
Proof. unfold blen. by rewrite length_replicate. Qed.
Lemma blen_nonneg m : 0 ≤ blen m. Proof. unfold blen. lia. Qed.

Create Rewrite HintDb blen.
#[export] Hint Rewrite blen_app blen_cons blen_nil blen_be32 blen_replicate : blen.

(** Length arithmetic on blocks. *)
Ltac blia :=
  autorewrite with blen in *;
  repeat match goal with
    | |- context [blen ?m] => lazymatch goal with
        | H : 0 ≤ blen m |- _ => fail | _ => pose proof (blen_nonneg m) end
    | _ : context [blen ?m] |- _ => lazymatch goal with
        | H : 0 ≤ blen m |- _ => fail | _ => pose proof (blen_nonneg m) end
    end; lia.

Lemma bytes_at_nil m off : 0 ≤ off → bytes_at m off [].
Proof. split; [done|]. intros i b. by rewrite byte_at_nil. Qed.

Lemma bytes_at_app m off a b :
  bytes_at m off (a ++ b) ↔ bytes_at m off a ∧ bytes_at m (off + blen a) b.
Proof.
  unfold bytes_at. split.
  - intros [H0 H]. split; split; [done| |blia|].
    + intros i x Hx. apply H. rewrite byte_at_app.
      pose proof (byte_at_lt _ _ _ Hx).
      destruct (Z.ltb_spec i (blen a)); [done|lia].
    + intros i x Hx. replace (off + blen a + i) with (off + (blen a + i)) by lia.
      apply H. rewrite byte_at_app. pose proof (byte_at_lt _ _ _ Hx).
      destruct (Z.ltb_spec (blen a + i) (blen a)); [lia|].
      rewrite <- Hx. f_equal. lia.
  - intros [[H0 H1] [_ H2]]. split; [done|]. intros i x. rewrite byte_at_app.
    destruct (Z.ltb_spec i (blen a)); intros Hx; [by apply H1|].
    replace (off + i) with (off + blen a + (i - blen a)) by lia. by apply H2.
Qed.

Lemma bytes_at_cons m off b bs :
  bytes_at m off (b :: bs) ↔ 0 ≤ off ∧ byte_at m off = Some b ∧ bytes_at m (off + 1) bs.
Proof.
  change (b :: bs) with ([b] ++ bs). rewrite bytes_at_app.
  rewrite blen_cons, blen_nil, Z.add_0_r.
  split; intros (H1 & H2); split_and?; auto.
  - apply H1.
  - rewrite <- (Z.add_0_r off). by apply H1.
  - split; [done|]. intros i x Hx. pose proof (byte_at_lt _ _ _ Hx).
    rewrite blen_cons, blen_nil in H. assert (i = 0) as -> by lia.
    rewrite Z.add_0_r. destruct H2 as [H2 _]. by rewrite <- Hx, H2.
  - apply H2.
Qed.

Lemma bytes_at_here pre bs post : bytes_at (pre ++ bs ++ post) (blen pre) bs.
Proof.
  split; [blia|]. intros i b Hb. pose proof (byte_at_lt _ _ _ Hb).
  rewrite byte_at_app. destruct (Z.ltb_spec (blen pre + i) (blen pre)); [lia|].
  rewrite byte_at_app. replace (blen pre + i - blen pre) with i by lia.
  destruct (Z.ltb_spec i (blen bs)); [done|lia].
Qed.

Lemma bytes_at_blen m off bs : bytes_at m off bs → bs ≠ [] → off + blen bs ≤ blen m.
Proof.
  intros [H0 H] Hne. destruct (byte_at_is_Some bs (blen bs - 1)) as [b Hb].
  { destruct bs; [done|]. blia. }
  apply H, byte_at_lt in Hb. lia.
Qed.

(** ** Reading what a block holds *)

Lemma rd8_ok m i b : byte_at m i = Some b → rd8 m i = Ok b.
Proof. unfold rd8. by intros ->. Qed.

Lemma rd8_ok_inv m i b : rd8 m i = Ok b → byte_at m i = Some b.
Proof. unfold rd8. destruct (byte_at m i); congruence. Qed.

Lemma be32_value v :
  to_u32 v / 16777216 * 16777216 + (to_u32 v / 65536) mod 256 * 65536
    + (to_u32 v / 256) mod 256 * 256 + to_u32 v mod 256 = to_u32 v.
Proof. Z.to_euclidean_division_equations. lia. Qed.

Lemma rd32_be32 m off v : bytes_at m off (be32 v) → rd32 m off = Ok (to_u32 v).
Proof.
  unfold be32. rewrite !bytes_at_cons. intros (? & ? & ? & ? & ? & ? & ? & ? & _).
  unfold rd32. replace (off + 2) with (off + 1 + 1) by lia.
  replace (off + 3) with (off + 1 + 1 + 1) by lia.
  rewrite (rd8_ok _ _ _ H0); cbn [mbind result_bind].
  rewrite (rd8_ok _ _ _ H2); cbn [mbind result_bind].
  rewrite (rd8_ok _ _ _ H4); cbn [mbind result_bind].
  rewrite (rd8_ok _ _ _ H6); cbn [mbind result_bind].
  by rewrite be32_value.
Qed.

Lemma be32_all_bytes v : all_bytes (be32 v).
Proof.
  pose proof (to_u32_range v). unfold is_u32 in *.
  repeat constructor; unfold is_byte; Z.to_euclidean_division_equations; lia.
Qed.

Lemma rdn_bytes_at m off bs : bytes_at m off bs → rdn m off (length bs) = Ok bs.
Proof.
  revert off. induction bs as [|b bs IH]; intros off; [done|].
  rewrite bytes_at_cons. intros (_ & Hb & H). cbn [length rdn].
  rewrite (rd8_ok _ _ _ Hb); cbn [mbind result_bind].
  by rewrite (IH _ H).
Qed.

Lemma cstr_terminated s m : is_cstring s → cstr (s ++ 0 :: m) = Ok s.
Proof.
  induction 1 as [|b s Hb _ IH]; [done|]. cbn [app cstr].
  destruct (Z.eqb_spec b 0); [lia|]. by rewrite IH.
Qed.

Lemma bytes_at_drop m off bs :
  bytes_at m off bs → ∃ post, bs = [] ∨ drop (Z.to_nat off) m = bs ++ post.
Proof.
  intros H. exists (drop (Z.to_nat off + length bs) m).
  destruct (decide (bs = [])) as [?|Hne]; [by left|right].
  pose proof (bytes_at_blen _ _ _ H Hne) as Hl. destruct H as [H0 H].
  rewrite <- drop_drop.
  rewrite <- (take_drop (length bs) (drop (Z.to_nat off) m)) at 1. f_equal.
  apply list_eq. intros i.
  destruct (decide (i < length bs)%nat).
  - destruct (lookup_lt_is_Some_2 bs i) as [b Hb]; [done|].
    specialize (H (Z.of_nat i) b). unfold byte_at in H.
    destruct (Z.ltb_spec (Z.of_nat i) 0); [lia|]. rewrite Nat2Z.id in H.
    specialize (H Hb). destruct (Z.ltb_spec (off + Z.of_nat i) 0); [lia|].
    rewrite lookup_take by done. rewrite lookup_drop.
    case_decide; [|lia].
    rewrite Hb, <- H. f_equal. lia.
  - rewrite !lookup_ge_None_2; [done|lia|rewrite length_take; lia].
Qed.

Lemma cstr_at_bytes m off s r :
  is_cstring s → bytes_at m off (s ++ 0 :: r) → cstr_at m off = Ok s.
Proof.
  intros Hs H. unfold cstr_at. destruct (Z.ltb_spec off 0); [destruct H; lia|].
  destruct (bytes_at_drop _ _ _ H) as [post [He | ->]]; [by destruct s|].
  rewrite <- app_assoc. cbn [app]. by apply cstr_terminated.
Qed.

(** ** Writing *)

(** [lseek] to [off] followed by a [write]: a gap past the end is filled with
    zeros. *)
Definition pad_to (m : bytes) (n : Z) : bytes :=
  m ++ replicate (Z.to_nat (n - blen m)) 0.

Definition wr (m : bytes) (off : Z) (bs : bytes) : bytes :=
  let m' := pad_to m off in
  take (Z.to_nat off) m' ++ bs ++ drop (Z.to_nat off + length bs) m'.

Lemma pad_to_id m n : n ≤ blen m → pad_to m n = m.
Proof.
  intros. unfold pad_to. replace (Z.to_nat (n - blen m)) with 0%nat by lia.
  apply app_nil_r.
Qed.

Lemma blen_pad_to m n : blen (pad_to m n) = Z.max (blen m) n.
Proof. unfold pad_to. blia. Qed.

Lemma byte_at_take m n i : byte_at (take n m) i = if i <? Z.of_nat n then byte_at m i else None.
Proof.
  unfold byte_at. destruct (Z.ltb_spec i 0), (Z.ltb_spec i (Z.of_nat n)); try lia; auto.
  - apply lookup_take_lt. lia.
  - apply lookup_take_ge. lia.
Qed.

Lemma byte_at_drop m n i :
  byte_at (drop n m) i = if i <? 0 then None else byte_at m (Z.of_nat n + i).
Proof.
  unfold byte_at. destruct (Z.ltb_spec i 0); auto.
  destruct (Z.ltb_spec (Z.of_nat n + i) 0); [lia|].
  rewrite lookup_drop. f_equal. lia.
Qed.

Lemma byte_at_wr m off bs i :
  0 ≤ off ≤ blen m →
  byte_at (wr m off bs) i =
    if (off <=? i) && (i <? off + blen bs) then byte_at bs (i - off) else byte_at m i.
Proof.
  intros H. unfold wr. rewrite pad_to_id by lia.
  rewrite !byte_at_app, byte_at_take, byte_at_drop.
  assert (blen (take (Z.to_nat off) m) = off) as ->.
  { unfold blen in *. rewrite length_take. lia. }
  rewrite Nat2Z.inj_add, Z2Nat.id by lia. fold (blen bs).
  destruct (Z.ltb_spec i off), (Z.leb_spec off i); try lia; simpl; [done|].
  destruct (Z.ltb_spec (i - off) (blen bs)), (Z.ltb_spec i (off + blen bs)); try lia; auto.
  destruct (Z.ltb_spec (i - off - blen bs) 0); [lia|]. f_equal. lia.
Qed.

Lemma blen_wr m off bs :
  0 ≤ off ≤ blen m → blen (wr m off bs) = Z.max (blen m) (off + blen bs).
Proof.
  intros H. unfold wr. rewrite pad_to_id by lia. rewrite !blen_app.
  unfold blen in *. rewrite length_take, length_drop. lia.
Qed.

Lemma wr_append m bs : wr m (blen m) bs = m ++ bs.
Proof.
  apply byte_at_ext. intros i. rewrite byte_at_wr by blia. rewrite byte_at_app.
  destruct (Z.leb_spec (blen m) i), (Z.ltb_spec i (blen m)); try lia; simpl; auto.
  destruct (Z.ltb_spec i (blen m + blen bs)); auto.
  destruct (byte_at bs (i - blen m)) eqn:E1; [apply byte_at_lt in E1; lia|].
  destruct (byte_at m i) eqn:E2; [apply byte_at_lt in E2; lia|]. done.
Qed.

Lemma bytes_at_wr_same m off bs : 0 ≤ off ≤ blen m → bytes_at (wr m off bs) off bs.
Proof.
  intros H. split; [lia|]. intros i b Hb. rewrite byte_at_wr by done.
  pose proof (byte_at_lt _ _ _ Hb).
  destruct (Z.leb_spec off (off + i)), (Z.ltb_spec (off + i) (off + blen bs)); try lia.
  simpl. rewrite <- Hb. f_equal. lia.
Qed.

Lemma bytes_at_wr_disj m off bs off' bs' :
  0 ≤ off ≤ blen m →
  off' + blen bs' ≤ off ∨ off + blen bs ≤ off' →
  bytes_at m off' bs' → bytes_at (wr m off bs) off' bs'.
Proof.
  intros H Hd [H0 Hb]. split; [done|]. intros i b Hi. rewrite byte_at_wr by done.
  pose proof (byte_at_lt _ _ _ Hi).
  destruct (Z.leb_spec off (off' + i)), (Z.ltb_spec (off' + i) (off + blen bs)); simpl; auto; lia.
Qed.

Lemma wr_overwrite pre old new post :
  length old = length new → wr (pre ++ old ++ post) (blen pre) new = pre ++ new ++ post.
Proof.
  intros Hl. unfold wr. rewrite pad_to_id by blia.
  assert (Z.to_nat (blen pre) = length pre) as -> by (unfold blen; lia).
  rewrite take_app_length, <- Hl, <- drop_drop, drop_app_length.
  by rewrite drop_app_length.
Qed.

(** ** Blocks in a row *)

Lemma mjoin_cons (x : bytes) (xs : list bytes) : mjoin (x :: xs) = x ++ mjoin xs.
Proof. done. Qed.

Lemma mjoin_app (xs ys : list bytes) : mjoin (xs ++ ys) = mjoin xs ++ mjoin ys.
Proof.
  induction xs as [|x xs IH]; [done|]. rewrite <- app_comm_cons, !mjoin_cons, IH. apply app_assoc.
Qed.
