(* ===== verification/CString.v ===== *)
(** * CString: the C string functions the libraries call

    Strings are blocks of memory and offsets into them ([CMem]); a function that
    runs past the end of a block faults.  [TOLOWER] and [TOUPPER] are the tables
    of [lib/util.c]. *)
From S2P Require Import Prelude CMem.
#[local] Open Scope Z_scope.

(** [strlen(m + i)] *)
Definition strlen_at (m : bytes) (i : Z) : result Z := s ← cstr_at m i; Ok (blen s).

(** [!strncmp(a + i, b + j, n)] *)
Fixpoint strncmp_eq (a : bytes) (i : Z) (b : bytes) (j : Z) (n : nat) : result bool :=
  match n with
  | O => Ok true
  | S n' =>
      x ← rd8 a i; y ← rd8 b j;
      if x =? y then if x =? 0 then Ok true else strncmp_eq a (i + 1) b (j + 1) n' else Ok false
  end.

(** [convert_to_lowercase], [convert_to_uppercase]: only ASCII letters change. *)
Definition TOLOWER (c : Z) : Z := if (65 <=? c) && (c <=? 90) then c + 32 else c.
Definition TOUPPER (c : Z) : Z := if (97 <=? c) && (c <=? 122) then c - 32 else c.

(** [lcase]: in place, up to the NUL. *)
Fixpoint lcase (m : bytes) : result bytes :=
  match m with
  | [] => Fault OutOfBounds
  | c :: m' => if c =? 0 then Ok m else s ← lcase m'; Ok (TOLOWER c :: s)
  end.

(** ** What they do on terminated strings *)

Lemma rd8_app_l m r i : 0 ≤ i < blen m → ∃ b, byte_at m i = Some b ∧ rd8 (m ++ r) i = Ok b.
Proof.
  intros Hi. destruct (byte_at_is_Some m i Hi) as [b Hb]. exists b. split; [done|].
  apply rd8_ok. rewrite byte_at_app. destruct (Z.ltb_spec i (blen m)); [done|lia].
Qed.

Lemma cstring_at s i c : is_cstring s → byte_at s i = Some c → 0 < c < 256.
Proof.
  unfold is_cstring, byte_at. intros Hs H. destruct (i <? 0); [done|].
  apply list_elem_of_lookup_2 in H. by apply (proj1 (list.Forall_forall _ _) Hs).
Qed.

Lemma rd8_end m r c : rd8 (m ++ c :: r) (blen m) = Ok c.
Proof.
  apply rd8_ok. rewrite byte_at_app. destruct (Z.ltb_spec (blen m) (blen m)); [lia|].
  by rewrite Z.sub_diag.
Qed.

Lemma lcase_ok s r : is_cstring s → lcase (s ++ 0 :: r) = Ok (map TOLOWER s ++ 0 :: r).
Proof.
  induction 1 as [|c s Hc _ IH]; [done|]. cbn [app lcase map].
  destruct (Z.eqb_spec c 0); [lia|]. by rewrite IH.
Qed.

Lemma TOLOWER_nul c : 0 ≤ c → TOLOWER c = 0 ↔ c = 0.
Proof. unfold TOLOWER. destruct (Z.leb_spec 65 c), (Z.leb_spec c 90); cbn [andb]; lia. Qed.

Lemma TOLOWER_range c : 0 < c < 256 → 0 < TOLOWER c < 256.
Proof. unfold TOLOWER. destruct (Z.leb_spec 65 c), (Z.leb_spec c 90); cbn [andb]; lia. Qed.

Lemma TOLOWER_idem c : TOLOWER (TOLOWER c) = TOLOWER c.
Proof.
  unfold TOLOWER. destruct (Z.leb_spec 65 c), (Z.leb_spec c 90); cbn [andb];
    destruct (Z.leb_spec 65 (c + 32)), (Z.leb_spec (c + 32) 90), (Z.leb_spec 65 c), (Z.leb_spec c 90); cbn [andb]; lia.
Qed.

Lemma bytes_at_self m : bytes_at m 0 m.
Proof. by split. Qed.

Lemma strlen_at_ok s r i t :
  is_cstring t → 0 ≤ i → bytes_at s i (t ++ 0 :: r) → strlen_at s i = Ok (blen t).
Proof. intros Ht Hi Hb. unfold strlen_at. by rewrite (cstr_at_bytes _ _ _ _ Ht Hb). Qed.

(** [strchr(m + i, c)]: the offset of the character, [None] for [NULL].  [n] is the
    length of the block. *)
Fixpoint strchr_loop (n : nat) (m : bytes) (i c : Z) : result (option Z) :=
  match n with
  | O => Fault OutOfBounds
  | S n' => x ← rd8 m i; if x =? c then Ok (Some i) else if x =? 0 then Ok None else strchr_loop n' m (i + 1) c
  end.
Definition strchr (m : bytes) (i c : Z) : result (option Z) := strchr_loop (S (length m)) m i c.

(** [m[i] = c] *)
Definition store8 (m : bytes) (i c : Z) : result bytes :=
  if (0 <=? i) && (i <? blen m) then Ok (wr m i [c]) else Fault OutOfBounds.

Lemma store8_ok pre x post c : store8 (pre ++ x :: post) (blen pre) c = Ok (pre ++ c :: post).
Proof.
  unfold store8. pose proof (blen_nonneg pre). pose proof (blen_nonneg post). rewrite blen_app, blen_cons.
  destruct (Z.leb_spec 0 (blen pre)), (Z.ltb_spec (blen pre) (blen pre + (1 + blen post))); try lia. cbn [andb].
  f_equal. apply (wr_overwrite pre [x] [c] post). done.
Qed.

Lemma strchr_found pre s post c : c ≠ 0 → Forall (λ x, x ≠ c ∧ x ≠ 0) s →
  strchr (pre ++ s ++ c :: post) (blen pre) c = Ok (Some (blen pre + blen s)).
Proof.
  intros Hc Hs. unfold strchr. assert (length s < S (length (pre ++ s ++ c :: post)))%nat as Hn by (rewrite !length_app; lia).
  revert Hn. generalize (S (length (pre ++ s ++ c :: post))). intros n. revert pre s Hs. induction n as [|n IH]; intros pre s Hs Hn; [lia|].
  cbn [strchr_loop]. destruct Hs as [|x s [Hx1 Hx2] Hs]; cbn [app]; rewrite rd8_end; cbn [mbind result_bind].
  - rewrite Z.eqb_refl, blen_nil. do 2 f_equal. lia.
  - destruct (Z.eqb_spec x c); [done|]. destruct (Z.eqb_spec x 0); [done|]. cbn [length] in Hn.
    specialize (IH (pre ++ [x]) s Hs ltac:(lia)). rewrite blen_app, <- app_assoc in IH. cbn [app] in IH.
    change (blen [x]) with 1 in IH. rewrite IH, blen_cons. do 2 f_equal. lia.
Qed.

Lemma strchr_none pre s post c : c ≠ 0 → Forall (λ x, x ≠ c ∧ x ≠ 0) s → strchr (pre ++ s ++ 0 :: post) (blen pre) c = Ok None.
Proof.
  intros Hc Hs. unfold strchr. assert (length s < S (length (pre ++ s ++ 0%Z :: post)))%nat as Hn by (rewrite !length_app; lia).
  revert Hn. generalize (S (length (pre ++ s ++ 0%Z :: post))). intros n. revert pre s Hs. induction n as [|n IH]; intros pre s Hs Hn; [lia|].
  cbn [strchr_loop]. destruct Hs as [|x s [Hx1 Hx2] Hs]; cbn [app]; rewrite rd8_end; cbn [mbind result_bind].
  - by destruct (Z.eqb_spec 0 c).
  - destruct (Z.eqb_spec x c); [done|]. destruct (Z.eqb_spec x 0); [done|]. cbn [length] in Hn.
    specialize (IH (pre ++ [x]) s Hs ltac:(lia)). rewrite blen_app, <- app_assoc in IH. cbn [app] in IH.
    change (blen [x]) with 1 in IH. done.
Qed.

Lemma cstr_at_ok pre s post : is_cstring s → cstr_at (pre ++ s ++ 0 :: post) (blen pre) = Ok s.
Proof.
  intros Hs. eapply (cstr_at_bytes _ _ _ post); [done|]. pose proof (bytes_at_here pre (s ++ 0 :: post) []) as H.
  by rewrite app_nil_r in H.
Qed.

Lemma take_blen (a b : bytes) : take (Z.to_nat (blen a)) (a ++ b) = a.
Proof. unfold blen. rewrite Nat2Z.id. apply take_app_length. Qed.

Lemma wr_prefix (pre old new : bytes) : blen new ≤ blen old → ∃ r, wr (pre ++ old) (blen pre) new = pre ++ new ++ r.
Proof.
  intros H. exists (drop (length new) old). rewrite <- (take_drop (length new) old) at 1. unfold blen in H.
  apply (wr_overwrite pre (take (length new) old) new). rewrite length_take. lia.
Qed.
