(* ===== verification/SieveTree.v ===== *)
(** * SieveTree: the Sieve syntax tree and the bytecode's numbering

    The structures of [sieve/tree.h] with the parser tokens of
    [sieve/sieve.h], and the enumerations of [sieve/bytecode.h] with the
    integers C gives them. *)
From stdpp Require Export strings.
From S2P Require Import Prelude CMem.
#[local] Open Scope Z_scope.

(** The bytes of a string literal, without its NUL. *)
Fixpoint str (s : String.string) : bytes :=
  match s with
  | EmptyString => []
  | String c s' => Z.of_N (Ascii.N_of_ascii c) :: str s'
  end.

(** ** Parser tokens used inside the tree *)
Inductive token :=
  | IS | CONTAINS | MATCHES | REGEX | COUNT | VALUE
  | OVER | UNDER
  | GT | GE | LT | LE | EQ | NE
  | ALL | LOCALPART | DOMAIN | USER | DETAIL
  | RAW | TEXT | CONTENT
  | LOW | NORMAL | HIGH | ANY
  | PERSONAL | GLOBAL
  | TOK_OTHER (n : Z).

#[global] Instance token_eq_dec : EqDecision token.
Proof. solve_decision. Defined.

(** ** Tests: [struct Test] and [struct Testlist]

    [type] and the union are one constructor per case. *)
Inductive test :=
  | STRUE
  | SFALSE
  | NOT (t : test)
  | SIZE (t : token) (n : Z)
  | EXISTS (sl : list bytes)
  | ANYOF (tl : testlist)
  | ALLOF (tl : testlist)
  | HEADER (comptag relation : token) (comparator : bytes) (sl pl : list bytes)
  | ADDRESS (comptag relation : token) (comparator : bytes) (addrpart : token)
            (sl pl : list bytes)
  | ENVELOPE (comptag relation : token) (comparator : bytes) (addrpart : token)
             (sl pl : list bytes)
  | BODY (comptag relation : token) (comparator : bytes) (transform : token)
         (offset : Z) (content_types pl : list bytes)
  | TEST_OTHER (type : Z)
with testlist :=
  | TLnil
  | TLcons (t : test) (next : testlist).

(** ** Commands: [struct Commandlist]; a NULL list is [CLnil] *)
Inductive command :=
  | STOP | DISCARD | KEEP | MARK | UNMARK | RETURN
  | REJCT (msg : bytes)
  | FILEINTO (copy : Z) (folder : bytes)
  | REDIRECT (copy : Z) (address : bytes)
  | ADDFLAG (sl : list bytes)
  | SETFLAG (sl : list bytes)
  | REMOVEFLAG (sl : list bytes)
  | NOTIFY (method : bytes) (id : option bytes) (options : list bytes)
           (priority : token) (message : bytes)
  | DENOTIFY (comptag relation : token) (pattern : option bytes) (priority : token)
  | VACATION (addresses : list bytes) (subject message : option bytes)
             (days mime : Z) (from handle : option bytes)
  | INCLUDE (location : token) (script : bytes)
  | IF (t : test) (do_then do_else : commandlist)
  | CMD_OTHER (type : Z)
with commandlist :=
  | CLnil
  | CLcons (c : command) (next : commandlist).

Scheme test_ind' := Induction for test Sort Prop
  with testlist_ind' := Induction for testlist Sort Prop.
Combined Scheme test_testlist_ind from test_ind', testlist_ind'.

Scheme command_ind' := Induction for command Sort Prop
  with commandlist_ind' := Induction for commandlist Sort Prop.
Combined Scheme command_commandlist_ind from command_ind', commandlist_ind'.

(** ** [enum bytecode] *)
Inductive bytecode :=
  | B_STOP | B_KEEP | B_DISCARD | B_REJECT | B_FILEINTO_ORIG | B_REDIRECT_ORIG
  | B_IF | B_MARK | B_UNMARK | B_ADDFLAG | B_SETFLAG | B_REMOVEFLAG
  | B_NOTIFY | B_DENOTIFY | B_VACATION | B_NULL | B_JUMP
  | B_INCLUDE | B_RETURN | B_FILEINTO | B_REDIRECT.

Definition op_num (b : bytecode) : Z :=
  match b with
  | B_STOP => 0 | B_KEEP => 1 | B_DISCARD => 2 | B_REJECT => 3
  | B_FILEINTO_ORIG => 4 | B_REDIRECT_ORIG => 5 | B_IF => 6 | B_MARK => 7
  | B_UNMARK => 8 | B_ADDFLAG => 9 | B_SETFLAG => 10 | B_REMOVEFLAG => 11
  | B_NOTIFY => 12 | B_DENOTIFY => 13 | B_VACATION => 14 | B_NULL => 15
  | B_JUMP => 16 | B_INCLUDE => 17 | B_RETURN => 18 | B_FILEINTO => 19
  | B_REDIRECT => 20
  end.

(** ** [enum bytecode_comps] *)
Inductive bytecode_comps :=
  | BC_FALSE | BC_TRUE | BC_NOT | BC_EXISTS | BC_SIZE | BC_ANYOF | BC_ALLOF
  | BC_ADDRESS | BC_ENVELOPE | BC_HEADER | BC_BODY.

Definition comp_num (b : bytecode_comps) : Z :=
  match b with
  | BC_FALSE => 0 | BC_TRUE => 1 | BC_NOT => 2 | BC_EXISTS => 3 | BC_SIZE => 4
  | BC_ANYOF => 5 | BC_ALLOF => 6 | BC_ADDRESS => 7 | BC_ENVELOPE => 8
  | BC_HEADER => 9 | BC_BODY => 10
  end.

(** ** [enum bytecode_tags], placeholders left out of the type but counted *)
Inductive bytecode_tags :=
  | B_OVER | B_UNDER
  | B_GT | B_GE | B_LT | B_LE | B_EQ | B_NE
  | B_LOW | B_NORMAL | B_HIGH | B_ANY
  | B_ALL | B_LOCALPART | B_DOMAIN | B_USER | B_DETAIL
  | B_ASCIICASEMAP | B_OCTET | B_ASCIINUMERIC
  | B_IS | B_CONTAINS | B_MATCHES | B_REGEX | B_COUNT | B_VALUE
  | B_RAW | B_TEXT | B_CONTENT
  | B_PERSONAL | B_GLOBAL.

Definition tag_num (b : bytecode_tags) : Z :=
  match b with
  | B_OVER => 0 | B_UNDER => 1
  | B_GT => 4 | B_GE => 5 | B_LT => 6 | B_LE => 7 | B_EQ => 8 | B_NE => 9
  | B_LOW => 12 | B_NORMAL => 13 | B_HIGH => 14 | B_ANY => 15
  | B_ALL => 20 | B_LOCALPART => 21 | B_DOMAIN => 22 | B_USER => 23 | B_DETAIL => 24
  | B_ASCIICASEMAP => 29 | B_OCTET => 30 | B_ASCIINUMERIC => 31
  | B_IS => 36 | B_CONTAINS => 37 | B_MATCHES => 38 | B_REGEX => 39
  | B_COUNT => 40 | B_VALUE => 41
  | B_RAW => 46 | B_TEXT => 47 | B_CONTENT => 48
  | B_PERSONAL => 54 | B_GLOBAL => 55
  end.

(** [switch] on an integer: the enumerator it is, if it is one. *)
Definition all_ops : list bytecode :=
  [B_STOP; B_KEEP; B_DISCARD; B_REJECT; B_FILEINTO_ORIG; B_REDIRECT_ORIG; B_IF;
   B_MARK; B_UNMARK; B_ADDFLAG; B_SETFLAG; B_REMOVEFLAG; B_NOTIFY; B_DENOTIFY;
   B_VACATION; B_NULL; B_JUMP; B_INCLUDE; B_RETURN; B_FILEINTO; B_REDIRECT].
Definition all_comps : list bytecode_comps :=
  [BC_FALSE; BC_TRUE; BC_NOT; BC_EXISTS; BC_SIZE; BC_ANYOF; BC_ALLOF;
   BC_ADDRESS; BC_ENVELOPE; BC_HEADER; BC_BODY].
Definition all_tags : list bytecode_tags :=
  [B_OVER; B_UNDER; B_GT; B_GE; B_LT; B_LE; B_EQ; B_NE; B_LOW; B_NORMAL;
   B_HIGH; B_ANY; B_ALL; B_LOCALPART; B_DOMAIN; B_USER; B_DETAIL;
   B_ASCIICASEMAP; B_OCTET; B_ASCIINUMERIC; B_IS; B_CONTAINS; B_MATCHES;
   B_REGEX; B_COUNT; B_VALUE; B_RAW; B_TEXT; B_CONTENT; B_PERSONAL; B_GLOBAL].

Definition op_of (n : Z) : option bytecode := List.find (λ b, op_num b =? n) all_ops.
Definition comp_of (n : Z) : option bytecode_comps := List.find (λ b, comp_num b =? n) all_comps.
Definition tag_of (n : Z) : option bytecode_tags := List.find (λ b, tag_num b =? n) all_tags.

Lemma op_of_num b : op_of (op_num b) = Some b. Proof. by destruct b. Qed.
Lemma comp_of_num b : comp_of (comp_num b) = Some b. Proof. by destruct b. Qed.
Lemma tag_of_num b : tag_of (tag_num b) = Some b. Proof. by destruct b. Qed.

Lemma op_num_s32 b : is_s32 (op_num b). Proof. by destruct b. Qed.
Lemma comp_num_s32 b : is_s32 (comp_num b). Proof. by destruct b. Qed.
Lemma tag_num_s32 b : is_s32 (tag_num b). Proof. by destruct b. Qed.

(** [BYTECODE_VERSION], [BYTECODE_MIN_VERSION] and [BYTECODE_MAGIC]. *)
Definition BYTECODE_VERSION : Z := 5.
Definition BYTECODE_MIN_VERSION : Z := 3.
Definition BYTECODE_MAGIC : bytes := str "CyrSBytecode".
Definition BYTECODE_MAGIC_LEN : Z := 12.
