(* ===== verification/SieveComparator.v ===== *)
(** * SieveComparator: the comparators of [sieve/comparator.c]

    A [char *] is the memory from the pointer on: dereferencing it reads the
    head, incrementing it drops the head, and reading past the end of the
    block faults. *)
From S2P Require Import Prelude CMem SieveTree.
#[local] Open Scope Z_scope.

Definition deref (p : bytes) : result Z :=
  match p with [] => Fault OutOfBounds | b :: _ => Ok b end.

(** [strlen] *)
Definition c_strlen (p : bytes) : result Z := s ← cstr p; Ok (blen s).

(** [toupper] of the C locale, on a (signed) [char]. *)
Definition toupper (c : Z) : Z := if (97 <=? c) && (c <=? 122) then c - 32 else c.

(** ** [i;octet] and [i;ascii-casemap] *)

Definition char_cmp (casemap : bool) (t p : Z) : Z :=
  if casemap then toupper (schar t) - toupper (schar p) else schar t - schar p.

Fixpoint octet_cmp_loop (n : nat) (text pat : bytes) (casemap : bool) : result Z :=
  match n with
  | O => Ok 0
  | S n' =>
      t ← deref text; p ← deref pat;
      let r := char_cmp casemap t p in
      if r =? 0 then octet_cmp_loop n' (tail text) (tail pat) casemap else Ok r
  end.

Definition octet_cmp_ (text : bytes) (tlen : Z) (pat : bytes) (casemap : bool) : result Z :=
  plen ← c_strlen pat;
  let sl := if tlen <? plen then tlen else plen in
  r ← octet_cmp_loop (Z.to_nat sl) text pat casemap;
  if r =? 0 then Ok (to_s32 (to_u64 (tlen - plen))) else Ok r.

Definition octet_cmp (text : bytes) (tlen : Z) (pat : bytes) : result Z :=
  octet_cmp_ text tlen pat false.

Definition ascii_casemap_cmp (text : bytes) (tlen : Z) (pat : bytes) : result Z :=
  octet_cmp_ text tlen pat true.

Definition char_eq (casemap : bool) (t p : Z) : bool :=
  (schar t =? schar p) || (casemap && (toupper (schar t) =? toupper (schar p))).

(** The brute-force search; [i] and [j] are the C indexes. *)
Fixpoint octet_contains_loop (fuel : nat) (text pat : bytes) (N M i j : Z)
    (casemap : bool) : result Z :=
  match fuel with
  | O => Fault OutOfFuel
  | S fuel' =>
      if (j <? M) && (i <? N) then
        t ← rd8 text i; p ← rd8 pat j;
        if char_eq casemap t p
        then octet_contains_loop fuel' text pat N M (i + 1) (j + 1) casemap
        else octet_contains_loop fuel' text pat N M (i - j + 1) 0 casemap
      else Ok (b2z (j =? M))
  end.

Definition octet_contains_ (text : bytes) (tlen : Z) (pat : bytes) (casemap : bool) : result Z :=
  let N := to_s32 tlen in
  M ← c_strlen pat;
  octet_contains_loop (S (Z.to_nat ((N + 1) * (M + 1)))) text pat N M 0 0 casemap.

(** Inner loop of [case '*']: skip the wildcards that follow, eating one
    character per ['?'].  [None] is the [return 0]. *)
Fixpoint star_skip (p t : bytes) (tlen : Z) : result (option (bytes * bytes * Z)) :=
  match p with
  | [] => Fault OutOfBounds
  | c :: p' =>
      if c =? 42 then star_skip p' t tlen
      else if c =? 63 then
        if tlen =? 0 then Ok None else star_skip p' (tail t) (tlen - 1)
      else Ok (Some (p, t, tlen))
  end.

(** [while (tlen) { if (rec(t, tlen)) return 1; t++; tlen--; }]: [None] is
    the [return 1], [Some t] the text when the loop ends. *)
Fixpoint star_try (rec : bytes → Z → result Z) (tlen : nat) (t : bytes) : result (option bytes) :=
  match tlen with
  | O => Ok (Some t)
  | S n =>
      r ← rec t (Z.of_nat tlen);
      if r =? 0 then star_try rec n (tail t) else Ok None
  end.

Fixpoint octet_matches_rec (fuel : nat) (text : bytes) (tlen : Z) (pat : bytes)
    (casemap : bool) : result Z :=
  match fuel with
  | O => Fault OutOfFuel
  | S fuel' =>
      (* the default case: [c] against [*t] *)
      let literal (c : Z) (p t : bytes) (tlen : Z) : result Z :=
        x ← deref t;
        if char_eq casemap c x
        then octet_matches_rec fuel' (tail t) (to_u64 (tlen - 1)) p casemap
        else Ok 0 in
      c ← deref pat;
      if c =? 0 then Ok (b2z (tlen =? 0))
      else
        let p := tail pat in
        if c =? 63 then
          if tlen =? 0 then Ok 0
          else octet_matches_rec fuel' (tail text) (to_u64 (tlen - 1)) p casemap
        else if c =? 42 then
          s ← star_skip p text tlen;
          match s with
          | None => Ok 0
          | Some (p, t, tlen) =>
              q ← deref p;
              if q =? 0 then Ok 1
              else
                r ← star_try (λ t' tlen', octet_matches_rec fuel' t' tlen' p casemap)
                             (Z.to_nat tlen) t;
                match r with
                | None => Ok 1
                | Some t => (* falls through into case '\\' *) literal c (tail p) t 0
                end
          end
        else if c =? 92 then literal c (tail p) text tlen
        else literal c p text tlen
  end.

Definition octet_matches_ (text : bytes) (tlen : Z) (pat : bytes) (casemap : bool) : result Z :=
  octet_matches_rec (S (length pat)) text tlen pat casemap.

(** ** [i;ascii-numeric] *)

(** [for (n = 0; tlen-- && isdigit(text[n]); n++);] *)
Fixpoint text_digits (text : bytes) (tlen : nat) : result Z :=
  match tlen with
  | O => Ok 0
  | S n =>
      b ← deref text;
      if isdigit (schar b) then d ← text_digits (tail text) n; Ok (1 + d) else Ok 0
  end.

(** [for (n = 0; isdigit(pat[n]); n++);] *)
Fixpoint pat_digits (pat : bytes) : result Z :=
  match pat with
  | [] => Fault OutOfBounds
  | b :: pat' => if isdigit (schar b) then d ← pat_digits pat'; Ok (1 + d) else Ok 0
  end.

(** Drop [n] leading digits; [None] when one of them is above ['0']. *)
Fixpoint skip_zeros (n : nat) (p : bytes) : result (option bytes) :=
  match n with
  | O => Ok (Some p)
  | S n' => b ← deref p; if 48 <? schar b then Ok None else skip_zeros n' (tail p)
  end.

Fixpoint cmp_digits (n : nat) (text pat : bytes) : result Z :=
  match n with
  | O => Ok 0
  | S n' =>
      t ← deref text; p ← deref pat;
      if schar t <? schar p then Ok (-1)
      else if schar p <? schar t then Ok 1
      else cmp_digits n' (tail text) (tail pat)
  end.

Definition ascii_numeric_cmp (text : bytes) (tlen : Z) (pat : bytes) : result Z :=
  p0 ← deref pat; t0 ← deref text;
  if isdigit (schar p0) then
    if isdigit (schar t0) then
      tdl ← text_digits text (Z.to_nat tlen);
      pdl ← pat_digits pat;
      if tdl <? pdl then
        r ← skip_zeros (Z.to_nat (pdl - tdl)) pat;
        match r with
        | None => Ok (-1)
        | Some pat => cmp_digits (Z.to_nat tdl) text pat
        end
      else if pdl <? tdl then
        r ← skip_zeros (Z.to_nat (tdl - pdl)) text;
        match r with
        | None => Ok 1
        | Some text => cmp_digits (Z.to_nat pdl) text pat
        end
      else cmp_digits (Z.to_nat tdl) text pat
    else Ok 1
  else if isdigit (schar t0) then Ok (-1)
  else Ok 0.

(** ** [comparator_t], [lookup_rel] and [lookup_comp]

    Regular expressions are the platform's [regcomp]/[regexec]. *)
Section Lookup.
Context {regex : Type} (regexec : regex → bytes → bool).

(** The [pat] argument: a C string, or a compiled expression cast to
    [const char *]. *)
Inductive pattern := Pstr (p : bytes) | Preg (r : regex).

Definition compare_t : Type := bytes → Z → bytes → result Z.
Definition comparator_t : Type := bytes → Z → pattern → option compare_t → result Z.

Definition with_str (f : bytes → result Z) (pat : pattern) : result Z :=
  match pat with Pstr p => f p | Preg _ => Fault OutOfBounds end.

(** The generic wrappers [rel_eq] ... [rel_le]: [rock] is the compare function. *)
Definition rel_with (test : Z → bool) : comparator_t := λ text tlen pat rock,
  match rock with
  | None => Fault OutOfBounds
  | Some compar => with_str (λ p, r ← compar text tlen p; Ok (b2z (test r))) pat
  end.

Definition rel_eq := rel_with (λ r, r =? 0).
Definition rel_ne := rel_with (λ r, negb (r =? 0)).
Definition rel_gt := rel_with (λ r, 0 <? r).
Definition rel_ge := rel_with (λ r, 0 <=? r).
Definition rel_lt := rel_with (λ r, r <? 0).
Definition rel_le := rel_with (λ r, r <=? 0).

Definition octet_contains : comparator_t := λ text tlen pat _,
  with_str (λ p, octet_contains_ text tlen p false) pat.
Definition ascii_casemap_contains : comparator_t := λ text tlen pat _,
  with_str (λ p, octet_contains_ text tlen p true) pat.
Definition octet_matches : comparator_t := λ text tlen pat _,
  with_str (λ p, octet_matches_ text tlen p false) pat.
Definition ascii_casemap_matches : comparator_t := λ text tlen pat _,
  with_str (λ p, octet_matches_ text tlen p true) pat.

(** [regexec] reads its argument up to the first NUL; text that is not
    NUL-terminated at [tlen] is copied first. *)
Definition octet_regex : comparator_t := λ text tlen pat _,
  match pat with
  | Pstr _ => Fault OutOfBounds
  | Preg r =>
      e ← rd8 text tlen;
      s ← (if e =? 0 then cstr text else b ← rdn text 0 (Z.to_nat tlen); cstr (b ++ [0]));
      Ok (b2z (regexec r s))
  end.

Definition lookup_rel (relation : Z) : option comparator_t :=
  match tag_of relation with
  | Some B_EQ => Some rel_eq
  | Some B_NE => Some rel_ne
  | Some B_GT => Some rel_gt
  | Some B_GE => Some rel_ge
  | Some B_LT => Some rel_lt
  | Some B_LE => Some rel_le
  | _ => None
  end.

(** The comparator and the [comprock] it sets. *)
Definition lookup_comp (comp mode relation : Z) : option comparator_t * option compare_t :=
  match tag_of comp with
  | Some B_OCTET =>
      match tag_of mode with
      | Some B_IS => (Some rel_eq, Some octet_cmp)
      | Some B_CONTAINS => (Some octet_contains, None)
      | Some B_MATCHES => (Some octet_matches, None)
      | Some B_REGEX => (Some octet_regex, None)
      | Some B_VALUE => (lookup_rel relation, Some octet_cmp)
      | _ => (None, None)
      end
  | Some B_ASCIICASEMAP =>
      match tag_of mode with
      | Some B_IS => (Some rel_eq, Some ascii_casemap_cmp)
      | Some B_CONTAINS => (Some ascii_casemap_contains, None)
      | Some B_MATCHES => (Some ascii_casemap_matches, None)
      | Some B_REGEX => (Some octet_regex, None)
      | Some B_VALUE => (lookup_rel relation, Some ascii_casemap_cmp)
      | _ => (None, None)
      end
  | Some B_ASCIINUMERIC =>
      match tag_of mode with
      | Some B_IS => (Some rel_eq, Some ascii_numeric_cmp)
      | Some B_COUNT | Some B_VALUE => (lookup_rel relation, Some ascii_numeric_cmp)
      | _ => (None, None)
      end
  | _ => (None, None)
  end.
End Lookup.
Arguments pattern _ : clear implicits.
Arguments comparator_t _ : clear implicits.

(** Escapes: the code compares the backslash itself with the text. *)
Example matches_ex1 : octet_matches_ (str "hello" ++ [0]) 5 (str "h*l?" ++ [0]) false = Ok 1.
Proof. reflexivity. Qed.
Example matches_ex2 : octet_matches_ (str "*" ++ [0]) 1 (str "\*" ++ [0]) false = Ok 0.
Proof. reflexivity. Qed.
Example matches_ex3 : octet_matches_ (str "\" ++ [0]) 1 (str "\*" ++ [0]) false = Ok 1.
Proof. reflexivity. Qed.
