(* ===== verification/SieveComparatorSpec.v ===== *)
(** * SieveComparatorSpec: what the Sieve comparators compute

    Reference definitions of the four match types of RFC 3028 and the
    theorems that the pointer code of [comparator.c] computes them, for a text
    of [tlen] characters and a NUL-terminated pattern. *)
From S2P Require Import Prelude CMem SieveTree SieveComparator.
#[local] Open Scope Z_scope.

(** The value of a character the comparators compare. *)
Definition key (casemap : bool) (b : Z) : Z :=
  if casemap then toupper (schar b) else schar b.

Lemma char_eq_key cm t p : char_eq cm t p = (key cm t =? key cm p).
Proof.
  unfold char_eq, key. destruct cm; simpl; [|apply orb_false_r].
  destruct (Z.eqb_spec (schar t) (schar p)) as [->|]; simpl; [|done].
  symmetry. apply Z.eqb_refl.
Qed.

Lemma char_cmp_key cm t p : char_cmp cm t p = key cm t - key cm p.
Proof. by destruct cm. Qed.

Lemma key_nul cm b : is_byte b → key cm b = 0 ↔ b = 0.
Proof.
  unfold key, toupper, schar, is_byte. intros.
  destruct cm, (Z.ltb_spec b 128); repeat (case_match; simpl in *); 
    rewrite ?andb_true_iff, ?andb_false_iff, ?Z.leb_le, ?Z.leb_gt in *; lia.
Qed.

(** ** [i;octet] and [i;ascii-casemap] order *)

(** Lexicographic comparison: the sign C programs expect of a [compare]. *)
Fixpoint lex (l1 l2 : list Z) : Z :=
  match l1, l2 with
  | [], [] => 0
  | [], _ => -1
  | _, [] => 1
  | a :: l1', b :: l2' => if a =? b then lex l1' l2' else Z.sgn (a - b)
  end.

Lemma octet_cmp_loop_spec cm t p r q :
  let n := Nat.min (length t) (length p) in
  ∃ c, octet_cmp_loop n (t ++ r) (p ++ q) cm = Ok c ∧
    (if c =? 0 then Z.sgn (blen t - blen p) else Z.sgn c)
      = lex (map (key cm) t) (map (key cm) p).
Proof.
  revert p. induction t as [|a t IH]; intros [|b p]; cbn [length Nat.min octet_cmp_loop].
  1-3: exists 0; (split; [done|]); unfold blen; cbn; lia.
  cbn [app deref tail map lex]. cbn. rewrite char_cmp_key.
  destruct (Z.eqb_spec (key cm a - key cm b) 0) as [E|E].
  - destruct (Z.eqb_spec (key cm a) (key cm b)); [|lia].
    destruct (IH p) as (c & -> & Hc). exists c. split; [done|].
    rewrite <- Hc. rewrite !blen_cons. by destruct (c =? 0); [f_equal; lia|].
  - destruct (Z.eqb_spec (key cm a) (key cm b)); [lia|].
    exists (key cm a - key cm b). split; [done|].
    destruct (Z.eqb_spec (key cm a - key cm b) 0); [lia|]. done.
Qed.

Lemma c_strlen_ok p q : is_cstring p → c_strlen (p ++ 0 :: q) = Ok (blen p).
Proof. intros. unfold c_strlen. by rewrite cstr_terminated. Qed.

Lemma to_s32_u64_diff a b :
  0 ≤ a < 2147483648 → 0 ≤ b < 2147483648 → to_s32 (to_u64 (a - b)) = a - b.
Proof.
  intros. unfold to_s32, to_u32, to_u64.
  destruct (Z.ltb_spec ((a - b) mod 18446744073709551616 mod 4294967296) 2147483648);
    Z.to_euclidean_division_equations; lia.
Qed.

(** [octet_cmp] and [ascii_casemap_cmp] order a text of [tlen] characters
    against a NUL-terminated pattern lexicographically by (case-folded)
    character value, the shorter of two strings with a common prefix first, and
    never read outside the two buffers. *)
Theorem octet_cmp_lexicographic (t r p q : bytes) (cm : bool)
    (Hp : is_cstring p) (Ht : blen t < 2147483648) (Hpl : blen p < 2147483648) :
  ∃ c, octet_cmp_ (t ++ r) (blen t) (p ++ 0 :: q) cm = Ok c ∧
       Z.sgn c = lex (map (key cm) t) (map (key cm) p).
Proof.
  unfold octet_cmp_. rewrite c_strlen_ok by done. cbn [mbind result_bind].
  replace (Z.to_nat (if blen t <? blen p then blen t else blen p))
    with (Nat.min (length t) (length p)) by (unfold blen; case_match; lia).
  destruct (octet_cmp_loop_spec cm t p r (0 :: q)) as (c & -> & Hc).
  cbn [mbind result_bind]. destruct (c =? 0); [|by eauto].
  eexists; split; [done|]. by rewrite to_s32_u64_diff by blia.
Qed.

(** ** [:contains] *)

Definition infix_of (p t : list Z) : Prop := ∃ u v, t = u ++ p ++ v.

Section Contains.
Context (cm : bool) (t p r q : bytes).
Let N := blen t.
Let M := blen p.
Let T := map (key cm) t.
Let P := map (key cm) p.

Definition occurs_at (k : nat) : Prop := take (length P) (drop k T) = P.

Lemma occurs_infix : (∃ k, occurs_at k) ↔ infix_of P T.
Proof.
  unfold occurs_at, infix_of. split.
  - intros [k Hk]. exists (take k T), (drop (length P) (drop k T)).
    rewrite <- Hk at 1. rewrite take_drop. by rewrite take_drop.
  - intros (u & v & ->). exists (length u).
    by rewrite drop_app_length, take_app_length.
Qed.

Lemma contains_loop_spec fuel i j k :
  i = Z.of_nat k + j → 0 ≤ j ≤ M → i ≤ N →
  take (Z.to_nat j) (drop k T) = take (Z.to_nat j) P →
  (∀ k', (k' < k)%nat → ¬ occurs_at k') →
  (N - Z.of_nat k) * (M + 1) - j < Z.of_nat fuel →
  ∃ b : bool, octet_contains_loop fuel (t ++ r) (p ++ q) N M i j cm = Ok (b2z b) ∧
    (b = true ↔ infix_of P T).
Proof.
  assert (length T = length t ∧ length P = length p) as [HT HP]
    by (unfold T, P; by rewrite !length_map).
  unfold N, M, blen in *. revert i j k.
  induction fuel as [|fuel IH]; intros i j k Hi Hj HiN Hpre Hno Hf; [nia|].
  cbn [octet_contains_loop].
  destruct (Z.ltb_spec j (Z.of_nat (length p))), (Z.ltb_spec i (Z.of_nat (length t))); simpl.
  - destruct (lookup_lt_is_Some_2 t (Z.to_nat i)) as [x Hx]; [lia|].
    destruct (lookup_lt_is_Some_2 p (Z.to_nat j)) as [y Hy]; [lia|].
    assert (rd8 (t ++ r) i = Ok x) as ->.
    { apply rd8_ok. unfold byte_at. destruct (Z.ltb_spec i 0); [lia|]. by apply lookup_app_l_Some. }
    assert (rd8 (p ++ q) j = Ok y) as ->.
    { apply rd8_ok. unfold byte_at. destruct (Z.ltb_spec j 0); [lia|]. by apply lookup_app_l_Some. }
    cbn [mbind result_bind]. rewrite char_eq_key.
    assert (drop k T !! Z.to_nat j = Some (key cm x)) as HTx.
    { rewrite lookup_drop. unfold T. rewrite list_lookup_fmap.
      replace (k + Z.to_nat j)%nat with (Z.to_nat i) by lia. by rewrite Hx. }
    assert (P !! Z.to_nat j = Some (key cm y)) as HPy.
    { unfold P. by rewrite list_lookup_fmap, Hy. }
    destruct (Z.eqb_spec (key cm x) (key cm y)) as [E|E].
    + apply (IH _ _ k); try lia; try done.
      replace (Z.to_nat (j + 1)) with (S (Z.to_nat j)) by lia.
      rewrite (take_S_r _ _ _ HTx), (take_S_r _ _ _ HPy). by rewrite Hpre, E.
    + apply (IH _ _ (S k)); try lia; try done.
      * intros k' Hk'. destruct (decide (k' = k)) as [->|]; [|apply Hno; lia].
        unfold occurs_at. intros HO. apply E.
        rewrite <- HO in HPy. rewrite lookup_take_lt in HPy by lia. congruence.
  - exists false. destruct (Z.eqb_spec j (Z.of_nat (length p))); [lia|].
    split; [done|]. rewrite <- occurs_infix. split; [done|]. intros [k' HO].
    destruct (decide (k' < k)%nat); [by destruct (Hno k')|].
    apply (f_equal length) in HO. rewrite length_take, length_drop in HO. lia.
  - exists true. assert (j = Z.of_nat (length p)) as -> by lia. rewrite Z.eqb_refl.
    split; [done|]. split; [|done]. intros _. apply occurs_infix. exists k.
    rewrite Nat2Z.id in Hpre. unfold occurs_at. rewrite HP, Hpre, <- HP. apply firstn_all.
  - exists true. assert (j = Z.of_nat (length p)) as -> by lia. rewrite Z.eqb_refl.
    split; [done|]. split; [|done]. intros _. apply occurs_infix. exists k.
    rewrite Nat2Z.id in Hpre. unfold occurs_at. rewrite HP, Hpre, <- HP. apply firstn_all.
Qed.
End Contains.

Lemma octet_contains_ok (t r p q : bytes) (cm : bool) :
  is_cstring p → blen t < 2147483648 →
  ∃ b : bool, octet_contains_ (t ++ r) (blen t) (p ++ 0 :: q) cm = Ok (b2z b) ∧
    (b = true ↔ infix_of (map (key cm) p) (map (key cm) t)).
Proof.
  intros Hp Ht.
  unfold octet_contains_. rewrite to_s32_small by (unfold is_s32; blia).
  rewrite c_strlen_ok by done. cbn [mbind result_bind].
  apply (contains_loop_spec _ _ _ _ _ _ _ _ 0); try done; try blia.
Qed.

(** The brute-force [octet_contains_] terminates, stays inside both
    buffers and answers 1 exactly when the pattern occurs somewhere in the
    text (case-folded for [i;ascii-casemap]). *)
Theorem octet_contains_substring (t r p q : bytes) (cm : bool)
    (Hp : is_cstring p) (Ht : blen t < 2147483648) :
  ∃ b : bool, octet_contains_ (t ++ r) (blen t) (p ++ 0 :: q) cm = Ok (b2z b) ∧
    (b = true ↔ infix_of (map (key cm) p) (map (key cm) t)).
Proof. exact (octet_contains_ok t r p q cm Hp Ht). Qed.

(** ** [:matches] *)

(** Patterns without escapes: ['?'] is any character, ['*'] any string. *)
Inductive wild (cm : bool) : bytes → bytes → Prop :=
  | wild_nil : wild cm [] []
  | wild_any p c t : wild cm p t → wild cm (63 :: p) (c :: t)
  | wild_star p u t : wild cm p t → wild cm (42 :: p) (u ++ t)
  | wild_char p c x t :
      c ≠ 42 → c ≠ 63 → key cm c = key cm x → wild cm p t → wild cm (c :: p) (x :: t).

Definition no_escape (p : bytes) : Prop := Forall (λ c, c ≠ 92) p.

Lemma wild_nil_inv cm t : wild cm [] t ↔ t = [].
Proof. split; [by inversion 1|intros ->; constructor]. Qed.

Lemma wild_any_inv cm p t : wild cm (63 :: p) t ↔ ∃ c t', t = c :: t' ∧ wild cm p t'.
Proof.
  split; [inversion 1; subst; [eauto|done]|].
  intros (c & t' & -> & ?). by constructor.
Qed.

Lemma wild_star_inv cm p t : wild cm (42 :: p) t ↔ ∃ u v, t = u ++ v ∧ wild cm p v.
Proof.
  split; [inversion 1; subst; [eauto|done]|].
  intros (u & v & -> & ?). by constructor.
Qed.

Lemma wild_char_inv cm p c t :
  c ≠ 42 → c ≠ 63 →
  wild cm (c :: p) t ↔ ∃ x t', t = x :: t' ∧ key cm c = key cm x ∧ wild cm p t'.
Proof.
  intros. split; [inversion 1; subst; [done|done|eauto]|].
  intros (x & t' & -> & ? & ?). by constructor.
Qed.

Lemma wild_star_nil cm t : wild cm [42] t.
Proof. rewrite <- (app_nil_r t). constructor. constructor. Qed.

Lemma wild_star_star cm p t : wild cm (42 :: 42 :: p) t ↔ wild cm (42 :: p) t.
Proof.
  rewrite !wild_star_inv. split.
  - intros (u & v & -> & (u' & v' & -> & H)%wild_star_inv).
    exists (u ++ u'), v'. by rewrite app_assoc.
  - intros (u & v & -> & H). exists u, v. split; [done|].
    apply wild_star_inv. by exists [], v.
Qed.

Lemma wild_star_any cm p t :
  wild cm (42 :: 63 :: p) t ↔ ∃ c t', t = c :: t' ∧ wild cm (42 :: p) t'.
Proof.
  rewrite wild_star_inv. split.
  - intros (u & v & -> & (c & v' & -> & H)%wild_any_inv). destruct u as [|d u].
    + exists c, v'. split; [done|]. apply wild_star_inv. by exists [], v'.
    + exists d, (u ++ c :: v'). split; [done|]. apply wild_star_inv.
      exists (u ++ [c]), v'. by rewrite <- app_assoc.
  - intros (c & t' & -> & (u & v & -> & H)%wild_star_inv). destruct u as [|d u].
    + exists [], (c :: v). split; [done|]. apply wild_any_inv. eauto.
    + destruct (exists_last (l := d :: u)) as (u' & e & E); [done|].
      rewrite E. exists (c :: u'), (e :: v). split; [by rewrite <- !app_assoc|].
      apply wild_any_inv. eauto.
Qed.

Section Matches.
Context (cm : bool) (r q : bytes).

#[local] Abbreviation mem t := (t ++ 0 :: r).
#[local] Abbreviation pmem p := (p ++ 0 :: q).

(** A pattern is past the wildcards that follow a ['*']. *)
Definition star_done (p : bytes) : Prop :=
  match p with [] => True | c :: _ => c ≠ 42 ∧ c ≠ 63 end.

Lemma star_skip_spec p t :
  is_cstring p →
  (star_skip (pmem p) (mem t) (blen t) = Ok None ∧ ¬ wild cm (42 :: p) t) ∨
  (∃ p' t', star_skip (pmem p) (mem t) (blen t) = Ok (Some (pmem p', mem t', blen t')) ∧
     p' `suffix_of` p ∧ t' `suffix_of` t ∧ star_done p' ∧
     (wild cm (42 :: p) t ↔ wild cm (42 :: p') t')).
Proof.
  intros Hp. revert t. induction Hp as [|c p Hc Hp IH]; intros t; cbn [app star_skip].
  { right. exists [], t. done. }
  destruct (Z.eqb_spec c 42) as [->|].
  { destruct (IH t) as [[E H]|(p' & t' & E & Hs & Ht & Hd & H)]; [left|right].
    - split; [done|]. by rewrite wild_star_star.
    - exists p', t'. split_and!; try done; [by apply suffix_cons_r|].
      by rewrite wild_star_star. }
  destruct (Z.eqb_spec c 63) as [->|].
  { destruct t as [|x t]; [left|].
    - split; [done|]. rewrite wild_star_any. by intros (? & ? & ? & ?).
    - rewrite blen_cons. destruct (Z.eqb_spec (1 + blen t) 0); [blia|].
      cbn [tail app]. replace (1 + blen t - 1) with (blen t) by lia.
      assert (wild cm (42 :: 63 :: p) (x :: t) ↔ wild cm (42 :: p) t) as HW.
      { rewrite wild_star_any. split; [intros (? & ? & [= <- <-] & ?); done|eauto]. }
      destruct (IH t) as [[E H]|(p' & t' & E & Hs & Ht & Hd & H)]; [left|right].
      + split; [done|]. by rewrite HW.
      + exists p', t'. split_and!; try done; [by apply suffix_cons_r|by apply suffix_cons_r|].
        by rewrite HW. }
  right. exists (c :: p), t. done.
Qed.

Lemma star_try_spec (rec : bytes → Z → result Z) (W : bytes → Prop) t :
  (∀ u, u `suffix_of` t → ∃ b : bool, rec (mem u) (blen u) = Ok (b2z b) ∧ (b = true ↔ W u)) →
  (star_try rec (length t) (mem t) = Ok None ∧ (∃ u v, t = u ++ v ∧ v ≠ [] ∧ W v)) ∨
  (star_try rec (length t) (mem t) = Ok (Some (0 :: r)) ∧ ¬ (∃ u v, t = u ++ v ∧ v ≠ [] ∧ W v)).
Proof.
  induction t as [|x t IH]; intros Hrec.
  { right. split; [done|]. intros (u & v & E & Hne & _). by destruct u, v. }
  cbn [length star_try].
  destruct (Hrec (x :: t)) as (b & Hb & HW); [done|]. unfold blen in Hb. cbn [length] in Hb.
  go_bind Hb. destruct b; cbn [b2z Z.eqb].
  - left. split; [done|]. exists [], (x :: t). split_and!; [done|done|by apply HW].
  - cbn [app tail]. destruct IH as [[E H]|[E H]].
    { intros u Hu. apply Hrec. by apply suffix_cons_r. }
    + left. split; [done|]. destruct H as (u & v & -> & Hne & Hv). exists (x :: u), v. done.
    + right. split; [done|]. intros (u & v & Ev & Hne & Hv).
      destruct u as [|y u]; simplify_eq/=.
      * assert (false = true) by (apply HW; done). done.
      * apply H. eauto.
Qed.

Lemma key_char_nul c : 0 < c < 256 → key cm c ≠ key cm 0.
Proof.
  intros Hc. rewrite (proj2 (key_nul cm 0 ltac:(unfold is_byte; lia))) by done.
  intros E. apply key_nul in E; [lia|unfold is_byte; lia].
Qed.

Lemma matches_rec_spec fuel p t :
  is_cstring p → no_escape p → is_cstring t → (length p < fuel)%nat →
  blen t < 18446744073709551616 →
  ∃ b : bool, octet_matches_rec fuel (mem t) (blen t) (pmem p) cm = Ok (b2z b) ∧
    (b = true ↔ wild cm p t).
Proof.
  revert p t. induction fuel as [|fuel IH]; intros p t Hp He Ht Hf Hl; [lia|].
  destruct p as [|c p].
  { cbn. exists (blen t =? 0). split; [done|]. rewrite wild_nil_inv, Z.eqb_eq.
    destruct t; [done|]. rewrite blen_cons. split; [blia|done]. }
  pose proof (Forall_inv Hp) as Hc. apply Forall_inv_tail in Hp.
  pose proof (Forall_inv He) as Hc'. apply Forall_inv_tail in He. simpl in Hc, Hc', Hf.
  cbn [app octet_matches_rec deref tail]. cbn [mbind result_bind].
  destruct (Z.eqb_spec c 0); [lia|].
  destruct (Z.eqb_spec c 63) as [->|].
  { destruct t as [|x t]; cbn [app tail].
    - exists false. split; [done|]. rewrite wild_any_inv. split; [done|by intros (? & ? & ? & ?)].
    - rewrite blen_cons in *. destruct (Z.eqb_spec (1 + blen t) 0); [blia|].
      replace (1 + blen t - 1) with (blen t) by lia. rewrite to_u64_small by blia.
      apply Forall_inv_tail in Ht.
      destruct (IH p t) as (b & -> & Hb); try done; [lia|blia|].
      exists b. split; [done|]. rewrite Hb, wild_any_inv.
      split; [eauto|intros (? & ? & [= <- <-] & ?); done]. }
  destruct (Z.eqb_spec c 42) as [->|].
  { destruct (star_skip_spec p t Hp) as [[E H]|(p' & t' & E & Hs & Hst & Hd & H)].
    { go_bind E. exists false. done. }
    go_bind E.
    assert (is_cstring t') as Ht' by (destruct Hst as [? ->]; by apply Forall_app in Ht as [_ ?]).
    assert (blen t' ≤ blen t) by (destruct Hst as [? ->]; blia).
    assert (is_cstring p') as Hp' by (destruct Hs as [? ->]; by apply Forall_app in Hp as [_ ?]).
    assert (no_escape p') as He' by (destruct Hs as [? ->]; by apply Forall_app in He as [_ ?]).
    assert (length p' ≤ length p)%nat as Hlp by (by apply suffix_length).
    setoid_rewrite H. clear E H Hs. destruct p' as [|d p'].
    { cbn. exists true. split; [done|]. split; [intros _; apply wild_star_nil|done]. }
    cbn [app deref]. cbn [mbind result_bind]. cbn [deref mbind result_bind].
    pose proof (Forall_inv Hp') as Hd'. simpl in Hd'.
    destruct (Z.eqb_spec d 0); [lia|]. unfold blen at 1. rewrite Nat2Z.id.
    destruct (star_try_spec (λ t' tlen', octet_matches_rec fuel t' tlen' (pmem (d :: p')) cm)
                (wild cm (d :: p')) t') as [[E H]|[E H]].
    { intros u [w ->]. apply Forall_app in Ht' as [_ Hu]. apply IH; try done; [simpl in *; lia|blia]. }
    + cbn [app] in E. go_bind E. exists true. split; [done|]. split; [|done]. intros _.
      destruct H as (u & v & -> & _ & H). by constructor.
    + cbn [app] in E. go_bind E. cbn [app deref tail]. cbn [mbind result_bind]. rewrite char_eq_key.
      destruct (Z.eqb_spec (key cm 42) (key cm 0)) as [E0|]; [by apply key_char_nul in E0|].
      exists false. split; [done|]. split; [done|]. intros Hw. exfalso. apply H.
      apply wild_star_inv in Hw as (u & v & -> & Hw). exists u, v. split_and!; try done.
      intros ->. destruct Hd. by apply wild_char_inv in Hw as (? & ? & ? & ?). }
  destruct (Z.eqb_spec c 92); [done|].
  setoid_rewrite (wild_char_inv cm p c t); [|done..]. destruct t as [|x t]; cbn [app deref tail]; cbn [mbind result_bind];
    rewrite char_eq_key.
  - exists false. destruct (Z.eqb_spec (key cm c) (key cm 0)) as [E0|]; [by apply key_char_nul in E0|].
    split; [done|]. split; [done|by intros (? & ? & ? & ?)].
  - destruct (Z.eqb_spec (key cm c) (key cm x)) as [E|E].
    + rewrite blen_cons in *. replace (1 + blen t - 1) with (blen t) by lia.
      rewrite to_u64_small by blia. apply Forall_inv_tail in Ht.
      destruct (IH p t) as (b & -> & Hb); try done; [lia|blia|].
      exists b. split; [done|]. rewrite Hb. split; [eauto|intros (? & ? & [= <- <-] & ? & ?); done].
    + exists false. split; [done|]. split; [done|]. by intros (? & ? & [= <- <-] & ? & ?).
Qed.
End Matches.

(** C23: on a NUL-terminated text and a pattern without backslashes,
    [octet_matches_] terminates, stays inside both strings and answers 1
    exactly when the text matches the pattern with ['?'] for any character
    and ['*'] for any string. *)
Theorem octet_matches_wildcard (t r p q : bytes) (cm : bool)
    (Hp : is_cstring p) (He : no_escape p) (Ht : is_cstring t)
    (Hl : blen t < 18446744073709551616) :
  ∃ b : bool, octet_matches_ (t ++ 0 :: r) (blen t) (p ++ 0 :: q) cm = Ok (b2z b) ∧
    (b = true ↔ wild cm p t).
Proof.
  unfold octet_matches_. apply matches_rec_spec; try done.
  rewrite length_app. simpl. lia.
Qed.

(** ** [i;ascii-numeric] *)

(** The leading digits of a string, and the number they write in base 10. *)
Fixpoint digits (s : bytes) : bytes :=
  match s with
  | [] => []
  | b :: s' => if isdigit (schar b) then b :: digits s' else []
  end.

Fixpoint dec (ds : bytes) : Z :=
  match ds with
  | [] => 0
  | d :: ds' => (d - 48) * 10 ^ blen ds' + dec ds'
  end.

(** The ordinal of a string: strings without a leading digit come last. *)
Definition numeric_cmp (t p : bytes) : Z :=
  match digits t, digits p with
  | [], [] => 0
  | [], _ => 1
  | _, [] => -1
  | dt, dp => Z.sgn (dec dt - dec dp)
  end.

Definition all_digits (ds : bytes) : Prop := Forall (λ d, 48 ≤ d ≤ 57) ds.

Lemma isdigit_byte b : 0 ≤ b < 256 → isdigit (schar b) = true ↔ 48 ≤ b ≤ 57.
Proof.
  unfold isdigit, schar. intros. rewrite andb_true_iff, !Z.leb_le.
  destruct (Z.ltb_spec b 128); lia.
Qed.

Lemma schar_digit b : 48 ≤ b ≤ 57 → schar b = b.
Proof. unfold schar. intros. destruct (Z.ltb_spec b 128); lia. Qed.

Lemma digits_spec s : is_cstring s →
  all_digits (digits s) ∧ ∃ rest, s = digits s ++ rest ∧
    match rest with [] => True | b :: _ => isdigit (schar b) = false end.
Proof.
  induction 1 as [|b s Hb Hs IH]; cbn [digits]; [by split; [constructor|exists []]|].
  destruct (isdigit (schar b)) eqn:E; cbn [app].
  - destruct IH as [Hd (rest & Er & Hr)]. split.
    + constructor; [apply isdigit_byte; [lia|done]|done].
    + exists rest. by rewrite <- Er.
  - split; [constructor|]. by exists (b :: s).
Qed.

Lemma dec_bounds ds : all_digits ds → 0 ≤ dec ds < 10 ^ blen ds.
Proof.
  induction 1 as [|d ds Hd Hds IH]; cbn [dec]; [by split; [lia|vm_compute]|].
  rewrite blen_cons, Z.pow_add_r by blia. change (10 ^ 1) with 10. simpl in Hd. nia.
Qed.

Lemma text_digits_spec d rest m :
  all_digits d →
  match rest with [] => True | b :: _ => isdigit (schar b) = false end →
  text_digits ((d ++ rest) ++ m) (length (d ++ rest)) = Ok (blen d).
Proof.
  intros Hd Hr. induction Hd as [|b d Hb Hd IH]; cbn [app length text_digits deref tail].
  - destruct rest as [|b rest]; [done|]. cbn [app length text_digits deref tail].
    cbn [mbind result_bind]. by rewrite Hr.
  - cbn [mbind result_bind]. rewrite (proj2 (isdigit_byte b ltac:(lia))) by lia.
    go_bind IH. by rewrite blen_cons.
Qed.

Lemma pat_digits_spec d rest q :
  all_digits d →
  match rest with [] => True | b :: _ => isdigit (schar b) = false end →
  pat_digits ((d ++ rest) ++ 0 :: q) = Ok (blen d).
Proof.
  intros Hd Hr. induction Hd as [|b d Hb Hd IH]; cbn [app pat_digits].
  - destruct rest as [|b rest]; [done|]. cbn [app pat_digits]. by rewrite Hr.
  - rewrite (proj2 (isdigit_byte b ltac:(lia))) by lia.
    go_bind IH. by rewrite blen_cons.
Qed.

(** Dropping [length z] digits: the rest is compared when they are all zero,
    and they outweigh it when one is not. *)
Lemma skip_zeros_spec z d m :
  all_digits z → all_digits d →
  (skip_zeros (length z) ((z ++ d) ++ m) = Ok (Some (d ++ m)) ∧ dec (z ++ d) = dec d) ∨
  (skip_zeros (length z) ((z ++ d) ++ m) = Ok None ∧ 10 ^ blen d ≤ dec (z ++ d)).
Proof.
  intros Hz Hd. induction Hz as [|b z Hb Hz IH]; [by left|].
  cbn [app length skip_zeros deref tail dec]. cbn [mbind result_bind].
  rewrite schar_digit by lia.
  assert (0 ≤ dec (z ++ d)) by (apply dec_bounds, Forall_app; done).
  assert (10 ^ blen d ≤ 10 ^ blen (z ++ d)) by (apply Z.pow_le_mono_r; blia).
  destruct (Z.ltb_spec 48 b).
  - right. split; [done|].
    assert (0 ≤ (b - 49) * 10 ^ blen (z ++ d)) by (apply Z.mul_nonneg_nonneg; [lia|apply Z.pow_nonneg; lia]). lia.
  - assert (b = 48) as -> by lia. rewrite Z.mul_0_l, Z.add_0_l. exact IH.
Qed.

Lemma cmp_digits_spec a b m1 m2 :
  all_digits a → all_digits b → length a = length b →
  cmp_digits (length a) (a ++ m1) (b ++ m2) = Ok (Z.sgn (dec a - dec b)).
Proof.
  intros Ha. revert b. induction Ha as [|x a Hx Ha IH]; intros [|y b] Hb Hl; try done.
  cbn [length app cmp_digits deref tail dec]. cbn [mbind result_bind].
  pose proof (Forall_inv Hb) as Hy. apply Forall_inv_tail in Hb. simpl in Hy, Hl.
  rewrite !schar_digit by lia.
  pose proof (dec_bounds _ Ha). pose proof (dec_bounds _ Hb).
  assert (blen a = blen b) as E by (unfold blen; lia). rewrite E in *.
  destruct (Z.ltb_spec x y); [f_equal; nia|].
  destruct (Z.ltb_spec y x); [f_equal; nia|].
  assert (x = y) as -> by lia. rewrite IH by (auto; lia). f_equal. f_equal. lia.
Qed.

Lemma split_longer (d1 d2 : bytes) :
  blen d1 ≤ blen d2 →
  ∃ z d, d2 = z ++ d ∧ length d = length d1 ∧ Z.to_nat (blen d2 - blen d1) = length z.
Proof.
  intros H. set (n := Z.to_nat (blen d2 - blen d1)).
  exists (take n d2), (drop n d2). rewrite take_drop, length_take, length_drop.
  unfold n, blen in *. split_and!; [done|lia|lia].
Qed.

Lemma deref_digits d r m :
  all_digits d → d ≠ [] → ∃ b, deref ((d ++ r) ++ m) = Ok b ∧ isdigit (schar b) = true.
Proof.
  destruct d as [|b d]; [done|]. intros Hd _. exists b. split; [done|].
  pose proof (Forall_inv Hd). apply isdigit_byte; simpl in *; lia.
Qed.

Lemma numeric_cmp_digits d1 r1 d2 r2 m q :
  all_digits d1 → all_digits d2 →
  match r1 with [] => True | b :: _ => isdigit (schar b) = false end →
  match r2 with [] => True | b :: _ => isdigit (schar b) = false end →
  d1 ≠ [] → d2 ≠ [] →
  ascii_numeric_cmp ((d1 ++ r1) ++ m) (blen (d1 ++ r1)) ((d2 ++ r2) ++ 0 :: q)
    = Ok (Z.sgn (dec d1 - dec d2)).
Proof.
  intros H1 H2 Hr1 Hr2 Hn1 Hn2. unfold ascii_numeric_cmp.
  unfold blen at 1. rewrite Nat2Z.id, text_digits_spec, pat_digits_spec by done.
  destruct (deref_digits d1 r1 m H1 Hn1) as (b1 & -> & Hb1).
  destruct (deref_digits d2 r2 (0 :: q) H2 Hn2) as (b2 & -> & Hb2).
  cbn [mbind result_bind]. rewrite Hb1, Hb2.
  destruct (Z.ltb_spec (blen d1) (blen d2)) as [Hlt|Hge];
    [|destruct (Z.ltb_spec (blen d2) (blen d1)) as [Hlt|Hge']].
  - destruct (split_longer d1 d2) as (z & d & -> & Hl & ->); [lia|].
    apply Forall_app in H2 as [Hz Hd].
    destruct (skip_zeros_spec z d (r2 ++ 0 :: q) Hz Hd) as [[E Ed]|[E Ed]];
      rewrite <- !app_assoc in *; go_bind E.
    + rewrite Ed. replace (Z.to_nat (blen d1)) with (length d1) by (unfold blen; lia).
      by apply cmp_digits_spec.
    + pose proof (dec_bounds d1 H1). replace (blen d) with (blen d1) in Ed by (unfold blen; lia).
      f_equal. lia.
  - destruct (split_longer d2 d1) as (z & d & -> & Hl & ->); [lia|].
    apply Forall_app in H1 as [Hz Hd].
    destruct (skip_zeros_spec z d (r1 ++ m) Hz Hd) as [[E Ed]|[E Ed]];
      rewrite <- !app_assoc in *; go_bind E.
    + rewrite Ed. replace (Z.to_nat (blen d2)) with (length d) by (unfold blen; lia).
      by apply cmp_digits_spec.
    + pose proof (dec_bounds d2 H2). replace (blen d) with (blen d2) in Ed by (unfold blen; lia).
      f_equal. lia.
  - replace (Z.to_nat (blen d1)) with (length d1) by (unfold blen; lia).
    rewrite <- !app_assoc. apply cmp_digits_spec; try done. unfold blen in *. lia.
Qed.

Lemma deref_nondigit rest m b :
  match rest with [] => True | b :: _ => isdigit (schar b) = false end →
  deref (rest ++ 0 :: m) = Ok b → isdigit (schar b) = false.
Proof. destruct rest; cbn; intros H [= <-]; done. Qed.

(** [ascii_numeric_cmp] compares the numbers its two strings start with,
    whatever their length (no overflow) and whatever zeros they start with; a
    string without a leading digit is above every number and equal to any other
    such string. *)
Theorem ascii_numeric_cmp_value (t r p q : bytes) (Ht : is_cstring t) (Hp : is_cstring p) :
  ascii_numeric_cmp (t ++ 0 :: r) (blen t) (p ++ 0 :: q) = Ok (numeric_cmp t p).
Proof.
  destruct (digits_spec t Ht) as [Hd1 (r1 & E1 & Hr1)].
  destruct (digits_spec p Hp) as [Hd2 (r2 & E2 & Hr2)].
  unfold numeric_cmp. rewrite E1 at 1 2. rewrite E2 at 1.
  revert Hd1 Hd2. generalize (digits t) as d1, (digits p) as d2. intros d1 d2 Hd1 Hd2.
  destruct (decide (d1 = [])) as [->|Hn1], (decide (d2 = [])) as [->|Hn2].
  - unfold ascii_numeric_cmp. cbn [app].
    destruct (deref (r2 ++ 0 :: q)) eqn:D2; [|by destruct r2].
    destruct (deref (r1 ++ 0 :: r)) eqn:D1; [|by destruct r1]. cbn [mbind result_bind].
    by rewrite (deref_nondigit _ _ _ Hr1 D1), (deref_nondigit _ _ _ Hr2 D2).
  - unfold ascii_numeric_cmp. cbn [app].
    destruct (deref_digits d2 r2 (0 :: q) Hd2 Hn2) as (b2 & -> & Hb2).
    destruct (deref (r1 ++ 0 :: r)) eqn:D1; [|by destruct r1]. cbn [mbind result_bind].
    rewrite (deref_nondigit _ _ _ Hr1 D1), Hb2. by destruct d2.
  - unfold ascii_numeric_cmp. cbn [app].
    destruct (deref_digits d1 r1 (0 :: r) Hd1 Hn1) as (b1 & -> & Hb1).
    destruct (deref (r2 ++ 0 :: q)) eqn:D2; [|by destruct r2]. cbn [mbind result_bind].
    rewrite (deref_nondigit _ _ _ Hr2 D2), Hb1. by destruct d1.
  - rewrite numeric_cmp_digits by done. by destruct d1, d2.
Qed.

(** ** Witnesses *)


Ltac cstring := repeat constructor; cbn; lia.

Lemma octet_cmp_lexicographic_witness :
  ∃ c, octet_cmp_ (str "ABD" ++ [0]) 3 (str "abc" ++ 0 :: []) true = Ok c ∧ Z.sgn c = 1.
Proof.
  destruct (octet_cmp_lexicographic (str "ABD") [0] (str "abc") [] true) as (c & H & Hs);
    [cstring|reflexivity|reflexivity|]. exists c. split; [exact H|exact Hs].
Defined.

Lemma octet_contains_substring_witness :
  ∃ b, octet_contains_ (str "aab" ++ []) 3 (str "ab" ++ 0 :: []) false = Ok (b2z b) ∧ b = true.
Proof.
  destruct (octet_contains_substring (str "aab") [] (str "ab") [] false) as (b & H & Hb);
    [cstring|reflexivity|]. exists b. split; [exact H|]. apply Hb. exists (str "a"), []. reflexivity.
Defined.

Lemma octet_matches_wildcard_witness :
  ∃ b, octet_matches_ (str "ab" ++ 0 :: []) 2 (str "a*" ++ 0 :: []) false = Ok (b2z b) ∧ b = true.
Proof.
  destruct (octet_matches_wildcard (str "ab") [] (str "a*") [] false) as (b & H & Hb);
    [cstring|repeat constructor; discriminate|cstring|reflexivity|].
  exists b. split; [exact H|]. apply Hb.
  apply wild_char; [discriminate|discriminate|reflexivity|]. apply wild_star_nil.
Defined.

Lemma ascii_numeric_cmp_value_witness :
  ascii_numeric_cmp (str "007x" ++ 0 :: []) 4 (str "12" ++ 0 :: []) = Ok (-1).
Proof. apply (ascii_numeric_cmp_value (str "007x") [] (str "12") []); cstring. Defined.
