(* ===== verification/CFile.v ===== *)
(** * CFile: a file descriptor open for writing

    The file's contents, the position, and the size it cannot grow past
    (a full disk, [RLIMIT_FSIZE]): a [write] beyond it fails and returns -1.
    [em A] is C code over such a descriptor that either yields an [A] or
    returns -1 to its caller; a fault is undefined behaviour. *)
From S2P Require Import Prelude CMem.
#[local] Open Scope Z_scope.

Record file := File { contents : bytes; fpos : Z; flimit : Z }.

Definition em (A : Type) : Type := file → result (option A * file).

#[global] Instance em_ret : MRet em := λ A a f, Ok (Some a, f).
#[global] Instance em_bind : MBind em := λ A B k m f,
  '(r, f) ← m f;
  match r with Some a => k a f | None => Ok (None, f) end.

(** [return -1]; undefined behaviour; a computation without the descriptor;
    and a caller that looks at the -1 itself. *)
Definition em_fail {A} : em A := λ f, Ok (None, f).
Definition em_fault {A} (e : fault) : em A := λ _, Fault e.
Definition em_lift {A} (m : result A) : em A := λ f, a ← m; Ok (Some a, f).
Definition em_catch {A} (m : em A) : em (option A) := λ f, '(r, f) ← m f; Ok (Some r, f).

(** [if (write(fd, bs, n) == -1) return -1;] *)
Definition f_write (bs : bytes) : em unit := λ f,
  if flimit f <? fpos f + blen bs then Ok (None, f)
  else Ok (Some tt, File (wr (contents f) (fpos f) bs) (fpos f + blen bs) (flimit f)).

(** [lseek] with [SEEK_CUR] and [SEEK_SET]: a negative position is refused. *)
Definition lseek_set (off : Z) : em Z := λ f,
  if off <? 0 then Ok (None, f) else Ok (Some off, File (contents f) off (flimit f)).
Definition lseek_cur (off : Z) : em Z := λ f, lseek_set (fpos f + off) f.

(** [write(fd, s, n)] for a C string [s], NUL included in the object. *)
Definition f_write_str (s : option bytes) (n : Z) : em unit :=
  match s with
  | None => em_fault OutOfBounds
  | Some s =>
      if (n <? 0) || (blen s + 1 <? n) then em_fault OutOfBounds
      else f_write (take (Z.to_nat n) (s ++ [0]))
  end.

(** ** Laws *)

Lemma em_bind_some {A B} (m : em A) (k : A → em B) f a f' :
  m f = Ok (Some a, f') → (m ≫= k) f = k a f'.
Proof. intros H. unfold mbind, em_bind. by rewrite H. Qed.

Lemma em_bind_lift {A B} (m : result A) (k : A → em B) f a :
  m = Ok a → (em_lift m ≫= k) f = k a f.
Proof. intros ->. done. Qed.

(** What the file holds once the gap before the position is filled: all the
    emission code ever appends to. *)
Definition view (f : file) : bytes := pad_to (contents f) (fpos f).

(** [f] is at the end of [v]. *)
Definition at_end (f : file) (v : bytes) : Prop :=
  fpos f = blen v ∧ blen (contents f) ≤ blen v ∧ view f = v.

(** ... and every byte of it has been written: no hole is pending. *)
Definition settled (f : file) (v : bytes) : Prop := fpos f = blen v ∧ contents f = v.

Lemma settled_at_end f v : settled f v → at_end f v.
Proof.
  intros [Hp Hc]. unfold at_end, view. rewrite Hp, Hc, pad_to_id by lia. split_and!; auto; lia.
Qed.

Lemma at_end_init limit : at_end (File [] 0 limit) [].
Proof. done. Qed.

Lemma f_write_end f v bs :
  at_end f v → blen v + blen bs ≤ flimit f →
  ∃ f', f_write bs f = Ok (Some tt, f') ∧ settled f' (v ++ bs) ∧ flimit f' = flimit f.
Proof.
  intros (Hp & Hc & Hv) Hl. unfold f_write. rewrite Hp.
  destruct (Z.ltb_spec (flimit f) (blen v + blen bs)); [lia|].
  eexists; split; [done|]. simpl. unfold view in Hv. rewrite Hp in Hv.
  assert (wr (contents f) (blen v) bs = v ++ bs) as Hwr.
  { unfold wr. rewrite Hv. replace (Z.to_nat (blen v)) with (length v) by (unfold blen; lia).
    rewrite firstn_all, drop_ge by lia. by rewrite app_nil_r. }
  rewrite Hwr. unfold settled; simpl. split_and!; auto; blia.
Qed.

(** Asking for the position moves nothing. *)
Lemma lseek_cur_settled f v r f' :
  settled f v → lseek_cur 0 f = Ok (r, f') → settled f' v.
Proof.
  intros [Hp Hc]. unfold lseek_cur, lseek_set. rewrite Hp, Z.add_0_r.
  destruct (Z.ltb_spec (blen v) 0); intros [= <- <-]; done.
Qed.

(** Leave a hole of [n] bytes. *)
Lemma lseek_cur_end f v n :
  at_end f v → 0 ≤ n →
  ∃ f', lseek_cur n f = Ok (Some (blen v + n), f') ∧
    at_end f' (v ++ replicate (Z.to_nat n) 0) ∧ flimit f' = flimit f.
Proof.
  intros (Hp & Hc & Hv) Hn. unfold lseek_cur, lseek_set. rewrite Hp.
  pose proof (blen_nonneg v). destruct (Z.ltb_spec (blen v + n) 0); [lia|].
  eexists; split; [done|]. unfold at_end, view in *; simpl. split_and!; try done; [blia|blia|].
  rewrite Hp in Hv. rewrite <- Hv. unfold pad_to. rewrite <- app_assoc, <- replicate_add.
  do 2 f_equal. blia.
Qed.

Lemma byte_at_pad m n i :
  byte_at (pad_to m n) i =
    if i <? blen m then byte_at m i else if i <? n then Some 0 else None.
Proof.
  unfold pad_to. rewrite byte_at_app. destruct (Z.ltb_spec i (blen m)); [done|].
  pose proof (blen_nonneg m). unfold byte_at at 1.
  destruct (Z.ltb_spec (i - blen m) 0); [lia|]. destruct (Z.ltb_spec i n).
  - apply lookup_replicate_2. lia.
  - apply lookup_ge_None_2. rewrite length_replicate. lia.
Qed.

Lemma byte_at_wr_pad m off bs i :
  0 ≤ off →
  byte_at (wr m off bs) i =
    if (off <=? i) && (i <? off + blen bs) then byte_at bs (i - off) else byte_at (pad_to m off) i.
Proof.
  intros H. rewrite <- byte_at_wr by (rewrite blen_pad_to; blia).
  unfold wr. rewrite (pad_to_id (pad_to m off)) by (rewrite blen_pad_to; lia). done.
Qed.

Lemma blen_wr_pad m off bs :
  0 ≤ off → blen (wr m off bs) = Z.max (blen m) (off + blen bs).
Proof.
  intros H. assert (wr m off bs = wr (pad_to m off) off bs) as ->.
  { unfold wr. rewrite (pad_to_id (pad_to m off)) by (rewrite blen_pad_to; lia). done. }
  rewrite blen_wr, blen_pad_to by (rewrite blen_pad_to; blia). blia.
Qed.

Lemma pad_wr m off bs n :
  0 ≤ off → off + blen bs ≤ n → pad_to (wr m off bs) n = wr (pad_to m n) off bs.
Proof.
  intros H Hn. pose proof (blen_wr_pad m off bs H) as Hl.
  apply byte_at_ext. intros i.
  rewrite byte_at_wr by (rewrite blen_pad_to; blia).
  rewrite byte_at_pad, Hl, byte_at_wr_pad, !byte_at_pad by done.
  pose proof (blen_nonneg m). pose proof (blen_nonneg bs).
  destruct (Z.ltb_spec i (Z.max (blen m) (off + blen bs))), (Z.leb_spec off i),
    (Z.ltb_spec i (off + blen bs)), (Z.ltb_spec i (blen m)), (Z.ltb_spec i off),
    (Z.ltb_spec i n); simpl; try lia; try done.
Qed.

(** Go back to four bytes, overwrite them, return to the end. *)
Lemma patch_at_end f pre old post v :
  length old = 4%nat → at_end f (pre ++ old ++ post) →
  blen pre + 4 ≤ flimit f →
  ∃ f1 f2 f3, lseek_set (blen pre) f = Ok (Some (blen pre), f1) ∧
    f_write (be32 v) f1 = Ok (Some tt, f2) ∧
    lseek_set (blen pre + 4 + blen post) f2 = Ok (Some (blen pre + 4 + blen post), f3) ∧
    at_end f3 (pre ++ be32 v ++ post) ∧ flimit f3 = flimit f ∧
    (blen (contents f) = blen (pre ++ old ++ post) ∨ post = [] →
     settled f3 (pre ++ be32 v ++ post)).
Proof.
  intros Ho (Hp & Hc & Hv) Hl. unfold lseek_set, f_write.
  pose proof (blen_nonneg pre). pose proof (blen_nonneg post).
  destruct (Z.ltb_spec (blen pre) 0); [lia|].
  destruct (Z.ltb_spec (blen pre + 4 + blen post) 0); [lia|].
  eexists _, _, _; split; [done|]. cbn [fpos contents flimit]. rewrite blen_be32.
  destruct (Z.ltb_spec (flimit f) (blen pre + 4)); [lia|].
  split; [done|]. split; [done|]. unfold at_end, settled, view; cbn [fpos contents flimit].
  assert (blen (pre ++ old ++ post) = blen pre + 4 + blen post) as Hlen.
  { rewrite !blen_app. unfold blen at 2. lia. }
  rewrite Hlen in *. unfold view in Hv. rewrite Hp in Hv.
  assert (pad_to (wr (contents f) (blen pre) (be32 v)) (blen pre + 4 + blen post)
          = pre ++ be32 v ++ post) as Hpad.
  { rewrite pad_wr by blia. rewrite Hv. by apply wr_overwrite. }
  assert (blen (pre ++ be32 v ++ post) = blen pre + 4 + blen post) as Hlen' by blia.
  pose proof (blen_wr_pad (contents f) (blen pre) (be32 v) ltac:(lia)) as Hw.
  rewrite blen_be32 in Hw.
  split_and!; rewrite ?Hlen'; try done; [lia|].
  intros Hset. split; [done|]. rewrite <- Hpad. symmetry. apply pad_to_id.
  rewrite Hw. destruct Hset as [E| ->]; rewrite ?blen_nil in *; lia.
Qed.

(** The same from a hole at the end of what is written. *)
Lemma patch_end f pre post v :
  at_end f (pre ++ [0; 0; 0; 0] ++ post) →
  post = [] ∨ settled f (pre ++ [0; 0; 0; 0] ++ post) →
  blen pre + 4 + blen post ≤ flimit f →
  ∃ f1 f2 f3, lseek_set (blen pre) f = Ok (Some (blen pre), f1) ∧
    f_write (be32 v) f1 = Ok (Some tt, f2) ∧
    lseek_set (blen pre + 4 + blen post) f2 = Ok (Some (blen pre + 4 + blen post), f3) ∧
    settled f3 (pre ++ be32 v ++ post) ∧ flimit f3 = flimit f.
Proof.
  intros H Hset Hl. pose proof (blen_nonneg post).
  destruct (patch_at_end f pre [0;0;0;0] post v) as (f1 & f2 & f3 & ? & ? & ? & ? & ? & Hs);
    [done|done|lia|].
  exists f1, f2, f3. split_and!; auto. apply Hs.
  destruct Hset as [->|[_ ->]]; auto.
Qed.
