(* ===== verification/SieveGenerate.v ===== *)
(** * SieveGenerate: from the syntax tree to almost-flat bytecode

    [sieve/bc_generate.c].  [retval->data] is the list of its [reallen] cells;
    a cell [realloc] added and nothing wrote yet is [Buninit].  Writes outside
    the array fault.  Every function returns the next code location, or -1, and
    the updated [bytecode_info]. *)
From S2P Require Import Prelude CMem SieveTree.
#[local] Open Scope Z_scope.

(** ** [bytecode_t] and [struct bytecode_info] *)
Inductive bytecode_t :=
  | Bint (v : Z)              (* op, value, jump, listlen, len *)
  | Bstr (s : option bytes)   (* str, possibly NULL *)
  | Buninit.

Record bytecode_info := BInfo { data : list bytecode_t; scriptend : Z }.

Definition reallen (b : bytecode_info) : Z := Z.of_nat (length (data b)).

(** [xrealloc] exits the process instead of returning NULL, so [atleast] always
    returns 1. *)
Definition atleast (arr : bytecode_info) (len : Z) : bytecode_info :=
  if reallen arr <? len then
    let n := if reallen arr * 2 <? len then len else reallen arr * 2 in
    BInfo (data arr ++ replicate (Z.to_nat (n - reallen arr)) Buninit) (scriptend arr)
  else arr.

(** [retval->data[i] = c] *)
Definition put (b : bytecode_info) (i : Z) (c : bytecode_t) : result bytecode_info :=
  if (0 <=? i) && (i <? reallen b)
  then Ok (BInfo (<[Z.to_nat i := c]> (data b)) (scriptend b))
  else Fault OutOfBounds.

(** [retval->data[i].jump] and its synonyms: an initialised integer. *)
Definition get_int (b : bytecode_info) (i : Z) : result Z :=
  if i <? 0 then Fault OutOfBounds else
  match data b !! Z.to_nat i with
  | Some (Bint v) => Ok v
  | _ => Fault OutOfBounds
  end.

Definition get_str (b : bytecode_info) (i : Z) : result (option bytes) :=
  if i <? 0 then Fault OutOfBounds else
  match data b !! Z.to_nat i with
  | Some (Bstr s) => Ok s
  | _ => Fault OutOfBounds
  end.

(** The result of every generator: next location (or -1) and the array. *)
Abbreviation gen := (result (Z * bytecode_info)).

Definition gen_fail (b : bytecode_info) : gen := Ok (-1, b).

(** [x = gen(...); if (x == -1) return -1; k] *)
Definition gen_then (m : gen) (k : Z → bytecode_info → gen) : gen :=
  '(codep, b) ← m; if codep =? -1 then gen_fail b else k codep b.

(** [data[codep++].len = strlen(s); data[codep++].str = s;] *)
Definition put_string (b : bytecode_info) (codep : Z) (s : bytes) : gen :=
  b ← put b codep (Bint (to_s32 (blen s)));
  b ← put b (codep + 1) (Bstr (Some s));
  Ok (codep + 2, b).

(** The same for a string that may be NULL, which has length -1. *)
Definition put_opt_string (b : bytecode_info) (codep : Z) (s : option bytes) : gen :=
  match s with
  | Some s => put_string b codep s
  | None =>
      b ← put b codep (Bint (-1));
      b ← put b (codep + 1) (Bstr None);
      Ok (codep + 2, b)
  end.

(** ** String lists *)
Fixpoint bc_stringlist_loop (sl : list bytes) (codep : Z) (b : bytecode_info) (strcount : Z)
    : result (Z * bytecode_info * Z) :=
  match sl with
  | [] => Ok (codep, b, strcount)
  | s :: sl' =>
      let b := atleast b (codep + 2) in
      '(codep, b) ← put_string b codep s;
      bc_stringlist_loop sl' codep b (strcount + 1)
  end.

Definition bc_stringlist_generate (codep : Z) (b : bytecode_info) (sl : list bytes) : gen :=
  let len_codep := codep in
  let codep := codep + 1 in
  let b := atleast b (codep + 1) in
  '(codep, b, strcount) ← bc_stringlist_loop sl codep b 0;
  b ← put b len_codep (Bint strcount);
  Ok (codep, b).

(** ** Relations and comparators *)
Definition relation_value (relat : token) : Z :=
  match relat with
  | GT => tag_num B_GT
  | GE => tag_num B_GE
  | LT => tag_num B_LT
  | LE => tag_num B_LE
  | EQ => tag_num B_EQ
  | NE => tag_num B_NE
  | _ => -1
  end.

Definition bc_relation_generate (codep : Z) (b : bytecode_info) (relat : token) : gen :=
  let b := atleast b (codep + 1) in
  b ← put b codep (Bint (relation_value relat));
  Ok (codep + 1, b).

(** [switch (comptag)]: [None] is the [default: return -1]. *)
Definition comptag_value (comptag : token) : option Z :=
  match comptag with
  | IS => Some (tag_num B_IS)
  | CONTAINS => Some (tag_num B_CONTAINS)
  | MATCHES => Some (tag_num B_MATCHES)
  | REGEX => Some (tag_num B_REGEX)
  | COUNT => Some (tag_num B_COUNT)
  | VALUE => Some (tag_num B_VALUE)
  | _ => None
  end.

(** The [strcmp] chain: no word is written for an unknown comparator. *)
Definition comparator_value (comparator : bytes) : option Z :=
  if decide (comparator = str "i;octet") then Some (tag_num B_OCTET)
  else if decide (comparator = str "i;ascii-casemap") then Some (tag_num B_ASCIICASEMAP)
  else if decide (comparator = str "i;ascii-numeric") then Some (tag_num B_ASCIINUMERIC)
  else None.

Definition bc_comparator_generate (codep : Z) (b : bytecode_info)
    (comptag relat : token) (comparator : bytes) : gen :=
  let b := atleast b (codep + 1) in
  match comptag_value comptag with
  | None => gen_fail b
  | Some v =>
      b ← put b codep (Bint v);
      '(codep, b) ← bc_relation_generate (codep + 1) b relat;
      let b := atleast b (codep + 1) in
      match comparator_value comparator with
      | Some v => b ← put b codep (Bint v); Ok (codep + 1, b)
      | None => Ok (codep, b)
      end
  end.

(** ** Tests *)
Definition addrpart_value (addrpart : token) : option Z :=
  match addrpart with
  | ALL => Some (tag_num B_ALL)
  | LOCALPART => Some (tag_num B_LOCALPART)
  | DOMAIN => Some (tag_num B_DOMAIN)
  | USER => Some (tag_num B_USER)
  | DETAIL => Some (tag_num B_DETAIL)
  | _ => None
  end.

Definition transform_value (transform : token) : option Z :=
  match transform with
  | RAW => Some (tag_num B_RAW)
  | TEXT => Some (tag_num B_TEXT)
  | CONTENT => Some (tag_num B_CONTENT)
  | _ => None
  end.

(** One opcode: [if(!atleast(retval,codep+1)) return -1; data[codep++].op = op;] *)
Definition put_op (b : bytecode_info) (codep : Z) (op : Z) : gen :=
  let b := atleast b (codep + 1) in
  b ← put b codep (Bint op);
  Ok (codep + 1, b).

(** The two string lists that end a header, address or body test. *)
Definition bc_two_lists (codep : Z) (b : bytecode_info) (sl pl : list bytes) : gen :=
  gen_then (bc_stringlist_generate codep b sl) (λ codep b,
  gen_then (bc_stringlist_generate codep b pl) (λ codep b, Ok (codep, b))).

(** [case HEADER] *)
Definition bc_header_generate (codep : Z) (b : bytecode_info)
    (comptag relation : token) (comparator : bytes) (sl pl : list bytes) : gen :=
  '(codep, b) ← put_op b codep (comp_num BC_HEADER);
  gen_then (bc_comparator_generate codep b comptag relation comparator) (λ codep b,
  bc_two_lists codep b sl pl).

(** [case ADDRESS] and [case ENVELOPE] *)
Definition bc_address_generate (op : bytecode_comps) (codep : Z) (b : bytecode_info)
    (comptag relation : token) (comparator : bytes) (addrpart : token)
    (sl pl : list bytes) : gen :=
  '(codep, b) ← put_op b codep (comp_num op);
  gen_then (bc_comparator_generate codep b comptag relation comparator) (λ codep b,
  let b := atleast b (codep + 1) in
  match addrpart_value addrpart with
  | None => gen_fail b
  | Some v => b ← put b codep (Bint v); bc_two_lists (codep + 1) b sl pl
  end).

(** [case BODY] *)
Definition bc_body_generate (codep : Z) (b : bytecode_info)
    (comptag relation : token) (comparator : bytes) (transform : token) (offset : Z)
    (content_types pl : list bytes) : gen :=
  '(codep, b) ← put_op b codep (comp_num BC_BODY);
  gen_then (bc_comparator_generate codep b comptag relation comparator) (λ codep b,
  let b := atleast b (codep + 2) in
  match transform_value transform with
  | None => gen_fail b
  | Some v =>
      b ← put b codep (Bint v);
      b ← put b (codep + 1) (Bint offset);
      bc_two_lists (codep + 2) b content_types pl
  end).

(** The frame of [bc_testlist_generate] around its loop. *)
Definition bc_testlist_generate
    (loop : Z → bytecode_info → result (Z * bytecode_info * Z))
    (codep : Z) (b : bytecode_info) : gen :=
  let len_codep := codep in
  let codep := codep + 1 in
  let b := atleast b (codep + 1) in
  '(codep, b, testcount) ← loop codep b;
  b ← put b len_codep (Bint testcount);
  Ok (codep, b).

Fixpoint bc_test_generate (t : test) (codep : Z) (b : bytecode_info) {struct t} : gen :=
  match t with
  | STRUE => put_op b codep (comp_num BC_TRUE)
  | SFALSE => put_op b codep (comp_num BC_FALSE)
  | NOT t =>
      '(codep, b) ← put_op b codep (comp_num BC_NOT);
      gen_then (bc_test_generate t codep b) (λ codep b, Ok (codep, b))
  | SIZE tag n =>
      let b := atleast b (codep + 3) in
      b ← put b codep (Bint (comp_num BC_SIZE));
      b ← put b (codep + 1)
            (Bint (if decide (tag = OVER) then tag_num B_OVER else tag_num B_UNDER));
      b ← put b (codep + 2) (Bint n);
      Ok (codep + 3, b)
  | EXISTS sl =>
      '(codep, b) ← put_op b codep (comp_num BC_EXISTS);
      bc_stringlist_generate codep b sl
  | ANYOF tl =>
      '(codep, b) ← put_op b codep (comp_num BC_ANYOF);
      gen_then (bc_testlist_generate (λ codep b, bc_testlist_loop tl codep b 0) codep b)
               (λ codep b, Ok (codep, b))
  | ALLOF tl =>
      '(codep, b) ← put_op b codep (comp_num BC_ALLOF);
      gen_then (bc_testlist_generate (λ codep b, bc_testlist_loop tl codep b 0) codep b)
               (λ codep b, Ok (codep, b))
  | HEADER comptag relation comparator sl pl =>
      bc_header_generate codep b comptag relation comparator sl pl
  | ADDRESS comptag relation comparator addrpart sl pl =>
      bc_address_generate BC_ADDRESS codep b comptag relation comparator addrpart sl pl
  | ENVELOPE comptag relation comparator addrpart sl pl =>
      bc_address_generate BC_ENVELOPE codep b comptag relation comparator addrpart sl pl
  | BODY comptag relation comparator transform offset content_types pl =>
      bc_body_generate codep b comptag relation comparator transform offset content_types pl
  | TEST_OTHER _ => gen_fail b
  end
with bc_testlist_loop (tl : testlist) (codep : Z) (b : bytecode_info) (testcount : Z)
    {struct tl} : result (Z * bytecode_info * Z) :=
  match tl with
  | TLnil => Ok (codep, b, testcount)
  | TLcons t next =>
      let oldcodep := codep in
      let b := atleast b (codep + 1) in
      '(codep, b) ← bc_test_generate t (codep + 1) b;
      b ← put b oldcodep (Bint codep);
      bc_testlist_loop next codep b (testcount + 1)
  end.

(** ** Commands *)
Definition priority_value (priority : token) : option Z :=
  match priority with
  | LOW => Some (tag_num B_LOW)
  | NORMAL => Some (tag_num B_NORMAL)
  | HIGH => Some (tag_num B_HIGH)
  | ANY => Some (tag_num B_ANY)
  | _ => None
  end.

Definition denotify_comptag_value (comptag : token) : option Z :=
  match comptag with
  | IS => Some (tag_num B_IS)
  | CONTAINS => Some (tag_num B_CONTAINS)
  | MATCHES => Some (tag_num B_MATCHES)
  | REGEX => Some (tag_num B_REGEX)
  | ANY => Some (tag_num B_ANY)
  | _ => None
  end.

Definition location_value (location : token) : option Z :=
  match location with
  | PERSONAL => Some (tag_num B_PERSONAL)
  | GLOBAL => Some (tag_num B_GLOBAL)
  | _ => None
  end.

(** [case DENOTIFY] *)
Definition bc_denotify_generate (codep : Z) (b : bytecode_info)
    (comptag relation : token) (pattern : option bytes) (priority : token) : gen :=
  let b := atleast b (codep + 6) in
  b ← put b codep (Bint (op_num B_DENOTIFY));
  match priority_value priority with
  | None => gen_fail b
  | Some v =>
      b ← put b (codep + 1) (Bint v);
      match denotify_comptag_value comptag with
      | None => gen_fail b
      | Some v =>
          b ← put b (codep + 2) (Bint v);
          '(codep, b) ← bc_relation_generate (codep + 3) b relation;
          put_opt_string b codep pattern
      end
  end.

(** [case NOTIFY] *)
Definition bc_notify_generate (codep : Z) (b : bytecode_info) (method : bytes)
    (id : option bytes) (options : list bytes) (priority : token) (message : bytes) : gen :=
  let b := atleast b (codep + 5) in
  b ← put b codep (Bint (op_num B_NOTIFY));
  '(codep, b) ← put_string b (codep + 1) method;
  '(codep, b) ← put_opt_string b codep id;
  gen_then (bc_stringlist_generate codep b options) (λ codep b,
  let b := atleast b (codep + 3) in
  match priority_value priority with
  | None => gen_fail b
  | Some v => b ← put b codep (Bint v); put_string b (codep + 1) message
  end).

(** [case VACATION] *)
Definition bc_vacation_generate (codep : Z) (b : bytecode_info) (addresses : list bytes)
    (subject message : option bytes) (days mime : Z) (from handle : option bytes) : gen :=
  '(codep, b) ← put_op b codep (op_num B_VACATION);
  gen_then (bc_stringlist_generate codep b addresses) (λ codep b,
  let b := atleast b (codep + 2) in
  '(codep, b) ← put_opt_string b codep subject;
  let b := atleast b (codep + 2) in
  '(codep, b) ← put_opt_string b codep message;
  let b := atleast b (codep + 2) in
  b ← put b codep (Bint days);
  b ← put b (codep + 1) (Bint mime);
  let codep := codep + 2 in
  let b := atleast b (codep + 2) in
  '(codep, b) ← put_opt_string b codep from;
  let b := atleast b (codep + 2) in
  '(codep, b) ← put_opt_string b codep handle;
  if codep =? -1 then gen_fail b else Ok (codep, b)).

(** [case FILEINTO] and [case REDIRECT]: a word and a string. *)
Definition bc_copy_string_generate (op : bytecode) (codep : Z) (b : bytecode_info)
    (copy : Z) (s : bytes) : gen :=
  let b := atleast b (codep + 4) in
  b ← put b codep (Bint (op_num op));
  b ← put b (codep + 1) (Bint copy);
  put_string b (codep + 2) s.

(** [case ADDFLAG], [SETFLAG] and [REMOVEFLAG] *)
Definition bc_flags_generate (op : bytecode) (codep : Z) (b : bytecode_info)
    (sl : list bytes) : gen :=
  '(codep, b) ← put_op b codep (op_num op);
  gen_then (bc_stringlist_generate codep b sl) (λ codep b, Ok (codep, b)).

Definition set_scriptend (b : bytecode_info) (codep : Z) : bytecode_info :=
  BInfo (data b) codep.

(** The [switch] of [bc_action_generate], and its loop over the commands. *)
Fixpoint bc_command_generate (c : command) (codep : Z) (b : bytecode_info) {struct c} : gen :=
  match c with
  | STOP => put_op b codep (op_num B_STOP)
  | DISCARD => put_op b codep (op_num B_DISCARD)
  | KEEP => put_op b codep (op_num B_KEEP)
  | MARK => put_op b codep (op_num B_MARK)
  | UNMARK => put_op b codep (op_num B_UNMARK)
  | RETURN => put_op b codep (op_num B_RETURN)
  | DENOTIFY comptag relation pattern priority =>
      bc_denotify_generate codep b comptag relation pattern priority
  | REJCT msg =>
      let b := atleast b (codep + 3) in
      b ← put b codep (Bint (op_num B_REJECT));
      put_string b (codep + 1) msg
  | FILEINTO copy folder => bc_copy_string_generate B_FILEINTO codep b copy folder
  | REDIRECT copy address => bc_copy_string_generate B_REDIRECT codep b copy address
  | ADDFLAG sl => bc_flags_generate B_ADDFLAG codep b sl
  | SETFLAG sl => bc_flags_generate B_SETFLAG codep b sl
  | REMOVEFLAG sl => bc_flags_generate B_REMOVEFLAG codep b sl
  | NOTIFY method id options priority message =>
      bc_notify_generate codep b method id options priority message
  | VACATION addresses subject message days mime from handle =>
      bc_vacation_generate codep b addresses subject message days mime from handle
  | INCLUDE location script =>
      let b := atleast b (codep + 4) in
      b ← put b codep (Bint (op_num B_INCLUDE));
      match location_value location with
      | None => gen_fail b
      | Some v => b ← put b (codep + 1) (Bint v); put_string b (codep + 2) script
      end
  | IF t do_then do_else =>
      let b := atleast b (codep + 4) in
      let jumploc := codep + 4 in
      b ← put b codep (Bint (op_num B_IF));
      let codep := codep + 1 in
      gen_then (bc_test_generate t jumploc b) (λ jumpVal b,
      b ← put b codep (Bint jumpVal);
      let codep := codep + 1 in
      gen_then (bc_action_generate do_then jumpVal b) (λ jumpVal b,
      b ← put b codep (Bint jumpVal);
      let codep := codep + 1 in
      match do_else with
      | CLnil =>
          b ← put b codep (Bint (-1));
          codep ← get_int b (codep - 1);
          Ok (codep, b)
      | _ =>
          gen_then (bc_action_generate do_else jumpVal b) (λ jumpVal b,
          b ← put b codep (Bint jumpVal);
          codep ← get_int b codep;
          Ok (codep, b))
      end))
  | CMD_OTHER _ => gen_fail b
  end
with bc_action_generate (c : commandlist) (codep : Z) (b : bytecode_info) {struct c} : gen :=
  match c with
  | CLnil =>
      '(codep, b) ← put_op b codep (op_num B_NULL);
      Ok (codep, set_scriptend b codep)
  | CLcons c next =>
      gen_then (bc_command_generate c codep b) (λ codep b,
      match next with
      | CLnil => Ok (codep, set_scriptend b codep)
      | _ => bc_action_generate next codep b
      end)
  end.

(** [sieve_generate_bytecode]: a zeroed [bytecode_info], then the whole script. *)
Definition sieve_generate_bytecode (cmds : commandlist) : gen :=
  bc_action_generate cmds 0 (BInfo [] 0).
