(* ===== verification/SieveEmit.v ===== *)
(** * SieveEmit: from almost-flat bytecode to the script file

    [sieve/bc_emit.c].  The emission functions read the cells the generator
    wrote and write network-order words, padded strings, list ends and jump
    targets; [codep] is threaded as the [int *codep] of the C code. *)
From S2P Require Import Prelude CMem SieveTree CFile SieveGenerate.
#[local] Open Scope Z_scope.

(** [write_int] *)
Definition write_int (x : Z) : em unit := f_write (be32 x).

Definition cell_int (bc : bytecode_info) (codep : Z) : em Z := em_lift (get_int bc codep).
Definition cell_str (bc : bytecode_info) (codep : Z) : em (option bytes) :=
  em_lift (get_str bc codep).

(** Pad with at least one NUL, to the next multiple of four. *)
Definition align_string (string_len : Z) : em Z :=
  let needed := 4 - string_len mod 4 in
  f_write (replicate (Z.to_nat needed) 0);; mret needed.

(** [write_int(fd, len)], the string and its padding: what a string at [codep]
    adds to the file, and the next [codep]. *)
Definition string_emit (bc : bytecode_info) (codep : Z) : em (Z * Z) :=
  len ← cell_int bc codep;
  write_int len;;
  s ← cell_str bc (codep + 1);
  f_write_str s len;;
  ret ← align_string len;
  mret (4 + len + ret, codep + 2).

(** The same where [len == -1] marks a nil string, whose pointer is skipped. *)
Definition opt_string_emit (bc : bytecode_info) (codep : Z) : em (Z * Z) :=
  len ← cell_int bc codep;
  write_int len;;
  if len =? -1 then mret (4, codep + 2)
  else
    s ← cell_str bc (codep + 1);
    f_write_str s len;;
    ret ← align_string len;
    mret (4 + len + ret, codep + 2).

(** [write_int(fd, bc->data[codep].value); codep++] for [n] words. *)
Fixpoint words_emit (bc : bytecode_info) (n : nat) (codep : Z) : em (Z * Z) :=
  match n with
  | O => mret (0, codep)
  | S n' =>
      v ← cell_int bc codep;
      write_int v;;
      '(wrote, codep) ← words_emit bc n' (codep + 1);
      mret (4 + wrote, codep)
  end.

(** ** [bc_stringlist_emit] *)
Fixpoint stringlist_emit_loop (bc : bytecode_info) (n : nat) (codep wrote : Z) : em (Z * Z) :=
  match n with
  | O => mret (wrote, codep)
  | S n' =>
      '(w, codep) ← string_emit bc codep;
      stringlist_emit_loop bc n' codep (wrote + w)
  end.

Definition bc_stringlist_emit (bc : bytecode_info) (codep : Z) : em (Z * Z) :=
  len ← cell_int bc codep;
  write_int len;;
  begin ← lseek_cur 0;
  lseek_cur 4;;
  '(wrote, codep) ← stringlist_emit_loop bc (Z.to_nat len) (codep + 1) 8;
  end_ ← lseek_cur 0;
  lseek_set begin;;
  write_int end_;;
  lseek_set end_;;
  mret (wrote, codep).

(** ** [bc_testlist_emit], around its loop over the tests *)
Definition bc_testlist_emit (loop : Z → Z → em (Z * Z)) (bc : bytecode_info) (codep : Z)
    : em (Z * Z) :=
  len ← cell_int bc codep;
  write_int len;;
  begin ← lseek_cur 0;
  lseek_cur 4;;
  '(wrote, codep) ← loop len (codep + 1);
  end_ ← lseek_cur 0;
  lseek_set begin;;
  write_int end_;;
  lseek_set end_;;
  mret (wrote, codep).

(** [n] words and then the two string lists of a header, address or body test. *)
Definition match_test_emit (bc : bytecode_info) (n : nat) (codep : Z) : em (Z * Z) :=
  '(w, codep) ← words_emit bc n codep;
  '(ret1, codep) ← bc_stringlist_emit bc codep;
  '(ret2, codep) ← bc_stringlist_emit bc codep;
  mret (w + ret1 + ret2, codep).

(** ** [bc_test_emit]: one unit of fuel per test and per list element *)
Fixpoint bc_test_emit (fuel : nat) (bc : bytecode_info) (codep : Z) : em (Z * Z) :=
  match fuel with
  | O => em_fault OutOfFuel
  | S fuel' =>
      op ← cell_int bc codep;
      write_int op;;
      let wrote := 4 in
      let codep := codep + 1 in
      match comp_of op with
      | Some BC_TRUE | Some BC_FALSE => mret (wrote, codep)
      | Some BC_NOT =>
          '(ret, codep) ← bc_test_emit fuel' bc codep;
          mret (wrote + ret, codep)
      | Some BC_ALLOF | Some BC_ANYOF =>
          '(ret, codep) ← bc_testlist_emit (λ len codep, testlist_emit_loop fuel' bc 0 len codep 8)
                            bc codep;
          mret (wrote + ret, codep)
      | Some BC_SIZE =>
          '(ret, codep) ← words_emit bc 2 codep;
          mret (wrote + ret, codep)
      | Some BC_EXISTS =>
          '(ret, codep) ← bc_stringlist_emit bc codep;
          mret (wrote + ret, codep)
      | Some BC_HEADER =>
          '(ret, codep) ← match_test_emit bc 3 codep;
          mret (wrote + ret, codep)
      | Some BC_ADDRESS | Some BC_ENVELOPE =>
          '(ret, codep) ← match_test_emit bc 4 codep;
          mret (wrote + ret, codep)
      | Some BC_BODY =>
          '(ret, codep) ← match_test_emit bc 5 codep;
          mret (wrote + ret, codep)
      | None => em_fail
      end
  end
with testlist_emit_loop (fuel : nat) (bc : bytecode_info) (i len codep wrote : Z) : em (Z * Z) :=
  match fuel with
  | O => em_fault OutOfFuel
  | S fuel' =>
      if i <? len then
        nextcodep ← cell_int bc codep;
        '(ret, _) ← bc_test_emit fuel' bc (codep + 1);
        testlist_emit_loop fuel' bc (i + 1) len nextcodep (wrote + ret)
      else mret (wrote, codep)
  end.

(** ** [bc_action_emit] *)

(** The cases without jumps: [op] is written; the result is the number of bytes
    the parameters take and the next [codep]. *)
Definition action_params_emit (bc : bytecode_info) (op : bytecode) (codep : Z) : em (Z * Z) :=
  match op with
  | B_FILEINTO | B_REDIRECT | B_INCLUDE =>
      '(w1, codep) ← words_emit bc 1 codep;
      '(w2, codep) ← string_emit bc codep;
      mret (w1 + w2, codep)
  | B_REJECT => string_emit bc codep
  | B_SETFLAG | B_ADDFLAG | B_REMOVEFLAG => bc_stringlist_emit bc codep
  | B_NOTIFY =>
      '(w1, codep) ← opt_string_emit bc codep;
      '(w2, codep) ← opt_string_emit bc codep;
      '(w3, codep) ← bc_stringlist_emit bc codep;
      '(w4, codep) ← words_emit bc 1 codep;
      '(w5, codep) ← string_emit bc codep;
      mret (w1 + w2 + w3 + w4 + w5, codep)
  | B_DENOTIFY =>
      '(w1, codep) ← words_emit bc 3 codep;
      '(w2, codep) ← opt_string_emit bc codep;
      mret (w1 + w2, codep)
  | B_VACATION =>
      '(w1, codep) ← bc_stringlist_emit bc codep;
      '(w2, codep) ← opt_string_emit bc codep;
      '(w3, codep) ← opt_string_emit bc codep;
      '(w4, codep) ← words_emit bc 2 codep;
      '(w5, codep) ← opt_string_emit bc codep;
      '(w6, codep) ← opt_string_emit bc codep;
      mret (w1 + w2 + w3 + w4 + w5 + w6, codep)
  | B_NULL | B_STOP | B_DISCARD | B_KEEP | B_MARK | B_UNMARK | B_RETURN => mret (0, codep)
  | _ => em_fail
  end.

(** The value of a nested [bc_action_emit], which its caller adds to [filelen]
    without looking for the -1. *)
Definition emit_value (r : option Z) : Z := match r with Some d => d | None => -1 end.

(** The loop over the commands between [codep] and [stopcodep]: the final
    [filelen]. *)
Fixpoint action_emit_loop (fuel : nat) (bc : bytecode_info) (codep stopcodep filelen : Z) : em Z :=
  match fuel with
  | O => em_fault OutOfFuel
  | S fuel' =>
      let bc_action_emit codep stopcodep filelen : em Z :=
        final ← action_emit_loop fuel' bc codep stopcodep filelen;
        mret (final - filelen) in
      if codep <? stopcodep then
        op ← cell_int bc codep;
        write_int op;;
        let filelen := filelen + 4 in
        let codep := codep + 1 in
        match op_of op with
        | Some B_IF =>
            lseek_cur 4;;
            let testEndLoc := filelen in
            let filelen := filelen + 4 in
            '(testdist, _) ← bc_test_emit fuel' bc (codep + 3);
            let filelen := filelen + testdist in
            lseek_set testEndLoc;;
            write_int (Z.quot filelen 4);;
            lseek_set filelen;;
            write_int (op_num B_JUMP);;
            lseek_cur 4;;
            let jumpFalseLoc := filelen + 4 in
            let filelen := filelen + 8 in
            then_start ← cell_int bc codep;
            then_stop ← cell_int bc (codep + 1);
            else_stop ← cell_int bc (codep + 2);
            thendist ← em_catch (bc_action_emit then_start then_stop filelen);
            let filelen := filelen + emit_value thendist in
            '(jumpEndLoc, filelen) ←
              (if else_stop =? -1 then mret (-1, filelen)
               else write_int (op_num B_JUMP);; lseek_cur 4;; mret (filelen + 4, filelen + 8));
            lseek_set jumpFalseLoc;;
            write_int (Z.quot filelen 4);;
            lseek_set filelen;;
            if else_stop =? -1 then
              action_emit_loop fuel' bc then_stop stopcodep filelen
            else
              elsedist ← em_catch (bc_action_emit then_stop else_stop filelen);
              let filelen := filelen + emit_value elsedist in
              lseek_set jumpEndLoc;;
              write_int (Z.quot filelen 4);;
              lseek_set filelen;;
              action_emit_loop fuel' bc else_stop stopcodep filelen
        | Some op =>
            '(w, codep) ← action_params_emit bc op codep;
            action_emit_loop fuel' bc codep stopcodep (filelen + w)
        | None => em_fail
        end
      else mret filelen
  end.

Definition bc_action_emit (fuel : nat) (bc : bytecode_info) (codep stopcodep filelen : Z) : em Z :=
  final ← action_emit_loop fuel bc codep stopcodep filelen;
  mret (final - filelen).

(** [sieve_emit_bytecode]; one unit of fuel per cell is enough. *)
Definition sieve_emit_bytecode (bc : bytecode_info) : em Z :=
  f_write BYTECODE_MAGIC;;
  write_int BYTECODE_VERSION;;
  bc_action_emit (S (S (length (data bc)))) bc 0 (scriptend bc) (4 + BYTECODE_MAGIC_LEN).

(** Compiling a script to a file. *)
Definition compile_script (cmds : commandlist) (limit : Z) : result (option Z * bytes) :=
  '(codep, bc) ← sieve_generate_bytecode cmds;
  if codep =? -1 then Ok (None, [])
  else '(r, f) ← sieve_emit_bytecode bc (File [] 0 limit); Ok (r, contents f).

Example compile_keep :
  compile_script (CLcons (IF (NOT STRUE) (CLcons KEEP CLnil) (CLcons DISCARD CLnil)) CLnil) 1000
  = Ok (Some 40,
        str "CyrSBytecode" ++ be32 5
        ++ be32 6 ++ be32 8 ++ be32 2 ++ be32 1      (* IF testend NOT TRUE *)
        ++ be32 16 ++ be32 13 ++ be32 1               (* JUMP else; KEEP *)
        ++ be32 16 ++ be32 14 ++ be32 2).             (* JUMP end; DISCARD *)
Proof. vm_compute. reflexivity. Qed.
