(* ===== verification/SieveCode.v ===== *)
(** * SieveCode: the code of a script, as a function of the script

    Reference definitions the generator and the emitter are proved to
    implement: the cells of a construct at a code location, and its bytes at a
    file position, both by recursion on the syntax tree with no mutation and no
    back-patching. *)
From S2P Require Import Prelude CMem SieveTree CFile SieveGenerate SieveEmit.
#[local] Open Scope Z_scope.

(** ** Scripts

    What the parser builds: C strings shorter than 2 GB, numbers that are [int]s,
    and in each tag one of its tokens, once [canon_htags] and the others
    have put in what was not given.  [sieve.y] looks at neither the name of a comparator nor
    the match type of a [denotify], so the generator can meet some it does not
    know: which names and types a script may have are parameters. *)
Definition wf_str (s : bytes) : Prop := is_cstring s ∧ blen s < 2147483640.
Definition wf_opt (s : option bytes) : Prop := from_option wf_str True s.
Definition wf_sl (sl : list bytes) : Prop := Forall wf_str sl.

Section Scripts.
Context (cmp : token → bytes → Prop) (denotify : token → Prop).

Fixpoint built_test (t : test) : Prop :=
  match t with
  | STRUE | SFALSE => True
  | NOT t => built_test t
  | SIZE _ n => is_s32 n
  | EXISTS sl => wf_sl sl
  | ANYOF tl | ALLOF tl => built_testlist tl
  | HEADER ct _ c sl pl => cmp ct c ∧ wf_sl sl ∧ wf_sl pl
  | ADDRESS ct _ c ap sl pl | ENVELOPE ct _ c ap sl pl =>
      cmp ct c ∧ is_Some (addrpart_value ap) ∧ wf_sl sl ∧ wf_sl pl
  | BODY ct _ c tr off types pl =>
      cmp ct c ∧ is_Some (transform_value tr) ∧ is_s32 off ∧ wf_sl types ∧ wf_sl pl
  | TEST_OTHER _ => False
  end
with built_testlist (tl : testlist) : Prop :=
  match tl with
  | TLnil => True
  | TLcons t next => built_test t ∧ built_testlist next
  end.

Fixpoint built_command (c : command) : Prop :=
  match c with
  | STOP | DISCARD | KEEP | MARK | UNMARK | RETURN => True
  | REJCT msg => wf_str msg
  | FILEINTO copy s | REDIRECT copy s => is_s32 copy ∧ wf_str s
  | ADDFLAG sl | REMOVEFLAG sl => wf_sl sl
  | SETFLAG sl => wf_sl sl ∧ sl ≠ []
  | NOTIFY method id options priority message =>
      wf_str method ∧ wf_opt id ∧ wf_sl options ∧ is_Some (priority_value priority)
      ∧ wf_str message
  | DENOTIFY ct _ pat priority => denotify ct ∧ wf_opt pat ∧ is_Some (priority_value priority)
  | VACATION addrs subject message days mime from handle =>
      wf_sl addrs ∧ wf_opt subject ∧ wf_opt message ∧ is_s32 days ∧ is_s32 mime
      ∧ wf_opt from ∧ wf_opt handle
  | INCLUDE loc s => is_Some (location_value loc) ∧ wf_str s
  | IF t th el => built_test t ∧ built_commandlist th ∧ built_commandlist el
  | CMD_OTHER _ => False
  end
with built_commandlist (cl : commandlist) : Prop :=
  match cl with
  | CLnil => True
  | CLcons c next => built_command c ∧ built_commandlist next
  end.
End Scripts.

(** The scripts the parser lets through: any comparator; [denotify] with any match type,
    and without one [ANY]. *)
Definition parsed_cmp (comptag : token) (comparator : bytes) : Prop :=
  is_Some (comptag_value comptag) ∧ wf_str comparator.
Definition parsed_denotify (comptag : token) : Prop := is_Some (comptag_value comptag) ∨ comptag = ANY.
Abbreviation parsed_test := (built_test parsed_cmp).
Abbreviation parsed_testlist := (built_testlist parsed_cmp).
Abbreviation parsed_command := (built_command parsed_cmp parsed_denotify).
Abbreviation parsed_commandlist := (built_commandlist parsed_cmp parsed_denotify).

(** Of them, those the bytecode has words for: one of the three comparators
    [bc_comparator_generate] knows ([known_commandlist]), and, too, no [denotify] with ":count" or
    ":value". *)
Definition wf_cmp (comptag : token) (comparator : bytes) : Prop :=
  is_Some (comptag_value comptag) ∧ is_Some (comparator_value comparator).
Abbreviation known_commandlist := (built_commandlist wf_cmp parsed_denotify).
Definition wf_denotify (comptag : token) : Prop := is_Some (denotify_comptag_value comptag).
Abbreviation wf_test := (built_test wf_cmp).
Abbreviation wf_testlist := (built_testlist wf_cmp).
Abbreviation wf_command := (built_command wf_cmp wf_denotify).
Abbreviation wf_commandlist := (built_commandlist wf_cmp wf_denotify).

(** Whether there is such a [denotify]; the generator refuses the script then. *)
Fixpoint refused_command (c : command) : bool :=
  match c with
  | DENOTIFY ct _ _ _ => negb (bool_decide (is_Some (denotify_comptag_value ct)))
  | IF _ th el => refused_commandlist th || refused_commandlist el
  | _ => false
  end
with refused_commandlist (cl : commandlist) : bool :=
  match cl with
  | CLnil => false
  | CLcons c next => refused_command c || refused_commandlist next
  end.

Lemma wf_parsed_cmp ct c : wf_cmp ct c → parsed_cmp ct c.
Proof.
  intros [? [v Hc]]. split; [done|]. unfold comparator_value in Hc.
  repeat case_decide; try done; subst c; (split; [apply (bool_decide_unpack _); by vm_compute|by vm_compute]).
Qed.

(** Fewer scripts are built from less. *)
Lemma built_test_mono (cmp cmp' : token → bytes → Prop) : (∀ ct c, cmp ct c → cmp' ct c) →
  (∀ t, built_test cmp t → built_test cmp' t) ∧ (∀ tl, built_testlist cmp tl → built_testlist cmp' tl).
Proof.
  intros Hcmp. apply test_testlist_ind; cbn [built_test built_testlist]; intros; destruct_and?; split_and?; auto.
Qed.

Lemma built_mono (cmp cmp' : token → bytes → Prop) (dt dt' : token → Prop) :
  (∀ ct c, cmp ct c → cmp' ct c) → (∀ ct, dt ct → dt' ct) →
  (∀ c, built_command cmp dt c → built_command cmp' dt' c) ∧
  (∀ cl, built_commandlist cmp dt cl → built_commandlist cmp' dt' cl).
Proof.
  intros Hcmp Hdt. apply command_commandlist_ind; cbn [built_command built_commandlist]; intros; destruct_and?; split_and?; auto.
  all: first [by eapply built_test_mono | match goal with H : _ → _ |- _ => by apply H end].
Qed.

Lemma wf_parsed_denotify ct : wf_denotify ct → parsed_denotify ct.
Proof. unfold wf_denotify, parsed_denotify. intros [v Hv]. destruct ct; auto; by left. Qed.

(** Whatever the comparators, a script is refused for its [denotify]s only. *)
Lemma not_refused cmp dt :
  (∀ c, refused_command c = false → built_command cmp dt c → built_command cmp wf_denotify c) ∧
  (∀ cl, refused_commandlist cl = false → built_commandlist cmp dt cl → built_commandlist cmp wf_denotify cl).
Proof.
  apply command_commandlist_ind; cbn [built_command built_commandlist refused_command refused_commandlist]; try done.
  - intros ct rel pat pr Hr (_ & ? & ?). split_and!; try done. case_bool_decide; done.
  - intros t th IHth el IHel [Hr1 Hr2]%orb_false_iff (? & ? & ?). split_and!; [done|by apply IHth|by apply IHel].
  - intros c IHc next IHn [Hr1 Hr2]%orb_false_iff [? ?]. split; [by apply IHc|by apply IHn].
Qed.

Lemma known_parsed cl : known_commandlist cl → parsed_commandlist cl.
Proof. apply (built_mono wf_cmp parsed_cmp); [apply wf_parsed_cmp|done]. Qed.

Lemma wf_known cl : wf_commandlist cl → known_commandlist cl.
Proof. apply (built_mono wf_cmp wf_cmp); [done|apply wf_parsed_denotify]. Qed.

(** ** Cells *)
Definition clen (cs : list bytecode_t) : Z := Z.of_nat (length cs).

Definition str_cells (s : bytes) : list bytecode_t := [Bint (blen s); Bstr (Some s)].
Definition opt_cells (s : option bytes) : list bytecode_t :=
  match s with Some s => str_cells s | None => [Bint (-1); Bstr None] end.
Definition sl_cells (sl : list bytes) : list bytecode_t :=
  Bint (Z.of_nat (length sl)) :: concat (map str_cells sl).

Definition word (o : option Z) : Z := default 0 o.

(** The words of a comparison: match type, relation, comparator. *)
Definition cmp_words (ct rel : token) (c : bytes) : list Z :=
  [word (comptag_value ct); relation_value rel; word (comparator_value c)].

Fixpoint tl_length (tl : testlist) : Z :=
  match tl with TLnil => 0 | TLcons _ n => 1 + tl_length n end.

(** The words of a header, address or body test. *)
Definition match_words (t : test) : list Z :=
  match t with
  | HEADER ct rel c _ _ => cmp_words ct rel c
  | ADDRESS ct rel c ap _ _ | ENVELOPE ct rel c ap _ _ =>
      cmp_words ct rel c ++ [word (addrpart_value ap)]
  | BODY ct rel c tr off _ _ => cmp_words ct rel c ++ [word (transform_value tr); off]
  | _ => []
  end.

(** Of the words, those that get a cell: an unknown comparator does not. *)
Definition cmp_cell_words (ct rel : token) (c : bytes) : list Z :=
  [word (comptag_value ct); relation_value rel] ++ match comparator_value c with Some v => [v] | None => [] end.
Definition cell_words (t : test) : list Z :=
  match t with
  | HEADER ct rel c _ _ => cmp_cell_words ct rel c
  | ADDRESS ct rel c ap _ _ | ENVELOPE ct rel c ap _ _ =>
      cmp_cell_words ct rel c ++ [word (addrpart_value ap)]
  | BODY ct rel c tr off _ _ => cmp_cell_words ct rel c ++ [word (transform_value tr); off]
  | _ => []
  end.

Lemma cell_words_wf t : wf_test t → cell_words t = match_words t.
Proof.
  assert (∀ ct rel c, wf_cmp ct c → cmp_cell_words ct rel c = cmp_words ct rel c) as H.
  { intros ct rel c [_ [v Hv]]. unfold cmp_cell_words, cmp_words. by rewrite Hv. }
  destruct t; cbn [built_test cell_words match_words]; try done; intros [Hc _]; by rewrite H.
Qed.

(** The cells: the words and the two string lists. *)
Definition match_cells (op : bytecode_comps) (ws : list Z) (sl pl : list bytes)
    : list bytecode_t :=
  Bint (comp_num op) :: map Bint ws ++ sl_cells sl ++ sl_cells pl.

Definition size_words (tag : token) (n : Z) : list Z :=
  [if decide (tag = OVER) then tag_num B_OVER else tag_num B_UNDER; n].

Fixpoint test_cells (base : Z) (t : test) : list bytecode_t :=
  match t with
  | STRUE => [Bint (comp_num BC_TRUE)]
  | SFALSE => [Bint (comp_num BC_FALSE)]
  | NOT t => Bint (comp_num BC_NOT) :: test_cells (base + 1) t
  | SIZE tag n => Bint (comp_num BC_SIZE) :: map Bint (size_words tag n)
  | EXISTS sl => Bint (comp_num BC_EXISTS) :: sl_cells sl
  | ANYOF tl => Bint (comp_num BC_ANYOF) :: Bint (tl_length tl) :: tl_cells (base + 2) tl
  | ALLOF tl => Bint (comp_num BC_ALLOF) :: Bint (tl_length tl) :: tl_cells (base + 2) tl
  | HEADER _ _ _ sl pl => match_cells BC_HEADER (cell_words t) sl pl
  | ADDRESS _ _ _ _ sl pl => match_cells BC_ADDRESS (cell_words t) sl pl
  | ENVELOPE _ _ _ _ sl pl => match_cells BC_ENVELOPE (cell_words t) sl pl
  | BODY _ _ _ _ _ types pl => match_cells BC_BODY (cell_words t) types pl
  | TEST_OTHER _ => []
  end
with tl_cells (base : Z) (tl : testlist) : list bytecode_t :=
  match tl with
  | TLnil => []
  | TLcons t next =>
      let cs := test_cells (base + 1) t in
      Bint (base + 1 + clen cs) :: cs ++ tl_cells (base + 1 + clen cs) next
  end.

(** Commands other than [IF]: the opcode and the parameters. *)
Definition command_op (c : command) : bytecode :=
  match c with
  | STOP => B_STOP | DISCARD => B_DISCARD | KEEP => B_KEEP | MARK => B_MARK
  | UNMARK => B_UNMARK | RETURN => B_RETURN | REJCT _ => B_REJECT
  | FILEINTO _ _ => B_FILEINTO | REDIRECT _ _ => B_REDIRECT
  | ADDFLAG _ => B_ADDFLAG | SETFLAG _ => B_SETFLAG | REMOVEFLAG _ => B_REMOVEFLAG
  | NOTIFY _ _ _ _ _ => B_NOTIFY | DENOTIFY _ _ _ _ => B_DENOTIFY
  | VACATION _ _ _ _ _ _ _ => B_VACATION | INCLUDE _ _ => B_INCLUDE
  | IF _ _ _ => B_IF | CMD_OTHER _ => B_NULL
  end.

(** A parameter of a command, in the order of the bytecode. *)
Inductive param :=
  | Pword (v : Z)
  | Pstring (s : bytes)
  | Popt (s : option bytes)
  | Plist (sl : list bytes).

Definition command_params (c : command) : list param :=
  match c with
  | REJCT msg => [Pstring msg]
  | FILEINTO copy s | REDIRECT copy s => [Pword copy; Pstring s]
  | ADDFLAG sl | SETFLAG sl | REMOVEFLAG sl => [Plist sl]
  | NOTIFY method id options priority message =>
      [Popt (Some method); Popt id; Plist options; Pword (word (priority_value priority));
       Pstring message]
  | DENOTIFY ct rel pat priority =>
      [Pword (word (priority_value priority)); Pword (word (denotify_comptag_value ct));
       Pword (relation_value rel); Popt pat]
  | VACATION addrs subject message days mime from handle =>
      [Plist addrs; Popt subject; Popt message; Pword days; Pword mime; Popt from; Popt handle]
  | INCLUDE loc s => [Pword (word (location_value loc)); Pstring s]
  | _ => []
  end.

Definition param_cells (p : param) : list bytecode_t :=
  match p with
  | Pword v => [Bint v]
  | Pstring s => str_cells s
  | Popt s => opt_cells s
  | Plist sl => sl_cells sl
  end.

Definition simple_cells (c : command) : list bytecode_t :=
  Bint (op_num (command_op c)) :: concat (map param_cells (command_params c)).

Fixpoint cmd_cells (base : Z) (c : command) : list bytecode_t :=
  match c with
  | IF t th el =>
      let tc := test_cells (base + 4) t in
      let th_start := base + 4 + clen tc in
      let thc := cl_cells th_start th in
      let th_end := th_start + clen thc in
      match el with
      | CLnil =>
          Bint (op_num B_IF) :: Bint th_start :: Bint th_end :: Bint (-1) :: tc ++ thc
      | _ =>
          let elc := cl_cells th_end el in
          Bint (op_num B_IF) :: Bint th_start :: Bint th_end :: Bint (th_end + clen elc)
            :: tc ++ thc ++ elc
      end
  | _ => simple_cells c
  end
with cl_cells (base : Z) (cl : commandlist) : list bytecode_t :=
  match cl with
  | CLnil => [Bint (op_num B_NULL)]
  | CLcons c next =>
      let cc := cmd_cells base c in
      match next with
      | CLnil => cc
      | _ => cc ++ cl_cells (base + clen cc) next
      end
  end.

(** ** Bytes *)
Definition str_bytes (s : bytes) : bytes :=
  be32 (blen s) ++ s ++ replicate (Z.to_nat (4 - blen s mod 4)) 0.
Definition opt_bytes (s : option bytes) : bytes :=
  match s with Some s => str_bytes s | None => be32 (-1) end.
Definition words_bytes (ws : list Z) : bytes := concat (map be32 ws).
Definition sl_bytes (pos : Z) (sl : list bytes) : bytes :=
  let body := concat (map str_bytes sl) in
  be32 (Z.of_nat (length sl)) ++ be32 (pos + 8 + blen body) ++ body.

Definition match_bytes (op : bytecode_comps) (pos : Z) (ws : list Z) (sl pl : list bytes) : bytes :=
  let slb := sl_bytes (pos + 4 + 4 * Z.of_nat (length ws)) sl in
  be32 (comp_num op) ++ words_bytes ws ++ slb
    ++ sl_bytes (pos + 4 + 4 * Z.of_nat (length ws) + blen slb) pl.

Fixpoint test_bytes (pos : Z) (t : test) : bytes :=
  match t with
  | STRUE => be32 (comp_num BC_TRUE)
  | SFALSE => be32 (comp_num BC_FALSE)
  | NOT t => be32 (comp_num BC_NOT) ++ test_bytes (pos + 4) t
  | SIZE tag n => be32 (comp_num BC_SIZE) ++ words_bytes (size_words tag n)
  | EXISTS sl => be32 (comp_num BC_EXISTS) ++ sl_bytes (pos + 4) sl
  | ANYOF tl =>
      let body := tl_bytes (pos + 12) tl in
      be32 (comp_num BC_ANYOF) ++ be32 (tl_length tl) ++ be32 (pos + 12 + blen body) ++ body
  | ALLOF tl =>
      let body := tl_bytes (pos + 12) tl in
      be32 (comp_num BC_ALLOF) ++ be32 (tl_length tl) ++ be32 (pos + 12 + blen body) ++ body
  | HEADER _ _ _ sl pl => match_bytes BC_HEADER pos (match_words t) sl pl
  | ADDRESS _ _ _ _ sl pl => match_bytes BC_ADDRESS pos (match_words t) sl pl
  | ENVELOPE _ _ _ _ sl pl => match_bytes BC_ENVELOPE pos (match_words t) sl pl
  | BODY _ _ _ _ _ types pl => match_bytes BC_BODY pos (match_words t) types pl
  | TEST_OTHER _ => []
  end
with tl_bytes (pos : Z) (tl : testlist) : bytes :=
  match tl with
  | TLnil => []
  | TLcons t next =>
      let tb := test_bytes pos t in tb ++ tl_bytes (pos + blen tb) next
  end.

Definition param_bytes (pos : Z) (p : param) : bytes :=
  match p with
  | Pword v => be32 v
  | Pstring s => str_bytes s
  | Popt s => opt_bytes s
  | Plist sl => sl_bytes pos sl
  end.

Fixpoint params_bytes (pos : Z) (ps : list param) : bytes :=
  match ps with
  | [] => []
  | p :: ps' => let pb := param_bytes pos p in pb ++ params_bytes (pos + blen pb) ps'
  end.

Definition simple_bytes (pos : Z) (c : command) : bytes :=
  be32 (op_num (command_op c)) ++ params_bytes (pos + 4) (command_params c).

Fixpoint cmd_bytes (pos : Z) (c : command) : bytes :=
  match c with
  | IF t th el =>
      let tb := test_bytes (pos + 8) t in
      let testend := pos + 8 + blen tb in
      let thb := cl_bytes (testend + 8) th in
      let thend := testend + 8 + blen thb in
      match el with
      | CLnil =>
          be32 (op_num B_IF) ++ be32 (testend / 4) ++ tb
            ++ be32 (op_num B_JUMP) ++ be32 (thend / 4) ++ thb
      | _ =>
          let elb := cl_bytes (thend + 8) el in
          be32 (op_num B_IF) ++ be32 (testend / 4) ++ tb
            ++ be32 (op_num B_JUMP) ++ be32 ((thend + 8) / 4) ++ thb
            ++ be32 (op_num B_JUMP) ++ be32 ((thend + 8 + blen elb) / 4) ++ elb
      end
  | _ => simple_bytes pos c
  end
with cl_bytes (pos : Z) (cl : commandlist) : bytes :=
  match cl with
  | CLnil => be32 (op_num B_NULL)
  | CLcons c next =>
      let cb := cmd_bytes pos c in
      match next with
      | CLnil => cb
      | _ => cb ++ cl_bytes (pos + blen cb) next
      end
  end.

Definition script_bytes (cmds : commandlist) : bytes :=
  BYTECODE_MAGIC ++ be32 BYTECODE_VERSION ++ cl_bytes 16 cmds.
