(* ===== verification/SieveGenerateProof.v ===== *)
(** * SieveGenerateProof: the generator writes the reference cells

    For a well-formed script [sieve_generate_bytecode] never fails, never
    writes outside [retval->data], and leaves in it exactly the cells of
    [SieveCode]. *)
From S2P Require Import Prelude CMem SieveTree CFile SieveGenerate SieveEmit SieveCode.
#[local] Open Scope Z_scope.

(** An array filled up to a location, with [k] uninitialised cells after it. *)
Definition st (pre : list bytecode_t) (k : nat) (se : Z) : bytecode_info :=
  BInfo (pre ++ replicate k Buninit) se.

Lemma clen_app a b : clen (a ++ b) = clen a + clen b.
Proof. unfold clen. rewrite length_app. lia. Qed.
Lemma clen_cons x a : clen (x :: a) = 1 + clen a.
Proof. unfold clen. simpl. lia. Qed.
Lemma clen_nil : clen [] = 0. Proof. done. Qed.
Lemma clen_nonneg a : 0 ≤ clen a. Proof. unfold clen. lia. Qed.

Lemma clen_str s : clen (str_cells s) = 2. Proof. done. Qed.
Lemma clen_opt s : clen (opt_cells s) = 2. Proof. by destruct s. Qed.

Create Rewrite HintDb clen.
#[export] Hint Rewrite clen_app clen_cons clen_nil clen_str clen_opt : clen.

Ltac clia := autorewrite with clen in *; unfold clen in *; lia.

Lemma atleast_st pre k se n :
  ∃ k', atleast (st pre k se) n = st pre k' se ∧ n ≤ clen pre + Z.of_nat k' ∧ (k ≤ k')%nat.
Proof.
  unfold atleast, st, reallen. cbn [data scriptend]. rewrite length_app, length_replicate.
  destruct (Z.ltb_spec (Z.of_nat (length pre + k)) n).
  - set (n' := if _ <? n then n else _).
    assert (n ≤ n') by (unfold n'; destruct (Z.ltb_spec (Z.of_nat (length pre + k) * 2) n); lia).
    exists (k + Z.to_nat (n' - Z.of_nat (length pre + k)))%nat.
    rewrite <- app_assoc, <- replicate_add. split; [done|]. unfold clen. lia.
  - exists k. split; [done|]. unfold clen. lia.
Qed.

Lemma put_st pre k se i c :
  i = clen pre → (0 < k)%nat → put (st pre k se) i c = Ok (st (pre ++ [c]) (k - 1) se).
Proof.
  intros -> Hk. unfold put, st, reallen. cbn [data scriptend].
  rewrite length_app, length_replicate.
  destruct (Z.leb_spec 0 (clen pre)), (Z.ltb_spec (clen pre) (Z.of_nat (length pre + k)));
    unfold clen in *; try lia. cbn [andb]. rewrite Nat2Z.id. do 2 f_equal.
  destruct k as [|k]; [lia|]. cbn [replicate]. rewrite insert_app_r_alt by lia.
  rewrite Nat.sub_diag, <- app_assoc. cbn. by rewrite Nat.sub_0_r.
Qed.

(** Overwrite a cell already laid out. *)
Lemma put_patch pre x post k se i c :
  i = clen pre → put (st (pre ++ x :: post) k se) i c = Ok (st (pre ++ c :: post) k se).
Proof.
  intros ->. unfold put, st, reallen. cbn [data scriptend].
  rewrite !length_app. cbn [length].
  destruct (Z.leb_spec 0 (clen pre)),
    (Z.ltb_spec (clen pre) (Z.of_nat (length pre + S (length post) + length (replicate k Buninit))));
    unfold clen in *; try lia. cbn [andb]. rewrite Nat2Z.id. do 2 f_equal.
  rewrite <- !app_assoc. rewrite insert_app_r_alt by lia. by rewrite Nat.sub_diag.
Qed.

Lemma get_int_st pre v post k se i :
  i = clen pre → get_int (st (pre ++ Bint v :: post) k se) i = Ok v.
Proof.
  intros ->. unfold get_int, st. cbn [data]. destruct (Z.ltb_spec (clen pre) 0); [clia|].
  unfold clen. rewrite Nat2Z.id, <- app_assoc. cbn [app]. by rewrite list_lookup_middle.
Qed.

(** [m] lays the cells [cs] at location [codep] of an array filled up to there
    and moves to the location after them. *)
Definition lays (m : Z → bytecode_info → gen) (cs : Z → list bytecode_t) : Prop :=
  ∀ pre k se, ∃ k',
    m (clen pre) (st pre k se) =
      Ok (clen pre + clen (cs (clen pre)), st (pre ++ cs (clen pre)) k' se).

(** One step of straight-line generator code. *)
Ltac g_atleast :=
  match goal with
  | |- context [atleast (st ?pre ?k ?se) ?n] =>
      let k' := fresh "k" in let E := fresh "E" in let H := fresh "H" in
      destruct (atleast_st pre k se n) as (k' & E & H & ?); rewrite E; clear E
  end.
Ltac g_put := rewrite put_st; [|clia..]; cbn [mbind result_bind].
(** Close a goal [∃ k', Ok (_, st (pre ++ ...) _ _) = Ok (_, st (pre ++ cs) k' _)]. *)
Ltac g_done :=
  eexists; rewrite <- ?app_assoc; cbn [app];
  match goal with |- Ok (?a, _) = Ok (?b, _) => replace a with b by clia end; reflexivity.

Lemma lays_put_string s :
  wf_str s →
  ∀ pre k se, (1 < k)%nat →
  put_string (st pre k se) (clen pre) s = Ok (clen pre + 2, st (pre ++ str_cells s) (k - 2) se).
Proof.
  intros [Hs Hl] pre k se Hk. unfold put_string. rewrite to_s32_small by (unfold is_s32; blia).
  g_put. g_put. rewrite <- app_assoc. do 3 f_equal. lia.
Qed.

Lemma lays_put_opt s :
  wf_opt s →
  ∀ pre k se, (1 < k)%nat →
  put_opt_string (st pre k se) (clen pre) s = Ok (clen pre + 2, st (pre ++ opt_cells s) (k - 2) se).
Proof.
  destruct s as [s|]; cbn [put_opt_string opt_cells wf_opt from_option]; intros Hs pre k se Hk.
  - by apply lays_put_string.
  - g_put. g_put. rewrite <- app_assoc. do 3 f_equal. lia.
Qed.

Lemma lays_stringlist_loop sl pre k se n :
  wf_sl sl → ∃ k',
  bc_stringlist_loop sl (clen pre) (st pre k se) n =
    Ok (clen pre + clen (concat (map str_cells sl)), st (pre ++ concat (map str_cells sl)) k' se,
        n + Z.of_nat (length sl)).
Proof.
  intros H. revert pre k n. induction H as [|s sl Hs Hsl IH]; intros pre k n.
  - exists k. cbn. rewrite app_nil_r, clen_nil, !Z.add_0_r. done.
  - cbn [bc_stringlist_loop map concat length]. g_atleast.
    rewrite (lays_put_string s Hs) by clia. cbn [mbind result_bind].
    replace (clen pre + 2) with (clen (pre ++ str_cells s)) by clia.
    destruct (IH (pre ++ str_cells s) (k0 - 2)%nat (n + 1)) as [k' ->]. exists k'.
    rewrite <- app_assoc. do 2 f_equal; [f_equal; clia|lia].
Qed.

Lemma lays_stringlist sl :
  wf_sl sl → lays (λ codep b, bc_stringlist_generate codep b sl) (λ _, sl_cells sl).
Proof.
  intros Hsl pre k se. unfold bc_stringlist_generate, sl_cells. g_atleast.
  destruct k0 as [|k0]; [clia|].
  assert (st pre (S k0) se = st (pre ++ [Buninit]) k0 se) as ->.
  { unfold st. by rewrite <- app_assoc. }
  replace (clen pre + 1) with (clen (pre ++ [Buninit])) by clia.
  destruct (lays_stringlist_loop sl (pre ++ [Buninit]) k0 se 0 Hsl) as [k' ->].
  cbn [mbind result_bind]. rewrite <- app_assoc. cbn [app]. rewrite put_patch by done.
  cbn [mbind result_bind]. exists k'. do 2 f_equal. clia.
Qed.

Lemma lays_op op : lays (λ codep b, put_op b codep op) (λ _, [Bint op]).
Proof. intros pre k se. unfold put_op. g_atleast. g_put. g_done. Qed.

(** ** Sequencing *)

Lemma gen_then_st codep b (k : Z → bytecode_info → gen) :
  codep ≠ -1 → gen_then (Ok (codep, b)) k = k codep b.
Proof. intros. unfold gen_then. cbn. by destruct (Z.eqb_spec codep (-1)). Qed.

Lemma lays_gen_then m cs (k : Z → bytecode_info → gen) pre k0 se :
  lays m cs →
  ∃ k1, gen_then (m (clen pre) (st pre k0 se)) k =
        k (clen (pre ++ cs (clen pre))) (st (pre ++ cs (clen pre)) k1 se).
Proof.
  intros Hm. destruct (Hm pre k0 se) as [k1 E]. exists k1. rewrite E, gen_then_st by clia.
  by rewrite clen_app.
Qed.

Lemma lays_comparator ct rel c :
  parsed_cmp ct c →
  lays (λ codep b, bc_comparator_generate codep b ct rel c) (λ _, map Bint (cmp_cell_words ct rel c)).
Proof.
  intros [[v Hv] _] pre k se. unfold bc_comparator_generate, bc_relation_generate, cmp_cell_words.
  rewrite Hv. cbn [word default from_option]. g_atleast. g_put. g_atleast. g_put. g_atleast.
  destruct (comparator_value c) as [w|]; cbn [map app]; [g_put|]; g_done.
Qed.

Lemma lays_two_lists sl pl :
  wf_sl sl → wf_sl pl →
  lays (λ codep b, bc_two_lists codep b sl pl) (λ _, sl_cells sl ++ sl_cells pl).
Proof.
  intros Hsl Hpl pre k se. unfold bc_two_lists.
  destruct (lays_gen_then _ _ (λ codep b, gen_then (bc_stringlist_generate codep b pl)
    (λ codep b, Ok (codep, b))) pre k se (lays_stringlist sl Hsl)) as [k1 ->].
  destruct (lays_gen_then _ _ (λ codep b, Ok (codep, b)) (pre ++ sl_cells sl) k1 se
    (lays_stringlist pl Hpl)) as [k2 ->].
  exists k2. rewrite <- app_assoc. by rewrite !clen_app, Z.add_assoc.
Qed.

Ltac g_op :=
  match goal with
  | |- context [put_op (st ?pre ?k ?se) (clen ?pre) ?op] =>
      let k' := fresh "k" in let E := fresh "E" in
      destruct (lays_op op pre k se) as (k' & E); cbn beta in E; rewrite E; clear E;
      cbn [mbind result_bind];
      replace (clen pre + clen [Bint op]) with (clen (pre ++ [Bint op])) by clia
  end.

(** Run the generator proved by [H : lays m cs] at the head of a [gen_then]. *)
Ltac g_then H :=
  lazymatch goal with
  | |- context [gen_then ?m ?k] =>
      lazymatch m with
      | context [st ?pre ?k0 ?se] =>
          let k1 := fresh "k" in let E := fresh "E" in
          destruct (lays_gen_then _ _ k pre k0 se H) as (k1 & E); cbn beta in E; rewrite E; clear E
      end
  end.

(** Close with the locations and the cells equal up to associativity. *)
Ltac g_fin :=
  eexists; cbn [app id]; rewrite ?app_nil_r; rewrite <- ?app_assoc; cbn [app];
  match goal with |- Ok (?a, _) = Ok (?b, _) => replace a with b by clia end;
  reflexivity.

(** ** Tests *)

Lemma lays_header ct rel c sl pl :
  parsed_cmp ct c → wf_sl sl → wf_sl pl →
  lays (λ codep b, bc_header_generate codep b ct rel c sl pl)
       (λ _, match_cells BC_HEADER (cmp_cell_words ct rel c) sl pl).
Proof.
  intros Hc Hsl Hpl pre k se. unfold bc_header_generate, match_cells.
  g_op. g_then (lays_comparator ct rel c Hc).
  edestruct (lays_two_lists sl pl Hsl Hpl) as [k' ->]. g_fin.
Qed.

Lemma lays_address op ct rel c ap sl pl :
  parsed_cmp ct c → is_Some (addrpart_value ap) → wf_sl sl → wf_sl pl →
  lays (λ codep b, bc_address_generate op codep b ct rel c ap sl pl)
       (λ _, match_cells op (cmp_cell_words ct rel c ++ [word (addrpart_value ap)]) sl pl).
Proof.
  intros Hc [v Hv] Hsl Hpl pre k se. unfold bc_address_generate, match_cells.
  g_op. g_then (lays_comparator ct rel c Hc). g_atleast. rewrite Hv. g_put.
  match goal with |- context [bc_two_lists ?c (st ?p _ _)] => replace c with (clen p) by clia end.
  edestruct (lays_two_lists sl pl Hsl Hpl) as [k' ->]. rewrite map_app. cbn [map word default from_option]. g_fin.
Qed.

Lemma lays_body ct rel c tr off types pl :
  parsed_cmp ct c → is_Some (transform_value tr) → wf_sl types → wf_sl pl →
  lays (λ codep b, bc_body_generate codep b ct rel c tr off types pl)
       (λ _, match_cells BC_BODY (cmp_cell_words ct rel c ++ [word (transform_value tr); off]) types pl).
Proof.
  intros Hc [v Hv] Hsl Hpl pre k se. unfold bc_body_generate, match_cells.
  g_op. g_then (lays_comparator ct rel c Hc). g_atleast. rewrite Hv. g_put. g_put.
  match goal with |- context [bc_two_lists ?c (st ?p _ _)] => replace c with (clen p) by clia end.
  edestruct (lays_two_lists types pl Hsl Hpl) as [k' ->]. rewrite map_app. cbn [map word default from_option]. g_fin.
Qed.

(** The frame around a test list. *)
Lemma lays_testlist loop tl :
  (∀ pre k se n, ∃ k', loop n (clen pre) (st pre k se) =
     Ok (clen pre + clen (tl_cells (clen pre) tl), st (pre ++ tl_cells (clen pre) tl) k' se,
         n + tl_length tl)) →
  lays (λ codep b, bc_testlist_generate (λ codep b, loop 0 codep b) codep b)
       (λ base, Bint (tl_length tl) :: tl_cells (base + 1) tl).
Proof.
  intros Hloop pre k se. unfold bc_testlist_generate. g_atleast.
  destruct k0 as [|k0]; [clia|].
  assert (st pre (S k0) se = st (pre ++ [Buninit]) k0 se) as ->.
  { unfold st. by rewrite <- app_assoc. }
  replace (clen pre + 1) with (clen (pre ++ [Buninit])) by clia.
  destruct (Hloop (pre ++ [Buninit]) k0 se 0) as [k' ->].
  cbn [mbind result_bind]. rewrite <- app_assoc. cbn [app]. rewrite put_patch by done.
  cbn [mbind result_bind]. exists k'. do 2 f_equal. clia.
Qed.

Lemma lays_test_testlist :
  (∀ t, parsed_test t → lays (bc_test_generate t) (λ base, test_cells base t)) ∧
  (∀ tl, parsed_testlist tl → ∀ pre k se n, ∃ k',
     bc_testlist_loop tl (clen pre) (st pre k se) n =
       Ok (clen pre + clen (tl_cells (clen pre) tl), st (pre ++ tl_cells (clen pre) tl) k' se,
           n + tl_length tl)).
Proof.
  apply test_testlist_ind; cbn [built_test built_testlist].
  - intros _. apply lays_op.
  - intros _. apply lays_op.
  - intros t IH Hwf pre k se. cbn [bc_test_generate test_cells]. g_op. g_then (IH Hwf).
    replace (clen pre + 1) with (clen (pre ++ [Bint (comp_num BC_NOT)])) by clia. g_fin.
  - intros tag n Hn pre k se. cbn [bc_test_generate test_cells size_words map].
    g_atleast. g_put. g_put. g_put. g_done.
  - intros sl Hsl pre k se. cbn [bc_test_generate test_cells]. g_op.
    edestruct (lays_stringlist sl Hsl) as [k' ->]. g_fin.
  - intros tl IH Hwf pre k se. cbn [bc_test_generate test_cells]. g_op.
    g_then (lays_testlist (λ n c b, bc_testlist_loop tl c b n) tl (λ p k s n, IH Hwf p k s n)).
    replace (clen pre + 2) with (clen (pre ++ [Bint (comp_num BC_ANYOF)]) + 1) by clia. g_fin.
  - intros tl IH Hwf pre k se. cbn [bc_test_generate test_cells]. g_op.
    g_then (lays_testlist (λ n c b, bc_testlist_loop tl c b n) tl (λ p k s n, IH Hwf p k s n)).
    replace (clen pre + 2) with (clen (pre ++ [Bint (comp_num BC_ALLOF)]) + 1) by clia. g_fin.
  - intros ct rel c sl pl (Hc & Hsl & Hpl). by apply lays_header.
  - intros ct rel c ap sl pl (Hc & Hap & Hsl & Hpl). by apply lays_address.
  - intros ct rel c ap sl pl (Hc & Hap & Hsl & Hpl). by apply lays_address.
  - intros ct rel c tr off types pl (Hc & Htr & _ & Hsl & Hpl). by apply lays_body.
  - done.
  - intros _ pre k se n. exists k. cbn. by rewrite app_nil_r, clen_nil, !Z.add_0_r.
  - intros t IHt tl IHtl [Ht Htl] pre k se n. cbn [bc_testlist_loop tl_cells tl_length].
    g_atleast. destruct k0 as [|k0]; [clia|].
    assert (st pre (S k0) se = st (pre ++ [Buninit]) k0 se) as ->.
    { unfold st. by rewrite <- app_assoc. }
    replace (clen pre + 1) with (clen (pre ++ [Buninit])) by clia.
    destruct (IHt Ht (pre ++ [Buninit]) k0 se) as [k1 ->].
    cbn [mbind result_bind]. rewrite <- app_assoc. cbn [app]. rewrite put_patch by done.
    cbn [mbind result_bind]. set (cs := test_cells _ t).
    set (base := clen (pre ++ [Buninit]) + clen cs).
    assert (clen (pre ++ Bint base :: cs) = base) as Hb by (unfold base; clia).
    destruct (IHtl Htl (pre ++ Bint base :: cs) k1 se (n + 1)) as [k2 E]. rewrite Hb in E.
    rewrite E. exists k2. rewrite <- app_assoc. cbn [app].
    replace (clen pre + clen (Bint base :: cs ++ tl_cells base tl))
      with (base + clen (tl_cells base tl)) by (rewrite <- Hb at 1; clia).
    by rewrite Z.add_assoc.
Qed.

(** ** Commands *)

Lemma lays_denotify ct rel pat priority :
  is_Some (denotify_comptag_value ct) → wf_opt pat → is_Some (priority_value priority) →
  lays (λ codep b, bc_denotify_generate codep b ct rel pat priority)
       (λ _, simple_cells (DENOTIFY ct rel pat priority)).
Proof.
  intros [v Hv] Hp [w Hw] pre k se.
  unfold bc_denotify_generate, bc_relation_generate, simple_cells.
  cbn [command_op command_params map concat param_cells]. rewrite Hv, Hw.
  g_atleast. g_put. g_put. g_put. g_atleast. g_put.
  match goal with |- context [put_opt_string (st ?p _ _) ?c _] => replace c with (clen p) by clia end.
  rewrite lays_put_opt by (done || clia). cbn [word default from_option]. g_fin.
Qed.

Lemma lays_notify method id options priority message :
  parsed_command (NOTIFY method id options priority message) →
  lays (λ codep b, bc_notify_generate codep b method id options priority message)
       (λ _, simple_cells (NOTIFY method id options priority message)).
Proof.
  intros (Hm & Hi & Ho & [v Hv] & Hms) pre k se.
  unfold bc_notify_generate, simple_cells.
  cbn [command_op command_params map concat param_cells opt_cells]. rewrite Hv.
  g_atleast. g_put.
  match goal with |- context [put_string (st ?p _ _) ?c _] => replace c with (clen p) by clia end.
  rewrite lays_put_string by (done || clia). cbn [mbind result_bind].
  match goal with |- context [put_opt_string (st ?p _ _) ?c _] => replace c with (clen p) by clia end.
  rewrite lays_put_opt by (done || clia). cbn [mbind result_bind].
  match goal with |- context [bc_stringlist_generate ?c (st ?p _ _)] => replace c with (clen p) by clia end.
  g_then (lays_stringlist options Ho). g_atleast. g_put.
  match goal with |- context [put_string (st ?p _ _) ?c _] => replace c with (clen p) by clia end.
  rewrite lays_put_string by (done || clia). cbn [word default from_option]. g_fin.
Qed.

Ltac g_opt :=
  rewrite lays_put_opt by (done || clia); cbn [mbind result_bind];
  match goal with
  | |- context [atleast (st (?p ++ opt_cells ?s) _ _) (clen ?p + 2 + _)] =>
      replace (clen p + 2) with (clen (p ++ opt_cells s)) by clia
  | _ => idtac
  end.

Lemma lays_vacation addrs subject message days mime from handle :
  parsed_command (VACATION addrs subject message days mime from handle) →
  lays (λ codep b, bc_vacation_generate codep b addrs subject message days mime from handle)
       (λ _, simple_cells (VACATION addrs subject message days mime from handle)).
Proof.
  intros (Ha & Hs & Hm & _ & _ & Hf & Hh) pre k se. unfold bc_vacation_generate, simple_cells.
  cbn [command_op command_params map concat param_cells].
  g_op. g_then (lays_stringlist addrs Ha). g_atleast. g_opt. g_atleast. g_opt.
  g_atleast. g_put. g_put.
  match goal with |- context [atleast (st ?p _ _) (?c + 2)] => replace c with (clen p) by clia end.
  g_atleast. g_opt. g_atleast. g_opt.
  match goal with |- context [?c =? -1] => destruct (Z.eqb_spec c (-1)); [clia|] end.
  g_fin.
Qed.

Lemma lays_copy_string op c copy s :
  wf_str s → command_op c = op → command_params c = [Pword copy; Pstring s] →
  lays (λ codep b, bc_copy_string_generate op codep b copy s) (λ _, simple_cells c).
Proof.
  intros Hs Ho Hp pre k se. unfold bc_copy_string_generate, simple_cells. rewrite Ho, Hp.
  cbn [map concat param_cells]. g_atleast. g_put. g_put.
  match goal with |- context [put_string (st ?p _ _) ?c _] => replace c with (clen p) by clia end.
  rewrite lays_put_string by (done || clia). g_fin.
Qed.

Lemma lays_flags op c sl :
  wf_sl sl → command_op c = op → command_params c = [Plist sl] →
  lays (λ codep b, bc_flags_generate op codep b sl) (λ _, simple_cells c).
Proof.
  intros Hs Ho Hp pre k se. unfold bc_flags_generate, simple_cells. rewrite Ho, Hp.
  cbn [map concat param_cells]. g_op. g_then (lays_stringlist sl Hs). g_fin.
Qed.

Lemma lays_reject msg :
  wf_str msg → lays (bc_command_generate (REJCT msg)) (λ _, simple_cells (REJCT msg)).
Proof.
  intros Hs pre k se. cbn [bc_command_generate]. unfold simple_cells.
  cbn [command_op command_params map concat param_cells]. g_atleast. g_put.
  match goal with |- context [put_string (st ?p _ _) ?c _] => replace c with (clen p) by clia end.
  rewrite lays_put_string by (done || clia). g_fin.
Qed.

Lemma lays_include loc s :
  is_Some (location_value loc) → wf_str s →
  lays (bc_command_generate (INCLUDE loc s)) (λ _, simple_cells (INCLUDE loc s)).
Proof.
  intros [v Hv] Hs pre k se. cbn [bc_command_generate]. unfold simple_cells.
  cbn [command_op command_params map concat param_cells]. rewrite Hv. g_atleast. g_put. g_put.
  match goal with |- context [put_string (st ?p _ _) ?c _] => replace c with (clen p) by clia end.
  rewrite lays_put_string by (done || clia). cbn [word default from_option]. g_fin.
Qed.

(** Like [lays], for code that moves [scriptend]. *)
Definition lays_se (m : Z → bytecode_info → gen) (cs : Z → list bytecode_t) : Prop :=
  ∀ pre k se, ∃ k' se',
    m (clen pre) (st pre k se) =
      Ok (clen pre + clen (cs (clen pre)), st (pre ++ cs (clen pre)) k' se').

Definition lays_end (m : Z → bytecode_info → gen) (cs : Z → list bytecode_t) : Prop :=
  ∀ pre k se, ∃ k',
    m (clen pre) (st pre k se) =
      Ok (clen pre + clen (cs (clen pre)),
          st (pre ++ cs (clen pre)) k' (clen pre + clen (cs (clen pre)))).

Lemma lays_lays_se m cs : lays m cs → lays_se m cs.
Proof. intros H pre k se. destruct (H pre k se) as [k' ->]. eauto. Qed.

Lemma lays_end_se m cs : lays_end m cs → lays_se m cs.
Proof. intros H pre k se. destruct (H pre k se) as [k' ->]. eauto. Qed.

Lemma lays_se_then m cs (k : Z → bytecode_info → gen) pre k0 se i :
  lays_se m cs → i = clen pre →
  ∃ k1 se', gen_then (m i (st pre k0 se)) k =
        k (clen pre + clen (cs (clen pre))) (st (pre ++ cs (clen pre)) k1 se').
Proof.
  intros Hm ->. destruct (Hm pre k0 se) as (k1 & se' & E). exists k1, se'.
  by rewrite E, gen_then_st by clia.
Qed.

(** Run the generator proved by [H : lays_se m cs] at location [i]. *)
Ltac g_se H k1 se1 :=
  lazymatch goal with
  | |- context [gen_then (?m ?i (st ?pre ?k0 ?se)) ?k] =>
      let E := fresh "E" in
      destruct (lays_se_then _ _ k pre k0 se i H) as (k1 & se1 & E);
        [clia | cbn beta in E; rewrite E; clear E]
  end.

(** The three cells reserved for the jump table. *)
Lemma st_holes pre k se :
  (3 ≤ k)%nat → st pre k se = st (pre ++ [Buninit; Buninit; Buninit]) (k - 3) se.
Proof.
  intros. destruct k as [|[|[|k]]]; try lia. unfold st. rewrite <- app_assoc. cbn.
  by rewrite Nat.sub_0_r.
Qed.

Lemma put_patch' pre a x post k se i c :
  i = clen pre + clen a →
  put (st (pre ++ a ++ x :: post) k se) i c = Ok (st (pre ++ a ++ c :: post) k se).
Proof. intros ->. rewrite !(app_assoc pre). apply put_patch. clia. Qed.

Lemma get_int_st' pre a v post k se i :
  i = clen pre + clen a → get_int (st (pre ++ a ++ Bint v :: post) k se) i = Ok v.
Proof. intros ->. rewrite (app_assoc pre). apply get_int_st. clia. Qed.

(** The jump table of an [IF] laid at [pre]: its cells 1 to 3. *)
Lemma put_if1 pre o x a b post k se i c :
  i = clen pre + 1 →
  put (st (pre ++ o :: x :: a :: b :: post) k se) i c = Ok (st (pre ++ o :: c :: a :: b :: post) k se).
Proof. intros ->. apply (put_patch' pre [o]). done. Qed.
Lemma put_if2 pre o a x b post k se i c :
  i = clen pre + 2 →
  put (st (pre ++ o :: a :: x :: b :: post) k se) i c = Ok (st (pre ++ o :: a :: c :: b :: post) k se).
Proof. intros ->. apply (put_patch' pre [o; a]). done. Qed.
Lemma put_if3 pre o a b x post k se i c :
  i = clen pre + 3 →
  put (st (pre ++ o :: a :: b :: x :: post) k se) i c = Ok (st (pre ++ o :: a :: b :: c :: post) k se).
Proof. intros ->. apply (put_patch' pre [o; a; b]). done. Qed.
Lemma get_if2 pre o a v b post k se i :
  i = clen pre + 2 → get_int (st (pre ++ o :: a :: Bint v :: b :: post) k se) i = Ok v.
Proof. intros ->. apply (get_int_st' pre [o; a]). done. Qed.
Lemma get_if3 pre o a b v post k se i :
  i = clen pre + 3 → get_int (st (pre ++ o :: a :: b :: Bint v :: post) k se) i = Ok v.
Proof. intros ->. apply (get_int_st' pre [o; a; b]). done. Qed.

(** The generator returns -1. *)
Definition refuses (m : Z → bytecode_info → gen) : Prop :=
  ∀ pre k se, ∃ b, m (clen pre) (st pre k se) = Ok (-1, b).

(** It does so exactly on what is refused. *)
Definition lays_unless (refused : bool) (m : Z → bytecode_info → gen) (cs : Z → list bytecode_t) : Prop :=
  if refused then refuses m else lays_se m cs.

Lemma refuses_then m (k : Z → bytecode_info → gen) pre k0 se i :
  refuses m → i = clen pre → ∃ b, gen_then (m i (st pre k0 se)) k = Ok (-1, b).
Proof. intros Hm ->. destruct (Hm pre k0 se) as [b E]. exists b. by rewrite E. Qed.

Lemma refuses_denotify ct rel pat priority :
  ¬ is_Some (denotify_comptag_value ct) → is_Some (priority_value priority) →
  refuses (bc_command_generate (DENOTIFY ct rel pat priority)).
Proof.
  intros Hct [w Hw] pre k se. cbn [bc_command_generate]. unfold bc_denotify_generate. g_atleast. g_put. rewrite Hw. g_put.
  destruct (denotify_comptag_value ct); [by destruct Hct|]. by eexists.
Qed.

Lemma lays_if t th el :
  lays (bc_test_generate t) (λ base, test_cells base t) →
  lays_unless (refused_commandlist th) (bc_action_generate th) (λ base, cl_cells base th) →
  lays_unless (refused_commandlist el) (bc_action_generate el) (λ base, cl_cells base el) →
  lays_unless (refused_command (IF t th el)) (bc_command_generate (IF t th el)) (λ base, cmd_cells base (IF t th el)).
Proof.
  intros Ht Hth Hel. cbn [refused_command]. destruct (refused_commandlist th) eqn:Eth; cbn [orb].
  { intros pre k se. cbn [bc_command_generate]. g_atleast. g_put. rewrite st_holes by clia. rewrite <- app_assoc. cbn [app].
    set (pre1 := pre ++ [Bint (op_num B_IF); Buninit; Buninit; Buninit]).
    assert (clen pre1 = clen pre + 4) as Hp1 by (unfold pre1; clia). rewrite <- Hp1. set (tc := test_cells (clen pre1) t).
    g_se (lays_lays_se _ _ Ht) k1 se1. fold tc. set (ths := clen pre1 + clen tc). unfold pre1 at 1. rewrite <- app_assoc. cbn [app].
    rewrite put_if1 by clia. cbn [mbind result_bind]. apply (refuses_then _ _ _ _ _ _ Hth). unfold ths. clia. }
  destruct (refused_commandlist el) eqn:Eel; intros pre k se; cbn [bc_command_generate cmd_cells].
  all: g_atleast; g_put; rewrite st_holes by clia; rewrite <- app_assoc; cbn [app].
  all: set (pre1 := pre ++ [Bint (op_num B_IF); Buninit; Buninit; Buninit]).
  all: assert (clen pre1 = clen pre + 4) as Hp1 by (unfold pre1; clia).
  all: rewrite <- Hp1; set (tc := test_cells (clen pre1) t).
  all: g_se (lays_lays_se _ _ Ht) k1 se1.
  all: fold tc; set (ths := clen pre1 + clen tc); unfold pre1 at 1; rewrite <- app_assoc; cbn [app].
  all: rewrite put_if1 by clia; cbn [mbind result_bind].
  all: g_se Hth k2 se2.
  all: assert (clen (pre ++ Bint (op_num B_IF) :: Bint ths :: Buninit :: Buninit :: tc) = ths) as Hths
    by (unfold ths; clia).
  all: rewrite Hths; set (thc := cl_cells ths th); set (the := ths + clen thc).
  all: rewrite <- app_assoc; cbn [app].
  all: rewrite put_if2 by clia; cbn [mbind result_bind].
  { destruct el as [|c el]; [done|]. apply (refuses_then _ _ _ _ _ _ Hel). unfold the; clia. }
  destruct el as [|c el].
  - rewrite put_if3 by clia. cbn [mbind result_bind].
    rewrite get_if2 by clia. cbn [mbind result_bind].
    exists k2, se2. do 2 f_equal. unfold the, ths in *. clia.
  - g_se Hel k3 se3.
    match goal with |- context [cl_cells (clen ?p) (CLcons c el)] =>
      assert (clen p = the) as Hthe by (unfold the; clia); rewrite Hthe end.
    set (elc := cl_cells the (CLcons c el)).
    rewrite <- app_assoc. cbn [app].
    rewrite put_if3 by clia. cbn [mbind result_bind].
    rewrite get_if3 by clia. cbn [mbind result_bind].
    exists k3, se3. rewrite <- app_assoc. do 2 f_equal. unfold the, ths in *. clia.
Qed.

(** What the generator does with a command, and with a list of them. *)
Definition laid_command (c : command) : Prop :=
  lays_unless (refused_command c) (bc_command_generate c) (λ base, cmd_cells base c).
Definition laid_commandlist (cl : commandlist) : Prop :=
  if refused_commandlist cl then refuses (bc_action_generate cl) else lays_end (bc_action_generate cl) (λ base, cl_cells base cl).

Lemma laid_list_unless cl :
  laid_commandlist cl → lays_unless (refused_commandlist cl) (bc_action_generate cl) (λ base, cl_cells base cl).
Proof. unfold laid_commandlist, lays_unless. destruct (refused_commandlist cl); [done|apply lays_end_se]. Qed.

Lemma laid_cons c next : laid_command c → laid_commandlist next → laid_commandlist (CLcons c next).
Proof.
  intros Hc Hn. unfold laid_command, laid_commandlist, lays_unless in *. cbn [refused_commandlist].
  destruct (refused_command c); cbn [orb].
  { intros pre k se. cbn [bc_action_generate]. by apply refuses_then. }
  destruct (refused_commandlist next) eqn:En; intros pre k se; cbn [bc_action_generate cl_cells]; g_se Hc k1 se1.
  - destruct next as [|c' next]; [done|]. set (cc := cmd_cells (clen pre) c).
    assert (clen pre + clen cc = clen (pre ++ cc)) as -> by clia. apply Hn.
  - destruct next as [|c' next].
    + unfold set_scriptend, st. cbn [data]. eauto.
    + set (cc := cmd_cells (clen pre) c).
      assert (clen pre + clen cc = clen (pre ++ cc)) as E by clia. rewrite E.
      destruct (Hn (pre ++ cc) k1 se1) as [k2 ->]. exists k2.
      rewrite <- app_assoc. rewrite !clen_app, !Z.add_assoc. done.
Qed.

Lemma lays_command_list :
  (∀ c, parsed_command c → laid_command c) ∧ (∀ cl, parsed_commandlist cl → laid_commandlist cl).
Proof.
  apply command_commandlist_ind; cbn [built_command built_commandlist]; intros;
    repeat match goal with H : _ ∧ _ |- _ => destruct H end.
  1-6: apply lays_lays_se, lays_op.
  - apply lays_lays_se. by apply lays_reject.
  - by apply lays_lays_se, lays_copy_string.
  - by apply lays_lays_se, lays_copy_string.
  - by apply lays_lays_se, lays_flags.
  - by apply lays_lays_se, lays_flags.
  - by apply lays_lays_se, lays_flags.
  - by apply lays_lays_se, lays_notify.
  - unfold laid_command, lays_unless. cbn [refused_command]. case_bool_decide; cbn [negb].
    + by apply lays_lays_se, lays_denotify.
    + by apply refuses_denotify.
  - by apply lays_lays_se, lays_vacation.
  - by apply lays_lays_se, lays_include.
  - apply lays_if; auto using laid_list_unless. by apply lays_test_testlist.
  - done.
  - intros pre k se. cbn [bc_action_generate cl_cells]. g_op. cbn. unfold set_scriptend, st.
    cbn [data]. eexists. rewrite clen_app. done.
  - auto using laid_cons.
Qed.

Lemma generate_script cmds :
  parsed_commandlist cmds →
  if refused_commandlist cmds then ∃ b, sieve_generate_bytecode cmds = Ok (-1, b)
  else ∃ k, sieve_generate_bytecode cmds =
    Ok (clen (cl_cells 0 cmds),
        BInfo (cl_cells 0 cmds ++ replicate k Buninit) (clen (cl_cells 0 cmds))).
Proof.
  intros Hp. pose proof (proj2 lays_command_list cmds Hp) as H. unfold laid_commandlist in H.
  destruct (refused_commandlist cmds).
  - destruct (H [] 0%nat 0) as [b E]. by exists b.
  - destruct (H [] 0%nat 0) as [k E]. by exists k.
Qed.

(** C13: what [sieve_generate_bytecode] does with every script the parser can build.
    It never faults: in particular it never writes outside the cells [atleast] made room
    for.  It returns -1 exactly when somewhere in the script there is a [denotify] with
    ":count" or ":value", which the parser accepts and the bytecode has no word
    for.  Otherwise the array then holds the reference cells of
    the script, back-patched jumps included, and [scriptend] is their number.  (A
    comparator that is not one of the three it knows gets no cell, and nothing is
    said.) *)
Theorem sieve_generate_bytecode_cells (cmds : commandlist) (Hparsed : parsed_commandlist cmds) :
  if refused_commandlist cmds then ∃ b, sieve_generate_bytecode cmds = Ok (-1, b)
  else ∃ k, sieve_generate_bytecode cmds =
    Ok (clen (cl_cells 0 cmds),
        BInfo (cl_cells 0 cmds ++ replicate k Buninit) (clen (cl_cells 0 cmds))).
Proof. exact (generate_script cmds Hparsed). Qed.

Definition demo_script : commandlist :=
  CLcons (IF (ANYOF (TLcons (HEADER CONTAINS (TOK_OTHER 0) (str "i;ascii-casemap")
                               [str "subject"] [str "spam"; str "viagra"])
                    (TLcons (NOT (EXISTS [str "to"])) TLnil)))
             (CLcons (FILEINTO 0 (str "INBOX.spam")) (CLcons STOP CLnil))
             (CLcons (ADDFLAG [str "\Flagged"]) CLnil))
  (CLcons KEEP CLnil).

Lemma demo_script_wf : wf_commandlist demo_script.
Proof. repeat split; try (repeat constructor; done); by eexists. Qed.

(** Another one: the comparator has no word, and the second is refused. *)
Definition odd_script (ct : token) : commandlist :=
  CLcons (IF (HEADER IS (TOK_OTHER 0) (str "i;unicode-casemap") [str "subject"] [str "spam"])
             (CLcons (DENOTIFY ct (if decide (ct = COUNT) then GE else TOK_OTHER 0) None ANY) CLnil) CLnil)
  (CLcons KEEP CLnil).

Lemma odd_script_parsed ct : parsed_denotify ct → parsed_commandlist (odd_script ct).
Proof. repeat split; try (repeat constructor; done); try by eexists. done. Qed.

Lemma sieve_generate_bytecode_cells_witness :
  (∃ k, sieve_generate_bytecode demo_script =
    Ok (clen (cl_cells 0 demo_script),
        BInfo (cl_cells 0 demo_script ++ replicate k Buninit) (clen (cl_cells 0 demo_script)))) ∧
  (∃ k, sieve_generate_bytecode (odd_script ANY) =
    Ok (clen (cl_cells 0 (odd_script ANY)),
        BInfo (cl_cells 0 (odd_script ANY) ++ replicate k Buninit) (clen (cl_cells 0 (odd_script ANY))))) ∧
  (∃ b, sieve_generate_bytecode (odd_script COUNT) = Ok (-1, b)).
Proof.
  split; [|split].
  - exact (sieve_generate_bytecode_cells demo_script (known_parsed _ (wf_known _ demo_script_wf))).
  - exact (sieve_generate_bytecode_cells (odd_script ANY) (odd_script_parsed ANY (or_intror eq_refl))).
  - exact (sieve_generate_bytecode_cells (odd_script COUNT) (odd_script_parsed COUNT (or_introl (ex_intro _ _ eq_refl)))).
Defined.
