(* ===== verification/SieveEmitProof.v ===== *)
(** * SieveEmitProof: the emitter writes the reference bytes

    Run on the cells of [SieveCode], [sieve_emit_bytecode] appends exactly the
    bytes of [SieveCode]: every list end, jump target and padding is where the
    reference puts it, although the code fills them in by seeking back. *)
From S2P Require Import Prelude CMem SieveTree CFile SieveGenerate SieveEmit SieveCode.
From S2P Require Import SieveGenerateProof.
#[local] Open Scope Z_scope.

(** [m] at position [pos] returns [a] and appends [bs]. *)
Definition emits {A} (pos : Z) (m : em A) (a : A) (bs : bytes) : Prop :=
  ∀ f v, blen v = pos → at_end f v → pos + blen bs ≤ flimit f →
  ∃ f', m f = Ok (Some a, f') ∧ at_end f' (v ++ bs) ∧ flimit f' = flimit f ∧
    (bs ≠ [] ∨ settled f v → settled f' (v ++ bs)).

Lemma emits_ret {A} pos (a : A) : emits pos (mret a) a [].
Proof.
  intros f v Hp Hf _. exists f. rewrite app_nil_r. split_and!; auto. by intros [?|?].
Qed.

Lemma emits_bind {A B} pos (m : em A) (k : A → em B) a b bs1 bs2 :
  emits pos m a bs1 → emits (pos + blen bs1) (k a) b bs2 →
  emits pos (m ≫= k) b (bs1 ++ bs2).
Proof.
  intros H1 H2 f v Hp Hf Hl. rewrite blen_app in Hl.
  destruct (H1 f v) as (f1 & E1 & Hf1 & Hl1 & Hs1); auto; [blia|].
  destruct (H2 f1 (v ++ bs1)) as (f2 & E2 & Hf2 & Hl2 & Hs2); auto; [blia|rewrite Hl1; blia|].
  exists f2. rewrite (em_bind_some _ _ _ _ _ E1), app_assoc. split_and!; auto; [congruence|].
  intros Hne. apply Hs2. destruct (decide (bs1 = [])) as [->|]; [|by right; apply Hs1; left].
  destruct Hne; [by left|]. right. by apply Hs1; right.
Qed.

(** A last emission and the return after it. *)
Lemma emits_last {A B} pos (m : em A) (k : A → em B) a b bs :
  emits pos m a bs → emits (pos + blen bs) (k a) b [] → emits pos (m ≫= k) b bs.
Proof. intros H1 H2. rewrite <- (app_nil_r bs). by eapply emits_bind. Qed.

(** Silent steps. *)
Lemma emits_lift {A B} pos (m : result A) (k : A → em B) a b bs :
  m = Ok a → emits pos (k a) b bs → emits pos (em_lift m ≫= k) b bs.
Proof. intros Hm H f v. rewrite (em_bind_lift _ _ _ _ Hm). apply H. Qed.

Lemma emits_eq {A} pos (m m' : em A) a bs :
  (∀ f, m f = m' f) → emits pos m' a bs → emits pos m a bs.
Proof. intros E H f. rewrite E. apply H. Qed.

Lemma em_bind_ext {A B} (m : em A) (k k' : A → em B) f :
  (∀ a f, k a f = k' a f) → (m ≫= k) f = (m ≫= k') f.
Proof.
  intros E. unfold mbind, em_bind. destruct (m f) as [[[a|] f']|]; cbn; auto. 
Qed.

Lemma em_bind_assoc {A B C} (m : em A) (k : A → em B) (k' : B → em C) f :
  ((m ≫= k) ≫= k') f = (m ≫= (λ a, k a ≫= k')) f.
Proof. unfold mbind, em_bind. by destruct (m f) as [[[a|] f']|]. Qed.

Lemma em_bind_ret {A B} (a : A) (k : A → em B) f : (mret a ≫= k) f = k a f.
Proof. done. Qed.

Lemma emits_eq' {A} pos (m : em A) a a' bs :
  emits pos m a' bs → a' = a → emits pos m a bs.
Proof. by intros H <-. Qed.

Lemma emits_write pos bs : emits pos (f_write bs) tt bs.
Proof.
  intros f v Hp Hf Hl. destruct (f_write_end f v bs) as (f' & E & Hs & Hl'); [done|blia|].
  exists f'. split_and!; auto. by apply settled_at_end.
Qed.

Lemma emits_write_int pos x : emits pos (write_int x) tt (be32 x).
Proof. apply emits_write. Qed.

(** A pure continuation after an emission. *)
Lemma emits_map {A B} pos (m : em A) (k : A → B) a bs :
  emits pos m a bs → emits pos (x ← m; mret (k x)) (k a) bs.
Proof.
  intros H. rewrite <- (app_nil_r bs). eapply emits_bind; [done|]. apply emits_ret.
Qed.

(** Asking for the position. *)
Lemma emits_tell {B} pos (k : Z → em B) b bs :
  emits pos (k pos) b bs → emits pos (lseek_cur 0 ≫= k) b bs.
Proof.
  intros Hk f v Hp Hf Hl.
  destruct (lseek_cur_end f v 0 Hf ltac:(lia)) as (f1 & E1 & Hf1 & Hl1).
  rewrite app_nil_r in Hf1. rewrite (em_bind_some _ _ _ _ _ E1), Z.add_0_r, Hp.
  destruct (Hk f1 v Hp Hf1) as (f2 & E2 & Hf2 & Hl2 & Hs2); [by rewrite Hl1|].
  exists f2. split_and!; auto; [congruence|]. intros [?|Hs]; apply Hs2; [by left|right].
  by eapply lseek_cur_settled.
Qed.

(** A hole of four bytes, a body, then back to fill the hole in. *)
Lemma emits_hole {A B} pos (m : em A) (k : A → em B) (x e : A → Z) a b body rest :
  0 ≤ pos →
  emits (pos + 4) m a body →
  e a = pos + 4 + blen body →
  emits (pos + 4 + blen body) (k a) b rest →
  emits pos (lseek_cur 4;; r ← m; lseek_set pos;; write_int (x r);; lseek_set (e r);; k r)
        b (be32 (x a) ++ body ++ rest).
Proof.
  intros Hp0 Hm He Hk f v Hp Hf Hl. rewrite !blen_app, blen_be32 in Hl.
  destruct (lseek_cur_end f v 4 Hf ltac:(lia)) as (f1 & E1 & Hf1 & Hl1).
  rewrite (em_bind_some _ _ _ _ _ E1).
  destruct (Hm f1 (v ++ [0;0;0;0])) as (f2 & E2 & Hf2 & Hl2 & Hs2); auto; [blia|rewrite Hl1; blia|].
  rewrite (em_bind_some _ _ _ _ _ E2).
  rewrite <- app_assoc in Hf2, Hs2.
  destruct (patch_end f2 v body (x a) Hf2) as (f4 & f5 & f6 & E4 & E5 & E6 & Hs6 & Hl6).
  { destruct (decide (body = [])); [by left|right; auto]. }
  { rewrite Hl2, Hl1. blia. }
  rewrite He, <- Hp. rewrite (em_bind_some _ _ _ _ _ E4), (em_bind_some _ _ _ _ _ E5),
    (em_bind_some _ _ _ _ _ E6).
  destruct (Hk f6 (v ++ be32 (x a) ++ body)) as (f7 & E7 & Hf7 & Hl7 & Hs7).
  { blia. } { by apply settled_at_end. } { rewrite Hl6, Hl2, Hl1. blia. }
  rewrite <- !app_assoc in Hf7, Hs7.
  exists f7. split_and!; auto; congruence.
Qed.

Lemma emits_hole_pair {A C B} pos (m : em (A * C)) (k : A → em B) (x e : A → Z) a c b body rest :
  0 ≤ pos →
  emits (pos + 4) m (a, c) body →
  e a = pos + 4 + blen body →
  emits (pos + 4 + blen body) (k a) b rest →
  emits pos (lseek_cur 4;; '(r, _) ← m; lseek_set pos;; write_int (x r);; lseek_set (e r);; k r)
        b (be32 (x a) ++ body ++ rest).
Proof.
  intros Hp0 Hm He Hk.
  eapply emits_eq; [|exact (emits_hole pos m (λ r, k r.1) (λ r, x r.1) (λ r, e r.1) (a, c) b body rest
    Hp0 Hm He Hk)].
  intros f. apply em_bind_ext; intros _ f1. by apply em_bind_ext; intros [? ?] f2.
Qed.

(** Two holes, the first filled in while the second is pending: a block, a jump
    over the next block, that block. *)
Lemma emits_two_holes {A A' B} pos (m1 : em A) (m2 : A → em A') (k : A → A' → em B)
    (j x1 e1 y : A → Z) (x2 e2 : A → A' → Z) a a' b body1 body2 rest :
  0 ≤ pos →
  emits (pos + 4) m1 a body1 →
  y a = pos + 4 + blen body1 + 4 → e1 a = pos + 4 + blen body1 + 8 →
  emits (pos + 4 + blen body1 + 8) (m2 a) a' body2 →
  e2 a a' = pos + 4 + blen body1 + 8 + blen body2 →
  emits (pos + 4 + blen body1 + 8 + blen body2) (k a a') b rest →
  emits pos (lseek_cur 4;; r ← m1; write_int (j r);; lseek_cur 4;;
             lseek_set pos;; write_int (x1 r);; lseek_set (e1 r);;
             s ← m2 r; lseek_set (y r);; write_int (x2 r s);; lseek_set (e2 r s);; k r s)
        b (be32 (x1 a) ++ body1 ++ be32 (j a) ++ be32 (x2 a a') ++ body2 ++ rest).
Proof.
  intros Hp0 Hm1 Hy He1 Hm2 He2 Hk f v Hp Hf Hl. rewrite !blen_app, !blen_be32 in Hl.
  pose proof (blen_nonneg body1). pose proof (blen_nonneg body2). pose proof (blen_nonneg rest).
  destruct (lseek_cur_end f v 4 Hf ltac:(lia)) as (f1 & E1 & Hf1 & Hl1).
  rewrite (em_bind_some _ _ _ _ _ E1).
  destruct (Hm1 f1 (v ++ [0;0;0;0])) as (f2 & E2 & Hf2 & Hl2 & _); auto; [blia|lia|].
  rewrite (em_bind_some _ _ _ _ _ E2), <- app_assoc in *.
  destruct (f_write_end f2 _ (be32 (j a)) Hf2) as (f3 & E3 & Hf3 & Hl3); [rewrite Hl2, Hl1; blia|].
  unfold write_int at 1. rewrite (em_bind_some _ _ _ _ _ E3).
  apply settled_at_end in Hf3.
  destruct (lseek_cur_end f3 _ 4 Hf3 ltac:(lia)) as (f4 & E4 & Hf4 & Hl4).
  rewrite (em_bind_some _ _ _ _ _ E4), <- !app_assoc in *.
  destruct (patch_at_end f4 v [0;0;0;0] _ (x1 a) eq_refl Hf4) as (f5 & f6 & f7 & E5 & E6 & E7 & Hf7 & Hl7 & _);
    [rewrite Hl4, Hl3, Hl2, Hl1; lia|].
  replace (blen v + 4 + _) with (e1 a) in E7 by (rewrite He1; blia).
  rewrite <- Hp, (em_bind_some _ _ _ _ _ E5). unfold write_int at 1.
  rewrite (em_bind_some _ _ _ _ _ E6), (em_bind_some _ _ _ _ _ E7).
  edestruct (Hm2 f7) as (f8 & E8 & Hf8 & Hl8 & Hs8); [|exact Hf7|lia|]; [blia|].
  rewrite (em_bind_some _ _ _ _ _ E8).
  set (pre := v ++ be32 (x1 a) ++ body1 ++ be32 (j a)) in *.
  assert (Hpre : ∀ z, (v ++ be32 (x1 a) ++ body1 ++ be32 (j a) ++ [0;0;0;0]) ++ z
                      = pre ++ [0;0;0;0] ++ z).
  { intros z. unfold pre. by rewrite <- !app_assoc. }
  change (replicate (Z.to_nat 4) 0) with [0;0;0;0] in *. rewrite Hpre in Hf8, Hs8.
  destruct (patch_end f8 pre body2 (x2 a a') Hf8) as (f9 & f10 & f11 & E9 & E10 & E11 & Hs11 & Hl11).
  { destruct (decide (body2 = [])); [by left|right; auto]. }
  { unfold pre. blia. }
  replace (blen pre) with (y a) in * by (unfold pre; blia).
  replace (y a + 4 + blen body2) with (e2 a a') in * by lia.
  rewrite (em_bind_some _ _ _ _ _ E9), (em_bind_some _ _ _ _ _ E10), (em_bind_some _ _ _ _ _ E11).
  destruct (Hk f11 (pre ++ be32 (x2 a a') ++ body2)) as (f12 & E12 & Hf12 & Hl12 & Hs12).
  { unfold pre. blia. } { by apply settled_at_end. } { lia. }
  assert ((pre ++ be32 (x2 a a') ++ body2) ++ rest = v ++ be32 (x1 a) ++ body1 ++ be32 (j a) ++
    be32 (x2 a a') ++ body2 ++ rest) as <- by (unfold pre; by rewrite <- !app_assoc).
  exists f12. split_and!; auto; congruence.
Qed.

(** ** Cells laid in the array *)

Definition cells_at (b : bytecode_info) (codep : Z) (cs : list bytecode_t) : Prop :=
  ∃ pre post, data b = pre ++ cs ++ post ∧ clen pre = codep.

Lemma cells_at_app b c x y :
  cells_at b c (x ++ y) → cells_at b c x ∧ cells_at b (c + clen x) y.
Proof.
  intros (pre & post & E & <-). split.
  - exists pre, (y ++ post). by rewrite E, <- app_assoc.
  - exists (pre ++ x), post. rewrite E, <- !app_assoc. split; [done|clia].
Qed.

Lemma cells_at_cons b c x y :
  cells_at b c (x :: y) → cells_at b c [x] ∧ cells_at b (c + 1) y.
Proof. apply (cells_at_app b c [x] y). Qed.

Lemma cells_at_int b c v : cells_at b c [Bint v] → get_int b c = Ok v.
Proof.
  intros (pre & post & E & <-). unfold get_int. destruct (Z.ltb_spec (clen pre) 0); [clia|].
  rewrite E. unfold clen. rewrite Nat2Z.id. cbn [app]. by rewrite list_lookup_middle.
Qed.

Lemma cells_at_str b c s : cells_at b c [Bstr s] → get_str b c = Ok s.
Proof.
  intros (pre & post & E & <-). unfold get_str. destruct (Z.ltb_spec (clen pre) 0); [clia|].
  rewrite E. unfold clen. rewrite Nat2Z.id. cbn [app]. by rewrite list_lookup_middle.
Qed.

(** [e_int] reads the integer cell the goal's code looks at next. *)
Lemma emits_cell {B} pos b c v rest (k : Z → em B) r bs :
  cells_at b c (Bint v :: rest) → emits pos (k v) r bs → emits pos (cell_int b c ≫= k) r bs.
Proof.
  intros [H _]%cells_at_cons Hk. apply (emits_lift _ _ _ v); [|done]. by apply cells_at_int.
Qed.

Lemma emits_cell_str {B} pos b c s rest (k : option bytes → em B) r bs :
  cells_at b c (Bstr s :: rest) → emits pos (k s) r bs → emits pos (cell_str b c ≫= k) r bs.
Proof.
  intros [H _]%cells_at_cons Hk. apply (emits_lift _ _ _ s); [|done]. by apply cells_at_str.
Qed.

(** ** Strings and string lists *)

Lemma blen_str_bytes s : blen (str_bytes s) = 8 + blen s - blen s mod 4.
Proof.
  unfold str_bytes. rewrite !blen_app, blen_be32, blen_replicate.
  pose proof (Z.mod_pos_bound (blen s) 4). lia.
Qed.

Lemma emits_align pos s n :
  n = blen s →
  emits pos (align_string n) (4 - blen s mod 4) (replicate (Z.to_nat (4 - blen s mod 4)) 0).
Proof.
  intros ->. unfold align_string. apply (emits_map _ _ (λ _, 4 - blen s mod 4) tt).
  apply emits_write.
Qed.

Lemma emits_write_str pos s : emits pos (f_write_str (Some s) (blen s)) tt s.
Proof.
  unfold f_write_str. pose proof (blen_nonneg s).
  destruct (Z.ltb_spec (blen s) 0); [lia|]. destruct (Z.ltb_spec (blen s + 1) (blen s)); [lia|].
  cbn [orb]. unfold blen. rewrite Nat2Z.id, take_app_length. apply emits_write.
Qed.

(** The body shared by [string_emit] and [opt_string_emit]. *)
Lemma emits_string_body pos b c s rest :
  cells_at b c (str_cells s ++ rest) →
  emits pos (x ← cell_str b (c + 1); f_write_str x (blen s);;
             ret ← align_string (blen s); mret (4 + blen s + ret, c + 2))
    (4 + blen s + (4 - blen s mod 4), c + 2) (s ++ replicate (Z.to_nat (4 - blen s mod 4)) 0).
Proof.
  intros [_ H]%cells_at_cons. eapply emits_cell_str; [exact H|].
  eapply emits_bind; [apply emits_write_str|].
  apply (emits_map _ _ (λ ret, (4 + blen s + ret, c + 2))). by apply emits_align.
Qed.

Lemma emits_string pos b c s rest :
  cells_at b c (str_cells s ++ rest) →
  emits pos (string_emit b c) (blen (str_bytes s), c + 2) (str_bytes s).
Proof.
  intros H. unfold string_emit. eapply emits_cell; [exact H|]. rewrite blen_str_bytes.
  unfold str_bytes. eapply emits_bind; [apply emits_write_int|].
  replace (8 + blen s - blen s mod 4) with (4 + blen s + (4 - blen s mod 4)) by lia.
  eapply emits_string_body; exact H.
Qed.

Lemma emits_opt_string pos b c s rest :
  cells_at b c (opt_cells s ++ rest) →
  emits pos (opt_string_emit b c) (blen (opt_bytes s), c + 2) (opt_bytes s).
Proof.
  intros H. unfold opt_string_emit. destruct s as [s|]; cbn [opt_cells opt_bytes] in *.
  - eapply emits_cell; [exact H|]. rewrite blen_str_bytes.
    unfold str_bytes. eapply emits_bind; [apply emits_write_int|].
    destruct (Z.eqb_spec (blen s) (-1)); [blia|].
    replace (8 + blen s - blen s mod 4) with (4 + blen s + (4 - blen s mod 4)) by lia.
    eapply emits_string_body; exact H.
  - eapply emits_cell; [exact H|]. rewrite <- (app_nil_r (be32 (-1))).
    eapply emits_bind; [apply emits_write_int|]. apply emits_ret.
Qed.

Lemma emits_words pos b c ws rest :
  cells_at b c (map Bint ws ++ rest) →
  emits pos (words_emit b (length ws) c) (4 * Z.of_nat (length ws), c + Z.of_nat (length ws))
    (words_bytes ws).
Proof.
  revert pos c. induction ws as [|w ws IH]; intros pos c H; cbn [length words_emit].
  - rewrite Z.add_0_r. apply emits_ret.
  - eapply emits_cell; [exact H|]. apply cells_at_cons in H as [_ H].
    change (words_bytes (w :: ws)) with (be32 w ++ words_bytes ws).
    eapply emits_bind; [apply emits_write_int|].
    eapply emits_last; [by apply IH|].
    cbn beta iota. replace (4 * Z.of_nat (S (length ws))) with (4 + 4 * Z.of_nat (length ws)) by lia.
    replace (c + Z.of_nat (S (length ws))) with (c + 1 + Z.of_nat (length ws)) by lia.
    apply emits_ret.
Qed.

Lemma emits_stringlist_loop pos b c sl w rest :
  cells_at b c (concat (map str_cells sl) ++ rest) →
  emits pos (stringlist_emit_loop b (length sl) c w)
    (w + blen (concat (map str_bytes sl)), c + clen (concat (map str_cells sl)))
    (concat (map str_bytes sl)).
Proof.
  revert pos c w. induction sl as [|s sl IH]; intros pos c w H; cbn [length stringlist_emit_loop map concat].
  - rewrite blen_nil, clen_nil, !Z.add_0_r. apply emits_ret.
  - cbn [map concat] in H. rewrite <- app_assoc in H.
    eapply emits_bind; [by eapply emits_string|]. cbn beta iota.
    apply cells_at_app in H as [_ H]. rewrite blen_app, clen_app, clen_str, !Z.add_assoc.
    by apply IH.
Qed.

(** The frame of [bc_stringlist_emit] and [bc_testlist_emit]: the length, the
    end to be filled in, the elements. *)
Lemma emits_framed pos b c n (loop : Z → em (Z * Z)) w c' body rest :
  0 ≤ pos → cells_at b c (Bint n :: rest) →
  emits (pos + 8) (loop n) (w, c') body →
  emits pos (len ← cell_int b c; write_int len;; begin ← lseek_cur 0; lseek_cur 4;;
             '(wrote, codep) ← loop len; end_ ← lseek_cur 0;
             lseek_set begin;; write_int end_;; lseek_set end_;; mret (wrote, codep))
    (w, c') (be32 n ++ be32 (pos + 8 + blen body) ++ body).
Proof.
  intros Hp H Hl. eapply emits_cell; [exact H|].
  eapply emits_bind; [apply emits_write_int|]. rewrite blen_be32.
  replace (pos + 8) with (pos + 4 + 4) in * by lia.
  eapply emits_tell.
  pose proof (λ Hp4, emits_hole (pos + 4) (r ← loop n; end_ ← lseek_cur 0; mret (r, end_))
    (λ '((w, c), _), mret (w, c)) (λ r, r.2) (λ r, r.2) (w, c', pos + 4 + 4 + blen body) (w, c') body []
    Hp4) as E. rewrite app_nil_r in E.
  eapply emits_eq; [|apply E; [lia| |done|apply emits_ret]].
  - intros f. apply em_bind_ext; intros _ f1. rewrite !em_bind_assoc.
    apply em_bind_ext; intros [w1 c1] f2. rewrite !em_bind_assoc. done.
  - eapply emits_last; [exact Hl|]. eapply emits_tell. apply emits_ret.
Qed.

Lemma emits_stringlist pos b c sl rest :
  0 ≤ pos → cells_at b c (sl_cells sl ++ rest) →
  emits pos (bc_stringlist_emit b c)
    (blen (sl_bytes pos sl), c + clen (sl_cells sl)) (sl_bytes pos sl).
Proof.
  intros Hp H. unfold bc_stringlist_emit, sl_bytes, sl_cells in *. cbn [app] in H.
  rewrite !blen_app, !blen_be32, clen_cons, !Z.add_assoc. cbn [Z.add Pos.add].
  eapply emits_framed with (loop := λ len, stringlist_emit_loop b (Z.to_nat len) (c + 1) 8);
    [done|exact H|].
  rewrite Nat2Z.id. eapply emits_stringlist_loop. by apply cells_at_cons in H as [_ H].
Qed.

(** ** Tests *)

Lemma blen_words_bytes ws : blen (words_bytes ws) = 4 * Z.of_nat (length ws).
Proof.
  induction ws as [|w ws IH]; [done|].
  change (words_bytes (w :: ws)) with (be32 w ++ words_bytes ws).
  rewrite blen_app, blen_be32, IH. cbn [length]. lia.
Qed.

Lemma emits_match pos b c ws sl pl rest :
  0 ≤ pos → cells_at b c (map Bint ws ++ (sl_cells sl ++ sl_cells pl) ++ rest) →
  let slb := sl_bytes (pos + 4 * Z.of_nat (length ws)) sl in
  let plb := sl_bytes (pos + 4 * Z.of_nat (length ws) + blen slb) pl in
  emits pos (match_test_emit b (length ws) c)
    (4 * Z.of_nat (length ws) + blen slb + blen plb,
     c + Z.of_nat (length ws) + clen (sl_cells sl) + clen (sl_cells pl))
    (words_bytes ws ++ slb ++ plb).
Proof.
  intros Hp H slb plb. unfold match_test_emit.
  eapply emits_bind; [by eapply emits_words|]. cbn beta iota. rewrite blen_words_bytes.
  apply cells_at_app in H as [_ H].
  replace (clen (map Bint ws)) with (Z.of_nat (length ws)) in H
    by (unfold clen; by rewrite length_map).
  rewrite <- app_assoc in H.
  eapply emits_bind; [eapply emits_stringlist; [lia|exact H]|]. cbn beta iota.
  apply cells_at_app in H as [_ H]. fold slb.
  eapply emits_last; [eapply emits_stringlist; [blia|exact H]|]. apply emits_ret.
Qed.

(** The opcode of a test and then its body. *)
Ltac e_op H :=
  cbn [test_cells match_cells app] in H;
  cbn [bc_test_emit]; eapply emits_cell; [exact H|]; apply cells_at_cons in H as [_ H];
  eapply emits_bind; [apply emits_write_int|]; cbn beta iota zeta; rewrite comp_of_num, blen_be32.

(** Rewrite the pair a goal returns into the pair [p]. *)
Ltac e_ret :=
  match goal with
  | |- emits _ (mret (?a, ?b)) (?x, ?y) _ =>
      replace x with a; [replace y with b; [apply emits_ret|]|]
  end.

Lemma emits_match_test f op pos b c ws sl pl rest :
  0 ≤ pos →
  match op with
  | BC_HEADER => length ws = 3%nat | BC_ADDRESS | BC_ENVELOPE => length ws = 4%nat
  | BC_BODY => length ws = 5%nat | _ => False
  end →
  cells_at b c (match_cells op ws sl pl ++ rest) →
  emits pos (bc_test_emit (S f) b c)
    (blen (match_bytes op pos ws sl pl), c + clen (match_cells op ws sl pl))
    (match_bytes op pos ws sl pl).
Proof.
  intros Hp Hop H. unfold match_bytes. rewrite !blen_app, blen_be32, blen_words_bytes.
  unfold match_cells. rewrite clen_cons, !clen_app.
  replace (clen (map Bint ws)) with (Z.of_nat (length ws)) by (unfold clen; by rewrite length_map).
  e_op H. rewrite <- app_assoc in H.
  pose proof (emits_match (pos + 4) b (c + 1) ws sl pl rest ltac:(lia) H) as E. cbn zeta in E.
  destruct op; try done; rewrite <- Hop;
    (eapply emits_last; [exact E|]; cbn beta iota; e_ret; lia).
Qed.

Lemma emits_plain_test f op pos b c rest :
  op = BC_TRUE ∨ op = BC_FALSE → cells_at b c (Bint (comp_num op) :: rest) →
  emits pos (bc_test_emit (S f) b c) (4, c + 1) (be32 (comp_num op)).
Proof.
  intros Hop H. cbn [bc_test_emit]. eapply emits_cell; [exact H|].
  eapply emits_last; [apply emits_write_int|]. cbn beta iota zeta. rewrite comp_of_num.
  destruct Hop as [-> | ->]; apply emits_ret.
Qed.

Lemma tl_length_nonneg tl : 0 ≤ tl_length tl.
Proof. induction tl as [|t tl IH]; cbn; lia. Qed.

(** [allof] and [anyof], given their list of tests. *)
Lemma emits_list_test f op pos b c tl rest :
  op = BC_ANYOF ∨ op = BC_ALLOF → 0 ≤ pos →
  (∀ pos, 0 ≤ pos →
     emits pos (testlist_emit_loop f b 0 (0 + tl_length tl) (c + 2) 8)
       (8 + blen (tl_bytes pos tl), c + 2 + clen (tl_cells (c + 2) tl)) (tl_bytes pos tl)) →
  cells_at b c (Bint (comp_num op) :: Bint (tl_length tl) :: tl_cells (c + 2) tl ++ rest) →
  let body := tl_bytes (pos + 12) tl in
  emits pos (bc_test_emit (S f) b c)
    (12 + blen body, c + 2 + clen (tl_cells (c + 2) tl))
    (be32 (comp_num op) ++ be32 (tl_length tl) ++ be32 (pos + 12 + blen body) ++ body).
Proof.
  intros Hop Hp Hl H body. e_op H. unfold bc_testlist_emit.
  replace (c + 1 + 1) with (c + 2) by lia.
  unfold body. clear body. replace (pos + 12) with (pos + 4 + 8) by lia.
  set (body := tl_bytes (pos + 4 + 8) tl).
  assert (emits (pos + 4 + 8) (testlist_emit_loop f b 0 (tl_length tl) (c + 2) 8)
    (8 + blen body, c + 2 + clen (tl_cells (c + 2) tl)) body) as Hb by (apply Hl; lia).
  assert (0 ≤ pos + 4) as Hp4 by lia.
  pose proof (emits_framed (pos + 4) b (c + 1) (tl_length tl)
    (λ len, testlist_emit_loop f b 0 len (c + 2) 8) _ _ _ _ Hp4 H Hb) as E.
  destruct Hop as [-> | ->]; (eapply emits_last; [exact E|]; cbn beta iota; e_ret; lia).
Qed.

(** Fuel 0 is less than the cells of a test. *)
Ltac e_fuel Hf :=
  cbn [test_cells tl_cells] in Hf; unfold match_cells in Hf; rewrite ?clen_cons in Hf;
  unfold clen in Hf; lia.

Lemma emits_test_testlist b :
  (∀ t, wf_test t → ∀ f pos c rest, 0 ≤ pos → clen (test_cells c t) ≤ Z.of_nat f →
     cells_at b c (test_cells c t ++ rest) →
     emits pos (bc_test_emit f b c)
       (blen (test_bytes pos t), c + clen (test_cells c t)) (test_bytes pos t)) ∧
  (∀ tl, wf_testlist tl → ∀ f pos c rest i w, 0 ≤ pos → clen (tl_cells c tl) < Z.of_nat f →
     cells_at b c (tl_cells c tl ++ rest) →
     emits pos (testlist_emit_loop f b i (i + tl_length tl) c w)
       (w + blen (tl_bytes pos tl), c + clen (tl_cells c tl)) (tl_bytes pos tl)).
Proof.
  apply test_testlist_ind; cbn [built_test built_testlist].
  - intros _ [|f] pos c rest Hp Hf H; [e_fuel Hf|].
    eapply emits_plain_test; [auto|exact H].
  - intros _ [|f] pos c rest Hp Hf H; [e_fuel Hf|].
    eapply emits_plain_test; [auto|exact H].
  - intros t IH Hwf [|f] pos c rest Hp Hf H; cbn [test_cells] in Hf; [clia|].
    e_op H. cbn [test_bytes test_cells]. rewrite clen_cons in *.
    eapply emits_last; [eapply IH; [done|lia| |exact H]; lia|]. cbn beta iota. e_ret; blia.
  - intros tag n _ [|f] pos c rest Hp Hf H; [e_fuel Hf|]. e_op H.
    cbn [test_bytes test_cells]. rewrite clen_cons.
    eapply emits_last; [apply (emits_words _ b (c + 1) (size_words tag n) rest H)|].
    cbn beta iota. rewrite blen_app, blen_words_bytes.
    change (clen (map Bint _)) with (Z.of_nat (length (size_words tag n))). e_ret; [lia|done].
  - intros sl Hsl [|f] pos c rest Hp Hf H; [e_fuel Hf|]. e_op H.
    cbn [test_bytes test_cells]. rewrite clen_cons.
    eapply emits_last; [eapply emits_stringlist; [lia|exact H]|]. cbn beta iota. e_ret; [lia|blia].
  - intros tl IH Hwf [|f] pos c rest Hp Hf H; cbn [test_cells] in Hf; rewrite !clen_cons in Hf; [clia|].
    cbn [test_bytes test_cells app] in *. rewrite !clen_cons, !blen_app, !blen_be32.
    pose proof (λ p Hp, IH Hwf f p (c + 2) rest 0 8 Hp ltac:(lia)) as IH'.
    eapply emits_eq'; [eapply emits_list_test; [by left|done| |exact H]|f_equal; lia].
    intros p Hp0. apply IH'; [done|]. by do 2 apply cells_at_cons in H as [_ H]; rewrite <- Z.add_assoc in H.
  - intros tl IH Hwf [|f] pos c rest Hp Hf H; cbn [test_cells] in Hf; rewrite !clen_cons in Hf; [clia|].
    cbn [test_bytes test_cells app] in *. rewrite !clen_cons, !blen_app, !blen_be32.
    pose proof (λ p Hp, IH Hwf f p (c + 2) rest 0 8 Hp ltac:(lia)) as IH'.
    eapply emits_eq'; [eapply emits_list_test; [by right|done| |exact H]|f_equal; lia].
    intros p Hp0. apply IH'; [done|]. by do 2 apply cells_at_cons in H as [_ H]; rewrite <- Z.add_assoc in H.
  - intros ct rel cm sl pl Hwf [|f] pos c rest Hp Hf H; [e_fuel Hf|]. cbn [test_cells] in *.
    rewrite (cell_words_wf (HEADER ct rel cm sl pl) Hwf) in *. by eapply (emits_match_test f BC_HEADER).
  - intros ct rel cm ap sl pl Hwf [|f] pos c rest Hp Hf H; [e_fuel Hf|]. cbn [test_cells] in *.
    rewrite (cell_words_wf (ADDRESS ct rel cm ap sl pl) Hwf) in *. by eapply (emits_match_test f BC_ADDRESS).
  - intros ct rel cm ap sl pl Hwf [|f] pos c rest Hp Hf H; [e_fuel Hf|]. cbn [test_cells] in *.
    rewrite (cell_words_wf (ENVELOPE ct rel cm ap sl pl) Hwf) in *. by eapply (emits_match_test f BC_ENVELOPE).
  - intros ct rel cm tr off types pl Hwf [|f] pos c rest Hp Hf H; [e_fuel Hf|]. cbn [test_cells] in *.
    rewrite (cell_words_wf (BODY ct rel cm tr off types pl) Hwf) in *. by eapply (emits_match_test f BC_BODY).
  - done.
  - intros _ [|f] pos c rest i w Hp Hf H; [e_fuel Hf|]. cbn [testlist_emit_loop tl_length].
    rewrite Z.add_0_r, Z.ltb_irrefl. cbn. rewrite blen_nil, clen_nil, !Z.add_0_r. apply emits_ret.
  - intros t IHt tl IHtl [Ht Htl] [|f] pos c rest i w Hp Hf H; [clia|].
    cbn [tl_cells tl_length tl_bytes testlist_emit_loop] in *.
    set (cs := test_cells (c + 1) t) in *. rewrite clen_cons, clen_app in Hf.
    pose proof (tl_length_nonneg tl). destruct (Z.ltb_spec i (i + (1 + tl_length tl))); [|lia].
    eapply emits_cell; [exact H|]. cbn [app] in H. apply cells_at_cons in H as [_ H].
    rewrite <- app_assoc in H.
    eapply emits_bind; [eapply IHt; [done|lia| |exact H]; fold cs; pose proof (clen_nonneg (tl_cells (c + 1 + clen cs) tl)); lia|].
    cbn beta iota. apply cells_at_app in H as [_ H]. fold cs in H.
    rewrite Z.add_assoc, blen_app, clen_cons, clen_app, Z.add_assoc.
    replace (c + (1 + (clen cs + clen (tl_cells (c + 1 + clen cs) tl))))
      with (c + 1 + clen cs + clen (tl_cells (c + 1 + clen cs) tl)) by lia.
    eapply IHtl; [done|blia| |exact H]. pose proof (clen_nonneg cs). lia.
Qed.

Lemma emits_test b t : wf_test t → ∀ f pos c rest, 0 ≤ pos →
  clen (test_cells c t) ≤ Z.of_nat f → cells_at b c (test_cells c t ++ rest) →
  emits pos (bc_test_emit f b c)
    (blen (test_bytes pos t), c + clen (test_cells c t)) (test_bytes pos t).
Proof. apply emits_test_testlist. Qed.

(** ** Parameters *)

Lemma emits_word pos b c w rest :
  cells_at b c (Bint w :: rest) → emits pos (words_emit b 1 c) (4, c + 1) (be32 w).
Proof. intros H. exact (emits_words pos b c [w] rest H). Qed.

Lemma emits_words3 pos b c x y z rest :
  cells_at b c (Bint x :: Bint y :: Bint z :: rest) →
  emits pos (words_emit b 3 c) (12, c + 3) (be32 x ++ be32 y ++ be32 z).
Proof. intros H. exact (emits_words pos b c [x; y; z] rest H). Qed.

Lemma emits_words2 pos b c x y rest :
  cells_at b c (Bint x :: Bint y :: rest) →
  emits pos (words_emit b 2 c) (8, c + 2) (be32 x ++ be32 y).
Proof. intros H. exact (emits_words pos b c [x; y] rest H). Qed.

(** Emit the next parameter, whose cells [H] starts with. *)
Ltac e_param H :=
  cbn [app] in H; rewrite <- ?app_assoc in H;
  lazymatch goal with
  | |- emits _ (words_emit _ 1 _ ≫= _) _ _ =>
      eapply emits_bind; [eapply emits_word; exact H|]; apply cells_at_cons in H as [_ H]
  | |- emits _ (words_emit _ 2 _ ≫= _) _ _ =>
      rewrite (app_assoc (be32 _) (be32 _)); eapply emits_bind; [eapply emits_words2; exact H|];
      do 2 (apply cells_at_cons in H as [_ H])
  | |- emits _ (words_emit _ 3 _ ≫= _) _ _ =>
      rewrite (app_assoc (be32 _) (be32 _)), (app_assoc (be32 _ ++ be32 _));
      eapply emits_bind; [rewrite <- app_assoc; eapply emits_words3; exact H|];
      do 3 (apply cells_at_cons in H as [_ H])
  | |- emits _ (string_emit _ _ ≫= _) _ _ =>
      eapply emits_bind; [eapply emits_string; exact H|]; apply cells_at_app in H as [_ H]
  | |- emits _ (opt_string_emit _ _ ≫= _) _ _ =>
      eapply emits_bind; [eapply emits_opt_string; exact H|]; apply cells_at_app in H as [_ H]
  | |- emits _ (bc_stringlist_emit _ _ ≫= _) _ _ =>
      eapply emits_bind; [eapply emits_stringlist; [clear H; blia|exact H]|]; apply cells_at_app in H as [_ H]
  end; rewrite ?clen_str, ?clen_opt, <- ?Z.add_assoc in H; cbn beta iota;
  autorewrite with blen; rewrite <- ?Z.add_assoc in *.

Definition params_cells (c : command) : list bytecode_t :=
  concat (map param_cells (command_params c)).

Lemma emits_params b cm : (∀ t th el, cm ≠ IF t th el) → wf_command cm → ∀ pos c rest,
  0 ≤ pos → cells_at b c (params_cells cm ++ rest) →
  emits pos (action_params_emit b (command_op cm) c)
    (blen (params_bytes pos (command_params cm)), c + clen (params_cells cm))
    (params_bytes pos (command_params cm)).
Proof.
  intros Hif Hwf pos c rest Hp H. unfold params_cells in *.
  destruct cm; cbn [built_command command_op command_params action_params_emit map concat param_cells
    params_bytes param_bytes app] in *; try done;
    autorewrite with clen blen; rewrite <- ?Z.add_assoc.
  1-6: rewrite Z.add_0_r; apply emits_ret.
  1: rewrite app_nil_r in *; rewrite !Z.add_0_r; eapply emits_string; exact H.
  3-5: rewrite app_nil_r in *; rewrite !Z.add_0_r; eapply emits_stringlist; [done|exact H].
  1-2: e_param H; e_param H; e_ret; lia.
  1: do 5 e_param H; e_ret; lia.
  1: do 2 e_param H; e_ret; lia.
  1: do 6 e_param H; e_ret; lia.
  1: do 2 e_param H; e_ret; lia.
  by edestruct Hif.
Qed.

(** ** Commands *)

Lemma emits_catch {A} pos (m : em A) a bs : emits pos m a bs → emits pos (em_catch m) (Some a) bs.
Proof.
  intros H f v Hp Hf Hl. destruct (H f v Hp Hf Hl) as (f' & E & ?). exists f'.
  unfold em_catch. by rewrite E.
Qed.

(** A nested block: [bc_action_emit], which its caller catches. *)
Lemma emits_block pos (m : em Z) bs :
  emits pos m (pos + blen bs) bs →
  emits pos (em_catch (final ← m; mret (final - pos))) (Some (blen bs)) bs.
Proof.
  intros H. apply emits_catch. eapply emits_last; [exact H|]. cbn beta.
  replace (pos + blen bs - pos) with (blen bs) by lia. apply emits_ret.
Qed.

Lemma cells_at_nonneg b c cs : cells_at b c cs → 0 ≤ c.
Proof. intros (pre & post & _ & <-). apply clen_nonneg. Qed.

(** Emitting the command [cm] and then whatever follows it. *)
Definition emits_cmd (b : bytecode_info) (cm : command) : Prop :=
  ∀ f pos c stop rest r bs,
    0 ≤ pos → c < stop → clen (cmd_cells c cm) ≤ Z.of_nat f →
    cells_at b c (cmd_cells c cm ++ rest) →
    emits (pos + blen (cmd_bytes pos cm))
      (action_emit_loop f b (c + clen (cmd_cells c cm)) stop (pos + blen (cmd_bytes pos cm))) r bs →
    emits pos (action_emit_loop (S f) b c stop pos) r (cmd_bytes pos cm ++ bs).

Definition emits_cl (b : bytecode_info) (cl : commandlist) : Prop :=
  ∀ f pos c rest,
    0 ≤ pos → clen (cl_cells c cl) < Z.of_nat f → cells_at b c (cl_cells c cl ++ rest) →
    emits pos (action_emit_loop f b c (c + clen (cl_cells c cl)) pos)
      (pos + blen (cl_bytes pos cl)) (cl_bytes pos cl).

Lemma emits_simple b cm :
  (∀ t th el, cm ≠ IF t th el) → wf_command cm → emits_cmd b cm.
Proof.
  intros Hif Hwf f pos c stop rest r bs Hp Hc Hf H Hk.
  assert (cmd_cells c cm = Bint (op_num (command_op cm)) :: params_cells cm) as Ec
    by (destruct cm; try done; by edestruct Hif).
  assert (cmd_bytes pos cm = simple_bytes pos cm) as Eb
    by (destruct cm; try done; by edestruct Hif).
  rewrite Ec, Eb in *. unfold simple_bytes in *. cbn [app action_emit_loop] in *.
  destruct (Z.ltb_spec c stop); [|lia].
  eapply emits_cell; [exact H|]. apply cells_at_cons in H as [_ H]. rewrite <- app_assoc.
  eapply emits_bind; [apply emits_write_int|]. rewrite blen_be32, op_of_num.
  pose proof (emits_params b cm Hif Hwf (pos + 4) (c + 1) rest ltac:(lia) H) as E.
  rewrite blen_app, blen_be32, clen_cons, !Z.add_assoc in Hk.
  destruct cm; try done; (eapply emits_bind; [exact E|exact Hk]) || by edestruct Hif.
Qed.

Lemma emits_bytes {A} pos (m : em A) a bs bs' : emits pos m a bs' → bs' = bs → emits pos m a bs.
Proof. by intros H <-. Qed.

(** The test of an [IF] and the word that skips it; [K] is the rest of the loop,
    which starts where the test ends. *)
Lemma emits_if_test {B} b t f pos c rest (K : Z → em B) r bs :
  wf_test t → 0 ≤ pos → clen (test_cells c t) ≤ Z.of_nat f →
  cells_at b c (test_cells c t ++ rest) →
  let tb := test_bytes (pos + 4) t in
  emits (pos + 4 + blen tb) (K (blen tb)) r bs →
  emits pos (lseek_cur 4;; '(d, _) ← bc_test_emit f b c;
             lseek_set pos;; write_int (Z.quot (pos + 4 + d) 4);; lseek_set (pos + 4 + d);; K d) r (be32 ((pos + 4 + blen tb) / 4) ++ tb ++ bs).
Proof.
  intros Ht Hp Hf H tb HK. rewrite <- Z.quot_div_nonneg by blia.
  eapply (emits_hole_pair _ _ K (λ d, Z.quot (pos + 4 + d) 4)
    (λ d, pos + 4 + d)); [done| |done|exact HK].
  eapply emits_test; [done|lia|done|exact H].
Qed.

(** The then-block of an [IF] without else, and the jump over it. *)
Lemma emits_if_then {B} pos j (m : em Z) (K : Z → em B) r thb bs :
  0 ≤ pos →
  emits (pos + 8) m (pos + 8 + blen thb) thb →
  emits (pos + 8 + blen thb) (K (pos + 8 + blen thb)) r bs →
  emits pos
    (write_int j;; lseek_cur 4;;
     d ← em_catch (final ← m; mret (final - (pos + 8)));
     '(_, filelen) ← mret (-1, pos + 8 + emit_value d);
     lseek_set (pos + 4);; write_int (Z.quot filelen 4);; lseek_set filelen;; K filelen)
    r (be32 j ++ be32 ((pos + 8 + blen thb) / 4) ++ thb ++ bs).
Proof.
  intros Hp Hm HK. rewrite <- Z.quot_div_nonneg by blia.
  eapply emits_bind; [apply emits_write_int|]. rewrite blen_be32.
  eapply (emits_hole _ _ (λ d, K (pos + 8 + emit_value d))
    (λ d, Z.quot (pos + 8 + emit_value d) 4) (λ d, pos + 8 + emit_value d) (Some (blen thb)));
    cbn [emit_value]; [lia| |lia|].
  - replace (pos + 4 + 4) with (pos + 8) by lia. by apply emits_block.
  - by replace (pos + 4 + 4) with (pos + 8) by lia.
Qed.

(** Both blocks and both jumps. *)
Lemma emits_if_else {B} pos j (m1 : em Z) (m2 : Z → em Z) (K : Z → em B) r thb elb bs :
  0 ≤ pos →
  emits (pos + 8) m1 (pos + 8 + blen thb) thb →
  let p2 := pos + 8 + blen thb + 8 in
  emits p2 (m2 p2) (p2 + blen elb) elb →
  emits (p2 + blen elb) (K (p2 + blen elb)) r bs →
  emits pos
    (write_int j;; lseek_cur 4;;
     d ← em_catch (final ← m1; mret (final - (pos + 8)));
     '(jumpEndLoc, filelen) ←
       (write_int j;; lseek_cur 4;;
        mret (pos + 8 + emit_value d + 4, pos + 8 + emit_value d + 8));
     lseek_set (pos + 4);; write_int (Z.quot filelen 4);; lseek_set filelen;;
     e ← em_catch (final ← m2 filelen; mret (final - filelen));
     lseek_set jumpEndLoc;; write_int (Z.quot (filelen + emit_value e) 4);;
     lseek_set (filelen + emit_value e);; K (filelen + emit_value e))
    r (be32 j ++ be32 (p2 / 4) ++ thb ++ be32 j ++ be32 ((p2 + blen elb) / 4) ++ elb ++ bs).
Proof.
  intros Hp Hm1 p2 Hm2 HK. rewrite <- !Z.quot_div_nonneg by (unfold p2; blia).
  eapply emits_bind; [apply emits_write_int|]. rewrite blen_be32.
  set (fl := λ d, pos + 8 + emit_value d + 8).
  assert (pos + 4 + 4 + blen thb + 8 = p2) as Ep by (unfold p2; lia).
  eapply emits_eq;
    [|eapply (emits_two_holes _ _ (λ d, em_catch (final ← m2 (fl d); mret (final - fl d)))
        (λ d e, K (fl d + emit_value e)) (λ _, j) (λ d, Z.quot (fl d) 4) fl
        (λ d, pos + 8 + emit_value d + 4) (λ d e, Z.quot (fl d + emit_value e) 4)
        (λ d e, fl d + emit_value e) (Some (blen thb)) (Some (blen elb)))];
    unfold fl; cbn [emit_value]; rewrite ?Ep; try (unfold p2; lia).
  - intros f. apply em_bind_ext; intros _ f1. apply em_bind_ext; intros d f2.
    rewrite !em_bind_assoc. apply em_bind_ext; intros _ f3. by rewrite !em_bind_assoc.
  - replace (pos + 4 + 4) with (pos + 8) by lia. by apply emits_block.
  - by apply emits_block.
  - exact HK.
Qed.

(** The three cells of the jump table and the test after them. *)
Lemma cells_at_if b c o x y z cs :
  cells_at b c (o :: Bint x :: Bint y :: Bint z :: cs) →
  (∀ B (k : Z → em B) f, (cell_int b (c + 1) ≫= k) f = k x f) ∧
  (∀ B (k : Z → em B) f, (cell_int b (c + 1 + 1) ≫= k) f = k y f) ∧
  (∀ B (k : Z → em B) f, (cell_int b (c + 1 + 2) ≫= k) f = k z f) ∧
  cells_at b (c + 1 + 3) cs.
Proof.
  intros [_ H]%cells_at_cons.
  apply cells_at_cons in H as [Hx H]. apply cells_at_cons in H as [Hy H].
  apply cells_at_cons in H as [Hz H]. rewrite <- !Z.add_assoc in *. cbn [Z.add Pos.add] in *.
  split_and!; [| | |done]; intros; by apply em_bind_lift, cells_at_int.
Qed.

(** [H] up to the locations the loop is at. *)
Ltac exact_loop H tc tb :=
  cbn beta;
  match type of H with
  | emits ?p (action_emit_loop ?f ?b ?c ?stop ?q) ?r ?bs =>
      match goal with
      | |- emits ?p' (action_emit_loop f b ?c' stop ?q') r bs =>
          replace p' with p; [replace c' with c; [replace q' with q; [exact H|]|]|]
      end
  end; [clear H; tb|clear H; tc|clear H; tb].

Lemma emits_if b t th el :
  wf_test t → emits_cl b th → emits_cl b el → emits_cmd b (IF t th el).
Proof.
  intros Ht Hth Hel f pos c stop rest r bs Hp Hc Hf H Hk.
  cbn [cmd_cells cmd_bytes] in *.
  set (tc := test_cells (c + 4) t) in *. set (ths := c + 4 + clen tc) in *.
  set (thc := cl_cells ths th) in *.
  replace (pos + 8) with (pos + 4 + 4) in * by lia.
  set (tb := test_bytes (pos + 4 + 4) t) in *. set (thp := pos + 4 + 4 + blen tb + 8) in *.
  set (thb := cl_bytes thp th) in *.
  cbn [action_emit_loop]. destruct (Z.ltb_spec c stop); [|lia].
  pose proof (cells_at_nonneg _ _ _ H) as Hc0.
  destruct el as [|c1 el]; cbn [app] in H; rewrite <- ?app_assoc in H.
  - eapply emits_cell; [exact H|]. apply cells_at_if in H as (R1 & R2 & R3 & H).
    replace (c + 1 + 3) with (c + 4) in * by lia.
    pose proof (cells_at_app _ _ _ _ H) as [_ H']. fold tc ths in H'.
    rewrite !clen_cons, clen_app in Hf. pose proof (clen_nonneg tc). pose proof (clen_nonneg thc).
    rewrite <- !app_assoc. eapply emits_bind; [apply emits_write_int|].
    rewrite blen_be32, op_of_num. cbn iota zeta.
    eapply emits_if_test; [done|lia|fold tc; lia|exact H|]. fold tb.
    set (p := pos + 4 + 4 + blen tb) in *.
    eapply emits_eq; [|apply (emits_if_then p (op_num B_JUMP)
      (action_emit_loop f b ths (ths + clen thc) (p + 8))
      (λ fl, action_emit_loop f b (ths + clen thc) stop fl))].
    + intros g. apply em_bind_ext; intros _ g1. apply em_bind_ext; intros _ g2.
      rewrite R1, R2, R3. done.
    + unfold p. blia.
    + fold thp. apply (Hth _ _ _ rest); [unfold thp, p; blia|fold thc; lia|done].
    + exact_loop Hk ltac:(unfold ths; rewrite !clen_cons, !clen_app; lia)
        ltac:(unfold p, thp; blia).
  - set (elc := cl_cells (ths + clen thc) (CLcons c1 el)) in *.
    set (elp := thp + blen thb + 8) in *. set (elb := cl_bytes elp (CLcons c1 el)) in *.
    eapply emits_cell; [exact H|]. apply cells_at_if in H as (R1 & R2 & R3 & H).
    replace (c + 1 + 3) with (c + 4) in * by lia.
    pose proof (cells_at_app _ _ _ _ H) as [_ H']. fold tc ths in H'.
    pose proof (cells_at_app _ _ _ _ H') as [_ H2].
    rewrite !clen_cons, !clen_app in Hf. pose proof (clen_nonneg tc). pose proof (clen_nonneg thc).
    pose proof (clen_nonneg elc).
    rewrite <- !app_assoc. eapply emits_bind; [apply emits_write_int|].
    rewrite blen_be32, op_of_num. cbn iota zeta.
    eapply emits_if_test; [done|lia|fold tc; lia|exact H|]. fold tb.
    set (p := pos + 4 + 4 + blen tb) in *.
    eapply emits_eq; [|apply (emits_if_else p (op_num B_JUMP)
      (action_emit_loop f b ths (ths + clen thc) (p + 8))
      (λ fl, action_emit_loop f b (ths + clen thc) (ths + clen thc + clen elc) fl)
      (λ fl, action_emit_loop f b (ths + clen thc + clen elc) stop fl))].
    + intros g. apply em_bind_ext; intros _ g1. apply em_bind_ext; intros _ g2.
      rewrite R1, R2, R3. apply em_bind_ext; intros d g3.
      destruct (Z.eqb_spec (ths + clen thc + clen elc) (-1)); [unfold ths in *; lia|].
      apply em_bind_ext; intros [? ?] g4. done.
    + unfold p. blia.
    + fold thp. apply (Hth _ _ _ (elc ++ rest)); [unfold thp, p; blia|fold thc; lia|done].
    + apply (Hel _ _ _ rest); [unfold p; clear H; blia|fold elc; lia|done].
    + exact_loop Hk ltac:(unfold ths; rewrite !clen_cons, !clen_app; lia)
        ltac:(unfold elp, thp, p; blia).
Qed.

Lemma clen_cmd_pos c cm : wf_command cm → 0 < clen (cmd_cells c cm).
Proof.
  intros H. destruct (cmd_cells c cm) as [|x cs] eqn:E; [|rewrite clen_cons; pose proof (clen_nonneg cs); lia].
  by destruct cm as [| | | | | | | | | | | | | | | | t th [|? ?]|].
Qed.

(** The end of the list: the loop stops. *)
Lemma emits_loop_end f b c pos : (0 < f)%nat → emits pos (action_emit_loop f b c c pos) pos [].
Proof. intros. destruct f; [lia|]. cbn. rewrite Z.ltb_irrefl. apply emits_ret. Qed.

Lemma emits_command_list b :
  (∀ cm, wf_command cm → emits_cmd b cm) ∧ (∀ cl, wf_commandlist cl → emits_cl b cl).
Proof.
  apply command_commandlist_ind; cbn [built_command built_commandlist]; intros;
    try (apply emits_simple; [congruence|done]).
  - apply emits_if; tauto.
  - intros f pos c rest Hp Hf Hc. cbn [cl_cells cl_bytes] in *. destruct f as [|f]; [clia|].
    cbn [action_emit_loop app] in *. change (clen [_]) with 1.
    destruct (Z.ltb_spec c (c + 1)); [|lia]. eapply emits_cell; [exact Hc|].
    eapply emits_last; [apply emits_write_int|]. rewrite op_of_num. cbn [action_params_emit].
    eapply emits_eq; [intros g; apply em_bind_ret|]. cbn beta iota zeta.
    rewrite Z.add_0_r, blen_be32. apply emits_loop_end. unfold clen in Hf. cbn [length] in Hf. lia.
  - intros f pos cc rest Hp Hf Hcc. destruct H1 as [Hwc Hwn]. cbn [cl_cells cl_bytes] in *.
    pose proof (clen_cmd_pos cc c Hwc). destruct next as [|c' next].
    + destruct f as [|f]; [lia|]. rewrite <- (app_nil_r (cmd_bytes pos c)) at 2.
      eapply (H Hwc); [done|lia|lia|exact Hcc|]. apply emits_loop_end. lia.
    + rewrite clen_app in *. set (n := cl_cells (cc + clen (cmd_cells cc c)) (CLcons c' next)) in *.
      pose proof (clen_nonneg n). destruct f as [|f]; [lia|]. rewrite <- app_assoc in Hcc.
      eapply (H Hwc); [done|lia|lia|exact Hcc|].
      apply cells_at_app in Hcc as [_ Hcc].
      rewrite blen_app, !Z.add_assoc. eapply (H0 Hwn); [blia|fold n; lia|exact Hcc].
Qed.

Lemma emit_script cmds limit k :
  wf_commandlist cmds → blen (script_bytes cmds) ≤ limit →
  sieve_emit_bytecode
      (BInfo (cl_cells 0 cmds ++ replicate k Buninit) (clen (cl_cells 0 cmds)))
      (File [] 0 limit) =
    Ok (Some (blen (cl_bytes 16 cmds)),
        File (script_bytes cmds) (blen (script_bytes cmds)) limit).
Proof.
  intros Hwf Hroom.
  set (b := BInfo _ _).
  assert (emits 0 (sieve_emit_bytecode b) (blen (cl_bytes 16 cmds)) (script_bytes cmds)) as He.
  { unfold sieve_emit_bytecode, script_bytes.
    eapply emits_bind; [apply emits_write|]. eapply emits_bind; [apply emits_write_int|].
    change (0 + blen BYTECODE_MAGIC + blen (be32 BYTECODE_VERSION)) with 16.
    change (4 + BYTECODE_MAGIC_LEN) with 16. unfold bc_action_emit.
    eapply emits_last.
    - change (scriptend b) with (0 + clen (cl_cells 0 cmds)).
      eapply (proj2 (emits_command_list b) cmds Hwf _ _ _ (replicate k Buninit)); [lia| |].
      + unfold b; cbn [data]. rewrite length_app. clia.
      + exists [], []. by rewrite app_nil_r.
    - eapply emits_eq'; [apply emits_ret|]. lia. }
  destruct (He (File [] 0 limit) [] eq_refl (at_end_init _)) as (f' & E & _ & Hl & Hs); [done|].
  rewrite E. destruct Hs as [Hp Hc]; [by left|]. destruct f' as [c p l]. cbn in *. congruence.
Qed.

(** C14: [sieve_emit_bytecode], on the cells the generator leaves for a script the bytecode
    has words for, returns the size of the code and leaves in the file exactly the
    reference bytes: each list end, jump target and padding it fills in by
    seeking back is in place, and no hole is left.  The disk has room for the
    script. *)
Theorem sieve_emit_bytecode_bytes (cmds : commandlist) (limit : Z) (k : nat)
    (Hwf : wf_commandlist cmds) (Hroom : blen (script_bytes cmds) ≤ limit) :
  sieve_emit_bytecode
      (BInfo (cl_cells 0 cmds ++ replicate k Buninit) (clen (cl_cells 0 cmds)))
      (File [] 0 limit) =
    Ok (Some (blen (cl_bytes 16 cmds)),
        File (script_bytes cmds) (blen (script_bytes cmds)) limit).
Proof. exact (emit_script cmds limit k Hwf Hroom). Qed.

Lemma sieve_emit_bytecode_bytes_witness :
  sieve_emit_bytecode
      (BInfo (cl_cells 0 demo_script ++ replicate 3 Buninit) (clen (cl_cells 0 demo_script)))
      (File [] 0 1000) =
    Ok (Some (blen (cl_bytes 16 demo_script)),
        File (script_bytes demo_script) (blen (script_bytes demo_script)) 1000).
Proof. apply (sieve_emit_bytecode_bytes demo_script 1000 3 demo_script_wf). vm_compute. discriminate. Defined.

(** The compiler: it refuses what the generator refuses, and writes no byte then. *)
Lemma compile_script_bytes cmds limit :
  known_commandlist cmds → blen (script_bytes cmds) ≤ limit →
  compile_script cmds limit =
    if refused_commandlist cmds then Ok (None, []) else Ok (Some (blen (cl_bytes 16 cmds)), script_bytes cmds).
Proof.
  intros Hk Hl. unfold compile_script. pose proof (generate_script cmds (known_parsed _ Hk)) as H.
  destruct (refused_commandlist cmds) eqn:Hr; [by destruct H as [b ->]|]. destruct H as [k ->].
  cbn [mbind result_bind]. destruct (Z.eqb_spec (clen (cl_cells 0 cmds)) (-1)); [clia|].
  by rewrite (emit_script _ _ _ (proj2 (not_refused _ _) _ Hr Hk) Hl).
Qed.

(** A comparator without a word: the emitter takes the length of the list of headers for it, and
    then the name of a header for the length of a list. *)
Example unknown_comparator_faults : compile_script (odd_script ANY) 1000 = Fault OutOfBounds.
Proof. vm_compute. reflexivity. Qed.
