(* ===== verification/SieveMessage.v ===== *)
(** * SieveMessage: the action and notification lists, and addresses

    [sieve/message.c].  A list is the [next] chain from the pointer the
    functions are given, the dummy head included: appending to an empty chain
    is the C code's write through a NULL [b]. *)
From stdpp Require Import gmap.
From S2P Require Import Prelude CMem SieveTree SieveComparator.
#[local] Open Scope Z_scope.

(** [sieve_err.h] *)
Definition SIEVE_OK : Z := 0.
Definition SIEVE_FAIL : Z := -1237848064.
Definition SIEVE_NOT_FINALIZED : Z := -1237848063.
Definition SIEVE_PARSE_ERROR : Z := -1237848062.
Definition SIEVE_RUN_ERROR : Z := -1237848061.
Definition SIEVE_INTERNAL_ERROR : Z := -1237848060.
Definition SIEVE_NOMEM : Z := -1237848059.
Definition SIEVE_DONE : Z := -1237848058.

(** ** [action_list_t]

    [action_t] and the union [u] in one type; strings are [const char *], NULL
    included.  All [imapflags] members point to the one [sieve_imapflags_t] of
    the execution. *)
Inductive action_u :=
  | ACTION_NONE
  | ACTION_REJECT (msg : option bytes)
  | ACTION_FILEINTO (mailbox : option bytes)
  | ACTION_KEEP
  | ACTION_REDIRECT (addr : option bytes)
  | ACTION_DISCARD
  | ACTION_VACATION (addr fromaddr subj msg : option bytes) (mime : Z) (hash : bytes) (days : Z)
  | ACTION_SETFLAG (flag : option bytes)
  | ACTION_ADDFLAG (flag : option bytes)
  | ACTION_REMOVEFLAG (flag : option bytes)
  | ACTION_MARK
  | ACTION_UNMARK.

Record action := Action { a_u : action_u; cancel_keep : bool }.
Abbreviation action_list := (list action).

#[global] Instance action_u_eq_dec : EqDecision action_u.
Proof. solve_decision. Defined.
#[global] Instance action_eq_dec : EqDecision action.
Proof. solve_decision. Defined.

Definition new_action_list : action_list := [Action ACTION_NONE false].

(** The traversal every function starts with: the value an earlier action makes
    it return, if one does. *)
Fixpoint scan_actions (stop : action_u → option Z) (a : action_list) : option Z :=
  match a with
  | [] => None
  | x :: next => match stop (a_u x) with Some r => Some r | None => scan_actions stop next end
  end.

(** [b->next = a; a->next = NULL;] with [b] the last node of the traversal. *)
Definition append_action (a : action_list) (x : action) : result action_list :=
  match a with [] => Fault OutOfBounds | _ => Ok (a ++ [x]) end.

Definition do_action (stop : action_u → option Z) (a : action_list) (x : action)
    : result (Z * action_list) :=
  match scan_actions stop a with
  | Some r => Ok (r, a)
  | None => a' ← append_action a x; Ok (0, a')
  end.

(** Incompatible with: reject. *)
Definition not_with_reject (x : action_u) : option Z :=
  match x with ACTION_REJECT _ => Some SIEVE_RUN_ERROR | _ => None end.

Definition do_reject (a : action_list) (msg : option bytes) : result (Z * action_list) :=
  do_action (λ x, match x with
      | ACTION_FILEINTO _ | ACTION_KEEP | ACTION_REDIRECT _ | ACTION_REJECT _
      | ACTION_VACATION _ _ _ _ _ _ _ | ACTION_SETFLAG _ | ACTION_ADDFLAG _
      | ACTION_REMOVEFLAG _ | ACTION_MARK | ACTION_UNMARK => Some SIEVE_RUN_ERROR
      | ACTION_NONE | ACTION_DISCARD => None
      end) a (Action (ACTION_REJECT msg) true).

Definition do_fileinto (a : action_list) (mbox : option bytes) (cancel_keep : bool) :=
  do_action not_with_reject a (Action (ACTION_FILEINTO mbox) cancel_keep).

Definition do_redirect (a : action_list) (addr : option bytes) (cancel_keep : bool) :=
  do_action not_with_reject a (Action (ACTION_REDIRECT addr) cancel_keep).

Definition do_keep (a : action_list) :=
  do_action (λ x, match x with
      | ACTION_REJECT _ => Some SIEVE_RUN_ERROR
      | ACTION_KEEP => Some 0
      | _ => None
      end) a (Action ACTION_KEEP true).

Definition do_discard (a : action_list) :=
  do_action (λ x, match x with ACTION_DISCARD => Some 0 | _ => None end)
    a (Action ACTION_DISCARD true).

Definition do_setflag (a : action_list) (flag : option bytes) :=
  do_action not_with_reject a (Action (ACTION_SETFLAG flag) false).
Definition do_addflag (a : action_list) (flag : option bytes) :=
  do_action not_with_reject a (Action (ACTION_ADDFLAG flag) false).
Definition do_removeflag (a : action_list) (flag : option bytes) :=
  do_action not_with_reject a (Action (ACTION_REMOVEFLAG flag) false).
Definition do_mark (a : action_list) :=
  do_action not_with_reject a (Action ACTION_MARK false).
Definition do_unmark (a : action_list) :=
  do_action not_with_reject a (Action ACTION_UNMARK false).

(** A C string passed where NULL is not allowed. *)
Definition nonnull {A} (p : option A) : result A :=
  match p with Some a => Ok a | None => Fault OutOfBounds end.

Section Vacation.
(** [MD5Init], [MD5Update] ..., [MD5Final] over the concatenation. *)
Context (md5 : bytes → bytes).

Definition makehash (s1 s2 s3 : option bytes) : result bytes :=
  s1 ← nonnull s1; s2 ← nonnull s2; Ok (md5 (s1 ++ s2 ++ default [] s3)).

Definition do_vacation (a : action_list) (addr fromaddr subj msg : option bytes)
    (days mime : Z) (handle : option bytes) : result (Z * action_list) :=
  let stop x := match x with
    | ACTION_REJECT _ | ACTION_VACATION _ _ _ _ _ _ _ => Some SIEVE_RUN_ERROR
    | _ => None
    end in
  match scan_actions stop a with
  | Some r => Ok (r, a)
  | None =>
      hash ← (if handle is Some _ then makehash addr handle None else makehash addr fromaddr msg);
      a' ← append_action a (Action (ACTION_VACATION addr fromaddr subj msg mime hash days) false);
      Ok (0, a')
  end.
End Vacation.

(** ** [notify_list_t] *)
Record notify := Notify {
  isactive : bool;
  n_id : option bytes;
  n_method : option bytes;
  n_options : option (list (option bytes));
  n_priority : option bytes;
  n_message : option bytes
}.
Abbreviation notify_list := (list notify).

#[global] Instance notify_eq_dec : EqDecision notify.
Proof. solve_decision. Defined.

Definition new_notify_list : notify_list := [Notify false None None None None None].

Definition do_notify (a : notify_list) (id method : option bytes) (options : list (option bytes))
    (priority message : option bytes) : result (Z * notify_list) :=
  match a with
  | [] => Fault OutOfBounds
  | _ => Ok (0, a ++ [Notify true id method (Some options) priority message])
  end.

(** [tolower] of the C locale, and [strcasecmp(a, b) == 0]. *)
Definition tolower (b : Z) : Z := if (65 <=? b) && (b <=? 90) then b + 32 else b.
Definition strcaseeq (a b : bytes) : bool := bool_decide (map tolower a = map tolower b).
Definition streq (a b : bytes) : bool := bool_decide (a = b).

Section Denotify.
Context {regex : Type}.

(** One node: the guards in the order of the [&&]s. *)
Definition denotify_matches (n : notify) (comp : option (comparator_t regex))
    (pat : pattern regex) (comprock : option compare_t) (priority : option bytes) : result bool :=
  if negb (isactive n) then Ok false
  else
    p ← (match priority with
         | None => Ok true
         | Some priority => np ← nonnull (n_priority n); Ok (strcaseeq np priority)
         end : result bool);
    if negb p then Ok false
    else
      match comp with
      | None => Ok true
      | Some comp =>
          match n_id n with
          | None => Ok false
          | Some id => r ← comp (id ++ [0]) (blen id) pat comprock; Ok (negb (r =? 0))
          end
      end.

Fixpoint do_denotify_loop (n : notify_list) (comp : option (comparator_t regex))
    (pat : pattern regex) (comprock : option compare_t) (priority : option bytes)
    : result notify_list :=
  match n with
  | [] => Ok []
  | x :: next =>
      m ← denotify_matches x comp pat comprock priority;
      let x' := if (m : bool) then Notify false (n_id x) (n_method x) (n_options x) (n_priority x)
                                 (n_message x) else x in
      next' ← do_denotify_loop next comp pat comprock priority;
      Ok (x' :: next')
  end.

Definition do_denotify (n : notify_list) (comp : option (comparator_t regex))
    (pat : pattern regex) (comprock : option compare_t) (priority : option bytes)
    : result (Z * notify_list) :=
  n' ← do_denotify_loop n comp pat comprock priority; Ok (0, n').
End Denotify.

(** ** Addresses *)

(** [struct address] of [lib/parseaddr.h], the members used here. *)
Record address := Address { mailbox : option bytes; domain : option bytes }.

Inductive address_part :=
  ADDRESS_ALL | ADDRESS_LOCALPART | ADDRESS_DOMAIN | ADDRESS_USER | ADDRESS_DETAIL.

(** [strchr(s, '+')]: what is before it, and what is after it if it is there. *)
Fixpoint split_plus (s : bytes) : bytes * option bytes :=
  match s with
  | [] => ([], None)
  | c :: s' =>
      if c =? 43 then ([], Some s')
      else let '(user, detail) := split_plus s' in (c :: user, detail)
  end.

(** The part of one address, NULL when it has none. *)
Definition address_get (part : address_part) (mailbox domain : option bytes) : option bytes :=
  match part with
  | ADDRESS_ALL =>
      match mailbox, domain with
      | None, None => None
      | _, _ => Some (default (str "unknown-user") mailbox ++ str "@"
                      ++ default (str "unspecified-domain") domain)
      end
  | ADDRESS_LOCALPART => mailbox
  | ADDRESS_DOMAIN => domain
  | ADDRESS_USER => (λ m, (split_plus m).1) <$> mailbox
  | ADDRESS_DETAIL => mailbox ≫= λ m, (split_plus m).2
  end.

(** [get_address]: the part of the address at the marker, and the marker moved
    on. *)
Definition get_address (part : address_part) (where_ : list address) (canon_domain : bool)
    : option bytes * list address :=
  match where_ with
  | [] => (None, [])
  | a :: next =>
      let domain := if canon_domain then map tolower <$> domain a else domain a in
      (address_get part (mailbox a) domain, next)
  end.
