(* ===== verification/SieveEval.v ===== *)
(** * SieveEval: the bytecode interpreter of [sieve/bc_eval.c]

    The bytecode is the mapped file, a list of bytes read as network-order
    words.  The callbacks of [sieve_interp_t] and the C library's regular
    expressions are parameters; what the callbacks write through their output
    arguments is their result.  A loop over a string list is an iterator, so
    that the tests read as the C loops do whatever the strings come from. *)
From stdpp Require Import gmap pretty.
From S2P Require Import Prelude CMem SieveTree SieveComparator SieveMessage.
#[local] Open Scope Z_scope.

(** [ntohl(bc[i])], as an [int] and as the unsigned value it is. *)
Definition bcw (bc : bytes) (i : Z) : result Z := w ← rd32 bc (4 * i); Ok (to_s32 w).
Definition bcu (bc : bytes) (i : Z) : result Z := rd32 bc (4 * i).

(** [unwrap_string]: the string (read here, where the C code makes a pointer to
    it), its length, and the index of the next item. *)
Definition unwrap_string (bc : bytes) (pos : Z) : result (option bytes * Z * Z) :=
  local_len ← bcw bc pos;
  let pos := pos + 1 in
  if local_len =? -1 then Ok (None, local_len, pos)
  else
    s ← cstr_at bc (4 * pos);
    Ok (Some s, local_len, to_s32 (pos + ROUNDUP (local_len + 1) / 4)).

(** [for (x = 0; x < n && cond; x++) { cur = unwrap_string(bc, cur, &str); ... }] *)
Definition iterator : Type := ∀ S : Type, (S → bool) → (option bytes → S → result S) → S → result S.

Fixpoint for_strings (bc : bytes) (n : nat) (cur : Z) : iterator := λ S cond body s,
  match n with
  | O => Ok s
  | S n' =>
      if cond s then
        '(str, _, cur) ← unwrap_string bc cur;
        s ← body str s;
        for_strings bc n' cur S cond body s
      else Ok s
  end.

(** [bc_makeArray]: the strings and the new position. *)
Fixpoint makeArray_loop (bc : bytes) (n : nat) (pos : Z) : result (list (option bytes) * Z) :=
  match n with
  | O => Ok ([], pos)
  | S n' =>
      '(str, _, pos) ← unwrap_string bc pos;
      '(array, pos) ← makeArray_loop bc n' pos;
      Ok (str :: array, pos)
  end.

Definition bc_makeArray (bc : bytes) (pos : Z) : result (list (option bytes) * Z) :=
  len ← bcw bc pos;
  if len <? 0 then Fault OutOfBounds else makeArray_loop bc (Z.to_nat len) (pos + 2).

(** [sprintf(scount, "%u", count)] into [char scount[3]]. *)
Definition sprintf_scount (count : Z) : result bytes :=
  let s := str (pretty (Z.to_N (to_u32 count))) in
  if 2 <? blen s then Fault OutOfBounds else Ok s.


Fixpoint is_prefix (eqb : Z → Z → bool) (p s : bytes) : bool :=
  match p, s with
  | [], _ => true
  | a :: p', b :: s' => eqb a b && is_prefix eqb p' s'
  | _, [] => false
  end.

(** [strstr(s, p) != NULL] *)
Fixpoint is_infix (p s : bytes) : bool :=
  is_prefix Z.eqb p s || match s with [] => false | _ :: s' => is_infix p s' end.

Definition nocase (a b : Z) : bool := tolower a =? tolower b.

(** [sysaddr] *)
Definition sysaddr (addr : bytes) : bool :=
  is_prefix nocase (str "MAILER-DAEMON") addr
  || is_prefix nocase (str "LISTSERV") addr
  || is_prefix nocase (str "majordomo") addr
  || is_infix (str "-request@") addr
  || is_prefix Z.eqb (str "owner-") addr.

(** [sieve_bodypart_t]; [ENCODING_...] of [lib/charset.h]. *)
Record bodypart := BodyPart {
  section : bytes; content : bytes; encoding : option bytes; part_size : Z }.
Inductive encoding_t := ENCODING_NONE | ENCODING_QP | ENCODING_BASE64.

(** [REG_EXTENDED | REG_NOSUB], with or without [REG_ICASE]. *)
Record ctag_t := Ctag { reg_icase : bool }.

Definition list_fields : list bytes :=
  [str "list-id"; str "list-help"; str "list-subscribe"; str "list-unsubscribe";
   str "list-post"; str "list-owner"; str "list-archive"].

(** [sieve_bytecode_t] and [sieve_execute_t]: [bc_cur] is the inode of the
    current buffer. *)
Record sieve_bytecode := SBC { inode : Z; sdata : bytes; is_executing : bool }.
Record sieve_execute := Exe { bc_list : list sieve_bytecode; bc_cur : Z }.

Definition find_bc (exe : sieve_execute) (ino : Z) : option sieve_bytecode :=
  List.find (λ b, inode b =? ino) (bc_list exe).
Definition set_executing (ino : Z) (v : bool) (exe : sieve_execute) : sieve_execute :=
  Exe (map (λ b, if inode b =? ino then SBC (inode b) (sdata b) v else b) (bc_list exe)) (bc_cur exe).

(** What the interpreter is given: the callbacks of [sieve_interp_t], the C
    library's regular expressions, the other parts of the server and the script
    files.  A callback that fails ([None]) returns [SIEVE_FAIL] and stores NULL
    in [*contents]. *)
Class Interp := {
  (** [regcomp] and [regexec] *)
  regex : Type;
  regcomp : bytes → ctag_t → option regex;
  regexec : regex → bytes → bool;
  (** the message context; [advance m h n] is the message once the first pointer
      of the array [getheader] gave for [h] has been moved by [n] characters *)
  message : Type;
  getsize : message → option Z;
  getheader : message → bytes → option (list bytes);
  getenvelope : message → bytes → option (list bytes);
  getbody : message → list (option bytes) → option (list bodypart);
  advance : message → bytes → Z → message;
  (** [parseaddr_list]; [charset_decode_mimebody], the decoded bytes and their
      number; MD5 *)
  parseaddr_list : bytes → list address;
  decode_mimebody : bytes → Z → encoding_t → bytes * Z;
  md5 : bytes → bytes;
  (** [getinclude]: its code and the path; [stat]: the inode; the contents of a
      file that can be opened *)
  getinclude : bytes → bool → Z * bytes;
  stat : bytes → option Z;
  open_map : bytes → option bytes
}.

Section Eval.
Context `{I : Interp}.

Abbreviation comparator_t := (comparator_t regex).
Definition body_cache : Type := gmap bytes bytes.

(** ** Tests *)

(** What the test loops keep: [res], [count], and whether [goto alldone] was
    taken. *)
Record mstate := MState { res : Z; count : Z; alldone : bool }.
Definition nores (s : mstate) : bool := res s =? 0.
Definition mstate0 : mstate := MState 0 0 false.

(** The set-up common to address, envelope, header and body. *)
Record matcher := Matcher {
  m_match : Z; m_comp : comparator_t; m_rock : option compare_t; m_ctag : ctag_t }.
Definition isReg (mt : matcher) : bool := m_match mt =? tag_num B_REGEX.

Definition lookup_matcher (match_ relation comparator : Z) : option matcher :=
  match lookup_comp regexec comparator match_ relation with
  | (None, _) => None
  | (Some comp, rock) =>
      Some (Matcher match_ comp rock (Ctag (comparator =? tag_num B_ASCIICASEMAP)))
  end.

(** One iteration over the data: [text] is what is compared. *)
Definition data_one (mt : matcher) (text : bytes) (tlen : Z) (data_val : option bytes) (s : mstate)
    : result mstate :=
  data_val ← nonnull data_val;
  if isReg mt then
    match regcomp data_val (m_ctag mt) with
    | None => Ok (MState (-1) (count s) true)
    | Some reg =>
        r ← m_comp mt text tlen (Preg reg) (m_rock mt);
        Ok (MState (Z.lor (res s) r) (count s) (alldone s))
    end
  else
    r ← m_comp mt text tlen (Pstr (data_val ++ [0])) (m_rock mt);
    Ok (MState (Z.lor (res s) r) (count s) (alldone s)).

(** [if (match == B_COUNT)] after the loops. *)
Definition count_test (mt : matcher) (data : iterator) (s : mstate) : result mstate :=
  if m_match mt =? tag_num B_COUNT then
    scount ← sprintf_scount (count s);
    data mstate nores (λ data_val s,
      data_val ← nonnull data_val;
      r ← m_comp mt (scount ++ [0]) (blen scount) (Pstr (data_val ++ [0])) (m_rock mt);
      Ok (MState (Z.lor (res s) r) (count s) (alldone s))) s
  else Ok s.

(** [if (match == B_COUNT) count++; else ...]: one value of a header, one
    address, one body part. *)
Definition value_one (mt : matcher) (data : iterator) (text : bytes) (tlen : Z) (s : mstate)
    : result mstate :=
  if m_match mt =? tag_num B_COUNT then Ok (MState (res s) (count s + 1) (alldone s))
  else data mstate nores (data_one mt text tlen) s.

(** [for (y = 0; val[y] != NULL && !res; y++)] *)
Fixpoint values_loop {V} (one : V → mstate → result mstate) (val : list V) (s : mstate)
    : result mstate :=
  match val with
  | [] => Ok s
  | v :: val' => if nores s then s ← one v s; values_loop one val' s else Ok s
  end.

Definition header_test (mt : matcher) (headers data : iterator) (m : message) : result mstate :=
  s ← headers mstate nores (λ this_header s,
        this_header ← nonnull this_header;
        match getheader m this_header with
        | None => Ok s
        | Some val => values_loop (λ v, value_one mt data (v ++ [0]) (blen v)) val s
        end) mstate0;
  count_test mt data s.

(** [while (!res && (addr = get_address(addrpart, &data, &marker, 0)))]; a
    regular expression is tried on the whole header [v]. *)
Fixpoint address_loop (mt : matcher) (data : iterator) (addrpart : address_part) (v : bytes)
    (where_ : list address) (s : mstate) : result mstate :=
  if nores s then
    match where_ with
    | [] => Ok s
    | _ :: next =>
        match (get_address addrpart where_ false).1 with
        | None => Ok s
        | Some addr =>
            s ← (if isReg mt then value_one mt data (v ++ [0]) (blen v) s
                 else value_one mt data (addr ++ [0]) (blen addr) s);
            address_loop mt data addrpart v next s
        end
    end
  else Ok s.

Definition addrpart_of (apart : Z) : option address_part :=
  match tag_of apart with
  | Some B_ALL => Some ADDRESS_ALL
  | Some B_LOCALPART => Some ADDRESS_LOCALPART
  | Some B_DOMAIN => Some ADDRESS_DOMAIN
  | Some B_USER => Some ADDRESS_USER
  | Some B_DETAIL => Some ADDRESS_DETAIL
  | _ => None
  end.

(** [address] tells the address test from the envelope test. *)
Definition address_test (address : bool) (mt : matcher) (addrpart : address_part)
    (headers data : iterator) (m : message) : result mstate :=
  s ← headers mstate nores (λ this_header s,
        this_header ← nonnull this_header;
        match (if address then getheader m this_header else getenvelope m this_header) with
        | None => Ok s
        | Some val =>
            values_loop (λ v, address_loop mt data addrpart v (parseaddr_list v)) val s
        end) mstate0;
  count_test mt data s.

Definition encoding_of (e : option bytes) : encoding_t :=
  match e with
  | None => ENCODING_NONE
  | Some e =>
      if streq e (str "BASE64") then ENCODING_BASE64
      else if streq e (str "QUOTED-PRINTABLE") then ENCODING_QP
      else ENCODING_NONE
  end.

(** The content and size to search, decoded at most once per section. *)
Definition part_content (transform : Z) (p : bodypart) (cache : body_cache)
    : result (bytes * Z * body_cache) :=
  if transform =? tag_num B_RAW then Ok (content p, to_s32 (part_size p), cache)
  else
    match encoding_of (encoding p) with
    | ENCODING_NONE => Ok (content p, to_s32 (part_size p), cache)
    | enc =>
        match cache !! section p with
        | Some c => size ← c_strlen c; Ok (c, size, cache)
        | None =>
            let '(c, size) := decode_mimebody (content p) (part_size p) enc in
            Ok (c, size, <[section p := c]> cache)
        end
    end.

Fixpoint parts_loop (mt : matcher) (data : iterator) (transform : Z) (val : list bodypart)
    (s : mstate) (cache : body_cache) : result (mstate * body_cache) :=
  match val with
  | [] => Ok (s, cache)
  | p :: val' =>
      if nores s then
        if m_match mt =? tag_num B_COUNT then
          parts_loop mt data transform val' (MState (res s) (count s + 1) (alldone s)) cache
        else
          '(c, size, cache) ← part_content transform p cache;
          s ← data mstate nores (data_one mt c (to_u64 size)) s;
          parts_loop mt data transform val' s cache
      else Ok (s, cache)
  end.

Definition body_test (mt : matcher) (transform : Z) (types : list (option bytes)) (data : iterator)
    (m : message) (cache : body_cache) : result (option (mstate * body_cache)) :=
  match getbody m types with
  | None => Ok None
  | Some val =>
      '(s, cache) ← parts_loop mt data transform val mstate0 cache;
      s ← count_test mt data s;
      Ok (Some (s, cache))
  end.

Definition exists_test (headers : iterator) (m : message) : result Z :=
  headers Z (λ res, negb (res =? 0)) (λ str _,
    str ← nonnull str; Ok (b2z (if getheader m str is Some _ then true else false))) 1.

(** The two string lists of a test: the iterators over them and the index after
    the second. *)
Definition bc_lists (bc : bytes) (headersi : Z) : result (iterator * iterator * Z) :=
  end_ ← bcu bc (headersi + 1);
  let datai := to_s32 (end_ / 4) in
  numheaders ← bcw bc headersi;
  numdata ← bcw bc datai;
  ip ← bcu bc (datai + 1);
  Ok (for_strings bc (Z.to_nat numheaders) (headersi + 2),
      for_strings bc (Z.to_nat numdata) (datai + 2), to_s32 (ip / 4)).

(** [res] and the new [ip]: [goto alldone] leaves [i] where it was. *)
Definition test_end (s : mstate) (i ip : Z) : Z * Z := (res s, if alldone s then i else ip).

Fixpoint eval_bc_test (fuel : nat) (bc : bytes) (m : message) (cache : body_cache) (i : Z)
    : result (Z * Z * body_cache) :=
  match fuel with
  | O => Fault OutOfFuel
  | S fuel' =>
      op ← bcw bc i;
      match comp_of op with
      | Some BC_FALSE => Ok (0, i + 1, cache)
      | Some BC_TRUE => Ok (1, i + 1, cache)
      | Some BC_NOT =>
          '(res, i, cache) ← eval_bc_test fuel' bc m cache (i + 1);
          Ok (if 0 <=? res then b2z (res =? 0) else res, i, cache)
      | Some BC_EXISTS =>
          list_len ← bcw bc (i + 1);
          list_end ← bcu bc (i + 2);
          res ← exists_test (for_strings bc (Z.to_nat list_len) (i + 3)) m;
          Ok (res, to_s32 (list_end / 4), cache)
      | Some BC_SIZE =>
          sizevar ← bcw bc (i + 1);
          x ← bcw bc (i + 2);
          match getsize m with
          | None => Ok (0, i, cache)
          | Some s =>
              Ok (if sizevar =? tag_num B_OVER then b2z (x <? s) else b2z (s <? x), i + 3, cache)
          end
      | Some BC_ANYOF =>
          list_len ← bcw bc (i + 1);
          list_end ← bcu bc (i + 2);
          '(res, cache) ← testlist_loop fuel' bc m true cache (i + 3) (Z.to_nat list_len) 0;
          Ok (res, to_s32 (list_end / 4), cache)
      | Some BC_ALLOF =>
          list_len ← bcw bc (i + 1);
          list_end ← bcu bc (i + 2);
          '(res, cache) ← testlist_loop fuel' bc m false cache (i + 3) (Z.to_nat list_len) 1;
          Ok (res, to_s32 (list_end / 4), cache)
      | Some BC_ADDRESS | Some BC_ENVELOPE =>
          '(headers, data, ip) ← bc_lists bc (i + 5);
          match_ ← bcw bc (i + 1); relation ← bcw bc (i + 2); comparator ← bcw bc (i + 3);
          apart ← bcw bc (i + 4);
          match lookup_matcher match_ relation comparator with
          | None => Ok (SIEVE_RUN_ERROR, i, cache)
          | Some mt =>
              match addrpart_of apart with
              | None => Ok (SIEVE_RUN_ERROR, i, cache)
              | Some part =>
                  s ← address_test (op =? comp_num BC_ADDRESS) mt part headers data m;
                  Ok (test_end s i ip, cache)
              end
          end
      | Some BC_HEADER =>
          '(headers, data, ip) ← bc_lists bc (i + 4);
          match_ ← bcw bc (i + 1); relation ← bcw bc (i + 2); comparator ← bcw bc (i + 3);
          match lookup_matcher match_ relation comparator with
          | None => Ok (SIEVE_RUN_ERROR, i, cache)
          | Some mt => s ← header_test mt headers data m; Ok (test_end s i ip, cache)
          end
      | Some BC_BODY =>
          '(_, data, ip) ← bc_lists bc (i + 6);
          match_ ← bcw bc (i + 1); relation ← bcw bc (i + 2); comparator ← bcw bc (i + 3);
          transform ← bcw bc (i + 4); _ ← bcw bc (i + 5);
          match lookup_matcher match_ relation comparator with
          | None => Ok (SIEVE_RUN_ERROR, i, cache)
          | Some mt =>
              '(content_types, _) ← bc_makeArray bc (i + 6);
              r ← body_test mt transform content_types data m cache;
              match r with
              | None => Ok (SIEVE_RUN_ERROR, i, cache)
              | Some (s, cache) => Ok (test_end s i ip, cache)
              end
          end
      | None => Ok (SIEVE_RUN_ERROR, i, cache)
      end
  end
(** The loop of anyof (which stops at a true test) and allof (at a false one),
    after [n] more tests. *)
with testlist_loop (fuel : nat) (bc : bytes) (m : message) (anyof : bool) (cache : body_cache)
    (i : Z) (n : nat) (res : Z) : result (Z * body_cache) :=
  match fuel with
  | O => Fault OutOfFuel
  | S fuel' =>
      match n with
      | O => Ok (res, cache)
      | S n' =>
          if eqb (res =? 0) anyof then
            '(tmp, i, cache) ← eval_bc_test fuel' bc m cache i;
            if tmp <? 0 then Ok (tmp, cache)
            else testlist_loop fuel' bc m anyof cache i n' (b2z (negb (tmp =? 0)))
          else Ok (res, cache)
      end
  end.

(** ** Vacation: [shouldRespond] *)

(** [parse_address], [get_address(ADDRESS_ALL, ..., 1)] and [free_address]. *)
Definition first_address (header : bytes) : option bytes :=
  (get_address ADDRESS_ALL (parseaddr_list header) true).1.

Definition strcasecmp_eq (a b : option bytes) : result bool :=
  a ← nonnull a; b ← nonnull b; Ok (strcaseeq a b).

(** The while loop of [look_for_me] over the addresses of one header. *)
Fixpoint look_in_addresses (myaddr : option bytes) (addresses : iterator) (where_ : list address)
    : result (option bytes) :=
  match where_ with
  | [] => Ok None
  | _ :: next =>
      match (get_address ADDRESS_ALL where_ true).1 with
      | None => Ok None
      | Some addr =>
          e ← strcasecmp_eq (Some addr) myaddr;
          if (e : bool) then Ok myaddr
          else
            found ← addresses (option bytes) (λ found, if found is Some _ then false else true)
              (λ str _,
                s ← nonnull str;
                e ← strcasecmp_eq (Some addr) (first_address s);
                Ok (if (e : bool) then str else None)) None;
            match found with
            | Some _ => Ok found
            | None => look_in_addresses myaddr addresses next
            end
      end
  end.

Fixpoint look_for_me (myaddr : option bytes) (addresses : iterator) (body : list bytes)
    : result (option bytes) :=
  match body with
  | [] => Ok None
  | b :: body' =>
      found ← look_in_addresses myaddr addresses (parseaddr_list b);
      match found with
      | Some _ => Ok found
      | None => look_for_me myaddr addresses body'
      end
  end.

(** Skip the white space of [*body[0]], moving [body[0]] on: the number of steps and
    the string then. *)
Fixpoint skip_space (s : bytes) : Z * bytes :=
  match s with
  | c :: s' => if isspace c then let '(n, r) := skip_space s' in (1 + n, r) else (0, s)
  | [] => (0, [])
  end.

(** [found], and the header name in [buf], through the six header lookups. *)
Definition look_in_header (myaddr : option bytes) (addresses : iterator) (m : message)
    (found : option bytes) (buf : bytes) : result (option bytes) :=
  match getheader m buf with
  | Some body => look_for_me myaddr addresses body
  | None => Ok found
  end.

(** [if (!found && (strcpy(buf, name), getheader(m, buf, &body) == SIEVE_OK))] *)
Definition look_unless_found (myaddr : option bytes) (addresses : iterator) (m : message)
    (name : bytes) (fb : option bytes * bytes) : result (option bytes * bytes) :=
  match fb.1 with
  | Some _ => Ok fb
  | None => found ← look_in_header myaddr addresses m None name; Ok (found, name)
  end.

(** [if (!found && strcpy(buf, name), getheader(m, buf, &body) == SIEVE_OK)]:
    the comma binds last, so [buf] is looked up in any case. *)
Definition look_always (myaddr : option bytes) (addresses : iterator) (m : message)
    (name : bytes) (fb : option bytes * bytes) : result (option bytes * bytes) :=
  let buf := if fb.1 is Some _ then fb.2 else name in
  found ← look_in_header myaddr addresses m fb.1 buf; Ok (found, buf).

(** The name the message is addressed to me by. *)
Definition find_me (myaddr : option bytes) (addresses : iterator) (m : message)
    : result (option bytes) :=
  found ← look_in_header myaddr addresses m None (str "to");
  fb ← look_unless_found myaddr addresses m (str "cc") (found, str "to");
  fb ← look_unless_found myaddr addresses m (str "bcc") fb;
  fb ← look_always myaddr addresses m (str "resent-to") fb;
  fb ← look_unless_found myaddr addresses m (str "resent-cc") fb;
  fb ← look_unless_found myaddr addresses m (str "resent-bcc") fb;
  Ok fb.1.

(** The first value of a header that is there, spaces skipped in place; a NULL
    [body[0]] is dereferenced. *)
Definition skipped_header (m : message) (h : bytes) : result (option bytes * message) :=
  match getheader m h with
  | None => Ok (None, m)
  | Some [] => Fault OutOfBounds
  | Some (b :: _) => let '(n, r) := skip_space b in Ok (Some r, advance m h n)
  end.

(** Do the sender's address and mine let us respond?  [l] and [reply_to]. *)
Definition check_sender (myaddr : option bytes) (addresses : iterator) (from : list bytes)
    : result (Z * option bytes) :=
  match from with
  | [] => Ok (SIEVE_OK, None)
  | b :: _ =>
      match first_address b with
      | None => Ok (SIEVE_DONE, None)
      | Some reply_to =>
          my ← nonnull myaddr;
          if streq my reply_to then Ok (SIEVE_DONE, Some reply_to)
          else
            l ← addresses Z (λ _, true) (λ address l,
                  a ← nonnull address;
                  Ok (if streq a reply_to then SIEVE_DONE else l)) SIEVE_OK;
            Ok (if (l =? SIEVE_OK) && sysaddr reply_to then SIEVE_DONE else l, Some reply_to)
      end
  end.

(** The result, [*from], [*to] and the message. *)
Definition shouldRespond (m : message) (addresses : iterator)
    : result (Z * option bytes * option bytes * message) :=
  let l := if existsb (λ h, if getheader m h is Some _ then true else false) list_fields
           then SIEVE_DONE else SIEVE_OK in
  '(auto, m) ← skipped_header m (str "auto-submitted");
  let l := if auto is Some a then if strcaseeq a (str "no") then l else SIEVE_DONE else l in
  '(prec, m) ← skipped_header m (str "precedence");
  let l := if prec is Some p then
             if strcaseeq p (str "junk") || strcaseeq p (str "bulk") || strcaseeq p (str "list")
             then SIEVE_DONE else l
           else l in
  if negb (l =? SIEVE_OK) then Ok (l, None, None, m)
  else
    to ← nonnull (getenvelope m (str "to"));
    let myaddr := head to ≫= first_address in
    match getenvelope m (str "from") with
    | None => Ok (SIEVE_FAIL, None, None, m)
    | Some from =>
        '(l, reply_to) ← check_sender myaddr addresses from;
        if negb (l =? SIEVE_OK) then Ok (l, None, reply_to, m)
        else
          found ← find_me myaddr addresses m;
          Ok (if found is Some _ then SIEVE_OK else SIEVE_DONE, found, reply_to, m)
    end.

(** ** [sieve_eval_bc] *)

Record estate := EState {
  e_m : message;
  e_cache : body_cache;
  e_actions : action_list;
  e_notify : notify_list;
  e_errmsg : option bytes
}.

Definition set_actions (a : action_list) (s : estate) : estate :=
  EState (e_m s) (e_cache s) a (e_notify s) (e_errmsg s).
Definition set_notify (n : notify_list) (s : estate) : estate :=
  EState (e_m s) (e_cache s) (e_actions s) n (e_errmsg s).
Definition set_errmsg (e : bytes) (s : estate) : estate :=
  EState (e_m s) (e_cache s) (e_actions s) (e_notify s) (Some e).
Definition set_cache (c : body_cache) (s : estate) : estate :=
  EState (e_m s) c (e_actions s) (e_notify s) (e_errmsg s).
Definition set_m (m : message) (s : estate) : estate :=
  EState m (e_cache s) (e_actions s) (e_notify s) (e_errmsg s).

(** [res = do_...(actions, ...); if (res == SIEVE_RUN_ERROR) *errmsg = msg;] *)
Definition run_action (msg : bytes) (d : action_list → result (Z * action_list)) (s : estate)
    : result (Z * estate) :=
  '(res, a) ← d (e_actions s);
  let s := set_actions a s in
  Ok (res, if res =? SIEVE_RUN_ERROR then set_errmsg msg s else s).

Definition priority_of (pri : Z) : option bytes :=
  match tag_of pri with
  | Some B_LOW => Some (str "normal") (* "low", and then the next case *)
  | Some B_NORMAL => Some (str "normal")
  | Some B_HIGH => Some (str "high")
  | Some B_ANY => Some (str "any")
  | _ => None
  end.

(** The loop of addflag and removeflag, and of the flags after the first of
    setflag: every flag is tried, [res] is the last result. *)
Fixpoint flags_loop (bc : bytes) (msg : bytes)
    (d : action_list → option bytes → result (Z * action_list))
    (n : nat) (ip res : Z) (s : estate) : result (Z * Z * estate) :=
  match n with
  | O => Ok (res, ip, s)
  | S n' =>
      '(data, _, ip) ← unwrap_string bc ip;
      '(res, s) ← run_action msg (λ a, d a data) s;
      flags_loop bc msg d n' ip res s
  end.

(** [strlcpy(subject, s, 1024)] *)
Definition strlcpy_subject (s : bytes) : bytes := take 1023 s.

Definition vacation_subject (m : message) (data : option bytes) : bytes :=
  match data with
  | Some data => strlcpy_subject data
  | None =>
      match getheader m (str "subject") with
      | Some (origsubj :: _) => strlcpy_subject (str "Auto: " ++ origsubj)
      | _ => strlcpy_subject (str "Automated reply")
      end
  end.

(** [case B_VACATION] at [ip]. *)
Definition eval_vacation (version : Z) (bc : bytes) (ip : Z) (s : estate)
    : result (Z * Z * estate) :=
  x ← bcw bc (ip + 1);
  '(respond, fromaddr, toaddr, m) ← shouldRespond (e_m s) (for_strings bc (Z.to_nat x) (ip + 3));
  let s := set_m m s in
  end_ ← bcu bc (ip + 2);
  let ip := to_s32 (end_ / 4) in
  if respond =? SIEVE_OK then
    '(data, _, ip) ← unwrap_string bc ip;
    let subject := vacation_subject m data in
    '(message, _, ip) ← unwrap_string bc ip;
    days ← bcw bc ip;
    mime ← bcw bc (ip + 1);
    let ip := ip + 2 in
    '(fromaddr, handle, ip) ←
      (if 5 <=? version then
         '(data, _, ip) ← unwrap_string bc ip;
         let fromaddr := if data is Some _ then data else fromaddr in
         '(handle, _, ip) ← unwrap_string bc ip;
         Ok (fromaddr, handle, ip)
       else Ok (fromaddr, None, ip));
    '(res, s) ← run_action (str "Vacation can not be used with Reject or Vacation")
      (λ a, do_vacation md5 a toaddr fromaddr (Some subject) message days mime handle) s;
    Ok (res, ip, s)
  else if respond =? SIEVE_DONE then
    '(_, _, ip) ← unwrap_string bc ip;
    '(_, _, ip) ← unwrap_string bc ip;
    let ip := ip + 2 in
    ip ← (if 5 <=? version then
            '(_, _, ip) ← unwrap_string bc ip;
            '(_, _, ip) ← unwrap_string bc ip;
            Ok ip
          else Ok ip);
    Ok (0, ip, s)
  else Ok (SIEVE_RUN_ERROR, ip, s).

(** [case B_NOTIFY] and [case B_DENOTIFY] at [ip]. *)
Definition eval_notify (bc : bytes) (ip : Z) (s : estate) : result (Z * Z * estate) :=
  '(method, _, ip) ← unwrap_string bc (ip + 1);
  '(id, _, ip) ← unwrap_string bc ip;
  '(options, ip) ← bc_makeArray bc ip;
  pri ← bcw bc ip;
  '(message, _, ip) ← unwrap_string bc (ip + 1);
  '(res, n) ← do_notify (e_notify s) id method options (priority_of pri) message;
  Ok (res, ip, set_notify n s).

Definition eval_denotify (bc : bytes) (ip : Z) (s : estate) : result (Z * Z * estate) :=
  pri ← bcw bc (ip + 1);
  let ip := ip + 2 in
  match priority_of pri with
  | None => Ok (SIEVE_RUN_ERROR, ip, s)
  | Some priority =>
      comparator ← bcw bc ip;
      '(comp, comprock) ←
        (if comparator =? tag_num B_ANY then Ok (None, None)
         else
           x ← bcw bc (ip + 1);
           Ok (lookup_comp regexec (tag_num B_ASCIICASEMAP) comparator x));
      let ip := ip + 2 in
      '(pattern, _, ip) ← unwrap_string bc ip;
      if comparator =? tag_num B_REGEX then
        pattern ← nonnull pattern;
        match regcomp pattern (Ctag true) with
        | None => Ok (SIEVE_RUN_ERROR, ip, s)
        | Some reg =>
            '(res, n) ← do_denotify (e_notify s) comp (Preg reg) comprock (Some priority);
            Ok (res, ip, set_notify n s)
        end
      else
        '(res, n) ← do_denotify (e_notify s) comp (Pstr (from_option (λ p, p ++ [0]) [] pattern))
          comprock (Some priority);
        Ok (res, ip, set_notify n s)
  end.

(** What one pass of the loop does: go on with [res] and [ip], [return] an error
    with [is_executing] left set, [goto done], or run an included script. *)
Inductive step :=
  | Next (res ip : Z) (s : estate)
  | Return (code : Z) (s : estate)
  | Done (res : Z) (s : estate)
  | Include (isglobal : bool) (script : bytes) (ip : Z) (s : estate).

Definition next_of (m : result (Z * Z * estate)) : result step :=
  '(res, ip, s) ← m; Ok (Next res ip s).

Definition fileinto_msg := str "Fileinto can not be used with Reject".
Definition redirect_msg := str "Redirect can not be used with Reject".

(** The switch, on the instruction at [ip]. *)
Definition eval_op (fuel : nat) (is_incl : bool) (version : Z) (bc : bytes) (ip : Z) (s : estate)
    : result step :=
  op ← bcw bc ip;
  match op_of op with
  | Some B_STOP => Ok (Next 1 ip s)
  | Some B_KEEP =>
      '(res, s) ← run_action (str "Keep can not be used with Reject") do_keep s;
      Ok (Next res (ip + 1) s)
  | Some B_DISCARD =>
      '(res, a) ← do_discard (e_actions s); Ok (Next res (ip + 1) (set_actions a s))
  | Some B_REJECT =>
      '(data, _, ip) ← unwrap_string bc (ip + 1);
      '(res, s) ← run_action (str "Reject can not be used with any other action")
                    (λ a, do_reject a data) s;
      Ok (Next res ip s)
  | Some B_FILEINTO =>
      copy ← bcw bc (ip + 1);
      '(data, _, ip) ← unwrap_string bc (ip + 2);
      '(res, s) ← run_action fileinto_msg (λ a, do_fileinto a data (copy =? 0)) s;
      Ok (Next res ip s)
  | Some B_FILEINTO_ORIG =>
      '(data, _, ip) ← unwrap_string bc (ip + 1);
      '(res, s) ← run_action fileinto_msg (λ a, do_fileinto a data true) s;
      Ok (Next res ip s)
  | Some B_REDIRECT =>
      copy ← bcw bc (ip + 1);
      '(data, _, ip) ← unwrap_string bc (ip + 2);
      '(res, s) ← run_action redirect_msg (λ a, do_redirect a data (copy =? 0)) s;
      Ok (Next res ip s)
  | Some B_REDIRECT_ORIG =>
      '(data, _, ip) ← unwrap_string bc (ip + 1);
      '(res, s) ← run_action redirect_msg (λ a, do_redirect a data true) s;
      Ok (Next res ip s)
  | Some B_IF =>
      testend ← bcw bc (ip + 1);
      '(result, _, cache) ← eval_bc_test fuel bc (e_m s) (e_cache s) (ip + 2);
      let s := set_cache cache s in
      if result <? 0 then Ok (Return SIEVE_FAIL (set_errmsg (str "Invalid test") s))
      else Ok (Next 0 (if result =? 0 then testend else testend + 2) s)
  | Some B_MARK => '(res, a) ← do_mark (e_actions s); Ok (Next res (ip + 1) (set_actions a s))
  | Some B_UNMARK => '(res, a) ← do_unmark (e_actions s); Ok (Next res (ip + 1) (set_actions a s))
  | Some B_ADDFLAG =>
      list_len ← bcw bc (ip + 1);
      next_of (flags_loop bc (str "addflag can not be used with Reject") do_addflag
                 (Z.to_nat list_len) (ip + 3) 0 s)
  | Some B_SETFLAG =>
      list_len ← bcw bc (ip + 1);
      '(data, _, ip) ← unwrap_string bc (ip + 3);
      '(res, s) ← run_action (str "setflag can not be used with Reject") (λ a, do_setflag a data) s;
      if res =? SIEVE_RUN_ERROR then Ok (Next res ip s)
      else next_of (flags_loop bc (str "setflag can not be used with Reject") do_addflag
                      (Z.to_nat (list_len - 1)) ip res s)
  | Some B_REMOVEFLAG =>
      list_len ← bcw bc (ip + 1);
      next_of (flags_loop bc (str "removeflag can not be used with Reject") do_removeflag
                 (Z.to_nat list_len) (ip + 3) 0 s)
  | Some B_NOTIFY => next_of (eval_notify bc ip s)
  | Some B_DENOTIFY => next_of (eval_denotify bc ip s)
  | Some B_VACATION => next_of (eval_vacation version bc ip s)
  | Some B_NULL => Ok (Next 0 (ip + 1) s)
  | Some B_JUMP => ip ← bcw bc (ip + 1); Ok (Next 0 ip s)
  | Some B_INCLUDE =>
      g ← bcw bc (ip + 1);
      '(data, _, ip) ← unwrap_string bc (ip + 2);
      data ← nonnull data;
      Ok (Include (g =? tag_num B_GLOBAL) data ip s)
  | Some B_RETURN => Ok (if is_incl then Done 0 s else Next 1 ip s)
  | None => Ok (Return SIEVE_FAIL (set_errmsg (str "Invalid sieve bytecode") s))
  end.

(** [sieve_script_load] on an existing [sieve_execute_t]. *)
Definition sieve_script_load (fname : bytes) (exe : sieve_execute) : Z * sieve_execute :=
  match stat fname with
  | None => (SIEVE_FAIL, exe)
  | Some ino =>
      match find_bc exe ino with
      | Some _ => (SIEVE_OK, Exe (bc_list exe) ino)
      | None =>
          match open_map fname with
          | None => (SIEVE_FAIL, exe)
          | Some data => (SIEVE_OK, Exe (SBC ino data false :: bc_list exe) ino)
          end
      end
  end.

Definition version_msg := str "Incorrect Bytecode Version, please recompile (use sievec)".

(** The checks before the loop: [inl] the code they return, or the version. *)
Definition check_header (bc : bytes) (s : estate) : result (Z * estate + Z) :=
  if blen bc <? BYTECODE_MAGIC_LEN + 8 then Ok (inl (SIEVE_FAIL, s))
  else if negb (streq (take 12 bc) BYTECODE_MAGIC) then
    Ok (inl (SIEVE_FAIL, set_errmsg (str "Not a bytecode file") s))
  else
    version ← bcw bc (BYTECODE_MAGIC_LEN / 4);
    if (version =? 16777216) || (version <? BYTECODE_MIN_VERSION) || (BYTECODE_VERSION <? version)
    then Ok (inl (SIEVE_FAIL, set_errmsg version_msg s))
    else Ok (inr version).

Fixpoint sieve_eval_bc (fuel : nat) (exe : sieve_execute) (is_incl : bool) (s : estate)
    : result (Z * sieve_execute * estate) :=
  match fuel with
  | O => Fault OutOfFuel
  | S fuel' =>
      cur ← nonnull (find_bc exe (bc_cur exe));
      if is_executing cur then
        Ok (SIEVE_RUN_ERROR, exe, set_errmsg (str "Recursive Include") s)
      else
        let exe := set_executing (inode cur) true exe in
        h ← check_header (sdata cur) s;
        match h with
        | inl (code, s) => Ok (code, exe, s)
        | inr version =>
            eval_loop fuel' (sdata cur) (inode cur) version is_incl
              (BYTECODE_MAGIC_LEN / 4 + 1) exe s
        end
  end
(** [for (ip++; ip < ip_max; ) { switch(op) ... if (res) break; }] and [done]. *)
with eval_loop (fuel : nat) (bc : bytes) (ino version : Z) (is_incl : bool) (ip : Z)
    (exe : sieve_execute) (s : estate) : result (Z * sieve_execute * estate) :=
  match fuel with
  | O => Fault OutOfFuel
  | S fuel' =>
      let done res exe s := Ok (res, set_executing ino false exe, s) in
      if ip <? blen bc / 4 then
        st ← eval_op fuel' is_incl version bc ip s;
        match st with
        | Return code s => Ok (code, exe, s)
        | Done res s => done res exe s
        | Next res ip s =>
            if res =? 0 then eval_loop fuel' bc ino version is_incl ip exe s else done res exe s
        | Include isglobal data ip s =>
            let '(res, fpath) := getinclude data isglobal in
            let s := if res =? SIEVE_OK then s
                     else set_errmsg (str "Include can not find script") s in
            if negb (res =? 0) then done res exe s
            else
              let '(res, exe) := sieve_script_load fpath exe in
              if negb (res =? 0) then
                done res exe (set_errmsg (str "Include can not load script") s)
              else
                '(res, exe, s) ← sieve_eval_bc fuel' exe true s;
                if res =? 0 then eval_loop fuel' bc ino version is_incl ip exe s
                else done res exe s
        end
      else done 0 exe s
  end.
End Eval.
