(* ===== verification/SieveSemantics.v ===== *)
(** * SieveSemantics: what a script means, on its syntax tree

    The reference semantics the compiled scripts are proved to have: tests and
    commands are run on the tree [sieve/tree.h] describes, with no bytecode, no
    instruction pointer and no jumps.  A script that is included is whatever
    [run_incl] makes of it. *)
From stdpp Require Import gmap.
From S2P Require Import Prelude CMem SieveTree SieveComparator SieveMessage SieveGenerate.
From S2P Require Import SieveCode SieveEval.
#[local] Open Scope Z_scope.

(** The iterator over a list of strings. *)
Fixpoint for_list (sl : list (option bytes)) : iterator := λ S cond body s,
  match sl with
  | [] => Ok s
  | x :: sl' => if cond s then s ← body x s; for_list sl' S cond body s else Ok s
  end.

Section Semantics.
Context `{I : Interp}.

Definition strings (sl : list bytes) : iterator := for_list (map Some sl).

(** The code of a matching test on the words of its tree. *)
Definition tree_matcher (ct rel : token) (c : bytes) : option matcher :=
  lookup_matcher (word (comptag_value ct)) (relation_value rel) (word (comparator_value c)).

Definition tree_header (ct rel : token) (c : bytes) (sl pl : list bytes) (m : message) : result Z :=
  match tree_matcher ct rel c with
  | None => Ok SIEVE_RUN_ERROR
  | Some mt => s ← header_test mt (strings sl) (strings pl) m; Ok (res s)
  end.

Definition tree_address (address : bool) (ct rel : token) (c : bytes) (ap : token)
    (sl pl : list bytes) (m : message) : result Z :=
  match tree_matcher ct rel c with
  | None => Ok SIEVE_RUN_ERROR
  | Some mt =>
      match addrpart_of (word (addrpart_value ap)) with
      | None => Ok SIEVE_RUN_ERROR
      | Some part => s ← address_test address mt part (strings sl) (strings pl) m; Ok (res s)
      end
  end.

Definition tree_body (ct rel : token) (c : bytes) (tr : token) (types pl : list bytes)
    (m : message) (cache : body_cache) : result (Z * body_cache) :=
  match tree_matcher ct rel c with
  | None => Ok (SIEVE_RUN_ERROR, cache)
  | Some mt =>
      r ← body_test mt (word (transform_value tr)) (map Some types) (strings pl) m cache;
      match r with
      | None => Ok (SIEVE_RUN_ERROR, cache)
      | Some (s, cache) => Ok (res s, cache)
      end
  end.

(** The value of a test: 0, 1 or a negative error. *)
Fixpoint test_sem (m : message) (t : test) (cache : body_cache) : result (Z * body_cache) :=
  match t with
  | SFALSE => Ok (0, cache)
  | STRUE => Ok (1, cache)
  | NOT t =>
      '(res, cache) ← test_sem m t cache;
      Ok (if 0 <=? res then b2z (res =? 0) else res, cache)
  | SIZE tag n =>
      match getsize m with
      | None => Ok (0, cache)
      | Some s => Ok (if decide (tag = OVER) then b2z (n <? s) else b2z (s <? n), cache)
      end
  | EXISTS sl => res ← exists_test (strings sl) m; Ok (res, cache)
  | ANYOF tl => anyof_sem m tl cache
  | ALLOF tl => allof_sem m tl cache
  | HEADER ct rel c sl pl => res ← tree_header ct rel c sl pl m; Ok (res, cache)
  | ADDRESS ct rel c ap sl pl => res ← tree_address true ct rel c ap sl pl m; Ok (res, cache)
  | ENVELOPE ct rel c ap sl pl => res ← tree_address false ct rel c ap sl pl m; Ok (res, cache)
  | BODY ct rel c tr _ types pl => tree_body ct rel c tr types pl m cache
  | TEST_OTHER _ => Ok (SIEVE_RUN_ERROR, cache)
  end
with anyof_sem (m : message) (tl : testlist) (cache : body_cache) : result (Z * body_cache) :=
  match tl with
  | TLnil => Ok (0, cache)
  | TLcons t next =>
      '(res, cache) ← test_sem m t cache;
      if res <? 0 then Ok (res, cache)
      else if res =? 0 then anyof_sem m next cache else Ok (1, cache)
  end
with allof_sem (m : message) (tl : testlist) (cache : body_cache) : result (Z * body_cache) :=
  match tl with
  | TLnil => Ok (1, cache)
  | TLcons t next =>
      '(res, cache) ← test_sem m t cache;
      if res <? 0 then Ok (res, cache)
      else if res =? 0 then Ok (0, cache) else allof_sem m next cache
  end.

(** ** Commands *)

(** Where control goes after a command: on to the next one, out of the script
    with a result, or out of the interpreter with an error that leaves the
    script marked as executing. *)
Inductive flow := Go | Halt (res : Z) | Bail (code : Z).

Definition flow_of (res : Z) : flow := if res =? 0 then Go else Halt res.

Definition act (msg : bytes) (d : action_list → result (Z * action_list)) (s : estate)
    : result (flow * estate) :=
  '(res, s) ← run_action msg d s; Ok (flow_of res, s).

(** The flags of addflag, removeflag and the rest of setflag. *)
Fixpoint flags_sem (msg : bytes) (d : action_list → option bytes → result (Z * action_list))
    (sl : list bytes) (res : Z) (s : estate) : result (Z * estate) :=
  match sl with
  | [] => Ok (res, s)
  | f :: sl' =>
      '(res, s) ← run_action msg (λ a, d a (Some f)) s;
      flags_sem msg d sl' res s
  end.

Definition setflag_sem (sl : list bytes) (s : estate) : result (Z * estate) :=
  match sl with
  | [] => Ok (0, s)
  | f :: sl' =>
      '(res, s) ← run_action (str "setflag can not be used with Reject")
                    (λ a, do_setflag a (Some f)) s;
      if res =? SIEVE_RUN_ERROR then Ok (res, s)
      else flags_sem (str "setflag can not be used with Reject") do_addflag sl' res s
  end.

Definition denotify_sem (ct rel : token) (pat : option bytes) (priority : token) (s : estate)
    : result (Z * estate) :=
  match priority_of (word (priority_value priority)) with
  | None => Ok (SIEVE_RUN_ERROR, s)
  | Some priority =>
      let comparator := word (denotify_comptag_value ct) in
      let '(comp, comprock) :=
        if comparator =? tag_num B_ANY then (None, None)
        else lookup_comp regexec (tag_num B_ASCIICASEMAP) comparator (relation_value rel) in
      if comparator =? tag_num B_REGEX then
        pat ← nonnull pat;
        match regcomp pat (Ctag true) with
        | None => Ok (SIEVE_RUN_ERROR, s)
        | Some reg =>
            '(res, n) ← do_denotify (e_notify s) comp (Preg reg) comprock (Some priority);
            Ok (res, set_notify n s)
        end
      else
        '(res, n) ← do_denotify (e_notify s) comp (Pstr (from_option (λ p, p ++ [0]) [] pat))
          comprock (Some priority);
        Ok (res, set_notify n s)
  end.

Definition vacation_sem (addrs : list bytes) (subject message : option bytes) (days mime : Z)
    (from handle : option bytes) (s : estate) : result (Z * estate) :=
  '(respond, fromaddr, toaddr, m) ← shouldRespond (e_m s) (strings addrs);
  let s := set_m m s in
  if respond =? SIEVE_OK then
    run_action (str "Vacation can not be used with Reject or Vacation")
      (λ a, do_vacation md5 a toaddr (if from is Some _ then from else fromaddr)
              (Some (vacation_subject m subject)) message days mime handle) s
  else Ok (if respond =? SIEVE_DONE then 0 else SIEVE_RUN_ERROR, s).

(** Commands other than [IF] and [INCLUDE]. *)
Definition simple_sem (is_incl : bool) (c : command) (s : estate) : result (flow * estate) :=
  match c with
  | STOP => Ok (Halt 1, s)
  | RETURN => Ok (Halt (if is_incl then 0 else 1), s)
  | KEEP => act (str "Keep can not be used with Reject") do_keep s
  | DISCARD => '(res, a) ← do_discard (e_actions s); Ok (flow_of res, set_actions a s)
  | REJCT msg => act (str "Reject can not be used with any other action")
                   (λ a, do_reject a (Some msg)) s
  | FILEINTO copy f => act fileinto_msg (λ a, do_fileinto a (Some f) (copy =? 0)) s
  | REDIRECT copy a => act redirect_msg (λ l, do_redirect l (Some a) (copy =? 0)) s
  | MARK => '(res, a) ← do_mark (e_actions s); Ok (flow_of res, set_actions a s)
  | UNMARK => '(res, a) ← do_unmark (e_actions s); Ok (flow_of res, set_actions a s)
  | ADDFLAG sl =>
      '(res, s) ← flags_sem (str "addflag can not be used with Reject") do_addflag sl 0 s;
      Ok (flow_of res, s)
  | REMOVEFLAG sl =>
      '(res, s) ← flags_sem (str "removeflag can not be used with Reject") do_removeflag sl 0 s;
      Ok (flow_of res, s)
  | SETFLAG sl => '(res, s) ← setflag_sem sl s; Ok (flow_of res, s)
  | NOTIFY method id options priority message =>
      '(res, n) ← do_notify (e_notify s) id (Some method) (map Some options)
                    (priority_of (word (priority_value priority))) (Some message);
      Ok (flow_of res, set_notify n s)
  | DENOTIFY ct rel pat priority =>
      '(res, s) ← denotify_sem ct rel pat priority s; Ok (flow_of res, s)
  | VACATION addrs subject message days mime from handle =>
      '(res, s) ← vacation_sem addrs subject message days mime from handle s; Ok (flow_of res, s)
  | INCLUDE _ _ | IF _ _ _ | CMD_OTHER _ => Ok (Bail SIEVE_FAIL, s)
  end.

(** Running an included script, with [run_incl] for [sieve_eval_bc]. *)
Definition include_sem
    (run_incl : sieve_execute → estate → result (Z * sieve_execute * estate))
    (loc : token) (script : bytes) (exe : sieve_execute) (s : estate)
    : result (flow * sieve_execute * estate) :=
  let '(res, fpath) := getinclude script (word (location_value loc) =? tag_num B_GLOBAL) in
  if negb (res =? 0) then Ok (Halt res, exe, set_errmsg (str "Include can not find script") s)
  else
    let '(res, exe) := sieve_script_load fpath exe in
    if negb (res =? 0) then Ok (Halt res, exe, set_errmsg (str "Include can not load script") s)
    else '(res, exe, s) ← run_incl exe s; Ok (flow_of res, exe, s).

Section Commands.
Context (run_incl : sieve_execute → estate → result (Z * sieve_execute * estate)) (is_incl : bool).

Fixpoint cmd_sem (c : command) (exe : sieve_execute) (s : estate)
    : result (flow * sieve_execute * estate) :=
  match c with
  | INCLUDE loc script => include_sem run_incl loc script exe s
  | IF t th el =>
      '(r, cache) ← test_sem (e_m s) t (e_cache s);
      let s := set_cache cache s in
      if r <? 0 then Ok (Bail SIEVE_FAIL, exe, set_errmsg (str "Invalid test") s)
      else if r =? 0 then
        match el with CLnil => Ok (Go, exe, s) | _ => cl_sem el exe s end
      else cl_sem th exe s
  | _ => '(fl, s) ← simple_sem is_incl c s; Ok (fl, exe, s)
  end
with cl_sem (cl : commandlist) (exe : sieve_execute) (s : estate)
    : result (flow * sieve_execute * estate) :=
  match cl with
  | CLnil => Ok (Go, exe, s)
  | CLcons c next =>
      '(fl, exe, s) ← cmd_sem c exe s;
      match fl with Go => cl_sem next exe s | _ => Ok (fl, exe, s) end
  end.

(** A whole script, run as the current buffer of [exe]. *)
Definition script_sem (cmds : commandlist) (exe : sieve_execute) (s : estate)
    : result (Z * sieve_execute * estate) :=
  let ino := bc_cur exe in
  '(fl, exe, s) ← cl_sem cmds (set_executing ino true exe) s;
  match fl with
  | Go => Ok (0, set_executing ino false exe, s)
  | Halt res => Ok (res, set_executing ino false exe, s)
  | Bail code => Ok (code, exe, s)
  end.
End Commands.
End Semantics.
