(* ===== verification/SieveEvalProof.v ===== *)
(** * SieveEvalProof: compiled scripts mean what their trees mean

    The interpreter of [SieveEval], run on the bytes of [SieveCode], does what
    [SieveSemantics] says, for every script the bytecode has words for. *)
From stdpp Require Import gmap.
From Stdlib Require Import FunctionalExtensionality.
From S2P Require Import Prelude CMem SieveTree SieveComparator SieveMessage CFile SieveGenerate.
From S2P Require Import SieveCode SieveGenerateProof SieveEmitProof SieveEval SieveSemantics.
#[local] Open Scope Z_scope.

(** ** More fuel

    [a] is [b], or ran out of fuel. *)
Definition fuel_le {A} (a b : result A) : Prop := a = Fault OutOfFuel ∨ a = b.

Lemma fuel_le_refl {A} (a : result A) : fuel_le a a. Proof. by right. Qed.
Lemma fuel_le_out {A} (a : result A) : fuel_le (Fault OutOfFuel) a. Proof. by left. Qed.
Lemma fuel_le_trans {A} (a b c : result A) : fuel_le a b → fuel_le b c → fuel_le a c.
Proof. intros [-> | ->]; [by left|done]. Qed.
Lemma fuel_le_bind {A B} (m m' : result A) (k k' : A → result B) :
  fuel_le m m' → (∀ a, fuel_le (k a) (k' a)) → fuel_le (m ≫= k) (m' ≫= k').
Proof. intros [-> | ->] Hk; [by left|]. destruct m'; [apply Hk|by right]. Qed.

Create HintDb fuel.
#[export] Hint Resolve fuel_le_refl fuel_le_out : fuel.

(** Walk through two copies of a body. *)
Ltac fuel_step :=
  match goal with
  | |- fuel_le ?a ?a => apply fuel_le_refl
  | |- fuel_le (_ ≫= _) (_ ≫= _) => apply fuel_le_bind; [|intros ?]
  | |- fuel_le (match ?x with _ => _ end) (match ?x with _ => _ end) => destruct x
  | |- fuel_le (let '(_, _) := ?x in _) _ => destruct x
  end.

Section Fuel.
Context `{I : Interp}.

Lemma eval_bc_test_mono n :
  (∀ bc m cache i, fuel_le (eval_bc_test n bc m cache i) (eval_bc_test (S n) bc m cache i)) ∧
  (∀ bc m anyof cache i k res,
     fuel_le (testlist_loop n bc m anyof cache i k res) (testlist_loop (S n) bc m anyof cache i k res)).
Proof.
  induction n as [|n [IHt IHl]]; [split; intros; apply fuel_le_out|].
  split; intros.
  - cbn [eval_bc_test]. repeat fuel_step; auto.
  - cbn [testlist_loop]. repeat fuel_step; auto.
Qed.

Lemma eval_op_mono n is_incl version bc ip s :
  fuel_le (eval_op n is_incl version bc ip s) (eval_op (S n) is_incl version bc ip s).
Proof.
  unfold eval_op. fuel_step; [apply fuel_le_refl|]. fuel_step; [|apply fuel_le_refl].
  destruct b; try apply fuel_le_refl.
  repeat fuel_step. apply eval_bc_test_mono.
Qed.

Lemma sieve_eval_bc_mono_S n :
  (∀ exe is_incl s, fuel_le (sieve_eval_bc n exe is_incl s) (sieve_eval_bc (S n) exe is_incl s)) ∧
  (∀ bc ino version is_incl ip exe s,
     fuel_le (eval_loop n bc ino version is_incl ip exe s)
             (eval_loop (S n) bc ino version is_incl ip exe s)).
Proof.
  induction n as [|n [IHe IHl]]; [split; intros; apply fuel_le_out|].
  split; intros.
  - cbn [sieve_eval_bc]. repeat fuel_step; auto.
  - cbn [eval_loop]. fuel_step; [|apply fuel_le_refl].
    fuel_step; [apply eval_op_mono|]. repeat fuel_step; auto.
Qed.

Lemma sieve_eval_bc_mono n n' exe is_incl s :
  (n ≤ n')%nat → fuel_le (sieve_eval_bc n exe is_incl s) (sieve_eval_bc n' exe is_incl s).
Proof.
  induction 1 as [|n' _ IH]; [apply fuel_le_refl|].
  eapply fuel_le_trans; [exact IH|apply sieve_eval_bc_mono_S].
Qed.
End Fuel.

(** ** Reading what was emitted *)

Lemma bcw_be32 bc i v : is_s32 v → bytes_at bc (4 * i) (be32 v) → bcw bc i = Ok v.
Proof.
  intros Hv H. unfold bcw. rewrite (rd32_be32 _ _ _ H). cbn. by rewrite to_s32_u32, to_s32_small.
Qed.

Lemma bcu_be32 bc i v : is_u32 v → bytes_at bc (4 * i) (be32 v) → bcu bc i = Ok v.
Proof. intros Hv H. unfold bcu. by rewrite (rd32_be32 _ _ _ H), to_u32_small. Qed.

(** [aligned bs]: [bs] is a whole number of words, [wlen bs]. *)
Definition wlen (bs : bytes) : Z := blen bs / 4.
Definition aligned (bs : bytes) : Prop := blen bs = 4 * wlen bs.

Lemma aligned_intro bs n : blen bs = 4 * n → aligned bs.
Proof. unfold aligned, wlen. intros ->. rewrite Z.mul_comm, Z.div_mul by lia. lia. Qed.
Lemma aligned_app a b : aligned a → aligned b → aligned (a ++ b).
Proof. intros Ha Hb. apply (aligned_intro _ (wlen a + wlen b)). rewrite blen_app, Ha, Hb. lia. Qed.
Lemma aligned_be32 v : aligned (be32 v). Proof. done. Qed.
Lemma aligned_nil : aligned []. Proof. done. Qed.
Lemma wlen_app a b : aligned a → aligned b → wlen (a ++ b) = wlen a + wlen b.
Proof. intros Ha Hb. pose proof (aligned_app _ _ Ha Hb) as H. unfold aligned in *. rewrite blen_app in H. lia. Qed.
Lemma wlen_be32 v : wlen (be32 v) = 1. Proof. done. Qed.
Lemma wlen_nonneg bs : 0 ≤ wlen bs.
Proof. unfold wlen. apply Z.div_pos; [apply blen_nonneg|lia]. Qed.

Lemma aligned_str s : aligned (str_bytes s).
Proof.
  apply (aligned_intro _ (2 + blen s / 4)). rewrite blen_str_bytes.
  pose proof (Z.div_mod (blen s) 4 ltac:(lia)). lia.
Qed.
Lemma aligned_opt s : aligned (opt_bytes s).
Proof. destruct s; [apply aligned_str|done]. Qed.
Lemma aligned_strs sl : aligned (concat (map str_bytes sl)).
Proof. induction sl; [done|]. by apply aligned_app; [apply aligned_str|]. Qed.
Lemma aligned_words ws : aligned (words_bytes ws).
Proof. induction ws; [done|]. by apply (aligned_app (be32 _)). Qed.
Lemma aligned_sl pos sl : aligned (sl_bytes pos sl).
Proof. unfold sl_bytes. repeat apply aligned_app; try done. apply aligned_strs. Qed.

Create HintDb aligned.
#[export] Hint Resolve aligned_app aligned_be32 aligned_nil aligned_str aligned_opt aligned_strs
  aligned_words aligned_sl : aligned.

Lemma aligned_test_tl :
  (∀ t pos, aligned (test_bytes pos t)) ∧ (∀ tl pos, aligned (tl_bytes pos tl)).
Proof.
  apply test_testlist_ind; intros; cbn [test_bytes tl_bytes]; unfold match_bytes; auto with aligned.
  all: repeat apply aligned_app; auto with aligned.
Qed.
Lemma aligned_test t pos : aligned (test_bytes pos t). Proof. apply aligned_test_tl. Qed.
Lemma aligned_tl tl pos : aligned (tl_bytes pos tl). Proof. apply aligned_test_tl. Qed.

Lemma aligned_params ps : ∀ pos, aligned (params_bytes pos ps).
Proof.
  induction ps as [|p ps IH]; intros pos; cbn [params_bytes]; [done|].
  apply aligned_app; [|apply IH]. destruct p; cbn [param_bytes]; auto with aligned.
Qed.
#[export] Hint Resolve aligned_test aligned_tl aligned_params : aligned.

Lemma aligned_cmd_cl :
  (∀ c pos, aligned (cmd_bytes pos c)) ∧ (∀ cl pos, aligned (cl_bytes pos cl)).
Proof.
  apply command_commandlist_ind; intros; cbn [cmd_bytes cl_bytes]; unfold simple_bytes;
    auto with aligned.
  - destruct do_else; repeat apply aligned_app; auto with aligned.
  - destruct next; auto with aligned.
Qed.
Lemma aligned_cmd c pos : aligned (cmd_bytes pos c). Proof. apply aligned_cmd_cl. Qed.
Lemma aligned_cl cl pos : aligned (cl_bytes pos cl). Proof. apply aligned_cmd_cl. Qed.
#[export] Hint Resolve aligned_cmd aligned_cl : aligned.

Lemma wlen_str s : wlen (str_bytes s) = 2 + blen s / 4.
Proof.
  pose proof (aligned_str s) as H. unfold aligned in H. rewrite blen_str_bytes in H.
  pose proof (Z.div_mod (blen s) 4 ltac:(lia)). lia.
Qed.

Lemma blen_strs_ge sl : 8 * Z.of_nat (length sl) <= 2 * blen (concat (map str_bytes sl)).
Proof.
  induction sl as [|s sl IH]; [done|]. cbn [map concat length]. rewrite blen_app, blen_str_bytes.
  pose proof (blen_nonneg s). pose proof (Z.mod_pos_bound (blen s) 4 ltac:(lia)). lia.
Qed.

Lemma wlen_sl pos sl : wlen (sl_bytes pos sl) = 2 + wlen (concat (map str_bytes sl)).
Proof. unfold sl_bytes. rewrite !wlen_app by auto with aligned. rewrite !wlen_be32. lia. Qed.

(** Split [H] at the first word. *)
Lemma bytes_at_word bc i v rest :
  bytes_at bc (4 * i) (be32 v ++ rest) →
  bytes_at bc (4 * i) (be32 v) ∧ bytes_at bc (4 * (i + 1)) rest.
Proof. intros [H1 H2]%bytes_at_app. by replace (4 * (i + 1)) with (4 * i + blen (be32 v)) by (rewrite blen_be32; lia). Qed.

Lemma bytes_at_split bc i a rest :
  aligned a → bytes_at bc (4 * i) (a ++ rest) →
  bytes_at bc (4 * i) a ∧ bytes_at bc (4 * (i + wlen a)) rest.
Proof. intros Ha [H1 H2]%bytes_at_app. rewrite Ha in H2. by rewrite Z.mul_add_distr_l. Qed.


Section Read.
Context (bc : bytes) (Hbc : blen bc < 2147483648).
#[local] Set Default Proof Using "bc Hbc".

Lemma bytes_at_le off bs : bytes_at bc off bs → bs ≠ [] → 0 ≤ off ∧ off + blen bs < 2147483648.
Proof. intros H Hne. pose proof (bytes_at_blen _ _ _ H Hne). destruct H. lia. Qed.

Lemma unwrap_str i s :
  wf_str s → bytes_at bc (4 * i) (str_bytes s) →
  unwrap_string bc i = Ok (Some s, blen s, i + wlen (str_bytes s)).
Proof.
  intros [Hs Hl] H. pose proof (bytes_at_le _ _ H) as Hb. pose proof (blen_nonneg s).
  destruct Hb as [Hb0 Hb]; [by destruct s|]. rewrite blen_str_bytes in Hb.
  pose proof (Z.mod_pos_bound (blen s) 4 ltac:(lia)).
  unfold unwrap_string, str_bytes in *. apply bytes_at_word in H as [Hx Hy].
  rewrite (bcw_be32 _ _ (blen s)) by (done || unfold is_s32; lia). cbn [mbind result_bind].
  destruct (Z.eqb_spec (blen s) (-1)); [lia|].
  assert (∃ r, replicate (Z.to_nat (4 - blen s mod 4)) 0 = 0 :: r) as [r Hr].
  { destruct (Z.to_nat (4 - blen s mod 4)) eqn:E; [lia|]. by eexists. }
  rewrite Hr in Hy. rewrite (cstr_at_bytes _ _ s r) by done. cbn [mbind result_bind].
  rewrite ROUNDUP_spec by lia. replace (blen s + 1 + 3) with (blen s + 1 * 4) by lia.
  rewrite Z.div_add by lia. rewrite (Z.mul_comm 4), Z.div_mul by lia.
  fold (str_bytes s). rewrite wlen_str.
  pose proof (Z.div_pos (blen s) 4 ltac:(lia) ltac:(lia)).
  pose proof (Z.div_mod (blen s) 4 ltac:(lia)).
  rewrite to_s32_small by (unfold is_s32; lia). do 2 f_equal. lia.
Qed.

Lemma unwrap_opt i s :
  wf_opt s → bytes_at bc (4 * i) (opt_bytes s) →
  ∃ n, unwrap_string bc i = Ok (s, n, i + wlen (opt_bytes s)).
Proof.
  destruct s as [s|]; cbn [wf_opt from_option opt_bytes]; intros Hs H.
  - eexists. by apply unwrap_str.
  - unfold unwrap_string. rewrite (bcw_be32 _ _ (-1)) by done. cbn. by eexists.
Qed.

Lemma for_strings_list i sl :
  wf_sl sl → bytes_at bc (4 * i) (concat (map str_bytes sl)) →
  for_strings bc (length sl) i = for_list (map Some sl).
Proof.
  intros Hsl. revert i. induction Hsl as [|s sl Hs _ IH]; intros i H; [done|].
  cbn [map concat length for_strings for_list] in *.
  apply bytes_at_split in H as [H1 H2]; [|apply aligned_str].
  rewrite (unwrap_str _ _ Hs H1). cbn [mbind result_bind].
  by rewrite (IH _ H2).
Qed.

Lemma makeArray_list i sl :
  wf_sl sl → bytes_at bc (4 * i) (concat (map str_bytes sl)) →
  makeArray_loop bc (length sl) i = Ok (map Some sl, i + wlen (concat (map str_bytes sl))).
Proof.
  intros Hsl. revert i. induction Hsl as [|s sl Hs _ IH]; intros i H; cbn [map concat length makeArray_loop] in *.
  - by rewrite Z.add_0_r.
  - apply bytes_at_split in H as [H1 H2]; [|apply aligned_str].
    rewrite (unwrap_str _ _ Hs H1). cbn [mbind result_bind]. rewrite (IH _ H2). cbn [mbind result_bind].
    rewrite wlen_app by auto with aligned. by rewrite Z.add_assoc.
Qed.

(** A string list: its length, its end, its strings. *)
Lemma sl_at i pos sl :
  pos = 4 * i → wf_sl sl → bytes_at bc (4 * i) (sl_bytes pos sl) →
  bcw bc i = Ok (Z.of_nat (length sl)) ∧
  bcu bc (i + 1) = Ok (4 * (i + wlen (sl_bytes pos sl))) ∧
  for_strings bc (length sl) (i + 2) = strings sl ∧
  bc_makeArray bc i = Ok (map Some sl, i + wlen (sl_bytes pos sl)) ∧
  0 ≤ i ∧ 4 * (i + wlen (sl_bytes pos sl)) < 2147483648.
Proof.
  intros -> Hsl H. destruct (bytes_at_le _ _ H) as [H0 Hl]; [done|].
  pose proof (aligned_sl (4 * i) sl) as Ha. rewrite Ha in Hl.
  rewrite wlen_sl in *. unfold sl_bytes in *.
  pose proof (aligned_strs sl) as Hs. pose proof (blen_strs_ge sl). rewrite Hs in *.
  apply bytes_at_word in H as [Hw1 H2]. apply bytes_at_word in H2 as [Hw2 H3].
  set (n := wlen (concat (map str_bytes sl))) in *.
  assert (0 ≤ n) by apply wlen_nonneg.
  rewrite (bcw_be32 _ i (Z.of_nat (length sl))) by (done || unfold is_s32; lia).
  rewrite (bcu_be32 _ (i + 1) (4 * i + 8 + 4 * n)) by (done || unfold is_u32; lia).
  rewrite <- Z.add_assoc in H3. change (1 + 1) with 2 in H3.
  split_and!; try done; try lia.
  - f_equal. lia.
  - by apply for_strings_list.
  - unfold bc_makeArray.
    rewrite (bcw_be32 _ i (Z.of_nat (length sl))) by (done || unfold is_s32; lia).
    cbn [mbind result_bind]. destruct (Z.ltb_spec (Z.of_nat (length sl)) 0); [lia|].
    rewrite Nat2Z.id, (makeArray_list _ _ Hsl H3). do 2 f_equal. fold n. lia.
Qed.

Lemma word_end n : 0 ≤ n → 4 * n < 2147483648 → to_s32 (4 * n / 4) = n.
Proof. intros. rewrite Z.mul_comm, Z.div_mul by lia. apply to_s32_small. unfold is_s32. lia. Qed.

Lemma bc_lists_at i pos pos' sl pl rest :
  pos = 4 * i → pos' = 4 * (i + wlen (sl_bytes pos sl)) → wf_sl sl → wf_sl pl →
  bytes_at bc (4 * i) (sl_bytes pos sl ++ sl_bytes pos' pl ++ rest) →
  bc_lists bc i = Ok (strings sl, strings pl,
                      i + wlen (sl_bytes pos sl) + wlen (sl_bytes pos' pl)).
Proof.
  intros Hp Hp' Hsl Hpl H.
  apply bytes_at_split in H as [H1 H2]; [|apply aligned_sl].
  apply bytes_at_split in H2 as [H2 _]; [|apply aligned_sl].
  destruct (sl_at i pos sl Hp Hsl H1) as (A1 & A2 & A3 & _ & A5 & A6).
  destruct (sl_at _ pos' pl Hp' Hpl H2) as (B1 & B2 & B3 & _ & B5 & B6).
  pose proof (wlen_nonneg (sl_bytes pos sl)). pose proof (wlen_nonneg (sl_bytes pos' pl)).
  unfold bc_lists. rewrite A2. cbn [mbind result_bind]. rewrite word_end by lia.
  rewrite A1, B1, B2. cbn [mbind result_bind]. rewrite word_end by lia.
  by rewrite !Nat2Z.id, A3, B3.
Qed.
End Read.

(** ** [goto alldone] only with an error *)

Section Alldone.
Context `{I : Interp}.

Definition ms_ok (s : mstate) : Prop := alldone s = true → res s = -1.
Lemma ms_ok0 : ms_ok mstate0. Proof. intros [=]. Qed.

Lemma for_list_inv {S} (P : S → Prop) cond body sl s s' :
  (∀ x s s', P s → body x s = Ok s' → P s') → P s →
  for_list sl S cond body s = Ok s' → P s'.
Proof.
  intros Hb. revert s. induction sl as [|x sl IH]; intros s Hs; cbn [for_list]; [by intros [= <-]|].
  destruct (cond s); [|by intros [= <-]].
  intros (s1 & E & H)%bind_ok_inv. eauto.
Qed.

Lemma values_loop_inv {V} (P : mstate → Prop) (one : V → mstate → result mstate) val s s' :
  (∀ x s s', P s → one x s = Ok s' → P s') → P s → values_loop one val s = Ok s' → P s'.
Proof.
  intros Hb. revert s. induction val as [|x val IH]; intros s Hs; cbn [values_loop]; [by intros [= <-]|].
  destruct (nores s); [|by intros [= <-]].
  intros (s1 & E & H)%bind_ok_inv. eauto.
Qed.

Lemma ms_ok_lor s r : ms_ok s → ms_ok (MState (Z.lor (res s) r) (count s) (alldone s)).
Proof. intros H E. cbn in *. rewrite (H E). apply Z.lor_m1_l. Qed.

Lemma data_one_ok mt text tlen d s s' : ms_ok s → data_one mt text tlen d s = Ok s' → ms_ok s'.
Proof.
  intros Hs. unfold data_one. intros (v & _ & H)%bind_ok_inv. destruct (isReg mt).
  - destruct (regcomp _ _).
    + apply bind_ok_inv in H as (? & _ & [= <-]). by apply ms_ok_lor.
    + by injection H as <-.
  - apply bind_ok_inv in H as (? & _ & [= <-]). by apply ms_ok_lor.
Qed.

Lemma value_one_ok mt pl text tlen s s' :
  ms_ok s → value_one mt (strings pl) text tlen s = Ok s' → ms_ok s'.
Proof.
  intros Hs. unfold value_one. destruct (_ =? _); [by intros [= <-]|].
  intros H. eapply (for_list_inv ms_ok); [|exact Hs|exact H]. intros. by eapply data_one_ok.
Qed.

Lemma count_test_ok mt pl s s' : ms_ok s → count_test mt (strings pl) s = Ok s' → ms_ok s'.
Proof.
  intros Hs. unfold count_test. destruct (_ =? _); [|by intros [= <-]].
  intros (sc & _ & H)%bind_ok_inv. eapply (for_list_inv ms_ok); [|exact Hs|exact H].
  intros x s1 s2 H1 (d & _ & (r & _ & [= <-])%bind_ok_inv)%bind_ok_inv. by apply ms_ok_lor.
Qed.

Lemma header_test_ok mt sl pl m s : header_test mt (strings sl) (strings pl) m = Ok s → ms_ok s.
Proof.
  intros (s1 & H1 & H2)%bind_ok_inv. eapply count_test_ok; [|exact H2].
  eapply (for_list_inv ms_ok); [|exact ms_ok0|exact H1]. intros x s0 s0' H0 (h & _ & H)%bind_ok_inv.
  destruct (getheader m h); [|by injection H as <-].
  eapply (values_loop_inv ms_ok); [|exact H0|exact H]. intros ? ? ? Hs' E. eapply value_one_ok; [exact Hs'|exact E].
Qed.

Lemma address_loop_ok mt pl part v where_ s s' :
  ms_ok s → address_loop mt (strings pl) part v where_ s = Ok s' → ms_ok s'.
Proof.
  revert s. induction where_ as [|a next IH]; intros s Hs; cbn [address_loop];
    destruct (nores s); try by intros [= <-].
  case_match; [|by intros [= <-]]. intros (s1 & H1 & H2)%bind_ok_inv.
  eapply IH; [|exact H2]. destruct (isReg mt); (eapply value_one_ok; [exact Hs|exact H1]).
Qed.

Lemma address_test_ok b mt part sl pl m s :
  address_test b mt part (strings sl) (strings pl) m = Ok s → ms_ok s.
Proof.
  intros (s1 & H1 & H2)%bind_ok_inv. eapply count_test_ok; [|exact H2].
  eapply (for_list_inv ms_ok); [|exact ms_ok0|exact H1]. intros x s0 s0' H0 (h & _ & H)%bind_ok_inv.
  case_match; [|by injection H as <-].
  eapply (values_loop_inv ms_ok); [|exact H0|exact H]. intros ? ? ? Hs' E. eapply address_loop_ok; [exact Hs'|exact E].
Qed.

Lemma body_test_ok mt tr types pl m c s c' :
  body_test mt tr types (strings pl) m c = Ok (Some (s, c')) → ms_ok s.
Proof.
  unfold body_test. destruct (getbody m types) as [val|]; [|done].
  intros ([s1 c1] & H1 & (s2 & H2 & [= -> ->])%bind_ok_inv)%bind_ok_inv.
  eapply count_test_ok; [|exact H2]. pose proof ms_ok0 as H0.
  revert H0 H1. generalize mstate0. generalize c at 1.
  induction val as [|p val IH]; intros c2 s3 H0 H1; cbn [parts_loop] in H1; [by simplify_eq|].
  destruct (nores s3); [|by simplify_eq]. destruct (_ =? _); [eapply IH; [|exact H1]; exact H0|].
  apply bind_ok_inv in H1 as ([[ct sz] c3] & _ & H1). apply bind_ok_inv in H1 as (s4 & H3 & H4).
  eapply IH; [|exact H4]. eapply (for_list_inv ms_ok); [|exact H0|exact H3]. intros. by eapply data_one_ok.
Qed.
End Alldone.
