(* ===== verification/SieveSoundness.v ===== *)
(** * SieveSoundness: the interpreter on compiled tests and commands

    A test or a command whose reference bytes are at a place of the bytecode is
    evaluated there as [SieveSemantics] says, and control then goes where it
    should. *)
From stdpp Require Import gmap.
From S2P Require Import Prelude CMem SieveTree SieveComparator SieveMessage CFile SieveGenerate.
From S2P Require Import SieveCode SieveGenerateProof SieveEmitProof SieveEval SieveSemantics.
From S2P Require Import SieveEvalProof.
#[local] Open Scope Z_scope.

(** ** The words of the tree fit in an [int] *)

Lemma comptag_s32 t : is_s32 (word (comptag_value t)). Proof. by destruct t. Qed.
Lemma comparator_s32 c : is_s32 (word (comparator_value c)).
Proof. unfold comparator_value. by repeat case_decide. Qed.
Lemma addrpart_s32 t : is_s32 (word (addrpart_value t)). Proof. by destruct t. Qed.
Lemma transform_s32 t : is_s32 (word (transform_value t)). Proof. by destruct t. Qed.
Lemma priority_s32 t : is_s32 (word (priority_value t)). Proof. by destruct t. Qed.
Lemma denotify_s32 t : is_s32 (word (denotify_comptag_value t)). Proof. by destruct t. Qed.
Lemma location_s32 t : is_s32 (word (location_value t)). Proof. by destruct t. Qed.
Lemma relation_s32 r : is_s32 (relation_value r). Proof. by destruct r. Qed.

Create HintDb s32.
#[export] Hint Resolve comptag_s32 comparator_s32 addrpart_s32 transform_s32 priority_s32
  denotify_s32 location_s32 relation_s32 op_num_s32 comp_num_s32 tag_num_s32 : s32.

(** ** Fuel for tests *)
Fixpoint test_size (t : test) : nat :=
  match t with
  | NOT t => S (test_size t)
  | ANYOF tl | ALLOF tl => S (tl_size tl)
  | _ => 1
  end
with tl_size (tl : testlist) : nat :=
  match tl with
  | TLnil => 1
  | TLcons t next => S (test_size t + tl_size next)
  end.

Section Tests.
Context `{I : Interp} (bc : bytes) (Hbc : blen bc < 2147483648).
#[local] Set Default Proof Using "All".

Lemma words_at i ws rest :
  Forall is_s32 ws → bytes_at bc (4 * i) (words_bytes ws ++ rest) →
  (∀ k w, ws !! k = Some w → bcw bc (i + Z.of_nat k) = Ok w) ∧
  bytes_at bc (4 * (i + Z.of_nat (length ws))) rest.
Proof.
  intros Hws. revert i. induction Hws as [|w ws Hw _ IH]; intros i H.
  - rewrite Z.add_0_r. split; [by intros [|k]|done].
  - change (words_bytes (w :: ws)) with (be32 w ++ words_bytes ws) in H.
    rewrite <- app_assoc in H. apply bytes_at_word in H as [H1 H2].
    destruct (IH _ H2) as [IH1 IH2]. split.
    + intros [|k] w' E; cbn in E.
      * injection E as <-. rewrite Z.add_0_r. by apply bcw_be32.
      * rewrite <- (IH1 _ _ E). f_equal. lia.
    + cbn [length]. replace (i + Z.of_nat (S (length ws))) with (i + 1 + Z.of_nat (length ws)) by lia.
      done.
Qed.

(** What evaluating a test at [i] gives, when its value is [r] and it ends at
    [ip]. *)
Definition test_result (i ip : Z) (r : result (Z * body_cache))
    (e : result (Z * Z * body_cache)) : Prop :=
  match r with
  | Fault f => e = Fault f
  | Ok (v, c) => ∃ i', e = Ok (v, i', c) ∧ (0 ≤ v → i' = ip)
  end.

Lemma test_result_ms i ip s (m : result mstate) cache :
  (∀ s, m = Ok s → ms_ok s) → s = (s ← m; Ok (test_end s i ip, cache)) →
  test_result i ip (res ← (s ← m; Ok (res s)); Ok (res, cache)) s.
Proof.
  intros Hok ->. destruct m as [s|f]; [|done]. cbn. specialize (Hok s eq_refl).
  eexists. split; [done|]. intros H. destruct (alldone s) eqn:E; [|done].
  rewrite (Hok E) in H. lia.
Qed.

(** The words and lists of a header, address, envelope or body test. *)
Lemma match_at op i ws sl pl :
  Forall is_s32 ws → wf_sl sl → wf_sl pl →
  bytes_at bc (4 * i) (match_bytes op (4 * i) ws sl pl) →
  bcw bc i = Ok (comp_num op) ∧
  (∀ k w j, ws !! k = Some w → j = i + 1 + Z.of_nat k → bcw bc j = Ok w) ∧
  (∀ h, h = i + 1 + Z.of_nat (length ws) →
    bc_lists bc h = Ok (strings sl, strings pl, i + wlen (match_bytes op (4 * i) ws sl pl)) ∧
    ∃ ip, bc_makeArray bc h = Ok (map Some sl, ip)).
Proof.
  intros Hws Hsl Hpl H. unfold match_bytes in *.
  set (p := 4 * i + 4 + 4 * Z.of_nat (length ws)) in *.
  set (slb := sl_bytes p sl) in *.
  apply bytes_at_word in H as [H1 H2]. destruct (words_at _ _ _ Hws H2) as [H3 H4].
  split_and!.
  - by apply bcw_be32; [apply comp_num_s32|].
  - intros k w j E ->. by apply H3.
  - intros h ->. split; [|apply bytes_at_split in H4 as [H4 _]; [|apply aligned_sl]; eexists;
      apply (sl_at bc Hbc _ p sl); try done; unfold p; lia].
    rewrite <- (app_nil_r (sl_bytes (p + _) pl)) in H4.
    rewrite (bc_lists_at bc Hbc _ p (p + blen slb) sl pl []); try done.
    + do 2 f_equal. rewrite !wlen_app by eauto with aligned. rewrite wlen_be32.
      assert (wlen (words_bytes ws) = Z.of_nat (length ws)) as ->.
      { pose proof (aligned_words ws) as Ha. unfold aligned in Ha. rewrite blen_words_bytes in Ha. lia. }
      fold slb. lia.
    + unfold p. lia.
    + pose proof (aligned_sl p sl) as Ha. unfold aligned in Ha. fold slb. fold slb in Ha.
      rewrite Ha. unfold p. lia.
Qed.

Context (m : message) (Hsize : getsize m ≠ None).

Lemma test_at_op op i rest :
  bytes_at bc (4 * i) (be32 (comp_num op) ++ rest) →
  bcw bc i = Ok (comp_num op) ∧ bytes_at bc (4 * (i + 1)) rest.
Proof. intros [H1 H2]%bytes_at_word. split; [|done]. by apply bcw_be32; [apply comp_num_s32|]. Qed.

Ltac t_op H E := apply test_at_op in H as [E H]; cbn [eval_bc_test]; rewrite E;
  cbn [mbind result_bind]; rewrite comp_of_num.

(** Read the words of the test, from [H : ∀ k w j, ws !! k = Some w → ...]. *)
Ltac t_word H k :=
  match goal with
  | |- context [bcw bc ?j ≫= _] =>
      rewrite (H k _ j eq_refl) by lia; cbn [mbind result_bind]
  end.

Ltac s32s := repeat apply Forall_cons_2; auto using Forall_nil_2 with s32.

(** The opcode and the lists. *)
Ltac t_match op i ws sl pl h :=
  let E := fresh in let El := fresh in
  destruct (match_at op i ws sl pl) as (E & Ew & El); [s32s|auto|auto|auto|];
  destruct (El h) as [El' Ea]; [cbn [length app cmp_words]; lia|]; clear El;
  cbn [eval_bc_test]; rewrite E; clear E; cbn [mbind result_bind]; rewrite comp_of_num, El'; clear El';
  cbn [mbind result_bind].

Lemma test_header f ct rel c sl pl i cache :
  wf_test (HEADER ct rel c sl pl) →
  bytes_at bc (4 * i) (test_bytes (4 * i) (HEADER ct rel c sl pl)) →
  test_result i (i + wlen (test_bytes (4 * i) (HEADER ct rel c sl pl)))
    (test_sem m (HEADER ct rel c sl pl) cache) (eval_bc_test (S f) bc m cache i).
Proof.
  intros (_ & Hsl & Hpl) H. cbn [test_bytes test_sem match_words] in *.
  t_match BC_HEADER i (cmp_words ct rel c) sl pl (i + 4).
  t_word Ew 0%nat. t_word Ew 1%nat. t_word Ew 2%nat.
  unfold tree_header, tree_matcher. destruct (lookup_matcher _ _ _) as [mt|].
  - apply test_result_ms; [apply header_test_ok|done].
  - eexists; split; [done|]. by intros [].
Qed.

Lemma test_address f op ct rel c ap sl pl i cache t :
  t = ADDRESS ct rel c ap sl pl ∧ op = BC_ADDRESS ∨ t = ENVELOPE ct rel c ap sl pl ∧ op = BC_ENVELOPE →
  wf_test t → bytes_at bc (4 * i) (test_bytes (4 * i) t) →
  test_result i (i + wlen (test_bytes (4 * i) t)) (test_sem m t cache) (eval_bc_test (S f) bc m cache i).
Proof.
  intros [[-> ->]|[-> ->]] (_ & _ & Hsl & Hpl) H; cbn [test_bytes test_sem match_words] in *.
  - t_match BC_ADDRESS i (cmp_words ct rel c ++ [word (addrpart_value ap)]) sl pl (i + 5).
    t_word Ew 0%nat. t_word Ew 1%nat. t_word Ew 2%nat. t_word Ew 3%nat. rewrite Z.eqb_refl.
    unfold tree_address, tree_matcher. destruct (lookup_matcher _ _ _) as [mt|];
      [destruct (addrpart_of _) as [part|]|].
    + apply test_result_ms; [apply address_test_ok|done].
    + eexists; split; [done|]. by intros [].
    + eexists; split; [done|]. by intros [].
  - t_match BC_ENVELOPE i (cmp_words ct rel c ++ [word (addrpart_value ap)]) sl pl (i + 5).
    t_word Ew 0%nat. t_word Ew 1%nat. t_word Ew 2%nat. t_word Ew 3%nat.
    unfold tree_address, tree_matcher. destruct (lookup_matcher _ _ _) as [mt|];
      [destruct (addrpart_of _) as [part|]|].
    + apply test_result_ms; [apply address_test_ok|done].
    + eexists; split; [done|]. by intros [].
    + eexists; split; [done|]. by intros [].
Qed.

Lemma test_body f ct rel c tr off types pl i cache :
  wf_test (BODY ct rel c tr off types pl) →
  bytes_at bc (4 * i) (test_bytes (4 * i) (BODY ct rel c tr off types pl)) →
  test_result i (i + wlen (test_bytes (4 * i) (BODY ct rel c tr off types pl)))
    (test_sem m (BODY ct rel c tr off types pl) cache) (eval_bc_test (S f) bc m cache i).
Proof.
  intros (_ & _ & Hoff & Hsl & Hpl) H. cbn [test_bytes test_sem match_words] in *.
  t_match BC_BODY i (cmp_words ct rel c ++ [word (transform_value tr); off]) types pl (i + 6).
  t_word Ew 0%nat. t_word Ew 1%nat. t_word Ew 2%nat. t_word Ew 3%nat. t_word Ew 4%nat.
  unfold tree_body, tree_matcher. destruct (lookup_matcher _ _ _) as [mt|];
    [|by eexists; split; [done|]; intros []].
  destruct Ea as [ip' ->]. cbn [mbind result_bind].
  destruct (body_test _ _ _ _ _ _) as [[[s c']|]|e] eqn:E; cbn [mbind result_bind test_result]; [| |done].
  - eexists. split; [done|]. apply body_test_ok in E. intros Hr. destruct (alldone s) eqn:Ed; [|done].
    rewrite (E Ed) in Hr. lia.
  - eexists; split; [done|]. by intros [].
Qed.

(** The opcode, the length and the end of an allof or anyof. *)
Lemma list_test_at op i tl body :
  0 ≤ i → aligned body → is_s32 (tl_length tl) →
  bytes_at bc (4 * i) (be32 (comp_num op) ++ be32 (tl_length tl)
    ++ be32 (4 * i + 12 + blen body) ++ body) →
  bcw bc i = Ok (comp_num op) ∧ bcw bc (i + 1) = Ok (tl_length tl) ∧
  bcu bc (i + 2) = Ok (4 * (i + 3 + wlen body)) ∧ to_s32 (4 * (i + 3 + wlen body) / 4) = i + 3 + wlen body ∧
  bytes_at bc (4 * (i + 3)) body.
Proof.
  intros Hi Ha Hl H. destruct (bytes_at_le bc Hbc _ _ H) as [_ Hb]; [done|].
  rewrite !blen_app, !blen_be32 in Hb. unfold aligned in Ha. pose proof (wlen_nonneg body).
  apply test_at_op in H as [E1 H]. apply bytes_at_word in H as [H1 H]. apply bytes_at_word in H as [H2 H].
  rewrite <- !Z.add_assoc in H, H2. cbn [Z.add Pos.add] in H, H2.
  split_and!; auto.
  - by apply bcw_be32.
  - apply bcu_be32; [unfold is_u32; lia|].
    replace (4 * (i + 3 + wlen body)) with (4 * i + 12 + blen body) by lia.
    by rewrite <- Z.add_assoc.
  - apply (word_end bc Hbc); lia.
Qed.

Lemma tl_length_le tl : wf_testlist tl → ∀ pos, 4 * tl_length tl ≤ blen (tl_bytes pos tl).
Proof.
  induction tl as [|t tl IH]; intros Hwf pos; cbn [tl_length tl_bytes]; [blia|].
  destruct Hwf as [Ht Htl]. rewrite blen_app. specialize (IH Htl (pos + blen (test_bytes pos t))).
  assert (4 ≤ blen (test_bytes pos t)); [|lia].
  destruct t; try done; cbn [test_bytes]; unfold match_bytes; blia.
Qed.

Lemma eval_list_test f op t tl i cache :
  t = ANYOF tl ∧ op = BC_ANYOF ∨ t = ALLOF tl ∧ op = BC_ALLOF → wf_testlist tl → 0 ≤ i →
  (∀ i cache, 0 ≤ i → bytes_at bc (4 * i) (tl_bytes (4 * i) tl) →
     testlist_loop f bc m true cache i (Z.to_nat (tl_length tl)) 0 = anyof_sem m tl cache ∧
     testlist_loop f bc m false cache i (Z.to_nat (tl_length tl)) 1 = allof_sem m tl cache) →
  bytes_at bc (4 * i) (test_bytes (4 * i) t) →
  test_result i (i + wlen (test_bytes (4 * i) t)) (test_sem m t cache) (eval_bc_test (S f) bc m cache i).
Proof.
  intros Ht Hwf Hi IH H. set (body := tl_bytes (4 * i + 12) tl).
  assert (test_bytes (4 * i) t = be32 (comp_num op) ++ be32 (tl_length tl)
    ++ be32 (4 * i + 12 + blen body) ++ body) as Eb by (destruct Ht as [[-> ->]|[-> ->]]; done).
  rewrite Eb in *. destruct (bytes_at_le bc Hbc _ _ H) as [_ Hb]; [done|].
  rewrite !blen_app, !blen_be32 in Hb. pose proof (tl_length_le tl Hwf (4 * i + 12)).
  pose proof (tl_length_nonneg tl).
  destruct (list_test_at op i tl body) as (E1 & E2 & E3 & E4 & H5); auto.
  { apply aligned_tl. } { unfold is_s32, body in *. lia. }
  specialize (IH (i + 3) cache ltac:(lia)).
  replace (4 * (i + 3)) with (4 * i + 12) in * by lia. destruct (IH H5) as [Ha Hl].
  assert (i + wlen (be32 (comp_num op) ++ be32 (tl_length tl)
    ++ be32 (4 * i + 12 + blen body) ++ body) = i + 3 + wlen body) as ->.
  { unfold body. rewrite !wlen_app, !wlen_be32 by auto with aligned. lia. }
  cbn [eval_bc_test]. rewrite E1. cbn [mbind result_bind]. rewrite comp_of_num.
  destruct Ht as [[-> ->]|[-> ->]]; rewrite E2, E3; cbn [mbind result_bind]; rewrite E4;
    [rewrite Ha|rewrite Hl]; cbn [test_sem];
    match goal with |- context [?x ≫= _] => destruct x as [[v c]|] end; try done; by eexists.
Qed.

Lemma eval_test_testlist :
  (∀ t, wf_test t → ∀ f i cache, 0 ≤ i → (test_size t ≤ f)%nat →
     bytes_at bc (4 * i) (test_bytes (4 * i) t) →
     test_result i (i + wlen (test_bytes (4 * i) t)) (test_sem m t cache) (eval_bc_test f bc m cache i)) ∧
  (∀ tl, wf_testlist tl → ∀ f i cache, 0 ≤ i → (tl_size tl ≤ f)%nat →
     bytes_at bc (4 * i) (tl_bytes (4 * i) tl) →
     testlist_loop f bc m true cache i (Z.to_nat (tl_length tl)) 0 = anyof_sem m tl cache ∧
     testlist_loop f bc m false cache i (Z.to_nat (tl_length tl)) 1 = allof_sem m tl cache).
Proof.
  apply test_testlist_ind; cbn [built_test built_testlist].
  - intros _ [|f] i cache Hi Hf H; [cbn in Hf; lia|]. cbn [test_bytes] in *.
    rewrite <- (app_nil_r (be32 _)) in H. t_op H E. by eexists.
  - intros _ [|f] i cache Hi Hf H; [cbn in Hf; lia|]. cbn [test_bytes] in *.
    rewrite <- (app_nil_r (be32 _)) in H. t_op H E. by eexists.
  - intros t IH Hwf [|f] i cache Hi Hf H; [cbn in Hf; lia|]. cbn [test_bytes test_sem test_size] in *.
    t_op H E. replace (4 * i + 4) with (4 * (i + 1)) in * by lia.
    specialize (IH Hwf f (i + 1) cache ltac:(lia) ltac:(lia) H).
    destruct (test_sem m t cache) as [[v c]|e]; cbn [mbind result_bind test_result] in *; [|by rewrite IH].
    destruct IH as (i' & -> & Hi'). cbn [mbind result_bind]. eexists. split; [done|].
    intros Hv. rewrite wlen_app, wlen_be32, Z.add_assoc by auto with aligned. apply Hi'.
    destruct (Z.leb_spec 0 v); lia.
  - intros tag n Hn [|f] i cache Hi Hf H; [cbn in Hf; lia|]. cbn [test_bytes test_sem] in *.
    t_op H E. rewrite <- (app_nil_r (words_bytes _)) in H.
    apply words_at in H as [Hw _]; [|unfold size_words; destruct (decide _); s32s].
    rewrite <- (Z.add_0_r (i + 1)). change 0 with (Z.of_nat 0). rewrite (Hw 0%nat _ eq_refl).
    replace (i + 2) with (i + 1 + Z.of_nat 1) by lia. cbn [mbind result_bind].
    rewrite (Hw 1%nat _ eq_refl). cbn [mbind result_bind].
    destruct (getsize m) as [sz|]; [|done]. eexists. split; [|done].
    by destruct (decide (tag = OVER)).
  - intros sl Hsl [|f] i cache Hi Hf H; [cbn in Hf; lia|]. cbn [test_bytes test_sem] in *.
    t_op H E. destruct (sl_at bc Hbc (i + 1) (4 * i + 4) sl) as (A1 & A2 & A3 & _ & A5 & A6);
      [lia|done|done|].
    rewrite A1. replace (i + 2) with (i + 1 + 1) by lia. rewrite A2. cbn [mbind result_bind].
    rewrite Nat2Z.id. replace (i + 3) with (i + 1 + 2) by lia. rewrite A3.
    pose proof (wlen_nonneg (sl_bytes (4 * i + 4) sl)).
    destruct (exists_test _ m) as [r|]; cbn [mbind result_bind test_result]; [|done].
    eexists; split; [done|]. intros _. rewrite (word_end bc Hbc) by lia.
    rewrite wlen_app, wlen_be32 by auto with aligned. lia.
  - intros tl IH Hwf [|f] i cache Hi Hf H; [cbn in Hf; lia|]. cbn [test_size] in Hf.
    eapply eval_list_test; [by left|done|done| |done]. intros. apply IH; auto; lia.
  - intros tl IH Hwf [|f] i cache Hi Hf H; [cbn in Hf; lia|]. cbn [test_size] in Hf.
    eapply eval_list_test; [by right|done|done| |done]. intros. apply IH; auto; lia.
  - intros ct rel c sl pl Hwf [|f] i cache Hi Hf H; [cbn in Hf; lia|]. by apply test_header.
  - intros ct rel c ap sl pl Hwf [|f] i cache Hi Hf H; [cbn in Hf; lia|].
    eapply test_address; [left|..]; done.
  - intros ct rel c ap sl pl Hwf [|f] i cache Hi Hf H; [cbn in Hf; lia|].
    eapply test_address; [right|..]; done.
  - intros ct rel c tr off types pl Hwf [|f] i cache Hi Hf H; [cbn in Hf; lia|]. by apply test_body.
  - done.
  - intros _ [|f] i cache Hi Hf H; [cbn in Hf; lia|]. done.
  - intros t IHt tl IHtl [Ht Htl] [|f] i cache Hi Hf H; [cbn in Hf; lia|].
    cbn [tl_length tl_bytes tl_size anyof_sem allof_sem] in *.
    pose proof (tl_length_nonneg tl).
    replace (Z.to_nat (1 + tl_length tl)) with (S (Z.to_nat (tl_length tl))) by lia.
    apply bytes_at_split in H as [H1 H2]; [|apply aligned_test].
    specialize (IHt Ht f i cache Hi ltac:(lia) H1).
    pose proof (wlen_nonneg (test_bytes (4 * i) t)).
    rewrite (aligned_test t (4 * i)), <- Z.mul_add_distr_l in H2.
    set (i2 := i + wlen (test_bytes (4 * i) t)) in *.
    assert (1 ≤ tl_size tl)%nat by (destruct tl; cbn; lia).
    cbn [testlist_loop]. destruct (test_sem m t cache) as [[v c]|e]; cbn [test_result] in IHt.
    2: { rewrite IHt. done. }
    destruct IHt as (i' & -> & Hi'). cbn [mbind result_bind eqb Z.eqb].
    destruct (Z.ltb_spec v 0); [done|]. rewrite (Hi' ltac:(lia)).
    destruct f as [|f]; [lia|]. specialize (IHtl Htl (S f) i2 c ltac:(unfold i2; lia) ltac:(lia) H2).
    destruct (Z.eqb_spec v 0) as [->|Hv]; cbn [negb b2z].
    + split; [apply IHtl|]. cbn [testlist_loop]. by destruct (Z.to_nat (tl_length tl)).
    + split; [|apply IHtl]. cbn [testlist_loop]. by destruct (Z.to_nat (tl_length tl)).
Qed.

Lemma eval_test t f i cache :
  wf_test t → 0 ≤ i → (test_size t ≤ f)%nat → bytes_at bc (4 * i) (test_bytes (4 * i) t) →
  test_result i (i + wlen (test_bytes (4 * i) t)) (test_sem m t cache) (eval_bc_test f bc m cache i).
Proof. intros. by apply eval_test_testlist. Qed.
End Tests.
