(* ===== verification/SieveCorrect.v ===== *)
(** * SieveCorrect: compiled scripts run as their trees

    The commands, the control flow, and the whole interpreter, on the bytes of
    a script. *)
From stdpp Require Import gmap.
From S2P Require Import Prelude CMem SieveTree SieveComparator SieveMessage CFile SieveGenerate.
From S2P Require Import SieveEmit SieveCode SieveGenerateProof SieveEmitProof SieveEval.
From S2P Require Import SieveSemantics SieveEvalProof SieveSoundness.
#[local] Open Scope Z_scope.

Section Ops.
Context `{I : Interp} (bc : bytes) (Hbc : blen bc < 2147483648) (is_incl : bool).
#[local] Set Default Proof Using "All".

(** What the switch does for a command that ends at [ip] and means [r]. *)
Definition op_result (ip : Z) (r : result (flow * estate)) (e : result step) : Prop :=
  match r with
  | Fault f => e = Fault f
  | Ok (Go, s) => e = Ok (Next 0 ip s)
  | Ok (Halt v, s) => (v ≠ 0 ∧ ∃ ip', e = Ok (Next v ip' s)) ∨ e = Ok (Done v s)
  | Ok (Bail c, s) => e = Ok (Return c s)
  end.

Lemma op_result_flow ip (m : result (Z * estate)) :
  op_result ip ('(res, s) ← m; Ok (flow_of res, s)) ('(res, s) ← m; Ok (Next res ip s)).
Proof.
  destruct m as [[res s]|]; [|done]. cbn. unfold flow_of. destruct (Z.eqb_spec res 0) as [->|]; cbn; eauto.
Qed.

Lemma op_result_eq ip r e e' : e = e' → op_result ip r e' → op_result ip r e.
Proof. by intros ->. Qed.

(** The opcode of a command. *)
Lemma cmd_at_op op i rest :
  bytes_at bc (4 * i) (be32 (op_num op) ++ rest) →
  bcw bc i = Ok (op_num op) ∧ bytes_at bc (4 * (i + 1)) rest.
Proof. intros [H1 H2]%bytes_at_word. split; [|done]. by apply bcw_be32; [apply op_num_s32|]. Qed.

Lemma flags_at msg d i sl res s :
  wf_sl sl → bytes_at bc (4 * i) (concat (map str_bytes sl)) →
  flags_loop bc msg d (length sl) i res s =
    ('(res, s) ← flags_sem msg d sl res s; Ok (res, i + wlen (concat (map str_bytes sl)), s)).
Proof.
  intros Hsl. revert i res s. induction Hsl as [|f sl Hf _ IH]; intros i res s H; cbn [flags_loop flags_sem map concat length] in *.
  - by rewrite Z.add_0_r.
  - apply bytes_at_split in H as [H1 H2]; [|apply aligned_str].
    rewrite (unwrap_str bc Hbc _ _ Hf H1). cbn [mbind result_bind].
    destruct (run_action msg _ s) as [[r' s']|]; [|done]. cbn [mbind result_bind].
    rewrite (IH _ _ _ H2), wlen_app, Z.add_assoc by auto with aligned. done.
Qed.

Ltac c_op H E := apply cmd_at_op in H as [E H]; unfold eval_op; rewrite E;
  cbn [mbind result_bind]; rewrite op_of_num.

(** Read the string at the head of [H]. *)
Ltac c_str H Hs :=
  let H1 := fresh in
  apply bytes_at_split in H as [H1 H]; [|apply aligned_str];
  rewrite (unwrap_str bc Hbc _ _ Hs H1); clear H1; cbn [mbind result_bind].
Ltac c_opt H Hs :=
  let H1 := fresh in let n := fresh "n" in let E := fresh in
  apply bytes_at_split in H as [H1 H]; [|apply aligned_opt];
  destruct (unwrap_opt bc Hbc _ _ Hs H1) as [n E]; rewrite E; clear H1 E; cbn [mbind result_bind].

Lemma wlen_op op ps pos : wlen (be32 op ++ params_bytes pos ps) = 1 + wlen (params_bytes pos ps).
Proof. by rewrite wlen_app, wlen_be32 by auto with aligned. Qed.

Ltac c_len := rewrite ?wlen_app, ?wlen_be32 by auto 20 with aligned; change (wlen []) with 0; lia.

Lemma op_flow ip ip' (m : result (Z * estate)) :
  ip = ip' → op_result ip ('(res, s) ← m; Ok (flow_of res, s)) ('(res, s) ← m; Ok (Next res ip' s)).
Proof. intros <-. apply op_result_flow. Qed.

(** The same for a case that hands [res] and [ip] on to [next_of]. *)
Lemma op_next ip ip' (m : result (Z * estate)) :
  ip = ip' → op_result ip ('(res, s) ← m; Ok (flow_of res, s))
               (next_of ('(res, s) ← m; Ok (res, ip', s))).
Proof. intros <-. pose proof (op_result_flow ip m) as H. unfold next_of. by destruct m as [[]|]. Qed.

Lemma op_copy_string f op c i copy s es :
  (c = FILEINTO copy s ∧ op = B_FILEINTO ∨ c = REDIRECT copy s ∧ op = B_REDIRECT) → wf_command c →
  bytes_at bc (4 * i) (cmd_bytes (4 * i) c) →
  op_result (i + wlen (cmd_bytes (4 * i) c)) (simple_sem is_incl c es) (eval_op f is_incl 5 bc i es).
Proof.
  intros [[-> ->]|[-> ->]] [Hc Hs] H; cbn [cmd_bytes] in *; unfold simple_bytes in *;
    cbn [command_op command_params params_bytes param_bytes] in *; c_op H E;
    apply bytes_at_word in H as [H1 H]; rewrite (bcw_be32 _ _ _ Hc H1); cbn [mbind result_bind];
    replace (i + 1 + 1) with (i + 2) in H by lia; c_str H Hs; apply op_flow; c_len.
Qed.

Lemma op_reject f i s es :
  wf_str s → bytes_at bc (4 * i) (cmd_bytes (4 * i) (REJCT s)) →
  op_result (i + wlen (cmd_bytes (4 * i) (REJCT s))) (simple_sem is_incl (REJCT s) es)
    (eval_op f is_incl 5 bc i es).
Proof.
  intros Hs H; cbn [cmd_bytes] in *; unfold simple_bytes in *.
  cbn [command_op command_params params_bytes param_bytes] in *. c_op H E. c_str H Hs.
  apply op_flow. c_len.
Qed.

(** The list of a flag command. *)
Lemma flag_list_at op i sl :
  wf_sl sl → bytes_at bc (4 * i) (be32 (op_num op) ++ sl_bytes (4 * i + 4) sl ++ []) →
  bcw bc i = Ok (op_num op) ∧ bcw bc (i + 1) = Ok (Z.of_nat (length sl)) ∧
  bytes_at bc (4 * (i + 3)) (concat (map str_bytes sl)).
Proof.
  intros Hsl H. rewrite app_nil_r in H. apply cmd_at_op in H as [E H].
  destruct (sl_at bc Hbc (i + 1) (4 * i + 4) sl) as (A & _); [lia|done|done|].
  split_and!; [done|done|]. unfold sl_bytes in H.
  apply bytes_at_word in H as [_ H]. apply bytes_at_word in H as [_ H].
  by replace (i + 3) with (i + 1 + 1 + 1) by lia.
Qed.

Lemma op_flags f op c i sl es :
  (c = ADDFLAG sl ∧ op = B_ADDFLAG ∨ c = REMOVEFLAG sl ∧ op = B_REMOVEFLAG) → wf_sl sl →
  bytes_at bc (4 * i) (cmd_bytes (4 * i) c) →
  op_result (i + wlen (cmd_bytes (4 * i) c)) (simple_sem is_incl c es) (eval_op f is_incl 5 bc i es).
Proof.
  intros [[-> ->]|[-> ->]] Hs H; cbn [cmd_bytes] in *; unfold simple_bytes in *;
    cbn [command_op command_params params_bytes param_bytes] in *;
    apply flag_list_at in H as (E & El & H); auto; unfold eval_op; rewrite E;
    cbn [mbind result_bind]; rewrite op_of_num, El; cbn [mbind result_bind];
    rewrite Nat2Z.id, (flags_at _ _ _ _ _ _ Hs H); apply op_next;
    rewrite !wlen_app, wlen_sl by eauto with aligned; rewrite wlen_be32; change (wlen []) with 0; lia.
Qed.

Lemma op_setflag f i sl es :
  wf_sl sl → sl ≠ [] → bytes_at bc (4 * i) (cmd_bytes (4 * i) (SETFLAG sl)) →
  op_result (i + wlen (cmd_bytes (4 * i) (SETFLAG sl))) (simple_sem is_incl (SETFLAG sl) es)
    (eval_op f is_incl 5 bc i es).
Proof.
  intros Hs Hne H; cbn [cmd_bytes] in *; unfold simple_bytes in *.
  cbn [command_op command_params params_bytes param_bytes] in *.
  apply flag_list_at in H as (E & El & H); auto. unfold eval_op. rewrite E.
  cbn [mbind result_bind]. rewrite op_of_num, El. cbn [mbind result_bind].
  destruct sl as [|x sl]; [done|]. apply Forall_cons in Hs as [Hx Hs].
  cbn [map concat length] in *. c_str H Hx. cbn [simple_sem setflag_sem].
  destruct (run_action _ _ es) as [[res s]|]; [|done]. cbn [mbind result_bind].
  destruct (Z.eqb_spec res SIEVE_RUN_ERROR) as [->|].
  { cbn. left. split; [done|]. by eexists. }
  replace (Z.to_nat (Z.of_nat (S (length sl)) - 1)) with (length sl) by lia.
  rewrite (flags_at _ _ _ _ _ _ Hs H). apply op_next.
  rewrite !wlen_app, wlen_sl by eauto with aligned. cbn [map concat].
  rewrite wlen_app, wlen_be32 by auto with aligned. change (wlen []) with 0. lia.
Qed.

Lemma op_notify f i method id options priority message es :
  wf_command (NOTIFY method id options priority message) →
  bytes_at bc (4 * i) (cmd_bytes (4 * i) (NOTIFY method id options priority message)) →
  op_result (i + wlen (cmd_bytes (4 * i) (NOTIFY method id options priority message)))
    (simple_sem is_incl (NOTIFY method id options priority message) es)
    (eval_op f is_incl 5 bc i es).
Proof.
  intros (Hm & Hi & Ho & _ & Hmsg) H. cbn [cmd_bytes] in *. unfold simple_bytes in *.
  cbn [command_op command_params params_bytes param_bytes] in *. c_op H E.
  unfold eval_notify. change (wf_opt (Some method)) in Hm. c_opt H Hm. c_opt H Hi.
  set (j := i + 1 + wlen (opt_bytes (Some method)) + wlen (opt_bytes id)) in *.
  assert (Hp : 4 * i + 4 + blen (opt_bytes (Some method)) + blen (opt_bytes id) = 4 * j).
  { rewrite (aligned_opt (Some method)), (aligned_opt id). unfold j. lia. }
  rewrite Hp in *. set (slb := sl_bytes (4 * j) options) in *.
  apply bytes_at_split in H as [H1 H]; [|apply aligned_sl].
  destruct (sl_at bc Hbc j (4 * j) options) as (_ & _ & _ & Ea & _); [done|done|done|].
  rewrite Ea. cbn [mbind result_bind]. fold slb.
  apply bytes_at_word in H as [H2 H]. rewrite (bcw_be32 _ _ _ (priority_s32 _) H2). cbn [mbind result_bind].
  c_str H Hmsg. cbn [simple_sem].
  destruct (do_notify _ _ _ _ _ _) as [[res n']|]; [|done]. cbn [mbind result_bind next_of].
  apply (op_flow _ _ (Ok (res, set_notify n' es))). unfold slb, j. c_len.
Qed.

Lemma op_denotify f i ct rel pat priority es :
  wf_command (DENOTIFY ct rel pat priority) →
  bytes_at bc (4 * i) (cmd_bytes (4 * i) (DENOTIFY ct rel pat priority)) →
  op_result (i + wlen (cmd_bytes (4 * i) (DENOTIFY ct rel pat priority)))
    (simple_sem is_incl (DENOTIFY ct rel pat priority) es) (eval_op f is_incl 5 bc i es).
Proof.
  intros (_ & Hpat & _) H. cbn [cmd_bytes] in *. unfold simple_bytes in *.
  cbn [command_op command_params params_bytes param_bytes] in *. c_op H E. unfold eval_denotify.
  apply bytes_at_word in H as [H1 H]. rewrite (bcw_be32 _ _ _ (priority_s32 _) H1). cbn [mbind result_bind].
  replace (i + 2) with (i + 1 + 1) by lia.
  apply bytes_at_word in H as [H2 H]. rewrite (bcw_be32 _ _ _ (denotify_s32 _) H2).
  apply bytes_at_word in H as [H3 H]. pose proof (bcw_be32 _ _ _ (relation_s32 _) H3) as Er.
  replace (i + 1 + 1 + 2) with (i + 1 + 1 + 1 + 1) by lia. cbn [simple_sem]. unfold denotify_sem.
  destruct (priority_of _) as [p|]; cbn [mbind result_bind].
  2: { cbn. left. split; [done|]. by eexists. }
  rewrite Er. cbn [mbind result_bind]. set (cmp := word (denotify_comptag_value ct)).
  set (cr := if cmp =? tag_num B_ANY then (None, None) else _).
  match goal with |- context [next_of (?m ≫= _)] => replace m with (Ok (A := _ * _) cr) end.
  2: { unfold cr. by destruct (cmp =? _). }
  destruct cr as [comp rock]. cbn [mbind result_bind].
  c_opt H Hpat.
  assert (i + wlen (be32 (op_num B_DENOTIFY) ++ be32 (word (priority_value priority)) ++
    be32 cmp ++ be32 (relation_value rel) ++ opt_bytes pat ++ [])
    = i + 1 + 1 + 1 + 1 + wlen (opt_bytes pat)) as -> by c_len.
  destruct (cmp =? tag_num B_REGEX); [destruct pat as [pat|]; [|done]; cbn [nonnull mbind result_bind];
    destruct (regcomp pat _) as [reg|]; [|left; split; [done|]; by eexists]|];
    (destruct (do_denotify _ _ _ _ _) as [[res nl]|]; [|done]; cbn [mbind result_bind next_of];
     by apply (op_flow _ _ (Ok (res, set_notify nl es)))).
Qed.

Lemma op_vacation f i addrs subject msg days mime from handle es :
  wf_command (VACATION addrs subject msg days mime from handle) →
  bytes_at bc (4 * i) (cmd_bytes (4 * i) (VACATION addrs subject msg days mime from handle)) →
  op_result (i + wlen (cmd_bytes (4 * i) (VACATION addrs subject msg days mime from handle)))
    (simple_sem is_incl (VACATION addrs subject msg days mime from handle) es)
    (eval_op f is_incl 5 bc i es).
Proof.
  intros (Ha & Hs & Hm & Hd & Hmi & Hf & Hh) H. cbn [cmd_bytes] in *. unfold simple_bytes in *.
  cbn [command_op command_params params_bytes param_bytes] in *. c_op H E. unfold eval_vacation.
  replace (4 * i + 4) with (4 * (i + 1)) in * by lia. set (slb := sl_bytes (4 * (i + 1)) addrs) in *.
  apply bytes_at_split in H as [H1 H]; [|apply aligned_sl].
  destruct (sl_at bc Hbc (i + 1) (4 * (i + 1)) addrs) as (A1 & A2 & A3 & _ & A5 & A6); [done|done|done|].
  fold slb in A2, A6. pose proof (wlen_nonneg slb).
  rewrite A1. replace (i + 2) with (i + 1 + 1) by lia. rewrite A2. cbn [mbind result_bind].
  replace (i + 3) with (i + 1 + 2) by lia. rewrite Nat2Z.id, A3.
  cbn [simple_sem]. unfold vacation_sem.
  destruct (shouldRespond _ _) as [[[[respond fromaddr] toaddr] m']|]; [|done]. cbn [mbind result_bind].
  rewrite (word_end bc Hbc) by lia.
  set (ip0 := i + 1 + wlen slb) in *.
  assert (∀ m, op_result (i + wlen (be32 (op_num B_VACATION) ++ slb ++ opt_bytes subject
    ++ opt_bytes msg ++ be32 days ++ be32 mime ++ opt_bytes from ++ opt_bytes handle ++ []))
    ('(res, s) ← m; Ok (flow_of res, s))
    (next_of ('(res, s) ← m; Ok (res, ip0 + wlen (opt_bytes subject) + wlen (opt_bytes msg) + 2
       + wlen (opt_bytes from) + wlen (opt_bytes handle), s)))) as Hend.
  { intros m. apply op_next. unfold ip0. assert (aligned slb) by apply aligned_sl. c_len. }
  destruct (Z.eqb_spec respond SIEVE_OK).
  - c_opt H Hs. c_opt H Hm.
    apply bytes_at_word in H as [H2 H]. rewrite (bcw_be32 _ _ _ Hd H2).
    apply bytes_at_word in H as [H3 H]. rewrite (bcw_be32 _ _ _ Hmi H3). cbn [mbind result_bind].
    cbn [Z.leb Z.compare Pos.compare Pos.compare_cont].
    match type of H with bytes_at _ (4 * ?x) _ => replace x with
      (ip0 + wlen (opt_bytes subject) + wlen (opt_bytes msg) + 2) in H by lia end.
    c_opt H Hf. c_opt H Hh. apply Hend.
  - destruct (Z.eqb_spec respond SIEVE_DONE).
    + c_opt H Hs. c_opt H Hm.
      apply bytes_at_word in H as [_ H]. apply bytes_at_word in H as [_ H].
      cbn [Z.leb Z.compare Pos.compare Pos.compare_cont].
      match type of H with bytes_at _ (4 * ?x) _ => replace x with
        (ip0 + wlen (opt_bytes subject) + wlen (opt_bytes msg) + 2) in H by lia end.
      c_opt H Hf. c_opt H Hh. apply (Hend (Ok (0, set_m m' es))).
    + left. split; [done|]. by eexists.
Qed.

(** Every command but [IF] and [INCLUDE]. *)
Lemma op_simple f c i es :
  wf_command c → (∀ t th el, c ≠ IF t th el) → (∀ l s, c ≠ INCLUDE l s) →
  bytes_at bc (4 * i) (cmd_bytes (4 * i) c) →
  op_result (i + wlen (cmd_bytes (4 * i) c)) (simple_sem is_incl c es) (eval_op f is_incl 5 bc i es).
Proof.
  intros Hwf Hif Hinc H. destruct c; try done.
  17: by destruct (Hif t do_then do_else).
  16: by destruct (Hinc location script).
  all: cbn [built_command] in Hwf; repeat match goal with H : _ ∧ _ |- _ => destruct H end.
  8-9: by eapply op_copy_string; eauto; split.
  1-6: cbn [cmd_bytes] in *; unfold simple_bytes in *; cbn [command_op command_params params_bytes] in *;
    c_op H E; rewrite app_nil_r, wlen_be32.
  - left. split; [done|]. by eexists.
  - cbn [simple_sem]. destruct (do_discard _) as [[res a]|]; [|done]. cbn [mbind result_bind].
    by apply (op_flow _ _ (Ok (res, set_actions a es))).
  - by apply op_flow.
  - cbn [simple_sem]. destruct (do_mark _) as [[res a]|]; [|done]. cbn [mbind result_bind].
    by apply (op_flow _ _ (Ok (res, set_actions a es))).
  - cbn [simple_sem]. destruct (do_unmark _) as [[res a]|]; [|done]. cbn [mbind result_bind].
    by apply (op_flow _ _ (Ok (res, set_actions a es))).
  - destruct is_incl; [by right|]. left. split; [done|]. by eexists.
  - by apply op_reject.
  - by eapply op_flags; eauto.
  - by apply op_setflag.
  - by eapply op_flags; eauto.
  - by apply op_notify.
  - by apply op_denotify.
  - by apply op_vacation.
Qed.
End Ops.

(** ** Control flow *)

(** Fuel for the loop: a pass per instruction, and the tests. *)
Fixpoint cmd_size (c : command) : nat :=
  match c with
  | IF t th el => 3 + test_size t + cl_size th + cl_size el
  | _ => 1
  end
with cl_size (cl : commandlist) : nat :=
  match cl with
  | CLnil => 1
  | CLcons c next => cmd_size c + cl_size next
  end.

(** Scripts that include no other. *)
Fixpoint no_include (c : command) : Prop :=
  match c with
  | INCLUDE _ _ => False
  | IF _ th el => no_includes th ∧ no_includes el
  | _ => True
  end
with no_includes (cl : commandlist) : Prop :=
  match cl with
  | CLnil => True
  | CLcons c next => no_include c ∧ no_includes next
  end.

(** The results are related by [R]: equality for scripts without includes,
    [fuel_le] for the others ([inc]). *)
Lemma blen_cmd_ge c pos : wf_command c → 4 ≤ blen (cmd_bytes pos c).
Proof.
  intros H. destruct c; try done; cbn [cmd_bytes]; unfold simple_bytes; try blia.
  destruct do_else; blia.
Qed.

Lemma div4 a n : a = 4 * n → a / 4 = n.
Proof. intros ->. rewrite Z.mul_comm. apply Z.div_mul. lia. Qed.

Section Script.
Context `{I : Interp} (Hsize : ∀ m, getsize m ≠ None).
Context (bc : bytes) (Hbc : blen bc < 2147483648) (ino : Z) (is_incl : bool).
Context (run_incl : sieve_execute → estate → result (Z * sieve_execute * estate)) (N : nat).
Context (inc : Prop) (R : relation (result (Z * sieve_execute * estate))) (Rrefl : ∀ a, R a a).
Context (Hrun : inc → ∀ fuel exe s k k', (N ≤ fuel)%nat → (∀ a, R (k a) (k' a)) →
  R (run_incl exe s ≫= k) (sieve_eval_bc fuel exe true s ≫= k')).
#[local] Set Default Proof Using "All".

Abbreviation kont := (sieve_execute → estate → result (Z * sieve_execute * estate)).

(** What the interpreter makes of the outcome of some commands, when [K] is
    what follows them. *)
Definition finish (K : kont) (r : result (flow * sieve_execute * estate))
    : result (Z * sieve_execute * estate) :=
  '(fl, exe, s) ← r;
  match fl with
  | Go => K exe s
  | Halt res => Ok (res, set_executing ino false exe, s)
  | Bail code => Ok (code, exe, s)
  end.

Abbreviation loop := (λ fuel i exe s, eval_loop fuel bc ino 5 is_incl i exe s).

(** [K] is the loop at [i], given [n] units of fuel. *)
Definition runs_to (n : nat) (i : Z) (K : kont) : Prop :=
  ∀ fuel exe s, (n ≤ fuel)%nat → R (K exe s) (loop fuel i exe s).

(** The code at [i] means [sem], ends at [i'] and needs [n] units of fuel. *)
Definition means (n : nat) (i i' : Z)
    (sem : sieve_execute → estate → result (flow * sieve_execute * estate)) : Prop :=
  ∀ k K, (N ≤ k)%nat → runs_to k i' K →
  ∀ fuel exe s, (k + n ≤ fuel)%nat → R (finish K (sem exe s)) (loop fuel i exe s).

Lemma means_mono n n' i i' sem : (n ≤ n')%nat → means n i i' sem → means n' i i' sem.
Proof. intros Hn H k K Hk HK fuel exe s Hf. eapply (H k); eauto. lia. Qed.

Lemma in_code i bs : bytes_at bc (4 * i) bs → 4 ≤ blen bs → (i <? blen bc / 4) = true.
Proof.
  intros H Hl. apply bytes_at_blen in H; [|by destruct bs].
  apply Z.ltb_lt. assert (i + 1 ≤ blen bc / 4); [|lia]. apply Z.div_le_lower_bound; lia.
Qed.

(** One pass of the loop whose instruction goes on to [i']. *)
Lemma loop_next k i i' exe s s' K bs fuel :
  bytes_at bc (4 * i) bs → 4 ≤ blen bs →
  (∀ f, (k ≤ f)%nat → eval_op f is_incl 5 bc i s = Ok (Next 0 i' s')) →
  runs_to k i' K → (k < fuel)%nat → R (K exe s') (loop fuel i exe s).
Proof.
  intros H Hl Hop HK Hf. destruct fuel as [|fuel]; [lia|]. cbn [eval_loop].
  rewrite (in_code _ _ H Hl), Hop by lia. cbn [mbind result_bind]. apply HK. lia.
Qed.

Lemma means_simple c i :
  wf_command c → (∀ t th el, c ≠ IF t th el) → (∀ l s, c ≠ INCLUDE l s) →
  bytes_at bc (4 * i) (cmd_bytes (4 * i) c) →
  means 1 i (i + wlen (cmd_bytes (4 * i) c))
    (λ exe s, '(fl, s) ← simple_sem is_incl c s; Ok (fl, exe, s)).
Proof.
  intros Hwf Hif Hinc H k K Hk HK fuel exe s Hf. destruct fuel as [|fuel]; [lia|]. cbn [eval_loop].
  rewrite (in_code _ _ H (blen_cmd_ge _ _ Hwf)).
  pose proof (op_simple bc Hbc is_incl fuel c i s Hwf Hif Hinc H) as Hop.
  destruct (simple_sem is_incl c s) as [[fl s']|e]; cbn [op_result] in Hop.
  2: { rewrite Hop. apply Rrefl. }
  unfold finish. cbn [mbind result_bind]. destruct fl as [|v|code].
  - rewrite Hop. cbn [mbind result_bind Z.eqb]. apply HK. lia.
  - destruct Hop as [[Hv [ip' ->]] | ->]; cbn [mbind result_bind]; [|apply Rrefl].
    destruct (Z.eqb_spec v 0); [done|]. apply Rrefl.
  - rewrite Hop. apply Rrefl.
Qed.

Lemma means_include l sc i :
  inc → wf_command (INCLUDE l sc) → bytes_at bc (4 * i) (cmd_bytes (4 * i) (INCLUDE l sc)) →
  means 1 i (i + wlen (cmd_bytes (4 * i) (INCLUDE l sc))) (include_sem run_incl l sc).
Proof.
  intros Hinc Hwf H k K Hk HK fuel exe s Hf. destruct fuel as [|fuel]; [lia|]. cbn [eval_loop].
  rewrite (in_code _ _ H (blen_cmd_ge _ _ Hwf)).
  destruct Hwf as [_ Hs]. cbn [cmd_bytes] in *. unfold simple_bytes in *.
  cbn [command_op command_params params_bytes param_bytes] in *.
  apply (cmd_at_op bc Hbc is_incl) in H as [E H]. unfold eval_op. rewrite E. cbn [mbind result_bind]. rewrite op_of_num.
  apply bytes_at_word in H as [H1 H]. rewrite (bcw_be32 _ _ _ (location_s32 _) H1). cbn [mbind result_bind].
  replace (i + 2) with (i + 1 + 1) by lia.
  apply bytes_at_split in H as [H2 _]; [|apply aligned_str].
  rewrite (unwrap_str bc Hbc _ _ Hs H2). cbn [mbind result_bind nonnull]. unfold include_sem.
  destruct (getinclude sc _) as [res fpath]. unfold SIEVE_OK.
  destruct (Z.eqb_spec res 0); cbn [negb]; [|apply Rrefl].
  destruct (sieve_script_load fpath exe) as [res2 exe2].
  destruct (Z.eqb_spec res2 0); cbn [negb]; [|apply Rrefl].
  replace (finish _ _) with (run_incl exe2 s ≫= λ '(r, exe, s), finish K (Ok (flow_of r, exe, s)))
    by (by destruct (run_incl exe2 s) as [[[]]|]).
  apply Hrun; [done|lia|]. intros [[r e'] s'].
  unfold finish. cbn [mbind result_bind]. unfold flow_of. destruct (r =? 0); [|apply Rrefl].
  match goal with |- R _ (eval_loop _ _ _ _ _ ?x _ _) =>
    replace x with (i + wlen (be32 (op_num B_INCLUDE) ++ be32 (word (location_value l))
      ++ str_bytes sc ++ [])) by (rewrite !wlen_app, !wlen_be32 by auto 20 with aligned;
      change (wlen []) with 0; lia) end.
  apply HK. lia.
Qed.

(** A jump. *)
Lemma loop_jump k i i' exe s K rest fuel :
  is_s32 i' → bytes_at bc (4 * i) (be32 (op_num B_JUMP) ++ be32 i' ++ rest) →
  runs_to k i' K → (k < fuel)%nat → R (K exe s) (loop fuel i exe s).
Proof.
  intros Hi H HK Hf. eapply loop_next; [exact H|blia| |exact HK|done].
  intros f _. unfold eval_op. apply (cmd_at_op bc Hbc is_incl) in H as [E H]. rewrite E.
  cbn [mbind result_bind]. rewrite op_of_num. apply bytes_at_word in H as [H _].
  by rewrite (bcw_be32 _ _ _ Hi H).
Qed.

(** The test of an [IF]: it falls on the jump at [te], or past it. *)
Lemma means_if n t i te after sem_then sem_else :
  wf_test t → 0 ≤ i → is_s32 te → te = i + 2 + wlen (test_bytes (4 * (i + 2)) t) →
  bytes_at bc (4 * i)
    (be32 (op_num B_IF) ++ be32 te ++ test_bytes (4 * (i + 2)) t) →
  means n (te + 2) after sem_then →
  means n te after sem_else →
  means (n + S (test_size t)) i after (λ exe s,
    '(r, cache) ← test_sem (e_m s) t (e_cache s);
    let s := set_cache cache s in
    if r <? 0 then Ok (Bail SIEVE_FAIL, exe, set_errmsg (str "Invalid test") s)
    else if r =? 0 then sem_else exe s else sem_then exe s).
Proof.
  intros Hwf Hi Hte Ete H Hth Hel k K Hk HK fuel exe s Hf. destruct fuel as [|fuel]; [lia|].
  cbn [eval_loop]. rewrite (in_code _ _ H) by blia. unfold eval_op.
  apply (cmd_at_op bc Hbc is_incl) in H as [E H]. rewrite E. cbn [mbind result_bind].
  rewrite op_of_num. apply bytes_at_word in H as [H1 H]. rewrite (bcw_be32 _ _ _ Hte H1).
  cbn [mbind result_bind]. replace (i + 1 + 1) with (i + 2) in H by lia.
  pose proof (eval_test bc Hbc (e_m s) (Hsize _) t fuel (i + 2) (e_cache s) Hwf ltac:(lia) ltac:(lia) H) as Ht.
  destruct (test_sem (e_m s) t (e_cache s)) as [[v c]|e]; cbn [test_result] in Ht.
  2: { rewrite Ht. apply Rrefl. }
  destruct Ht as (i' & -> & _). cbn [mbind result_bind].
  destruct (Z.ltb_spec v 0); [apply Rrefl|]. cbn [mbind result_bind Z.eqb].
  destruct (Z.eqb_spec v 0).
  - apply (Hel k); [done|done|lia].
  - apply (Hth k); [done|done|lia].
Qed.

(** A block and then what follows it. *)
Lemma means_seq n1 n2 i i1 i2 sem1 sem2 :
  means n1 i i1 sem1 → means n2 i1 i2 sem2 →
  means (n1 + n2) i i2 (λ exe s,
    '(fl, exe, s) ← sem1 exe s;
    match fl with Go => sem2 exe s | _ => Ok (fl, exe, s) end).
Proof.
  intros H1 H2 k K Hk HK fuel exe s Hf.
  assert (runs_to (k + n2) i1 (λ exe s, finish K (sem2 exe s))) as H2'.
  { intros fuel' exe' s' Hf'. by apply (H2 k). }
  pose proof (H1 (k + n2)%nat _ ltac:(lia) H2' fuel exe s ltac:(lia)) as H.
  replace (finish K _) with (finish (λ exe s, finish K (sem2 exe s)) (sem1 exe s)); [exact H|].
  by destruct (sem1 exe s) as [[[[] e'] s']|].
Qed.

(** A block followed by a jump to [after]. *)
Lemma means_then_jump n i j after sem rest :
  is_s32 after → bytes_at bc (4 * j) (be32 (op_num B_JUMP) ++ be32 after ++ rest) →
  means n i j sem → means (n + 1) i after sem.
Proof.
  intros Ha Hj H k K Hk HK fuel exe s Hf.
  apply (H (k + 1)%nat); [lia| |lia]. intros fuel' exe' s' Hf'.
  eapply loop_jump; [exact Ha|exact Hj|exact HK|lia].
Qed.

Lemma means_jump n i after target sem rest :
  is_s32 target → bytes_at bc (4 * i) (be32 (op_num B_JUMP) ++ be32 target ++ rest) →
  means n target after sem → means (n + 1) i after sem.
Proof.
  intros Ht Hj H k K Hk HK fuel exe s Hf.
  eapply (loop_jump (k + n) i target exe s (λ exe s, finish K (sem exe s)));
    [exact Ht|exact Hj| |lia].
  intros fuel' exe' s' Hf'. by apply (H k).
Qed.

(** Nothing. *)
Lemma means_nil i : means 0 i i (λ exe s, Ok (Go, exe, s)).
Proof. intros k K Hk HK fuel exe s Hf. apply HK. lia. Qed.

(** [means] with the code at [i] being the bytes of a command or a list. *)
Definition means_cmd (c : command) : Prop := ∀ i, 0 ≤ i →
  bytes_at bc (4 * i) (cmd_bytes (4 * i) c) →
  means (cmd_size c) i (i + wlen (cmd_bytes (4 * i) c)) (cmd_sem run_incl is_incl c).
Definition means_cl (cl : commandlist) : Prop := ∀ i, 0 ≤ i →
  bytes_at bc (4 * i) (cl_bytes (4 * i) cl) →
  means (cl_size cl) i (i + wlen (cl_bytes (4 * i) cl)) (cl_sem run_incl is_incl cl).

(** The bytes of an [IF], in words. *)
Lemma if_nil_bytes i t th :
  let tb := test_bytes (4 * (i + 2)) t in let te := i + 2 + wlen tb in
  let thb := cl_bytes (4 * (te + 2)) th in let after := te + 2 + wlen thb in
  cmd_bytes (4 * i) (IF t th CLnil) =
    be32 (op_num B_IF) ++ be32 te ++ tb ++ be32 (op_num B_JUMP) ++ be32 after ++ thb ∧
  wlen (cmd_bytes (4 * i) (IF t th CLnil)) = after - i.
Proof.
  intros tb te thb after.
  assert (cmd_bytes (4 * i) (IF t th CLnil) =
    be32 (op_num B_IF) ++ be32 te ++ tb ++ be32 (op_num B_JUMP) ++ be32 after ++ thb) as E.
  { cbn [cmd_bytes]. replace (4 * i + 8) with (4 * (i + 2)) by lia. fold tb.
    assert (4 * (i + 2) + blen tb = 4 * te) as -> by (unfold te; rewrite (aligned_test t (4 * (i + 2)) : blen tb = _); fold tb; lia).
    replace (4 * te + 8) with (4 * (te + 2)) by lia. fold thb.
    assert (4 * (te + 2) + blen thb = 4 * after) as ->
      by (unfold after; rewrite (aligned_cl th (4 * (te + 2)) : blen thb = _); fold thb; lia).
    by rewrite !(div4 _ _ eq_refl). }
  split; [exact E|]. rewrite E.
  rewrite !wlen_app, !wlen_be32 by (unfold tb, thb; auto 20 with aligned). unfold after, te. lia.
Qed.

Lemma if_else_bytes i t th el :
  el ≠ CLnil →
  let tb := test_bytes (4 * (i + 2)) t in let te := i + 2 + wlen tb in
  let thb := cl_bytes (4 * (te + 2)) th in let j := te + 2 + wlen thb in
  let elb := cl_bytes (4 * (j + 2)) el in let after := j + 2 + wlen elb in
  cmd_bytes (4 * i) (IF t th el) =
    be32 (op_num B_IF) ++ be32 te ++ tb ++ be32 (op_num B_JUMP) ++ be32 (j + 2) ++ thb
    ++ be32 (op_num B_JUMP) ++ be32 after ++ elb ∧
  wlen (cmd_bytes (4 * i) (IF t th el)) = after - i.
Proof.
  intros Hel tb te thb j elb after.
  assert (cmd_bytes (4 * i) (IF t th el) =
    be32 (op_num B_IF) ++ be32 te ++ tb ++ be32 (op_num B_JUMP) ++ be32 (j + 2) ++ thb
    ++ be32 (op_num B_JUMP) ++ be32 after ++ elb) as E.
  { cbn [cmd_bytes]. replace (4 * i + 8) with (4 * (i + 2)) by lia. fold tb.
    assert (4 * (i + 2) + blen tb = 4 * te) as -> by (unfold te; rewrite (aligned_test t (4 * (i + 2)) : blen tb = _); fold tb; lia).
    replace (4 * te + 8) with (4 * (te + 2)) by lia. fold thb.
    assert (4 * (te + 2) + blen thb = 4 * j) as ->
      by (unfold j; rewrite (aligned_cl th (4 * (te + 2)) : blen thb = _); fold thb; lia).
    replace (4 * j + 8) with (4 * (j + 2)) by lia. fold elb.
    assert (4 * (j + 2) + blen elb = 4 * after) as ->
      by (unfold after; rewrite (aligned_cl el (4 * (j + 2)) : blen elb = _); fold elb; lia).
    rewrite !(div4 _ _ eq_refl). by destruct el. }
  split; [exact E|]. rewrite E.
  rewrite !wlen_app, !wlen_be32 by (unfold tb, thb, elb; auto 20 with aligned). unfold after, j, te. lia.
Qed.

Lemma split3 i op te tb rest :
  aligned tb → bytes_at bc (4 * i) (be32 op ++ be32 te ++ tb ++ rest) →
  bytes_at bc (4 * i) (be32 op ++ be32 te ++ tb) ∧ bytes_at bc (4 * (i + 2 + wlen tb)) rest.
Proof.
  intros Ha H. rewrite (app_assoc (be32 te)), (app_assoc (be32 op)) in H.
  apply bytes_at_split in H as [H1 H2]; [|auto with aligned].
  rewrite !wlen_app, !wlen_be32 in H2 by auto with aligned.
  split; [done|]. replace (i + 2 + wlen tb) with (i + (1 + (1 + wlen tb))) by lia. done.
Qed.

Lemma means_if_nil t th :
  wf_test t → means_cl th → means_cmd (IF t th CLnil).
Proof.
  intros Ht Hth i Hi H. destruct (bytes_at_le bc Hbc _ _ H) as [_ Hb]; [done|].
  rewrite (aligned_cmd _ _) in Hb.
  destruct (if_nil_bytes i t th) as [E El]. rewrite El, E in *. clear E El.
  set (tb := test_bytes (4 * (i + 2)) t) in *. set (te := i + 2 + wlen tb) in *.
  set (thb := cl_bytes (4 * (te + 2)) th) in *. set (after := te + 2 + wlen thb) in *.
  pose proof (wlen_nonneg tb). pose proof (wlen_nonneg thb).
  apply split3 in H as [Hop Hj]; [|apply aligned_test]. fold te in Hj.
  assert (bytes_at bc (4 * (te + 2)) thb) as Hthb.
  { pose proof Hj as H2. apply bytes_at_word in H2 as [_ H2]. apply bytes_at_word in H2 as [_ H2].
    by replace (te + 2) with (te + 1 + 1) by lia. }
  replace (i + (after - i)) with after by lia.
  assert (is_s32 te ∧ is_s32 after) as [Hte Haf] by (unfold is_s32, after, te in *; lia).
  cbn [cmd_sem cmd_size cl_size].
  eapply means_mono; [|apply (means_if (cl_size th + 1) t i te after (cl_sem run_incl is_incl th)
    (λ exe s, Ok (Go, exe, s))); try done].
  - lia.
  - eapply means_mono; [|apply Hth; [unfold te; lia|exact Hthb]]. lia.
  - eapply means_mono; [|eapply (means_jump 0 te after after); [done|exact Hj|apply means_nil]]. lia.
Qed.

Lemma means_if_else t th el :
  wf_test t → el ≠ CLnil → means_cl th → means_cl el → means_cmd (IF t th el).
Proof.
  intros Ht Hne Hth Hel i Hi H. destruct (bytes_at_le bc Hbc _ _ H) as [_ Hb]; [by destruct el|].
  rewrite (aligned_cmd _ _) in Hb.
  destruct (if_else_bytes i t th el Hne) as [E El]. rewrite El, E in *. clear E El.
  set (tb := test_bytes (4 * (i + 2)) t) in *. set (te := i + 2 + wlen tb) in *.
  set (thb := cl_bytes (4 * (te + 2)) th) in *. set (j := te + 2 + wlen thb) in *.
  set (elb := cl_bytes (4 * (j + 2)) el) in *. set (after := j + 2 + wlen elb) in *.
  pose proof (wlen_nonneg tb). pose proof (wlen_nonneg thb). pose proof (wlen_nonneg elb).
  apply split3 in H as [Hop Hj]; [|apply aligned_test]. fold te in Hj.
  pose proof Hj as Hx. apply bytes_at_word in Hx as [_ Hx]. apply bytes_at_word in Hx as [_ Hx].
  replace (te + 1 + 1) with (te + 2) in Hx by lia.
  apply bytes_at_split in Hx as [Hthb Hj2]; [|apply aligned_cl]. fold j in Hj2.
  assert (bytes_at bc (4 * (j + 2)) elb) as Helb.
  { pose proof Hj2 as H3. apply bytes_at_word in H3 as [_ H3]. apply bytes_at_word in H3 as [_ H3].
    by replace (j + 2) with (j + 1 + 1) by lia. }
  replace (i + (after - i)) with after by lia.
  assert (is_s32 te ∧ is_s32 after ∧ is_s32 (j + 2)) as (Hte & Haf & Hj3)
    by (unfold is_s32, after, j, te in *; lia).
  assert (means (cl_size th + cl_size el + 2 + S (test_size t)) i after (λ exe s,
    '(r, cache) ← test_sem (e_m s) t (e_cache s);
    let s := set_cache cache s in
    if r <? 0 then Ok (Bail SIEVE_FAIL, exe, set_errmsg (str "Invalid test") s)
    else if r =? 0 then cl_sem run_incl is_incl el exe s
    else cl_sem run_incl is_incl th exe s)) as Hm.
  { apply (means_if _ t i te after); try done.
    - eapply means_mono; [|eapply means_then_jump; [exact Haf|exact Hj2|]]; [|apply Hth; [unfold te; lia|exact Hthb]]. lia.
    - eapply means_mono; [|eapply means_jump; [exact Hj3|exact Hj|]]; [|apply Hel; [unfold j, te; lia|exact Helb]]. lia. }
  cbn [cmd_sem cmd_size]. destruct el as [|c1 el]; [done|].
  eapply means_mono; [|exact Hm]. lia.
Qed.

Lemma means_command_list :
  (∀ c, wf_command c → inc ∨ no_include c → means_cmd c) ∧
  (∀ cl, wf_commandlist cl → inc ∨ no_includes cl → means_cl cl).
Proof.
  apply command_commandlist_ind; cbn [built_command built_commandlist no_include no_includes];
    try (intros; by intros ? ? ?; apply means_simple).
  - intros l sc Hwf [Hinc|[]] i Hi H. by apply means_include.
  - intros t th IHth el IHel (Ht & Hth & Hel) Hinc.
    assert ((inc ∨ no_includes th) ∧ (inc ∨ no_includes el)) as [Hi1 Hi2] by tauto.
    destruct el as [|c el]; [apply means_if_nil|apply means_if_else]; auto.
  - intros _ _ i Hi H k K Hk HK fuel exe s Hf. cbn [cl_bytes cl_sem cl_size] in *.
    eapply (loop_next k i _ exe s s K); [exact H|blia| |exact HK|lia].
    intros f _. unfold eval_op. rewrite <- (app_nil_r (be32 _)) in H.
    apply (cmd_at_op bc Hbc is_incl) in H as [E _]. rewrite E. cbn [mbind result_bind].
    by rewrite op_of_num.
  - intros c IHc next IHnext [Hc Hn] Hinc i Hi H.
    assert ((inc ∨ no_include c) ∧ (inc ∨ no_includes next)) as [Hi1 Hi2] by tauto.
    cbn [cl_sem cl_size cl_bytes] in *. destruct next as [|c' next].
    + eapply means_mono; [|eapply means_seq; [by apply IHc|apply means_nil]]. lia.
    + rewrite (aligned_cmd c (4 * i)), <- Z.mul_add_distr_l in *.
      apply bytes_at_split in H as [H1 H2]; [|apply aligned_cmd].
      pose proof (wlen_nonneg (cmd_bytes (4 * i) c)).
      rewrite wlen_app, Z.add_assoc by auto with aligned.
      eapply means_seq; [by apply IHc|]. apply IHnext; [done|done|lia|done].
Qed.
End Script.

(** ** Whole scripts *)

Lemma blen_cl_ge cmds pos : wf_commandlist cmds → 4 ≤ blen (cl_bytes pos cmds).
Proof.
  destruct cmds as [|c n]; [done|]. intros [Hc _]. pose proof (blen_cmd_ge c pos Hc).
  cbn [cl_bytes]. destruct n; blia.
Qed.

Lemma blen_script cmds : blen (script_bytes cmds) = 16 + blen (cl_bytes 16 cmds).
Proof. unfold script_bytes. rewrite app_assoc, blen_app. done. Qed.

Lemma script_at cmds :
  bytes_at (script_bytes cmds) (4 * 3) (be32 BYTECODE_VERSION) ∧
  bytes_at (script_bytes cmds) (4 * 4) (cl_bytes 16 cmds).
Proof.
  assert (bytes_at (script_bytes cmds) (4 * 0) (BYTECODE_MAGIC ++ be32 BYTECODE_VERSION ++ cl_bytes 16 cmds)) as H.
  { pose proof (bytes_at_here [] (script_bytes cmds) []) as H. by rewrite app_nil_r in H. }
  apply bytes_at_split in H as [_ H]; [|by vm_compute]. by apply bytes_at_word in H.
Qed.

Lemma check_header_script `{I : Interp} cmds s :
  wf_commandlist cmds → check_header (script_bytes cmds) s = Ok (inr 5).
Proof.
  intros Hwf. unfold check_header. pose proof (blen_cl_ge cmds 16 Hwf). rewrite blen_script.
  destruct (Z.ltb_spec (16 + blen (cl_bytes 16 cmds)) (BYTECODE_MAGIC_LEN + 8));
    [unfold BYTECODE_MAGIC_LEN in *; lia|].
  assert (take 12 (script_bytes cmds) = BYTECODE_MAGIC) as -> by done.
  destruct (script_at cmds) as [Hv _]. change (BYTECODE_MAGIC_LEN / 4) with 3.
  by rewrite (bcw_be32 _ 3 5).
Qed.

Section Whole.
Context `{I : Interp} (Hsize : ∀ m, getsize m ≠ None).
#[local] Set Default Proof Using "All".

(** A compiled script, up to a relation as in [Section Script]. *)
Lemma run_script run_incl N inc (R : relation (result (Z * sieve_execute * estate)))
    cmds exe is_incl s fuel :
  (∀ a, R a a) →
  (inc → ∀ fuel exe s k k', (N ≤ fuel)%nat → (∀ a, R (k a) (k' a)) →
     R (run_incl exe s ≫= k) (sieve_eval_bc fuel exe true s ≫= k')) →
  wf_commandlist cmds → inc ∨ no_includes cmds → blen (script_bytes cmds) < 2147483648 →
  find_bc exe (bc_cur exe) = Some (SBC (bc_cur exe) (script_bytes cmds) false) →
  (N + cl_size cmds + 2 ≤ fuel)%nat →
  R (script_sem run_incl is_incl cmds exe s) (sieve_eval_bc fuel exe is_incl s).
Proof.
  intros Hr Hrun Hwf Hinc Hb Hcur Hf. destruct fuel as [|fuel]; [lia|].
  cbn [sieve_eval_bc]. rewrite Hcur. cbn [nonnull mbind result_bind is_executing sdata inode].
  rewrite check_header_script by done. cbn [mbind result_bind].
  change (BYTECODE_MAGIC_LEN / 4 + 1) with 4.
  destruct (script_at cmds) as [_ Hat].
  pose proof (proj2 (means_command_list Hsize _ Hb (bc_cur exe) is_incl run_incl N inc R Hr Hrun)
    cmds Hwf Hinc 4 ltac:(lia) Hat (S N)
    (λ exe' s', Ok (0, set_executing (bc_cur exe) false exe', s'))) as H.
  eapply H; [lia| |lia]. intros fuel' exe' s' Hf'. destruct fuel' as [|fuel']; [lia|].
  cbn [eval_loop]. rewrite blen_script.
  destruct (Z.ltb_spec (4 + wlen (cl_bytes (4 * 4) cmds)) ((16 + blen (cl_bytes 16 cmds)) / 4)) as [Hlt|];
    [|apply Hr].
  rewrite (aligned_cl cmds 16), (div4 _ (4 + wlen (cl_bytes 16 cmds))) in Hlt by lia.
  change (4 * 4) with 16 in Hlt. lia.
Qed.
End Whole.

(** C4: for a script the bytecode has words for that includes no other, the
    interpreter run on the compiled bytes terminates and does exactly what the
    syntax tree means: the same result, the same actions and notifications in
    the same order, the same errors.  The jumps, list ends and padding the
    compiler laid out always bring it back to the next command. *)
Theorem sieve_eval_bc_compiled `{I : Interp} (cmds : commandlist) (exe : sieve_execute)
    (is_incl : bool) (s : estate) (fuel : nat)
    (run_incl : sieve_execute → estate → result (Z * sieve_execute * estate))
    (Hsize : ∀ m, getsize m ≠ None)
    (Hwf : wf_commandlist cmds) (Hni : no_includes cmds)
    (Hlen : blen (script_bytes cmds) < 2147483648)
    (Hcur : find_bc exe (bc_cur exe) = Some (SBC (bc_cur exe) (script_bytes cmds) false))
    (Hfuel : (cl_size cmds + 2 ≤ fuel)%nat) :
  sieve_eval_bc fuel exe is_incl s = script_sem run_incl is_incl cmds exe s.
Proof.
  symmetry. apply (run_script Hsize run_incl 0 False eq); auto; done.
Qed.

(** C3: from source to execution, for a script the parser builds with the comparators the
    compiler knows.  One with ":count" or ":value" in a [denotify] is refused, and no
    bytecode is written.  Compiling any other succeeds when the
    file has room; and evaluating the bytes it wrote as the current script, with
    any further scripts included along the way, gives what the syntax tree means
    (when the included scripts return within the fuel [N] they are given). *)
Theorem compile_script_correct (cmds : commandlist) (limit : Z)
    (Hknown : known_commandlist cmds)
    (Hroom : blen (script_bytes cmds) ≤ limit) (Hlimit : limit < 2147483648) :
  if refused_commandlist cmds then compile_script cmds limit = Ok (None, [])
  else ∃ n bc, compile_script cmds limit = Ok (Some n, bc) ∧ blen bc = 16 + n ∧
    ∀ (I : Interp) exe is_incl s N fuel,
      (∀ m, getsize m ≠ None) →
      find_bc exe (bc_cur exe) = Some (SBC (bc_cur exe) bc false) →
      (N + cl_size cmds + 2 ≤ fuel)%nat →
      fuel_le (script_sem (λ exe s, sieve_eval_bc N exe true s) is_incl cmds exe s)
              (sieve_eval_bc fuel exe is_incl s).
Proof.
  pose proof (compile_script_bytes cmds limit Hknown Hroom) as Hc.
  destruct (refused_commandlist cmds) eqn:Hr; [done|]. pose proof (proj2 (not_refused _ _) _ Hr Hknown).
  exists (blen (cl_bytes 16 cmds)), (script_bytes cmds). split; [done|]. split; [apply blen_script|].
  intros I exe is_incl s N fuel Hsize Hcur Hf.
  apply (run_script Hsize _ N True fuel_le); try done; [apply fuel_le_refl| |by left|lia].
  intros _ f e s' k k' Hf' Hk. apply fuel_le_bind; [by apply sieve_eval_bc_mono|done].
Qed.

(** ** A concrete interpreter: the message is its headers; no script is
    included and no regular expression compiles. *)
Definition demo_interp : Interp := {|
  regex := unit; regcomp _ _ := None; regexec _ _ := false;
  message := list (bytes * list bytes);
  getsize _ := Some 1000;
  getheader m h := snd <$> List.find (λ x, strcaseeq x.1 h) m;
  getenvelope _ _ := None; getbody _ _ := None; advance m _ _ := m;
  parseaddr_list _ := []; decode_mimebody b n _ := (b, n); md5 b := b;
  getinclude _ _ := (SIEVE_FAIL, []); stat _ := None; open_map _ := None |}.

Definition demo_exe : sieve_execute := Exe [SBC 7 (script_bytes demo_script) false] 7.
Definition demo_state : @estate demo_interp :=
  @EState demo_interp [(str "Subject", [str "Cheap Viagra"]); (str "To", [str "me@example.com"])]
    ∅ new_action_list new_notify_list None.

(** The demonstration script files the message and stops. *)
Example demo_eval :
  (λ r, r ≫= λ '(res, _, s), Ok (res, e_actions s)) (@sieve_eval_bc demo_interp 20 demo_exe false demo_state)
  = Ok (1, new_action_list ++ [Action (ACTION_FILEINTO (Some (str "INBOX.spam"))) true]).
Proof. vm_compute. reflexivity. Qed.

Lemma sieve_eval_bc_compiled_witness :
  @sieve_eval_bc demo_interp 20 demo_exe false demo_state =
  script_sem (λ _ _, Fault OutOfFuel) false demo_script demo_exe demo_state.
Proof.
  apply (@sieve_eval_bc_compiled demo_interp demo_script demo_exe false demo_state 20).
  - discriminate.
  - exact demo_script_wf.
  - repeat split.
  - vm_compute. reflexivity.
  - reflexivity.
  - cbn. lia.
Defined.

(** Scripts of a user: one that includes another, which is compiled, too; and one that is refused. *)
Definition including_script : commandlist :=
  CLcons (ADDFLAG [str "work"]) (CLcons (INCLUDE PERSONAL (str "spam")) (CLcons KEEP CLnil)).
Definition included_script : commandlist :=
  CLcons (IF (HEADER CONTAINS (TOK_OTHER 0) (str "i;ascii-casemap") [str "subject"] [str "viagra"])
             (CLcons (FILEINTO 1 (str "INBOX.spam")) (CLcons RETURN CLnil)) CLnil)
  (CLcons DISCARD CLnil).
Definition refused_script : commandlist := CLcons (DENOTIFY COUNT GE None ANY) (CLcons KEEP CLnil).

(** The interpreter finds the second one on disk. *)
Definition including_interp : Interp := {|
  regex := unit; regcomp _ _ := None; regexec _ _ := false;
  message := list (bytes * list bytes);
  getsize _ := Some 1000;
  getheader m h := snd <$> List.find (λ x, strcaseeq x.1 h) m;
  getenvelope _ _ := None; getbody _ _ := None; advance m _ _ := m;
  parseaddr_list _ := []; decode_mimebody b n _ := (b, n); md5 b := b;
  getinclude name global := if global then (SIEVE_FAIL, []) else (SIEVE_OK, str "/sieve/" ++ name ++ str ".bc");
  stat path := if streq path (str "/sieve/spam.bc") then Some 8 else None;
  open_map path := if streq path (str "/sieve/spam.bc") then Some (script_bytes included_script) else None |}.

Definition including_state : @estate including_interp :=
  @EState including_interp [(str "Subject", [str "Cheap Viagra"])] ∅ new_action_list new_notify_list None.

Lemma including_known : known_commandlist including_script.
Proof. repeat split; try (repeat constructor; done); by eexists. Qed.

Lemma refused_known : known_commandlist refused_script.
Proof. repeat split; try by eexists. by left. Qed.

Lemma compile_script_correct_witness :
  compile_script refused_script 1000 = Ok (None, []) ∧
  ∃ n bc, compile_script including_script 1000 = Ok (Some n, bc) ∧
    (r ← @sieve_eval_bc including_interp 100 (Exe [SBC 7 bc false] 7) false including_state;
     let '(res, _, s) := r in Ok (res, e_actions s))
    = Ok (0, new_action_list ++ [Action (ACTION_ADDFLAG (Some (str "work"))) false;
        Action (ACTION_FILEINTO (Some (str "INBOX.spam"))) false; Action ACTION_KEEP true]).
Proof.
  split.
  - apply (compile_script_correct refused_script 1000 refused_known); vm_compute; [discriminate|reflexivity].
  - pose proof (compile_script_correct including_script 1000 including_known) as H. cbn [refused_commandlist refused_command including_script orb] in H.
    destruct H as (n & bc & Hc & _ & Hrun); [vm_compute; discriminate|reflexivity|]. exists n, bc. split; [exact Hc|].
    specialize (Hrun including_interp (Exe [SBC 7 bc false] 7) false including_state 50%nat 100%nat ltac:(done) eq_refl).
    destruct Hrun as [Hrun|Hrun]; [apply Nat.leb_le; by vm_compute|..].
    + exfalso. revert Hrun. vm_compute. discriminate.
    + rewrite <- Hrun. vm_compute. reflexivity.
Defined.
