(* ===== verification/SieveSpec.v ===== *)
(** * SieveSpec: what the parts of a Sieve execution promise

    The header test in terms of substrings, the header a vacation response takes
    its own address from, and the rules on which actions may go together, which
    the interpreter enforces for any bytecode at all. *)
From stdpp Require Import gmap.
From S2P Require Import Prelude CMem SieveTree SieveComparator SieveComparatorSpec SieveMessage.
From S2P Require Import SieveGenerate SieveCode SieveGenerateProof SieveEval SieveSemantics.
From S2P Require Import SieveCorrect.
#[local] Open Scope Z_scope.

(** ** [header :contains] *)
Section Contains.
Context `{I : Interp}.

(** [for] loops that stop at the first hit compute a disjunction. *)
Lemma for_list_any (P : bytes → Prop) body sl n :
  (∀ x, x ∈ sl → ∃ b : bool, body (Some x) (MState 0 n false) = Ok (MState (b2z b) n false) ∧ (b = true ↔ P x)) →
  ∃ b : bool, strings sl mstate nores body (MState 0 n false) = Ok (MState (b2z b) n false) ∧
    (b = true ↔ ∃ x, x ∈ sl ∧ P x).
Proof.
  unfold strings. induction sl as [|x sl IH]; intros H; cbn [map for_list].
  - exists false. split; [done|]. split; [done|]. intros (x & Hx & _). by apply elem_of_nil in Hx.
  - destruct (H x) as (b & -> & Hb); [left|]. cbn [nores res Z.eqb mbind result_bind].
    destruct b; cbn [b2z].
    + exists true. split; [by destruct sl|]. split; [|done]. intros _. exists x. split; [left|by apply Hb].
    + destruct IH as (b & E & Hb'); [intros y Hy; apply H; by right|].
      exists b. split; [exact E|]. rewrite Hb'. split.
      * intros (y & Hy & Py). exists y. split; [by right|done].
      * intros (y & Hy & Py). apply elem_of_cons in Hy as [->|Hy]; [|eauto]. by apply Hb in Py.
Qed.

Lemma values_loop_any {V} (P : V → Prop) one (val : list V) n :
  (∀ x, x ∈ val → ∃ b : bool, one x (MState 0 n false) = Ok (MState (b2z b) n false) ∧ (b = true ↔ P x)) →
  ∃ b : bool, values_loop one val (MState 0 n false) = Ok (MState (b2z b) n false) ∧
    (b = true ↔ ∃ x, x ∈ val ∧ P x).
Proof.
  induction val as [|x val IH]; intros H; cbn [values_loop].
  - exists false. split; [done|]. split; [done|]. intros (x & Hx & _). by apply elem_of_nil in Hx.
  - destruct (H x) as (b & -> & Hb); [left|]. cbn [nores res Z.eqb mbind result_bind].
    destruct b; cbn [b2z].
    + exists true. split; [by destruct val|]. split; [|done]. intros _. exists x. split; [left|by apply Hb].
    + destruct IH as (b & E & Hb'); [intros y Hy; apply H; by right|].
      exists b. split; [exact E|]. rewrite Hb'. split.
      * intros (y & Hy & Py). exists y. split; [by right|done].
      * intros (y & Hy & Py). apply elem_of_cons in Hy as [->|Hy]; [|eauto]. by apply Hb in Py.
Qed.

(** The comparator name of a case-insensitive or an exact test. *)
Definition contains_comparator (casemap : bool) : bytes :=
  if casemap then str "i;ascii-casemap" else str "i;octet".

(** The test [header :contains] of the message is true exactly when one of
    its keys occurs, case-folded for [i;ascii-casemap], in some value of one of
    its headers; a missing header matches nothing; it never fails. *)
Theorem header_contains_spec (m : message) (cache : body_cache) (rel : token) (casemap : bool)
    (sl pl : list bytes)
    (Hvals : ∀ h vals v, getheader m h = Some vals → v ∈ vals → blen v < 2147483648)
    (Hpl : Forall is_cstring pl) :
  ∃ b : bool,
    test_sem m (HEADER CONTAINS rel (contains_comparator casemap) sl pl) cache = Ok (b2z b, cache) ∧
    (b = true ↔ ∃ h vals v p, h ∈ sl ∧ getheader m h = Some vals ∧ v ∈ vals ∧ p ∈ pl ∧
       infix_of (map (key casemap) p) (map (key casemap) v)).
Proof.
  cbn [test_sem]. unfold tree_header.
  assert (∃ mt, tree_matcher CONTAINS rel (contains_comparator casemap) = Some mt ∧
    m_match mt = tag_num B_CONTAINS ∧ ∀ text tlen p rock,
      m_comp mt text tlen (Pstr p) rock = octet_contains_ text tlen p casemap) as (mt & -> & Hm & Hc).
  { destruct casemap; eexists; (split; [reflexivity|split; reflexivity]). }
  assert (isReg mt = false) as Hreg by (unfold isReg; by rewrite Hm).
  unfold header_test, count_test, mstate0. rewrite Hm. cbn [tag_num Z.eqb Pos.eqb].
  destruct (for_list_any (λ h, ∃ vals, getheader m h = Some vals ∧ ∃ v, v ∈ vals ∧ ∃ p, p ∈ pl ∧
    infix_of (map (key casemap) p) (map (key casemap) v)) (λ this_header s,
        this_header ← nonnull this_header;
        match getheader m this_header with
        | None => Ok s
        | Some val => values_loop (λ v, value_one mt (strings pl) (v ++ [0]) (blen v)) val s
        end) sl 0) as (b & -> & Hb).
  - intros h _. cbn [nonnull mbind result_bind]. destruct (getheader m h) as [vals|] eqn:Eh.
    2: { exists false. split; [done|]. split; [done|]. by intros (? & ? & _). }
    destruct (values_loop_any (λ v, ∃ p, p ∈ pl ∧ infix_of (map (key casemap) p) (map (key casemap) v))
      (λ v, value_one mt (strings pl) (v ++ [0]) (blen v)) vals 0) as (b & -> & Hb).
    + intros v Hv. unfold value_one. rewrite Hm. cbn [tag_num Z.eqb Pos.eqb].
      apply for_list_any. intros p Hp. unfold data_one. rewrite Hreg. cbn [nonnull mbind result_bind].
      rewrite Hc. rewrite Forall_forall in Hpl.
      destruct (octet_contains_ok v [0] p [] casemap) as (b & -> & Hb); [auto|eauto|].
      exists b. split; [done|exact Hb].
    + exists b. split; [done|]. rewrite Hb. split; [intros (v & Hv & ?); eauto 10|].
      intros (vals' & [= <-] & ?). done.
  - exists b. split; [done|]. rewrite Hb. split.
    + intros (h & Hh & vals & Eh & v & Hv & p & Hp & Hi). by exists h, vals, v, p.
    + intros (h & vals & v & p & Hh & Eh & Hv & Hp & Hi). exists h. split; [done|].
      exists vals. split; [done|]. exists v. split; [done|]. by exists p.
Qed.
End Contains.

(** ** The address a vacation response comes from *)
Section FindMe.
Context `{I : Interp}.

Fixpoint first_some {A} (l : list (option A)) : option A :=
  match l with
  | [] => None
  | Some a :: _ => Some a
  | None :: l' => first_some l'
  end.

Ltac in_list := repeat first [left | right].

Definition addressed_headers : list bytes :=
  [str "to"; str "cc"; str "bcc"; str "resent-to"; str "resent-cc"; str "resent-bcc"].

(** [shouldRespond] takes the address it responds from out of the first of To, Cc, Bcc,
    Resent-To, Resent-Cc and Resent-Bcc that one of my addresses is in.  (Its
    condition on Resent-To lets the comma operator look a header up even when
    an address was found already; the name in [buf] is then the header it was
    found in, so the answer stands.) *)
Theorem find_me_first (myaddr : option bytes) (addresses : iterator) (m : message)
    (f : bytes → option bytes)
    (Hf : ∀ h, h ∈ addressed_headers → look_in_header myaddr addresses m None h = Ok (f h)) :
  find_me myaddr addresses m = Ok (first_some (map f addressed_headers)).
Proof.
  assert (∀ h a, h ∈ addressed_headers → f h = Some a →
    look_in_header myaddr addresses m (Some a) h = Ok (Some a)) as Hagain.
  { intros h a Hh E. specialize (Hf h Hh). unfold look_in_header in *. destruct (getheader m h); congruence. }
  unfold addressed_headers in *.
  unfold find_me, look_always. cbn [map first_some].
  rewrite (Hf (str "to")) by in_list. cbn [mbind result_bind]. unfold look_unless_found.
  destruct (f (str "to")) as [a|] eqn:E1; cbn [fst snd mbind result_bind].
  { rewrite (Hagain (str "to")) by (done || in_list). done. }
  rewrite (Hf (str "cc")) by in_list. cbn [mbind result_bind fst snd].
  destruct (f (str "cc")) as [a|] eqn:E2; cbn [fst snd mbind result_bind].
  { rewrite (Hagain (str "cc")) by (done || in_list). done. }
  rewrite (Hf (str "bcc")) by in_list. cbn [mbind result_bind fst snd].
  destruct (f (str "bcc")) as [a|] eqn:E3; cbn [fst snd mbind result_bind].
  { rewrite (Hagain (str "bcc")) by (done || in_list). done. }
  rewrite (Hf (str "resent-to")) by in_list. cbn [mbind result_bind fst snd].
  destruct (f (str "resent-to")) as [a|] eqn:E4; cbn [fst snd mbind result_bind]; [done|].
  rewrite (Hf (str "resent-cc")) by in_list. cbn [mbind result_bind fst snd].
  destruct (f (str "resent-cc")) as [a|] eqn:E5; cbn [fst snd mbind result_bind]; [done|].
  rewrite (Hf (str "resent-bcc")) by in_list. cbn [mbind result_bind fst snd].
  by destruct (f (str "resent-bcc")).
Qed.
End FindMe.

(** ** Which actions go together *)

Definition is_reject (x : action) : bool := match a_u x with ACTION_REJECT _ => true | _ => false end.
Definition is_keep (x : action) : bool := match a_u x with ACTION_KEEP => true | _ => false end.
Definition is_discard (x : action) : bool := match a_u x with ACTION_DISCARD => true | _ => false end.
Definition is_vacation (x : action) : bool :=
  match a_u x with ACTION_VACATION _ _ _ _ _ _ _ => true | _ => false end.
(** The actions a reject does not exclude. *)
Definition is_quiet (x : action) : bool :=
  match a_u x with ACTION_NONE | ACTION_DISCARD => true | _ => false end.

Definition at_most_one (f : action → bool) (l : action_list) : Prop :=
  (length (List.filter f l) ≤ 1)%nat.

(** A reject stands alone (but for discards), and reject, keep, discard and
    vacation are each there at most once; the list has its dummy head. *)
Record compatible (l : action_list) : Prop := {
  comp_head : l ≠ [];
  comp_alone : ∀ x y, x ∈ l → y ∈ l → is_reject x = true → is_reject y = true ∨ is_quiet y = true;
  comp_reject : at_most_one is_reject l;
  comp_keep : at_most_one is_keep l;
  comp_discard : at_most_one is_discard l;
  comp_vacation : at_most_one is_vacation l
}.

Lemma compatible_new : compatible new_action_list.
Proof.
  split; try done; unfold at_most_one, new_action_list; cbn; try lia.
  intros x y Hx _. apply list_elem_of_singleton in Hx as ->. discriminate.
Qed.

Lemma scan_actions_none stop l x :
  scan_actions stop l = None → x ∈ l → stop (a_u x) = None.
Proof.
  induction l as [|y l IH]; cbn; [by intros _ ?%elem_of_nil|].
  destruct (stop (a_u y)) eqn:E; [done|]. intros H [->|Hx]%elem_of_cons; auto.
Qed.

Lemma at_most_one_app f l z :
  at_most_one f l → (f z = true → ∀ x, x ∈ l → f x = false) → at_most_one f (l ++ [z]).
Proof.
  unfold at_most_one. intros H Hz. rewrite List.filter_app, length_app. cbn.
  destruct (f z) eqn:E; cbn; [|lia]. specialize (Hz eq_refl).
  assert (List.filter f l = []) as ->; [|done]. clear H.
  induction l as [|x l IH]; [done|]. cbn. rewrite (Hz x) by left. apply IH. intros y Hy. apply Hz. by right.
Qed.

(** Adding an action that the earlier ones allow. *)
Lemma compatible_app l z :
  compatible l →
  (is_reject z = true → ∀ x, x ∈ l → is_quiet x = true) →
  (is_quiet z = false → ∀ x, x ∈ l → is_reject x = false) →
  (is_keep z = true → ∀ x, x ∈ l → is_keep x = false) →
  (is_discard z = true → ∀ x, x ∈ l → is_discard x = false) →
  (is_vacation z = true → ∀ x, x ∈ l → is_vacation x = false) →
  compatible (l ++ [z]).
Proof.
  intros [H0 H1 H2 H3 H4 H5] Hr Hq Hk Hd Hv. split; try by apply at_most_one_app.
  - by destruct l.
  - intros x y Hx Hy Ex. rewrite elem_of_app, list_elem_of_singleton in Hx, Hy.
    destruct Hx as [Hx| ->], Hy as [Hy| ->]; eauto.
    destruct (is_quiet z) eqn:Eq; [by right|]. rewrite (Hq eq_refl x Hx) in Ex. done.
  - apply at_most_one_app; [done|]. intros Ez x Hx. specialize (Hr Ez x Hx).
    unfold is_quiet, is_reject in *. by destruct (a_u x).
Qed.

Lemma do_action_compatible stop l z r l' :
  compatible l → do_action stop l z = Ok (r, l') →
  (scan_actions stop l = None → compatible (l ++ [z])) → compatible l'.
Proof.
  intros Hl H Hz. unfold do_action in H. destruct (scan_actions stop l); [by injection H as <- <-|].
  unfold append_action in H. destruct l; [done|]. injection H as <- <-. by apply Hz.
Qed.

(** [d] keeps the list compatible. *)
Definition keeps (d : action_list → result (Z * action_list)) : Prop :=
  ∀ l r l', compatible l → d l = Ok (r, l') → compatible l'.

(** Read the guard of every earlier action off the traversal. *)
Ltac keeps_tac :=
  intros l r l' Hl H; eapply do_action_compatible; [exact Hl|exact H|];
  intros Hs; apply compatible_app; try done; intros _ x Hx;
  pose proof (scan_actions_none _ _ _ Hs Hx) as Hn; cbn beta in Hn;
  unfold not_with_reject, is_quiet, is_reject, is_keep, is_discard, is_vacation in *;
  by destruct (a_u x).

Lemma keeps_reject msg : keeps (λ a, do_reject a msg). Proof. keeps_tac. Qed.
Lemma keeps_fileinto m b : keeps (λ a, do_fileinto a m b). Proof. keeps_tac. Qed.
Lemma keeps_redirect m b : keeps (λ a, do_redirect a m b). Proof. keeps_tac. Qed.
Lemma keeps_keep : keeps do_keep. Proof. keeps_tac. Qed.
Lemma keeps_discard : keeps do_discard. Proof. keeps_tac. Qed.
Lemma keeps_setflag f : keeps (λ a, do_setflag a f). Proof. keeps_tac. Qed.
Lemma keeps_addflag f : keeps (λ a, do_addflag a f). Proof. keeps_tac. Qed.
Lemma keeps_removeflag f : keeps (λ a, do_removeflag a f). Proof. keeps_tac. Qed.
Lemma keeps_mark : keeps do_mark. Proof. keeps_tac. Qed.
Lemma keeps_unmark : keeps do_unmark. Proof. keeps_tac. Qed.

Lemma keeps_vacation md5 addr from subj msg days mime handle :
  keeps (λ a, do_vacation md5 a addr from subj msg days mime handle).
Proof.
  intros l r l' Hl H. unfold do_vacation in H. destruct (scan_actions _ l) eqn:Hs; [by injection H as <- <-|].
  apply bind_ok_inv in H as (hash & _ & H). unfold append_action in H. destruct l as [|y l0]; [done|].
  injection H as <- <-. apply (compatible_app (y :: l0)); try done; intros _ x Hx;
    pose proof (scan_actions_none _ _ _ Hs Hx) as Hn; cbn beta in Hn;
    unfold is_quiet, is_reject, is_keep, is_discard, is_vacation in *; by destruct (a_u x).
Qed.

Create HintDb keeps.
#[export] Hint Resolve keeps_reject keeps_fileinto keeps_redirect keeps_keep keeps_discard keeps_setflag
  keeps_addflag keeps_removeflag keeps_mark keeps_unmark keeps_vacation : keeps.

Section Invariant.
Context `{I : Interp}.

Definition ok_state (s : estate) : Prop := compatible (e_actions s).

Lemma run_action_ok msg d s r s' : keeps d → ok_state s → run_action msg d s = Ok (r, s') → ok_state s'.
Proof.
  intros Hd Hs. unfold run_action. intros ([res a] & E & H)%bind_ok_inv. injection H as <- <-.
  assert (compatible a) by (eapply Hd; eauto). by destruct (res =? SIEVE_RUN_ERROR).
Qed.

Lemma flags_loop_ok bc msg d n ip res s r ip' s' :
  (∀ f, keeps (λ a, d a f)) → ok_state s →
  flags_loop bc msg d n ip res s = Ok (r, ip', s') → ok_state s'.
Proof.
  intros Hd. revert ip res s. induction n as [|n IH]; intros ip res s Hs; cbn [flags_loop].
  - by intros [= <- <- <-].
  - intros ([[data len] ip1] & _ & H)%bind_ok_inv. apply bind_ok_inv in H as ([r1 s1] & E & H).
    eapply IH; [|exact H]. eapply run_action_ok; [|exact Hs|exact E]. apply Hd.
Qed.

Definition ok_step (st : step) : Prop :=
  match st with Next _ _ s | Return _ s | Done _ s | Include _ _ _ s => ok_state s end.

(** Take a successful computation [H] apart. *)
Ltac inv_ok H :=
  repeat match type of H with
  | (_ ≫= _) = Ok _ =>
      let x := fresh "x" in let E := fresh "E" in
      apply bind_ok_inv in H as (x & E & H); try destruct x as [[[? ?] ?] ?]; try destruct x as [[? ?] ?];
      try destruct x as [? ?]; cbn beta iota zeta in H
  | (if ?b then _ else _) = Ok _ => destruct b
  | match ?b with _ => _ end = Ok _ => destruct b
  end.

Lemma eval_vacation_ok version bc ip s r ip' s' :
  ok_state s → eval_vacation version bc ip s = Ok (r, ip', s') → ok_state s'.
Proof.
  intros Hs H. unfold eval_vacation in H. inv_ok H; injection H as <- <- <-; try exact Hs.
  all: eapply run_action_ok; [| |eassumption]; [apply keeps_vacation|exact Hs].
Qed.

Lemma eval_notify_ok bc ip s r ip' s' :
  ok_state s → eval_notify bc ip s = Ok (r, ip', s') → ok_state s'.
Proof.
  intros Hs H. unfold eval_notify in H. inv_ok H. by injection H as <- <- <-.
Qed.

Lemma eval_denotify_ok bc ip s r ip' s' :
  ok_state s → eval_denotify bc ip s = Ok (r, ip', s') → ok_state s'.
Proof.
  intros Hs H. unfold eval_denotify in H. inv_ok H; by injection H as <- <- <-.
Qed.

Lemma eval_op_ok fuel is_incl version bc ip s st :
  ok_state s → eval_op fuel is_incl version bc ip s = Ok st → ok_step st.
Proof.
  intros Hs H. unfold eval_op in H. apply bind_ok_inv in H as (op & _ & H).
  destruct (op_of op) as [[]|]; unfold next_of in H; inv_ok H; injection H as <-; try exact Hs.
  all: cbn [ok_step]; try (eapply flags_loop_ok; [| |eassumption]; [intros f; auto with keeps|]).
  all: try (eapply run_action_ok; [| |eassumption]; [auto with keeps|exact Hs]).
  all: try exact Hs.
  all: try (match goal with Hs : ok_state ?s, H : ?d (e_actions ?s) = Ok (_, ?a) |- _ =>
     assert (keeps d) as Hd by auto with keeps; exact (Hd _ _ _ Hs H) end).
  - by eapply eval_notify_ok.
  - by eapply eval_denotify_ok.
  - by eapply eval_vacation_ok.
  - by destruct is_incl.
Qed.

Lemma check_header_ok bc s x :
  ok_state s → check_header bc s = Ok x → match x with inl (_, s') => ok_state s' | _ => True end.
Proof. intros Hs H. unfold check_header in H. inv_ok H; by injection H as <-. Qed.

Lemma eval_ok n :
  (∀ exe is_incl s r exe' s', ok_state s →
     sieve_eval_bc n exe is_incl s = Ok (r, exe', s') → ok_state s') ∧
  (∀ bc ino version is_incl ip exe s r exe' s', ok_state s →
     eval_loop n bc ino version is_incl ip exe s = Ok (r, exe', s') → ok_state s').
Proof.
  induction n as [|n [IHe IHl]]; [done|]. split.
  - intros exe is_incl s r exe' s' Hs H. cbn [sieve_eval_bc] in H.
    apply bind_ok_inv in H as (cur & _ & H). destruct (is_executing cur); [by injection H as <- <- <-|].
    apply bind_ok_inv in H as (h & Eh & H). pose proof (check_header_ok _ _ _ Hs Eh) as Hh.
    destruct h as [[code s1]|version]; [by injection H as <- <- <-|]. eapply IHl; [|exact H]; done.
  - intros bc ino version is_incl ip exe s r exe' s' Hs H. cbn [eval_loop] in H.
    destruct (ip <? blen bc / 4); [|by injection H as <- <- <-].
    apply bind_ok_inv in H as (st & Est & H). pose proof (eval_op_ok _ _ _ _ _ _ _ Hs Est) as Hst.
    destruct st as [res ip1 s1|code s1|res s1|g data ip1 s1]; cbn [ok_step] in Hst.
    + destruct (res =? 0); [eapply IHl; [|exact H]; done|by injection H as <- <- <-].
    + by injection H as <- <- <-.
    + by injection H as <- <- <-.
    + destruct (getinclude data g) as [res fpath].
      set (s2 := if res =? SIEVE_OK then s1 else _) in *.
      assert (ok_state s2) as Hs2 by (unfold s2; by destruct (res =? SIEVE_OK)).
      destruct (negb (res =? 0)); [by injection H as <- <- <-|].
      destruct (sieve_script_load fpath exe) as [res2 exe2].
      destruct (negb (res2 =? 0)); [by injection H as <- <- <-|].
      apply bind_ok_inv in H as ([[r3 exe3] s3] & E3 & H). specialize (IHe _ _ _ _ _ _ Hs2 E3).
      destruct (r3 =? 0); [eapply IHl; [|exact H]; done|by injection H as <- <- <-].
Qed.
End Invariant.

(** C25: whatever the bytecode, compiled by this compiler or not, and whatever it
    includes, the list of actions an execution leaves obeys the rules of the
    actions: a reject goes with nothing but discards, and reject, keep, discard
    and vacation are there at most once. *)
Theorem sieve_eval_bc_compatible `{I : Interp} (fuel : nat) (exe : sieve_execute) (is_incl : bool)
    (m : message) (n : notify_list) (r : Z) (exe' : sieve_execute) (s' : estate)
    (Hrun : sieve_eval_bc fuel exe is_incl (EState m ∅ new_action_list n None) = Ok (r, exe', s')) :
  compatible (e_actions s').
Proof. eapply (proj1 (eval_ok fuel)); [|exact Hrun]. apply compatible_new. Qed.

(** ** Witnesses *)

Lemma header_contains_spec_witness :
  ∃ b : bool,
    @test_sem demo_interp [(str "Subject", [str "Cheap Viagra"])]
      (HEADER CONTAINS (TOK_OTHER 0) (contains_comparator true) [str "subject"] [str "viagra"]) ∅
    = Ok (b2z b, ∅) ∧
    (b = true ↔ ∃ h vals v p, h ∈ [str "subject"] ∧
       @getheader demo_interp [(str "Subject", [str "Cheap Viagra"])] h = Some vals ∧ v ∈ vals ∧
       p ∈ [str "viagra"] ∧ infix_of (map (key true) p) (map (key true) v)).
Proof.
  apply (@header_contains_spec demo_interp).
  - cbn. intros h vals v H Hv. destruct (strcaseeq _ h); [|done]. injection H as <-.
    apply list_elem_of_singleton in Hv as ->. vm_compute. reflexivity.
  - repeat constructor; vm_compute; split; reflexivity || discriminate.
Defined.

Lemma find_me_first_witness :
  @find_me demo_interp (Some (str "me@x")) (for_list [])
    [(str "resent-to", [str "me@x"])] = Ok None.
Proof.
  apply (@find_me_first demo_interp (Some (str "me@x")) (for_list [])
    [(str "resent-to", [str "me@x"])] (λ _, None)).
  intros h. unfold addressed_headers. intros Hh.
  repeat (apply elem_of_cons in Hh as [->|Hh]; [reflexivity|]). by apply elem_of_nil in Hh.
Defined.

Lemma sieve_eval_bc_compatible_witness :
  compatible (new_action_list ++ [Action (ACTION_FILEINTO (Some (str "INBOX.spam"))) true]).
Proof.
  apply (@sieve_eval_bc_compatible demo_interp 20 demo_exe false (e_m demo_state) new_notify_list 1
    (Exe [SBC 7 (script_bytes demo_script) false] 7)
    (@EState demo_interp (e_m demo_state) ∅
      (new_action_list ++ [Action (ACTION_FILEINTO (Some (str "INBOX.spam"))) true]) new_notify_list None)).
  vm_compute. reflexivity.
Defined.
