(* ===== verification/Auth.v ===== *)
(** * Auth: identifiers and groups

    What the rest of the server asks an authorization mechanism ([lib/auth.h]),
    as a class, and the mechanism [lib/auth_unix.c], which answers it from the
    password and group files.  Identifiers are C strings. *)
From S2P Require Import Prelude CMem CString.
#[local] Open Scope Z_scope.

(** [struct auth_mech], for the user in one [auth_state]: [None] is [NULL]. *)
Class Auth := {
  auth_canonifyid : bytes → result (option bytes);
  auth_memberof : bytes → Z;
}.

(** A character that can stand in an ACL entry. *)
Definition clean (s : bytes) : Prop := Forall (λ c, c ≠ 9 ∧ 0 < c < 256) s.
#[export] Instance clean_dec s : Decision (clean s).
Proof. unfold clean. apply _. Defined.

Definition minus : Z := 45.
Definition negative (s : bytes) : bool := match s with c :: _ => c =? minus | [] => false end.

(** What a mechanism promises: an answer, and canonical identifiers that have no
    tabs and do not begin with a minus sign when the identifier did not. *)
Class AuthOk (A : Auth) := {
  canonify_returns i : is_cstring i → ∃ o, auth_canonifyid i = Ok o;
  canonify_clean i c : is_cstring i → auth_canonifyid i = Ok (Some c) → clean c ∧ (negative c = true → negative i = true);
}.

(** ** [lib/auth_unix.c] *)

(** Characters: 0 not allowed, 1 allowed, 2 allowed and a letter. *)
Definition allowedchars : list Z := [
 (* 0  1  2  3  4  5  6  7  8  9  A  B  C  D  E  F *)
    0; 0; 0; 0; 0; 0; 0; 0; 0; 0; 0; 0; 0; 0; 0; 0; (* 00-0F *)
    0; 0; 0; 0; 0; 0; 0; 0; 0; 0; 0; 0; 0; 0; 0; 0; (* 10-1F *)
    1; 1; 1; 1; 1; 0; 0; 1; 1; 1; 0; 1; 1; 1; 1; 0; (* 20-2F *)
    1; 1; 1; 1; 1; 1; 1; 1; 1; 1; 0; 1; 1; 1; 1; 0; (* 30-3F *)
    1; 2; 2; 2; 2; 2; 2; 2; 2; 2; 2; 2; 2; 2; 2; 2; (* 40-4F *)
    2; 2; 2; 2; 2; 2; 2; 2; 2; 2; 2; 1; 1; 1; 1; 1; (* 50-5F *)
    1; 2; 2; 2; 2; 2; 2; 2; 2; 2; 2; 2; 2; 2; 2; 2; (* 60-6F *)
    2; 2; 2; 2; 2; 2; 2; 2; 2; 2; 2; 1; 1; 1; 1; 0  (* 70-7F *)
 ] ++ replicate 128 0.

Definition allowed (c : Z) : Z := default 0 (allowedchars !! Z.to_nat c).

Definition group_prefix : bytes := [103; 114; 111; 117; 112; 58].
Definition anyone : bytes := [97; 110; 121; 111; 110; 101].
Definition anonymous : bytes := [97; 110; 111; 110; 121; 109; 111; 117; 115].

(** The loop over the characters, folding them when asked to: [None] is the
    [return NULL]. *)
Fixpoint canon_chars (username_tolower : bool) (s : bytes) : option bytes :=
  match s with
  | [] => Some []
  | c :: s' =>
      let c := if username_tolower && ((65 <=? c) && (c <=? 90)) then TOLOWER c else c in
      if allowed c =? 0 then None else r ← canon_chars username_tolower s'; Some (c :: r)
  end.

(** The size of [retbuf]. *)
Definition RETBUF : Z := 81.

Section Unix.
(** The group file: the [gr_name] of a group, and its entries, each a name, an id
    and members; the group of a user in the password file; the configuration. *)
Context (getgrnam : bytes → option bytes) (getgrent : list (bytes * Z * list bytes)) (getpwnam : bytes → option Z)
  (username_tolower group_enable : bool).

Definition mycanonifyid (identifier : bytes) : result (option bytes) :=
  let len := blen identifier in
  if RETBUF <=? len then Ok None else
  if bool_decide (take 6 identifier = group_prefix) then
    match getgrnam (drop 6 identifier) with
    | None => Ok None
    | Some name =>
        (* strcpy(retbuf+6, grp->gr_name) *)
        if 6 + blen name + 1 <=? RETBUF then Ok (Some (group_prefix ++ name)) else Fault OutOfBounds
    end
  else Ok (canon_chars username_tolower identifier).

(** [struct auth_state] *)
Record auth_state := AuthState { userid : bytes; group : list bytes }.

Definition auth_anonymous : auth_state := AuthState anonymous [].

Definition in_groups (name : bytes) (gs : list bytes) : bool := existsb (λ g, bool_decide (name = g)) gs.

(** 0 no, 1 everybody, 2 by a group, 3 the user. *)
Definition mymemberof (state : option auth_state) (identifier : bytes) : Z :=
  let a := default auth_anonymous state in
  if bool_decide (identifier = anyone) then 1 else
  if bool_decide (identifier = userid a) then 3 else
  if negb (bool_decide (take 6 identifier = group_prefix)) then 0 else
  if in_groups (drop 6 identifier) (group a) then 2 else 0.

(** The loop over the group file. *)
Definition groups_of (identifier : bytes) : list bytes :=
  let gid := getpwnam identifier in
  flat_map (λ '(name, id, members),
    if in_groups identifier members || bool_decide (gid = Some id) then [name] else []) getgrent.

Definition mynewstate (identifier : bytes) : result (option auth_state) :=
  c ← mycanonifyid identifier;
  match c with
  | None => Ok None
  | Some id =>
      if bool_decide (take 6 id = group_prefix) then Ok None
      else Ok (Some (AuthState id (if group_enable then groups_of id else [])))
  end.

Definition auth_unix (state : option auth_state) : Auth :=
  {| auth_canonifyid := mycanonifyid; auth_memberof := mymemberof state |}.

(** Names in the group file are short and printable. *)
Context (Hgroups : ∀ i name, getgrnam i = Some name → clean name ∧ blen name ≤ 74).

Lemma allowed_clean c : 0 ≤ c < 256 → allowed c ≠ 0 → c ≠ 9 ∧ 0 < c < 256.
Proof using.
  intros Hc Ha. split; [intros ->; by apply Ha|]. destruct (decide (c = 0)); [|lia]. subst c. by destruct Ha.
Qed.

Lemma canon_chars_clean tl s r : is_cstring s → canon_chars tl s = Some r → clean r ∧ (negative r = true → negative s = true).
Proof using.
  intros Hs. revert r. induction Hs as [|c s Hc Hs IH]; intros r; cbn [canon_chars]; [intros [= <-]; split; [constructor|done]|].
  destruct (tl && ((65 <=? c) && (c <=? 90))) eqn:Hu.
  - destruct (Z.eqb_spec (allowed (TOLOWER c)) 0) as [|Ha]; [done|]. destruct (canon_chars tl s) as [r'|]; [|done].
    intros [= <-]. destruct (IH r' eq_refl) as [Hr _]. pose proof (TOLOWER_range c Hc). split.
    + constructor; [apply allowed_clean; [lia|done]|done].
    + cbn. apply andb_true_iff in Hu as [_ Hu]. unfold TOLOWER. rewrite Hu.
      apply andb_true_iff in Hu as [?%Z.leb_le _]. destruct (Z.eqb_spec (c + 32) minus); [unfold minus in *; lia|done].
  - destruct (Z.eqb_spec (allowed c) 0) as [|Ha]; [done|]. destruct (canon_chars tl s) as [r'|]; [|done].
    intros [= <-]. destruct (IH r' eq_refl) as [Hr _]. split; [|done]. constructor; [apply allowed_clean; [lia|done]|done].
Qed.

#[export] Instance auth_unix_ok state : AuthOk (auth_unix state).
Proof using Hgroups.
  split; cbn; unfold mycanonifyid; intros i.
  - intros _. destruct (RETBUF <=? blen i); [eauto|]. destruct (bool_decide _); [|eauto].
    destruct (getgrnam (drop 6 i)) as [name|] eqn:Hg; [|eauto]. destruct (Hgroups _ _ Hg) as [_ Hl].
    destruct (Z.leb_spec (6 + blen name + 1) RETBUF); [eauto|unfold RETBUF in *; lia].
  - intros c Hi. destruct (RETBUF <=? blen i); [done|]. destruct (bool_decide _).
    + destruct (getgrnam (drop 6 i)) as [name|] eqn:Hg; [|done]. destruct (Hgroups _ _ Hg) as [Hn _].
      destruct (6 + blen name + 1 <=? RETBUF); [|done]. intros [= <-]. split; [|done].
      change (clean (group_prefix ++ name)). apply Forall_app. split; [repeat constructor; lia|done].
    + intros [= Hc]. by eapply canon_chars_clean.
Qed.
End Unix.
