(* ===== verification/Acl.v ===== *)
(** * Acl: access control lists ([lib/acl.c], [lib/acl_afs.c])

    Rights as a bit vector and as a string, and lists of them as one string of
    identifiers and rights, a tab behind each, that the functions walk with
    [strchr] and cut with NULs they put back afterwards. *)
From S2P Require Import Prelude CMem CString Auth.
#[local] Open Scope Z_scope.

(** ** Rights ([lib/acl.h]) *)

Definition ACL_LOOKUP : Z := 0x000001.
Definition ACL_READ : Z := 0x000002.
Definition ACL_SEEN : Z := 0x000004.
Definition ACL_WRITE : Z := 0x000008.
Definition ACL_INSERT : Z := 0x000010.
Definition ACL_POST : Z := 0x000020.
Definition ACL_CREATE : Z := 0x000040.
Definition ACL_DELETEMBOX : Z := 0x000080.
Definition ACL_DELETEMSG : Z := 0x000100.
Definition ACL_EXPUNGE : Z := 0x000200.
Definition ACL_ADMIN : Z := 0x000400.
Definition ACL_ALL : Z := 0x0007FF.
Definition ACL_USER (n : Z) : Z := Z.shiftl 0x000800 n.
Definition ACL_FULL : Z := 0x1FFFFF.
Definition ACL_MAXSTR : Z := 32.

Inductive acl_mode := ACL_MODE_SET | ACL_MODE_ADD | ACL_MODE_REMOVE.

Definition TAB : Z := 9.

Section Rights.
(** The first character of the option [deleteright], NUL when it is empty. *)
Context (deleteright : Z).

(** The right of a letter; the letters of the legacy macros have none. *)
Definition right_of (c : Z) : Z :=
  match c with
  | 108 (* l *) => ACL_LOOKUP | 114 (* r *) => ACL_READ | 115 (* s *) => ACL_SEEN
  | 119 (* w *) => ACL_WRITE | 105 (* i *) => ACL_INSERT | 112 (* p *) => ACL_POST
  | 107 (* k *) => ACL_CREATE | 120 (* x *) => ACL_DELETEMBOX | 116 (* t *) => ACL_DELETEMSG
  | 101 (* e *) => ACL_EXPUNGE | 97 (* a *) => ACL_ADMIN
  | 48 => ACL_USER 0 | 49 => ACL_USER 1 | 50 => ACL_USER 2 | 51 => ACL_USER 3 | 52 => ACL_USER 4
  | 53 => ACL_USER 5 | 54 => ACL_USER 6 | 55 => ACL_USER 7 | 56 => ACL_USER 8 | 57 => ACL_USER 9
  | _ => 0
  end.

(** The rights so far, and those of the macros that were seen. *)
Record mask := Mask { m_result : Z; legacy_create : Z; legacy_delete : Z }.

Definition mask_char (m : mask) (c : Z) : mask :=
  let m := Mask (Z.lor (m_result m) (right_of c))
             (if c =? 99 (* c *) then ACL_CREATE else legacy_create m)
             (if c =? 100 (* d *) then Z.lor ACL_DELETEMSG ACL_EXPUNGE else legacy_delete m) in
  if c =? deleteright then
    if deleteright =? 99 then Mask (m_result m) (Z.lor (legacy_create m) ACL_DELETEMBOX) (legacy_delete m)
    else if deleteright =? 100 then Mask (m_result m) (legacy_create m) (Z.lor (legacy_delete m) ACL_DELETEMBOX)
    else Mask (Z.lor (m_result m) ACL_DELETEMBOX) (legacy_create m) (legacy_delete m)
  else m.

Definition cyrus_acl_strtomask (str : bytes) : Z :=
  let m := fold_left mask_char str (Mask 0 0 0) in
  let r := if Z.land (m_result m) (legacy_create m) =? 0 then Z.lor (m_result m) (legacy_create m) else m_result m in
  if Z.land r (legacy_delete m) =? 0 then Z.lor r (legacy_delete m) else r.

(** [if (acl & right) *pos++ = c;] *)
Definition letter (acl right c : Z) : bytes := if Z.land acl right =? 0 then [] else [c].

Definition cyrus_acl_masktostr (acl : Z) : bytes :=
  let legacy_create := if deleteright =? 99 then Z.lor ACL_CREATE ACL_DELETEMBOX else ACL_CREATE in
  let legacy_delete := if deleteright =? 100 then Z.lor (Z.lor ACL_DELETEMSG ACL_EXPUNGE) ACL_DELETEMBOX
                       else Z.lor ACL_DELETEMSG ACL_EXPUNGE in
  letter acl ACL_LOOKUP 108 ++ letter acl ACL_READ 114 ++ letter acl ACL_SEEN 115 ++
  letter acl ACL_WRITE 119 ++ letter acl ACL_INSERT 105 ++ letter acl ACL_POST 112 ++
  letter acl ACL_CREATE 107 ++ letter acl ACL_DELETEMBOX 120 ++ letter acl ACL_DELETEMSG 116 ++
  letter acl ACL_EXPUNGE 101 ++
  letter acl legacy_create 99 ++ letter acl legacy_delete 100 ++
  letter acl ACL_ADMIN 97 ++
  letter acl (ACL_USER 0) 48 ++ letter acl (ACL_USER 1) 49 ++ letter acl (ACL_USER 2) 50 ++
  letter acl (ACL_USER 3) 51 ++ letter acl (ACL_USER 4) 52 ++ letter acl (ACL_USER 5) 53 ++
  letter acl (ACL_USER 6) 54 ++ letter acl (ACL_USER 7) 55 ++ letter acl (ACL_USER 8) 56 ++
  letter acl (ACL_USER 9) 57.

(** ** Access control lists *)

Context `{A : Auth}.

(** The loop of [cyrus_acl_myrights] from [thisid]: the block as it leaves it and
    the two masks. *)
Fixpoint myrights_loop (fuel : nat) (acl : bytes) (thisid pos neg : Z) : result (bytes * Z * Z) :=
  match fuel with
  | O => Fault OutOfFuel
  | S fuel' =>
      c ← rd8 acl thisid;
      if c =? 0 then Ok (acl, pos, neg) else
      tab ← strchr acl thisid TAB;
      match tab with
      | None => Ok (acl, pos, neg)
      | Some t1 =>
          acl ← store8 acl t1 0;
          let rights := t1 + 1 in
          tab ← strchr acl rights TAB;
          match tab with
          | None => acl ← store8 acl t1 TAB; Ok (acl, pos, neg)
          | Some t2 =>
              acl ← store8 acl t2 0;
              let nextid := t2 + 1 in
              c ← rd8 acl thisid;
              let isneg := c =? minus in
              id ← cstr_at acl (if isneg then thisid + 1 else thisid);
              str ← cstr_at acl rights;
              let m := if auth_memberof id =? 0 then 0 else cyrus_acl_strtomask str in
              acl ← store8 acl t1 TAB;
              acl ← store8 acl t2 TAB;
              myrights_loop fuel' acl nextid
                (if isneg then pos else Z.lor pos m) (if isneg then Z.lor neg m else neg)
          end
      end
  end.

(** The rights, and the block, which has been written to. *)
Definition cyrus_acl_myrights (acl : bytes) : result (Z * bytes) :=
  '(acl, pos, neg) ← myrights_loop (S (length acl)) acl 0 0 0;
  Ok (Z.land pos (Z.lnot neg), acl).

(** Convert 'identifier' into canonical form; the access may change with it.
    [None] is the [return -1]. *)
Definition canon_identifier (identifier : bytes) (access : Z) (canonproc : option (bytes → Z → Z)) :
    result (option (bytes * Z)) :=
  let isneg := negative identifier in
  let plain := if isneg then tail identifier else identifier in
  c ← auth_canonifyid plain;
  if match c with None => negb (access =? 0) | Some _ => false end then Ok None else
  let id := default plain c in
  let access := match canonproc with
                | None => access
                | Some f => if isneg then Z.lnot (f id (Z.lnot access)) else f id access
                end in
  Ok (Some (if isneg then minus :: id else id, access)).

(** Find any existing entry for 'identifier': the block, [thisid], [nextid] and
    [oldaccess]. *)
Fixpoint find_entry (fuel : nat) (acl identifier : bytes) (thisid : Z) : result (bytes * Z * Z * Z) :=
  match fuel with
  | O => Fault OutOfFuel
  | S fuel' =>
      c ← rd8 acl thisid;
      if c =? 0 then Ok (acl, thisid, thisid, 0) else
      (* ACK, nuke trailing garbage *)
      let nuke (acl : bytes) := acl ← store8 acl thisid 0; Ok (acl, thisid, thisid, 0) in
      tab ← strchr acl thisid TAB;
      match tab with
      | None => nuke acl
      | Some t1 =>
          acl ← store8 acl t1 0;
          let rights := t1 + 1 in
          tab ← strchr acl rights TAB;
          match tab with
          | None => nuke acl
          | Some t2 =>
              acl ← store8 acl t2 0;
              id ← cstr_at acl thisid;
              if bool_decide (identifier = id) then
                str ← cstr_at acl rights; Ok (acl, thisid, t2 + 1, cyrus_acl_strtomask str)
              else
                acl ← store8 acl t1 TAB; acl ← store8 acl t2 TAB;
                find_entry fuel' acl identifier (t2 + 1)
          end
      end
  end.

(** The return value and the block [*acl] points to then. *)
Definition cyrus_acl_set (acl identifier : bytes) (mode : acl_mode) (access : Z)
    (canonproc : option (bytes → Z → Z)) : result (Z * bytes) :=
  c ← canon_identifier identifier access canonproc;
  match c with
  | None => Ok (-1, acl)
  | Some (identifier, access) =>
      '(acl, thisid, nextid, oldaccess) ← find_entry (S (length acl)) acl identifier 0;
      let access := match mode with
                    | ACL_MODE_SET => access
                    | ACL_MODE_ADD => Z.lor access oldaccess
                    | ACL_MODE_REMOVE => Z.land oldaccess (Z.lnot access)
                    end in
      rest ← cstr_at acl nextid;
      if access =? 0 then
        (* strcpy(thisid, nextid) *)
        Ok (0, wr acl thisid (rest ++ [0]))
      else
        let size := thisid + blen identifier + 40 + blen rest in
        let newacl := take (Z.to_nat thisid) acl ++ identifier ++ [TAB] ++ cyrus_acl_masktostr access ++ [TAB] ++ rest ++ [0] in
        if blen newacl <=? size then Ok (0, newacl) else Fault OutOfBounds
  end.

Definition cyrus_acl_remove (acl identifier : bytes) (canonproc : option (bytes → Z → Z)) : result (Z * bytes) :=
  cyrus_acl_set acl identifier ACL_MODE_SET 0 canonproc.
End Rights.
