(* ===== verification/AclSpec.v ===== *)
(** * AclSpec: what access control lists mean

    Rights survive the way to a string and back; a list is the table of its
    entries; [cyrus_acl_set] changes one entry of it and [cyrus_acl_myrights]
    reads off a user's rights. *)
From S2P Require Import Prelude CMem.
From stdpp Require Import list.
From S2P Require Import CString Auth Acl.
#[local] Open Scope Z_scope.

(** ** Rights as strings *)

Lemma land_bit a k : 0 ≤ k → (if Z.land a (2 ^ k) =? 0 then 0 else 2 ^ k) = Z.land a (2 ^ k).
Proof.
  intros Hk. assert (Z.land a (2 ^ k) = if Z.testbit a k then 2 ^ k else 0) as ->.
  { apply Z.bits_inj'. intros i Hi. rewrite Z.land_spec, Z.pow2_bits_eqb by done.
    destruct (Z.eqb_spec k i) as [->|Hne].
    - destruct (Z.testbit a i); cbn [andb]; [by rewrite Z.pow2_bits_true|by rewrite Z.testbit_0_l].
    - rewrite andb_false_r. destruct (Z.testbit a k); [by rewrite Z.pow2_bits_false|by rewrite Z.testbit_0_l]. }
  assert (0 < 2 ^ k) by (apply Z.pow_pos_nonneg; lia).
  destruct (Z.testbit a k); [|done]. by destruct (Z.eqb_spec (2 ^ k) 0); [lia|].
Qed.

Section Rights.
Context (dr : Z) (Hdr : right_of dr = 0 ∨ dr = 120).

Lemma fold_letter m acl k c : c ≠ 99 → c ≠ 100 → 0 ≤ k → right_of c = 2 ^ k →
  fold_left (mask_char dr) (letter acl (2 ^ k) c) m =
    Mask (Z.lor (m_result m) (Z.land acl (2 ^ k))) (legacy_create m) (legacy_delete m).
Proof using Hdr.
  intros H1 H2 Hk Hr. rewrite <- land_bit by done. unfold letter.
  destruct (Z.land acl (2 ^ k) =? 0); cbn [fold_left]; [by rewrite Z.lor_0_r; destruct m|].
  unfold mask_char. cbn [m_result legacy_create legacy_delete]. rewrite Hr.
  destruct (Z.eqb_spec c 99), (Z.eqb_spec c 100); try done. destruct (Z.eqb_spec c dr) as [->|]; [|done].
  destruct Hdr as [Hz| ->]; [assert (0 < 2 ^ k) by (apply Z.pow_pos_nonneg; lia); lia|].
  change (120 =? 99) with false. change (120 =? 100) with false. cbv iota. f_equal.
  change (right_of 120) with ACL_DELETEMBOX in Hr. by rewrite <- Hr, <- Z.lor_assoc, Z.lor_diag.
Qed.

(** The letters of the macros. *)
Lemma fold_create m acl r : r = (if dr =? 99 then Z.lor ACL_CREATE ACL_DELETEMBOX else ACL_CREATE) →
  fold_left (mask_char dr) (letter acl r 99) m =
    Mask (m_result m) (if Z.land acl r =? 0 then legacy_create m else r) (legacy_delete m).
Proof using Hdr.
  intros Hr. unfold letter. destruct (Z.land acl r =? 0); cbn [fold_left]; [by destruct m|].
  unfold mask_char. change (99 =? 99) with true. change (99 =? 100) with false. change (right_of 99) with 0.
  cbv iota. cbn [m_result legacy_create legacy_delete]. rewrite Z.lor_0_r. rewrite (Z.eqb_sym dr 99) in Hr.
  destruct (Z.eqb_spec 99 dr) as [<-|]; by subst r.
Qed.

Lemma fold_delete m acl r :
  r = (if dr =? 100 then Z.lor (Z.lor ACL_DELETEMSG ACL_EXPUNGE) ACL_DELETEMBOX else Z.lor ACL_DELETEMSG ACL_EXPUNGE) →
  fold_left (mask_char dr) (letter acl r 100) m =
    Mask (m_result m) (legacy_create m) (if Z.land acl r =? 0 then legacy_delete m else r).
Proof using Hdr.
  intros Hr. unfold letter. destruct (Z.land acl r =? 0); cbn [fold_left]; [by destruct m|].
  unfold mask_char. change (100 =? 99) with false. change (100 =? 100) with true. change (right_of 100) with 0.
  cbv iota. cbn [m_result legacy_create legacy_delete]. rewrite Z.lor_0_r. rewrite (Z.eqb_sym dr 100) in Hr.
  destruct (Z.eqb_spec 100 dr) as [<-|]; by subst r.
Qed.

(** Letters in a row, [(k, c)] for bit [k] and letter [c]. *)
Definition letters (acl : Z) (ls : list (Z * Z)) (rest : bytes) : bytes :=
  foldr (λ '(k, c) s, letter acl (2 ^ k) c ++ s) rest ls.
Definition bits (ls : list (Z * Z)) : Z := foldr (λ '(k, _) n, Z.lor (2 ^ k) n) 0 ls.
Definition letter_ok (l : Z * Z) : Prop := l.2 ≠ 99 ∧ l.2 ≠ 100 ∧ 0 ≤ l.1 ∧ right_of l.2 = 2 ^ l.1.

Lemma fold_letters acl ls rest m : Forall letter_ok ls →
  fold_left (mask_char dr) (letters acl ls rest) m =
    fold_left (mask_char dr) rest (Mask (Z.lor (m_result m) (Z.land acl (bits ls))) (legacy_create m) (legacy_delete m)).
Proof using Hdr.
  intros Hls. revert m. induction Hls as [|[k c] ls (H1 & H2 & H3 & H4) _ IH]; intros m; cbn [letters bits foldr].
  { rewrite Z.land_0_r, Z.lor_0_r. by destruct m. }
  rewrite fold_left_app, fold_letter by done. fold (letters acl ls rest). rewrite IH. cbn [m_result legacy_create legacy_delete].
  by rewrite <- Z.lor_assoc, <- Z.land_lor_distr_r.
Qed.

Definition letters1 : list (Z * Z) :=
  [(0, 108); (1, 114); (2, 115); (3, 119); (4, 105); (5, 112); (6, 107); (7, 120); (8, 116); (9, 101)].
Definition letters2 : list (Z * Z) :=
  [(10, 97); (11, 48); (12, 49); (13, 50); (14, 51); (15, 52); (16, 53); (17, 54); (18, 55); (19, 56)].

Lemma masktostr_letters acl :
  cyrus_acl_masktostr dr acl =
    letters acl letters1 (letter acl (if dr =? 99 then Z.lor ACL_CREATE ACL_DELETEMBOX else ACL_CREATE) 99 ++
      letter acl (if dr =? 100 then Z.lor (Z.lor ACL_DELETEMSG ACL_EXPUNGE) ACL_DELETEMBOX
                  else Z.lor ACL_DELETEMSG ACL_EXPUNGE) 100 ++
      letters acl letters2 (letter acl (2 ^ 20) 57)).
Proof using. reflexivity. Qed.

Lemma masktostr_fold acl :
  fold_left (mask_char dr) (cyrus_acl_masktostr dr acl) (Mask 0 0 0) =
  Mask (Z.land acl ACL_FULL)
    (let r := if dr =? 99 then Z.lor ACL_CREATE ACL_DELETEMBOX else ACL_CREATE in if Z.land acl r =? 0 then 0 else r)
    (let r := if dr =? 100 then Z.lor (Z.lor ACL_DELETEMSG ACL_EXPUNGE) ACL_DELETEMBOX
              else Z.lor ACL_DELETEMSG ACL_EXPUNGE in if Z.land acl r =? 0 then 0 else r).
Proof using Hdr.
  rewrite masktostr_letters, fold_letters by (repeat constructor; done).
  rewrite fold_left_app, (fold_create _ acl _ eq_refl). cbn [m_result legacy_create legacy_delete].
  rewrite fold_left_app, (fold_delete _ acl _ eq_refl). cbn [m_result legacy_create legacy_delete].
  rewrite fold_letters by (repeat constructor; done). rewrite fold_letter by done.
  cbn [m_result legacy_create legacy_delete]. rewrite Z.lor_0_l, <- !Z.land_lor_distr_r. done.
Qed.

Lemma rights_roundtrip acl : cyrus_acl_strtomask dr (cyrus_acl_masktostr dr acl) = Z.land acl ACL_FULL.
Proof using Hdr.
  unfold cyrus_acl_strtomask. rewrite masktostr_fold. cbn [m_result legacy_create legacy_delete]. cbv zeta.
  assert (∀ r, Z.land r ACL_FULL = r →
    (if Z.land (Z.land acl ACL_FULL) (if Z.land acl r =? 0 then 0 else r) =? 0
     then Z.lor (Z.land acl ACL_FULL) (if Z.land acl r =? 0 then 0 else r) else Z.land acl ACL_FULL) = Z.land acl ACL_FULL) as H.
  { intros r Hr. destruct (Z.eqb_spec (Z.land acl r) 0) as [|Hne]; [by rewrite Z.land_0_r, Z.lor_0_r|].
    rewrite <- Z.land_assoc, (Z.land_comm ACL_FULL r), Hr. by destruct (Z.eqb_spec (Z.land acl r) 0). }
  rewrite H by by destruct (dr =? 99). apply H. by destruct (dr =? 100).
Qed.

Lemma letter_len acl r c : blen (letter acl r c) ≤ 1.
Proof using. unfold letter. by destruct (_ =? 0). Qed.

Lemma masktostr_len acl : blen (cyrus_acl_masktostr dr acl) ≤ 23.
Proof using.
  unfold cyrus_acl_masktostr. rewrite !blen_app.
  repeat match goal with |- context [blen (letter ?a ?r ?c)] => lazymatch goal with
    | _ : blen (letter a r c) ≤ 1 |- _ => fail | _ => pose proof (letter_len a r c) end end. lia.
Qed.

Lemma letter_clean acl r c : c ≠ 9 → 0 < c < 256 → clean (letter acl r c).
Proof using. intros H1 H2. unfold letter. destruct (_ =? 0); [constructor|by constructor]. Qed.

Lemma masktostr_clean acl : clean (cyrus_acl_masktostr dr acl).
Proof using. unfold cyrus_acl_masktostr, clean. rewrite !Forall_app. by repeat split; apply letter_clean. Qed.
End Rights.

(** ** Lists as tables *)

(** The entries in order, an identifier and its rights string. *)
Abbreviation table := (list (bytes * bytes)).
Definition entry_bytes (e : bytes * bytes) : bytes := e.1 ++ TAB :: e.2 ++ [TAB].
Definition encode (es : table) : bytes := mjoin (entry_bytes <$> es).

Definition table_ok (es : table) : Prop := Forall (λ e, clean e.1 ∧ clean e.2) es ∧ NoDup es.*1.
#[export] Instance table_ok_dec es : Decision (table_ok es).
Proof. unfold table_ok. apply _. Defined.

Lemma clean_cstring s : clean s → is_cstring s.
Proof. intros H. eapply Forall_impl; [exact H|]. by intros c [_ ?]. Qed.

Lemma clean_no_tab s : clean s → Forall (λ x, x ≠ TAB ∧ x ≠ 0) s.
Proof. intros H. eapply Forall_impl; [exact H|]. unfold TAB. cbv beta. intros c ?. lia. Qed.

Lemma encode_cons i rs es rest : encode ((i, rs) :: es) ++ rest = i ++ TAB :: rs ++ TAB :: encode es ++ rest.
Proof. unfold encode. rewrite fmap_cons, mjoin_cons. unfold entry_bytes. cbn [fst snd]. rewrite <- !app_assoc. cbn. by rewrite <- app_assoc. Qed.

Lemma encode_app a b : encode (a ++ b) = encode a ++ encode b.
Proof. unfold encode. by rewrite fmap_app, mjoin_app. Qed.

(** Cutting out an entry and putting it back. *)
Section Cut.
Context (pre i rs rest : bytes) (Hi : clean i) (Hrs : clean rs).
#[local] Abbreviation whole := (pre ++ i ++ TAB :: rs ++ TAB :: rest).
#[local] Abbreviation cut1 := (pre ++ i ++ 0 :: rs ++ TAB :: rest).
#[local] Abbreviation cut2 := (pre ++ i ++ 0 :: rs ++ 0 :: rest).
#[local] Abbreviation t1 := (blen pre + blen i).
#[local] Abbreviation t2 := (blen pre + blen i + 1 + blen rs).

Lemma cut_head : ∃ c, rd8 whole (blen pre) = Ok c ∧ c ≠ 0.
Proof using Hi.
  destruct Hi as [|c i' [? ?] _]; cbn [app]; rewrite rd8_end; [by exists TAB|exists c]. split; [done|lia].
Qed.

Lemma cut_tab1 : strchr whole (blen pre) TAB = Ok (Some t1).
Proof using Hi. apply strchr_found; [done|by apply clean_no_tab]. Qed.

Lemma cut_store1 : store8 whole t1 0 = Ok cut1.
Proof using. rewrite <- blen_app, !(app_assoc pre i). apply store8_ok. Qed.

Lemma cut_tab2 : strchr cut1 (t1 + 1) TAB = Ok (Some t2).
Proof using Hrs.
  replace (t1 + 1) with (blen (pre ++ i ++ [0])) by blia.
  replace (pre ++ i ++ 0 :: rs ++ TAB :: rest) with ((pre ++ i ++ [0]) ++ rs ++ TAB :: rest) by (by rewrite <- !app_assoc).
  rewrite strchr_found; [|done|by apply clean_no_tab]. do 2 f_equal; blia.
Qed.

Lemma cut_store2 c : store8 (pre ++ i ++ c :: rs ++ TAB :: rest) t2 0 = Ok (pre ++ i ++ c :: rs ++ 0 :: rest).
Proof using.
  replace t2 with (blen (pre ++ i ++ [c] ++ rs)) by blia.
  replace (pre ++ i ++ c :: rs ++ TAB :: rest) with ((pre ++ i ++ [c] ++ rs) ++ TAB :: rest) by (by rewrite <- !app_assoc).
  rewrite store8_ok. by rewrite <- !app_assoc.
Qed.

Lemma cut_minus : rd8 cut2 (blen pre) = Ok (match i with c :: _ => c | [] => 0 end).
Proof using. clear Hi; destruct i; cbn [app]; apply rd8_end. Qed.

Lemma cut_id : cstr_at cut2 (blen pre) = Ok i.
Proof using Hi. apply cstr_at_ok. by apply clean_cstring. Qed.

Lemma cut_id_tail : cstr_at cut2 (if negative i then blen pre + 1 else blen pre) = Ok (if negative i then tail i else i).
Proof using Hi.
  destruct (negative i) eqn:Hn; [|apply cut_id]. destruct i as [|c i']; [done|]. cbn [tail app].
  replace (blen pre + 1) with (blen (pre ++ [c])) by blia.
  replace (pre ++ c :: i' ++ 0 :: rs ++ 0 :: rest) with ((pre ++ [c]) ++ i' ++ 0 :: rs ++ 0 :: rest) by (by rewrite <- app_assoc).
  apply cstr_at_ok, clean_cstring. by inversion Hi.
Qed.

Lemma cut_rights : cstr_at cut2 (t1 + 1) = Ok rs.
Proof using Hrs.
  replace (t1 + 1) with (blen (pre ++ i ++ [0])) by blia.
  replace (pre ++ i ++ 0 :: rs ++ 0 :: rest) with ((pre ++ i ++ [0]) ++ rs ++ 0 :: rest) by (by rewrite <- !app_assoc).
  apply cstr_at_ok. by apply clean_cstring.
Qed.

Lemma cut_back1 : store8 cut2 t1 TAB = Ok (pre ++ i ++ TAB :: rs ++ 0 :: rest).
Proof using. rewrite <- blen_app, !(app_assoc pre i). apply store8_ok. Qed.

Lemma cut_back2 : store8 (pre ++ i ++ TAB :: rs ++ 0 :: rest) t2 TAB = Ok whole.
Proof using.
  replace t2 with (blen (pre ++ i ++ [TAB] ++ rs)) by blia.
  replace (pre ++ i ++ TAB :: rs ++ 0 :: rest) with ((pre ++ i ++ [TAB] ++ rs) ++ 0 :: rest) by (by rewrite <- !app_assoc).
  rewrite store8_ok. by rewrite <- !app_assoc.
Qed.

Lemma cut_next : blen pre + blen i + 1 + blen rs + 1 = blen (pre ++ entry_bytes (i, rs)).
Proof using. unfold entry_bytes. cbn [fst snd]. blia. Qed.
End Cut.

Section Lists.
Context (dr : Z) `{A : Auth}.

(** The rights an identifier has. *)
Definition rights_of_entry (e : bytes * bytes) : Z := cyrus_acl_strtomask dr e.2.
Fixpoint rights_in (es : table) (id : bytes) : Z :=
  match es with
  | [] => 0
  | (i, rs) :: es => if bool_decide (id = i) then cyrus_acl_strtomask dr rs else rights_in es id
  end.

(** What the entries give to the user and take away. *)
Definition member_mask (id rs : bytes) : Z := if auth_memberof id =? 0 then 0 else cyrus_acl_strtomask dr rs.
Definition given (es : table) : Z :=
  foldr (λ '(i, rs) n, if negative i then n else Z.lor (member_mask i rs) n) 0 es.
Definition taken (es : table) : Z :=
  foldr (λ '(i, rs) n, if negative i then Z.lor (member_mask (tail i) rs) n else n) 0 es.

Lemma myrights_loop_ok fuel pre es r pos neg :
  Forall (λ e, clean e.1 ∧ clean e.2) es → (length es < fuel)%nat →
  myrights_loop dr fuel (pre ++ encode es ++ 0 :: r) (blen pre) pos neg =
    Ok (pre ++ encode es ++ 0 :: r, Z.lor pos (given es), Z.lor neg (taken es)).
Proof.
  intros Hes. revert fuel pre pos neg. induction Hes as [|[i rs] es [Hi Hrs] _ IH]; intros fuel pre pos neg Hf;
    (destruct fuel as [|fuel]; [cbn in Hf; lia|]); cbn [myrights_loop length] in *.
  { change (encode [] ++ 0 :: r) with (0 :: r). rewrite rd8_end. cbn [mbind result_bind Z.eqb].
    by rewrite !Z.lor_0_r. }
  cbn [fst snd] in *. rewrite encode_cons. set (rest := encode es ++ 0 :: r).
  destruct (cut_head pre i rs rest Hi) as (c & -> & Hc). cbn [mbind result_bind]. destruct (Z.eqb_spec c 0); [done|].
  rewrite cut_tab1 by done. cbn [mbind result_bind]. rewrite cut_store1. cbn [mbind result_bind].
  rewrite cut_tab2 by done. cbn [mbind result_bind]. rewrite cut_store2. cbn [mbind result_bind].
  rewrite cut_minus. cbn [mbind result_bind].
  assert ((match i with c :: _ => c | [] => 0 end =? minus) = negative i) as -> by (by destruct i).
  rewrite cut_id_tail by done. cbn [mbind result_bind]. rewrite cut_rights by done. cbn [mbind result_bind].
  rewrite cut_back1. cbn [mbind result_bind]. rewrite cut_back2. cbn [mbind result_bind]. rewrite cut_next.
  assert (pre ++ i ++ TAB :: rs ++ TAB :: rest = (pre ++ entry_bytes (i, rs)) ++ rest) as ->.
  { unfold entry_bytes. cbn [fst snd]. rewrite <- !app_assoc. cbn. by rewrite <- app_assoc. }
  unfold rest. rewrite IH by lia. cbn [given taken foldr]. fold (given es) (taken es).
  destruct (negative i); by rewrite ?Z.lor_assoc.
Qed.

Lemma encode_len es : (length es ≤ length (encode es))%nat.
Proof.
  induction es as [|[i rs] es IH]; [done|]. unfold encode in *. rewrite fmap_cons, mjoin_cons, length_app.
  unfold entry_bytes at 1. cbn [fst snd]. rewrite length_app. cbn [length]. lia.
Qed.

Lemma myrights_ok es r : Forall (λ e, clean e.1 ∧ clean e.2) es →
  cyrus_acl_myrights dr (encode es ++ 0 :: r) = Ok (Z.land (given es) (Z.lnot (taken es)), encode es ++ 0 :: r).
Proof.
  intros Hes. unfold cyrus_acl_myrights. pose proof (encode_len es).
  rewrite (myrights_loop_ok _ [] es r 0 0 Hes) by (rewrite length_app; lia). cbn [mbind result_bind app].
  by rewrite !Z.lor_0_l.
Qed.

Lemma rights_absent es i : i ∉ es.*1 → rights_in es i = 0.
Proof.
  induction es as [|[j rs] es IH]; [done|]. cbn [rights_in]. rewrite fmap_cons. intros [? ?]%not_elem_of_cons.
  rewrite bool_decide_false by done. auto.
Qed.

Lemma member_bit id rs k : Z.testbit (member_mask id rs) k = true ↔ auth_memberof id ≠ 0 ∧ Z.testbit (cyrus_acl_strtomask dr rs) k = true.
Proof.
  unfold member_mask. destruct (Z.eqb_spec (auth_memberof id) 0) as [E|E]; [|tauto].
  rewrite Z.testbit_0_l. split; [done|tauto].
Qed.

Lemma rights_cons i rs es j : rights_in ((i, rs) :: es) j = if bool_decide (j = i) then cyrus_acl_strtomask dr rs else rights_in es j.
Proof. done. Qed.

Lemma given_bit es k : NoDup es.*1 →
  Z.testbit (given es) k = true ↔ ∃ i, negative i = false ∧ auth_memberof i ≠ 0 ∧ Z.testbit (rights_in es i) k = true.
Proof.
  induction es as [|[i rs] es IH]; intros Hnd.
  { cbn. split; [by rewrite Z.testbit_0_l|]. by intros (i & _ & _ & H); rewrite Z.testbit_0_l in H. }
  apply NoDup_cons in Hnd as [Hi Hnd]. specialize (IH Hnd). cbn [given foldr]. fold (given es). setoid_rewrite rights_cons.
  assert (∀ j, Z.testbit (rights_in es j) k = true → j ≠ i) as Hne.
  { intros j Hb ->. by rewrite rights_absent, Z.testbit_0_l in Hb. }
  destruct (negative i) eqn:Hn; [rewrite IH|rewrite Z.lor_spec, orb_true_iff, member_bit, IH]; split.
  - intros (j & Hj & Hm & Hb). exists j. rewrite bool_decide_false by auto. done.
  - intros (j & Hj & Hm & Hb). exists j. rewrite bool_decide_false in Hb by congruence. done.
  - intros [[Hm Hb]|(j & Hj & Hm & Hb)]; [exists i; by rewrite bool_decide_true|].
    exists j. rewrite bool_decide_false by auto. done.
  - intros (j & Hj & Hm & Hb). destruct (bool_decide_reflect (j = i)) as [->|]; [left; done|right; eauto].
Qed.

Lemma taken_bit es k : NoDup es.*1 →
  Z.testbit (taken es) k = true ↔ ∃ i, auth_memberof i ≠ 0 ∧ Z.testbit (rights_in es (minus :: i)) k = true.
Proof.
  induction es as [|[i rs] es IH]; intros Hnd.
  { cbn. split; [by rewrite Z.testbit_0_l|]. by intros (i & _ & H); rewrite Z.testbit_0_l in H. }
  apply NoDup_cons in Hnd as [Hi Hnd]. specialize (IH Hnd). cbn [taken foldr]. fold (taken es). setoid_rewrite rights_cons.
  assert (∀ j, Z.testbit (rights_in es j) k = true → j ≠ i) as Hne.
  { intros j Hb ->. by rewrite rights_absent, Z.testbit_0_l in Hb. }
  destruct (negative i) eqn:Hn; [rewrite Z.lor_spec, orb_true_iff, member_bit, IH|rewrite IH]; split.
  - destruct i as [|c i]; [done|]. cbn in Hn. apply Z.eqb_eq in Hn as ->. cbn [tail].
    intros [[Hm Hb]|(j & Hm & Hb)]; [exists i; by rewrite bool_decide_true|].
    exists j. rewrite bool_decide_false by auto. done.
  - intros (j & Hm & Hb). destruct (bool_decide_reflect (minus :: j = i)) as [<-|]; [left; done|right; eauto].
  - intros (j & Hm & Hb). exists j. rewrite bool_decide_false by auto. done.
  - intros (j & Hm & Hb). exists j. rewrite bool_decide_false in Hb; [done|]. intros <-. done.
Qed.

(** *** Changing an entry *)

Definition access_of (mode : acl_mode) (access old : Z) : Z :=
  match mode with
  | ACL_MODE_SET => access
  | ACL_MODE_ADD => Z.lor access old
  | ACL_MODE_REMOVE => Z.land old (Z.lnot access)
  end.

(** The table without its first entry for [id], split where it was. *)
Fixpoint before (es : table) (id : bytes) : table :=
  match es with
  | [] => []
  | (i, rs) :: es => if bool_decide (id = i) then [] else (i, rs) :: before es id
  end.
Fixpoint after (es : table) (id : bytes) : table :=
  match es with
  | [] => []
  | (i, rs) :: es => if bool_decide (id = i) then es else after es id
  end.

Lemma find_entry_ok fuel pre es r id : Forall (λ e, clean e.1 ∧ clean e.2) es → (length es < fuel)%nat →
  ∃ m mid, find_entry dr fuel (pre ++ encode es ++ 0 :: r) id (blen pre) =
      Ok (m, blen (pre ++ encode (before es id)), blen (pre ++ encode (before es id) ++ mid), rights_in es id) ∧
    m = pre ++ encode (before es id) ++ mid ++ encode (after es id) ++ 0 :: r.
Proof.
  intros Hes. revert fuel pre. induction Hes as [|[i rs] es [Hi Hrs] _ IH]; intros fuel pre Hf;
    (destruct fuel as [|fuel]; [cbn in Hf; lia|]); cbn [find_entry length before after rights_in] in *.
  { change (encode [] ++ 0 :: r) with (0 :: r). rewrite rd8_end. cbn [mbind result_bind Z.eqb].
    eexists _, []. cbn. rewrite !app_nil_r. done. }
  cbn [fst snd] in *. rewrite encode_cons. set (rest := encode es ++ 0 :: r).
  destruct (cut_head pre i rs rest Hi) as (c & -> & Hc). cbn [mbind result_bind]. destruct (Z.eqb_spec c 0); [done|].
  rewrite cut_tab1 by done. cbn [mbind result_bind]. rewrite cut_store1. cbn [mbind result_bind].
  rewrite cut_tab2 by done. cbn [mbind result_bind]. rewrite cut_store2. cbn [mbind result_bind].
  rewrite cut_id by done. cbn [mbind result_bind]. destruct (bool_decide_reflect (id = i)) as [->|Hne].
  - rewrite cut_rights by done. cbn [mbind result_bind]. eexists _, (i ++ 0 :: rs ++ [0]). cbn [encode fmap list_fmap mjoin list_join app].
    rewrite !app_nil_r. split; [f_equal; f_equal; f_equal; blia|]. by rewrite <- !app_assoc; cbn; rewrite <- app_assoc.
  - rewrite cut_back1. cbn [mbind result_bind]. rewrite cut_back2. cbn [mbind result_bind]. rewrite cut_next.
    assert (pre ++ i ++ TAB :: rs ++ TAB :: rest = (pre ++ entry_bytes (i, rs)) ++ rest) as ->.
    { unfold entry_bytes. cbn [fst snd]. rewrite <- !app_assoc. cbn. by rewrite <- app_assoc. }
    destruct (IH fuel (pre ++ entry_bytes (i, rs))) as (m & mid & E & ->); [lia|]. unfold rest. rewrite E.
    assert (∀ x, encode ((i, rs) :: x) = entry_bytes (i, rs) ++ encode x) as Hec by done.
    eexists _, mid. rewrite Hec, <- !app_assoc. done.
Qed.

(** The table with the rights of [id] made [a]. *)
Definition changed (es : table) (id : bytes) (a : Z) : table :=
  before es id ++ (if a =? 0 then [] else [(id, cyrus_acl_masktostr dr a)]) ++ after es id.

Lemma before_after (P : bytes * bytes → Prop) es id : Forall P es → Forall P (before es id) ∧ Forall P (after es id).
Proof.
  induction 1 as [|[i rs] es He Hes [IH1 IH2]]; cbn [before after]; [by split; constructor|].
  destruct (bool_decide (id = i)); [by split; [constructor|]|]. by split; [constructor|].
Qed.

Lemma encode_cstring es : Forall (λ e, clean e.1 ∧ clean e.2) es → is_cstring (encode es).
Proof.
  unfold is_cstring. induction 1 as [|[i rs] es [Hi Hrs] _ IH]; [constructor|]. rewrite <- (app_nil_r (encode _)), encode_cons, app_nil_r.
  apply clean_cstring in Hi, Hrs. unfold is_cstring in *. rewrite Forall_app, Forall_cons, Forall_app, Forall_cons. unfold TAB. repeat split; [done|lia..| |]; auto; lia.
Qed.

Lemma set_found acl identifier mode access canonproc id a m thisid nextid old :
  canon_identifier identifier access canonproc = Ok (Some (id, a)) →
  find_entry dr (S (length acl)) acl id 0 = Ok (m, thisid, nextid, old) →
  cyrus_acl_set dr acl identifier mode access canonproc =
    (rest ← cstr_at m nextid;
     let a := access_of mode a old in
     if a =? 0 then Ok (0, wr m thisid (rest ++ [0]))
     else
       let newacl := take (Z.to_nat thisid) m ++ id ++ [TAB] ++ cyrus_acl_masktostr dr a ++ [TAB] ++ rest ++ [0] in
       if blen newacl <=? thisid + blen id + 40 + blen rest then Ok (0, newacl) else Fault OutOfBounds).
Proof. intros Hc Hf. unfold cyrus_acl_set. rewrite Hc. cbn [mbind result_bind]. rewrite Hf. by destruct mode. Qed.

Lemma set_ok es r identifier mode access canonproc id a :
  Forall (λ e, clean e.1 ∧ clean e.2) es →
  canon_identifier identifier access canonproc = Ok (Some (id, a)) →
  ∃ r', cyrus_acl_set dr (encode es ++ 0 :: r) identifier mode access canonproc =
    Ok (0, encode (changed es id (access_of mode a (rights_in es id))) ++ 0 :: r').
Proof.
  intros Hes Hc. pose proof (encode_len es).
  destruct (find_entry_ok (S (length (encode es ++ 0 :: r))) [] es r id Hes) as (m & mid & E & Hm); [rewrite length_app; lia|].
  cbn [app] in *. rewrite (set_found _ _ _ _ _ _ _ _ _ _ _ Hc E).
  destruct (before_after _ es id Hes) as [_ Ha]. apply encode_cstring in Ha.
  rewrite Hm, app_assoc. rewrite cstr_at_ok by done. cbn [mbind result_bind]. set (acc := access_of _ _ _). unfold changed.
  pose proof (masktostr_len dr acc). destruct (Z.eqb_spec acc 0) as [->|Hne]; rewrite !encode_app, <- !app_assoc.
  - destruct (wr_prefix (encode (before es id)) (mid ++ encode (after es id) ++ 0 :: r) (encode (after es id) ++ [0])) as [r' Hr'].
    { rewrite !blen_app, !blen_cons, blen_nil. pose proof (blen_nonneg mid). pose proof (blen_nonneg r). lia. }
    exists r'. by rewrite Hr', <- !app_assoc.
  - rewrite take_blen. destruct (Z.leb_spec (blen (encode (before es id) ++ id ++ [TAB] ++ cyrus_acl_masktostr dr acc ++
      [TAB] ++ encode (after es id) ++ [0])) (blen (encode (before es id)) + blen id + 40 + blen (encode (after es id)))) as [|Hl].
    + exists []. by rewrite <- !app_assoc, encode_cons.
    + exfalso. rewrite !blen_app in Hl. change (blen [TAB]) with 1 in Hl. change (blen [0]) with 1 in Hl. lia.
Qed.

Lemma before_keys es id j : j ∈ (before es id).*1 → j ∈ es.*1 ∧ j ≠ id.
Proof.
  induction es as [|[i rs] es IH]; cbn [before]; [by intros ?%elem_of_nil|].
  destruct (bool_decide_reflect (id = i)) as [->|]; [by intros ?%elem_of_nil|]. rewrite !fmap_cons, !elem_of_cons. cbn.
  intros [->|?]; [by auto|]. destruct IH; auto.
Qed.

Lemma changed_keys es id a : NoDup es.*1 →
  NoDup (changed es id a).*1 ∧ ∀ j, j ∈ (changed es id a).*1 → j ∈ es.*1 ∨ (j = id ∧ a ≠ 0).
Proof.
  unfold changed. induction es as [|[i rs] es IH]; intros Hnd; cbn [before after].
  { cbn. destruct (Z.eqb_spec a 0); cbn; (split; [repeat constructor; by intros ?%elem_of_nil|]);
      intros j; [by intros ?%elem_of_nil|]. rewrite list_elem_of_singleton. auto. }
  apply NoDup_cons in Hnd as [Hi Hnd]. destruct (bool_decide_reflect (id = i)) as [->|Hne].
  - destruct (Z.eqb_spec a 0); cbn [app]; rewrite ?fmap_cons; cbn [fst]; (split; [by try constructor|]);
      intros j; rewrite ?elem_of_cons; [auto|]. intros [->|]; auto.
  - destruct (IH Hnd) as [IH1 IH2]. cbn [app]. rewrite fmap_cons. cbn [fst]. split.
    + constructor; [|done]. intros [?|[? _]]%IH2; [done|congruence].
    + intros j. rewrite fmap_cons, !elem_of_cons. intros [->|[?|?]%IH2]; auto.
Qed.

Lemma changed_rights es id a j : right_of dr = 0 ∨ dr = 120 → NoDup es.*1 →
  rights_in (changed es id a) j = if bool_decide (j = id) then Z.land a ACL_FULL else rights_in es j.
Proof.
  intros Hdr Hnd. induction es as [|[i rs] es IH]; unfold changed in *; cbn [before after app].
  { destruct (Z.eqb_spec a 0) as [->|]; cbn [app]; [by rewrite Z.land_0_l; destruct (bool_decide _)|].
    rewrite rights_cons, rights_roundtrip by done. done. }
  apply NoDup_cons in Hnd as [Hi Hnd]. destruct (bool_decide_reflect (id = i)) as [->|Hne]; cbn [app].
  - destruct (Z.eqb_spec a 0) as [->|]; cbn [app]; rewrite ?rights_cons, ?rights_roundtrip by done.
    + destruct (bool_decide_reflect (j = i)) as [->|]; [by rewrite rights_absent, Z.land_0_l|done].
    + by destruct (bool_decide _).
  - rewrite !rights_cons, IH by done. destruct (bool_decide_reflect (j = i)) as [->|]; [|done].
    by rewrite bool_decide_false by auto.
Qed.

Lemma changed_ok es id a : table_ok es → (a ≠ 0 → clean id) → table_ok (changed es id a).
Proof.
  intros [Hes Hnd] Hid. split; [|by apply changed_keys]. destruct (before_after _ es id Hes) as [Hb Ha].
  unfold changed. rewrite !Forall_app. repeat split; [done| |done].
  destruct (Z.eqb_spec a 0); [constructor|]. constructor; [|constructor]. split; [auto|apply masktostr_clean].
Qed.

Lemma rights_key es id : rights_in es id ≠ 0 → id ∈ es.*1.
Proof. intros H. destruct (decide (id ∈ es.*1)); [done|]. by rewrite rights_absent in H. Qed.
End Lists.

(** *** Identifiers *)

Section Canon.
Context (dr : Z) `{A : Auth} (HA : AuthOk A).

Lemma canon_identifier_returns identifier access canonproc : is_cstring identifier →
  ∃ o, canon_identifier identifier access canonproc = Ok o.
Proof using HA.
  intros Hi. unfold canon_identifier.
  assert (is_cstring (if negative identifier then tail identifier else identifier)) as Hp.
  { destruct (negative identifier); [|done]. by destruct Hi; [constructor|]. }
  destruct (canonify_returns _ Hp) as [c ->]. cbn [mbind result_bind]. destruct (match c with None => _ | Some _ => _ end); eauto.
Qed.

(** The identifier the change is about can stand in an entry, when rights remain. *)
Lemma canon_identifier_clean es identifier access canonproc mode id a :
  is_cstring identifier → table_ok es →
  (∀ f, canonproc = Some f → ∃ c, auth_canonifyid (if negative identifier then tail identifier else identifier) = Ok (Some c)) →
  canon_identifier identifier access canonproc = Ok (Some (id, a)) →
  access_of mode a (rights_in dr es id) ≠ 0 → clean id.
Proof using HA.
  intros Hi Hes Hf. unfold canon_identifier.
  set (plain := if negative identifier then tail identifier else identifier) in *.
  assert (is_cstring plain) as Hp by (subst plain; destruct (negative identifier); [by destruct Hi; [constructor|]|done]).
  destruct (canonify_returns _ Hp) as [[c|] Hc]; rewrite Hc; cbn [mbind result_bind default from_option].
  - intros [= <- _] _. destruct (canonify_clean _ _ Hp Hc) as [Hcl _]. destruct (negative identifier); [|done].
    constructor; [unfold minus; lia|done].
  - destruct (Z.eqb_spec access 0) as [->|]; [|done]. cbn [negb]. destruct canonproc as [f|].
    { destruct (Hf f eq_refl) as [c Hc']. rewrite Hc in Hc'. done. }
    intros [= <- <-] Hne. assert (rights_in dr es (if negative identifier then minus :: plain else plain) ≠ 0) as Hr.
    { intros E. apply Hne. rewrite E. by destruct mode. }
    apply rights_key, list_elem_of_fmap in Hr as ([i rs] & -> & Hin). destruct Hes as [Hes _].
    by destruct (proj1 (list.Forall_forall _ _) Hes _ Hin).
Qed.
End Canon.
