(* ===== verification/AclTheorems.v ===== *)
(** * AclTheorems: rights, lists and users

    The theorems about access control lists, applied to the mechanism
    [auth_unix] and small lists. *)
From S2P Require Import Prelude CMem.
From stdpp Require Import list.
From S2P Require Import CString Auth Acl AclSpec.
#[local] Open Scope Z_scope.

(** ** Rights *)

Lemma right_of_letters c : right_of c ≠ 0 →
  c ∈ [108; 114; 115; 119; 105; 112; 107; 120; 116; 101; 97; 48; 49; 50; 51; 52; 53; 54; 55; 56; 57].
Proof.
  intros H. destruct c as [|p|p]; [by destruct H| |by destruct H].
  do 7 (try (destruct p as [p|p|]; try by destruct H)); try by destruct H.
  all: repeat constructor.
Qed.

Lemma deleteright_widens dr : right_of dr ≠ 0 → dr ≠ 120 →
  cyrus_acl_strtomask dr (cyrus_acl_masktostr dr (right_of dr)) ≠ Z.land (right_of dr) ACL_FULL.
Proof.
  intros H%right_of_letters Hx. repeat (apply elem_of_cons in H as [->|H]; [done|]). by apply elem_of_nil in H.
Qed.

(** C32: a mask written as a string by [cyrus_acl_masktostr] and read back by
    [cyrus_acl_strtomask] is the mask again, less the bits that stand for no
    right, exactly when the configured [deleteright] is not the letter of another
    right: it is "x", or it stands for no right by itself, as a legacy letter
    ("c", "d"), any other character or none.  With the letter of another right, that right comes back
    with the right to delete the mailbox.  The string fits the [ACL_MAXSTR] bytes callers allocate. *)
Theorem acl_rights_roundtrip dr :
  (right_of dr = 0 ∨ dr = 120 ↔
   ∀ acl, cyrus_acl_strtomask dr (cyrus_acl_masktostr dr acl) = Z.land acl ACL_FULL) ∧
  (∀ acl, blen (cyrus_acl_masktostr dr acl) + 1 ≤ ACL_MAXSTR).
Proof.
  split; [split|].
  - intros H acl. by apply rights_roundtrip.
  - intros H. destruct (decide (right_of dr = 0)); [by left|]. destruct (decide (dr = 120)); [by right|].
    by destruct (deleteright_widens dr).
  - intros acl. pose proof (masktostr_len dr acl). unfold ACL_MAXSTR. lia.
Qed.

(** ** Changing an entry *)

Section Change.
Context (dr : Z) `{A : Auth} (HA : AuthOk A).

(** C30: [cyrus_acl_set] on a well-formed list.  An identifier that has no
    canonical form is refused and the list left alone, except that it can be
    removed.  Otherwise the list stays well formed, the rights of the identifier
    are those that the mode makes of the access and of what it had, and nobody
    else's change; the new block holds what is written to it. *)
Theorem acl_set_changes_entry es r identifier mode access canonproc :
  right_of dr = 0 ∨ dr = 120 → is_cstring identifier → table_ok es →
  (∀ f, canonproc = Some f → ∃ c, auth_canonifyid (if negative identifier then tail identifier else identifier) = Ok (Some c)) →
  ∃ o, canon_identifier identifier access canonproc = Ok o ∧
  match o with
  | None => cyrus_acl_set dr (encode es ++ 0 :: r) identifier mode access canonproc = Ok (-1, encode es ++ 0 :: r)
  | Some (id, a) => ∃ es' r',
      cyrus_acl_set dr (encode es ++ 0 :: r) identifier mode access canonproc = Ok (0, encode es' ++ 0 :: r') ∧
      table_ok es' ∧
      ∀ j, rights_in dr es' j =
        if bool_decide (j = id) then Z.land (access_of mode a (rights_in dr es id)) ACL_FULL else rights_in dr es j
  end.
Proof using All.
  intros Hdr Hi Hes Hf. destruct (canon_identifier_returns HA identifier access canonproc Hi) as [o Ho]. exists o.
  split; [done|]. destruct o as [[id a]|]; [|unfold cyrus_acl_set; by rewrite Ho].
  destruct (set_ok dr es r identifier mode access canonproc id a) as [r' Hr']; [by destruct Hes|done|].
  exists (changed dr es id (access_of mode a (rights_in dr es id))), r'. split; [done|]. split.
  - apply changed_ok; [done|]. by eapply (canon_identifier_clean dr HA).
  - intros j. apply changed_rights; [done|]. by destruct Hes.
Qed.
End Change.

(** ** Reading rights *)

(** C31: [cyrus_acl_myrights] on a well-formed list returns, with the list as it
    was, and a right is among them exactly when some entry without a minus sign
    for an identifier that covers the user has it, and no entry with a minus
    sign for one that covers the user has it, in whatever order they stand. *)
Theorem acl_myrights_bits dr `{A : Auth} es r : table_ok es →
  ∃ n, cyrus_acl_myrights dr (encode es ++ 0 :: r) = Ok (n, encode es ++ 0 :: r) ∧
  ∀ k, 0 ≤ k →
    (Z.testbit n k = true ↔
     (∃ i, negative i = false ∧ auth_memberof i ≠ 0 ∧ Z.testbit (rights_in dr es i) k = true) ∧
     ¬ ∃ i, auth_memberof i ≠ 0 ∧ Z.testbit (rights_in dr es (minus :: i)) k = true).
Proof.
  intros [Hes Hnd]. eexists. split; [by apply myrights_ok|]. intros k Hk.
  rewrite Z.land_spec, Z.lnot_spec by done. rewrite andb_true_iff, negb_true_iff.
  rewrite <- (given_bit dr es k Hnd), <- (taken_bit dr es k Hnd). by rewrite not_true_iff_false.
Qed.

(** ** Applied *)

(** The user "bob" in the group "staff", with [deleteright] "c". *)
Definition bob : bytes := [98; 111; 98].
Definition staff : bytes := [115; 116; 97; 102; 102].
Definition no_groups (i : bytes) : option bytes := if bool_decide (i = staff) then Some staff else None.
Definition bobs_auth : Auth :=
  auth_unix no_groups false (Some (AuthState bob [staff])).

Lemma no_groups_ok i name : no_groups i = Some name → clean name ∧ blen name ≤ 74.
Proof. unfold no_groups. destruct (bool_decide _); [|done]. intros [= <-]. split; [apply (bool_decide_unpack _)|]; by vm_compute. Qed.

(** "group:staff" can look up and read, "bob" write, but not read. *)
Definition bobs_acl : table := [(group_prefix ++ staff, [108; 114]); (bob, [119]); (minus :: bob, [114])].

Lemma bobs_acl_ok : table_ok bobs_acl.
Proof. apply (bool_decide_unpack _). by vm_compute. Qed.

Lemma acl_set_changes_entry_witness :
  ∃ o, canon_identifier (A := bobs_auth) bob ACL_LOOKUP None = Ok o ∧
  match o with
  | None => cyrus_acl_set (A := bobs_auth) 99 (encode bobs_acl ++ [0]) bob ACL_MODE_ADD ACL_LOOKUP None = Ok (-1, encode bobs_acl ++ [0])
  | Some (id, a) => ∃ es' r',
      cyrus_acl_set (A := bobs_auth) 99 (encode bobs_acl ++ [0]) bob ACL_MODE_ADD ACL_LOOKUP None = Ok (0, encode es' ++ 0 :: r') ∧
      table_ok es' ∧
      ∀ j, rights_in 99 es' j =
        if bool_decide (j = id) then Z.land (access_of ACL_MODE_ADD a (rights_in 99 bobs_acl id)) ACL_FULL
        else rights_in 99 bobs_acl j
  end.
Proof.
  eapply (acl_set_changes_entry 99 (auth_unix_ok no_groups false no_groups_ok _) bobs_acl [] bob ACL_MODE_ADD ACL_LOOKUP None).
  - by left.
  - repeat constructor; lia.
  - apply bobs_acl_ok.
  - done.
Defined.

Lemma acl_myrights_bits_witness :
  ∃ n, cyrus_acl_myrights (A := bobs_auth) 99 (encode bobs_acl ++ [0]) = Ok (n, encode bobs_acl ++ [0]) ∧
  ∀ k, 0 ≤ k →
    (Z.testbit n k = true ↔
     (∃ i, negative i = false ∧ auth_memberof (Auth := bobs_auth) i ≠ 0 ∧ Z.testbit (rights_in 99 bobs_acl i) k = true) ∧
     ¬ ∃ i, auth_memberof (Auth := bobs_auth) i ≠ 0 ∧ Z.testbit (rights_in 99 bobs_acl (minus :: i)) k = true).
Proof. apply (acl_myrights_bits 99 (A := bobs_auth) bobs_acl []), bobs_acl_ok. Defined.

(** The rights are lookup and write; adding to them; the legacy "c" of [deleteright] "c". *)
Example bobs_rights :
  cyrus_acl_myrights (A := bobs_auth) 99 (encode bobs_acl ++ [0]) = Ok (Z.lor ACL_LOOKUP ACL_WRITE, encode bobs_acl ++ [0]) ∧
  cyrus_acl_set (A := bobs_auth) 99 (encode bobs_acl ++ [0]) bob ACL_MODE_ADD ACL_LOOKUP None =
    Ok (0, encode [(group_prefix ++ staff, [108; 114]); (bob, [108; 119]); (minus :: bob, [114])] ++ [0]) ∧
  cyrus_acl_strtomask 99 [99] = Z.lor ACL_CREATE ACL_DELETEMBOX ∧
  cyrus_acl_masktostr 99 (Z.lor ACL_CREATE ACL_DELETEMBOX) = [107; 120; 99].
Proof. by vm_compute. Qed.

(** A user outside the groups has no rights of the group. *)
Example strangers_rights :
  cyrus_acl_myrights (A := auth_unix no_groups false (Some (AuthState anonymous []))) 99 (encode bobs_acl ++ [0]) =
    Ok (0, encode bobs_acl ++ [0]).
Proof. by vm_compute. Qed.
