(* ===== verification/Glob.v ===== *)
(** * Glob: mailbox name patterns ([lib/glob.c])

    [glob_init_suppress] compiles a pattern, normalising its wildcards, and
    [glob_test] matches names against it, remembering the last ['*'] and the
    last ['%'] to go back to.  A pointer into the pattern or into the name is an
    offset; [NULL] is [None]. *)
From S2P Require Import Prelude CMem CString.
#[local] Open Scope Z_scope.

Definition STAR : Z := 42.
Definition PCT : Z := 37.
Definition QUEST : Z := 63.

Definition GLOB_ICASE : Z := 1.
Definition GLOB_SUBSTRING : Z := 2.
Definition GLOB_HIERARCHY : Z := 4.
Definition GLOB_INBOXCASE : Z := 8.

Definition flag (flags f : Z) : bool := negb (Z.land flags f =? 0).

(** [struct glob]; [suppress] is an offset into [str]. *)
Record glob := Glob {
  flags : Z;
  slen : Z;
  suppress : option Z;
  g_gstar : option Z; g_ghier : option Z; g_gptr : Z;
  sep_char : Z;
  inbox : bytes;
  str : bytes;
}.

(** ** [glob_init_suppress] *)

Section Init.
Context (room : Z).

(** [*dst++ = c]: [room] bytes were allocated for the string and [dst] is what
    has been written. *)
Definition put (dst : bytes) (c : Z) : result bytes :=
  if blen dst <? room then Ok (dst ++ [c]) else Fault OutOfBounds.

(** [while ( *str == '*' || ( *str == '%' && str[1])) ++str;] *)
Fixpoint skip_new (s : bytes) : result bytes :=
  match s with
  | [] => Fault OutOfBounds
  | c :: s' =>
      if c =? STAR then skip_new s'
      else if c =? PCT then d ← rd8 s' 0; if d =? 0 then Ok s else skip_new s'
      else Ok s
  end.

(** The wildcards of an old-style pattern: what is not ['*'] becomes ['?']. *)
Fixpoint skip_old (s dst : bytes) : result (bytes * bytes) :=
  match s with
  | [] => Fault OutOfBounds
  | c :: s' =>
      if c =? STAR then skip_old s' dst
      else if (c =? PCT) || (c =? QUEST) then dst ← put dst QUEST; skip_old s' dst
      else Ok (s, dst)
  end.

(** [while ( *str == '%') ++str;] *)
Fixpoint skip_pct (s : bytes) : result bytes :=
  match s with
  | [] => Fault OutOfBounds
  | c :: s' => if c =? PCT then skip_pct s' else Ok s
  end.

Fixpoint copy_old (fuel : nat) (s dst : bytes) : result bytes :=
  match fuel with
  | O => Fault OutOfFuel
  | S fuel' =>
      c ← rd8 s 0;
      if c =? 0 then Ok dst else
      if c =? STAR then
        (* move '?' to left of '*' (3) *)
        '(s, dst) ← skip_old s dst;
        dst ← put dst STAR;
        copy_old fuel' s dst
      else
        dst ← put dst (if c =? PCT then QUEST else c);
        copy_old fuel' (tail s) dst
  end.

Fixpoint copy_new (fuel : nat) (s dst : bytes) : result bytes :=
  match fuel with
  | O => Fault OutOfFuel
  | S fuel' =>
      c ← rd8 s 0;
      if c =? 0 then Ok dst else
      if (c =? STAR) || (c =? PCT) then
        (* remove duplicate hierarchy match (5) *)
        s ← skip_pct s;
        c ← rd8 s 0;
        (* If we found a '*', treat '%' as '*' (4) *)
        if c =? STAR then
          s ← skip_new s;
          dst ← put dst STAR;
          copy_new fuel' s dst
        else
          dst ← put dst PCT;
          copy_new fuel' s dst
      else
        dst ← put dst c;
        copy_new fuel' (tail s) dst
  end.

(** [while (dst[-1] == '%') --dst;] *)
Fixpoint drop_pct (n : nat) (dst : bytes) : bytes :=
  match n with
  | O => dst
  | S n' => match list.last dst with Some c => if c =? PCT then drop_pct n' (removelast dst) else dst | None => dst end
  end.

(** The normalised pattern, with its NUL. *)
Definition init_str (s : bytes) (fl : Z) : result bytes :=
  let newglob := flag fl GLOB_HIERARCHY in
  '(s, dst) ← (if flag fl GLOB_SUBSTRING then
                 '(s, dst) ← (if newglob then s ← skip_new s; Ok (s, []) else skip_old s []);
                 dst ← put dst STAR; Ok (s, dst)
               else Ok (s, []));
  dst ← (if newglob then copy_new (S (length s)) s dst else copy_old (S (length s)) s dst);
  dst ← (if flag fl GLOB_SUBSTRING then
           match list.last dst with
           | None => Fault OutOfBounds
           | Some c =>
               if c =? STAR then Ok dst
               else put (if newglob then drop_pct (length dst) dst else dst) STAR
           end
         else Ok dst);
  dst ← put dst 0;
  if flag fl GLOB_ICASE then lcase dst else Ok dst.
End Init.

(** Pre-match "INBOX": [p] is [str], [d] is [dst], an offset into [ib]. *)
Fixpoint inbox_copy (n : nat) (s : bytes) (p d : Z) (ib : bytes) : result (Z * Z * bytes) :=
  match n with
  | O => Fault OutOfFuel
  | S n' =>
      y ← rd8 ib d;
      if y =? 0 then Ok (p, d, ib) else
      x ← rd8 s p;
      if TOLOWER x =? TOLOWER y then inbox_copy n' s (p + 1) (d + 1) (wr ib d [x]) else Ok (p, d, ib)
  end.

Fixpoint inbox_skip (n : nat) (x : Z) (ib : bytes) (d : Z) : result Z :=
  match n with
  | O => Fault OutOfFuel
  | S n' =>
      y ← rd8 ib d;
      if y =? 0 then Ok d else if negb (TOLOWER x =? TOLOWER y) then inbox_skip n' x ib (d + 1) else Ok d
  end.

Fixpoint inbox_loop (fuel : nat) (s : bytes) (p d : Z) (ib : bytes) (gstar ghier : option Z) :
    result (Z * Z * bytes * option Z * option Z) :=
  match fuel with
  | O => Fault OutOfFuel
  | S fuel' =>
      '(p, d, ib) ← inbox_copy 6 s p d ib;
      x ← rd8 s p;
      if (x =? STAR) || (x =? PCT) then
        let p := p + 1 in
        let gstar := if x =? STAR then Some p else gstar in
        let ghier := if x =? STAR then None else Some p in
        x ← rd8 s p;
        d ← (if negb (x =? PCT) then inbox_skip 6 x ib d else Ok d);
        y ← rd8 ib d;
        if negb (x =? 0) && negb (y =? 0) then inbox_loop fuel' s p d ib gstar ghier
        else Ok (p, d, ib, gstar, ghier)
      else Ok (p, d, ib, gstar, ghier)
  end.

(** [while ( *str && *str == *suppress) ++str, ++suppress;] *)
Fixpoint common (n : nat) (s : bytes) (i : Z) (sup : bytes) (j : Z) : result (Z * Z) :=
  match n with
  | O => Fault OutOfFuel
  | S n' =>
      x ← rd8 s i;
      if x =? 0 then Ok (i, j) else
      y ← rd8 sup j;
      if x =? y then common n' s (i + 1) sup (j + 1) else Ok (i, j)
  end.

(** Whether the suppress string is set. *)
Definition suppresses (s sup : bytes) (slen fl sep : Z) : result bool :=
  eq ← strncmp_eq sup 0 s 0 (Z.to_nat slen);
  test ← (if negb eq then Ok true else
            x ← rd8 s slen;
            Ok (negb (x =? 0) && negb (x =? sep) && negb (x =? STAR) && negb (x =? PCT)));
  if negb (test : bool) then Ok false else
  '(i, j) ← common (S (length s)) s 0 sup 0;
  if flag fl GLOB_INBOXCASE then Ok true else
  x ← rd8 s i;
  if (x =? STAR) || (x =? PCT) then Ok true else y ← rd8 sup j; Ok (y =? 0).

Definition INBOX : bytes := [73; 78; 66; 79; 88].
Definition INBOXLEN : Z := 5.

Definition glob_init_suppress (s : bytes) (fl : Z) (sup : option bytes) : result glob :=
  slen ← match sup with Some u => strlen_at u 0 | None => Ok 0 end;
  n ← strlen_at s 0;
  (* [str[3]] ends the structure *)
  let room := 3 + slen + n + 1 in
  dst ← init_str room s fl;
  let sep := 46 in
  '(fl', gp, ib, gstar, ghier) ←
    (if flag fl GLOB_INBOXCASE then
       '(p, d, ib, gstar, ghier) ← inbox_loop (S (length dst)) dst 0 0 (INBOX ++ [0]) None None;
       y ← rd8 ib d;
       Ok (if negb (y =? 0) then Z.ldiff fl GLOB_INBOXCASE else fl, p, ib, gstar, ghier)
     else Ok (fl, 0, INBOX ++ [0], None, None));
  match sup with
  | None => Ok (Glob fl' slen None gstar ghier gp sep ib dst)
  | Some u =>
      v ← cstr u;
      (* strcpy(dst, suppress) *)
      if room <? blen dst + blen v + 1 then Fault OutOfBounds else
      let mem := dst ++ v ++ [0] in
      b ← suppresses mem u slen fl' sep;
      Ok (Glob fl' slen (if (b : bool) then Some (blen dst) else None) gstar ghier gp sep ib mem)
  end.

Definition glob_init (s : bytes) (fl : Z) : result glob := glob_init_suppress s fl None.

(** ** [glob_test] *)

(** The variables of the loop. *)
Record gs := Gs {
  gptr : Z; ptr : Z;
  gstar : option Z; pstar : Z;
  ghier : option Z; phier : Z;
}.

(** How a turn of the loop ends: [break], [return], or at its end. *)
Inductive turn :=
  | Break (gptr ptr : Z)
  | Return (r min : Z)
  | Next (s : gs) (sepfound : bool).

Section Test.
Context (g : glob) (text : bytes) (pend : Z).

Definition newglob : bool := flag (flags g) GLOB_HIERARCHY.

(** The comparison of a pattern character with one of the name, which is what
    the two copies of the loop differ in. *)
Definition char_eq (c x : Z) : bool := c =? (if flag (flags g) GLOB_ICASE then TOLOWER x else x).

(** See if we match to the next '%' or '*' wildcard; [n] is [pend - ptr]. *)
Fixpoint literals (n : nat) (gp p : Z) : result (Z * Z) :=
  c ← rd8 (str g) gp;
  if (c =? STAR) || (c =? PCT) then Ok (gp, p) else
  match n with
  | O => Ok (gp, p)
  | S n' =>
      x ← rd8 text p;
      if char_eq c x || (negb newglob && (c =? QUEST)) then literals n' (gp + 1) (p + 1) else Ok (gp, p)
  end.

(** Look for a match with [c], the first char following '%'; stop at a sep_char
    unless we're doing "*%" ([past] says up to where). *)
Fixpoint find_hier (n : nat) (c : Z) (past : option Z) (p : Z) : result Z :=
  match n with
  | O => Ok p
  | S n' =>
      x ← rd8 text p;
      if negb (char_eq c x) &&
         (negb (x =? sep_char g) || match past with Some m => p <? m | None => false end)
      then find_hier n' c past (p + 1) else Ok p
  end.

(** Look for a match with first char following '*'. *)
Fixpoint find_star (n : nat) (c : Z) (p : Z) : result Z :=
  match n with
  | O => Ok p
  | S n' => x ← rd8 text p; if negb (char_eq c x) then find_star n' c (p + 1) else Ok p
  end.

Definition todo (p : Z) : nat := Z.to_nat (pend - p).

(** [min && *min < ptr - start && ptr != pend && *ptr == g->sep_char] *)
Definition at_partial (min : option Z) (p : Z) : result bool :=
  match min with
  | Some m =>
      if (m <? p) && negb (p =? pend) then x ← rd8 text p; Ok (x =? sep_char g) else Ok false
  | None => Ok false
  end.

(** What follows when there is a '%' to go back to: [inl] leaves the loop. *)
Definition hier_turn (min : option Z) (s : gs) : result (turn + gs * bool) :=
  match ghier s with
  | None => Ok (inr (s, false))
  | Some h =>
      c ← rd8 (str g) h;
      past ← match gstar s with
             | Some k => if c =? 0 then d ← rd8 (str g) k; Ok (if d =? PCT then min else None) else Ok None
             | None => Ok None
             end;
      p ← find_hier (todo (phier s)) c past (phier s);
      if p =? pend then Ok (inl (Break h p)) else
      x ← rd8 text p;
      if x =? sep_char g then
        part ← (if c =? 0 then at_partial min p else Ok false);
        if (part : bool) then Ok (inl (Return p match gstar s with Some _ => p + 1 | None => -1 end))
        else Ok (inr (Gs (gptr s) p (gstar s) (pstar s) None (phier s), true))
      else Ok (inr (Gs (h + 1) (p + 1) (gstar s) (pstar s) (ghier s) (p + 1), false))
  end.

(** When there is a '*' and no '%'. *)
Definition star_turn (min : option Z) (s : gs) : result (turn + gs) :=
  match gstar s, ghier s with
  | Some k, None =>
      c ← rd8 (str g) k;
      (* was the * at the end of the pattern? *)
      if c =? 0 then Ok (inl (Break (gptr s) pend)) else
      q ← find_star (todo (pstar s)) c (pstar s);
      if q =? pend then
        e ← rd8 (str g) (gptr s);
        part ← (if e =? 0 then at_partial min (ptr s) else Ok false);
        Ok (inl (if (part : bool) then Return (ptr s) (ptr s + 1) else Break k (ptr s)))
      else Ok (inr (Gs (k + 1) (q + 1) (gstar s) (q + 1) (ghier s) (phier s)))
  | _, _ => Ok (inr s)
  end.

(** A wildcard that has been reached becomes the one to go back to. *)
Definition note_star (s : gs) : result gs :=
  c ← rd8 (str g) (gptr s);
  Ok (if c =? STAR then Gs (gptr s + 1) (ptr s) (Some (gptr s + 1)) (ptr s) None (phier s) else s).
Definition note_hier (s : gs) : result gs :=
  c ← rd8 (str g) (gptr s);
  Ok (if c =? PCT then Gs (gptr s + 1) (ptr s) (gstar s) (pstar s) (Some (gptr s + 1)) (ptr s) else s).

Definition glob_turn (min : option Z) (s : gs) : result turn :=
  '(gp, p) ← literals (todo (ptr s)) (gptr s) (ptr s);
  c ← rd8 (str g) gp;
  (* End of pattern and end of string -- match! *)
  if (c =? 0) && (p =? pend) then Ok (Break gp p) else
  s ← note_star (Gs gp p (gstar s) (pstar s) (ghier s) (phier s));
  s ← note_hier s;
  h ← hier_turn min s;
  match h with
  | inl t => Ok t
  | inr (s, sepfound) =>
      k ← star_turn min s;
      match k with
      | inl t => Ok t
      | inr s =>
          e ← rd8 (str g) (gptr s);
          part ← (if e =? 0 then at_partial min (ptr s) else Ok false);
          Ok (if (part : bool) then Return (ptr s) (ptr s + 1) else Next s sepfound)
      end
  end.

(** Continue if at wildcard or we passed an asterisk. *)
Definition goes_on (s : gs) (sepfound : bool) : result bool :=
  e ← rd8 (str g) (gptr s);
  Ok ((e =? STAR) || (e =? PCT) ||
      ((match gstar s with Some _ => true | None => false end ||
        match ghier s with Some _ => true | None => false end || sepfound) &&
       (negb (e =? 0) || negb (ptr s =? pend)))).

(** [if (min) *min = -1; return ( *gptr == '\0' && ptr == pend ? ptr - start : -1);] *)
Definition glob_end (min : option Z) (gp p : Z) : result (Z * option Z) :=
  e ← rd8 (str g) gp;
  Ok (if (e =? 0) && (p =? pend) then to_s32 p else -1, match min with Some _ => Some (-1) | None => None end).

Fixpoint glob_loop (fuel : nat) (min : option Z) (s : gs) : result (Z * option Z) :=
  match fuel with
  | O => Fault OutOfFuel
  | S fuel' =>
      t ← glob_turn min s;
      match t with
      | Break gp p => glob_end min gp p
      | Return r m => Ok (to_s32 r, Some m)
      | Next s sepfound =>
          b ← goes_on s sepfound;
          if (b : bool) then glob_loop fuel' min s else glob_end min (gptr s) (ptr s)
      end
  end.
End Test.

(** The two wildcards only move forward, and so do the places they are tried at. *)
Definition glob_fuel (g : glob) (pend : Z) : nat :=
  let n := (length (str g) + Z.to_nat pend)%nat in S ((n + 3) * (2 * n + 6)).

(** The result and [*min], [None] standing for a null [min]. *)
Definition glob_test (g : glob) (text : bytes) (len : Z) (min : option Z) : result (Z * option Z) :=
  if match min with Some m => m <? 0 | None => false end then Ok (-1, min) else
  pend ← (if len =? 0 then strlen_at text 0 else Ok len);
  (* check for INBOX prefix *)
  ib ← (if flag (flags g) GLOB_INBOXCASE then strncmp_eq text 0 (INBOX ++ [0]) 0 5 else Ok false);
  let s :=
    if (ib : bool) then Gs (g_gptr g) INBOXLEN (g_gstar g) INBOXLEN (g_ghier g) INBOXLEN
    else Gs 0 0 None 0 None 0 in
  (* check for suppress string *)
  sup ← match suppress g with
        | None => Ok false
        | Some u =>
            e ← strncmp_eq (str g) u text (ptr s) (Z.to_nat (slen g));
            if negb e then Ok false else
            x ← rd8 text (ptr s + slen g); Ok ((x =? 0) || (x =? sep_char g))
        end;
  if (sup : bool) && negb (flag (flags g) GLOB_INBOXCASE) then
    Ok (-1, match min with Some _ => Some (-1) | None => None end)
  else
    let s := if (sup : bool) then
               let p := ptr s + slen g in Gs (g_gptr g) p (g_gstar g) p (g_ghier g) p
             else s in
    glob_loop g text pend (glob_fuel g pend) min s.

Definition GLOB_TEST (g : glob) (text : bytes) : result Z :=
  '(r, _) ← glob_test g text 0 None; Ok r.
