(* ===== verification/GlobSpec.v ===== *)
(** * GlobSpec: what the matcher of [lib/glob.c] decides

    [glob_test] returns for every pattern and every name, and for patterns that
    are [tame] it decides the language of the pattern. *)
From S2P Require Import Prelude CMem CString Glob.
#[local] Open Scope Z_scope.

(** ** Positions in a block *)

Lemma byte_at_drop_cons m i c : byte_at m i = Some c → drop (Z.to_nat i) m = c :: drop (Z.to_nat (i + 1)) m.
Proof.
  intros H. pose proof (byte_at_lt _ _ _ H). unfold byte_at in H. destruct (Z.ltb_spec i 0); [done|].
  rewrite (drop_S m c (Z.to_nat i)) by done. f_equal. f_equal. lia.
Qed.

Lemma drop_blen (m : bytes) : drop (Z.to_nat (blen m)) m = [].
Proof. apply drop_ge. unfold blen. lia. Qed.

Lemma byte_at_none m i : 0 ≤ i ≤ blen m → byte_at m i = None → i = blen m.
Proof. intros Hi Hn. destruct (Z.eq_dec i (blen m)); [done|]. destruct (byte_at_is_Some m i) as [b Hb]; [lia|congruence]. Qed.

(** ** The language of a pattern

    ['*'] is any string; ['%'] any string without a separator in new-style
    patterns; in old-style ones it is any character, as ['?'] is; [eq c x] says
    that the character [c] stands for [x]. *)
Section Language.
Context (nw : bool) (sep : Z) (eq : Z → Z → bool).

Inductive gmatch : bytes → bytes → Prop :=
  | gm_end : gmatch [] []
  | gm_star p u t : gmatch p t → gmatch (STAR :: p) (u ++ t)
  | gm_hier p u t : nw = true → sep ∉ u → gmatch p t → gmatch (PCT :: p) (u ++ t)
  | gm_any c p x t : nw = false → c = PCT ∨ c = QUEST → gmatch p t → gmatch (c :: p) (x :: t)
  | gm_char c p x t :
      c ≠ STAR → c ≠ PCT → (nw = false → c ≠ QUEST) → eq c x = true → gmatch p t → gmatch (c :: p) (x :: t).

Lemma gmatch_nil t : gmatch [] t ↔ t = [].
Proof using. split; [by inversion 1|intros ->; constructor]. Qed.

Lemma gmatch_star p t : gmatch (STAR :: p) t ↔ ∃ u v, t = u ++ v ∧ gmatch p v.
Proof using.
  split; [|intros (u & v & -> & H); by constructor].
  inversion 1 as [|? u v| |? ? ? ? _ Hc|? ? ? ? Hc]; subst; [eauto| |done]. by destruct Hc.
Qed.

Lemma gmatch_hier p t : nw = true → gmatch (PCT :: p) t ↔ ∃ u v, t = u ++ v ∧ (sep ∉ u) ∧ gmatch p v.
Proof using.
  intros Hn. split; [|intros (u & v & -> & ? & H); by constructor].
  inversion 1 as [| |? u v|? ? ? ? Hc|? ? ? ? _ Hc]; subst; [by eauto|congruence|done].
Qed.

Lemma gmatch_char c p t : c ≠ STAR → c ≠ PCT →
  gmatch (c :: p) t ↔ ∃ x v, t = x :: v ∧ (eq c x || (negb nw && (c =? QUEST))) = true ∧ gmatch p v.
Proof using.
  intros H1 H2. split.
  - inversion 1 as [| | |? ? x v Hn Hc Hg|? ? x v _ _ _ He Hg]; subst; [done|done|exists x, v..].
    + split_and!; [done| |done]. destruct nw; [done|]. destruct Hc as [->| ->]; [done|apply orb_true_r].
    + by rewrite He.
  - intros (x & v & -> & He & H).  destruct (decide (nw = false ∧ c = QUEST)) as [[Hn ->]|Hno]; [by apply gm_any; auto|].
    apply gm_char; try done; [tauto|]. apply orb_true_iff in He as [|He]; [done|].
    apply andb_true_iff in He as [?%negb_true_iff ?%Z.eqb_eq]. tauto.
Qed.

(** The same by backtracking. *)
Fixpoint any_rest (f : bytes → bool) (skip : Z → bool) (t : bytes) : bool :=
  f t || match t with [] => false | x :: t' => skip x && any_rest f skip t' end.

Fixpoint backtrack (p : bytes) (t : bytes) : bool :=
  match p with
  | [] => match t with [] => true | _ => false end
  | c :: p' =>
      if c =? STAR then any_rest (backtrack p') (λ _, true) t
      else if nw && (c =? PCT) then any_rest (backtrack p') (λ x, negb (x =? sep)) t
      else match t with
           | [] => false
           | x :: t' => ((c =? PCT) || eq c x || (negb nw && (c =? QUEST))) && backtrack p' t'
           end
  end.

Lemma any_rest_ok f skip t :
  any_rest f skip t = true ↔ ∃ u v, t = u ++ v ∧ Forall (λ x, skip x = true) u ∧ f v = true.
Proof using.
  induction t as [|x t IH]; cbn [any_rest]; rewrite orb_true_iff, ?andb_true_iff, ?IH.
  - split; [intros [?|?]; [by exists [], []|done]|]. intros (u & v & H & _ & ?). left. by destruct u, v.
  - split.
    + intros [H|(Hx & u & v & -> & Hu & H)]; [by exists [], (x :: t)|]. exists (x :: u), v. split_and!; [done|by constructor|done].
    + intros (u & v & H & Hu & Hg). destruct Hu as [|y u Hy Hu]; [left; by cbn in H; subst|right]. injection H as -> ->.
      split; [done|]. by exists u, v.
Qed.

Lemma backtrack_ok p t : backtrack p t = true ↔ gmatch p t.
Proof using.
  revert t. induction p as [|c p IH]; intros t; cbn [backtrack].
  { rewrite gmatch_nil. by destruct t. }
  destruct (Z.eqb_spec c STAR) as [->|Hs].
  { rewrite gmatch_star, any_rest_ok. setoid_rewrite IH. split; intros (u & v & ? & ?); exists u, v; [tauto|].
    split_and!; try done. by apply Forall_true. }
  destruct (nw && (c =? PCT)) eqn:Hc.
  { apply andb_true_iff in Hc as [Hn ->%Z.eqb_eq]. rewrite gmatch_hier, any_rest_ok by done. setoid_rewrite IH.
    assert (∀ u, Forall (λ x, negb (x =? sep) = true) u ↔ sep ∉ u) as Hu.
    { intros u. rewrite list.Forall_forall. split.
      - intros H Hin%H. by rewrite Z.eqb_refl in Hin.
      - intros H x Hx. apply negb_true_iff, Z.eqb_neq. by intros ->. }
    by setoid_rewrite Hu. }
  destruct (Z.eqb_spec c PCT) as [->|Hp].
  - rewrite andb_true_r in Hc. split.
    + destruct t as [|x t]; [done|]. cbn [orb andb]. intros H%IH. apply gm_any; auto.
    + inversion 1 as [| |? ? ? Hn|? ? x v _ _ Hg|]; subst; [congruence| |done]. cbn. by apply IH.
  - rewrite gmatch_char by done. split.
    + destruct t as [|x t]; [done|]. rewrite andb_true_iff, IH. cbn [orb]. intros [? ?]. eauto.
    + intros (x & v & -> & H & Hg). by rewrite andb_true_iff, IH.
Qed.
End Language.

(** ** The loops *)

Section Run.
Context (g : glob) (p q t r : bytes).
Context (Hstr : str g = p ++ 0 :: q) (Hp : is_cstring p) (Ht : is_cstring t).
#[local] Abbreviation text := (t ++ r).
#[local] Abbreviation pend := (blen t).

(** The pattern character at [i], the NUL at its end. *)
Definition pat_at (i : Z) : Z := default 0 (byte_at p i).

Lemma rd_pat i : 0 ≤ i ≤ blen p → rd8 (str g) i = Ok (pat_at i).
Proof using Hstr.
  intros Hi. rewrite Hstr. unfold pat_at. destruct (Z.eq_dec i (blen p)) as [->|].
  - rewrite rd8_end. destruct (byte_at p (blen p)) eqn:E; [apply byte_at_lt in E; lia|done].
  - destruct (rd8_app_l p (0 :: q) i) as (b & -> & ->); [lia|done].
Qed.

Lemma pat_some i : 0 ≤ i ≤ blen p → pat_at i ≠ 0 → byte_at p i = Some (pat_at i) ∧ i < blen p.
Proof using.
  unfold pat_at. intros Hi Hn. destruct (byte_at p i) eqn:E; [|done]. apply byte_at_lt in E. split; [done|lia].
Qed.

Lemma pat_end i : 0 ≤ i ≤ blen p → pat_at i = 0 ↔ i = blen p.
Proof using Hp.
  unfold pat_at. intros Hi. destruct (byte_at p i) as [c|] eqn:E; cbn.
  - pose proof (cstring_at _ _ _ Hp E). apply byte_at_lt in E. lia.
  - split; [|done]. intros _. by apply byte_at_none.
Qed.

Lemma rd_text i : 0 ≤ i < pend → ∃ x, byte_at t i = Some x ∧ 0 < x < 256 ∧ rd8 text i = Ok x.
Proof using Ht.
  intros Hi. destruct (rd8_app_l t r i Hi) as (x & Hx & Hr). exists x.
  pose proof (cstring_at _ _ _ Ht Hx). done.
Qed.

(** [matches c x]: the literal [c] of the pattern stands for [x]. *)
Definition matches (c x : Z) : bool := char_eq g c x || (negb (newglob g) && (c =? QUEST)).
Definition wildcard (c : Z) : bool := (c =? STAR) || (c =? PCT).

(** [n] literals from [i] match the text from [j]. *)
Definition run (i j n : Z) : Prop :=
  ∀ k, 0 ≤ k < n → ∃ x, byte_at t (j + k) = Some x ∧ byte_at p (i + k) = Some (pat_at (i + k)) ∧
    wildcard (pat_at (i + k)) = false ∧ matches (pat_at (i + k)) x = true.

Lemma char_eq_nonzero c x : 0 < x < 256 → char_eq g c x = true → c ≠ 0.
Proof using.
  intros Hx He%Z.eqb_eq ->. pose proof (TOLOWER_range x Hx). destruct (flag _ _); lia.
Qed.

Lemma literals_spec n gp pp :
  0 ≤ gp ≤ blen p → 0 ≤ pp ≤ pend → n = todo pend pp →
  ∃ k, literals g text n gp pp = Ok (gp + k, pp + k) ∧ 0 ≤ k ∧ gp + k ≤ blen p ∧ pp + k ≤ pend ∧ run gp pp k ∧
    (wildcard (pat_at (gp + k)) = true ∨ pp + k = pend ∨
     ∃ x, byte_at t (pp + k) = Some x ∧ matches (pat_at (gp + k)) x = false).
Proof using Hstr Hp Ht.
  revert gp pp. induction n as [|n IH]; intros gp pp Hg Hpp Hn; cbn [literals];
    rewrite (rd_pat gp) by done; cbn [mbind result_bind].
  - assert (pp = pend) as -> by (unfold todo in Hn; lia).
    exists 0. rewrite !Z.add_0_r. split; [by destruct (_ || _)|]. split_and!; try lia. intros k Hk. lia.
  - assert (pp < pend) as Hlt by (unfold todo in Hn; lia).
    destruct ((pat_at gp =? STAR) || (pat_at gp =? PCT)) eqn:Hw.
    { exists 0. rewrite !Z.add_0_r. split_and!; try lia; [done|intros k Hk; lia|by left]. }
    destruct (rd_text pp) as (x & Hx & Hx0 & ->); [lia|]. cbn [mbind result_bind].
    destruct (char_eq g (pat_at gp) x || _) eqn:Hm.
    + assert (pat_at gp ≠ 0) as Hne.
      { intros Hz. rewrite Hz in Hm. change (0 =? QUEST) with false in Hm. rewrite andb_false_r, orb_false_r in Hm.
        by apply (char_eq_nonzero 0 x) in Hm. }
      destruct (pat_some gp Hg Hne) as [Hb Hl].
      destruct (IH (gp + 1) (pp + 1)) as (k & -> & Hk & H1 & H2 & Hr & He); [lia|lia|unfold todo in *; lia|].
      exists (k + 1). rewrite <- !Z.add_assoc in *. rewrite !(Z.add_comm 1 k) in *. split_and!; try lia; [done| |done].
      intros j Hj. destruct (Z.eq_dec j 0) as [->|].
      * rewrite !Z.add_0_r. by exists x.
      * destruct (Hr (j - 1)) as (y & Hy); [lia|]. exists y.
        replace (gp + 1 + (j - 1)) with (gp + j) in Hy by lia. replace (pp + 1 + (j - 1)) with (pp + j) in Hy by lia. done.
    + exists 0. rewrite !Z.add_0_r. split_and!; try lia; [done|intros k Hk; lia|]. right. right. by exists x.
Qed.

Lemma find_hier_spec n c past pp :
  0 ≤ pp ≤ pend → n = todo pend pp →
  ∃ e, find_hier g text n c past pp = Ok e ∧ pp ≤ e ≤ pend ∧
    (∀ i, pp ≤ i < e → ∃ x, byte_at t i = Some x ∧ char_eq g c x = false ∧
       (past = None → x ≠ sep_char g)) ∧
    (e = pend ∨ ∃ x, byte_at t e = Some x ∧ (char_eq g c x = true ∨ x = sep_char g)).
Proof using Ht.
  revert pp. induction n as [|n IH]; intros pp Hpp Hn; cbn [find_hier].
  - assert (pp = pend) as -> by (unfold todo in Hn; lia). exists pend. split_and!; first [lia|done|by left].
  - assert (pp < pend) as Hlt by (unfold todo in Hn; lia).
    destruct (rd_text pp) as (x & Hx & Hx0 & ->); [lia|]. cbn [mbind result_bind].
    destruct (char_eq g c x) eqn:He; cbn [negb andb].
    { exists pp. split_and!; [done|lia..|lia|]. right. exists x. auto. }
    destruct (negb (x =? sep_char g) || _) eqn:Hs.
    + destruct (IH (pp + 1)) as (e & -> & H1 & H2 & H3); [lia|unfold todo in *; lia|].
      exists e. split_and!; try lia; [done| |done]. intros i Hi. destruct (Z.eq_dec i pp) as [->|]; [|apply H2; lia].
      exists x. split_and!; [done..|]. intros ->. rewrite orb_false_r in Hs. by destruct (Z.eqb_spec x (sep_char g)).
    + exists pp. split_and!; [done|lia..|lia|]. right. exists x. split; [done|]. right.
      by destruct (Z.eqb_spec x (sep_char g)).
Qed.

Lemma find_star_spec n c pp :
  0 ≤ pp ≤ pend → n = todo pend pp →
  ∃ e, find_star g text n c pp = Ok e ∧ pp ≤ e ≤ pend ∧
    (∀ i, pp ≤ i < e → ∃ x, byte_at t i = Some x ∧ char_eq g c x = false) ∧
    (e = pend ∨ ∃ x, byte_at t e = Some x ∧ char_eq g c x = true).
Proof using Ht.
  revert pp. induction n as [|n IH]; intros pp Hpp Hn; cbn [find_star].
  - assert (pp = pend) as -> by (unfold todo in Hn; lia). exists pend. split_and!; first [lia|done|by left].
  - assert (pp < pend) as Hlt by (unfold todo in Hn; lia).
    destruct (rd_text pp) as (x & Hx & Hx0 & ->); [lia|]. cbn [mbind result_bind].
    destruct (char_eq g c x) eqn:He; cbn [negb].
    { exists pp. split_and!; [done|lia..|lia|]. right. by exists x. }
    destruct (IH (pp + 1)) as (e & -> & H1 & H2 & H3); [lia|unfold todo in *; lia|].
    exists e. split_and!; try lia; [done| |done]. intros i Hi. destruct (Z.eq_dec i pp) as [->|]; [|apply H2; lia].
    by exists x.
Qed.

Lemma at_partial_ok min pp : 0 ≤ pp ≤ pend → ∃ b, at_partial g text pend min pp = Ok b.
Proof using Ht.
  intros Hpp. unfold at_partial. destruct min as [m|]; [|eauto]. destruct (m <? pp); [|eauto].
  destruct (Z.eqb_spec pp pend); [eauto|]. destruct (rd_text pp) as (x & _ & _ & ->); [lia|]. cbn. eauto.
Qed.

(** ** It returns

    The places to go back to are in front of the place it is at. *)
Record valid (s : gs) : Prop := {
  v_gptr : 0 ≤ gptr s ≤ blen p;
  v_ptr : 0 ≤ ptr s ≤ pend;
  v_star : ∀ k, gstar s = Some k → 0 ≤ k ≤ gptr s ∧ 0 ≤ pstar s ≤ ptr s;
  v_hier : ∀ h, ghier s = Some h → 0 ≤ h ≤ gptr s ∧ 0 ≤ phier s ≤ ptr s;
  v_both : ∀ k h, gstar s = Some k → ghier s = Some h → k ≤ h ∧ pstar s ≤ phier s;
}.

(** Both only move forward. *)
Definition star_rank (s : gs) : Z := match gstar s with Some k => 1 + k + pstar s | None => 0 end.
Definition hier_rank (s : gs) : Z :=
  match ghier s with Some h => 2 * (h + phier s) | None => 2 * (gptr s + ptr s) + 1 end.
Definition size : Z := blen p + pend + 1.
Definition before (s s' : gs) : Prop :=
  star_rank s < star_rank s' ∨ star_rank s = star_rank s' ∧ hier_rank s < hier_rank s'.
Definition rank (s : gs) : Z := star_rank s * (2 * size + 1) + hier_rank s.

Lemma rank_bound s : valid s → 0 ≤ hier_rank s ≤ 2 * size ∧ 0 ≤ star_rank s ≤ size.
Proof using.
  intros [H1 H2 H3 H4 _]. unfold star_rank, hier_rank, size. split.
  - destruct (ghier s) as [h|]; [destruct (H4 h eq_refl)|]; lia.
  - destruct (gstar s) as [k|]; [destruct (H3 k eq_refl)|]; lia.
Qed.

Lemma before_rank s s' : valid s → valid s' → before s s' → rank s < rank s'.
Proof using. intros H%rank_bound H'%rank_bound Hb. unfold rank, before in *. nia. Qed.

(** What is left of a turn's state when a wildcard has been noted. *)
Definition stuck (s : gs) (sepfound : bool) : Prop :=
  gstar s = None ∧ ghier s = None ∧ sepfound = false ∧ wildcard (pat_at (gptr s)) = false.

Lemma before_trans s1 s2 s3 : before s1 s2 → before s2 s3 → before s1 s3.
Proof using. unfold before. lia. Qed.

(** The state after the literals. *)
Definition moved (s : gs) (gp pp : Z) : gs := Gs gp pp (gstar s) (pstar s) (ghier s) (phier s).

Lemma moved_ok s k : valid s → 0 ≤ k → gptr s + k ≤ blen p → ptr s + k ≤ pend →
  let s' := moved s (gptr s + k) (ptr s + k) in
  valid s' ∧ ∀ s'', before s' s'' → before s s''.
Proof using.
  intros [H1 H2 H3 H4 H5] Hk Hg Hp'. cbn zeta. split.
  - split; cbn; try lia.
    + intros m Hm. destruct (H3 m Hm). lia.
    + intros m Hm. destruct (H4 m Hm). lia.
    + apply H5.
  - intros s''. unfold before, star_rank, hier_rank. cbn. destruct (ghier s); lia.
Qed.

Lemma notes_ok s : valid s →
  ∃ s', (s1 ← note_star g s; note_hier g s1) = Ok s' ∧ valid s' ∧
    (s' = s ∧ wildcard (pat_at (gptr s)) = false ∨ before s s').
Proof using Hstr.
  intros [H1 H2 H3 H4 H5]. unfold note_star, note_hier, wildcard. rewrite rd_pat by done. cbn [mbind result_bind].
  destruct (Z.eqb_spec (pat_at (gptr s)) STAR) as [He|].
  - destruct (pat_some (gptr s) H1) as [_ Hl]; [by rewrite He|]. cbn [gptr]. rewrite rd_pat by lia. cbn [mbind result_bind].
    assert (star_rank s < 1 + (gptr s + 1) + ptr s).
    { unfold star_rank. destruct (gstar s) as [k|]; [destruct (H3 k eq_refl)|]; lia. }
    destruct (Z.eqb_spec (pat_at (gptr s + 1)) PCT) as [He'|].
    + destruct (pat_some (gptr s + 1)) as [_ Hl']; [lia|by rewrite He'|]. eexists. split; [done|]. split; [|right; by left].
      split; cbn; try lia; intros; simplify_eq; lia.
    + eexists. split; [done|]. split; [|right; by left]. split; cbn; try done; try lia; intros; simplify_eq; lia.
  - rewrite rd_pat by done. cbn [mbind result_bind orb].
    destruct (Z.eqb_spec (pat_at (gptr s)) PCT) as [He'|].
    + destruct (pat_some (gptr s)) as [_ Hl']; [lia|by rewrite He'|]. eexists. split; [done|]. split.
      * split; cbn; try lia; intros; simplify_eq; [edestruct H3; [done|lia]|lia|edestruct H3; [done|lia]].
      * right. right. unfold star_rank, hier_rank. cbn. split; [done|].
        destruct (ghier s) as [h|]; [destruct (H4 h eq_refl)|]; lia.
    + exists s. split; [done|]. split; [by split|]. by left.
Qed.

(** Where a turn ends. *)
Definition turn_ok (t : turn) (P : gs → bool → Prop) : Prop :=
  match t with
  | Break gp pp => 0 ≤ gp ≤ blen p
  | Return n _ => 0 ≤ n ≤ pend
  | Next s sf => P s sf
  end.

Lemma hier_turn_ok min s : valid s →
  ∃ h, hier_turn g text pend min s = Ok h ∧
    match h with
    | inl t => turn_ok t (λ _ _, False)
    | inr (s', sf) => valid s' ∧ (s' = s ∧ ghier s = None ∧ sf = false ∨ before s s')
    end.
Proof using Hstr Hp Ht.
  intros [H1 H2 H3 H4 H5]. unfold hier_turn. destruct (ghier s) as [h|] eqn:Hh.
  2: { eexists. split; [done|]. cbn. split; [by split; rewrite ?Hh|]. by left. }
  destruct (H4 h eq_refl) as [Hb1 Hb2]. rewrite rd_pat by lia. cbn [mbind result_bind].
  assert (∃ past, match gstar s with
      | Some k => if pat_at h =? 0 then d ← rd8 (str g) k; Ok (if d =? PCT then min else None) else Ok None
      | None => Ok None
      end = Ok past) as [past ->].
  { destruct (gstar s) as [k|] eqn:Hk; [|eauto]. destruct (pat_at h =? 0); [|eauto]. rewrite rd_pat; [|destruct (H3 k eq_refl); lia].
    cbn. eauto. }
  cbn [mbind result_bind].
  destruct (find_hier_spec (todo pend (phier s)) (pat_at h) past (phier s)) as (e & -> & He & _ & Hend); [lia|done|].
  cbn [mbind result_bind]. destruct (Z.eqb_spec e pend). { eexists. split; [done|]. cbn. lia. }
  destruct (rd_text e) as (x & Hx & Hx0 & ->); [lia|]. cbn [mbind result_bind].
  destruct (Z.eqb_spec x (sep_char g)) as [|Hns].
  - assert (∃ b, (if pat_at h =? 0 then at_partial g text pend min e else Ok false) = Ok b) as [b ->]
      by (destruct (pat_at h =? 0); [apply at_partial_ok; lia|eauto]).
    cbn [mbind result_bind]. destruct b; eexists; (split; [done|]); [cbn; lia|]. split.
    + split; cbn; try lia; [|done|done]. intros k Hk. destruct (H3 k Hk), (H5 k h Hk eq_refl). lia.
    + right. right. unfold star_rank, hier_rank. rewrite Hh. cbn. lia.
  - eexists. split; [done|]. cbn. split.
    + assert (h < blen p).
      { destruct Hend as [|(y & Hy & [Hc|Hc])]; [lia| |congruence].
        assert (y = x) as -> by congruence. apply char_eq_nonzero in Hc; [|done]. apply pat_some; [lia|done]. }
      split; cbn; try lia; rewrite ?Hh.
      * intros k Hk. destruct (H3 k Hk), (H5 k h Hk eq_refl). lia.
      * intros h' [= <-]. lia.
      * intros k h' Hk [= <-]. destruct (H5 k h Hk eq_refl). lia.
    + right. right. unfold star_rank, hier_rank. rewrite Hh. cbn. lia.
Qed.

Lemma star_turn_ok min s : valid s →
  ∃ k, star_turn g text pend min s = Ok k ∧
    match k with
    | inl t => turn_ok t (λ _ _, False)
    | inr s' => valid s' ∧ (s' = s ∧ (gstar s = None ∨ ghier s ≠ None) ∨ before s s')
    end.
Proof using Hstr Hp Ht.
  intros [H1 H2 H3 H4 H5]. unfold star_turn. destruct (gstar s) as [k|] eqn:Hk; [destruct (ghier s) as [h|] eqn:Hh|].
  1, 3: eexists; (split; [done|]); split; [split; rewrite ?Hk, ?Hh; done|left; split; [done|first [by left|by right]]].
  destruct (H3 k eq_refl) as [Hb1 Hb2]. rewrite (rd_pat k) by lia. cbn [mbind result_bind].
  destruct (Z.eqb_spec (pat_at k) 0). { eexists. split; [done|]. cbn. lia. }
  destruct (find_star_spec (todo pend (pstar s)) (pat_at k) (pstar s)) as (e & -> & He & _ & _); [lia|done|].
  cbn [mbind result_bind]. destruct (Z.eqb_spec e pend).
  - rewrite rd_pat by lia. cbn [mbind result_bind].
    assert (∃ b, (if pat_at (gptr s) =? 0 then at_partial g text pend min (ptr s) else Ok false) = Ok b) as [b ->]
      by (destruct (pat_at (gptr s) =? 0); [apply at_partial_ok; lia|eauto]).
    cbn [mbind result_bind]. eexists. split; [done|]. destruct b; cbn; lia.
  - eexists. split; [done|]. destruct (pat_some k) as [_ Hlt]; [lia|done|]. split.
    + split; cbn; try lia; [|done..]. intros k' [= <-]. lia.
    + right. left. unfold star_rank. rewrite Hk. cbn. lia.
Qed.

Lemma glob_turn_ok min s : valid s →
  ∃ t, glob_turn g text pend min s = Ok t ∧
    turn_ok t (λ s' sf, valid s' ∧ (before s s' ∨ stuck s' sf)).
Proof using Hstr Hp Ht.
  intros Hv. unfold glob_turn. pose proof Hv as [H1 H2 _ _ _].
  destruct (literals_spec (todo pend (ptr s)) (gptr s) (ptr s)) as (k & -> & Hk & Hg & Hpp & _ & _); [done..|].
  cbn [mbind result_bind]. rewrite rd_pat by lia. cbn [mbind result_bind]. fold (moved s (gptr s + k) (ptr s + k)).
  destruct (_ && _). { eexists. split; [done|]. cbn. lia. }
  destruct (moved_ok s k Hv Hk Hg Hpp) as [Hv1 Hb1]. set (s1 := moved _ _ _) in *.
  destruct (notes_ok s1 Hv1) as (s2 & E & Hv2 & H12).
  destruct (note_star g s1) as [s1'|] eqn:E1; [|done]. cbn [mbind result_bind] in E |- *. rewrite E. cbn [mbind result_bind].
  destruct (hier_turn_ok min s2 Hv2) as (h & -> & H23). cbn [mbind result_bind].
  destruct h as [t'|[s3 sf]]. { eexists. split; [done|]. by destruct t'. }
  destruct H23 as [Hv3 H23]. destruct (star_turn_ok min s3 Hv3) as (c & -> & H34). cbn [mbind result_bind].
  destruct c as [t'|s4]. { eexists. split; [done|]. by destruct t'. }
  destruct H34 as [Hv4 H34]. pose proof Hv4 as [H41 H42 _ _ _]. rewrite rd_pat by done. cbn [mbind result_bind].
  assert (∃ b, (if pat_at (gptr s4) =? 0 then at_partial g text pend min (ptr s4) else Ok false) = Ok b) as [b ->]
    by (destruct (pat_at (gptr s4) =? 0); [by apply at_partial_ok|eauto]).
  cbn [mbind result_bind]. eexists. split; [done|]. destruct b; [done|]. cbn [turn_ok]. split; [done|].
  destruct H12 as [[-> Hw]|H12], H23 as [(-> & Hh & ->)|H23], H34 as [[-> Hs]|H34]; eauto using before_trans.
  right. split_and!; try done. by destruct Hs.
Qed.

Lemma goes_on_ok s sf : valid s → ∃ b, goes_on g pend s sf = Ok b ∧ (stuck s sf → b = false).
Proof using Hstr.
  intros [H1 _ _ _ _]. unfold goes_on. rewrite rd_pat by done. cbn [mbind result_bind]. eexists. split; [done|].
  intros (-> & -> & -> & Hw). unfold wildcard in Hw. by rewrite Hw.
Qed.

(** A result: no match or a length. *)
Definition in_text (a : Z * option Z) : Prop := a.1 = -1 ∨ ∃ n, a.1 = to_s32 n ∧ 0 ≤ n ≤ pend.

Lemma glob_end_ok min gp pp : 0 ≤ gp ≤ blen p → ∃ a, glob_end g pend min gp pp = Ok a ∧ in_text a.
Proof using Hstr.
  intros Hg. unfold glob_end. rewrite rd_pat by done. cbn [mbind result_bind]. eexists. split; [done|].
  destruct (pat_at gp =? 0); [|by left]. destruct (Z.eqb_spec pp pend) as [->|]; [|by left].
  right. exists pend. split; [done|]. pose proof (blen_nonneg t). lia.
Qed.

Lemma glob_loop_ok fuel min s :
  valid s → size * (2 * size + 1) + 2 * size - rank s < Z.of_nat fuel →
  ∃ a, glob_loop g text pend fuel min s = Ok a ∧ in_text a.
Proof using Hstr Hp Ht.
  revert s. induction fuel as [|fuel IH]; intros s Hv Hf.
  { destruct (rank_bound s Hv). unfold rank in Hf. nia. }
  cbn [glob_loop]. destruct (glob_turn_ok min s Hv) as (t' & -> & Ht'). cbn [mbind result_bind].
  destruct t' as [gp pp|? ?|s' sf]; [by apply glob_end_ok|eexists; split; [done|right; eauto]|].
  destruct Ht' as [Hv' Hb]. destruct (goes_on_ok s' sf Hv') as (b & -> & Hst). cbn [mbind result_bind].
  destruct b; [|apply glob_end_ok, Hv']. apply IH; [done|].
  destruct Hb as [Hb|Hb]; [|by apply Hst in Hb]. pose proof (before_rank _ _ Hv Hv' Hb). lia.
Qed.

Lemma glob_fuel_enough s : valid s → size * (2 * size + 1) + 2 * size - rank s < Z.of_nat (glob_fuel g pend).
Proof using Hstr.
  intros Hv. destruct (rank_bound s Hv). assert (0 ≤ rank s) by (unfold rank; nia).
  unfold glob_fuel, size in *. rewrite Hstr. rewrite !Nat2Z.inj_succ, Nat2Z.inj_mul, !Nat2Z.inj_add, Nat2Z.inj_mul, !Nat2Z.inj_add.
  rewrite Z2Nat.id by apply blen_nonneg. rewrite length_app. cbn [length]. rewrite Nat2Z.inj_add.
  fold (blen p). change (Z.of_nat (S (length q))) with (Z.of_nat (S (length q))). pose proof (blen_nonneg p). pose proof (blen_nonneg t).
  assert (0 ≤ Z.of_nat (S (length q))) by lia. nia.
Qed.

(** ** It decides the language

    [F i j]: the pattern from [i] matches the name from [j]. *)
#[local] Abbreviation sep := (sep_char g).
Definition F (i j : Z) : Prop :=
  gmatch (newglob g) sep (char_eq g) (drop (Z.to_nat i) p) (drop (Z.to_nat j) t).
Definition sepfree (i j : Z) : Prop := ∀ k, i ≤ k < j → byte_at t k ≠ Some sep.

Lemma F_end j : 0 ≤ j ≤ pend → F (blen p) j ↔ j = pend.
Proof using.
  intros Hj. unfold F. rewrite drop_blen, gmatch_nil. split; [|intros ->; apply drop_blen].
  intros H. apply (f_equal length) in H. rewrite length_drop in H. unfold blen in *. cbn in H. lia.
Qed.

Lemma F_char i j : 0 ≤ i → 0 ≤ j → byte_at p i = Some (pat_at i) → wildcard (pat_at i) = false →
  F i j ↔ ∃ x, byte_at t j = Some x ∧ matches (pat_at i) x = true ∧ F (i + 1) (j + 1).
Proof using.
  intros Hi Hj Hb [Hs Hc]%orb_false_iff. unfold F. rewrite (byte_at_drop_cons p i (pat_at i)) by done.
  apply Z.eqb_neq in Hs, Hc. rewrite gmatch_char by done. fold (matches (pat_at i)). split.
  - intros (x & v & Hd & Hm & H). exists x.
    assert (byte_at t j = Some x) as Hx.
    { unfold byte_at. destruct (Z.ltb_spec j 0); [lia|].
      rewrite <- (Nat.add_0_r (Z.to_nat j)), <- lookup_drop, Hd. done. }
    split_and!; [done|done|]. rewrite (byte_at_drop_cons t j x Hx) in Hd. by injection Hd as <-.
  - intros (x & Hx & Hm & H). exists x, (drop (Z.to_nat (j + 1)) t). by rewrite <- byte_at_drop_cons.
Qed.

Lemma split_at j : 0 ≤ j ≤ pend →
  ∀ P : bytes → bytes → Prop,
  (∃ u v, drop (Z.to_nat j) t = u ++ v ∧ P u v) ↔
  ∃ e, j ≤ e ≤ pend ∧ P (take (Z.to_nat (e - j)) (drop (Z.to_nat j) t)) (drop (Z.to_nat e) t).
Proof using.
  intros Hj P. split.
  - intros (u & v & Hd & H). exists (j + blen u).
    pose proof (f_equal length Hd) as Hl. rewrite length_drop, length_app in Hl. unfold blen in *. split; [lia|].
    replace (Z.to_nat (j + Z.of_nat (length u) - j)) with (length u) by lia.
    replace (Z.to_nat (j + Z.of_nat (length u))) with (Z.to_nat j + length u)%nat by lia.
    rewrite <- drop_drop, Hd, take_app_length, drop_app_length. done.
  - intros (e & He & H). eexists _, _. split; [|exact H].
    replace (Z.to_nat e) with (Z.to_nat j + Z.to_nat (e - j))%nat by lia. by rewrite <- drop_drop, take_drop.
Qed.

Lemma F_star i j : 0 ≤ i → 0 ≤ j ≤ pend → byte_at p i = Some STAR → F i j ↔ ∃ e, j ≤ e ≤ pend ∧ F (i + 1) e.
Proof using.
  intros Hi Hj Hb. unfold F. rewrite (byte_at_drop_cons p i _ Hb), gmatch_star. apply (split_at j Hj (λ _ v, _)).
Qed.

Lemma sepfree_take j e : 0 ≤ j → j ≤ e ≤ pend → sep ∉ take (Z.to_nat (e - j)) (drop (Z.to_nat j) t) ↔ sepfree j e.
Proof using.
  intros Hj He. unfold sepfree. rewrite list_elem_of_lookup. split.
  - intros Hn k Hk Hb. apply Hn. exists (Z.to_nat (k - j)). rewrite lookup_take_lt by lia. rewrite lookup_drop.
    unfold byte_at in Hb. destruct (Z.ltb_spec k 0); [done|]. rewrite <- Hb. f_equal. lia.
  - intros Hf [k Hk]. pose proof (lookup_lt_Some _ _ _ Hk) as Hl. rewrite length_take in Hl.
    rewrite lookup_take_lt, lookup_drop in Hk by lia. apply (Hf (j + Z.of_nat k)); [lia|].
    unfold byte_at. destruct (Z.ltb_spec (j + Z.of_nat k) 0); [lia|]. rewrite <- Hk. f_equal. lia.
Qed.

Lemma F_hier i j : newglob g = true → 0 ≤ i → 0 ≤ j ≤ pend → byte_at p i = Some PCT →
  F i j ↔ ∃ e, j ≤ e ≤ pend ∧ sepfree j e ∧ F (i + 1) e.
Proof using.
  intros Hn Hi Hj Hb. unfold F. rewrite (byte_at_drop_cons p i _ Hb), gmatch_hier by done.
  rewrite (split_at j Hj (λ u v, (sep ∉ u) ∧ gmatch _ _ _ _ v)). split; intros (e & He & H & HF); exists e.
  all: split_and!; try lia; try done; by apply sepfree_take; [lia|lia|].
Qed.

(** Literals that match leave the rest to match. *)
Lemma F_run i j n : 0 ≤ i → 0 ≤ j → 0 ≤ n → run i j n → F i j ↔ F (i + n) (j + n).
Proof using.
  intros Hi Hj Hn. revert i j Hi Hj. pattern n. apply natlike_ind; [| |done].
  { intros i j _ _ _. by rewrite !Z.add_0_r. }
  intros k Hk IH i j Hi Hj Hr. destruct (Hr 0) as (x & Hx & Hb & Hw & Hm); [lia|]. rewrite !Z.add_0_r in *.
  rewrite F_char by done. unfold Z.succ. replace (i + (k + 1)) with (i + 1 + k) by lia.
  replace (j + (k + 1)) with (j + 1 + k) by lia. rewrite <- IH; [|lia|lia|].
  - split; [intros (? & _ & _ & ?)|intros ?; exists x]; done.
  - intros d Hd. destruct (Hr (d + 1)) as (y & Hy); [lia|]. exists y.
    replace (i + 1 + d) with (i + (d + 1)) by lia. by replace (j + 1 + d) with (j + (d + 1)) by lia.
Qed.

Definition lit (i : Z) : Prop := byte_at p i = Some (pat_at i) ∧ wildcard (pat_at i) = false.
(** A literal that stands for itself. *)
Definition plain (i : Z) : Prop := lit i ∧ (newglob g = false → pat_at i ≠ QUEST).
(** No separator from [h] to the next wildcard. *)
Definition segment (h : Z) : Prop := ∀ i, h ≤ i → (∀ k, h ≤ k ≤ i → lit k) → pat_at i ≠ sep.

Lemma plain_matches i x : plain i → matches (pat_at i) x = char_eq g (pat_at i) x.
Proof using.
  intros [_ H]. unfold matches. destruct (newglob g); cbn [negb andb]; [apply orb_false_r|].
  destruct (Z.eqb_spec (pat_at i) QUEST); [by destruct H|apply orb_false_r].
Qed.

Lemma plain_nonzero i : plain i → pat_at i ≠ 0.
Proof using Hp. intros [[Hb _] _]. pose proof (cstring_at _ _ _ Hp Hb). lia. Qed.

Lemma plain_F i j : plain i → 0 ≤ j → F i j → ∃ x, byte_at t j = Some x ∧ char_eq g (pat_at i) x = true.
Proof using.
  intros Hpl Hj HF. pose proof Hpl as [[Hb Hw] _]. pose proof (byte_at_lt _ _ _ Hb).
  apply F_char in HF as (x & Hx & Hm & _); [|lia..|done|done]. rewrite plain_matches in Hm by done. eauto.
Qed.

Lemma F_le i j : 0 ≤ i → 0 ≤ j → lit i → F i j → j < pend.
Proof using. intros Hi Hj [Hb Hw] HF. apply F_char in HF as (x & Hx & _); [|done..]. apply byte_at_lt in Hx. lia. Qed.

Lemma lits_F h e n : 0 ≤ h → 0 ≤ e ≤ pend → 0 ≤ n → (∀ k, 0 ≤ k < n → lit (h + k)) → F h e →
  e + n ≤ pend ∧ F (h + n) (e + n) ∧ run h e n.
Proof using.
  intros Hh He Hn. revert h e Hh He. pattern n. apply natlike_ind; [| |done].
  { intros h e _ [_ He] _ HF. rewrite !Z.add_0_r. split_and!; [lia|done|]. intros k Hk. lia. }
  intros k Hk IH h e Hh He Hl HF. destruct (Hl 0) as [Hb Hw]; [lia|]. rewrite !Z.add_0_r in *.
  pose proof (F_le h e Hh ltac:(lia) (conj Hb Hw) HF).
  apply F_char in HF as (x & Hx & Hm & HF); [|lia..|done|done]. unfold Z.succ in *.
  destruct (IH (h + 1) (e + 1)) as (H1 & H2 & H3); [lia|lia| |done|].
  { intros d Hd. replace (h + 1 + d) with (h + (d + 1)) by lia. apply Hl. lia. }
  replace (h + (k + 1)) with (h + 1 + k) by lia. replace (e + (k + 1)) with (e + 1 + k) by lia.
  split_and!; [done|done|]. intros d Hd. destruct (Z.eq_dec d 0) as [->|].
  - exists x. by rewrite !Z.add_0_r.
  - destruct (H3 (d - 1)) as (y & Hy); [lia|]. exists y.
    replace (h + 1 + (d - 1)) with (h + d) in Hy by lia. by replace (e + 1 + (d - 1)) with (e + d) in Hy by lia.
Qed.

Lemma run_lits i j n : run i j n → ∀ k, 0 ≤ k < n → lit (i + k).
Proof using. intros H k Hk. destruct (H k Hk) as (x & _ & Hb & Hw & _). done. Qed.

Lemma run_app i j n m : run i j n → run (i + n) (j + n) m → run i j (n + m).
Proof using.
  intros H1 H2 k Hk. destruct (Z_lt_ge_dec k n); [apply H1; lia|]. destruct (H2 (k - n)) as (x & Hx); [lia|]. exists x.
  replace (i + n + (k - n)) with (i + k) in Hx by lia. by replace (j + n + (k - n)) with (j + k) in Hx by lia.
Qed.

Section Tame.
Context (Hsep : sep = 46).
Context (Hstar : ∀ i, byte_at p i = Some STAR → i + 1 = blen p ∨ plain (i + 1)).
Context (Hpct : ∀ i, byte_at p i = Some PCT → newglob g = true ∧
  (i + 1 = blen p ∨
   plain (i + 1) ∧ (pat_at (i + 1) = sep ∧ (∀ k, k < i → byte_at p k ≠ Some STAR) ∨ segment (i + 1)))).

Lemma char_eq_sep c : char_eq g c sep = true ↔ c = sep.
Proof using Hsep. unfold char_eq. rewrite Z.eqb_eq, Hsep. by destruct (flag _ _). Qed.

Lemma sep_char_eq x : 0 < x < 256 → char_eq g sep x = true ↔ x = sep.
Proof using Hsep.
  intros Hx. unfold char_eq. rewrite Z.eqb_eq, Hsep. destruct (flag _ _); [|done]. unfold TOLOWER.
  destruct (Z.leb_spec 65 x), (Z.leb_spec x 90); cbn [andb]; lia.
Qed.

(** A segment stands for text without separators. *)
Lemma segment_run h e n : segment h → newglob g = true → run h e n → sepfree e (e + n).
Proof using Hsep.
  intros Hs Hn Hr k Hk Hb. destruct (Hr (k - e)) as (x & Hx & Hb' & Hw & Hm); [lia|].
  replace (e + (k - e)) with k in Hx by lia. rewrite Hb in Hx. injection Hx as <-.
  unfold matches in Hm. rewrite Hn in Hm. cbn [negb andb] in Hm. rewrite orb_false_r in Hm.
  apply char_eq_sep in Hm. apply (Hs (h + (k - e))); [lia| |done].
  intros d Hd. replace d with (h + (d - h)) by lia. eapply run_lits; [done|lia].
Qed.

(** What the attempt at hand decides: the whole, or the part behind the ['*']. *)
Definition target (s : gs) : Prop := match gstar s with None => F 0 0 | Some k => F k (pstar s - 1) end.

(** The name matches exactly when it does from one of the places that are left. *)
Record inv (s : gs) : Prop := {
  i_valid : valid s;
  i_star : ∀ k, gstar s = Some k → plain k ∧ 1 ≤ k ∧ byte_at p (k - 1) = Some STAR ∧ 1 ≤ pstar s ∧
    (F 0 0 ↔ ∃ e, pstar s - 1 ≤ e ≤ pend ∧ F k e);
  i_hier : ∀ h, ghier s = Some h → newglob g = true ∧ plain h ∧ segment h ∧ 1 ≤ phier s ∧
    1 ≤ gptr s - h ∧ ptr s - phier s + 1 = gptr s - h ∧ run h (phier s - 1) (gptr s - h) ∧
    (target s ↔ ∃ e, phier s - 1 ≤ e ≤ pend ∧ sepfree (phier s - 1) e ∧ F h e) ∧
    (gstar s ≠ None → F 0 0 → ∃ e, phier s - 1 ≤ e ≤ pend ∧ F h e);
  i_none : ghier s = None →
    (target s ↔ F (gptr s) (ptr s)) ∧
    (gstar s ≠ None → F 0 0 → ∃ e, ptr s ≤ e ≤ pend ∧ F (gptr s) e);
}.

Lemma sepfree_refl j : sepfree j j.
Proof using. intros k Hk. lia. Qed.

(** An attempt that succeeds decides the whole. *)
Lemma target_all s : inv s → target s → F 0 0.
Proof using.
  intros [[_ H2 H3 _ _] Hs _ _]. unfold target. destruct (gstar s) as [k|]; [|done].
  destruct (Hs k eq_refl) as (_ & _ & _ & Hp1 & ->), (H3 k eq_refl). intros HF. exists (pstar s - 1). split; [lia|done].
Qed.

Section Moved.
Context (s : gs) (k : Z) (Hinv : inv s) (Hk : 0 ≤ k) (Hrun : run (gptr s) (ptr s) k)
  (Hg : gptr s + k ≤ blen p) (Hpp : ptr s + k ≤ pend).
#[local] Abbreviation gp := (gptr s + k).
#[local] Abbreviation pp := (ptr s + k).

Lemma hier_run h : ghier s = Some h → run h (phier s - 1) (gp - h) ∧ pp = phier s - 1 + (gp - h).
Proof using Hinv Hrun.
  intros Hh. destruct Hinv as [_ _ Hi _]. destruct (Hi h Hh) as (_ & _ & _ & _ & H1 & H2 & H3 & _). split; [|lia].
  replace (gp - h) with (gptr s - h + k) by lia. apply run_app; [done|].
  replace (h + (gptr s - h)) with (gptr s) by lia. by replace (phier s - 1 + (gptr s - h)) with (ptr s) by lia.
Qed.

Lemma reach_target : F gp pp → target s.
Proof using Hinv Hk Hrun.
  pose proof Hinv as [[H1 H2 H3 H4 H5] _ Hi Hn]. intros HF. destruct (ghier s) as [h|] eqn:Hh.
  - destruct (hier_run h Hh) as [Hr He]. destruct (Hi h eq_refl) as (_ & _ & _ & Hp1 & Hn1 & _ & _ & -> & _), (H4 h eq_refl).
    exists (phier s - 1). split; [lia|]. split; [apply sepfree_refl|]. rewrite (F_run h (phier s - 1) (gp - h)) by (done || lia).
    replace (h + (gp - h)) with gp by lia. by rewrite <- He.
  - destruct (Hn eq_refl) as [-> _]. by apply (F_run (gptr s) (ptr s) k); [lia..| |].
Qed.

(** Whatever matches gets to the place the attempt got to, not before it. *)
Lemma all_reach : F 0 0 → ∃ j, pp ≤ j ≤ pend ∧ F gp j.
Proof using Hinv Hk Hrun Hpp.
  pose proof Hinv as [[H1 H2 H3 H4 H5] _ Hi Hn]. intros HF. destruct (ghier s) as [h|] eqn:Hh.
  - destruct (hier_run h Hh) as [Hr He]. destruct (Hi h eq_refl) as (_ & _ & _ & Hp1 & Hn1 & _ & _ & Ht1 & Ht2), (H4 h eq_refl).
    assert (∃ e, phier s - 1 ≤ e ≤ pend ∧ F h e) as (e & He1 & He2).
    { destruct (gstar s) eqn:Hs; [by apply Ht2|]. unfold target in Ht1. rewrite Hs in Ht1. apply Ht1 in HF as (e & ? & _ & ?). eauto. }
    destruct (lits_F h e (gp - h)) as (H6 & H7 & _); [lia|lia|lia|by eapply run_lits|done|].
    exists (e + (gp - h)). split; [lia|]. by replace (h + (gp - h)) with gp in H7 by lia.
  - destruct (Hn eq_refl) as [Ht1 Ht2]. destruct (gstar s) eqn:Hs.
    + destruct Ht2 as (e & He & HFe); [done|done|]. destruct (lits_F (gptr s) e k) as (H6 & H7 & _); [lia|lia|lia|by eapply run_lits|done|].
      exists (e + k). split; [lia|done].
    + unfold target in Ht1. rewrite Hs in Ht1. exists pp. split; [lia|]. apply (F_run (gptr s) (ptr s) k); [lia..|done|tauto].
Qed.
End Moved.

(** What a turn shows. *)
Definition turn_post (t : turn) : Prop :=
  match t with
  | Break gp pp => (gp = blen p ∧ pp = pend) ↔ F 0 0
  | Return _ _ => False
  | Next s sf => inv s ∧
      (gstar s = None → ghier s = None → sf = false → ¬ F 0 0 ∧ ¬ (gptr s = blen p ∧ ptr s = pend))
  end.

(** A ['*'] to go back to, to be tried from [pstar]. *)
Definition star_search (s : gs) (k : Z) : Prop :=
  valid s ∧ gstar s = Some k ∧ ghier s = None ∧ 1 ≤ k ∧ byte_at p (k - 1) = Some STAR ∧
  (F 0 0 ↔ ∃ e, pstar s ≤ e ≤ pend ∧ F k e) ∧ (k = blen p ∧ gptr s = blen p ∨ plain k).

Lemma star_turn_spec s k : star_search s k →
  ∃ o, star_turn g text pend None s = Ok o ∧
    match o with inl t => turn_post t | inr s' => inv s' ∧ gstar s' ≠ None end.
Proof using Hstr Hp Ht.
  intros ([H1 H2 H3 H4 H5] & Hk & Hh & Hk1 & Hkb & Hall & Hkp). unfold star_turn. rewrite Hk, Hh.
  destruct (H3 k Hk) as [Hb1 Hb2]. rewrite (rd_pat k) by lia. cbn [mbind result_bind].
  destruct (Z.eqb_spec (pat_at k) 0) as [Hz|Hz].
  { eexists. split; [done|]. cbn. apply pat_end in Hz; [|lia]. rewrite Hall. split; [intros _|].
    - exists pend. split; [lia|]. rewrite Hz. by apply F_end; [lia|].
    - intros _. destruct Hkp as [[_ ->]|Hpl]; [done|]. apply plain_nonzero in Hpl. destruct Hpl. apply pat_end; lia. }
  assert (plain k) as Hpl by (destruct Hkp as [[-> _]|]; [destruct Hz; apply pat_end; lia|done]). clear Hkp.
  destruct (find_star_spec (todo pend (pstar s)) (pat_at k) (pstar s)) as (q' & -> & Hq & Hno & Hend); [lia|done|].
  assert (∀ e, pstar s ≤ e → F k e → q' ≤ e) as Hleast.
  { intros e He HF. apply plain_F in HF as (x & Hx & Hm); [|done|lia].
    destruct (Z_lt_ge_dec e q'); [|lia]. destruct (Hno e) as (y & Hy & Hm'); [lia|]. congruence. }
  cbn [mbind result_bind]. destruct (Z.eqb_spec q' pend) as [->|].
  - rewrite rd_pat by lia. cbn [mbind result_bind]. unfold at_partial.
    replace (if pat_at (gptr s) =? 0 then Ok false else Ok false) with (Ok (A := bool) false) by (by destruct (_ =? 0)).
    cbn [mbind result_bind]. eexists. split; [done|]. cbn. rewrite Hall. split.
    + intros [-> _]. destruct Hz. apply pat_end; lia.
    + intros (e & He & HF). pose proof (Hleast e ltac:(lia) HF). assert (e = pend) as -> by lia.
      apply plain_F in HF as (x & Hx%byte_at_lt & _); [lia|done|lia].
  - destruct Hend as [|(x & Hx & Hm)]; [done|]. eexists. split; [done|]. split; [|done].
    destruct Hpl as [[Hkb' Hkw] Hkq]. pose proof (byte_at_lt _ _ _ Hkb').
    assert (F k q' ↔ F (k + 1) (q' + 1)) as Hstep.
    { rewrite F_char by (done || lia). split; [by intros (? & _ & _ & ?)|]. intros HF. exists x.
      rewrite plain_matches by done. done. }
    assert (F 0 0 ↔ ∃ e, q' ≤ e ≤ pend ∧ F k e) as Hall'.
    { rewrite Hall. split; intros (e & He & HF); exists e; split; try done; [|lia]. pose proof (Hleast e ltac:(lia) HF). lia. }
    split; cbn.
    + split; cbn; try lia; [|done..]. intros ? [= <-]. lia.
    + intros ? [= <-]. split_and!; [done..|lia|]. by replace (q' + 1 - 1) with q' by lia.
    + done.
    + intros _. unfold target. cbn. replace (q' + 1 - 1) with q' by lia. split; [done|]. intros _ HM%Hall'.
      destruct HM as (e & He & HF). destruct (lits_F k e 1) as (? & ? & _); [lia|lia|lia| |done|].
      { intros d Hd. by replace (k + d) with k by lia. }
      exists (e + 1). split; [lia|done].
Qed.

(** A ['%'] to go back to, to be tried from [phier]: [gptr] is where the last
    attempt failed, or at the beginning of what follows it. *)
Definition hier_search (s : gs) (h : Z) : Prop :=
  valid s ∧ ghier s = Some h ∧ newglob g = true ∧
  (∀ k, gstar s = Some k → plain k ∧ 1 ≤ k ∧ byte_at p (k - 1) = Some STAR ∧ 1 ≤ pstar s ∧
    (F 0 0 ↔ ∃ e, pstar s - 1 ≤ e ≤ pend ∧ F k e)) ∧
  (target s ↔ ∃ e, phier s ≤ e ≤ pend ∧ sepfree (phier s) e ∧ F h e) ∧
  (gstar s ≠ None → F 0 0 → ∃ e, phier s ≤ e ≤ pend ∧ F h e) ∧
  (h = blen p ∨ plain h ∧ (pat_at h = sep ∧ gstar s = None ∨ segment h)) ∧
  (gptr s = h ∨ h ≠ blen p ∧ pat_at h ≠ sep ∧ pat_at (gptr s) ≠ sep) ∧
  (gptr s = blen p ∨ lit (gptr s)).

Lemma hier_turn_eq s h : ghier s = Some h → valid s →
  hier_turn g text pend None s =
    (p ← find_hier g text (todo pend (phier s)) (pat_at h) None (phier s);
     if p =? pend then Ok (inl (Break h p)) else
     x ← rd8 text p;
     Ok (inr (if x =? sep then (Gs (gptr s) p (gstar s) (pstar s) None (phier s), true)
              else (Gs (h + 1) (p + 1) (gstar s) (pstar s) (ghier s) (p + 1), false)))).
Proof using Hstr.
  intros Hh [H1 H2 H3 H4 H5]. unfold hier_turn. rewrite Hh. destruct (H4 h Hh).
  rewrite (rd_pat h) by lia. cbn [mbind result_bind].
  replace (match gstar s with Some k => _ | None => _ end) with (Ok (A := option Z) None).
  2: { destruct (gstar s) as [k|] eqn:Hk; [|done]. destruct (pat_at h =? 0); [|done]. destruct (H3 k eq_refl).
       rewrite rd_pat by lia. cbn. by destruct (_ =? PCT). }
  cbn [mbind result_bind]. destruct (find_hier _ _ _ _ _ _) as [e|]; [|done]. cbn [mbind result_bind].
  destruct (e =? pend); [done|]. destruct (rd8 text e) as [x|]; [|done]. cbn [mbind result_bind].
  destruct (x =? sep); [|done]. cbn [at_partial]. by destruct (pat_at h =? 0).
Qed.

(** The places a search leaves: not before where it stopped. *)
Lemma hier_least s h e : hier_search s h → phier s ≤ e ≤ pend →
  (∀ i, phier s ≤ i < e → ∃ x, byte_at t i = Some x ∧ char_eq g (pat_at h) x = false ∧ (None = None (A := Z) → x ≠ sep)) →
  sepfree (phier s) e ∧ ∀ e', phier s ≤ e' ≤ pend → F h e' → e ≤ e'.
Proof using.
  intros ([H1 H2 H3 H4 H5] & Hh & _ & _ & _ & _ & Hcase & _) He Hno. destruct (H4 h Hh). split.
  - intros i Hi Hb. destruct (Hno i Hi) as (x & Hx & _ & Hx'). rewrite Hb in Hx. injection Hx as <-. by apply Hx'.
  - intros e' He' HF. destruct (Z_lt_ge_dec e' e); [|lia]. destruct (Hno e') as (x & Hx & Hc & _); [lia|].
    destruct Hcase as [->|[Hpl _]]; [apply F_end in HF; lia|]. apply plain_F in HF as (y & Hy & Hc'); [congruence|done|lia].
Qed.

Lemma search_all s h : hier_search s h → target s → F 0 0.
Proof using.
  intros ([H1 H2 H3 H4 H5] & _ & _ & Hs & _). unfold target. destruct (gstar s) as [k|] eqn:Hk; [|done].
  destruct (Hs k eq_refl) as (_ & _ & _ & Hp1 & ->), (H3 k eq_refl). intros HF. exists (pstar s - 1). split; [lia|done].
Qed.

(** At a separator the search has failed, unless it is what comes next. *)
Lemma hier_fails s h e : hier_search s h → phier s ≤ e < pend → byte_at t e = Some sep →
  (∀ e', phier s ≤ e' ≤ pend → F h e' → e ≤ e') → pat_at h ≠ sep ∨ h = blen p → ¬ target s.
Proof using Hsep.
  intros Hsr He Hb Hle Hns. destruct Hsr as ([_ _ _ H4 _] & Hh & Hn & _ & -> & _ & Hcase & _). destruct (H4 h Hh).
  intros (e' & He' & Hsf & HF). pose proof (Hle e' ltac:(lia) HF). destruct (Z.eq_dec e' e) as [->|]; [|by apply (Hsf e); [lia|]].
  destruct Hcase as [->|[Hpl _]]; [apply F_end in HF; lia|].
  apply plain_F in HF as (x & Hx & Hm); [|done|lia]. assert (x = sep) as -> by congruence. apply char_eq_sep in Hm.
  destruct Hns as [|Hl]; [done|]. destruct Hpl as [[Hpl%byte_at_lt _] _]. lia.
Qed.

Lemma hier_sep s h e : hier_search s h → phier s ≤ e < pend → byte_at t e = Some sep → sepfree (phier s) e →
  (∀ e', phier s ≤ e' ≤ pend → F h e' → e ≤ e') →
  let s' := Gs (gptr s) e (gstar s) (pstar s) None (phier s) in
  (∃ k, star_search s' k) ∨ gstar s' = None ∧ inv s'.
Proof using Hp Hsep.
  intros Hsr He Hb Hsf Hle s'. pose proof Hsr as (Hv & Hh & Hn & Hs & Ht1 & Ht2 & Hcase & Hgp & Hlit).
  pose proof Hv as [H1 H2 H3 H4 H5]. destruct (H4 h Hh).
  assert (valid s') as Hv'.
  { split; cbn; try lia; [|done..]. intros k Hk. destruct (H3 k Hk), (H5 k h Hk Hh). lia. }
  destruct (gstar s) as [k|] eqn:Hk.
  - left. exists k. destruct (Hs k eq_refl) as (Hpl & Hk1 & Hkb & Hp1 & Hall). split_and!; try done; [|by right].
    assert (¬ F k (pstar s - 1)) as Hno.
    { intros HF. eapply hier_fails; [done|exact He|done|done| |unfold target; by rewrite Hk].
      destruct Hcase as [->|[Hph [[_ Hg]|Hseg]]]; [by right|done|left]. apply Hseg; [lia|]. intros d Hd.
      assert (d = h) as -> by lia. apply Hph. }
    rewrite Hall. cbn. destruct (H3 k eq_refl). split; intros (e' & He' & HF); exists e'; (split; [|done]); [|lia].
    destruct (Z.eq_dec e' (pstar s - 1)) as [->|]; [done|lia].
  - right. split; [done|]. split; [done|done|done|]. intros _. cbn [gstar s']. split; [|done].
    assert (target s' ↔ target s) as -> by (unfold target; cbn; by rewrite Hk). cbn.
    destruct (decide (pat_at h = sep ∧ h ≠ blen p)) as [[Hps Hne]|Hns].
    + destruct Hgp as [->|(_ & ? & _)]; [|done]. rewrite Ht1. split.
      * intros (e' & He' & Hsf' & HF). pose proof (Hle e' He' HF).
        destruct (Z.eq_dec e' e) as [->|]; [done|]. destruct (Hsf' e); [lia|done].
      * intros HF. exists e. split; [lia|done].
    + assert (¬ target s) as Hnt by (eapply hier_fails; [done|exact He|done|done|]; destruct (Z.eq_dec h (blen p)); tauto).
      split; [done|]. intros HF. exfalso. destruct Hlit as [Hl|Hl].
      { rewrite Hl in HF. apply F_end in HF; lia. }
      pose proof Hl as [Hlb Hlw]. apply F_char in HF as (x & Hx & Hm & _); [|lia|lia|done|done].
      assert (x = sep) as -> by congruence. unfold matches in Hm. rewrite Hn in Hm. cbn [negb andb] in Hm.
      rewrite orb_false_r in Hm. apply char_eq_sep in Hm. apply byte_at_lt in Hlb.
      destruct Hgp as [He'|(? & ? & ?)]; [|done]. rewrite He' in *. apply Hns. split; [done|lia].
Qed.

Lemma hier_found s h e x : hier_search s h → phier s ≤ e < pend → byte_at t e = Some x → x ≠ sep →
  char_eq g (pat_at h) x = true → sepfree (phier s) e → (∀ e', phier s ≤ e' ≤ pend → F h e' → e ≤ e') →
  inv (Gs (h + 1) (e + 1) (gstar s) (pstar s) (ghier s) (e + 1)).
Proof using Hp Ht Hsep.
  intros (Hv & Hh & Hn & Hs & Ht1 & Ht2 & Hcase & _ & _) He Hx Hns Hm Hsf Hle.
  pose proof Hv as [H1 H2 H3 H4 H5]. destruct (H4 h Hh). pose proof (cstring_at _ _ _ Ht Hx) as Hx0.
  pose proof (char_eq_nonzero _ _ Hx0 Hm) as Hnz. destruct (pat_some h) as [Hb Hl]; [lia|done|].
  destruct Hcase as [->|[Hpl [[Hps _]|Hseg]]]; [lia|rewrite Hps in Hm; by apply sep_char_eq in Hm|].
  split; cbn; rewrite ?Hh.
  - split; cbn; try lia.
    + intros k Hk. destruct (H3 k Hk), (H5 k h Hk Hh). lia.
    + intros ? [= <-]. lia.
    + intros k ? Hk [= <-]. destruct (H5 k h Hk Hh). lia.
  - exact Hs.
  - intros ? [= <-]. replace (e + 1 - 1) with e by lia. replace (h + 1 - h) with 1 by lia.
    split_and!; [done|done|done|lia|lia|lia|..].
    + intros d Hd. assert (d = 0) as -> by lia. rewrite !Z.add_0_r. exists x. split_and!; [done|apply Hpl|apply Hpl|].
      by rewrite plain_matches.
    + change (target _) with (target s). rewrite Ht1. split; intros (e' & He' & Hsf' & HF); exists e'.
      * pose proof (Hle e' He' HF). split; [lia|]. split; [|done]. intros i Hi. apply Hsf'. lia.
      * split; [lia|]. split; [|done]. intros i Hi. destruct (Z_lt_ge_dec i e); [apply Hsf; lia|apply Hsf'; lia].
    + intros Hne HM. destruct (Ht2 Hne HM) as (e' & He' & HF). pose proof (Hle e' He' HF). exists e'. split; [lia|done].
  - done.
Qed.

Lemma hier_turn_spec s h : hier_search s h →
  ∃ o, hier_turn g text pend None s = Ok o ∧
    match o with
    | inl t => turn_post t
    | inr (s', sf) => (sf = true ∧ ((∃ k, star_search s' k) ∨ gstar s' = None ∧ inv s')) ∨ ghier s' ≠ None ∧ inv s'
    end.
Proof using Hstr Hp Ht Hsep.
  intros Hsr. pose proof Hsr as (Hv & Hh & Hn & Hs & Ht1 & Ht2 & Hcase & _). rewrite (hier_turn_eq s h Hh Hv).
  pose proof Hv as [H1 H2 H3 H4 H5]. destruct (H4 h Hh).
  destruct (find_hier_spec (todo pend (phier s)) (pat_at h) None (phier s)) as (e & -> & He & Hno & Hend); [lia|done|].
  destruct (hier_least s h e Hsr He Hno) as [Hsf Hle]. cbn [mbind result_bind].
  destruct (Z.eqb_spec e pend) as [->|].
  { eexists. split; [done|]. cbn. split.
    - intros [-> _]. apply (search_all s (blen p)); [done|]. apply Ht1. exists pend. split; [lia|]. split; [done|].
      by apply F_end; [lia|].
    - intros HM. split; [|done]. destruct Hcase as [|[Hpl _]]; [done|].
      assert (∃ e', phier s ≤ e' ≤ pend ∧ F h e') as (e' & He' & HF).
      { destruct (gstar s) eqn:Hk; [by apply Ht2|]. unfold target in Ht1. rewrite Hk in Ht1.
        apply Ht1 in HM as (e' & ? & _ & ?). eauto. }
      pose proof (Hle e' He' HF). assert (e' = pend) as -> by lia.
      apply F_le in HF; [lia|lia|lia|apply Hpl]. }
  destruct (rd_text e) as (x & Hx & Hx0 & ->); [lia|]. cbn [mbind result_bind]. eexists. split; [done|].
  destruct (Z.eqb_spec x sep) as [->|Hns]; cbv beta iota.
  - left. split; [done|]. apply (hier_sep s h e); try done. lia.
  - right. split; [cbn; by rewrite Hh|]. destruct Hend as [|(y & Hy & Hc)]; [done|].
    assert (y = x) as -> by congruence. destruct Hc as [Hc|]; [|done]. apply (hier_found s h e x); try done. lia.
Qed.

(** The end of a turn. *)
Lemma turn_end s sf : valid s →
  (e ← rd8 (str g) (gptr s);
   part ← (if e =? 0 then at_partial g text pend None (ptr s) else Ok false);
   Ok (if (part : bool) then Return (ptr s) (ptr s + 1) else Next s sf)) = Ok (Next s sf).
Proof using Hstr.
  intros [H1 _ _ _ _]. rewrite rd_pat by done. cbn [mbind result_bind at_partial]. by destruct (_ =? 0).
Qed.

Definition after_notes (s : gs) : result turn :=
  h ← hier_turn g text pend None s;
  match h with
  | inl t => Ok t
  | inr (s, sepfound) =>
      k ← star_turn g text pend None s;
      match k with
      | inl t => Ok t
      | inr s =>
          e ← rd8 (str g) (gptr s);
          part ← (if e =? 0 then at_partial g text pend None (ptr s) else Ok false);
          Ok (if (part : bool) then Return (ptr s) (ptr s + 1) else Next s sepfound)
      end
  end.

Lemma after_star s k : star_search s k → ∃ o, after_notes s = Ok o ∧ turn_post o.
Proof using Hstr Hp Ht Hsep.
  intros Hss. unfold after_notes. pose proof Hss as (_ & _ & Hh & _). unfold hier_turn. rewrite Hh. cbn [mbind result_bind].
  destruct (star_turn_spec s k Hss) as (o & -> & Ho). cbn [mbind result_bind]. destruct o as [o|s']; [eauto|].
  destruct Ho as [Hi Hne]. rewrite turn_end by apply Hi. eexists. split; [done|]. by split.
Qed.

Lemma after_hier s h : hier_search s h → ∃ o, after_notes s = Ok o ∧ turn_post o.
Proof using Hstr Hp Ht Hsep.
  intros Hhs. unfold after_notes. destruct (hier_turn_spec s h Hhs) as (o & -> & Ho). cbn [mbind result_bind].
  destruct o as [o|[s' sf]]; [eauto|].
  assert (∀ s1, inv s1 → sf = true ∨ ghier s1 ≠ None → turn_post (Next s1 sf)) as Hpost.
  { intros s1 Hi [->|Hne]; (split; [done|]); [|done]. by intros _ _. }
  assert (inv s' → gstar s' = None ∨ ghier s' ≠ None → star_turn g text pend None s' = Ok (inr s')) as Hskip.
  { intros _ Hc. unfold star_turn. destruct (gstar s'), (ghier s'); try done. by destruct Hc. }
  destruct Ho as [[-> [[k Hss]|[Hn Hi]]]|[Hne Hi]].
  - destruct (star_turn_spec s' k Hss) as (o & -> & Ho). cbn [mbind result_bind]. destruct o as [o|s1]; [eauto|].
    destruct Ho as [Hi _]. rewrite turn_end by apply Hi. eexists. split; [done|]. apply Hpost; auto.
  - rewrite Hskip by auto. cbn [mbind result_bind]. rewrite turn_end by apply Hi. eexists. split; [done|]. apply Hpost; auto.
  - rewrite Hskip by auto. cbn [mbind result_bind]. rewrite turn_end by apply Hi. eexists. split; [done|]. apply Hpost; auto.
Qed.

(** The search a turn begins when the literals have stopped. *)
Section Stopped.
Context (s : gs) (k : Z) (Hinv : inv s) (Hk : 0 ≤ k) (Hrun : run (gptr s) (ptr s) k)
  (Hg : gptr s + k ≤ blen p) (Hpp : ptr s + k ≤ pend).
#[local] Abbreviation gp := (gptr s + k).
#[local] Abbreviation pp := (ptr s + k).
#[local] Abbreviation s1 := (moved s gp pp).

Lemma new_star : byte_at p gp = Some STAR →
  star_search (Gs (gp + 1) pp (Some (gp + 1)) pp None (phier s)) (gp + 1).
Proof using Hinv Hk Hrun Hg Hpp Hstar.
  intros Hb. pose proof (byte_at_lt _ _ _ Hb). pose proof Hinv as [[H1 H2 _ _ _] _ _ _].
  split_and!; cbn; try done; [|lia|by replace (gp + 1 - 1) with gp by lia| |].
  - split; cbn; try done; try lia. intros ? [= <-]. lia.
  - split.
    + intros HM. destruct (all_reach s k Hinv Hk Hrun Hpp HM) as (j & Hj & HF).
      apply F_star in HF as (e & He & HF); [|lia..|done]. exists e. split; [lia|done].
    + intros He. eapply target_all, reach_target; [done..|]. apply F_star; [lia|lia|done|done].
  - destruct (Hstar _ Hb); [left; lia|by right].
Qed.

Lemma new_hier : byte_at p gp = Some PCT →
  hier_search (Gs (gp + 1) pp (gstar s) (pstar s) (Some (gp + 1)) pp) (gp + 1).
Proof using Hinv Hk Hrun Hg Hpp Hpct Hsep.
  intros Hb. pose proof (byte_at_lt _ _ _ Hb) as Hl. destruct (Hpct _ Hb) as [Hn Hcase].
  pose proof Hinv as [[H1 H2 H3 H4 H5] Hs Hi Hno].
  assert (target s ↔ F gp pp) as Ht0.
  { split; [|by apply reach_target]. destruct (ghier s) as [h|] eqn:Hh.
    - destruct (hier_run s k Hinv Hrun h Hh) as [Hr Hpe].
      destruct (Hi h eq_refl) as (_ & _ & Hseg & Hp1 & Hn1 & _ & _ & -> & _), (H4 h eq_refl). intros (e & He & Hsf & HF).
      destruct (lits_F h e (gp - h)) as (H6 & H7 & Hre); [lia|lia|lia|by eapply run_lits|done|].
      replace (h + (gp - h)) with gp in H7 by lia. apply F_hier in H7 as (e' & He' & Hsf' & HF'); [|done|lia|lia|done].
      apply F_hier; [done|lia|lia|done|]. exists e'. split; [lia|]. split; [|done]. intros i Hi'.
      destruct (Z_lt_ge_dec i e); [apply Hsf; lia|]. destruct (Z_lt_ge_dec i (e + (gp - h))); [|apply Hsf'; lia].
      eapply segment_run; [done|done|exact Hre|lia].
    - destruct (Hno eq_refl) as [-> _]. by apply (F_run (gptr s) (ptr s) k); [lia..| |]. }
  split_and!; cbn; try done.
  - split; cbn; try lia.
    + intros m Hm. destruct (H3 m Hm). lia.
    + intros ? [= <-]. lia.
    + intros m ? Hm [= <-]. destruct (H3 m Hm). lia.
  - change (target _) with (target s). rewrite Ht0. by apply F_hier; [|lia..|].
  - intros _ HM. destruct (all_reach s k Hinv Hk Hrun Hpp HM) as (j & Hj & HF).
    apply F_hier in HF as (e & He & _ & HF); [|done|lia|lia|done]. exists e. split; [lia|done].
  - destruct Hcase as [->|[Hpl [[Hps Hns]|Hseg]]]; [by left|right..].
    + split; [done|left]. split; [done|]. destruct (gstar s) as [m|]; [|done].
      destruct (Hs m eq_refl) as (_ & _ & Hmb & _), (H3 m eq_refl). exfalso. eapply Hns; [|exact Hmb]. lia.
    + auto.
  - by left.
  - destruct Hcase as [|[[Hpl _] _]]; [by left|by right].
Qed.

Lemma retry_hier h : ghier s = Some h → ¬ F gp pp → gp = blen p ∨ lit gp → hier_search s1 h.
Proof using Hinv Hk Hrun Hg Hpp Hp Hsep.
  intros Hh HnF Hgp. pose proof Hinv as [Hv Hs Hi _]. pose proof Hv as [H1 H2 H3 H4 H5].
  destruct (hier_run s k Hinv Hrun h Hh) as [Hr Hpe].
  destruct (Hi h Hh) as (Hn & Hpl & Hseg & Hp1 & Hn1 & _ & _ & Ht1 & Ht2), (H4 h Hh).
  assert (F h (phier s - 1) ↔ F gp pp) as HF0.
  { rewrite (F_run h (phier s - 1) (gp - h)) by (done || lia). rewrite <- Hpe. by replace (h + (gp - h)) with gp by lia. }
  pose proof (segment_run h (phier s - 1) (gp - h) Hseg Hn Hr) as Hsf0. pose proof Hpl as [Hl _].
  assert (pat_at h ≠ sep) as Hph by (apply Hseg; [lia|]; intros d Hd; by assert (d = h) as -> by lia).
  split_and!; cbn; try done.
  - by apply moved_ok.
  - change (target s1) with (target s). rewrite Ht1. split; intros (e & He & Hsf & HF); exists e.
    + assert (e ≠ phier s - 1) by (intros ->; tauto). split; [lia|]. split; [|done]. intros i Hi'. apply Hsf. lia.
    + split; [lia|]. split; [|done]. intros i Hi'. destruct (Z.eq_dec i (phier s - 1)); [apply Hsf0; lia|apply Hsf; lia].
  - intros Hne HM. destruct (Ht2 Hne HM) as (e & He & HF). assert (e ≠ phier s - 1) by (intros ->; tauto).
    exists e. split; [lia|done].
  - right. split; [done|by right].
  - right. destruct Hl as [Hlb%byte_at_lt _]. split; [lia|]. split; [done|]. destruct Hgp as [Hge|Hgl].
    + rewrite Hge, Hsep. assert (pat_at (blen p) = 0) as -> by (apply pat_end; lia). done.
    + apply Hseg; [lia|]. intros d Hd. destruct (Z.eq_dec d gp) as [->|]; [done|].
      replace d with (h + (d - h)) by lia. eapply run_lits; [done|lia].
Qed.

Lemma retry_star m : gstar s = Some m → ghier s = None → ¬ F gp pp → star_search s1 m.
Proof using Hinv Hk Hrun Hg Hpp.
  intros Hm Hh HnF. pose proof Hinv as [Hv Hs _ Hno]. pose proof Hv as [H1 H2 H3 _ _].
  destruct (Hs m Hm) as (Hpl & Hm1 & Hmb & Hp1 & Hall), (H3 m Hm). destruct (Hno Hh) as [Ht1 _].
  unfold target in Ht1. rewrite Hm in Ht1.
  assert (¬ F m (pstar s - 1)) as Hn by (rewrite Ht1, (F_run (gptr s) (ptr s) k) by (done || lia); done).
  split_and!; cbn; try done; [by apply moved_ok| |by right].
  rewrite Hall. split; intros (e & He & HF); exists e; (split; [|done]); [|lia].
  destruct (Z.eq_dec e (pstar s - 1)) as [->|]; [done|lia].
Qed.
End Stopped.

Lemma glob_turn_eq s : glob_turn g text pend None s =
  ('(gp, p) ← literals g text (todo pend (ptr s)) (gptr s) (ptr s);
   c ← rd8 (str g) gp;
   if (c =? 0) && (p =? pend) then Ok (Break gp p) else
   s ← note_star g (moved s gp p); s ← note_hier g s; after_notes s).
Proof using. done. Qed.

Lemma glob_turn_spec s : inv s → ∃ o, glob_turn g text pend None s = Ok o ∧ turn_post o.
Proof using Hstr Hp Ht Hsep Hstar Hpct.
  intros Hinv. pose proof Hinv as [Hv _ _ Hno]. pose proof Hv as [H1 H2 _ _ _]. rewrite glob_turn_eq.
  destruct (literals_spec (todo pend (ptr s)) (gptr s) (ptr s)) as (k & -> & Hk & Hg & Hpp & Hrun & Hstop); [done..|].
  cbn [mbind result_bind]. rewrite rd_pat by lia. cbn [mbind result_bind].
  destruct ((pat_at (gptr s + k) =? 0) && (ptr s + k =? pend)) eqn:Hend.
  { apply andb_true_iff in Hend as [Hz%Z.eqb_eq He%Z.eqb_eq]. apply pat_end in Hz; [|lia]. eexists. split; [done|].
    split; [intros _|done]. eapply target_all, reach_target; [done..|]. rewrite Hz, He. by apply F_end; [lia|]. }
  set (s1 := moved _ _ _). unfold note_star, note_hier. cbn [gptr s1 moved]. rewrite rd_pat by lia. cbn [mbind result_bind].
  destruct (Z.eqb_spec (pat_at (gptr s + k)) STAR) as [Hst|Hnst].
  { destruct (pat_some (gptr s + k)) as [Hb Hl]; [lia|by rewrite Hst|]. rewrite Hst in Hb.
    cbn [gptr ptr phier moved s1]. rewrite rd_pat by lia. cbn [mbind result_bind].
    assert ((pat_at (gptr s + k + 1) =? PCT) = false) as ->.
    { destruct (Hstar _ Hb) as [Hl'|[[_ Hw] _]]; [|by apply orb_false_iff in Hw as [_ ?]].
      rewrite Hl'. by assert (pat_at (blen p) = 0) as -> by (apply pat_end; lia). }
    exact (after_star _ _ (new_star s k Hinv Hk Hrun Hg Hpp Hb)). }
  change (gptr s1) with (gptr s + k). rewrite rd_pat by lia. cbn [mbind result_bind].
  destruct (Z.eqb_spec (pat_at (gptr s + k)) PCT) as [Hpc|Hnpc].
  { destruct (pat_some (gptr s + k)) as [Hb Hl]; [lia|by rewrite Hpc|]. rewrite Hpc in Hb.
    exact (after_hier _ _ (new_hier s k Hinv Hk Hrun Hg Hpp Hb)). }
  assert (wildcard (pat_at (gptr s + k)) = false) as Hw
    by (unfold wildcard; apply orb_false_iff; split; by apply Z.eqb_neq).
  assert (gptr s + k = blen p ∨ lit (gptr s + k)) as Hgp.
  { destruct (Z.eq_dec (pat_at (gptr s + k)) 0) as [Hz|Hz]; [left; by apply pat_end in Hz; [|lia]|right].
    split; [|done]. apply pat_some; [lia|done]. }
  assert (¬ F (gptr s + k) (ptr s + k)) as HnF.
  { intros HF. destruct Hgp as [Hge|[Hb _]].
    - rewrite Hge in HF, Hend. assert (pat_at (blen p) = 0) as Hz by (apply pat_end; lia). rewrite Hz in Hend.
      apply F_end in HF; [|lia]. rewrite HF, !Z.eqb_refl in Hend. done.
    - apply F_char in HF as (x & Hx & Hm & _); [|lia|lia|done|done].
      destruct Hstop as [Hs'|[Hs'|(y & Hy & Hm')]]; [congruence|apply byte_at_lt in Hx; lia|congruence]. }
  change (∃ o, after_notes s1 = Ok o ∧ turn_post o).
  destruct (ghier s) as [h|] eqn:Hh; [exact (after_hier _ _ (retry_hier s k Hinv Hk Hrun Hg Hpp h Hh HnF Hgp))|].
  destruct (gstar s) as [m|] eqn:Hm; [exact (after_star _ _ (retry_star s k Hinv Hk Hrun Hg Hpp m Hm Hh HnF))|].
  assert (hier_turn g text pend None s1 = Ok (inr (s1, false))) as E1 by (unfold hier_turn; cbn; by rewrite Hh).
  assert (star_turn g text pend None s1 = Ok (inr s1)) as E2 by (unfold star_turn; cbn; by rewrite Hm).
  unfold after_notes. rewrite E1. cbn [mbind result_bind]. rewrite E2. cbn [mbind result_bind].
  destruct (moved_ok s k Hv Hk Hg Hpp) as [Hv1 _]. rewrite turn_end by done. eexists. split; [done|].
  destruct (Hno eq_refl) as [Ht1 _]. unfold target in Ht1. rewrite Hm in Ht1.
  rewrite (F_run (gptr s) (ptr s) k) in Ht1 by (done || lia). split; cbn; rewrite ?Hm, ?Hh.
  - split; cbn; rewrite ?Hm, ?Hh; try done. intros _. unfold target. cbn. rewrite Hm. by split.
  - intros _ _ _. split; [tauto|]. intros [Hge Hpe]. rewrite Hge, Hpe in HnF. by apply HnF, F_end; [lia|].
Qed.

Lemma glob_loop_spec fuel s a : inv s → glob_loop g text pend fuel None s = Ok a →
  ∃ b : bool, a = (if b then to_s32 pend else -1, None) ∧ (b = true ↔ F 0 0).
Proof using Hstr Hp Ht Hsep Hstar Hpct.
  revert s. induction fuel as [|fuel IH]; intros s Hinv; [done|]. cbn [glob_loop].
  destruct (glob_turn_spec s Hinv) as (o & E & Ho). destruct (glob_turn_ok None s (i_valid _ Hinv)) as (o' & E' & Hok).
  rewrite E in E'. injection E' as <-. rewrite E.
  assert (∀ gp pp, 0 ≤ gp ≤ blen p → ((gp = blen p ∧ pp = pend) ↔ F 0 0) → glob_end g pend None gp pp = Ok a →
    ∃ b : bool, a = (if b then to_s32 pend else -1, None) ∧ (b = true ↔ F 0 0)) as Hend.
  { intros gp pp Hgp HF. unfold glob_end. rewrite rd_pat by done. cbn [mbind result_bind]. intros [= <-].
    exists ((pat_at gp =? 0) && (pp =? pend)). rewrite <- HF, andb_true_iff, !Z.eqb_eq, pat_end by done.
    split; [|done]. destruct (pat_at gp =? 0); [|done]. destruct (Z.eqb_spec pp pend); [by subst|done]. }
  cbn [mbind result_bind]. destruct o as [gp pp|? ?|s' sf]; [|done|].
  - by apply Hend.
  - destruct Ho as [Hi Hn]. pose proof Hi as [[H1 H2 _ _ _] _ Hih Hin]. unfold goes_on. rewrite rd_pat by done. cbn [mbind result_bind].
    destruct (_ || _) eqn:Hgo; [by apply IH|]. apply Hend; [done|].
    apply orb_false_iff in Hgo as [Hw Hgo]. split.
    + intros [Hg Hpe]. eapply target_all, (reach_target s' 0); rewrite ?Z.add_0_r; [done|done|lia|intros k Hk; lia|].
      rewrite Hg, Hpe. by apply F_end; [lia|].
    + intros HM. apply andb_false_iff in Hgo as [Hgo|Hgo].
      * apply orb_false_iff in Hgo as [Hgo ->]. apply orb_false_iff in Hgo as [Hg1 Hg2].
        destruct (gstar s') eqn:E1; [done|]. destruct (ghier s') eqn:E2; [done|]. by destruct Hn.
      * apply orb_false_iff in Hgo as [Hz%negb_false_iff Hpe%negb_false_iff].
        apply Z.eqb_eq in Hz, Hpe. apply pat_end in Hz; done.
Qed.
End Tame.
End Run.
