(* ===== verification/GlobInit.v ===== *)
(** * GlobInit: compiling patterns, and the theorems about [lib/glob.c]

    Normalising a pattern keeps its language; which patterns the matcher
    decides; the properties. *)
From S2P Require Import Prelude CMem CString Glob GlobSpec.
#[local] Open Scope Z_scope.

(** ** Languages of normalised patterns *)

Section Equiv.
Context (nw : bool) (eq : Z → Z → bool).
#[local] Abbreviation gmatch := (gmatch nw 46 eq).
Definition equiv (p p' : bytes) : Prop := ∀ t, gmatch p t ↔ gmatch p' t.

#[export] Instance equiv_equivalence : Equivalence equiv.
Proof.
  split; [intros p t; done|intros p p' H t; exact (iff_sym (H t))|].
  intros p1 p2 p3 H1 H2 t. exact (iff_trans (H1 t) (H2 t)).
Qed.

#[export] Instance equiv_cons c : Proper (equiv ==> equiv) (cons c).
Proof.
  assert (∀ p p' t, equiv p p' → gmatch (c :: p) t → gmatch (c :: p') t) as H.
  { intros p p' t He. inversion 1 as [|? u v Hm|? u v ? ? Hm|? ? ? ? ? ? Hm|? ? ? ? ? ? ? ? Hm]; subst.
    - constructor. by apply He.
    - constructor; [done..|by apply He].
    - apply gm_any; [done..|by apply He].
    - apply gm_char; try done. by apply He. }
  intros p p' He t. split; apply H; [done|by symmetry].
Qed.

Lemma star_absorbs c p : c = STAR ∨ nw = true ∧ c = PCT → equiv (STAR :: c :: p) (STAR :: p).
Proof.
  intros Hc t. rewrite !gmatch_star. split.
  - intros (u & v & -> & H). destruct Hc as [->|[Hn ->]].
    + apply gmatch_star in H as (u' & v' & -> & H). exists (u ++ u'), v'. by rewrite app_assoc.
    + apply gmatch_hier in H as (u' & v' & -> & _ & H); [|done]. exists (u ++ u'), v'. by rewrite app_assoc.
  - intros (u & v & -> & H). exists u, v. split; [done|]. destruct Hc as [->|[Hn ->]].
    + by apply (gm_star _ _ _ _ []).
    + apply (gm_hier _ _ _ _ []); [done|by intros ?%elem_of_nil|done].
Qed.

Lemma pct_star p : nw = true → equiv (PCT :: STAR :: p) (STAR :: p).
Proof.
  intros Hn t. rewrite gmatch_hier by done. split.
  - intros (u & v & -> & _ & H). apply gmatch_star in H as (u' & v' & -> & H).
    rewrite app_assoc. by constructor.
  - intros H. exists [], t. split; [done|]. split; [by intros ?%elem_of_nil|done].
Qed.

Lemma pct_pct p : nw = true → equiv (PCT :: PCT :: p) (PCT :: p).
Proof.
  intros Hn t. rewrite !gmatch_hier by done. split.
  - intros (u & v & -> & Hu & H). apply gmatch_hier in H as (u' & v' & -> & Hu' & H); [|done].
    exists (u ++ u'), v'. rewrite app_assoc. split_and!; [done| |done]. intros [?|?]%elem_of_app; auto.
  - intros (u & v & -> & Hu & H). exists u, v. split_and!; [done|done|].
    apply (gm_hier _ _ _ _ []); [done|by intros ?%elem_of_nil|done].
Qed.

(** Old style: ['?'] and ['%'] are one character. *)
Lemma any_one c p s : nw = false → c = PCT ∨ c = QUEST → gmatch (c :: p) s ↔ ∃ x v, s = x :: v ∧ gmatch p v.
Proof.
  intros Hn Hc. split; [|intros (x & v & -> & ?); by apply gm_any].
  inversion 1 as [|? ? ? ?|? ? ? Ht|? ? ? ? _ _ Hm|? ? ? ? H1 H2 H3]; subst; [by destruct Hc|congruence|eauto|].
  destruct Hc as [->| ->]; [done|by destruct H3].
Qed.

Lemma pct_quest p : nw = false → equiv (PCT :: p) (QUEST :: p).
Proof. intros Hn t. rewrite !any_one by auto. done. Qed.

Lemma star_quest c p : nw = false → c = PCT ∨ c = QUEST → equiv (STAR :: c :: p) (QUEST :: STAR :: p).
Proof.
  intros Hn Hc t. rewrite gmatch_star, any_one by auto. split.
  - intros (u & v & -> & H). apply any_one in H as (x & v' & -> & H); [|done..]. destruct u as [|y u].
    + exists x, v'. split; [done|]. by apply (gm_star _ _ _ _ []).
    + exists y, (u ++ x :: v'). split; [done|]. rewrite cons_middle, app_assoc. by constructor.
  - intros (x & v & -> & (u & v' & -> & H)%gmatch_star). destruct (exists_last (l := x :: u)) as (u' & y & E); [done|].
    exists u', (y :: v'). split.
    + change (x :: u ++ v') with ((x :: u) ++ v'). by rewrite E, <- app_assoc.
    + apply any_one; eauto.
Qed.
End Equiv.

(** ** The copying loops *)

Definition is_wild (c : Z) : Prop := c = STAR ∨ c = PCT.

Section Copy.
Context (eq : Z → Z → bool) (room : Z) (q : bytes).
#[local] Abbreviation mem s := (s ++ 0 :: q).

Lemma put_ok dst c : blen dst < room → put room dst c = Ok (dst ++ [c]).
Proof. intros H. unfold put. destruct (Z.ltb_spec (blen dst) room); [done|lia]. Qed.

Lemma skip_pct_ok s : is_cstring s → ∃ w s', s = w ++ s' ∧ Forall (.= PCT) w ∧ skip_pct (mem s) = Ok (mem s') ∧
  (∀ c r, s = c :: r → c = PCT → w ≠ []).
Proof.
  induction 1 as [|c s Hc Hs IH]; [exists [], []; by split_and!|]. cbn [app skip_pct].
  destruct (Z.eqb_spec c PCT) as [->|Hne].
  - destruct IH as (w & s' & -> & Hw & -> & _). exists (PCT :: w), s'. split_and!; [done|by constructor|done|done].
  - exists [], (c :: s). split_and!; [done|constructor|done|]. by intros ? ? [= <- <-].
Qed.

Lemma skip_new_ok s : is_cstring s → ∃ w s', s = w ++ s' ∧ Forall is_wild w ∧ skip_new (mem s) = Ok (mem s') ∧
  (∀ r, s = STAR :: r → ∃ w', w = STAR :: w').
Proof.
  induction 1 as [|c s Hc Hs IH]; [exists [], []; by split_and!|]. cbn [app skip_new].
  destruct (Z.eqb_spec c STAR) as [->|Hne]; [|destruct (Z.eqb_spec c PCT) as [->|Hne']].
  - destruct IH as (w & s' & -> & Hw & -> & _). exists (STAR :: w), s'.
    split_and!; [done|by constructor; [left|]|done|eauto].
  - destruct s as [|d s].
    { cbn. exists [], [PCT]. split_and!; [done|constructor|done|done]. }
    apply Forall_cons_1 in Hs as [Hd Hs]. cbn [app]. change (rd8 (d :: mem s) 0) with (Ok d). cbn [mbind result_bind].
    destruct (Z.eqb_spec d 0); [lia|]. destruct IH as (w & s' & E & Hw & E' & _). cbn [app] in E'. rewrite E'. exists (PCT :: w), s'. rewrite E.
    split_and!; [done|by constructor; [right|]|done|done].
  - exists [], (c :: s). split_and!; [done|constructor|done|]. intros r [= ? _]. done.
Qed.

Lemma skip_old_ok s dst : is_cstring s → blen dst + blen s ≤ room →
  ∃ w s', s = w ++ s' ∧ Forall (λ c, is_wild c ∨ c = QUEST) w ∧
    skip_old room (mem s) dst = Ok (mem s', dst ++ replicate (length (filter (λ c, c ≠ STAR) w)) QUEST) ∧
    (∀ r, s = STAR :: r → ∃ w', w = STAR :: w').
Proof.
  intros Hs. revert dst. induction Hs as [|c s Hc Hs IH]; intros dst Hr; [exists [], []; cbn; rewrite app_nil_r; split_and!; try done; constructor|].
  rewrite blen_cons in Hr. pose proof (blen_nonneg s). cbn [app skip_old].
  destruct (Z.eqb_spec c STAR) as [->|Hne]; [|destruct (Z.eqb_spec c PCT) as [->|Hne']; [|destruct (Z.eqb_spec c QUEST) as [->|Hne'']]].
  - destruct (IH dst) as (w & s' & -> & Hw & -> & _); [lia|]. exists (STAR :: w), s'.
    split_and!; [done|by constructor; [left; left|]|by rewrite filter_cons_False by (intros ?; done)|eauto].
  - cbn [orb]. rewrite put_ok by lia. cbn [mbind result_bind].
    destruct (IH (dst ++ [QUEST])) as (w & s' & -> & Hw & -> & _); [blia|]. exists (PCT :: w), s'.
    rewrite filter_cons_True by done. cbn [length replicate]. rewrite <- app_assoc.
    split_and!; [done|by constructor; [left; right|]|done|done].
  - cbn [orb]. rewrite put_ok by lia. cbn [mbind result_bind].
    destruct (IH (dst ++ [QUEST])) as (w & s' & -> & Hw & -> & _); [blia|]. exists (QUEST :: w), s'.
    rewrite filter_cons_True by done. cbn [length replicate]. rewrite <- app_assoc.
    split_and!; [done|by constructor; [right|]|done|done].
  - exists [], (c :: s). cbn [orb]. rewrite app_nil_r. split_and!; [done|constructor|done|]. intros r [= ? _]. done.
Qed.

Lemma star_wilds w s : Forall is_wild w → equiv true eq (STAR :: w ++ s) (STAR :: s).
Proof.
  induction 1 as [|c w Hc _ IH]; [done|]. cbn [app]. rewrite star_absorbs; [done|]. destruct Hc; auto.
Qed.

Lemma pcts_star w s : Forall (.= PCT) w → equiv true eq (w ++ STAR :: s) (STAR :: s).
Proof. induction 1 as [|c w -> _ IH]; [done|]. cbn [app]. rewrite IH. by apply pct_star. Qed.

Lemma pcts_one w s : Forall (.= PCT) w → w ≠ [] → equiv true eq (w ++ s) (PCT :: s).
Proof.
  induction 1 as [|c w -> Hw IH]; [done|]. intros _. cbn [app]. destruct w as [|d w]; [done|].
  rewrite IH by done. by apply pct_pct.
Qed.

Lemma quests w s : Forall (λ c, is_wild c ∨ c = QUEST) w →
  equiv false eq (STAR :: w ++ s) (replicate (length (filter (λ c, c ≠ STAR) w)) QUEST ++ STAR :: s).
Proof.
  induction 1 as [|c w Hc _ IH]; [done|]. cbn [app]. destruct (decide (c = STAR)) as [->|Hne].
  - rewrite filter_cons_False by (intros ?; done). rewrite star_absorbs by auto. done.
  - rewrite filter_cons_True by done. cbn [length replicate app]. rewrite <- IH. apply star_quest; [done|].
    destruct Hc as [[?|?]|?]; [done|auto..].
Qed.

(** What copying a pattern gives: a string no longer, with the same language. *)
Definition copied (nw : bool) (s dst : bytes) (m : result bytes) : Prop :=
  ∃ n, m = Ok (dst ++ n) ∧ is_cstring n ∧ blen n ≤ blen s ∧ equiv nw eq n s.

Lemma copied_cons nw s s' dst c m :
  0 < c < 256 → copied nw s' (dst ++ [c]) m → 1 + blen s' ≤ blen s → equiv nw eq (c :: s') s → copied nw s dst m.
Proof.
  intros Hc (n & -> & Hn & Hl & He) Hle Hs. exists (c :: n). rewrite <- app_assoc. split_and!; [done|by constructor| |].
  - rewrite blen_cons. lia.
  - by rewrite He.
Qed.

Lemma copy_new_ok fuel s dst : is_cstring s → (length s < fuel)%nat → blen dst + blen s ≤ room →
  copied true s dst (copy_new room fuel (mem s) dst).
Proof.
  revert s dst. induction fuel as [|fuel IH]; intros s dst Hs Hf Hr; [lia|]. cbn [copy_new].
  destruct s as [|c s]. { exists []. rewrite app_nil_r. by split_and!. }
  pose proof Hs as [Hc Hs']%Forall_cons_1. rewrite blen_cons in Hr. pose proof (blen_nonneg s). cbn [length] in Hf.
  change (rd8 (mem (c :: s)) 0) with (Ok c). cbn [mbind result_bind]. destruct (Z.eqb_spec c 0); [lia|].
  destruct ((c =? STAR) || (c =? PCT)) eqn:Hw.
  2: { rewrite put_ok by lia. cbn [mbind result_bind tail app].
       eapply copied_cons; [done|apply IH; [done|lia|blia]|rewrite blen_cons; lia|done]. }
  destruct (skip_pct_ok (c :: s) Hs) as (w & s2 & E & Hwp & -> & Hne). cbn [mbind result_bind].
  assert (is_cstring s2) as Hs2 by (rewrite E in Hs; by apply Forall_app in Hs as [_ ?]).
  assert (blen w + blen s2 = 1 + blen s) as Hlen by (rewrite <- blen_app, <- E, blen_cons; done).
  pose proof (blen_nonneg w). pose proof (blen_nonneg s2).
  destruct s2 as [|d s3]; [change (rd8 (mem []) 0) with (Ok 0)|change (rd8 (mem (d :: s3)) 0) with (Ok d)];
    cbn [mbind result_bind]; [change (0 =? STAR) with false; cbv iota|destruct (Z.eqb_spec d STAR) as [->|Hd]].
  2: { destruct (skip_new_ok (STAR :: s3) Hs2) as (w' & s4 & E' & Hw' & -> & Hstar). cbn [mbind result_bind].
       destruct (Hstar s3 eq_refl) as [w2 ->]. rewrite put_ok by lia. cbn [mbind result_bind].
       injection E' as ->. apply Forall_cons_1 in Hw' as [_ Hw'].
       apply Forall_cons_1 in Hs2 as [_ Hs4]. apply Forall_app in Hs4 as [_ Hs4].
       rewrite !blen_cons, !blen_app in *. pose proof (blen_nonneg w2).
       assert (length (STAR :: w2 ++ s4) ≤ S (length s))%nat as Hlen'.
       { apply (f_equal length) in E. rewrite length_app in E. cbn [length] in *. lia. }
       cbn [length] in Hlen'. rewrite length_app in Hlen'.
       eapply (copied_cons _ _ _ _ STAR); [done|apply IH; [done|lia|blia]|rewrite blen_cons; lia|].
       rewrite E, pcts_star by done. by rewrite star_wilds. }
  all: assert (w ≠ []) as Hwne by (destruct w; [|done]; cbn in E; try done;
    injection E as <- <-; destruct (Z.eqb_spec c STAR) as [|]; try done; cbn in Hw; apply Z.eqb_eq in Hw; by eapply Hne).
  all: rewrite put_ok by lia; cbn [mbind result_bind].
  all: assert (0 < length w)%nat by (destruct w; [done|cbn; lia]).
  all: apply (f_equal length) in E as El; rewrite length_app in El; cbn [length] in El.
  all: assert (1 ≤ blen w) by (unfold blen; lia).
  all: eapply (copied_cons _ _ _ _ PCT); [done|apply IH; [done|cbn [length]; lia|blia]|rewrite ?blen_cons in *; lia|].
  all: rewrite E; symmetry; by apply pcts_one.
Qed.

Lemma copy_old_ok fuel s dst : is_cstring s → (length s < fuel)%nat → blen dst + blen s ≤ room →
  copied false s dst (copy_old room fuel (mem s) dst).
Proof.
  revert s dst. induction fuel as [|fuel IH]; intros s dst Hs Hf Hr; [lia|]. cbn [copy_old].
  destruct s as [|c s]. { exists []. rewrite app_nil_r. by split_and!. }
  pose proof Hs as [Hc Hs']%Forall_cons_1. rewrite blen_cons in Hr. pose proof (blen_nonneg s). cbn [length] in Hf.
  change (rd8 (mem (c :: s)) 0) with (Ok c). cbn [mbind result_bind]. destruct (Z.eqb_spec c 0); [lia|].
  destruct (Z.eqb_spec c STAR) as [->|Hne].
  2: { rewrite put_ok by lia. cbn [mbind result_bind tail app].
       eapply copied_cons; [|apply IH; [done|lia|blia]|rewrite blen_cons; lia|].
       - destruct (c =? PCT); [done|lia].
       - destruct (Z.eqb_spec c PCT) as [->|]; [|done]. symmetry. by apply pct_quest. }
  destruct (skip_old_ok (STAR :: s) dst Hs) as (w & s2 & E & Hw & -> & Hstar); [rewrite blen_cons; lia|].
  destruct (Hstar s eq_refl) as [w2 ->]. injection E as ->. apply Forall_cons_1 in Hw as [_ Hw]. cbn [mbind result_bind].
  rewrite filter_cons_False by (intros ?; done). set (k := length (filter _ w2)).
  assert (k ≤ length w2)%nat by apply length_filter.
  apply Forall_app in Hs' as [_ Hs2]. rewrite blen_app in *. rewrite length_app in *. unfold blen in *.
  rewrite put_ok by (unfold blen in *; rewrite length_app, length_replicate; lia). cbn [mbind result_bind].
  destruct (IH s2 ((dst ++ replicate k QUEST) ++ [STAR])) as (m & -> & Hn & Hl & He); [done|lia| |].
  { unfold blen. rewrite !length_app, length_replicate. cbn [length]. lia. }
  exists (replicate k QUEST ++ STAR :: m). unfold blen in *. rewrite <- !app_assoc. split_and!; [done| | |].
  - apply Forall_app. split; [by apply Forall_replicate|by constructor].
  - rewrite !length_app, length_replicate. cbn [length]. rewrite length_app. lia.
  - rewrite quests by done. fold k. clear -He. induction k as [|k IHk]; [by cbn [replicate app]; rewrite He|].
    cbn [replicate app]. by rewrite IHk.
Qed.
End Copy.

(** ** The patterns the matcher decides

    After a ['%'] it looks for the next character only up to the separator, and
    when it has to give up it goes on from wherever the pattern was: it decides a
    pattern where what follows a ['%'], up to the next wildcard, has no
    separator in it, or is a separator, with no ['*'] in front; and where no
    ["*%"] ends it. *)
Fixpoint no_sep (p : bytes) : bool :=
  match p with [] => true | c :: p' => wildcard c || negb (c =? 46) && no_sep p' end.

Fixpoint tame (nw star : bool) (p : bytes) : bool :=
  match p with
  | [] => true
  | c :: p' =>
      if c =? STAR then
        match p' with [] => true | d :: _ => negb (wildcard d) && (nw || negb (d =? QUEST)) end && tame nw true p'
      else if c =? PCT then
        nw && match p' with [] => true | d :: _ => negb (wildcard d) && ((d =? 46) && negb star || no_sep p') end
        && tame nw star p'
      else tame nw star p'
  end.

Definition starts (p : bytes) : Prop := match p with [] => True | d :: _ => wildcard d = false ∧ d ≠ QUEST end.

Lemma skip_old_starts room s dst s' dst' : skip_old room s dst = Ok (s', dst') →
  starts s' ∧ ∃ k, dst' = dst ++ replicate k QUEST.
Proof.
  revert dst. induction s as [|c s IH]; intros dst; cbn [skip_old]; [done|].
  destruct (Z.eqb_spec c STAR); [apply IH|]. destruct ((c =? PCT) || (c =? QUEST)) eqn:Hc.
  - intros H. apply bind_ok_inv in H as (d & Hd & H). apply IH in H as (Hs & k & ->). split; [done|]. exists (S k).
    unfold put in Hd. destruct (_ <? _); [|done]. injection Hd as <-. cbn. by rewrite <- app_assoc.
  - intros [= <- <-]. apply orb_false_iff in Hc as [Hc ?%Z.eqb_neq]. split; [|exists 0%nat; by rewrite app_nil_r].
    split; [|done]. unfold wildcard. rewrite Hc, orb_false_r. by apply Z.eqb_neq.
Qed.

(** Old-style patterns are all decided. *)
Lemma copy_old_tame room fuel s dst m b : copy_old room fuel s dst = Ok m →
  ∃ n, m = dst ++ n ∧ tame false b n = true ∧ (starts s → starts n).
Proof.
  revert s dst b. induction fuel as [|fuel IH]; intros s dst b; cbn [copy_old]; [done|].
  destruct s as [|c s]; [done|]. change (rd8 (c :: s) 0) with (Ok c). cbn [mbind result_bind tail].
  destruct (Z.eqb_spec c 0) as [->|Hc]. { intros [= <-]. exists []. by rewrite app_nil_r. }
  destruct (Z.eqb_spec c STAR) as [->|Hne]; intros H; apply bind_ok_inv in H as (d & Hd & H).
  - destruct d as [s2 d2]. apply skip_old_starts in Hd as (Hs2 & k & ->). apply bind_ok_inv in H as (d & Hd & H).
    unfold put in Hd. destruct (_ <? _); [|done]. injection Hd as <-.
    apply (IH _ _ true) in H as (n & -> & Ht & Hst). exists (replicate k QUEST ++ STAR :: n).
    split; [by rewrite <- !app_assoc|]. split; [|by intros []]. clear -Ht Hst Hs2.
    induction k as [|k IHk]; cbn [replicate app tame]; [|exact IHk]. rewrite Ht, andb_true_r.
    specialize (Hst Hs2). destruct n as [|d n]; [done|]. destruct Hst as [-> Hq]. cbn. by apply negb_true_iff, Z.eqb_neq.
  - unfold put in Hd. destruct (_ <? _); [|done]. injection Hd as <-. apply (IH _ _ b) in H as (n & -> & Ht & _).
    exists ((if c =? PCT then QUEST else c) :: n). split; [by rewrite <- app_assoc|].
    destruct (Z.eqb_spec c PCT) as [->|Hp]; cbn [tame starts].
    + split; [done|by intros [? _]].
    + destruct (Z.eqb_spec c STAR); [done|]. by destruct (Z.eqb_spec c PCT).
Qed.

(** ** [glob_init] *)

(** A pattern character and one of the name, with the case folded or not. *)
Definition same (fl c x : Z) : bool := if flag fl GLOB_ICASE then TOLOWER c =? TOLOWER x else c =? x.

Lemma TOLOWER_eq d c : d < 65 → TOLOWER c = d ↔ c = d.
Proof. intros Hd. unfold TOLOWER. destruct (Z.leb_spec 65 c), (Z.leb_spec c 90); cbn [andb]; lia. Qed.

Lemma gmatch_lower nw sep eq eq' n t :
  (∀ c x, eq (TOLOWER c) x = eq' c x) → gmatch nw sep eq (map TOLOWER n) t ↔ gmatch nw sep eq' n t.
Proof.
  intros Heq. split.
  - remember (map TOLOWER n) as m eqn:Hm. intros H. revert n Hm.
    induction H as [|m u t H IH|m u t Hn Hu H IH|d m x t Hn Hd H IH|d m x t H1 H2 H3 He H IH]; intros n Hm;
      (destruct n as [|c n]; try done); try (injection Hm as Hc ->).
    + constructor.
    + symmetry in Hc. apply TOLOWER_eq in Hc as ->; [|done]. constructor. auto.
    + symmetry in Hc. apply TOLOWER_eq in Hc as ->; [|done]. constructor; auto.
    + subst d. apply gm_any; [done| |auto]. rewrite !TOLOWER_eq in Hd by done. done.
    + subst d. rewrite !TOLOWER_eq in H1, H2, H3 by done. apply gm_char; auto. by rewrite <- Heq.
  - induction 1 as [|n u t H IH|n u t Hn Hu H IH|c n x t Hn Hd H IH|c n x t H1 H2 H3 He H IH]; cbn [map].
    + constructor.
    + by constructor.
    + by constructor.
    + apply gm_any; [done| |done]. by rewrite !TOLOWER_eq.
    + apply gm_char; rewrite ?TOLOWER_eq by done; try done. by rewrite Heq.
Qed.

Lemma lower_cstring n : is_cstring n → is_cstring (map TOLOWER n).
Proof. induction 1; cbn; constructor; [by apply TOLOWER_range|done]. Qed.

Lemma lower_eqb d c : d < 65 → (TOLOWER c =? d) = (c =? d).
Proof. intros Hd. apply eq_true_iff_eq. rewrite !Z.eqb_eq. by apply TOLOWER_eq. Qed.

Lemma tame_lower b n : tame false b (map TOLOWER n) = tame false b n.
Proof.
  revert b. induction n as [|c n IH]; intros b; [done|]. cbn [map tame]. rewrite !lower_eqb, !IH by done.
  destruct (c =? STAR), (c =? PCT); try done; destruct n as [|d n]; try done; cbn [map]; unfold wildcard; by rewrite !lower_eqb.
Qed.

Definition new_style (fl : Z) : bool := flag fl GLOB_HIERARCHY.

Lemma init_str_ok room fl p q : flag fl GLOB_SUBSTRING = false → is_cstring p → blen p < room →
  ∃ n, init_str room (p ++ 0 :: q) fl = Ok (n ++ [0]) ∧ is_cstring n ∧ blen n ≤ blen p ∧
    (new_style fl = false → tame false false n = true) ∧
    ∀ t, gmatch (new_style fl) 46 (λ c x, c =? (if flag fl GLOB_ICASE then TOLOWER x else x)) n t ↔
         gmatch (new_style fl) 46 (same fl) p t.
Proof.
  intros Hsub Hp Hr. unfold init_str. rewrite Hsub. cbn [mbind result_bind].
  assert (length p < S (length (p ++ 0%Z :: q)))%nat as Hf by (rewrite length_app; lia).
  set (copy := if flag fl GLOB_HIERARCHY then _ else _).
  assert (∀ n, new_style fl = false → copy = Ok ([] ++ n) → tame false false n = true) as Hold.
  { unfold new_style, copy. intros n ->. intros H. by apply (copy_old_tame _ _ _ _ _ false) in H as (n' & [= ->] & ? & _). }
  assert (copied (same fl) (new_style fl) p [] copy) as (n & Hcopy & Hn & Hl & He).
  { unfold copy. unfold new_style. destruct (flag fl GLOB_HIERARCHY); [apply copy_new_ok|apply copy_old_ok]; rewrite ?blen_nil; try done; lia. }
  specialize (Hold n). rewrite Hcopy in *. cbn [mbind result_bind app]. rewrite put_ok by lia. cbn [mbind result_bind]. unfold same in *.
  destruct (flag fl GLOB_ICASE).
  - rewrite lcase_ok by done. exists (map TOLOWER n). split_and!; [done|by apply lower_cstring| | |].
    + unfold blen in *. by rewrite length_map.
    + intros Hs. rewrite tame_lower. by apply Hold.
    + intros t. rewrite <- (He t). by apply gmatch_lower.
  - exists n. split_and!; [done|done|done|by intros Hs; apply Hold|]. intros t. apply (He t).
Qed.

(** *** The prefix INBOX *)

Definition inbox_ok (ib : bytes) : Prop := blen ib = 6 ∧ byte_at ib 5 = Some 0 ∧ all_bytes ib.

Section Inbox.
Context (n : bytes) (Hn : is_cstring n).
#[local] Abbreviation s := (n ++ [0]).

Lemma rd_name i : 0 ≤ i ≤ blen n → ∃ x, rd8 s i = Ok x ∧ 0 ≤ x < 256 ∧ (x ≠ 0 → i < blen n).
Proof using Hn.
  intros Hi. destruct (Z.eq_dec i (blen n)) as [->|].
  - exists 0. rewrite rd8_end. split_and!; try done; lia.
  - destruct (rd8_app_l n [0] i) as (x & Hx & Hr); [lia|]. exists x. pose proof (cstring_at _ _ _ Hn Hx).
    split_and!; try done; lia.
Qed.

Lemma rd_inbox ib d : inbox_ok ib → 0 ≤ d ≤ 5 → ∃ y, rd8 ib d = Ok y ∧ 0 ≤ y < 256 ∧ (y ≠ 0 → d < 5).
Proof using.
  intros (Hl & H5 & Hb) Hd. destruct (byte_at_is_Some ib d) as [y Hy]; [lia|]. exists y. split; [by apply rd8_ok|].
  split; [|intros ?; destruct (Z.eq_dec d 5) as [->|]; [congruence|lia]].
  unfold byte_at in Hy. destruct (d <? 0); [done|]. apply list_elem_of_lookup_2 in Hy.
  by apply (proj1 (list.Forall_forall _ _) Hb).
Qed.

Lemma inbox_copy_ok f p d ib : inbox_ok ib → 0 ≤ d ≤ 5 → 0 ≤ p ≤ blen n → 6 - d ≤ Z.of_nat f →
  ∃ p' d' ib', inbox_copy f s p d ib = Ok (p', d', ib') ∧ inbox_ok ib' ∧ 0 ≤ d' ≤ 5 ∧ p ≤ p' ≤ blen n.
Proof using Hn.
  revert p d ib. induction f as [|f IH]; intros p d ib Hib Hd Hp Hf; [lia|]. cbn [inbox_copy].
  destruct (rd_inbox ib d Hib Hd) as (y & -> & Hy & Hyd). cbn [mbind result_bind].
  destruct (Z.eqb_spec y 0) as [->|Hy0]; [exists p, d, ib; split_and!; done || lia|].
  destruct (rd_name p Hp) as (x & -> & Hx & Hxp). cbn [mbind result_bind].
  destruct (Z.eqb_spec (TOLOWER x) (TOLOWER y)) as [He|]; [|exists p, d, ib; split_and!; done || lia].
  assert (x ≠ 0) as Hx0. { intros ->. pose proof (TOLOWER_range y ltac:(lia)). change (TOLOWER 0) with 0 in He. lia. }
  destruct Hib as (Hl & H5 & Hb).
  destruct (IH (p + 1) (d + 1) (wr ib d [x])) as (p' & d' & ib' & -> & H1 & H2 & H3); [|lia|lia|lia|exists p', d', ib'; split_and!; done || lia].
  split_and!.
  - rewrite blen_wr by lia. rewrite blen_cons, blen_nil. lia.
  - rewrite byte_at_wr by lia. rewrite blen_cons, blen_nil. destruct (Z.leb_spec d 5), (Z.ltb_spec 5 (d + (1 + 0))); cbn [andb]; [lia|done..].
  - unfold wr, all_bytes. rewrite pad_to_id by lia. apply Forall_app. split; [by apply Forall_take|].
    constructor; [done|by apply Forall_drop].
Qed.

Lemma inbox_skip_ok f x d ib : inbox_ok ib → 0 ≤ d ≤ 5 → 6 - d ≤ Z.of_nat f →
  ∃ d', inbox_skip f x ib d = Ok d' ∧ 0 ≤ d' ≤ 5.
Proof using.
  revert d. induction f as [|f IH]; intros d Hib Hd Hf; [lia|]. cbn [inbox_skip].
  destruct (rd_inbox ib d Hib Hd) as (y & -> & Hy & Hyd). cbn [mbind result_bind].
  destruct (Z.eqb_spec y 0) as [->|Hy0]; [eauto|]. destruct (negb _); [apply IH; [done|lia..]|eauto].
Qed.

(** Where the match of the prefix leaves the pattern. *)
Definition places (p : Z) (gstar ghier : option Z) : Prop :=
  0 ≤ p ≤ blen n ∧ (∀ k, gstar = Some k → 0 ≤ k ≤ p) ∧ (∀ h, ghier = Some h → 0 ≤ h ≤ p) ∧
  (∀ k h, gstar = Some k → ghier = Some h → k ≤ h).

Lemma inbox_loop_ok f p d ib gs gh : inbox_ok ib → 0 ≤ d ≤ 5 → places p gs gh → blen n - p < Z.of_nat f →
  ∃ p' d' ib' gs' gh', inbox_loop f s p d ib gs gh = Ok (p', d', ib', gs', gh') ∧
    inbox_ok ib' ∧ 0 ≤ d' ≤ 5 ∧ places p' gs' gh'.
Proof using Hn.
  revert p d ib gs gh. induction f as [|f IH]; intros p d ib gs gh Hib Hd (Hp & Hs & Hh & Hb) Hf; [lia|]. cbn [inbox_loop].
  destruct (inbox_copy_ok 6 p d ib) as (p1 & d1 & ib1 & -> & Hib1 & Hd1 & Hp1); [done|done|done|lia|].
  cbn [mbind result_bind]. destruct (rd_name p1) as (x & -> & Hx & Hxp); [lia|]. cbn [mbind result_bind].
  assert (places p1 gs gh) as Hpl.
  { split; [lia|]. split; [intros k Hk; specialize (Hs k Hk); lia|]. split; [|done]. intros k Hk. specialize (Hh k Hk). lia. }
  destruct ((x =? STAR) || (x =? PCT)) eqn:Hw.
  2: { eexists _, _, _, _, _. split; [done|]. done. }
  assert (p1 < blen n) as Hlt.
  { apply Hxp. intros ->. done. }
  destruct (rd_name (p1 + 1)) as (x2 & -> & _ & _); [lia|]. cbn [mbind result_bind].
  assert (∃ d2, (if negb (x2 =? PCT) then inbox_skip 6 x2 ib1 d1 else Ok d1) = Ok d2 ∧ 0 ≤ d2 ≤ 5) as (d2 & -> & Hd2).
  { destruct (negb _); [apply inbox_skip_ok; [done|done|lia]|eauto]. }
  cbn [mbind result_bind]. destruct (rd_inbox ib1 d2 Hib1 Hd2) as (y & -> & _ & _). cbn [mbind result_bind].
  assert (places (p1 + 1) (if x =? STAR then Some (p1 + 1) else gs) (if x =? STAR then None else Some (p1 + 1))) as Hpl'.
  { destruct Hpl as (_ & Hs' & _). split; [lia|]. destruct (x =? STAR).
    - split; [intros k [= <-]; lia|]. by split.
    - split; [intros k Hk; specialize (Hs' k Hk); lia|]. split; [intros k [= <-]; lia|]. intros k h Hk [= <-]. specialize (Hs' k Hk). lia. }
  destruct (negb (x2 =? 0) && negb (y =? 0)).
  - apply IH; [done|done|done|lia].
  - eexists _, _, _, _, _. split; [done|]. done.
Qed.
End Inbox.

(** What [glob_init] makes of a pattern. *)
Record compiled (fl : Z) (p : bytes) (g : glob) (n : bytes) : Prop := {
  c_str : str g = n ++ [0];
  c_cstring : is_cstring n;
  c_short : blen n ≤ blen p;
  c_flags : flags g = fl ∨ flags g = Z.ldiff fl GLOB_INBOXCASE;
  c_sep : sep_char g = 46;
  c_suppress : suppress g = None;
  c_places : flag fl GLOB_INBOXCASE = true → places n (g_gptr g) (g_gstar g) (g_ghier g);
  c_old : new_style fl = false → tame false false n = true;
  c_lang : ∀ t, gmatch (new_style fl) 46 (λ c x, c =? (if flag fl GLOB_ICASE then TOLOWER x else x)) n t ↔
                gmatch (new_style fl) 46 (same fl) p t;
}.

Lemma glob_init_ok fl p q : flag fl GLOB_SUBSTRING = false → is_cstring p →
  ∃ g n, glob_init (p ++ 0 :: q) fl = Ok g ∧ compiled fl p g n.
Proof.
  intros Hsub Hp. unfold glob_init, glob_init_suppress. cbn [mbind result_bind].
  rewrite (strlen_at_ok _ q 0 p) by (try done; apply bytes_at_self).
  cbn [mbind result_bind]. destruct (init_str_ok (3 + 0 + blen p + 1) fl p q Hsub Hp) as (n & -> & Hn & Hl & Ho & He); [lia|].
  cbn [mbind result_bind]. destruct (flag fl GLOB_INBOXCASE) eqn:Hib.
  - destruct (inbox_loop_ok n Hn (S (length (n ++ [0]))) 0 0 (INBOX ++ [0]) None None)
      as (p' & d' & ib' & gs' & gh' & -> & Hib' & Hd' & Hpl); [..|cbn [mbind result_bind]].
    + split_and!; [done|done|]. repeat constructor; done.
    + lia.
    + split; [pose proof (blen_nonneg n); lia|]. done.
    + unfold blen. rewrite length_app. cbn. lia.
    + destruct (rd_inbox ib' d' Hib' Hd') as (y & -> & _ & _). cbn [mbind result_bind].
      eexists _, n. split; [done|]. split; cbn; try done. destruct (negb _); auto.
  - cbn [mbind result_bind]. eexists _, n. split; [done|]. split; cbn; try done; [by left|congruence].
Qed.

(** ** Tame patterns in terms of positions *)

Lemma byte_at_split m i c : byte_at m i = Some c →
  m = take (Z.to_nat i) m ++ c :: drop (Z.to_nat (i + 1)) m ∧ blen (take (Z.to_nat i) m) = i.
Proof.
  intros H. pose proof (byte_at_lt _ _ _ H). rewrite <- (byte_at_drop_cons _ _ _ H), take_drop. split; [done|].
  unfold blen in *. rewrite length_take. lia.
Qed.

Lemma tame_app nw star a c b : tame nw star (a ++ c :: b) = true →
  ∃ star', tame nw star' (c :: b) = true ∧ (star' = false → star = false ∧ STAR ∉ a) ∧ (star' = true → star = true ∨ STAR ∈ a).
Proof.
  revert star. induction a as [|x a IH]; intros star; cbn [app].
  { intros H. exists star. split; [done|]. split; [|by left]. intros ->. split; [done|by intros ?%elem_of_nil]. }
  cbn [tame]. destruct (Z.eqb_spec x STAR) as [->|Hne].
  - intros [_ H]%andb_true_iff. apply IH in H as (s' & H & Hf & _). exists s'. split; [done|]. split; [by intros [? _]%Hf|].
    intros _. right. by left.
  - assert (tame nw star (a ++ c :: b) = true → ∃ star' : bool, tame nw star' (c :: b) = true ∧
      (star' = false → star = false ∧ STAR ∉ x :: a) ∧ (star' = true → star = true ∨ STAR ∈ x :: a)) as Hx.
    { intros H. apply IH in H as (s' & H & Hf & Ht). exists s'. split; [done|]. split.
      - intros [-> Ha]%Hf. split; [done|]. intros [?|?]%elem_of_cons; congruence.
      - intros [->|Ha]%Ht; [by left|right; by right]. }
    destruct (x =? PCT); [|done]. rewrite andb_true_iff. intros [_ H]. auto.
Qed.

Lemma no_sep_at a c b : no_sep (a ++ c :: b) = true → Forall (λ x, wildcard x = false) (a ++ [c]) → c ≠ 46.
Proof.
  induction a as [|x a IH]; cbn [app no_sep]; intros Hs Hw; apply Forall_cons_1 in Hw as [Hx Hw]; rewrite Hx in Hs; cbn [orb] in Hs;
    apply andb_true_iff in Hs as [Hc Hs].
  - apply negb_true_iff in Hc. by apply Z.eqb_neq.
  - by apply IH.
Qed.

Lemma drop_byte_at m j d r : 0 ≤ j → drop (Z.to_nat j) m = d :: r → byte_at m j = Some d.
Proof.
  intros Hj Hd. unfold byte_at. destruct (Z.ltb_spec j 0); [lia|].
  by rewrite <- (Nat.add_0_r (Z.to_nat j)), <- lookup_drop, Hd.
Qed.

Section Conditions.
Context (g : glob) (n : bytes).

Lemma pat_at_some i c : byte_at n i = Some c → pat_at n i = c.
Proof using. unfold pat_at. by intros ->. Qed.

Lemma plain_at i d : byte_at n i = Some d → wildcard d = false → (newglob g || negb (d =? QUEST)) = true → plain g n i.
Proof using.
  intros Hb Hw Hq. unfold plain, lit. rewrite (pat_at_some _ _ Hb). split_and!; [done..|]. intros Hn.
  rewrite Hn in Hq. cbn [orb] in Hq. by apply negb_true_iff, Z.eqb_neq in Hq.
Qed.

Lemma no_sep_segment h : sep_char g = 46 → 0 ≤ h → no_sep (drop (Z.to_nat h) n) = true → segment g n h.
Proof using.
  intros Hsep Hh Hs i Hi Hl. rewrite Hsep. destruct (Hl i ltac:(lia)) as [Hb _].
  destruct (byte_at_split _ _ _ Hb) as [Hn _].
  assert (drop (Z.to_nat h) n = drop (Z.to_nat h) (take (Z.to_nat i) n) ++ pat_at n i :: drop (Z.to_nat (i + 1)) n) as E.
  { rewrite Hn at 1. rewrite drop_app_le; [done|]. apply byte_at_lt in Hb. unfold blen in Hb. rewrite length_take. lia. }
  rewrite E in Hs. eapply no_sep_at; [exact Hs|]. apply list.Forall_forall. intros x Hx.
  apply list_elem_of_lookup in Hx as [k Hk]. apply lookup_snoc_Some in Hk as [[Hlt Hk]|[Hlk <-]]; [|by apply Hl; lia].
  rewrite lookup_drop in Hk. pose proof (lookup_lt_Some _ _ _ Hk) as Hlt'. rewrite length_take in Hlt'.
  rewrite lookup_take_lt in Hk by lia. destruct (Hl (h + Z.of_nat k)) as [Hbk Hwk]; [lia|].
  unfold byte_at in Hbk. destruct (Z.ltb_spec (h + Z.of_nat k) 0); [lia|].
  replace (Z.to_nat (h + Z.of_nat k)) with (Z.to_nat h + k)%nat in Hbk by lia. rewrite Hk in Hbk. by injection Hbk as ->.
Qed.

Context (Hsep : sep_char g = 46) (Htame : tame (newglob g) false n = true).

(** The rest of the pattern behind a character. *)
Lemma tame_at i c : byte_at n i = Some c →
  ∃ s, tame (newglob g) s (c :: drop (Z.to_nat (i + 1)) n) = true ∧
    (s = false → ∀ k, k < i → byte_at n k ≠ Some STAR).
Proof using Htame.
  intros Hb. destruct (byte_at_split _ _ _ Hb) as [Hn Hl]. rewrite Hn in Htame.
  destruct (tame_app _ _ _ _ _ Htame) as (s & Hs & Hf & _). exists s. split; [done|]. intros [_ Ha]%Hf k Hk Hbk. apply Ha.
  rewrite Hn, byte_at_app, Hl in Hbk. destruct (Z.ltb_spec k i); [|lia]. unfold byte_at in Hbk.
  destruct (k <? 0); [done|]. by eapply list_elem_of_lookup_2.
Qed.

Lemma tame_star i : byte_at n i = Some STAR → i + 1 = blen n ∨ plain g n (i + 1).
Proof using Htame.
  intros Hb. pose proof (byte_at_lt _ _ _ Hb). destruct (tame_at i STAR Hb) as (s & Hs & _).
  cbn [tame] in Hs. change (STAR =? STAR) with true in Hs. cbv iota in Hs. apply andb_true_iff in Hs as [Hs _].
  destruct (drop (Z.to_nat (i + 1)) n) as [|d r] eqn:Hd.
  - left. apply (f_equal length) in Hd. rewrite length_drop in Hd. unfold blen in *. cbn in Hd. lia.
  - right. apply drop_byte_at in Hd; [|lia]. apply andb_true_iff in Hs as [?%negb_true_iff ?]. by eapply plain_at.
Qed.

Lemma tame_pct i : byte_at n i = Some PCT → newglob g = true ∧
  (i + 1 = blen n ∨
   plain g n (i + 1) ∧ (pat_at n (i + 1) = sep_char g ∧ (∀ k, k < i → byte_at n k ≠ Some STAR) ∨ segment g n (i + 1))).
Proof using Htame Hsep.
  intros Hb. pose proof (byte_at_lt _ _ _ Hb). destruct (tame_at i PCT Hb) as (s & Hs & Hf).
  cbn [tame] in Hs. change (PCT =? STAR) with false in Hs. change (PCT =? PCT) with true in Hs. cbv iota in Hs.
  apply andb_true_iff in Hs as [[Hn Hs]%andb_true_iff _]. split; [done|].
  destruct (drop (Z.to_nat (i + 1)) n) as [|d r] eqn:Hd.
  - left. apply (f_equal length) in Hd. rewrite length_drop in Hd. unfold blen in *. cbn in Hd. lia.
  - right. pose proof Hd as Hbd. apply drop_byte_at in Hbd; [|lia]. apply andb_true_iff in Hs as [Hw%negb_true_iff Hc].
    split; [eapply plain_at; [done|done|by rewrite Hn]|]. apply orb_true_iff in Hc as [Hc|Hc].
    + apply andb_true_iff in Hc as [Hc%Z.eqb_eq Hst%negb_true_iff]. left. rewrite (pat_at_some _ _ Hbd), Hsep. auto.
    + right. apply no_sep_segment; [done|lia|by rewrite Hd].
Qed.
End Conditions.

(** ** The theorems *)

Lemma flag_ldiff fl f : Z.land (Z.lnot GLOB_INBOXCASE) f = f → flag (Z.ldiff fl GLOB_INBOXCASE) f = flag fl f.
Proof. intros H. unfold flag. by rewrite Z.ldiff_land, <- Z.land_assoc, H. Qed.

Lemma compiled_flag fl p g n f : compiled fl p g n → Z.land (Z.lnot GLOB_INBOXCASE) f = f → flag (flags g) f = flag fl f.
Proof. intros [_ _ _ [-> | ->] _ _ _ _ _] Hf; [done|by apply flag_ldiff]. Qed.

Lemma flag_inbox fl p g n : compiled fl p g n → flag (flags g) GLOB_INBOXCASE = true → flag fl GLOB_INBOXCASE = true.
Proof.
  intros [_ _ _ [-> | ->] _ _ _ _ _]; [done|]. unfold flag. rewrite Z.ldiff_land, <- Z.land_assoc.
  change (Z.land (Z.lnot GLOB_INBOXCASE) GLOB_INBOXCASE) with 0. by rewrite Z.land_0_r.
Qed.

(** [strncmp] with a whole string tests for a prefix. *)
Lemma strncmp_prefix t u pre r r' : is_cstring t → is_cstring u →
  strncmp_eq (pre ++ t ++ 0 :: r) (blen pre) (u ++ r') 0 (length u) = Ok (bool_decide (u `prefix_of` t)).
Proof.
  intros Ht Hu. assert (∀ v, strncmp_eq (pre ++ t ++ 0 :: r) (blen pre) (v ++ u ++ r') (blen v) (length u) =
    Ok (bool_decide (u `prefix_of` t))) as H; [|by apply (H [])].
  revert pre t Ht. induction Hu as [|x u Hx _ IH]; intros pre t Ht v; cbn [length strncmp_eq].
  { by rewrite bool_decide_true by apply prefix_nil. }
  cbn [app]. destruct Ht as [|y t Hy Ht]; cbn [app]; rewrite !rd8_end; cbn [mbind result_bind].
  - destruct (Z.eqb_spec 0 x); [lia|]. rewrite bool_decide_false; [done|]. by intros H%prefix_nil_not.
  - destruct (Z.eqb_spec y x) as [->|Hne].
    + destruct (Z.eqb_spec x 0); [lia|]. specialize (IH (pre ++ [x]) t Ht (v ++ [x])).
      rewrite !blen_app, !blen_cons, !blen_nil, <- !app_assoc in IH. cbn [app] in IH. rewrite Z.add_0_r in IH.
      rewrite IH. f_equal. apply bool_decide_ext. split; [apply prefix_cons|by intros H%prefix_cons_inv_2].
    + rewrite bool_decide_false; [done|]. by intros H%prefix_cons_inv_1.
Qed.

Lemma len_arg t r len : is_cstring t → len = 0 ∨ len = blen t →
  (if len =? 0 then strlen_at (t ++ 0 :: r) 0 else Ok len) = Ok (blen t).
Proof.
  intros Ht Hl. destruct (Z.eqb_spec len 0) as [->|]; [|destruct Hl as [| ->]; done].
  apply (strlen_at_ok _ r); [done|done|apply bytes_at_self].
Qed.

(** C29: [glob_init] compiles every pattern without writing or reading outside
    what it allocates, and [glob_test] of the result returns for every
    NUL-terminated name, whatever [*min] is: -1, or a length that is not past the
    name's. *)
Theorem glob_test_returns (fl : Z) (p q t r : bytes) (len : Z) (min : option Z)
    (Hsub : flag fl GLOB_SUBSTRING = false) (Hp : is_cstring p) (Ht : is_cstring t) (Hmax : blen t < 2147483648)
    (Hlen : len = 0 ∨ len = blen t) :
  ∃ g a min', glob_init (p ++ 0 :: q) fl = Ok g ∧ glob_test g (t ++ 0 :: r) len min = Ok (a, min') ∧
    -1 ≤ a ≤ blen t.
Proof.
  destruct (glob_init_ok fl p q Hsub Hp) as (g & n & Hg & Hc). exists g.
  pose proof Hc as [Hstr Hn _ _ _ Hsup Hpl _ _]. unfold glob_test. pose proof (blen_nonneg t).
  destruct (match min with Some m => m <? 0 | None => false end); [exists (-1), min; split_and!; done || lia|].
  rewrite (len_arg t r len Ht Hlen). cbn [mbind result_bind].
  assert (∃ b : bool, (if flag (flags g) GLOB_INBOXCASE then strncmp_eq (t ++ 0 :: r) 0 (INBOX ++ [0]) 0 5 else Ok false) = Ok b ∧
    (b = true → flag fl GLOB_INBOXCASE = true ∧ 5 ≤ blen t)) as (b & -> & Hb).
  { destruct (flag (flags g) GLOB_INBOXCASE) eqn:Hf; [|by exists false].
    exists (bool_decide (INBOX `prefix_of` t)). split.
    - apply (strncmp_prefix t INBOX [] r [0]); [done|]. repeat constructor; done.
    - intros [u ->]%bool_decide_eq_true. split; [by eapply flag_inbox|]. rewrite blen_app. change (blen INBOX) with 5.
      pose proof (blen_nonneg u). lia. }
  cbn [mbind result_bind]. rewrite Hsup. cbn [mbind result_bind andb].
  set (s0 := if b then _ else _). assert (valid n t s0) as Hv.
  { unfold s0. destruct b; [|split; cbn; try done; pose proof (blen_nonneg n); lia].
    destruct Hb as [Hib Hle]; [done|]. destruct (Hpl Hib) as (H1 & H2 & H3 & H4). unfold INBOXLEN.
    split; cbn; try lia; [intros k Hk; specialize (H2 k Hk); lia|intros k Hk; specialize (H3 k Hk); lia|].
    intros k h Hk Hh. specialize (H4 k h Hk Hh). lia. }
  destruct (glob_loop_ok g n [] t (0 :: r) Hstr Hn Ht (glob_fuel g (blen t)) min s0 Hv) as ([a m] & -> & Ha);
    [by apply (glob_fuel_enough g n [])|].
  exists a, m. split_and!; [done|done|..]; destruct Ha as [Ha|(k & Ha & Hk)]; cbn in Ha; subst a; rewrite ?to_s32_small;
    unfold is_s32; lia.
Qed.

Lemma glob_decides (fl : Z) (p q t r : bytes)
    (Hsub : flag fl GLOB_SUBSTRING = false) (Hp : is_cstring p) (Ht : is_cstring t) (Hmax : blen t < 2147483648)
    (Hinbox : flag fl GLOB_INBOXCASE = false ∨ ¬ INBOX `prefix_of` t) :
  ∃ g, glob_init (p ++ 0 :: q) fl = Ok g ∧
    (flag fl GLOB_HIERARCHY = false ∨ tame true false (removelast (str g)) = true →
     ∃ b : bool, GLOB_TEST g (t ++ 0 :: r) = Ok (if b then blen t else -1) ∧
       (b = true ↔ gmatch (flag fl GLOB_HIERARCHY) 46 (same fl) p t)).
Proof.
  destruct (glob_init_ok fl p q Hsub Hp) as (g & n & Hg & Hc). exists g. split; [done|]. intros Htame.
  pose proof Hc as [Hstr Hn _ Hfl Hsep Hsup _ Hold Hlang]. pose proof (blen_nonneg t). pose proof (blen_nonneg n).
  assert (newglob g = flag fl GLOB_HIERARCHY) as Hnw by (by eapply compiled_flag).
  assert (tame (newglob g) false n = true) as Htn.
  { rewrite Hnw. unfold new_style in Hold. destruct (flag fl GLOB_HIERARCHY); [|by apply Hold].
    destruct Htame as [|Ht']; [done|]. by rewrite Hstr, removelast_last in Ht'. }
  unfold GLOB_TEST, glob_test. rewrite (len_arg t r 0 Ht) by auto. cbn [mbind result_bind].
  assert ((if flag (flags g) GLOB_INBOXCASE then strncmp_eq (t ++ 0 :: r) 0 (INBOX ++ [0]) 0 5 else Ok false) = Ok false) as ->.
  { destruct (flag (flags g) GLOB_INBOXCASE) eqn:Hf; [|done]. eapply flag_inbox in Hf; [|done].
    destruct Hinbox as [|Hno]; [congruence|].
    pose proof (strncmp_prefix t INBOX [] r [0] Ht) as Hpre. rewrite bool_decide_false in Hpre by done.
    apply Hpre. repeat constructor; done. }
  cbn [mbind result_bind]. rewrite Hsup. cbn [mbind result_bind andb]. set (s0 := Gs 0 0 None 0 None 0).
  assert (inv g n t s0) as Hi.
  { split; [split; cbn; done || lia|done|done|]. intros _. split; [done|]. by intros []. }
  destruct (glob_loop_ok g n [] t (0 :: r) Hstr Hn Ht (glob_fuel g (blen t)) None s0 (i_valid _ _ _ _ Hi)) as (a & Ha & _).
  { apply (glob_fuel_enough g n []); [done|]. apply (i_valid _ _ _ _ Hi). }
  destruct (glob_loop_spec g n [] t (0 :: r) Hstr Hn Ht Hsep (tame_star g n Htn) (tame_pct g n Hsep Htn) _ _ _ Hi Ha)
    as (b & -> & Hb).
  rewrite Ha. cbn [mbind result_bind]. exists b. split.
  - destruct b; [|done]. by rewrite to_s32_small by (unfold is_s32; lia).
  - rewrite Hb, <- Hlang. unfold F, new_style. rewrite Hnw, Hsep. cbn [Z.to_nat drop].
    unfold char_eq. by rewrite (compiled_flag fl p g n GLOB_ICASE Hc).
Qed.

(** C28: what [GLOB_TEST] decides: the name matches exactly when it is in the
    language of the pattern as it was given to [glob_init]; for every old-style
    pattern, and for the new-style ones that are [tame] once they are normalised.
    Case is folded with [GLOB_ICASE]; under [GLOB_INBOXCASE] the name is one that
    does not begin with INBOX. *)
Theorem glob_test_decides (fl : Z) (p q t r : bytes)
    (Hsub : flag fl GLOB_SUBSTRING = false) (Hp : is_cstring p) (Ht : is_cstring t) (Hmax : blen t < 2147483648)
    (Hinbox : flag fl GLOB_INBOXCASE = false ∨ ¬ INBOX `prefix_of` t) :
  ∃ g, glob_init (p ++ 0 :: q) fl = Ok g ∧
    (flag fl GLOB_HIERARCHY = false ∨ tame true false (removelast (str g)) = true →
     ∃ b : bool, GLOB_TEST g (t ++ 0 :: r) = Ok (if b then blen t else -1) ∧
       (b = true ↔ gmatch (flag fl GLOB_HIERARCHY) 46 (same fl) p t)).
Proof. by apply glob_decides. Qed.

(** *** At work *)

From Stdlib Require Import Strings.String Strings.Ascii.

(** The characters of a string. *)
Definition chars (s : string) : bytes := map (λ a, Z.of_nat (nat_of_ascii a)) (list_ascii_of_string s).
Arguments chars _%_string_scope.

(** The table of [lib/test/testglob2.c]: for each pattern, how many of the names it
    matches at all and how many it matches exactly, with [min] 0. *)
Definition testglob2_names : list string :=
  ["test"; "test.rjs3"; "test.rjs3.foo"; "test.rjs3.foo.foo"; "test.rjs3.bar";
   "user.rjs3"; "user.rjs3.foo"; "user.rjs3.foo.foo"; "user.rjs3.bar"]%string.
Definition testglob2_row (pattern : string) : result (Z * Z) :=
  g ← glob_init_suppress (chars pattern ++ [0]) (Z.lor GLOB_INBOXCASE GLOB_HIERARCHY) (Some (chars "user.rjs3" ++ [0]));
  foldr (λ name acc,
    '(n, e) ← acc; '(r, _) ← glob_test g (chars name ++ [0]) (blen (chars name)) (Some 0);
    Ok (n + b2z (negb (r =? -1)), e + b2z (r =? blen (chars name)))) (Ok (0, 0)) testglob2_names.

Example testglob2 :
  Forall (λ '(pattern, successes, exacts), testglob2_row pattern = Ok (successes, exacts))
    [("*", 9, 9); ("%", 9, 2); ("*%", 9, 2); ("%*", 9, 9); ("test", 5, 1); ("test.rjs3", 4, 1); ("test.*%", 4, 1);
     ("test.rjs3*", 4, 4); ("test.rjs3.*", 3, 3); ("test.rjs3%", 4, 1); ("test.rjs3.%", 3, 2); ("test.%.foo", 2, 1);
     ("test.*.foo", 2, 2); ("test.*%.foo", 2, 2); ("test.%*.foo", 2, 2); ("test.rjs*.foo", 2, 2); ("test.rjs%.foo", 2, 1);
     ("test.*3.foo", 2, 1); ("test.%3.foo", 2, 1); ("INBOX", 4, 1); ("INBOX*", 4, 4); ("INBOX.foo", 2, 1);
     ("INBOX.%.foo", 1, 1)]%string.
Proof. repeat constructor. Qed.

Lemma glob_test_returns_witness :
  ∃ g a min', glob_init (chars "inbox.%.x*" ++ [0]) 12 = Ok g ∧
    glob_test g (chars "INBOX.a.xyz" ++ [0]) 0 (Some 0) = Ok (a, min') ∧ -1 ≤ a ≤ 11.
Proof.
  apply (glob_test_returns 12 (chars "inbox.%.x*") [] (chars "INBOX.a.xyz") [] 0 (Some 0));
    [reflexivity|repeat constructor; done|repeat constructor; done|reflexivity|by left].
Defined.

Lemma glob_test_decides_witness :
  ∃ g, glob_init (chars "user.%.s*t" ++ [0]) 4 = Ok g ∧
    (flag 4 GLOB_HIERARCHY = false ∨ tame true false (removelast (str g)) = true →
     ∃ b : bool, GLOB_TEST g (chars "user.joe.sent" ++ [0]) = Ok (if b then 13 else -1) ∧
       (b = true ↔ gmatch true 46 (same 4) (chars "user.%.s*t") (chars "user.joe.sent"))).
Proof.
  apply (glob_test_decides 4 (chars "user.%.s*t") [] (chars "user.joe.sent") []);
    [reflexivity|repeat constructor; done|repeat constructor; done|reflexivity|by left].
Defined.

(** Patterns as they come from clients are tame. *)
Example tame_patterns :
  Forall (λ p, match glob_init (chars p ++ [0]) 4 with Ok g => tame true false (removelast (str g)) = true | _ => False end)
    ["*"; "%"; "INBOX*"; "user.%"; "user.*"; "user.%.foo"; "*.foo"; "user.*.%x"; "a%%b*"; "news.%comp*"]%string.
Proof. repeat constructor. Qed.


Definition finds (p s : string) : result Z := g ← glob_init (chars p ++ [0]) GLOB_HIERARCHY; GLOB_TEST g (chars s ++ [0]).
Arguments finds _%_string_scope _%_string_scope.
Definition finds_partial (p s : string) : result (Z * option Z) :=
  g ← glob_init (chars p ++ [0]) GLOB_HIERARCHY; glob_test g (chars s ++ [0]) 0 (Some 0).
Arguments finds_partial _%_string_scope _%_string_scope.

(** What the restrictions exclude.  "%ab.c" matches "abx.c": when there is no
    other "a" before the separator, [gptr] is still at the ".", where the first
    try had failed.  "*x%.y" does not match "axb.y": at the separator the search
    behind ['%'] counts as failed even if the separator is what comes next, and
    with a ['*'] the matcher goes back to it.  "a*%" does not match "abc.d": the
    search behind ['*'] takes the ['%'] that is left at the end for a character.
    And "%ab" reports "abx" as a match in "abx.c". *)
Example wildcards_misjudged :
  (finds "%ab.c" "abx.c" = Ok 5 ∧ ¬ gmatch true 46 (same 4) (chars "%ab.c") (chars "abx.c")) ∧
  (finds "*x%.y" "axb.y" = Ok (-1) ∧ gmatch true 46 (same 4) (chars "*x%.y") (chars "axb.y")) ∧
  (finds "a*%" "abc.d" = Ok (-1) ∧ gmatch true 46 (same 4) (chars "a*%") (chars "abc.d")) ∧
  (finds_partial "%ab" "abx.c" = Ok (3, Some 4) ∧ ¬ gmatch true 46 (same 4) (chars "%ab") (chars "abx")).
Proof. rewrite <- !backtrack_ok. repeat split; vm_compute; congruence. Qed.

(** The pattern "%" as a substring becomes "**", which looks for the character
    ['*']. *)
Example substring_of_anything :
  (g ← glob_init (chars "%" ++ [0]) (Z.lor GLOB_SUBSTRING GLOB_HIERARCHY); Ok (str g)) = Ok (chars "**" ++ [0]) ∧
  (g ← glob_init (chars "%" ++ [0]) (Z.lor GLOB_SUBSTRING GLOB_HIERARCHY); GLOB_TEST g (chars "abc" ++ [0])) = Ok (-1).
Proof. by split. Qed.
