(* ===== verification/GlobMin.v ===== *)
(** * GlobMin: matching with a minimum

    [glob_test] as LIST calls it: with [*min], to find out how much of a name
    a pattern matches, and where to go on.  What it can return, that for a
    pattern without percent signs it reports the whole name exactly when that matches,
    and that the [inbox] of a pattern is always five characters. *)
From S2P Require Import Prelude CMem.
From stdpp Require Import list.
From S2P Require Import CString Glob GlobSpec GlobInit.
#[local] Open Scope Z_scope.

(** ** With a minimum *)

Section Minimum.
Context (g : glob) (text : bytes) (pend : Z).

Definition at_sep (m r : Z) : Prop := m < r ∧ r ≠ pend ∧ rd8 text r = Ok (sep_char g).

Lemma at_partial_true m p : at_partial g text pend (Some m) p = Ok true → at_sep m p.
Proof.
  unfold at_partial. destruct ((m <? p) && negb (p =? pend)) eqn:E; [|done].
  apply andb_true_iff in E as [?%Z.ltb_lt ?%negb_true_iff%Z.eqb_neq].
  destruct (rd8 text p) as [x|] eqn:Ex; [|done]. cbn. intros [= ?%Z.eqb_eq]. subst x. by split_and!.
Qed.

Lemma if_partial (e : bool) m p b : (if e then at_partial g text pend (Some m) p else Ok false) = Ok b → b = true → at_sep m p.
Proof. destruct e; [|by intros [= <-]]. intros H ->. by apply at_partial_true. Qed.

(** A match that goes on behind it ends at a separator. *)
Lemma glob_turn_partial m s r mn : glob_turn g text pend (Some m) s = Ok (Return r mn) →
  at_sep m r ∧ (mn = -1 ∨ mn = r + 1).
Proof.
  unfold glob_turn. intros H. apply bind_ok_inv in H as ([gp p] & _ & H). apply bind_ok_inv in H as (c & _ & H).
  destruct ((c =? 0) && (p =? pend)); [done|]. apply bind_ok_inv in H as (s1 & _ & H). apply bind_ok_inv in H as (s2 & _ & H).
  apply bind_ok_inv in H as (h & Hh & H). destruct h as [t|[s3 sf]].
  - injection H as ->. unfold hier_turn in Hh. destruct (ghier s2) as [h|]; [|done].
    apply bind_ok_inv in Hh as (c' & _ & Hh). apply bind_ok_inv in Hh as (past & _ & Hh). apply bind_ok_inv in Hh as (e & _ & Hh).
    destruct (e =? pend); [done|]. apply bind_ok_inv in Hh as (x & _ & Hh). destruct (x =? sep_char g); [|done].
    apply bind_ok_inv in Hh as (part & Hp & Hh). destruct part; [|done]. injection Hh as <- <-.
    split; [by eapply if_partial|]. destruct (gstar s2); auto.
  - apply bind_ok_inv in H as (k & Hk & H). destruct k as [t|s4].
    + injection H as ->. unfold star_turn in Hk. destruct (gstar s3) as [k|], (ghier s3); try done.
      apply bind_ok_inv in Hk as (c' & _ & Hk). destruct (c' =? 0); [done|]. apply bind_ok_inv in Hk as (q & _ & Hk).
      destruct (q =? pend); [|done]. apply bind_ok_inv in Hk as (e & _ & Hk). apply bind_ok_inv in Hk as (part & Hp & Hk).
      destruct part; [|done]. injection Hk as <- <-. split; [by eapply if_partial|auto].
    + apply bind_ok_inv in H as (e & _ & H). apply bind_ok_inv in H as (part & Hp & H). destruct part; [|done].
      injection H as <- <-. split; [by eapply if_partial|auto].
Qed.

(** Without ['%'] it either stops at a separator, to go on from there, or says what it says without a minimum. *)
Context (Hpct : PCT ∉ str g).

Lemma no_pct i : rd8 (str g) i ≠ Ok PCT.
Proof using Hpct.
  unfold rd8. destruct (byte_at (str g) i) as [c|] eqn:E; [|done]. intros [= ->]. apply Hpct. unfold byte_at in E.
  destruct (i <? 0); [done|]. by eapply list_elem_of_lookup_2.
Qed.

Lemma glob_turn_min m s t : ghier s = None → glob_turn g text pend (Some m) s = Ok t →
  (∃ r, t = Return r (r + 1)) ∨ (glob_turn g text pend None s = Ok t ∧ match t with Next s' _ => ghier s' = None | Return _ _ => False | _ => True end).
Proof using Hpct.
  unfold glob_turn. intros Hh H. apply bind_ok_inv in H as ([gp p] & -> & H). cbn [mbind result_bind].
  apply bind_ok_inv in H as (c & -> & H). cbn [mbind result_bind].
  destruct ((c =? 0) && (p =? pend)); [right; by injection H as <-|].
  apply bind_ok_inv in H as (s1 & E1 & H). rewrite E1. cbn [mbind result_bind].
  assert (ghier s1 = None) as Hh1.
  { unfold note_star in E1. cbn [gptr] in E1. apply bind_ok_inv in E1 as (c1 & _ & E1). injection E1 as <-. by destruct (c1 =? STAR). }
  apply bind_ok_inv in H as (s2 & E2 & H). rewrite E2. cbn [mbind result_bind].
  assert (ghier s2 = None) as Hh2.
  { unfold note_hier in E2. apply bind_ok_inv in E2 as (c2 & E & E2). injection E2 as <-.
    destruct (Z.eqb_spec c2 PCT) as [->|]; [by apply no_pct in E|done]. }
  unfold hier_turn in *. rewrite Hh2 in *. cbn [mbind result_bind] in *.
  apply bind_ok_inv in H as (k & Hk & H). unfold star_turn in *.
  destruct (gstar s2) as [n|]; [rewrite Hh2 in *|].
  - apply bind_ok_inv in Hk as (c2 & -> & Hk). cbn [mbind result_bind].
    destruct (c2 =? 0); [injection Hk as <-; right; split; [done|]; by injection H as <-|].
    apply bind_ok_inv in Hk as (q & -> & Hk). cbn [mbind result_bind]. destruct (q =? pend).
    + apply bind_ok_inv in Hk as (e & -> & Hk). cbn [mbind result_bind]. apply bind_ok_inv in Hk as (part & Hp & Hk).
      assert ((if e =? 0 then at_partial g text pend None (ptr s2) else Ok false) = Ok false) as -> by by destruct (e =? 0).
      cbn [mbind result_bind]. injection Hk as <-. injection H as <-. destruct part; [left; eauto|by right].
    + injection Hk as <-. cbn [mbind result_bind gptr ptr] in *. apply bind_ok_inv in H as (e & -> & H). cbn [mbind result_bind]. apply bind_ok_inv in H as (part & Hp & H).
      assert ((if e =? 0 then at_partial g text pend None (q + 1) else Ok false) = Ok false) as -> by by destruct (e =? 0).
      cbn [mbind result_bind ptr] in *. injection H as <-. destruct part; [left; eauto|by right].
  - injection Hk as <-. cbn [mbind result_bind] in *. apply bind_ok_inv in H as (e & -> & H). cbn [mbind result_bind]. apply bind_ok_inv in H as (part & Hp & H).
    assert ((if e =? 0 then at_partial g text pend None (ptr s2) else Ok false) = Ok false) as -> by by destruct (e =? 0).
    cbn [mbind result_bind] in *. injection H as <-. destruct part; [left; eauto|by right].
Qed.

Lemma glob_loop_min fuel m s a : ghier s = None → glob_loop g text pend fuel (Some m) s = Ok a →
  (∃ r, a = (to_s32 r, Some (r + 1))) ∨ (a.2 = Some (-1) ∧ glob_loop g text pend fuel None s = Ok (a.1, None)).
Proof using Hpct.
  assert (∀ gp p a, glob_end g pend (Some m) gp p = Ok a → a.2 = Some (-1) ∧ glob_end g pend None gp p = Ok (a.1, None)) as Hend.
  { intros gp p a' H. unfold glob_end in *. apply bind_ok_inv in H as (e & -> & H). cbn. by injection H as <-. }
  revert s. induction fuel as [|fuel IH]; intros s Hh H; [done|]. cbn [glob_loop] in H. apply bind_ok_inv in H as (t & Ht & H).
  apply glob_turn_min in Ht as [(r & ->)|[Ht Hn]]; [|cbn [glob_loop]; rewrite Ht; cbn [mbind result_bind]|done].
  { injection H as <-. left. by exists r. }
  destruct t as [gp p|r mn|s' sf].
  - right. by apply Hend.
  - done.
  - apply bind_ok_inv in H as (b & -> & H). cbn [mbind result_bind]. destruct b; [by apply IH|right; by apply Hend].
Qed.
End Minimum.

Section Verdict.
Context (fl : Z) (p : bytes) (g : glob) (n : bytes) (Hc : compiled fl p g n).
Context (t r : bytes) (Ht : is_cstring t) (Hne : t ≠ []) (Hmax : blen t < 2147483648).

(** What the matcher says, and where to go on: no match, the whole name, or a match that ends at a separator. *)
Definition verdict (m : Z) (a mo : Z) : Prop :=
  (a = -1 ∧ mo = -1) ∨ (a = blen t ∧ mo = -1) ∨ (m < a < blen t ∧ byte_at t a = Some 46 ∧ (mo = -1 ∨ mo = a + 1)).

Lemma glob_loop_verdict fuel m s a : valid n t s → glob_loop g (t ++ r) (blen t) fuel (Some m) s = Ok a →
  ∃ mo, a = (a.1, Some mo) ∧ verdict m a.1 mo.
Proof using Hc Ht Hmax.
  pose proof Hc as [Hstr Hn _ _ Hsep _ _ _ _]. pose proof (blen_nonneg t).
  assert (∀ gp p a, glob_end g (blen t) (Some m) gp p = Ok a → ∃ mo, a = (a.1, Some mo) ∧ verdict m a.1 mo) as Hend.
  { intros gp q a' H'. apply bind_ok_inv in H' as (e & _ & H'). injection H' as <-. exists (-1). cbn. split; [done|].
    destruct (e =? 0); [|by left]. destruct (Z.eqb_spec q (blen t)) as [->|]; [|by left].
    right. left. cbn. rewrite to_s32_small; [done|]. unfold is_s32. lia. }
  revert s. induction fuel as [|fuel IH]; intros s Hv H'; [done|]. cbn [glob_loop] in H'. apply bind_ok_inv in H' as (u & Hu & H').
  destruct (glob_turn_ok g n [] t r Hstr Hn Ht (Some m) s Hv) as (u' & E & Hu'). rewrite Hu in E. injection E as <-.
  destruct u as [gp q|k mn|s' sf].
  - by eapply Hend.
  - injection H' as <-. apply glob_turn_partial in Hu as [(H1 & H2 & H3) H4]. cbn in Hu'. exists mn. cbn. split; [done|].
    rewrite to_s32_small by (unfold is_s32; lia). right. right. split; [lia|]. split; [|done].
    destruct (rd_text t r Ht k) as (x & Hx & _ & Hr); [lia|]. rewrite Hr in H3. rewrite Hx. congruence.
  - destruct Hu' as [Hv' _]. apply bind_ok_inv in H' as (b & _ & H'). destruct b; [by eapply IH|by eapply Hend].
Qed.

(** Where the name has what the INBOX test may look at. *)
Context (Hr : flag fl GLOB_INBOXCASE = false ∨ ∃ r', r = 0 :: r').

Lemma glob_test_start min : match min with Some m => 0 ≤ m | None => True end →
  ∃ s, valid n t s ∧ (flag fl GLOB_INBOXCASE = false → s = Gs 0 0 None 0 None 0) ∧
    glob_test g (t ++ r) (blen t) min = glob_loop g (t ++ r) (blen t) (glob_fuel g (blen t)) min s.
Proof using Hc Ht Hne Hr Hmax.
  intros Hm. pose proof Hc as [Hstr Hn _ _ _ Hsup Hpl _ _]. unfold glob_test. pose proof (blen_nonneg t). pose proof (blen_nonneg n).
  assert (match min with Some m => m <? 0 | None => false end = false) as -> by (destruct min; [by apply Z.ltb_ge|done]).
  destruct (Z.eqb_spec (blen t) 0) as [Hz|_]; [exfalso; apply Hne, length_zero_iff_nil; unfold blen in Hz; lia|]. cbn [mbind result_bind].
  assert (∃ b : bool, (if flag (flags g) GLOB_INBOXCASE then strncmp_eq (t ++ r) 0 (INBOX ++ [0]) 0 5 else Ok false) = Ok b ∧
    (b = true → flag fl GLOB_INBOXCASE = true ∧ 5 ≤ blen t)) as (b & -> & Hb).
  { destruct (flag (flags g) GLOB_INBOXCASE) eqn:Hf; [|by exists false]. pose proof (flag_inbox _ _ _ _ Hc Hf) as Hfl.
    destruct Hr as [|[r' ->]]; [congruence|]. exists (bool_decide (INBOX `prefix_of` t)). split.
    - apply (strncmp_prefix t INBOX [] r' [0]); [done|]. repeat constructor; done.
    - intros [u ->]%bool_decide_eq_true. split; [done|]. rewrite blen_app. change (blen INBOX) with 5. pose proof (blen_nonneg u). lia. }
  cbn [mbind result_bind]. rewrite Hsup. cbn [mbind result_bind andb]. eexists. split; [|split; [|reflexivity]].
  - destruct b; [|split; cbn; try done; lia]. destruct Hb as [Hib Hle]; [done|]. destruct (Hpl Hib) as (H1 & H2 & H3 & H4). unfold INBOXLEN.
    split; cbn; try lia; [intros k Hk; specialize (H2 k Hk); lia|intros k Hk; specialize (H3 k Hk); lia|].
    intros k h Hk Hh. specialize (H4 k h Hk Hh). lia.
  - intros Hfl. destruct b; [|done]. destruct Hb; congruence.
Qed.

Lemma glob_test_verdict m : 0 ≤ m → ∃ a mo, glob_test g (t ++ r) (blen t) (Some m) = Ok (a, Some mo) ∧ verdict m a mo.
Proof using Hc Ht Hne Hr Hmax.
  intros Hm. destruct (glob_test_start (Some m) Hm) as (s & Hv & _ & ->). pose proof Hc as [Hstr Hn _ _ _ _ _ _ _].
  destruct (glob_loop_ok g n [] t r Hstr Hn Ht (glob_fuel g (blen t)) (Some m) s Hv) as (a & Ha & _); [by apply (glob_fuel_enough g n [])|].
  destruct (glob_loop_verdict _ _ _ _ Hv Ha) as (mo & E & Hver). exists a.1, mo. by rewrite Ha, E at 1.
Qed.

(** *** Without a minimum, and with one *)

Context (Hfl : fl = GLOB_HIERARCHY) (Htame : tame true false n = true).

Lemma glob_test_none : ∃ b : bool, glob_test g (t ++ r) (blen t) None = Ok (if b then blen t else -1, None) ∧
  (b = true ↔ gmatch true 46 Z.eqb p t).
Proof using Hc Ht Hne Hr Hmax Hfl Htame.
  destruct (glob_test_start None I) as (s & Hv & Hs & ->). pose proof Hc as [Hstr Hn _ _ Hsep _ _ _ Hlang].
  rewrite Hs in * by by rewrite Hfl. assert (newglob g = true) as Hnw by (unfold newglob; rewrite (compiled_flag _ _ _ _ _ Hc) by done; by rewrite Hfl).
  assert (tame (newglob g) false n = true) as Htn by by rewrite Hnw.
  assert (inv g n t (Gs 0 0 None 0 None 0)) as Hi by (split; [done|done|done|]; intros _; split; [done|]; by intros []).
  destruct (glob_loop_ok g n [] t r Hstr Hn Ht (glob_fuel g (blen t)) None _ Hv) as (a & Ha & _); [by apply (glob_fuel_enough g n [])|].
  destruct (glob_loop_spec g n [] t r Hstr Hn Ht Hsep (tame_star g n Htn) (tame_pct g n Hsep Htn) _ _ _ Hi Ha) as (b & -> & Hb).
  exists b. split; [rewrite Ha; destruct b; [|done]; rewrite to_s32_small; [done|]; pose proof (blen_nonneg t); unfold is_s32; lia|].
  rewrite Hb. unfold F. rewrite Hnw, Hsep. cbn [Z.to_nat drop]. rewrite Hfl in Hlang. specialize (Hlang t). unfold same in Hlang.
  unfold char_eq. rewrite (compiled_flag _ _ _ _ GLOB_ICASE Hc), Hfl by done. exact Hlang.
Qed.

Context (Hpct : PCT ∉ n).

Lemma glob_test_some m : 0 ≤ m → ∃ a mo, glob_test g (t ++ r) (blen t) (Some m) = Ok (a, Some mo) ∧
  ((m < a < blen t ∧ byte_at t a = Some 46 ∧ mo = a + 1) ∨ (mo = -1 ∧ ∃ b : bool, a = (if b then blen t else -1) ∧ (b = true ↔ gmatch true 46 Z.eqb p t))).
Proof using Hc Ht Hne Hr Hmax Hfl Htame Hpct.
  intros Hm. destruct (glob_test_verdict m Hm) as (a & mo & E & Hver). exists a, mo. split; [exact E|].
  destruct (glob_test_start (Some m) Hm) as (s & _ & Hs & E1). destruct (glob_test_start None I) as (s' & _ & Hs' & E2).
  rewrite Hs in E1 by by rewrite Hfl. rewrite Hs' in E2 by by rewrite Hfl. rewrite E1 in E.
  assert (PCT ∉ str g) as Hp' by (rewrite (c_str _ _ _ _ Hc); intros [|[|[]%elem_of_nil]%elem_of_cons]%elem_of_app; done).
  destruct (glob_loop_min g (t ++ r) (blen t) Hp' _ m (Gs 0 0 None 0 None 0) _ eq_refl E) as [(k & [= Ha Hk])|[[= ->] Hnone]].
  - left. destruct Hver as [[-> ->]|[[-> ->]|(H1 & H2 & [-> | ->])]]; [| | |done].
    all: assert (k = -2) as -> by lia; change (to_s32 (-2)) with (-2) in Ha; pose proof (blen_nonneg t); lia.
  - right. split; [done|]. destruct glob_test_none as (b & Hb & Hg). exists b. split; [|done]. rewrite E2 in Hb. cbn [fst] in Hnone. rewrite Hnone in Hb. by injection Hb.
Qed.
End Verdict.

(** ** Patterns without percent signs *)

Lemma skip_new_plain s s' : skip_new s = Ok s' → PCT ∉ s → (∃ w, s = w ++ s') ∧ head s' ≠ Some STAR.
Proof.
  induction s as [|c s IH]; [done|]. cbn [skip_new]. intros H Hp. apply not_elem_of_cons in Hp as [Hc Hp].
  destruct (Z.eqb_spec c STAR) as [->|Hne].
  - destruct (IH H Hp) as [[w ->] ?]. split; [|done]. by exists (STAR :: w).
  - destruct (Z.eqb_spec c PCT); [done|]. injection H as <-. split; [by exists []|]. cbn. congruence.
Qed.

Lemma copy_new_plain room fuel s dst m b : copy_new room fuel (s ++ [0]) dst = Ok m → is_cstring s → PCT ∉ s →
  ∃ n, m = dst ++ n ∧ tame true b n = true ∧ (PCT ∉ n) ∧ (head s ≠ Some STAR → head n ≠ Some STAR).
Proof.
  revert s dst b. induction fuel as [|fuel IH]; intros s dst b; cbn [copy_new]; [done|]. intros H Hs Hp.
  destruct s as [|c s].
  { injection H as <-. exists []. rewrite app_nil_r. split_and!; done. }
  change (rd8 ((c :: s) ++ [0]) 0) with (Ok c) in H. cbn [mbind result_bind] in H.
  apply Forall_cons_1 in Hs as [Hc Hs]. apply not_elem_of_cons in Hp as [Hcp Hp]. destruct (Z.eqb_spec c 0); [lia|].
  destruct (Z.eqb_spec c STAR) as [->|Hne]; cbn [orb] in H.
  - assert (skip_pct ((STAR :: s) ++ [0]) = Ok ((STAR :: s) ++ [0])) as E by done. rewrite E in H. cbn [mbind result_bind] in H.
    change (rd8 ((STAR :: s) ++ [0]) 0) with (Ok STAR) in H. cbn [mbind result_bind] in H. rewrite Z.eqb_refl in H.
    apply bind_ok_inv in H as (s1 & H1 & H). change (skip_new ((STAR :: s) ++ [0])) with (skip_new (s ++ [0])) in H1.
    apply skip_new_plain in H1 as ([w Hw] & Hh); [|by intros [|[|[]%elem_of_nil]%elem_of_cons]%elem_of_app].
    assert (∃ s2, s1 = s2 ++ [0] ∧ s = w ++ s2) as (s2 & -> & ->).
    { destruct s1 as [|x s1 _] using rev_ind.
      - exfalso. apply bind_ok_inv in H as (? & _ & H). by destruct fuel.
      - rewrite app_assoc in Hw. apply app_inj_tail in Hw as [-> <-]. by exists s1. }
    apply Forall_app in Hs as [_ Hs2]. rewrite elem_of_app in Hp. apply bind_ok_inv in H as (d & Hd & H).
    unfold put in Hd. destruct (_ <? _); [|done]. injection Hd as <-. apply (IH _ _ true) in H as (n' & -> & Ht & Hn' & Hst); [|done|tauto].
    exists (STAR :: n'). rewrite <- app_assoc. split_and!; [done| |by apply not_elem_of_cons|done].
    assert (head n' ≠ Some STAR) as Hh'. { apply Hst. intros E'. apply Hh. by destruct s2. }
    change (tame true b (STAR :: n')) with (match n' with [] => true | d :: _ => negb (wildcard d) && (true || negb (d =? QUEST)) end && tame true true n').
    rewrite Ht, andb_true_r. destruct n' as [|d n']; [done|]. cbn [orb]. rewrite andb_true_r. apply negb_true_iff. unfold wildcard.
    apply not_elem_of_cons in Hn' as [Hd _]. cbn in Hh'. apply orb_false_iff. split; apply Z.eqb_neq; congruence.
  - destruct (Z.eqb_spec c PCT); [congruence|]. apply bind_ok_inv in H as (d & Hd & H). unfold put in Hd. destruct (_ <? _); [|done].
    injection Hd as <-. cbn [app tail] in H. apply (IH _ _ b) in H as (n' & -> & Ht & Hn' & _); [|done|done].
    exists (c :: n'). rewrite <- app_assoc. split_and!; [done| |by apply not_elem_of_cons|intros _; cbn; congruence].
    cbn [tame]. destruct (Z.eqb_spec c STAR); [done|]. by destruct (Z.eqb_spec c PCT).
Qed.

(** Such patterns are tame, and stay without percent signs. *)
Lemma compiled_plain p : is_cstring p → PCT ∉ p →
  ∃ g n, glob_init (p ++ [0]) GLOB_HIERARCHY = Ok g ∧ compiled GLOB_HIERARCHY p g n ∧ tame true false n = true ∧ PCT ∉ n.
Proof.
  intros Hp Hpct. destruct (glob_init_ok GLOB_HIERARCHY p [] eq_refl Hp) as (g & n & Hg & Hc). exists g, n. split; [done|]. split; [done|].
  unfold glob_init, glob_init_suppress in Hg. cbn [mbind result_bind] in Hg. apply bind_ok_inv in Hg as (k & _ & Hg).
  apply bind_ok_inv in Hg as (dst & Hd & Hg).
  apply bind_ok_inv in Hg as ([[[[? ?] ?] ?] ?] & _ & Hg). injection Hg as <-. cbn [str] in Hc. pose proof (c_str _ _ _ _ Hc) as Hs. cbn in Hs. subst dst.
  unfold init_str in Hd. change (flag GLOB_HIERARCHY GLOB_SUBSTRING) with false in Hd. change (flag GLOB_HIERARCHY GLOB_HIERARCHY) with true in Hd.
  change (flag GLOB_HIERARCHY GLOB_ICASE) with false in Hd. cbn [mbind result_bind] in Hd. apply bind_ok_inv in Hd as (m & Hm & Hd).
  apply bind_ok_inv in Hd as (m' & [= <-] & Hd). 
  unfold put in Hd. destruct (_ <? _); [|done]. injection Hd as Hd. apply app_inj_tail in Hd as [-> _].
  by destruct (copy_new_plain _ _ _ _ _ false Hm Hp Hpct) as (n' & -> & ? & ? & _).
Qed.

(** ** The INBOX of a pattern *)

(** The word, in upper and lower case as the pattern writes it. *)
Definition says_inbox (w : bytes) : Prop := is_cstring w ∧ map TOLOWER w = map TOLOWER INBOX.
Definition inbox_word (ib : bytes) : Prop := ∃ w, ib = w ++ [0] ∧ says_inbox w.

Lemma says_inbox_len w : says_inbox w → length w = 5%nat.
Proof. intros [_ H]. apply (f_equal length) in H. by rewrite !length_map in H. Qed.

Lemma inbox_word_set ib d x y : inbox_word ib → rd8 ib d = Ok y → y ≠ 0 → 0 < x < 256 → TOLOWER x = TOLOWER y → inbox_word (wr ib d [x]).
Proof.
  intros (w & -> & Hw & Hl) Hy Hne Hx Hxy. pose proof Hy as Hy'. apply rd8_ok_inv in Hy. pose proof (byte_at_lt _ _ _ Hy) as Hb. rewrite blen_app in Hb. change (blen [0]) with 1 in Hb.
  assert (d < blen w) as Hd.
  { destruct (Z.eq_dec d (blen w)) as [->|]; [|lia]. apply rd8_ok in Hy. rewrite rd8_end in Hy. congruence. }
  exists (take (Z.to_nat d) w ++ x :: drop (Z.to_nat d + 1) w). unfold says_inbox, wr, blen in *. rewrite pad_to_id by (unfold blen; rewrite length_app; lia).
  split_and!.
  - rewrite take_app_le by lia. change (length [x]) with 1%nat. rewrite drop_app_le by lia. by rewrite <- app_assoc.
  - apply Forall_app. split; [by apply Forall_take|]. constructor; [done|by apply Forall_drop].
  - rewrite <- Hl. rewrite <- (take_drop_middle w (Z.to_nat d) y) at 3.
    + rewrite !map_app. cbn [map]. by rewrite Hxy, Nat.add_1_r.
    + unfold byte_at in Hy. destruct (Z.ltb_spec d 0); [lia|]. by rewrite lookup_app_l in Hy by lia.
Qed.

Lemma inbox_copy_word f n p d ib p' d' ib' : all_bytes n → inbox_word ib → inbox_copy f n p d ib = Ok (p', d', ib') → inbox_word ib'.
Proof.
  intros Hn. revert p d ib. induction f as [|f IH]; intros p d ib Hib; cbn [inbox_copy]; [done|]. intros H.
  apply bind_ok_inv in H as (y & Hy & H). destruct (Z.eqb_spec y 0); [by injection H as <- <- <-|].
  apply bind_ok_inv in H as (x & Hx & H). destruct (Z.eqb_spec (TOLOWER x) (TOLOWER y)) as [E|]; [|by injection H as <- <- <-].
  eapply IH; [|exact H]. eapply inbox_word_set; [done..| |exact E]. apply rd8_ok_inv in Hx. unfold byte_at in Hx. destruct (p <? 0); [done|].
  apply list_elem_of_lookup_2 in Hx. apply (proj1 (Forall_forall _ _) Hn) in Hx. cbn in Hx. unfold is_byte in Hx.
  assert (0 < y < 256) as Hyb.
  { destruct Hib as (w & -> & Hw & _). apply rd8_ok_inv in Hy. unfold byte_at in Hy. destruct (d <? 0); [done|].
    apply list_elem_of_lookup_2, elem_of_app in Hy as [Hy|Hy%list_elem_of_singleton]; [|done]. by apply (proj1 (Forall_forall _ _) Hw) in Hy. }
  destruct (Z.eq_dec x 0) as [->|]; [|lia]. pose proof (TOLOWER_range y Hyb). change (TOLOWER 0) with 0 in E. lia.
Qed.

Lemma inbox_loop_word f n p d ib gs gh p' d' ib' gs' gh' : all_bytes n → inbox_word ib →
  inbox_loop f n p d ib gs gh = Ok (p', d', ib', gs', gh') → inbox_word ib'.
Proof.
  intros Hn. revert p d ib gs gh. induction f as [|f IH]; intros p d ib gs gh Hib; cbn [inbox_loop]; [done|]. intros H.
  apply bind_ok_inv in H as ([[p1 d1] ib1] & H1 & H). pose proof (inbox_copy_word _ _ _ _ _ _ _ _ Hn Hib H1) as Hib1.
  apply bind_ok_inv in H as (x & _ & H). destruct ((x =? STAR) || (x =? PCT)); [|by injection H as <- <- <- <- <-].
  apply bind_ok_inv in H as (x2 & _ & H). apply bind_ok_inv in H as (d2 & _ & H). apply bind_ok_inv in H as (y & _ & H).
  destruct (negb (x2 =? 0) && negb (y =? 0)); [by eapply IH|by injection H as <- <- <- <- <-].
Qed.

Lemma glob_init_inbox s p fl g n : glob_init s fl = Ok g → compiled fl p g n → inbox_word (inbox g).
Proof.
  intros Hg Hc. pose proof (c_str _ _ _ _ Hc) as Hs. unfold glob_init, glob_init_suppress in Hg. apply bind_ok_inv in Hg as (k & _ & Hg).
  apply bind_ok_inv in Hg as (k' & _ & Hg). apply bind_ok_inv in Hg as (dst & _ & Hg).
  apply bind_ok_inv in Hg as ([[[[fl' gp] ib] gs] gh] & Hi & Hg). injection Hg as <-. cbn [str inbox] in *. subst dst.
  assert (inbox_word (INBOX ++ [0])) as H0 by (exists INBOX; split; [done|]; split; [repeat constructor; done|done]).
  destruct (flag fl GLOB_INBOXCASE); [|by injection Hi as <- <- <- <- <-].
  apply bind_ok_inv in Hi as ([[[[p' d'] ib'] gs'] gh'] & Hl & Hi). apply bind_ok_inv in Hi as (y & _ & Hi). injection Hi as <- <- <- <- <-.
  eapply inbox_loop_word; [|exact H0|exact Hl]. apply Forall_app. split; [|by repeat constructor].
  eapply Forall_impl; [apply (c_cstring _ _ _ _ Hc)|]. unfold is_byte. cbn. lia.
Qed.

(** [GLOB_TEST] of a pattern returns. *)
Lemma GLOB_TEST_ok fl p g n t r : compiled fl p g n → is_cstring t → t ≠ [] → blen t < 2147483648 → ∃ a, GLOB_TEST g (t ++ 0 :: r) = Ok a.
Proof.
  intros Hc Ht Hne Hmax. pose proof Hc as [Hstr Hn _ _ _ _ _ _ _].
  destruct (glob_test_start fl p g n Hc t (0 :: r) Ht Hne Hmax) with (min := @None Z) as (s & Hv & _ & E); [by right; exists r|done|].
  destruct (glob_loop_ok g n [] t (0 :: r) Hstr Hn Ht (glob_fuel g (blen t)) None s Hv) as (a & Ha & _); [by apply (glob_fuel_enough g n [])|].
  exists a.1. unfold GLOB_TEST. assert (glob_test g (t ++ 0 :: r) 0 None = Ok a) as ->; [|by destruct a].
  rewrite <- Ha, <- E. unfold glob_test. rewrite !(len_arg t r) by auto. done.
Qed.
