(* ===== verification/Mboxname.v ===== *)
(** * Mboxname: mailbox names ([imap/mboxname.c], [imap/mboxname.h])

    Inside the server a mailbox is "user.joe.sent", or "dom!user.joe.sent" in a
    virtual domain; clients see other separators, prefixes and domains.  The
    functions that convert between the two print into a buffer of the caller,
    a block of memory here; the strings they read are C strings, read with [chr]
    where the code indexes them. *)
From S2P Require Import Prelude CMem CString Glob.
#[local] Open Scope Z_scope.

Definition MAX_MAILBOX_NAME : Z := 490.
Definition MAX_NAMESPACE_PREFIX : Z := 40.
Definition DOTCHAR : Z := 94.
Definition DOT : Z := 46.
Definition SLASH : Z := 47.
Definition AT : Z := 64.
Definition BANG : Z := 33.

Definition IMAP_MAILBOX_BADNAME : Z := -1904809458.
Definition IMAP_NAMESPACE_BADPREFIX : Z := -1904809464.

(** [struct namespace]; the function pointers are chosen by [isalt]. *)
Record namespace := Namespace {
  hier_sep : Z;
  isalt : bool;
  isadmin : bool;
  prefix_inbox : bytes;
  prefix_user : bytes;
  prefix_shared : bytes;
}.

(** ** Strings *)

(** [s[i]], up to the NUL. *)
Definition chr (s : bytes) (i : Z) : result Z := rd8 (s ++ [0]) i.

(** [strchr], [strrchr] and [strstr], as offsets. *)
Fixpoint chr_pos (s : bytes) (c : Z) : option Z :=
  match s with [] => None | x :: s' => if x =? c then Some 0 else Z.add 1 <$> chr_pos s' c end.
Fixpoint rchr_pos (s : bytes) (c : Z) : option Z :=
  match s with
  | [] => None
  | x :: s' => match rchr_pos s' c with Some p => Some (1 + p) | None => if x =? c then Some 0 else None end
  end.
Definition starts_with (s t : bytes) : bool := bool_decide (take (length t) s = t).
Fixpoint str_pos (s t : bytes) : option Z :=
  if starts_with s t then Some 0
  else match s with [] => None | _ :: s' => Z.add 1 <$> str_pos s' t end.

(** [!strcasecmp(s, t)], [!strncasecmp(s, t, strlen(t))] *)
Definition strcaseeq (s t : bytes) : bool := bool_decide (map TOLOWER s = map TOLOWER t).
Definition starts_case (s t : bytes) : bool := bool_decide (map TOLOWER (take (length t) s) = map TOLOWER t).

Definition from (i : Z) (s : bytes) : bytes := drop (Z.to_nat i) s.

(** [%.*s]: a negative precision counts as none. *)
Definition prec (n : Z) (s : bytes) : bytes := if n <? 0 then s else take (Z.to_nat n) s.

(** [sprintf(m + i, "%s", s)] *)
Definition sprint (m : bytes) (i : Z) (s : bytes) : result bytes :=
  if (0 <=? i) && (i + blen s + 1 <=? blen m) then Ok (wr m i (s ++ [0])) else Fault OutOfBounds.

Definition user_dot : bytes := [117; 115; 101; 114; 46].
Definition inbox_ : bytes := [105; 110; 98; 111; 120].

(** ** Separators *)

Fixpoint sep_loop (fuel : nat) (f : Z → Z) (m : bytes) (p length : Z) : result bytes :=
  match fuel with
  | O => Fault OutOfFuel
  | S fuel' =>
      c ← rd8 m p;
      if (c =? 0) || (length =? 0) then Ok m else
      m ← store8 m p (f c);
      sep_loop fuel' f m (p + 1) (length - 1)
  end.

Definition sep_in (c : Z) : Z := if c =? SLASH then DOT else if c =? DOT then DOTCHAR else c.
Definition sep_out (c : Z) : Z := if c =? DOT then SLASH else if c =? DOTCHAR then DOT else c.

Definition hiersep (f : Z → Z) (ns : namespace) (m : bytes) (name length : Z) : result bytes :=
  if negb ((hier_sep ns =? DOT) || (hier_sep ns =? SLASH)) then Fault AssertFailed else
  length ← (if length =? 0 then strlen_at m name else Ok length);
  if hier_sep ns =? SLASH then sep_loop (S (Z.to_nat (blen m))) f m name length else Ok m.

Definition mboxname_hiersep_tointernal : namespace → bytes → Z → Z → result bytes := hiersep sep_in.
Definition mboxname_hiersep_toexternal : namespace → bytes → Z → Z → result bytes := hiersep sep_out.

Section Names.
(** [imapd.conf]: virtual domains, the default domain, and the namespace. *)
Context (config_virtdomains : bool) (config_defdomain : option bytes)
  (unixhierarchysep altnamespace : bool) (userprefix sharedprefix : option bytes).

(** ** From external to internal names *)

Definition is_defdomain (d : bytes) : bool :=
  match config_defdomain with Some dd => strcaseeq dd d | None => false end.

(** The domain of the user ([at_] finds its '@'): the buffer, [userlen] and
    [domainlen]; [None] is the return of an error. *)
Definition user_domain (at_ : bytes → option Z) (userid : option bytes) (m : bytes) : result (bytes * option (Z * Z)) :=
  match userid with
  | None => Ok (m, Some (0, 0))
  | Some u =>
      match at_ u with
      | None => Ok (m, Some (blen u, 0))
      | Some p =>
          let cp := from (p + 1) u in
          (* don't prepend default domain *)
          if is_defdomain cp then Ok (m, Some (p, 0)) else
          let domainlen := blen cp + 1 in
          if MAX_MAILBOX_NAME <? domainlen then Ok (m, None) else
          m ← sprint m 0 (cp ++ [BANG]);
          Ok (m, Some (p, domainlen))
      end
  end.

(** The domain of the mailbox: the buffer, [namelen] and [domainlen]. *)
Definition mbox_domain (ns : namespace) (name : bytes) (userid : option bytes) (userlen domainlen : Z) (m : bytes) :
    result (bytes * option (Z * Z)) :=
  match rchr_pos name AT with
  | None => Ok (m, Some (blen name, domainlen))
  | Some namelen =>
      let cp := from namelen name in
      if is_defdomain (tail cp) then
        (* don't allow cross-domain access *)
        if negb (domainlen =? 0) then Ok (m, None) else Ok (m, Some (namelen, domainlen))
      else if ((domainlen =? 0) && negb (isadmin ns)) ||
              (negb (domainlen =? 0) && negb (strcaseeq (from userlen (default [] userid)) cp)) then Ok (m, None)
      else
        let domainlen := blen (tail cp) + 1 in
        if MAX_MAILBOX_NAME <? domainlen then Ok (m, None) else
        m ← sprint m 0 (tail cp ++ [BANG]);
        Ok (m, Some (namelen, domainlen))
  end.

(** The buffer, [userlen], [namelen] and [domainlen]. *)
Definition domains (at_ : bytes → option Z) (ns : namespace) (name : bytes) (userid : option bytes) (m : bytes) :
    result (bytes * option (Z * Z * Z)) :=
  if negb config_virtdomains then Ok (m, Some (match userid with Some u => blen u | None => 0 end, blen name, 0)) else
  '(m, o) ← user_domain at_ userid m;
  match o with
  | None => Ok (m, None)
  | Some (userlen, domainlen) =>
      '(m, o) ← mbox_domain ns name userid userlen domainlen m;
      Ok (m, match o with None => None | Some (namelen, domainlen) => Some (userlen, namelen, domainlen) end)
  end.

(** [(name[0] == 'i' || name[0] == 'I') && !strncasecmp(name, "inbox", 5) &&
    (namelen == 5 || name[5] == namespace->hier_sep)] *)
Definition is_inbox (ns : namespace) (name : bytes) (namelen : Z) : result bool :=
  c ← chr name 0;
  if negb (((c =? 105) || (c =? 73)) && starts_case name inbox_) then Ok false else
  if namelen =? 5 then Ok true else d ← chr name 5; Ok (d =? hier_sep ns).

(** [!userid || ((cp = strchr(userid, namespace->hier_sep)) && (cp - userid < userlen))] *)
Definition no_inbox (ns : namespace) (userid : option bytes) (userlen : Z) : bool :=
  match userid with
  | None => true
  | Some u => match chr_pos u (hier_sep ns) with Some p => p <? userlen | None => false end
  end.

(** The return value and the buffer. *)
Definition mboxname_tointernal_ (ns : namespace) (name : bytes) (userid : option bytes) (m : bytes) : result (Z * bytes) :=
  m ← store8 m 0 0;
  '(m, o) ← domains (λ u, rchr_pos u AT) ns name userid m;
  match o with
  | None => Ok (IMAP_MAILBOX_BADNAME, m)
  | Some (userlen, namelen, domainlen) =>
      (* Personal (INBOX) namespace *)
      ib ← is_inbox ns name namelen;
      if (ib : bool) then
        if no_inbox ns userid userlen then Ok (IMAP_MAILBOX_BADNAME, m)
        else if MAX_MAILBOX_NAME <? domainlen + namelen + userlen then Ok (IMAP_MAILBOX_BADNAME, m)
        else
          m ← sprint m domainlen (user_dot ++ prec userlen (default [] userid) ++ prec (namelen - 5) (from 5 name));
          m ← mboxname_hiersep_tointernal ns m (domainlen + 5 + userlen) 0;
          Ok (0, m)
      (* Other Users & Shared namespace *)
      else if MAX_MAILBOX_NAME <? domainlen + namelen then Ok (IMAP_MAILBOX_BADNAME, m)
      else
        m ← sprint m domainlen (prec namelen name);
        m ← mboxname_hiersep_tointernal ns m domainlen 0;
        Ok (0, m)
  end.

(** [!strncmp(name, prefix, prefixlen-1) &&
    (namelen == prefixlen-1 || name[prefixlen-1] == namespace->hier_sep)] *)
Definition has_prefix (ns : namespace) (name prefix : bytes) (namelen : Z) : result bool :=
  if negb (starts_with name (removelast prefix)) then Ok false else
  if namelen =? blen prefix - 1 then Ok true else d ← chr name (blen prefix - 1); Ok (d =? hier_sep ns).

(** The personal namespace of the alternate one. *)
Definition tointernal_personal (ns : namespace) (name : bytes) (userid : option bytes)
    (userlen namelen domainlen : Z) (m : bytes) : result (Z * bytes) :=
  if no_inbox ns userid userlen then Ok (IMAP_MAILBOX_BADNAME, m) else
  if MAX_MAILBOX_NAME <? domainlen + userlen + 5 then Ok (IMAP_MAILBOX_BADNAME, m) else
  m ← sprint m domainlen (user_dot ++ prec userlen (default [] userid));
  ib ← is_inbox ns name namelen;
  if (ib : bool) then
    d ← chr name 5;
    (* can't create folders under INBOX *)
    Ok (if d =? hier_sep ns then IMAP_MAILBOX_BADNAME else 0, m)
  else
    resultlen ← strlen_at m domainlen;
    if MAX_MAILBOX_NAME <? domainlen + resultlen + 6 + namelen then Ok (IMAP_MAILBOX_BADNAME, m) else
    (* snprintf(result+resultlen, MAX_MAILBOX_NAME+1-resultlen, ...) *)
    m ← sprint m (domainlen + resultlen) (take (Z.to_nat (MAX_MAILBOX_NAME - resultlen)) (DOT :: prec namelen name));
    m ← mboxname_hiersep_tointernal ns m (domainlen + 6 + userlen) 0;
    Ok (0, m).

Definition mboxname_tointernal_alt (ns : namespace) (name : bytes) (userid : option bytes) (m : bytes) : result (Z * bytes) :=
  m ← store8 m 0 0;
  '(m, o) ← domains (λ u, chr_pos u AT) ns name userid m;
  match o with
  | None => Ok (IMAP_MAILBOX_BADNAME, m)
  | Some (userlen, namelen, domainlen) =>
      (* Shared namespace *)
      let prefixlen := blen (prefix_shared ns) in
      if prefixlen =? 0 then Ok (IMAP_MAILBOX_BADNAME, m) else
      sh ← has_prefix ns name (prefix_shared ns) namelen;
      if (sh : bool) then
        (* can't create folders using undelimited prefix *)
        if namelen =? prefixlen - 1 then Ok (IMAP_MAILBOX_BADNAME, m)
        else if MAX_MAILBOX_NAME <? domainlen + namelen - prefixlen then Ok (IMAP_MAILBOX_BADNAME, m)
        else
          m ← sprint m domainlen (prec (namelen - prefixlen) (from prefixlen name));
          m ← mboxname_hiersep_tointernal ns m domainlen 0;
          Ok (0, m)
      else
      (* Other Users namespace *)
      let prefixlen := blen (prefix_user ns) in
      if prefixlen =? 0 then Ok (IMAP_MAILBOX_BADNAME, m) else
      us ← has_prefix ns name (prefix_user ns) namelen;
      if (us : bool) then
        if namelen =? prefixlen - 1 then Ok (IMAP_MAILBOX_BADNAME, m)
        else if MAX_MAILBOX_NAME <? domainlen + namelen - prefixlen + 5 then Ok (IMAP_MAILBOX_BADNAME, m)
        else
          m ← sprint m domainlen (user_dot ++ prec (namelen - prefixlen) (from prefixlen name));
          m ← mboxname_hiersep_tointernal ns m (domainlen + 5) 0;
          Ok (0, m)
      (* Personal (INBOX) namespace *)
      else tointernal_personal ns name userid userlen namelen domainlen m
  end.

(** ** From internal to external names *)

(** The domain of the name, [None] when it is not to be shown, and what follows it. *)
Definition name_domain (name : bytes) (userid : option bytes) : option bytes * bytes :=
  if negb config_virtdomains then (None, name) else
  match chr_pos name BANG with
  | None => (None, name)
  | Some domainlen =>
      let domain := take (Z.to_nat domainlen) name in
      (* don't use the domain if it matches the user's domain *)
      let same := match userid with
                  | Some u => match chr_pos u AT with Some p => bool_decide (from (p + 1) u = domain) | None => false end
                  | None => false
                  end in
      (if same then None else Some domain, from (domainlen + 1) name)
  end.

Definition mboxname_toexternal_ (ns : namespace) (name : bytes) (userid : option bytes) (m : bytes) : result (Z * bytes) :=
  m ← store8 m 0 0;
  if MAX_MAILBOX_NAME <? blen name then Ok (IMAP_MAILBOX_BADNAME, m) else
  let '(domain, name) := name_domain name userid in
  m ← sprint m 0 name;
  m ← mboxname_hiersep_toexternal ns m 0 0;
  resultlen ← strlen_at m 0;
  match domain with
  | None => Ok (0, m)
  | Some d =>
      if MAX_MAILBOX_NAME <? resultlen + blen d + 1 then Ok (IMAP_MAILBOX_BADNAME, m) else
      m ← sprint m resultlen (take (Z.to_nat (MAX_MAILBOX_NAME - resultlen)) (AT :: d));
      Ok (0, m)
  end.

(** The name without the user's domain, and the length of the user's name. *)
Definition strip_domain (name u : bytes) : result (bytes * Z) :=
  if negb config_virtdomains then Ok (name, blen u) else
  match chr_pos u AT with
  | None => Ok (name, blen u)
  | Some p =>
      let domain := from p u in
      if negb (starts_with name (tail domain)) then Ok (name, p) else
      c ← chr name (blen domain - 1);
      Ok (if c =? BANG then from (blen domain) name else name, p)
  end.

(** [!strncmp(name, s, strlen(s)) && (name[strlen(s)] == '\0' || name[strlen(s)] == '.')]:
    whether there is a '.' *)
Definition under (starts : bytes → bytes → bool) (name s : bytes) : result (option bool) :=
  if negb (starts name s) then Ok None else
  c ← chr name (blen s);
  Ok (if c =? 0 then Some false else if c =? DOT then Some true else None).

Definition INBOX_name : bytes := [73; 78; 66; 79; 88].

Definition mboxname_toexternal_alt (ns : namespace) (name : bytes) (userid : option bytes) (m : bytes) : result (Z * bytes) :=
  m ← store8 m 0 0;
  if MAX_MAILBOX_NAME <? blen name then Ok (IMAP_MAILBOX_BADNAME, m) else
  match userid with
  | None => Ok (IMAP_MAILBOX_BADNAME, m)
  | Some u =>
      '(name, userlen) ← strip_domain name u;
      (* Personal (INBOX) namespace *)
      ib ← under starts_case name inbox_;
      own ← under starts_with name (user_dot ++ take (Z.to_nat userlen) u);
      other ← under starts_with name (removelast user_dot);
      o ← match ib, own, other with
          | Some dot, _, _ => m ← sprint m 0 (if (dot : bool) then from 6 name else name); Ok (Some m)
          | None, Some dot, _ => m ← sprint m 0 (if (dot : bool) then from (5 + userlen + 1) name else INBOX_name); Ok (Some m)
          (* Other Users namespace *)
          | None, None, Some dot =>
              let prefixlen := blen (prefix_user ns) in
              if (MAX_MAILBOX_NAME <? prefixlen) ||
                 ((dot : bool) && (MAX_MAILBOX_NAME <? prefixlen + 1 + blen (from 5 name))) then Ok None else
              m ← sprint m 0 (prec (prefixlen - 1) (prefix_user ns));
              resultlen ← strlen_at m 0;
              if dot then m ← sprint m resultlen (hier_sep ns :: from 5 name); Ok (Some m) else Ok (Some m)
          (* Shared namespace *)
          | None, None, None =>
              let shared := prefix_shared ns in
              (* special case:  LIST/LSUB "" % *)
              if (if blen shared =? 0 then blen name =? 0 else starts_with name (removelast shared)) then m ← sprint m 0 name; Ok (Some m)
              else
                m ← sprint m 0 shared;
                resultlen ← strlen_at m 0;
                m ← sprint m resultlen name; Ok (Some m)
          end;
      match o with
      | None => Ok (IMAP_MAILBOX_BADNAME, m)
      | Some m => m ← mboxname_hiersep_toexternal ns m 0 0; Ok (0, m)
      end
  end.

(** ** Namespaces *)

(** [!prefix || strlen(prefix) == 0 || strlen(prefix) >= MAX_NAMESPACE_PREFIX ||
    strchr(prefix, namespace->hier_sep) != NULL] *)
Definition bad_prefix (sep : Z) (prefix : option bytes) : bool :=
  match prefix with
  | None => true
  | Some p => (blen p =? 0) || (MAX_NAMESPACE_PREFIX <=? blen p) ||
              match chr_pos p sep with Some _ => true | None => false end
  end.

Definition delimited (sep : Z) (prefix : option bytes) : bytes := prec (MAX_NAMESPACE_PREFIX - 1) (default [] prefix) ++ [sep].

(** [inr] is the namespace, [inl] the error. *)
Definition mboxname_init_namespace (admin : bool) : Z + namespace :=
  let sep := if unixhierarchysep then SLASH else DOT in
  if negb admin && altnamespace then
    if bad_prefix sep userprefix then inl IMAP_NAMESPACE_BADPREFIX else
    let pu := delimited sep userprefix in
    if bad_prefix sep sharedprefix || starts_with pu (default [] sharedprefix) then inl IMAP_NAMESPACE_BADPREFIX else
    inr (Namespace sep true admin [] pu (delimited sep sharedprefix))
  else inr (Namespace sep false admin (INBOX_name ++ [sep]) (removelast user_dot ++ [sep]) []).

(** The function pointers of the namespace. *)
Definition mboxname_tointernal (ns : namespace) : bytes → option bytes → bytes → result (Z * bytes) :=
  if isalt ns then mboxname_tointernal_alt ns else mboxname_tointernal_ ns.
Definition mboxname_toexternal (ns : namespace) : bytes → option bytes → bytes → result (Z * bytes) :=
  if isalt ns then mboxname_toexternal_alt ns else mboxname_toexternal_ ns.

(** ** Questions about internal names *)

(** [inboxname] is the buffer on the stack, with what was there before. *)
Definition mboxname_userownsmailbox (userid : option bytes) (name inboxname : bytes) : result bool :=
  let internal := Namespace DOT false false (INBOX_name ++ [DOT]) user_dot [] in
  '(r, m) ← mboxname_tointernal_ internal INBOX_name userid inboxname;
  if negb (r =? 0) then Ok false else
  inbox ← cstr m;
  u ← under starts_with name inbox;
  Ok (match u with Some _ => true | None => false end).

(** The userid, and what follows it, in the name. *)
Definition mboxname_isusermailbox (name : bytes) (isinbox : bool) : option bytes :=
  let p := if starts_with name user_dot then Some (from 5 name)
           else match str_pos name (BANG :: user_dot) with Some i => Some (from (i + 6) name) | None => None end in
  match p with
  | Some u => if negb isinbox || match chr_pos u DOT with Some _ => false | None => true end then Some u else None
  | None => None
  end.

(** Cannot have all-numeric name components. *)
Fixpoint netnews_loop (name : bytes) (sawnonnumeric : bool) : bool :=
  match name with
  | [] => sawnonnumeric
  | c :: name =>
      if c =? DOT then sawnonnumeric && netnews_loop name false
      else if (48 <=? c) && (c <=? 57) then netnews_loop name sawnonnumeric
      else netnews_loop name true
  end.
Definition mboxname_netnewscheck (name : bytes) : Z := if netnews_loop name false then 0 else IMAP_MAILBOX_BADNAME.

(** ** Site policy *)

Definition badmboxpatterns : list bytes :=
  [ []; [STAR; 9; STAR]; [STAR; 10; STAR]; [STAR; SLASH; STAR]; [DOT; STAR]; [STAR; DOT]; [STAR; DOT; DOT; STAR];
    removelast user_dot ].

Definition XX : Z := 127.

(** Table for decoding modified base64 for IMAP UTF-7 mailbox names. *)
Definition index_mod64 : list Z := [
    XX;XX;XX;XX; XX;XX;XX;XX; XX;XX;XX;XX; XX;XX;XX;XX;
    XX;XX;XX;XX; XX;XX;XX;XX; XX;XX;XX;XX; XX;XX;XX;XX;
    XX;XX;XX;XX; XX;XX;XX;XX; XX;XX;XX;62; 63;XX;XX;XX;
    52;53;54;55; 56;57;58;59; 60;61;XX;XX; XX;XX;XX;XX;
    XX; 0; 1; 2;  3; 4; 5; 6;  7; 8; 9;10; 11;12;13;14;
    15;16;17;18; 19;20;21;22; 23;24;25;XX; XX;XX;XX;XX;
    XX;26;27;28; 29;30;31;32; 33;34;35;36; 37;38;39;40;
    41;42;43;44; 45;46;47;48; 49;50;51;XX; XX;XX;XX;XX] ++ replicate 128 XX.
Definition CHARMOD64 (c : Z) : Z := default XX (index_mod64 !! Z.to_nat c).

(** [GOODCHARS] *)
Definition GOODCHARS : bytes :=
  [32; 43; 44; 45; 46; 48; 49; 50; 51; 52; 53; 54; 55; 56; 57; 58; 61; 64;
   65; 66; 67; 68; 69; 70; 71; 72; 73; 74; 75; 76; 77; 78; 79; 80; 81; 82; 83; 84; 85; 86; 87; 88; 89; 90; 95;
   97; 98; 99; 100; 101; 102; 103; 104; 105; 106; 107; 108; 109; 110; 111; 112; 113; 114; 115; 116; 117; 118; 119;
   120; 121; 122; 126].

Fixpoint bad_pattern (ps : list bytes) (name : bytes) : result bool :=
  match ps with
  | [] => Ok false
  | p :: ps =>
      g ← glob_init (p ++ [0]) 0;
      r ← GLOB_TEST g name;
      if negb (r =? -1) then Ok true else bad_pattern ps name
  end.

(** [n] characters from [m + i], [None] as soon as one is not base64. *)
Fixpoint chars64 (n : nat) (m : bytes) (i : Z) : result (option (list Z)) :=
  match n with
  | O => Ok (Some [])
  | S n' =>
      c ← rd8 m i;
      if CHARMOD64 c =? XX then Ok None else
      o ← chars64 n' m (i + 1);
      Ok (option_map (cons (CHARMOD64 c)) o)
  end.

(** US-ASCII or multi-word character. *)
Definition bad_ucs (ucs4 : Z) : bool := (Z.land ucs4 0xff80 =? 0) || (Z.land ucs4 0xf800 =? 0xd800).

(** The loop over the characters of a shifted sequence from [name]: the offset of
    its '-', or [None] for [return IMAP_MAILBOX_BADNAME]. *)
Fixpoint utf7_loop (fuel : nat) (m : bytes) (name : Z) (sawutf7 : bool) : result (option Z) :=
  match fuel with
  | O => Fault OutOfFuel
  | S fuel' =>
      c ← rd8 m name;
      if c =? 45 then Ok (Some name) else
      (* Two adjacent utf7 sequences *)
      if sawutf7 then Ok None else
      o ← chars64 3 m name;
      match o with
      | Some [c1; c2; c3] =>
          if bad_ucs (Z.lor (Z.lor (Z.shiftl c1 10) (Z.shiftl c2 4)) (Z.shiftr c3 2)) then Ok None else
          c ← rd8 m (name + 3);
          (* Trailing bits not zero, or end of UTF-7 sequence *)
          if c =? 45 then Ok (if negb (Z.land c3 0x03 =? 0) then None else Some (name + 3)) else
          o ← chars64 3 m (name + 3);
          match o with
          | Some [c4; c5; c6] =>
              if bad_ucs (Z.lor (Z.lor (Z.lor (Z.shiftl (Z.land c3 0x03) 14) (Z.shiftl c4 8)) (Z.shiftl c5 2)) (Z.shiftr c6 4))
              then Ok None else
              c ← rd8 m (name + 6);
              if c =? 45 then Ok (if negb (Z.land c6 0x0f =? 0) then None else Some (name + 6)) else
              o ← chars64 2 m (name + 6);
              match o with
              | Some [c7; c8] =>
                  if bad_ucs (Z.lor (Z.lor (Z.shiftl (Z.land c6 0x0f) 12) (Z.shiftl c7 6)) c8) then Ok None
                  else utf7_loop fuel' m (name + 8) sawutf7
              | _ => Ok None
              end
          | _ => Ok None
          end
      | _ => Ok None
      end
  end.

(** The loop over the name. *)
Fixpoint policy_loop (fuel : nat) (m : bytes) (name : Z) (sawutf7 : bool) : result Z :=
  match fuel with
  | O => Fault OutOfFuel
  | S fuel' =>
      c ← rd8 m name;
      if c =? 0 then Ok 0 else
      if c =? 38 (* & *) then
        (* Modified UTF-7 *)
        o ← utf7_loop fuel' m (name + 1) sawutf7;
        match o with
        | None => Ok IMAP_MAILBOX_BADNAME
        | Some e =>
            (* '&-' is sequence for '&' *)
            b ← rd8 m (e - 1);
            policy_loop fuel' m (e + 1) (negb (b =? 38))
        end
      else if negb (bool_decide (c ∈ GOODCHARS)) && negb (unixhierarchysep && (c =? DOTCHAR)) then Ok IMAP_MAILBOX_BADNAME
      else policy_loop fuel' m (name + 1) false
  end.

Definition mboxname_policycheck (name : bytes) : result Z :=
  n ← strlen_at name 0;
  if MAX_MAILBOX_NAME <? n then Ok IMAP_MAILBOX_BADNAME else
  b ← bad_pattern badmboxpatterns name;
  if (b : bool) then Ok IMAP_MAILBOX_BADNAME else
  c ← rd8 name 0;
  if c =? 126 (* ~ *) then Ok IMAP_MAILBOX_BADNAME else
  policy_loop (S (length name)) name 0 false.
End Names.
