(* ===== verification/MboxPolicy.v ===== *)
(** * MboxPolicy: which names [mboxname_policycheck] accepts

    A name in the language of the check is a sequence of pieces: plain
    characters, "&-" for an ampersand, and shifted sequences of characters
    outside ASCII in modified base64 (RFC 3501, 5.1.3). *)
From S2P Require Import Prelude CMem.
From stdpp Require Import list.
From S2P Require Import CString Glob GlobSpec GlobInit Mboxname.
#[local] Open Scope Z_scope.

(** ** Modified base64 *)

Definition is64 (n : Z) : Prop := 0 ≤ n < 64.

Definition char64 (n : Z) : Z :=
  if n <? 26 then 65 + n else if n <? 52 then 71 + n else if n <? 62 then n - 4 else if n =? 62 then 43 else 44.

(** The [k] digits of [v] in base 64. *)
Fixpoint digits64 (k : nat) (v : Z) : list Z :=
  match k with O => [] | S k' => (v / 64 ^ Z.of_nat k') mod 64 :: digits64 k' v end.

(** Sixteen bits each, in a row, filled up with zero bits. *)
Fixpoint b64 (us : list Z) : list Z :=
  match us with
  | [] => []
  | [u1] => digits64 3 (u1 * 2 ^ 2)
  | [u1; u2] => digits64 6 ((u1 * 2 ^ 16 + u2) * 2 ^ 4)
  | u1 :: u2 :: u3 :: us => digits64 8 ((u1 * 2 ^ 16 + u2) * 2 ^ 16 + u3) ++ b64 us
  end.

(** A UTF-16 unit that is neither ASCII nor half of a pair. *)
Definition unit_ok (u : Z) : Prop := 128 ≤ u < 65536 ∧ ¬ (55296 ≤ u < 57344).

(** Statements about small ranges by going through them. *)
Lemma all_below (n : nat) (P : Z → bool) : forallb P (seqZ 0 (Z.of_nat n)) = true → ∀ i, 0 ≤ i < Z.of_nat n → P i = true.
Proof. intros H i Hi. rewrite forallb_forall in H. apply H, list_elem_of_In, elem_of_seqZ. lia. Qed.

Lemma CHARMOD64_char64 n : is64 n → CHARMOD64 (char64 n) = n.
Proof.
  intros Hn. apply Z.eqb_eq. apply (all_below 64 (λ n, CHARMOD64 (char64 n) =? n)); [by vm_compute|done].
Qed.

Lemma char64_CHARMOD64 c : 0 ≤ c < 256 → CHARMOD64 c ≠ XX → is64 (CHARMOD64 c) ∧ char64 (CHARMOD64 c) = c.
Proof.
  intros Hc Hx.
  assert ((CHARMOD64 c =? XX) || ((0 <=? CHARMOD64 c) && (CHARMOD64 c <? 64) && (char64 (CHARMOD64 c) =? c)) = true) as H.
  { by apply (all_below 256 (λ c, (CHARMOD64 c =? XX) || ((0 <=? CHARMOD64 c) && (CHARMOD64 c <? 64) && (char64 (CHARMOD64 c) =? c)))). }
  destruct (Z.eqb_spec (CHARMOD64 c) XX); [done|]. cbn [orb] in H. rewrite !andb_true_iff in H. unfold is64. lia.
Qed.

Lemma char64_range n : is64 n → 0 < char64 n < 256 ∧ char64 n ≠ 45 ∧ char64 n ≠ 38.
Proof.
  intros Hn. unfold is64, char64 in *. destruct (Z.ltb_spec n 26), (Z.ltb_spec n 52), (Z.ltb_spec n 62), (Z.eqb_spec n 62); lia.
Qed.

Lemma land_high u m k : 0 ≤ k → Z.land u (Z.shiftl m k) = Z.shiftl (Z.land (Z.shiftr u k) m) k.
Proof.
  intros Hk. apply Z.bits_inj'. intros i Hi. rewrite Z.land_spec. destruct (decide (i < k)).
  - by rewrite !Z.shiftl_spec_low, andb_false_r by done.
  - rewrite !Z.shiftl_spec, Z.land_spec, Z.shiftr_spec by lia. by replace (i - k + k) with i by lia.
Qed.

Lemma bad_ucs_ok u : 0 ≤ u < 65536 → bad_ucs u = false ↔ unit_ok u.
Proof.
  intros Hu. unfold unit_ok, bad_ucs.
  change 0xff80 with (Z.shiftl (Z.ones 9) 7). change 0xf800 with (Z.shiftl (Z.ones 5) 11).
  rewrite !land_high, !Z.land_ones, !Z.shiftr_div_pow2, !Z.shiftl_mul_pow2 by done.
  change (2 ^ 7) with 128. change (2 ^ 9) with 512. change (2 ^ 11) with 2048. change (2 ^ 5) with 32.
  rewrite orb_false_iff, !Z.eqb_neq. Z.div_mod_to_equations. lia.
Qed.

(** ** The bits of the three units *)

Lemma lor_add a b k : 0 ≤ k → 0 ≤ b < 2 ^ k → Z.lor (Z.shiftl a k) b = a * 2 ^ k + b.
Proof.
  intros Hk Hb. rewrite <- Z.shiftl_mul_pow2 by done. rewrite <- Z.add_lor_land, (Z.land_comm _ b), land_high by done.
  rewrite Z.shiftr_div_pow2, Z.div_small, Z.land_0_l, Z.shiftl_0_l by lia. lia.
Qed.

Definition unit1 (c1 c2 c3 : Z) : Z := c1 * 1024 + c2 * 16 + c3 / 4.
Definition unit2 (c3 c4 c5 c6 : Z) : Z := c3 mod 4 * 16384 + c4 * 256 + c5 * 4 + c6 / 16.
Definition unit3 (c6 c7 c8 : Z) : Z := c6 mod 16 * 4096 + c7 * 64 + c8.

Lemma unit1_bits c1 c2 c3 : is64 c1 → is64 c2 → is64 c3 →
  Z.lor (Z.lor (Z.shiftl c1 10) (Z.shiftl c2 4)) (Z.shiftr c3 2) = unit1 c1 c2 c3.
Proof.
  unfold is64, unit1. intros H1 H2 H3. rewrite Z.shiftr_div_pow2 by done. change (2 ^ 2) with 4.
  assert (0 ≤ c3 / 4 < 16) by (Z.div_mod_to_equations; lia).
  rewrite <- Z.lor_assoc, (lor_add c2 _ 4), lor_add by lia. lia.
Qed.

Lemma unit2_bits c3 c4 c5 c6 : is64 c3 → is64 c4 → is64 c5 → is64 c6 →
  Z.lor (Z.lor (Z.lor (Z.shiftl (c3 mod 4) 14) (Z.shiftl c4 8)) (Z.shiftl c5 2)) (Z.shiftr c6 4) = unit2 c3 c4 c5 c6.
Proof.
  unfold is64, unit2. intros H1 H2 H3 H4. rewrite Z.shiftr_div_pow2 by done.
  change (2 ^ 4) with 16.
  assert (0 ≤ c6 / 16 < 4) by (Z.div_mod_to_equations; lia). assert (0 ≤ c3 mod 4 < 4) by (Z.div_mod_to_equations; lia).
  rewrite <- !Z.lor_assoc, (lor_add c5 _ 2), (lor_add c4 _ 8), lor_add by lia. lia.
Qed.

Lemma unit3_bits c6 c7 c8 : is64 c6 → is64 c7 → is64 c8 →
  Z.lor (Z.lor (Z.shiftl (c6 mod 16) 12) (Z.shiftl c7 6)) c8 = unit3 c6 c7 c8.
Proof.
  unfold is64, unit3. intros H1 H2 H3.
  assert (0 ≤ c6 mod 16 < 16) by (Z.div_mod_to_equations; lia).
  rewrite <- !Z.lor_assoc, (lor_add c7 _ 6), lor_add by lia. lia.
Qed.

(** The number the digits stand for. *)
Definition value64 (cs : list Z) : Z := fold_left (λ v c, v * 64 + c) cs 0.

Lemma value64_from cs v : fold_left (λ v c, v * 64 + c) cs v = v * 64 ^ Z.of_nat (length cs) + value64 cs.
Proof.
  unfold value64. revert v. induction cs as [|c cs IH]; intros v; cbn [fold_left length]; [cbn; lia|].
  rewrite IH, (IH (0 * 64 + c)), Nat2Z.inj_succ, Z.pow_succ_r by lia. lia.
Qed.

Lemma value64_bound cs : Forall is64 cs → 0 ≤ value64 cs < 64 ^ Z.of_nat (length cs).
Proof.
  induction 1 as [|c cs Hc _ IH]; [done|]. unfold value64. cbn [fold_left length].
  rewrite value64_from, Nat2Z.inj_succ, Z.pow_succ_r by lia. unfold is64 in Hc. nia.
Qed.

Lemma digits64_ok k v : Forall is64 (digits64 k v).
Proof. induction k as [|k IH]; cbn [digits64]; constructor; [apply Z.mod_pos_bound; lia|done]. Qed.

Lemma digits64_value cs : ∀ v, Forall is64 cs → digits64 (length cs) (v * 64 ^ Z.of_nat (length cs) + value64 cs) = cs.
Proof.
  induction cs as [|c cs IH]; intros v H; [done|]. apply Forall_cons in H as [Hc Hcs]. cbn [length digits64].
  unfold value64 at 1 2. cbn [fold_left]. rewrite value64_from, Nat2Z.inj_succ, Z.pow_succ_r by lia.
  pose proof (value64_bound cs Hcs) as Hv. set (n := 64 ^ Z.of_nat (length cs)) in *. set (w := value64 cs) in *.
  replace (v * (64 * n) + ((0 * 64 + c) * n + w)) with ((v * 64 + c) * n + w) by ring.
  rewrite IH by done. f_equal. rewrite Z.div_add_l, (Z.div_small w), Z.add_0_r by lia.
  rewrite Z.add_comm, Z.mod_add by lia. apply Z.mod_small, Hc.
Qed.

Lemma value64_digits k v : 0 ≤ v < 64 ^ Z.of_nat k → value64 (digits64 k v) = v.
Proof.
  intros Hv. assert (∀ w, value64 (digits64 k w) = w mod 64 ^ Z.of_nat k) as ->; [|by apply Z.mod_small].
  clear. induction k as [|k IH]; intros w; cbn [digits64]; [by rewrite Z.mod_1_r|].
  unfold value64. cbn [fold_left]. assert (length (digits64 k w) = k) as Hk by (clear; induction k; cbn; congruence).
  rewrite value64_from, IH, Hk, Nat2Z.inj_succ, Z.pow_succ_r by lia. set (n := 64 ^ Z.of_nat k).
  assert (0 < n) by (apply Z.pow_pos_nonneg; lia). rewrite (Z.mul_comm 64 n), Z.rem_mul_r by lia. lia.
Qed.

(** Three, six and eight digits, as units. *)
Lemma value64_3 c1 c2 c3 : value64 [c1; c2; c3] = unit1 c1 c2 c3 * 4 + c3 mod 4.
Proof. unfold value64, unit1. cbn [fold_left]. Z.div_mod_to_equations. lia. Qed.

Lemma value64_6 c1 c2 c3 c4 c5 c6 :
  value64 [c1; c2; c3; c4; c5; c6] = (unit1 c1 c2 c3 * 65536 + unit2 c3 c4 c5 c6) * 16 + c6 mod 16.
Proof. unfold value64, unit1, unit2. cbn [fold_left]. Z.div_mod_to_equations. lia. Qed.

Lemma value64_8 c1 c2 c3 c4 c5 c6 c7 c8 :
  value64 [c1; c2; c3; c4; c5; c6; c7; c8] = (unit1 c1 c2 c3 * 65536 + unit2 c3 c4 c5 c6) * 65536 + unit3 c6 c7 c8.
Proof. unfold value64, unit1, unit2, unit3. cbn [fold_left]. Z.div_mod_to_equations. lia. Qed.

Lemma units_range c1 c2 c3 c4 : is64 c1 → is64 c2 → is64 c3 → is64 c4 →
  0 ≤ unit1 c1 c2 c3 < 65536 ∧ 0 ≤ unit2 c1 c2 c3 c4 < 65536 ∧ 0 ≤ unit3 c1 c2 c3 < 65536.
Proof. unfold is64, unit1, unit2, unit3. intros H1 H2 H3 H4. Z.div_mod_to_equations. lia. Qed.

Ltac digits H :=
  let H' := fresh in pose proof H as H'; repeat (apply Forall_cons in H' as [? H']); clear H'.

Lemma digits64_3 u1 : unit_ok u1 → ∃ c1 c2 c3, digits64 3 (u1 * 2 ^ 2) = [c1; c2; c3] ∧
  Forall is64 [c1; c2; c3] ∧ unit1 c1 c2 c3 = u1 ∧ c3 mod 4 = 0.
Proof.
  intros [Hu _]. assert (0 ≤ u1 * 2 ^ 2 < 64 ^ Z.of_nat 3) as Hv by (cbn; lia). pose proof (digits64_ok 3 (u1 * 2 ^ 2)) as Hd.
  pose proof (value64_digits 3 _ Hv) as Hw. cbn [digits64] in *. do 3 eexists. split; [reflexivity|]. split; [done|].
  rewrite value64_3 in Hw. digits Hd. pose proof (Z.mod_pos_bound (u1 * 2 ^ 2 / 64 ^ Z.of_nat 0 mod 64) 4). lia.
Qed.

Lemma digits64_6 u1 u2 : unit_ok u1 → unit_ok u2 →
  ∃ c1 c2 c3 c4 c5 c6, digits64 6 ((u1 * 2 ^ 16 + u2) * 2 ^ 4) = [c1; c2; c3; c4; c5; c6] ∧
  Forall is64 [c1; c2; c3; c4; c5; c6] ∧ unit1 c1 c2 c3 = u1 ∧ unit2 c3 c4 c5 c6 = u2 ∧ c6 mod 16 = 0.
Proof.
  intros [Hu1 _] [Hu2 _]. set (v := (u1 * 2 ^ 16 + u2) * 2 ^ 4). assert (0 ≤ v < 64 ^ Z.of_nat 6) as Hv by (unfold v; cbn; lia).
  pose proof (digits64_ok 6 v) as Hd. pose proof (value64_digits 6 _ Hv) as Hw. cbn [digits64] in *.
  do 6 eexists. split; [reflexivity|]. split; [done|]. rewrite value64_6 in Hw. digits Hd.
  match type of Hw with (unit1 ?a ?b ?c * _ + unit2 ?c ?d ?e ?f) * _ + _ = _ =>
    pose proof (units_range a b c c); pose proof (units_range c d e f); pose proof (Z.mod_pos_bound f 16);
    generalize dependent (unit1 a b c); generalize dependent (unit2 c d e f); generalize dependent (f mod 16) end.
  subst v. intuition lia.
Qed.

Lemma digits64_8 u1 u2 u3 : unit_ok u1 → unit_ok u2 → unit_ok u3 →
  ∃ c1 c2 c3 c4 c5 c6 c7 c8,
  digits64 8 ((u1 * 2 ^ 16 + u2) * 2 ^ 16 + u3) = [c1; c2; c3; c4; c5; c6; c7; c8] ∧
  Forall is64 [c1; c2; c3; c4; c5; c6; c7; c8] ∧ unit1 c1 c2 c3 = u1 ∧ unit2 c3 c4 c5 c6 = u2 ∧ unit3 c6 c7 c8 = u3.
Proof.
  intros [Hu1 _] [Hu2 _] [Hu3 _]. set (v := (u1 * 2 ^ 16 + u2) * 2 ^ 16 + u3).
  assert (0 ≤ v < 64 ^ Z.of_nat 8) as Hv by (unfold v; cbn; lia).
  pose proof (digits64_ok 8 v) as Hd. pose proof (value64_digits 8 _ Hv) as Hw. cbn [digits64] in *.
  do 8 eexists. split; [reflexivity|]. split; [done|]. rewrite value64_8 in Hw. digits Hd.
  match type of Hw with (unit1 ?a ?b ?c * _ + unit2 ?c ?d ?e ?f) * _ + unit3 ?f ?g ?h = _ =>
    pose proof (units_range a b c c); pose proof (units_range c d e f); pose proof (units_range f g h h);
    generalize dependent (unit1 a b c); generalize dependent (unit2 c d e f); generalize dependent (unit3 f g h) end.
  subst v. intuition lia.
Qed.

(** And back. *)
Lemma digits64_of cs n : value64 cs = n → Forall is64 cs → digits64 (length cs) n = cs.
Proof. intros <- H. by apply (digits64_value cs 0). Qed.

(** ** Shifted sequences *)

(** The block from which the check reads: [s] is what is left of the name. *)
#[local] Abbreviation block pre s r := (pre ++ s ++ 0 :: r).

Lemma rd8_block pre s r : ∃ c, rd8 (block pre s r) (blen pre) = Ok c ∧ match s with [] => c = 0 | x :: _ => c = x end.
Proof. destruct s as [|x s]; cbn [app]; rewrite rd8_end; eauto. Qed.

Lemma block_move pre (a s r : bytes) : block pre (a ++ s) r = block (pre ++ a) s r.
Proof. by rewrite <- !app_assoc. Qed.

Definition text64 (cs : list Z) : bytes := map char64 cs.

Lemma text64_blen cs : blen (text64 cs) = blen cs.
Proof. unfold blen, text64. by rewrite length_map. Qed.

Lemma text64_cstring cs : Forall is64 cs → is_cstring (text64 cs).
Proof. intros H. apply Forall_map. eapply Forall_impl; [done|]. intros c Hc. by apply char64_range. Qed.

Lemma chars64_ok n pre s r : is_cstring s → ∃ o, chars64 n (block pre s r) (blen pre) = Ok o ∧
  match o with None => True | Some l => length l = n ∧ Forall is64 l ∧ ∃ s', s = text64 l ++ s' end.
Proof.
  revert pre s. induction n as [|n IH]; intros pre s Hs; cbn [chars64]; [exists (Some []); eauto|].
  destruct (rd8_block pre s r) as (c & -> & Hc). cbn [mbind result_bind].
  destruct (Z.eqb_spec (CHARMOD64 c) XX) as [|Hx]; [by exists None|].
  destruct Hs as [|x s Hx' Hs]; [by subst c; destruct Hx|]. subst c. destruct (char64_CHARMOD64 x) as [H64 Hch]; [lia|done|].
  replace (blen pre + 1) with (blen (pre ++ [x])) by blia.
  change (block pre (x :: s) r) with (block pre ([x] ++ s) r). rewrite block_move.
  destruct (IH (pre ++ [x]) s Hs) as (o & -> & Ho). cbn [mbind result_bind]. eexists. split; [reflexivity|].
  destruct o as [l|]; [|done]. destruct Ho as (Hl & Hf & s' & ->). cbn. split_and!; [lia|by constructor|].
  exists s'. by rewrite Hch.
Qed.

Lemma chars64_text cs pre s r : Forall is64 cs → chars64 (length cs) (block pre (text64 cs ++ s) r) (blen pre) = Ok (Some cs).
Proof.
  intros H. revert pre. induction H as [|c cs Hc _ IH]; intros pre; [done|]. cbn [length chars64 text64 map app].
  rewrite rd8_end. cbn [mbind result_bind]. rewrite CHARMOD64_char64 by done.
  destruct (Z.eqb_spec c XX); [unfold is64, XX in *; lia|].
  specialize (IH (pre ++ [char64 c])). rewrite blen_app, <- app_assoc in IH. cbn [app] in IH. change (blen [char64 c]) with 1 in IH.
  fold (text64 cs). by rewrite IH.
Qed.

(** What is in a shifted sequence and behind it, at the offset of its '-'. *)
Definition shifted (pre s : bytes) (saw : bool) (e : Z) (us : list Z) (s' : bytes) : Prop :=
  s = text64 (b64 us) ++ 45 :: s' ∧ Forall unit_ok us ∧ (us = [] ∨ saw = false) ∧ e = blen pre + blen (b64 us).

Lemma head_not_dash cs s x : Forall is64 cs → cs ≠ [] → match text64 cs ++ s with [] => x = 0 | y :: _ => x = y end → x ≠ 45.
Proof. intros [|c cs' Hc _]; [done|]. intros _ ->. cbn. by destruct (char64_range c Hc) as (_ & ? & _). Qed.

Ltac step64 :=
  match goal with
  | |- context [chars64 ?n (block ?pre ?s ?r) (blen ?pre)] =>
      let o := fresh "o" in let E := fresh "E" in
      destruct (chars64_ok n pre s r) as ([o|] & -> & E);
      [done|cbn [mbind result_bind]|cbn [mbind result_bind]; by eexists]
  end.

(** The character behind the digits that have been read. *)
Lemma rd8_behind pre cs s r n : n = blen (text64 cs) →
  ∃ c, rd8 (block pre (text64 cs ++ s) r) (blen pre + n) = Ok c ∧ match s with [] => c = 0 | x :: _ => c = x end.
Proof. intros ->. rewrite block_move, <- blen_app. apply rd8_block. Qed.

Lemma land_3 c : Z.land c 3 = c mod 4.
Proof. change 3 with (Z.ones 2). by rewrite Z.land_ones. Qed.
Lemma land_15 c : Z.land c 15 = c mod 16.
Proof. change 15 with (Z.ones 4). by rewrite Z.land_ones. Qed.

Lemma shifted_end pre cs us s' saw : us = [] ∨ saw = false → b64 us = cs → Forall unit_ok us →
  shifted pre (text64 cs ++ 45 :: s') saw (blen pre + blen cs) us s'.
Proof. intros ? <- ?. by split_and!. Qed.

Lemma is64_app a b : Forall is64 a → Forall is64 b → Forall is64 (a ++ b).
Proof. intros Ha Hb. by apply Forall_app. Qed.

Ltac sizes :=
  repeat match goal with p := _ : bytes |- _ => unfold p in *; clear p end;
  repeat progress rewrite ?blen_app, ?text64_blen, ?blen_cons, ?blen_nil; lia.

Lemma utf7_sound fuel pre s r saw : is_cstring s → (length s < fuel)%nat →
  ∃ o, utf7_loop fuel (block pre s r) (blen pre) saw = Ok o ∧ ∀ e, o = Some e → ∃ us s', shifted pre s saw e us s'.
Proof.
  revert pre s. induction fuel as [|fuel IH]; intros pre s Hs Hf; [lia|]. cbn [utf7_loop].
  destruct (rd8_block pre s r) as (c & -> & Hc). cbn [mbind result_bind].
  destruct (Z.eqb_spec c 45) as [->|_]; [|clear c Hc].
  { destruct s as [|x s]; [done|subst x]. eexists. split; [reflexivity|]. intros e [= <-]. exists [], s.
    rewrite <- (Z.add_0_r (blen pre)). by apply (shifted_end pre [] []); [left| |apply Forall_nil]. }
  destruct saw; [by eexists|].
  step64. destruct E as (Hl & Hd1 & s1 & ->). destruct o as [|c1 [|c2 [|c3 [|]]]]; try done.
  digits Hd1. rewrite unit1_bits, land_3 by done.
  destruct (units_range c1 c2 c3 c3) as (Hu1 & _ & _); [done..|].
  destruct (bad_ucs (unit1 c1 c2 c3)) eqn:Hb1; [by eexists|]. apply bad_ucs_ok in Hb1; [|done].
  destruct (rd8_behind pre [c1; c2; c3] s1 r 3) as (c & -> & Hc); [done|]. cbn [mbind result_bind].
  destruct (Z.eqb_spec c 45) as [->|_]; [|clear c Hc].
  { destruct s1 as [|x s1]; [done|subst x]. destruct (Z.eqb_spec (c3 mod 4) 0) as [Hz|]; [|by eexists].
    eexists. split; [reflexivity|]. intros e [= <-]. exists [unit1 c1 c2 c3], s1.
    apply (shifted_end pre [c1; c2; c3]); [by right| |by apply Forall_singleton].
    apply (digits64_of [c1; c2; c3]); [rewrite value64_3; lia|done]. }
  apply Forall_app in Hs as [_ Hs]. rewrite length_app in Hf. cbn [length text64 map] in Hf.
  rewrite block_move. change (blen pre + 3) with (blen pre + blen (text64 [c1; c2; c3])). rewrite <- blen_app.
  set (pre1 := pre ++ text64 [c1; c2; c3]).
  step64. destruct E as (Hl2 & Hd2 & s2 & ->). destruct o as [|c4 [|c5 [|c6 [|]]]]; try done.
  digits Hd2. rewrite unit2_bits, land_15 by done.
  destruct (units_range c3 c4 c5 c6) as (_ & Hu2 & _); [done..|].
  destruct (bad_ucs (unit2 c3 c4 c5 c6)) eqn:Hb2; [by eexists|]. apply bad_ucs_ok in Hb2; [|done].
  replace (blen pre + 6) with (blen pre1 + 3) by sizes.
  destruct (rd8_behind pre1 [c4; c5; c6] s2 r 3) as (c & -> & Hc); [done|]. cbn [mbind result_bind].
  destruct (Z.eqb_spec c 45) as [->|_]; [|clear c Hc].
  { destruct s2 as [|x s2]; [done|subst x]. destruct (Z.eqb_spec (c6 mod 16) 0) as [Hz|]; [|by eexists].
    eexists. split; [reflexivity|]. intros e [= <-]. exists [unit1 c1 c2 c3; unit2 c3 c4 c5 c6], s2.
    replace (blen pre1 + 3) with (blen pre + blen [c1; c2; c3; c4; c5; c6]) by sizes.
    apply (shifted_end pre [c1; c2; c3; c4; c5; c6]); [by right| |by rewrite !Forall_cons, Forall_nil].
    apply (digits64_of [c1; c2; c3; c4; c5; c6]); [rewrite value64_6; lia|exact (is64_app _ _ Hd1 Hd2)]. }
  apply Forall_app in Hs as [_ Hs]. rewrite length_app in Hf. cbn [length text64 map] in Hf.
  rewrite block_move. change (blen pre1 + 3) with (blen pre1 + blen (text64 [c4; c5; c6])). rewrite <- blen_app.
  set (pre2 := pre1 ++ text64 [c4; c5; c6]).
  step64. destruct E as (Hl3 & Hd3 & s3 & ->). destruct o as [|c7 [|c8 [|]]]; try done.
  digits Hd3. rewrite unit3_bits by done.
  destruct (units_range c6 c7 c8 c8) as (_ & _ & Hu3); [done..|].
  destruct (bad_ucs (unit3 c6 c7 c8)) eqn:Hb3; [by eexists|]. apply bad_ucs_ok in Hb3; [|done].
  apply Forall_app in Hs as [_ Hs]. rewrite length_app in Hf. cbn [length text64 map] in Hf.
  rewrite block_move. replace (blen pre + 8) with (blen (pre2 ++ text64 [c7; c8])) by sizes.
  destruct (IH (pre2 ++ text64 [c7; c8]) s3 Hs) as (o & -> & Ho); [lia|]. eexists. split; [reflexivity|].
  intros e (us & s' & -> & Hus & _ & ->)%Ho. exists (unit1 c1 c2 c3 :: unit2 c3 c4 c5 c6 :: unit3 c6 c7 c8 :: us), s'.
  assert (b64 (unit1 c1 c2 c3 :: unit2 c3 c4 c5 c6 :: unit3 c6 c7 c8 :: us) = [c1; c2; c3; c4; c5; c6; c7; c8] ++ b64 us) as Hb.
  { cbn [b64]. f_equal. apply (digits64_of [c1; c2; c3; c4; c5; c6; c7; c8]); [by rewrite value64_8|].
    exact (is64_app _ _ Hd1 (is64_app _ _ Hd2 Hd3)). }
  split_and!; [by rewrite Hb|by rewrite !Forall_cons|by right|]. rewrite Hb. sizes.
Qed.

Lemma block_split pre cs l t r : block pre (text64 (cs ++ l) ++ t) r = block (pre ++ text64 cs) (text64 l ++ t) r.
Proof. unfold text64. by rewrite map_app, <- !app_assoc. Qed.

Lemma blen_split pre cs : blen pre + blen cs = blen (pre ++ text64 cs).
Proof. by rewrite blen_app, text64_blen. Qed.

(** Reading digits that are in the block: [cs] before, [ds] there, [es] behind. *)
Lemma chars64_in pre l cs ds es t r i k : l = cs ++ ds ++ es → i = blen pre + blen cs → k = length ds → Forall is64 ds →
  chars64 k (block pre (text64 l ++ t) r) i = Ok (Some ds).
Proof.
  intros -> -> -> H. rewrite block_split, blen_split. unfold text64 at 2. rewrite map_app, <- (app_assoc (map _ ds)). by apply chars64_text.
Qed.

Lemma rd8_digit pre l cs d es t r i : l = cs ++ d :: es → i = blen pre + blen cs → is64 d →
  ∃ x, rd8 (block pre (text64 l ++ t) r) i = Ok x ∧ x ≠ 45.
Proof.
  intros -> -> H. rewrite block_split, blen_split. exists (char64 d). split; [apply rd8_end|]. by apply char64_range.
Qed.

Lemma rd8_next pre cs x s r i : i = blen pre + blen cs → rd8 (block pre (text64 cs ++ x :: s) r) i = Ok x.
Proof. intros ->. rewrite block_move, blen_split. apply rd8_end. Qed.

Ltac go64 := cbn [mbind result_bind]; rewrite ?land_3, ?land_15, ?unit1_bits, ?unit2_bits, ?unit3_bits by done.
Ltac digit64 cs d := match goal with |- context [rd8 (block ?pre (text64 ?l ++ ?t) ?r) ?i] =>
  let x := fresh "x" in let Hx := fresh "Hx" in
  destruct (rd8_digit pre l cs d (drop (S (length cs)) l) t r i) as (x & -> & Hx); [done|sizes|done|];
  cbn [mbind result_bind]; destruct (Z.eqb_spec x 45) as [|_]; [done|clear x Hx] end.

(** Units that are right. *)
Lemma not_bad u : unit_ok u → bad_ucs u = false.
Proof. intros H. apply bad_ucs_ok; [unfold unit_ok in H; lia|done]. Qed.

Lemma utf7_complete fuel us pre s' r saw : Forall unit_ok us → us = [] ∨ saw = false → (length us < fuel)%nat →
  utf7_loop fuel (block pre (text64 (b64 us) ++ 45 :: s') r) (blen pre) saw = Ok (Some (blen pre + blen (b64 us))).
Proof.
  revert us pre. induction fuel as [|fuel IH]; intros us pre Hus Hsaw Hf; [lia|]. cbn [utf7_loop].
  destruct us as [|u1 us].
  { cbn [b64 text64 map app]. rewrite rd8_end. cbn [mbind result_bind]. by rewrite Z.add_0_r. }
  destruct Hsaw as [| ->]; [done|]. apply Forall_cons in Hus as [Hu1 Hus]. destruct us as [|u2 us].
  { destruct (digits64_3 u1 Hu1) as (c1 & c2 & c3 & Hd & H64 & Hc & Hz). cbn [b64]. rewrite Hd. digits H64.
    digit64 (@nil Z) c1. rewrite (chars64_in pre _ [] [c1; c2; c3] [] _ _ (blen pre) 3) by first [done | sizes]. go64.
    rewrite Hc, not_bad by done. rewrite (rd8_next pre [c1; c2; c3] _ _ _ (blen pre + 3)) by sizes. cbn [mbind result_bind]. by rewrite Hz. }
  apply Forall_cons in Hus as [Hu2 Hus]. destruct us as [|u3 us].
  { destruct (digits64_6 u1 u2 Hu1 Hu2) as (c1 & c2 & c3 & c4 & c5 & c6 & Hd & H64 & Hc1 & Hc2 & Hz). cbn [b64]. rewrite Hd.
    digits H64. apply (Forall_app _ [_; _; _]) in H64 as [H123 H456]. digit64 (@nil Z) c1.
    rewrite (chars64_in pre _ [] [c1; c2; c3] [c4; c5; c6] _ _ (blen pre) 3) by first [done | sizes]. go64. rewrite Hc1, not_bad by done.
    digit64 [c1; c2; c3] c4. rewrite (chars64_in pre _ [c1; c2; c3] [c4; c5; c6] [] _ _ (blen pre + 3) 3) by first [done | sizes]. go64.
    rewrite Hc2, not_bad by done. rewrite (rd8_next pre [c1; c2; c3; c4; c5; c6] _ _ _ (blen pre + 6)) by sizes. cbn [mbind result_bind]. by rewrite Hz. }
  apply Forall_cons in Hus as [Hu3 Hus].
  destruct (digits64_8 u1 u2 u3 Hu1 Hu2 Hu3) as (c1 & c2 & c3 & c4 & c5 & c6 & c7 & c8 & Hd & H64 & Hc1 & Hc2 & Hc3).
  cbn [b64]. rewrite Hd. digits H64. apply (Forall_app _ [_; _; _]) in H64 as [H123 H64].
  apply (Forall_app _ [_; _; _]) in H64 as [H456 H78]. cbn [app]. digit64 (@nil Z) c1.
  rewrite (chars64_in pre _ [] [c1; c2; c3] ([c4; c5; c6; c7; c8] ++ b64 us) _ _ (blen pre) 3) by first [done | sizes]. go64. rewrite Hc1, not_bad by done.
  digit64 [c1; c2; c3] c4. rewrite (chars64_in pre _ [c1; c2; c3] [c4; c5; c6] ([c7; c8] ++ b64 us) _ _ (blen pre + 3) 3) by first [done | sizes].
  go64. rewrite Hc2, not_bad by done. digit64 [c1; c2; c3; c4; c5; c6] c7.
  rewrite (chars64_in pre _ [c1; c2; c3; c4; c5; c6] [c7; c8] (b64 us) _ _ (blen pre + 6) 2) by first [done | sizes]. go64. rewrite Hc3, not_bad by done.
  set (cs := [c1; c2; c3; c4; c5; c6; c7; c8]).
  replace (blen pre + 8) with (blen (pre ++ text64 cs)) by by rewrite <- blen_split.
  change (c1 :: _) with (cs ++ b64 us). rewrite block_split, IH; [|done|by right|cbn in Hf; lia]. do 2 f_equal. rewrite <- blen_split, blen_app. lia.
Qed.

(** ** Names in pieces *)

Inductive piece := Plain (c : Z) | Ampersand | Shifted (us : list Z).

Definition piece_text (p : piece) : bytes :=
  match p with
  | Plain c => [c]
  | Ampersand => [38; 45]
  | Shifted us => 38 :: text64 (b64 us) ++ [45]
  end.
Definition text (ps : list piece) : bytes := mjoin (piece_text <$> ps).

Definition piece_ok (unixsep : bool) (p : piece) : Prop :=
  match p with
  | Plain c => c ∈ GOODCHARS ∨ (unixsep = true ∧ c = DOTCHAR)
  | Ampersand => True
  | Shifted us => us ≠ [] ∧ Forall unit_ok us
  end.

(** No two shifted sequences next to each other; [saw] says that one comes before. *)
Fixpoint apart (saw : bool) (ps : list piece) : Prop :=
  match ps with
  | [] => True
  | Shifted _ :: ps => saw = false ∧ apart true ps
  | _ :: ps => apart false ps
  end.

Lemma text_cons p ps : text (p :: ps) = piece_text p ++ text ps.
Proof. done. Qed.

Lemma b64_ind (P : list Z → Prop) : P [] → (∀ u1, P [u1]) → (∀ u1 u2, P [u1; u2]) →
  (∀ u1 u2 u3 us, P us → P (u1 :: u2 :: u3 :: us)) → ∀ us, P us.
Proof.
  intros H0 H1 H2 H3. fix IH 1. intros [|u1 [|u2 [|u3 us]]]; [done|done|done|]. apply H3, IH.
Qed.

Lemma b64_ok us : Forall is64 (b64 us).
Proof.
  induction us as [|u1|u1 u2|u1 u2 u3 us IH] using b64_ind; cbn [b64]; [by apply Forall_nil|apply digits64_ok..|].
  apply is64_app; [apply digits64_ok|done].
Qed.

Lemma b64_len us : (length us ≤ length (b64 us))%nat.
Proof. induction us as [|u1|u1 u2|u1 u2 u3 us IH] using b64_ind; cbn in *; lia. Qed.

(** What stands in front of the '-' tells "&-" from the others. *)
Lemma rd8_last pre us x s r : ∃ y,
  rd8 (block (pre ++ [38]) (text64 (b64 us) ++ x :: s) r) (blen (pre ++ [38]) + blen (b64 us) - 1) = Ok y ∧
  (y =? 38) = bool_decide (us = []).
Proof.
  pose proof (b64_ok us) as H64. pose proof (b64_len us) as Hlen. destruct (decide (us = [])) as [->|Hne].
  - exists 38. split; [|done]. cbn [b64 text64 map app]. replace (_ - 1) with (blen pre) by sizes.
    rewrite <- app_assoc. apply rd8_end.
  - destruct (exists_last (l := b64 us)) as (cs & c & E); [intros E; destruct us; [done|]; by rewrite E in Hlen; cbn in Hlen; lia|].
    rewrite E in *. apply Forall_app in H64 as [_ H64]. apply Forall_cons in H64 as [H64 _].
    exists (char64 c). rewrite block_split. replace (_ - 1) with (blen ((pre ++ [38]) ++ text64 cs)) by sizes.
    split; [apply rd8_end|]. rewrite bool_decide_false by done. apply Z.eqb_neq. by destruct (char64_range c H64) as (_ & _ & ?).
Qed.

Lemma shifted_next pre us x s r :
  block (pre ++ [38]) (text64 (b64 us) ++ x :: s) r = block (pre ++ 38 :: text64 (b64 us) ++ [x]) s r ∧
  blen (pre ++ [38]) + blen (b64 us) + 1 = blen (pre ++ 38 :: text64 (b64 us) ++ [x]).
Proof. split; [by rewrite <- !app_assoc; cbn; rewrite <- app_assoc|sizes]. Qed.

Definition decided (z : Z) : Prop := z = 0 ∨ z = IMAP_MAILBOX_BADNAME.

Lemma policy_sound unixsep fuel pre s r saw : is_cstring s → (length s < fuel)%nat →
  ∃ z, policy_loop unixsep fuel (block pre s r) (blen pre) saw = Ok z ∧ decided z ∧
    (z = 0 → ∃ ps, s = text ps ∧ Forall (piece_ok unixsep) ps ∧ apart saw ps).
Proof.
  assert (∀ P : Prop, ∃ z, Ok IMAP_MAILBOX_BADNAME = Ok z ∧ decided z ∧ (z = 0 → P)) as Hbad.
  { intros P. eexists. split; [done|]. split; [by right|done]. }
  revert pre s saw. induction fuel as [|fuel IH]; intros pre s saw Hs Hf; [lia|]. cbn [policy_loop].
  destruct (rd8_block pre s r) as (c & -> & Hc). cbn [mbind result_bind]. destruct Hs as [|x s Hx Hs].
  { subst c. exists 0. split_and!; [done|by left|]. intros _. exists []. by split_and!; [|apply Forall_nil|]. }
  subst c. cbn [length] in Hf. destruct (Z.eqb_spec x 0); [lia|]. destruct (Z.eqb_spec x 38) as [->|Hx38].
  - change (block pre (38 :: s) r) with (block pre ([38] ++ s) r). rewrite block_move.
    replace (blen pre + 1) with (blen (pre ++ [38])) by sizes.
    destruct (utf7_sound fuel (pre ++ [38]) s r saw Hs) as ([e|] & -> & He); [lia| |by apply Hbad].
    cbn [mbind result_bind]. destruct (He e eq_refl) as (us & s' & -> & Hus & Hsaw & ->).
    destruct (rd8_last pre us 45 s' r) as (y & -> & Hy). cbn [mbind result_bind]. rewrite Hy.
    destruct (shifted_next pre us 45 s' r) as [-> ->]. apply Forall_app in Hs as [_ Hs]. apply Forall_cons in Hs as [_ Hs].
    destruct (IH (pre ++ 38 :: text64 (b64 us) ++ [45]) s' (negb (bool_decide (us = []))) Hs) as (z & -> & Hz & Hps).
    { rewrite length_app in Hf. cbn in Hf. lia. }
    exists z. split_and!; [done|done|]. intros (ps & -> & Hps1 & Hps2)%Hps. destruct (decide (us = [])) as [->|Hne].
    + exists (Ampersand :: ps). by split_and!; [|apply Forall_cons|].
    + rewrite bool_decide_false in Hps2 by done. destruct Hsaw as [|Hsaw]; [done|]. exists (Shifted us :: ps).
      split_and!; [|by apply Forall_cons|done]. rewrite text_cons. cbn [piece_text app]. by rewrite <- app_assoc.
  - destruct (bool_decide_reflect (x ∈ GOODCHARS)) as [Hg|Hg]; cbn [negb andb];
      [|destruct (unixsep && (x =? DOTCHAR)) eqn:Hd; cbn [negb]; [|by apply Hbad]];
      (change (block pre (x :: s) r) with (block pre ([x] ++ s) r); rewrite block_move;
       replace (blen pre + 1) with (blen (pre ++ [x])) by sizes;
       destruct (IH (pre ++ [x]) s false Hs) as (z & -> & Hz & Hps); [lia|]; exists z; split_and!; [done|done|];
       intros (ps & -> & Hps1 & Hps2)%Hps; exists (Plain x :: ps); split_and!; [done| |done]; apply Forall_cons; split; [|done]).
    + by left.
    + right. apply andb_true_iff in Hd as [? ?%Z.eqb_eq]. done.
Qed.

Lemma plain_char unixsep c : piece_ok unixsep (Plain c) → c ≠ 0 ∧ c ≠ 38 ∧
  negb (bool_decide (c ∈ GOODCHARS)) && negb (unixsep && (c =? DOTCHAR)) = false.
Proof.
  intros [Hg|[-> ->]]; [|by vm_compute]. assert (bool_decide ((0 ∉ GOODCHARS) ∧ (38 ∉ GOODCHARS)) = true) as H by by vm_compute.
  apply bool_decide_eq_true in H as [? ?]. split_and!; [congruence|congruence|]. by rewrite bool_decide_true.
Qed.

Lemma cons_mid (pre t : bytes) c : pre ++ c :: t = (pre ++ [c]) ++ t.
Proof. by rewrite <- app_assoc. Qed.

Lemma policy_complete unixsep fuel ps pre r saw : Forall (piece_ok unixsep) ps → apart saw ps → (length (text ps) < fuel)%nat →
  policy_loop unixsep fuel (block pre (text ps) r) (blen pre) saw = Ok 0.
Proof.
  revert ps pre saw. induction fuel as [|fuel IH]; intros ps pre saw Hps Ha Hf; [lia|]. cbn [policy_loop].
  assert (∀ us ps, (us = [] ∨ saw = false) → Forall unit_ok us → Forall (piece_ok unixsep) ps →
    apart (negb (bool_decide (us = []))) ps → (length (text64 (b64 us)) + length (text ps) < fuel)%nat →
    (o ← utf7_loop fuel (block (pre ++ [38]) (text64 (b64 us) ++ 45 :: text ps) r) (blen (pre ++ [38])) saw;
     match o with
     | None => Ok IMAP_MAILBOX_BADNAME
     | Some e => b ← rd8 (block (pre ++ [38]) (text64 (b64 us) ++ 45 :: text ps) r) (e - 1);
         policy_loop unixsep fuel (block (pre ++ [38]) (text64 (b64 us) ++ 45 :: text ps) r) (e + 1) (negb (b =? 38))
     end) = Ok 0) as Hsh.
  { intros us ps' Hsaw Hus Hps' Ha' Hf'. pose proof (b64_len us). unfold text64 in Hf'. rewrite length_map in Hf'.
    rewrite utf7_complete by (done || lia). cbn [mbind result_bind].
    destruct (rd8_last pre us 45 (text ps') r) as (y & -> & Hy). cbn [mbind result_bind]. rewrite Hy.
    destruct (shifted_next pre us 45 (text ps') r) as [-> ->]. apply IH; [done|done|lia]. }
  destruct Hps as [|p ps Hp Hps]; [cbn [text mjoin list_join fmap list_fmap app]; by rewrite rd8_end|].
  rewrite text_cons in *. rewrite length_app in Hf. destruct p as [c| |us]; cbn [piece_text apart app length] in *.
  - destruct (plain_char unixsep c Hp) as (H0 & H38 & Hg). rewrite rd8_end. cbn [mbind result_bind].
    destruct (Z.eqb_spec c 0); [done|]. destruct (Z.eqb_spec c 38); [done|]. rewrite Hg.
    rewrite cons_mid.
    replace (blen pre + 1) with (blen (pre ++ [c])) by sizes. apply IH; [done|done|lia].
  - rewrite rd8_end. cbn [mbind result_bind Z.eqb Pos.eqb].
    rewrite cons_mid.
    replace (blen pre + 1) with (blen (pre ++ [38])) by sizes. apply (Hsh [] ps); [by left|by apply Forall_nil|done|done|cbn; lia].
  - rewrite rd8_end. cbn [mbind result_bind Z.eqb Pos.eqb]. destruct Ha as [-> Ha]. destruct Hp as [Hne Hus].
    rewrite cons_mid, <- (app_assoc (text64 _)). replace (blen pre + 1) with (blen (pre ++ [38])) by sizes.
    rewrite length_app in Hf. apply (Hsh us ps); [by right|done|done|by rewrite bool_decide_false|cbn in Hf; lia].
Qed.

(** ** The patterns *)

(** What the patterns exclude. *)
Definition shape_ok (t : bytes) : Prop :=
  t ≠ [] ∧ (9 ∉ t) ∧ (10 ∉ t) ∧ (SLASH ∉ t) ∧ (∀ v, t ≠ DOT :: v) ∧ (∀ u, t ≠ u ++ [DOT]) ∧
  (∀ u v, t ≠ u ++ DOT :: DOT :: v) ∧ t ≠ removelast user_dot.

#[local] Abbreviation old := (gmatch false 46 (same 0)).

Lemma old_literal p q t : Forall (λ c, c ≠ STAR ∧ c ≠ PCT ∧ c ≠ QUEST) p → old (p ++ q) t ↔ ∃ v, t = p ++ v ∧ old q v.
Proof.
  intros H. revert t. induction H as [|c p (H1 & H2 & H3) _ IH]; intros t; cbn [app].
  { split; [by exists t|by intros (v & -> & ?)]. }
  rewrite gmatch_char by done. change (same 0 c) with (Z.eqb c). split.
  - intros (x & v & -> & He & (w & -> & Hw)%IH). exists w. split; [|done]. f_equal.
    apply orb_true_iff in He as [?%Z.eqb_eq|[_ ?%Z.eqb_eq]%andb_true_iff]; [done|done].
  - intros (v & -> & Hv). exists c, (p ++ v). rewrite Z.eqb_refl. split_and!; [done|done|]. apply IH. eauto.
Qed.

Lemma old_whole p t : Forall (λ c, c ≠ STAR ∧ c ≠ PCT ∧ c ≠ QUEST) p → old p t ↔ t = p.
Proof.
  intros H. rewrite <- (app_nil_r p) at 1. rewrite old_literal by done. setoid_rewrite gmatch_nil. split.
  - by intros (v & -> & ->); rewrite app_nil_r.
  - intros ->. exists []. by rewrite app_nil_r.
Qed.

Lemma old_any t : old [STAR] t.
Proof. apply gmatch_star. exists t, []. split; [by rewrite app_nil_r|]. by apply gmatch_nil. Qed.

Lemma old_begins p t : Forall (λ c, c ≠ STAR ∧ c ≠ PCT ∧ c ≠ QUEST) p → old (p ++ [STAR]) t ↔ ∃ v, t = p ++ v.
Proof. intros H. rewrite old_literal by done. split; [by intros (v & -> & _); eauto|]. intros [v ->]. exists v. by split; [|apply old_any]. Qed.

Lemma old_ends p t : Forall (λ c, c ≠ STAR ∧ c ≠ PCT ∧ c ≠ QUEST) p → old (STAR :: p) t ↔ ∃ u, t = u ++ p.
Proof.
  intros H. rewrite gmatch_star. setoid_rewrite old_whole; [|done]. split; [by intros (u & v & -> & ->); eauto|].
  intros [u ->]. by exists u, p.
Qed.

Lemma old_contains p t : Forall (λ c, c ≠ STAR ∧ c ≠ PCT ∧ c ≠ QUEST) p → old (STAR :: p ++ [STAR]) t ↔ ∃ u v, t = u ++ p ++ v.
Proof.
  intros H. rewrite gmatch_star. setoid_rewrite old_begins; [|done]. split; [intros (u & ? & -> & v & ->); eauto|].
  intros (u & v & ->). by exists u, (p ++ v); eauto.
Qed.

Lemma list_elem_of_split_iff (c : Z) t : c ∈ t ↔ ∃ u v, t = u ++ [c] ++ v.
Proof. split; [by intros (u & v & ->)%list_elem_of_split; eauto|]. intros (u & v & ->). rewrite !elem_of_app, list_elem_of_singleton. auto. Qed.

Lemma patterns_ok t : shape_ok t ↔ ¬ Exists (λ p, old p t) badmboxpatterns.
Proof.
  unfold badmboxpatterns, shape_ok. rewrite !Exists_cons, Exists_nil, gmatch_nil.
  change [STAR; 9; STAR] with (STAR :: [9] ++ [STAR]). change [STAR; 10; STAR] with (STAR :: [10] ++ [STAR]).
  change [STAR; SLASH; STAR] with (STAR :: [SLASH] ++ [STAR]). change [DOT; STAR] with ([DOT] ++ [STAR]).
  change [STAR; DOT; DOT; STAR] with (STAR :: [DOT; DOT] ++ [STAR]).
  rewrite (old_contains [9]), (old_contains [10]), (old_contains [SLASH]), (old_contains [DOT; DOT]), (old_begins [DOT]),
    (old_ends [DOT]), (old_whole (removelast user_dot)) by (apply (bool_decide_unpack _); by vm_compute).
  rewrite <- !list_elem_of_split_iff. cbn [app].
  assert (∀ {A} (f : A → bytes), (∀ x, t ≠ f x) ↔ ¬ ∃ x, t = f x) as Hne
    by (intros A f; split; [intros H [x Hx]; by apply (H x)|eauto]).
  assert ((∀ u v, t ≠ u ++ DOT :: DOT :: v) ↔ ¬ ∃ u v, t = u ++ DOT :: DOT :: v) as ->
    by (split; [intros H (u & v & Hx); by apply (H u v)|eauto]).
  rewrite !Hne. tauto.
Qed.

Lemma bad_pattern_ok ps t r : Forall is_cstring ps → is_cstring t → blen t < 2147483648 →
  ∃ b, bad_pattern ps (t ++ 0 :: r) = Ok b ∧ (b = true ↔ Exists (λ p, old p t) ps).
Proof.
  intros Hps Ht Hl. induction Hps as [|p ps Hp _ IH]; cbn [bad_pattern].
  { exists false. split; [done|]. by rewrite Exists_nil. }
  destruct (glob_decides 0 p [] t r eq_refl Hp Ht Hl) as (g & -> & Hg); [by left|]. cbn [mbind result_bind].
  destruct Hg as (b & -> & Hb); [by left|]. cbn [mbind result_bind]. pose proof (Exists_cons (λ p, old p t) p ps) as Hex. pose proof (blen_nonneg t).
  change (flag 0 GLOB_HIERARCHY) with false in Hb. destruct b.
  - destruct (Z.eqb_spec (blen t) (-1)); [lia|]. exists true. split; [done|]. rewrite Hex. tauto.
  - destruct IH as (b & -> & Hb'). exists b. split; [done|]. rewrite Hex, Hb'.
    split; [by auto|]. intros [Ho|]; [by apply Hb in Ho|done].
Qed.

(** ** The check *)

Lemma policycheck_ok unixsep t r : is_cstring t →
  ∃ z, mboxname_policycheck unixsep (t ++ 0 :: r) = Ok z ∧ decided z ∧
    (z = 0 ↔ blen t ≤ MAX_MAILBOX_NAME ∧ shape_ok t ∧ head t ≠ Some 126 ∧
       ∃ ps, t = text ps ∧ Forall (piece_ok unixsep) ps ∧ apart false ps).
Proof.
  intros Ht. unfold mboxname_policycheck. rewrite (strlen_at_ok (t ++ 0 :: r) r 0 t Ht) by (done || apply bytes_at_self).
  cbn [mbind result_bind].
  assert (∀ P Q R : Prop, (¬ P) ∨ (¬ Q) ∨ (¬ R) → ∀ S, ∃ z, Ok IMAP_MAILBOX_BADNAME = Ok z ∧ decided z ∧ (z = 0 ↔ P ∧ Q ∧ R ∧ S)) as Hbad.
  { intros P Q R H S. exists IMAP_MAILBOX_BADNAME. split_and!; [done|by right|]. split; [done|tauto]. }
  destruct (Z.ltb_spec MAX_MAILBOX_NAME (blen t)) as [Hl|Hl]; [apply Hbad; lia|].
  destruct (bad_pattern_ok badmboxpatterns t r) as (b & -> & Hb); [|done|unfold MAX_MAILBOX_NAME in *; lia|].
  { apply (bool_decide_unpack _). by vm_compute. }
  cbn [mbind result_bind]. destruct b; [apply Hbad; right; left; intros Hs%patterns_ok; by apply Hs, Hb|].
  destruct (rd8_block [] t r) as (c & Hc & Hct). cbn [app] in Hc. change (blen []) with 0 in Hc. rewrite Hc. cbn [mbind result_bind].
  assert (¬ Exists (λ p, old p t) badmboxpatterns) as Hno by (intros H%Hb; done).
  destruct (Z.eqb_spec c 126) as [->|Hne].
  { apply Hbad. right. right. destruct t; [done|]. cbn. subst z. intros Hn. by apply Hn. }
  assert (head t ≠ Some 126) as Hh by (destruct t; cbn; congruence).
  assert (length t < S (length (t ++ 0%Z :: r)))%nat as Hf by (rewrite length_app; lia).
  destruct (policy_sound unixsep (S (length (t ++ 0 :: r))) [] t r false Ht Hf) as (z & Hz & Hd & Hps). cbn [app] in Hz.
  change (blen []) with 0 in Hz. exists z. split_and!; [done|done|].
  split; [intros Hz0; split_and!; [done|by apply patterns_ok|done|auto]|]. intros (_ & _ & _ & ps & -> & Hp & Ha).
  pose proof (policy_complete unixsep (S (length (text ps ++ 0 :: r))) ps [] r false Hp Ha Hf) as Hz'. cbn [app] in Hz'.
  change (blen []) with 0 in Hz'. congruence.
Qed.
