(* ===== verification/MboxNames.v ===== *)
(** * MboxNames: what the conversions print

    Each conversion of [imap/mboxname.c] as a function on names without
    buffers, and that the code prints what it gives, inside the buffer. *)
From S2P Require Import Prelude CMem.
From stdpp Require Import list.
From S2P Require Import CString Glob Mboxname.
#[local] Open Scope Z_scope.

(** ** Buffers *)

(** A buffer of the size callers have to give, with the string [s] in it. *)
Definition holds (m s : bytes) : Prop := MAX_MAILBOX_NAME < blen m ∧ is_cstring s ∧ ∃ r, m = s ++ 0 :: r.

Lemma blen_snoc (s : bytes) c : blen (s ++ [c]) = blen s + 1.
Proof. by rewrite blen_app. Qed.

Lemma sprint_ok pre old s : blen s + 1 ≤ blen old →
  ∃ r, sprint (pre ++ old) (blen pre) s = Ok (pre ++ s ++ 0 :: r) ∧ blen (pre ++ s ++ 0 :: r) = blen (pre ++ old).
Proof.
  intros Hl. unfold sprint. pose proof (blen_nonneg pre).
  destruct (Z.leb_spec 0 (blen pre)), (Z.leb_spec (blen pre + blen s + 1) (blen (pre ++ old))); try (rewrite blen_app in *; lia).
  cbn [andb]. destruct (wr_prefix pre old (s ++ [0])) as [r Hr]; [by rewrite blen_snoc|].
  exists r. rewrite Hr, <- app_assoc. split; [done|]. pose proof (blen_wr (pre ++ old) (blen pre) (s ++ [0])) as Hb.
  rewrite Hr, <- app_assoc in Hb. cbn [app] in Hb. rewrite Hb by (rewrite blen_app; pose proof (blen_nonneg old); lia).
  rewrite !blen_app, blen_cons, blen_nil. lia.
Qed.

(** Printing behind a string that is there. *)
Lemma sprint_end m pre s : holds m pre → is_cstring s → blen pre + blen s ≤ MAX_MAILBOX_NAME →
  ∃ m', sprint m (blen pre) s = Ok m' ∧ blen m' = blen m ∧ holds m' (pre ++ s).
Proof.
  intros (Hm & Hpre & r & ->) Hs Hl. destruct (sprint_ok pre (0 :: r) s) as (r' & -> & Hb).
  { rewrite blen_app in Hm. lia. }
  eexists. split; [done|]. split; [done|]. split_and!; [by rewrite Hb|by apply Forall_app|]. exists r'. by rewrite <- app_assoc.
Qed.

(** Printing over it. *)
Lemma sprint_over m s0 s : holds m s0 → is_cstring s → blen s ≤ MAX_MAILBOX_NAME →
  ∃ m', sprint m 0 s = Ok m' ∧ blen m' = blen m ∧ holds m' s.
Proof.
  intros (Hm & _ & _) Hs Hl. destruct (sprint_ok [] m s) as (r' & E & Hb); [lia|]. cbn [app] in *.
  exists (s ++ 0 :: r'). split; [exact E|]. split; [done|]. split_and!; [by rewrite Hb|done|eauto].
Qed.

Lemma holds_blank m : MAX_MAILBOX_NAME < blen m → ∃ m', store8 m 0 0 = Ok m' ∧ blen m' = blen m ∧ holds m' [].
Proof.
  intros Hm. destruct m as [|c m]; [by cbn in Hm|]. exists (0 :: m). split; [apply (store8_ok [] c m 0)|].
  split; [by rewrite !blen_cons|]. split_and!; [by rewrite !blen_cons in *|by apply Forall_nil|eauto].
Qed.

Lemma holds_strlen m s : holds m s → strlen_at m 0 = Ok (blen s).
Proof. intros (_ & Hs & r & ->). apply (strlen_at_ok _ r); [done|done|apply bytes_at_self]. Qed.

Lemma holds_strlen_from m pre s : holds m (pre ++ s) → strlen_at m (blen pre) = Ok (blen s).
Proof.
  intros (_ & Hs & r & ->). apply Forall_app in Hs as [_ Hs]. unfold strlen_at. rewrite <- app_assoc. by rewrite cstr_at_ok.
Qed.

(** ** Separators *)

Definition sep_ok (ns : namespace) : Prop := hier_sep ns = DOT ∨ hier_sep ns = SLASH.
Definition translated (f : Z → Z) (ns : namespace) (s : bytes) : bytes := if hier_sep ns =? SLASH then map f s else s.

Lemma sep_loop_ok fuel f pre s r : is_cstring s → (length s < fuel)%nat →
  sep_loop fuel f (pre ++ s ++ 0 :: r) (blen pre) (blen s) = Ok (pre ++ map f s ++ 0 :: r).
Proof.
  intros Hs. revert fuel pre. induction Hs as [|c s Hc _ IH]; intros fuel pre Hf; (destruct fuel as [|fuel]; [cbn in Hf; lia|]);
    cbn [sep_loop app map]; rewrite rd8_end; cbn [mbind result_bind]; [done|].
  destruct (Z.eqb_spec c 0); [lia|]. pose proof (blen_nonneg s). rewrite blen_cons.
  destruct (Z.eqb_spec (1 + blen s) 0); [lia|]. cbn [orb]. rewrite store8_ok. cbn [mbind result_bind].
  replace (1 + blen s - 1) with (blen s) by lia. specialize (IH fuel (pre ++ [f c])). rewrite blen_app, <- !app_assoc in IH.
  cbn [app] in IH. apply IH. cbn in Hf. lia.
Qed.

Lemma hiersep_ok f ns m pre s : sep_ok ns → holds m (pre ++ s) → is_cstring (map f s) →
  ∃ m', hiersep f ns m (blen pre) 0 = Ok m' ∧ blen m' = blen m ∧ holds m' (pre ++ translated f ns s).
Proof.
  intros Hsep Hm Hf. unfold hiersep, translated. rewrite (holds_strlen_from m pre s Hm). cbn [mbind result_bind Z.eqb].
  assert ((hier_sep ns =? DOT) || (hier_sep ns =? SLASH) = true) as -> by (destruct Hsep as [->| ->]; done).
  cbn [negb]. destruct (Z.eqb_spec (hier_sep ns) SLASH); [|by exists m].
  destruct Hm as (Hm & Hs & r & ->). rewrite <- app_assoc in *. apply Forall_app in Hs as [Hpre Hs].
  rewrite sep_loop_ok; [|done|unfold blen; rewrite Nat2Z.id, !length_app; lia].
  eexists. split; [done|]. assert (blen (pre ++ map f s ++ 0 :: r) = blen (pre ++ s ++ 0 :: r)) as Hb
    by (unfold blen; by rewrite !length_app, length_map).
  split; [done|]. split_and!; [by rewrite Hb|by apply Forall_app|]. exists r. by rewrite <- app_assoc.
Qed.

Lemma sep_in_cstring s : is_cstring s → is_cstring (map sep_in s).
Proof.
  intros H. apply Forall_map. eapply Forall_impl; [done|]. intros c Hc. cbn in *. unfold sep_in, SLASH, DOT, DOTCHAR.
  destruct (c =? 47); [lia|]. destruct (c =? 46); lia.
Qed.

Lemma sep_out_cstring s : is_cstring s → is_cstring (map sep_out s).
Proof.
  intros H. apply Forall_map. eapply Forall_impl; [done|]. intros c Hc. cbn in *. unfold sep_out, DOT, DOTCHAR, SLASH.
  destruct (c =? 46); [lia|]. destruct (c =? 94); lia.
Qed.

Lemma cstring_app a b : is_cstring a → is_cstring b → is_cstring (a ++ b).
Proof. intros Ha Hb. by apply Forall_app. Qed.
Lemma cstring_take n s : is_cstring s → is_cstring (take n s).
Proof. apply Forall_take. Qed.
Lemma cstring_drop n s : is_cstring s → is_cstring (drop n s).
Proof. apply Forall_drop. Qed.

(** ** Positions *)

Lemma chr_pos_ok s c p : chr_pos s c = Some p →
  ∃ u v, s = u ++ c :: v ∧ p = blen u ∧ (c ∉ u).
Proof.
  revert p. induction s as [|x s IH]; intros p; cbn [chr_pos]; [done|]. destruct (Z.eqb_spec x c) as [->|Hne].
  - intros [= <-]. exists [], s. split_and!; [done|done|]. by apply not_elem_of_nil.
  - destruct (chr_pos s c) as [q|]; [|done]. intros [= <-]. destruct (IH q eq_refl) as (u & v & -> & -> & Hu).
    exists (x :: u), v. split_and!; [done|by rewrite blen_cons|]. apply not_elem_of_cons. split; [congruence|done].
Qed.

Lemma rchr_pos_ok s c p : rchr_pos s c = Some p → ∃ u v, s = u ++ c :: v ∧ p = blen u ∧ (c ∉ v).
Proof.
  revert p. induction s as [|x s IH]; intros p; cbn [rchr_pos]; [done|]. destruct (rchr_pos s c) as [q|] eqn:E.
  - intros [= <-]. destruct (IH q eq_refl) as (u & v & -> & -> & Hv). exists (x :: u), v. by rewrite blen_cons.
  - destruct (Z.eqb_spec x c) as [->|]; [|done]. intros [= <-]. exists [], s. split_and!; [done|done|].
    clear IH. revert E. induction s as [|y s IH]; cbn [rchr_pos]; [intros _; by apply not_elem_of_nil|].
    destruct (rchr_pos s c); [done|]. destruct (Z.eqb_spec y c); [done|]. intros _. apply not_elem_of_cons. split; [congruence|by apply IH].
Qed.

Lemma from_blen (u v : bytes) : from (blen u) (u ++ v) = v.
Proof. unfold from, blen. rewrite Nat2Z.id. apply drop_app_length. Qed.

Lemma from_blen_1 (u v : bytes) c : from (blen u + 1) (u ++ c :: v) = v.
Proof.
  replace (blen u + 1) with (blen (u ++ [c])) by (rewrite blen_app; done).
  replace (u ++ c :: v) with ((u ++ [c]) ++ v) by by rewrite <- app_assoc. apply from_blen.
Qed.

Lemma from_cstring i s : is_cstring s → is_cstring (from i s).
Proof. apply cstring_drop. Qed.

Lemma blen_from i s : 0 ≤ i ≤ blen s → blen (from i s) = blen s - i.
Proof. unfold from, blen. rewrite length_drop. lia. Qed.

Lemma prec_take n s : 0 ≤ n → prec n s = take (Z.to_nat n) s.
Proof. unfold prec. destruct (Z.ltb_spec n 0); [lia|done]. Qed.

Lemma blen_prec n s : 0 ≤ n ≤ blen s → blen (prec n s) = n.
Proof. intros H. rewrite prec_take by lia. unfold blen in *. rewrite length_take. lia. Qed.

Lemma prec_cstring n s : is_cstring s → is_cstring (prec n s).
Proof. unfold prec. destruct (n <? 0); [done|apply cstring_take]. Qed.

(** ** The conversions without buffers *)

(** The character at an offset, 0 at the end. *)
Definition at0 (s : bytes) (i : Z) : Z := default 0 (byte_at s i).

Lemma chr_ok s i : 0 ≤ i ≤ blen s → chr s i = Ok (at0 s i).
Proof.
  intros Hi. unfold chr, at0. destruct (decide (i = blen s)) as [->|Hne].
  - rewrite rd8_end. destruct (byte_at s (blen s)) eqn:E; [|done]. apply byte_at_lt in E. lia.
  - destruct (rd8_app_l s [0] i) as (b & -> & ->); [lia|done].
Qed.

Section Names.
Context (virtdomains : bool) (defdomain : option bytes).

Definition domain_of (at_ : bytes → option Z) (ns : namespace) (name : bytes) (userid : option bytes) : option (Z * Z * bytes) :=
  let u := default [] userid in
  if negb virtdomains then Some (blen u, blen name, []) else
  let userlen := default (blen u) (at_ u) in
  let own := match at_ u with
             | Some p => if is_defdomain defdomain (from (p + 1) u) then [] else from (p + 1) u ++ [BANG]
             | None => []
             end in
  if MAX_MAILBOX_NAME <? blen own then None else
  match rchr_pos name AT with
  | None => Some (userlen, blen name, own)
  | Some namelen =>
      let d := tail (from namelen name) in
      if is_defdomain defdomain d then if blen own =? 0 then Some (userlen, namelen, []) else None
      else if ((blen own =? 0) && negb (isadmin ns)) || (negb (blen own =? 0) && negb (strcaseeq (from userlen u) (from namelen name)))
      then None
      else if MAX_MAILBOX_NAME <? blen d + 1 then None else Some (userlen, namelen, d ++ [BANG])
  end.

Definition finds_at (at_ : bytes → option Z) : Prop :=
  at_ [] = None ∧ ∀ u p, at_ u = Some p → ∃ v w, u = v ++ AT :: w ∧ p = blen v.

Lemma chr_finds_at : finds_at (λ u, chr_pos u AT).
Proof using. split; [done|]. intros u p (v & w & -> & -> & _)%chr_pos_ok. eauto. Qed.
Lemma rchr_finds_at : finds_at (λ u, rchr_pos u AT).
Proof using. split; [done|]. intros u p (v & w & -> & -> & _)%rchr_pos_ok. eauto. Qed.

(** The length of a mailbox name ends at its end or at an '@'. *)
Definition name_end (name : bytes) (n : Z) : Prop := n = blen name ∨ byte_at name n = Some AT.

Definition opt_cstring (o : option bytes) : Prop := is_cstring (default [] o).

Lemma snoc_cstring s : is_cstring s → is_cstring (s ++ [BANG]).
Proof using. intros H. apply Forall_app. split; [done|]. by apply Forall_singleton. Qed.

Lemma tail_from s p v w : s = v ++ AT :: w → p = blen v → tail (from p s) = w ∧ from (p + 1) s = w.
Proof using. intros -> ->. by rewrite from_blen, from_blen_1. Qed.

Lemma user_domain_ok at_ userid m : finds_at at_ → opt_cstring userid → holds m [] →
  let u := default [] userid in
  let userlen := default (blen u) (at_ u) in
  let own := match at_ u with
             | Some p => if is_defdomain defdomain (from (p + 1) u) then [] else from (p + 1) u ++ [BANG]
             | None => []
             end in
  ∃ m', blen m' = blen m ∧ 0 ≤ userlen ≤ blen u ∧ is_cstring own ∧
    if MAX_MAILBOX_NAME <? blen own then user_domain defdomain at_ userid m = Ok (m', None)
    else user_domain defdomain at_ userid m = Ok (m', Some (userlen, blen own)) ∧ holds m' own.
Proof using.
  intros [Hnil Hat] Hu Hm u userlen own. unfold user_domain.
  assert (∀ n, 0 ≤ n ≤ blen u → ∃ m', blen m' = blen m ∧ 0 ≤ n ≤ blen u ∧ is_cstring [] ∧
    if MAX_MAILBOX_NAME <? blen (@nil Z) then @Ok (bytes * option (Z * Z)) (m, Some (n, 0)) = Ok (m', None)
    else @Ok (bytes * option (Z * Z)) (m, Some (n, 0)) = Ok (m', Some (n, blen (@nil Z))) ∧ holds m' []) as Hnone.
  { intros n Hn. exists m. split; [done|]. split; [done|]. split; [by apply Forall_nil|]. by split. }
  destruct userid as [u'|]; cbn [default from_option id] in u; subst u.
  2:{ subst userlen own. rewrite Hnil. cbn. apply (Hnone 0). done. }
  subst userlen own. destruct (at_ u') as [p|] eqn:Hp; cbn [default from_option id].
  2:{ apply Hnone. pose proof (blen_nonneg u'). lia. }
  destruct (Hat _ _ Hp) as (v & w & -> & ->). rewrite from_blen_1.
  assert (0 ≤ blen v ≤ blen (v ++ AT :: w)) as Hv by blia.
  destruct (is_defdomain defdomain w); [by apply Hnone|]. apply Forall_app in Hu as [_ Hu]. apply Forall_cons in Hu as [_ Hw].
  rewrite blen_snoc. destruct (Z.ltb_spec MAX_MAILBOX_NAME (blen w + 1)).
  - exists m. split; [done|]. split; [done|]. by split; [apply snoc_cstring|].
  - destruct (sprint_over m [] (w ++ [BANG]) Hm) as (m' & -> & Hb & Hm'); [by apply snoc_cstring|by rewrite blen_snoc|].
    exists m'. split; [done|]. split; [done|]. by split; [apply snoc_cstring|].
Qed.

Lemma domains_ok at_ ns name userid m : finds_at at_ → opt_cstring userid → is_cstring name → holds m [] →
  ∃ m', blen m' = blen m ∧ match domain_of at_ ns name userid with
  | None => domains virtdomains defdomain at_ ns name userid m = Ok (m', None)
  | Some (userlen, namelen, d) =>
      domains virtdomains defdomain at_ ns name userid m = Ok (m', Some (userlen, namelen, blen d)) ∧
      holds m' d ∧ 0 ≤ userlen ≤ blen (default [] userid) ∧ 0 ≤ namelen ≤ blen name ∧ name_end name namelen
  end.
Proof using.
  intros Hat Hu Hname Hm. unfold domains, domain_of. pose proof (blen_nonneg name). pose proof (blen_nonneg (default [] userid)).
  destruct virtdomains; cbn [negb].
  2:{ exists m. split; [done|]. split; [by destruct userid|]. split; [done|]. split; [lia|]. split; [lia|by left]. }
  destruct (user_domain_ok at_ userid m Hat Hu Hm) as (m1 & Hb1 & Hul & Hoc & Hud). set (own := match at_ _ with None => [] | _ => _ end) in *.
  set (ul := default _ (at_ _)) in *. destruct (Z.ltb_spec MAX_MAILBOX_NAME (blen own)).
  { rewrite Hud. by exists m1. }
  destruct Hud as [-> Hm1]. cbn [mbind result_bind]. unfold mbox_domain. destruct (rchr_pos name AT) as [n|] eqn:Hn.
  2:{ exists m1. cbn [mbind result_bind]. split; [done|]. split; [done|]. split; [done|]. split; [done|]. split; [lia|by left]. }
  destruct (rchr_pos_ok _ _ _ Hn) as (v & w & Hv & -> & _).
  destruct (tail_from name (blen v) v w Hv eq_refl) as [-> _].
  assert (0 ≤ blen v ≤ blen name ∧ name_end name (blen v)) as Hnl.
  { subst name. split; [blia|]. right. by rewrite byte_at_app, Z.ltb_irrefl, Z.sub_diag. }
  destruct (is_defdomain defdomain w).
  { destruct (Z.eqb_spec (blen own) 0) as [Ho|]; cbn [negb mbind result_bind]; [|by exists m1].
    exists m1. split; [done|]. split; [by rewrite Ho|]. split; [by destruct own|]. split; [done|]. done. }
  destruct (_ || _); cbn [mbind result_bind]; [by exists m1|].
  destruct (Z.ltb_spec MAX_MAILBOX_NAME (blen w + 1)); cbn [mbind result_bind]; [by exists m1|].
  subst name. apply Forall_app in Hname as [_ Hw]. apply Forall_cons in Hw as [_ Hw].
  destruct (sprint_over m1 own (w ++ [BANG]) Hm1) as (m2 & -> & Hb2 & Hm2); [by apply snoc_cstring|by rewrite blen_snoc|].
  exists m2. cbn [mbind result_bind]. split; [congruence|]. rewrite blen_snoc.
  split; [done|]. split; [done|]. by split.
Qed.

(** *** From external to internal names *)

Definition inbox_name (ns : namespace) (name : bytes) (namelen : Z) : bool :=
  starts_case name inbox_ && ((namelen =? 5) || (at0 name 5 =? hier_sep ns)).

Definition internal_name (ns : namespace) (name : bytes) (userid : option bytes) : option bytes :=
  match domain_of (λ u, rchr_pos u AT) ns name userid with
  | None => None
  | Some (userlen, namelen, d) =>
      if inbox_name ns name namelen then
        if no_inbox ns userid userlen || (MAX_MAILBOX_NAME <? blen d + namelen + userlen) then None
        else Some (d ++ user_dot ++ prec userlen (default [] userid) ++ translated sep_in ns (prec (namelen - 5) (from 5 name)))
      else if MAX_MAILBOX_NAME <? blen d + namelen then None
      else Some (d ++ translated sep_in ns (prec namelen name))
  end.

Definition prefix_name (ns : namespace) (name prefix : bytes) (namelen : Z) : bool :=
  starts_with name (removelast prefix) && ((namelen =? blen prefix - 1) || (at0 name (blen prefix - 1) =? hier_sep ns)).

Definition internal_name_alt (ns : namespace) (name : bytes) (userid : option bytes) : option bytes :=
  match domain_of (λ u, chr_pos u AT) ns name userid with
  | None => None
  | Some (userlen, namelen, d) =>
      let p := prefix_shared ns in
      let q := prefix_user ns in
      let u := prec userlen (default [] userid) in
      if blen p =? 0 then None else
      if prefix_name ns name p namelen then
        if (namelen =? blen p - 1) || (MAX_MAILBOX_NAME <? blen d + namelen - blen p) then None
        else Some (d ++ translated sep_in ns (prec (namelen - blen p) (from (blen p) name)))
      else if blen q =? 0 then None else
      if prefix_name ns name q namelen then
        if (namelen =? blen q - 1) || (MAX_MAILBOX_NAME <? blen d + namelen - blen q + 5) then None
        else Some (d ++ user_dot ++ translated sep_in ns (prec (namelen - blen q) (from (blen q) name)))
      else if no_inbox ns userid userlen || (MAX_MAILBOX_NAME <? blen d + userlen + 5) then None
      else if inbox_name ns name namelen then if at0 name 5 =? hier_sep ns then None else Some (d ++ user_dot ++ u)
      else if MAX_MAILBOX_NAME <? blen d + (5 + userlen) + 6 + namelen then None
      else Some (d ++ user_dot ++ u ++ DOT :: translated sep_in ns (prec namelen name))
  end.

(** What a conversion leaves: the name, or the error. *)
Definition printed (m : bytes) (res : result (Z * bytes)) (o : option bytes) : Prop :=
  ∃ z m', res = Ok (z, m') ∧ blen m' = blen m ∧
    match o with Some t => z = 0 ∧ holds m' t ∧ blen t ≤ MAX_MAILBOX_NAME | None => z = IMAP_MAILBOX_BADNAME end.

Lemma printed_bad m m' : blen m' = blen m → printed m (Ok (IMAP_MAILBOX_BADNAME, m')) None.
Proof using. intros H. by exists IMAP_MAILBOX_BADNAME, m'. Qed.

Lemma printed_ok m m' t : blen m' = blen m → holds m' t → blen t ≤ MAX_MAILBOX_NAME → printed m (Ok (0, m')) (Some t).
Proof using. intros H Ht Hl. by exists 0, m'. Qed.

Lemma starts_case_at s t i c : starts_case s t = true → 0 ≤ i < blen t → byte_at s i = Some c → TOLOWER c = TOLOWER (at0 t i).
Proof using.
  unfold starts_case, at0, byte_at, blen. intros H%bool_decide_eq_true Hi. destruct (Z.ltb_spec i 0); [done|]. intros Hc.
  assert (map TOLOWER (take (length t) s) !! Z.to_nat i = Some (TOLOWER c)) as E.
  { rewrite list_lookup_fmap, lookup_take_lt by lia. by rewrite Hc. }
  rewrite H, list_lookup_fmap in E. destruct (t !! Z.to_nat i); cbn in *; congruence.
Qed.

Lemma starts_case_blen s t : starts_case s t = true → blen t ≤ blen s.
Proof using.
  unfold starts_case, blen. intros H%bool_decide_eq_true%(f_equal length). rewrite !length_map, length_take in H. lia.
Qed.

Lemma starts_with_blen s t : starts_with s t = true → blen t ≤ blen s.
Proof using. unfold starts_with, blen. intros H%bool_decide_eq_true%(f_equal length). rewrite length_take in H. lia. Qed.

Lemma starts_with_at s t i : starts_with s t = true → 0 ≤ i < blen t → byte_at s i = byte_at t i.
Proof using.
  unfold starts_with, blen. intros H%bool_decide_eq_true Hi. rewrite <- H, byte_at_take.
  destruct (Z.ltb_spec i (Z.of_nat (length t))); [done|lia].
Qed.

Lemma inbox_len name n : starts_case name inbox_ = true → name_end name n → 0 ≤ n → 5 ≤ n.
Proof using.
  intros Hs [->|Hn] H0; [by apply (starts_case_blen name inbox_)|]. destruct (Z.ltb_spec n 5) as [Hlt|]; [|lia].
  pose proof (starts_case_at _ _ n AT Hs) as H. change (blen inbox_) with 5 in H. specialize (H ltac:(lia) Hn).
  assert (n = 0 ∨ n = 1 ∨ n = 2 ∨ n = 3 ∨ n = 4) as Hcases by lia.
  by destruct Hcases as [->|[->|[->|[->| ->]]]].
Qed.

Lemma is_inbox_ok ns name n : is_cstring name → is_inbox ns name n = Ok (inbox_name ns name n).
Proof using.
  intros Hname. unfold is_inbox, inbox_name. rewrite (chr_ok name 0) by (pose proof (blen_nonneg name); lia). cbn [mbind result_bind].
  destruct (starts_case name inbox_) eqn:Hs; [|by rewrite andb_false_r]. pose proof (starts_case_blen _ _ Hs) as Hl.
  change (blen inbox_) with 5 in Hl. assert ((at0 name 0 =? 105) || (at0 name 0 =? 73) = true) as ->.
  { destruct (byte_at name 0) as [c|] eqn:Hc; [|destruct (byte_at_is_Some name 0) as [? ?]; [lia|congruence]].
    pose proof (starts_case_at _ _ 0 c Hs ltac:(done) Hc) as H. change (TOLOWER (at0 inbox_ 0)) with 105 in H.
    unfold at0. rewrite Hc. cbn. unfold TOLOWER in H. destruct (Z.leb_spec 65 c), (Z.leb_spec c 90); cbn in H; lia. }
  cbn [andb negb]. destruct (n =? 5); [done|]. rewrite chr_ok by lia. done.
Qed.

Lemma translated_cstring f ns s : (is_cstring s → is_cstring (map f s)) → is_cstring s → is_cstring (translated f ns s).
Proof using. unfold translated. destruct (_ =? _); auto. Qed.

Lemma blen_translated f ns s : blen (translated f ns s) = blen s.
Proof using. unfold translated, blen. destruct (_ =? _); by rewrite ?length_map. Qed.

(** Printing [a ++ s] behind [d] and translating [s]. *)
Lemma print_translated ns m m1 d a s : sep_ok ns → blen m1 = blen m → holds m1 d → is_cstring (a ++ s) →
  blen d + blen (a ++ s) ≤ MAX_MAILBOX_NAME →
  printed m (m ← sprint m1 (blen d) (a ++ s); m ← mboxname_hiersep_tointernal ns m (blen d + blen a) 0; Ok (0, m))
    (Some (d ++ a ++ translated sep_in ns s)).
Proof using.
  intros Hsep Hb Hd Hs Hl. destruct (sprint_end m1 d (a ++ s) Hd Hs Hl) as (m2 & -> & Hb2 & Hm2). cbn [mbind result_bind].
  apply Forall_app in Hs as [Ha Hs]. rewrite app_assoc in Hm2. rewrite <- blen_app.
  destruct (hiersep_ok sep_in ns m2 (d ++ a) s Hsep Hm2) as (m3 & E & Hb3 & Hm3); [by apply sep_in_cstring|].
  unfold mboxname_hiersep_tointernal. rewrite E. cbn [mbind result_bind]. rewrite app_assoc.
  apply printed_ok; [congruence|done|]. rewrite <- app_assoc, !blen_app, blen_translated. rewrite blen_app in Hl. lia.
Qed.

Context (virt_ns : namespace) (Hsep : sep_ok virt_ns).
#[local] Abbreviation ns := virt_ns.

Lemma tointernal_prints name userid m : is_cstring name → opt_cstring userid → MAX_MAILBOX_NAME < blen m →
  printed m (mboxname_tointernal_ virtdomains defdomain ns name userid m) (internal_name ns name userid).
Proof using Hsep.
  intros Hname Hu Hm. unfold mboxname_tointernal_, internal_name.
  destruct (holds_blank m Hm) as (m0 & -> & Hb0 & Hm0). cbn [mbind result_bind].
  destruct (domains_ok _ ns name userid m0 rchr_finds_at Hu Hname Hm0) as (m1 & Hb1 & Hd).
  destruct (domain_of _ ns name userid) as [[[ul nl] d]|]; [|rewrite Hd; apply printed_bad; congruence].
  destruct Hd as (-> & Hm1 & Hul & Hnl & Hend). cbn [mbind result_bind]. rewrite is_inbox_ok by done. cbn [mbind result_bind].
  unfold opt_cstring in Hu. destruct (inbox_name ns name nl) eqn:Hib.
  - unfold inbox_name in Hib. apply andb_true_iff in Hib as [Hib _]. pose proof (inbox_len _ _ Hib Hend ltac:(lia)).
    destruct (no_inbox ns userid ul); cbn [orb]; [apply printed_bad; congruence|].
    destruct (Z.ltb_spec MAX_MAILBOX_NAME (blen d + nl + ul)); [apply printed_bad; congruence|].
    rewrite (app_assoc user_dot), (app_assoc user_dot).
    assert (blen (user_dot ++ prec ul (default [] userid)) = 5 + ul) as Ha by (rewrite blen_app, blen_prec by lia; done).
    replace (blen d + 5 + ul) with (blen d + blen (user_dot ++ prec ul (default [] userid))) by lia.
    apply print_translated; [done|congruence|done|..].
    + apply cstring_app; [apply cstring_app; [by apply (bool_decide_unpack _)|by apply prec_cstring]|by apply prec_cstring, from_cstring].
    + rewrite blen_app, Ha, blen_prec by (rewrite blen_from; lia). lia.
  - destruct (Z.ltb_spec MAX_MAILBOX_NAME (blen d + nl)); [apply printed_bad; congruence|].
    pose proof (print_translated ns m m1 d [] (prec nl name) Hsep ltac:(congruence) Hm1) as Hp. cbn [app] in Hp.
    rewrite blen_nil, Z.add_0_r in Hp. apply Hp; [by apply prec_cstring|]. rewrite blen_prec by lia. lia.
Qed.

(** No '@' in a prefix. *)
Definition prefixes_ok : Prop := (AT ∉ prefix_shared ns) ∧ (AT ∉ prefix_user ns).

Lemma byte_at_elem s i c : byte_at s i = Some c → c ∈ s.
Proof using. unfold byte_at. destruct (i <? 0); [done|]. apply list_elem_of_lookup_2. Qed.

Lemma blen_removelast (s : bytes) : s ≠ [] → blen (removelast s) = blen s - 1.
Proof using.
  intros Hne. destruct (exists_last Hne) as (t & c & ->). rewrite removelast_last, blen_snoc. lia.
Qed.

Lemma elem_removelast (s : bytes) c : c ∈ removelast s → c ∈ s.
Proof using.
  destruct (decide (s = [])) as [->|Hne]; [done|]. destruct (exists_last Hne) as (t & d & ->). rewrite removelast_last, elem_of_app. auto.
Qed.

Lemma prefix_len name p n : p ≠ [] → (AT ∉ p) → starts_with name (removelast p) = true → name_end name n → 0 ≤ n → blen p - 1 ≤ n.
Proof using.
  intros Hp Hat Hs [->|Hn] H0; [apply starts_with_blen in Hs; by rewrite blen_removelast in Hs|].
  destruct (Z.leb_spec (blen p - 1) n) as [|Hlt]; [done|]. rewrite (starts_with_at _ _ n Hs) in Hn by (rewrite blen_removelast; [lia|done]).
  by apply byte_at_elem, elem_removelast in Hn.
Qed.

Lemma has_prefix_ok name p n : p ≠ [] → has_prefix ns name p n = Ok (prefix_name ns name p n).
Proof using.
  intros Hp. unfold has_prefix, prefix_name. destruct (starts_with name (removelast p)) eqn:Hs; [|done]. cbn [negb andb].
  destruct (n =? blen p - 1); [done|]. apply starts_with_blen in Hs. rewrite blen_removelast in Hs by done.
  rewrite chr_ok; [done|]. destruct p; [done|]. pose proof (blen_nonneg p). rewrite blen_cons in *. lia.
Qed.

Lemma blen_zero s : (blen s =? 0) = false → s ≠ [].
Proof using. by intros H ->. Qed.

Lemma personal_prints name userid m m1 ul nl d : is_cstring name → opt_cstring userid → blen m1 = blen m → holds m1 d →
  0 ≤ ul ≤ blen (default [] userid) → 0 ≤ nl ≤ blen name →
  printed m (tointernal_personal ns name userid ul nl (blen d) m1)
    (if no_inbox ns userid ul || (MAX_MAILBOX_NAME <? blen d + ul + 5) then None
     else if inbox_name ns name nl then if at0 name 5 =? hier_sep ns then None else Some (d ++ user_dot ++ prec ul (default [] userid))
     else if MAX_MAILBOX_NAME <? blen d + (5 + ul) + 6 + nl then None
     else Some (d ++ user_dot ++ prec ul (default [] userid) ++ DOT :: translated sep_in ns (prec nl name))).
Proof using Hsep.
  intros Hname Hu Hb1 Hm1 Hul Hnl. unfold tointernal_personal. unfold opt_cstring in Hu.
  destruct (no_inbox ns userid ul); cbn [orb]; [by apply printed_bad|].
  destruct (Z.ltb_spec MAX_MAILBOX_NAME (blen d + ul + 5)); [by apply printed_bad|].
  set (a := user_dot ++ prec ul (default [] userid)).
  assert (blen a = 5 + ul) as Ha by (unfold a; rewrite blen_app, blen_prec by lia; done).
  assert (is_cstring a) as Hac by (apply cstring_app; [by apply (bool_decide_unpack _)|by apply prec_cstring]).
  destruct (sprint_end m1 d a Hm1 Hac) as (m2 & -> & Hb2 & Hm2); [lia|]. cbn [mbind result_bind].
  rewrite is_inbox_ok by done. cbn [mbind result_bind]. destruct (inbox_name ns name nl) eqn:Hib.
  { unfold inbox_name in Hib. apply andb_true_iff in Hib as [Hib _]. pose proof (starts_case_blen _ _ Hib) as H5.
    change (blen inbox_) with 5 in H5. rewrite chr_ok by lia. cbn [mbind result_bind].
    destruct (at0 name 5 =? hier_sep ns); [apply printed_bad; congruence|apply printed_ok; [congruence|done|rewrite blen_app; lia]]. }
  rewrite (holds_strlen_from m2 d a Hm2). cbn [mbind result_bind]. rewrite Ha.
  destruct (Z.ltb_spec MAX_MAILBOX_NAME (blen d + (5 + ul) + 6 + nl)); [apply printed_bad; congruence|]. pose proof (blen_nonneg d).
  assert (blen (prec nl name) = nl) as Hp by (rewrite blen_prec; lia).
  rewrite take_ge by (unfold blen in *; cbn [length]; lia). rewrite <- Ha, <- blen_app.
  replace (blen d + 6 + ul) with (blen (d ++ a) + blen [DOT]) by (rewrite blen_app; change (blen [DOT]) with 1; lia).
  rewrite (app_assoc user_dot). fold a. rewrite (app_assoc d). change (DOT :: prec nl name) with ([DOT] ++ prec nl name).
  apply (print_translated ns m m2 (d ++ a) [DOT] (prec nl name)); [done|congruence|done|..].
  - apply cstring_app; [by apply (bool_decide_unpack _)|by apply prec_cstring].
  - rewrite !blen_app, Hp, Ha. change (blen [DOT]) with 1. lia.
Qed.

Lemma tointernal_alt_prints name userid m : prefixes_ok → is_cstring name → opt_cstring userid → MAX_MAILBOX_NAME < blen m →
  printed m (mboxname_tointernal_alt virtdomains defdomain ns name userid m) (internal_name_alt ns name userid).
Proof using Hsep.
  intros [Hps Hpu] Hname Hu Hm. unfold mboxname_tointernal_alt, internal_name_alt.
  destruct (holds_blank m Hm) as (m0 & -> & Hb0 & Hm0). cbn [mbind result_bind].
  destruct (domains_ok _ ns name userid m0 chr_finds_at Hu Hname Hm0) as (m1 & Hb1 & Hd).
  destruct (domain_of _ ns name userid) as [[[ul nl] d]|]; [|rewrite Hd; apply printed_bad; congruence].
  destruct Hd as (-> & Hm1 & Hul & Hnl & Hend). cbn [mbind result_bind]. assert (blen m1 = blen m) as Hb by congruence.
  assert (∀ a p over, (AT ∉ p) → p ≠ [] → is_cstring a → prefix_name ns name p nl = true →
    (over = false → blen d + blen a + nl - blen p ≤ MAX_MAILBOX_NAME) →
    printed m (if nl =? blen p - 1 then Ok (IMAP_MAILBOX_BADNAME, m1)
               else if (over : bool) then Ok (IMAP_MAILBOX_BADNAME, m1)
               else m ← sprint m1 (blen d) (a ++ prec (nl - blen p) (from (blen p) name));
                    m ← mboxname_hiersep_tointernal ns m (blen d + blen a) 0; Ok (0, m))
      (if (nl =? blen p - 1) || over then None else Some (d ++ a ++ translated sep_in ns (prec (nl - blen p) (from (blen p) name)))))
    as Hcase.
  { intros a p over Hat Hp Hac Hpre Hover. apply andb_true_iff in Hpre as [Hpre _].
    pose proof (prefix_len _ _ _ Hp Hat Hpre Hend ltac:(lia)). pose proof (blen_nonneg p).
    destruct (Z.eqb_spec nl (blen p - 1)); cbn [orb]; [by apply printed_bad|]. destruct over; [by apply printed_bad|].
    specialize (Hover eq_refl). apply print_translated; [done|done|done|..].
    - apply cstring_app; [done|by apply prec_cstring, from_cstring].
    - rewrite blen_app, blen_prec by (rewrite blen_from; lia). lia. }
  destruct (blen (prefix_shared ns) =? 0) eqn:Hs0; [by apply printed_bad|]. apply blen_zero in Hs0.
  rewrite (has_prefix_ok name (prefix_shared ns)) by done. cbn [mbind result_bind]. destruct (prefix_name ns name (prefix_shared ns) nl) eqn:Hpre.
  { pose proof (Hcase [] (prefix_shared ns) (MAX_MAILBOX_NAME <? blen d + nl - blen (prefix_shared ns)) Hps Hs0) as Hc.
    rewrite blen_nil, Z.add_0_r in Hc. apply Hc; [by apply Forall_nil|done|]. intros ?%Z.ltb_ge. lia. }
  destruct (blen (prefix_user ns) =? 0) eqn:Hq0; [by apply printed_bad|]. apply blen_zero in Hq0.
  rewrite has_prefix_ok by done. cbn [mbind result_bind]. destruct (prefix_name ns name (prefix_user ns) nl) eqn:Hpre'.
  { apply (Hcase user_dot); [done|done|by apply (bool_decide_unpack _)|done|]. change (blen user_dot) with 5. intros ?%Z.ltb_ge. lia. }
  by apply personal_prints.
Qed.

(** *** From internal to external names *)

Definition external_name (name : bytes) (userid : option bytes) : option bytes :=
  if MAX_MAILBOX_NAME <? blen name then None else
  let '(domain, base) := name_domain virtdomains name userid in
  match domain with
  | None => Some (translated sep_out ns base)
  | Some d => if MAX_MAILBOX_NAME <? blen base + blen d + 1 then None else Some (translated sep_out ns base ++ AT :: d)
  end.

Lemma name_domain_ok name userid : is_cstring name →
  let '(domain, base) := name_domain virtdomains name userid in is_cstring base ∧ blen base ≤ blen name ∧ opt_cstring domain.
Proof using.
  intros Hname. unfold name_domain. destruct virtdomains; cbn [negb]; [|by split_and!; [|lia|apply Forall_nil]].
  destruct (chr_pos name BANG) as [p|] eqn:Hp; [|by split_and!; [|lia|apply Forall_nil]].
  destruct (chr_pos_ok _ _ _ Hp) as (v & w & -> & -> & _). rewrite from_blen_1, take_blen.
  apply Forall_app in Hname as [Hv Hw]. apply Forall_cons in Hw as [_ Hw].
  split_and!; [done|blia|]. by destruct (match userid with Some _ => _ | None => _ end); [apply Forall_nil|].
Qed.

Lemma toexternal_prints name userid m : is_cstring name → MAX_MAILBOX_NAME < blen m →
  printed m (mboxname_toexternal_ virtdomains ns name userid m) (external_name name userid).
Proof using Hsep.
  intros Hname Hm. unfold mboxname_toexternal_, external_name. destruct (holds_blank m Hm) as (m0 & -> & Hb0 & Hm0).
  cbn [mbind result_bind]. destruct (Z.ltb_spec MAX_MAILBOX_NAME (blen name)); [by apply printed_bad|].
  pose proof (name_domain_ok name userid Hname) as Hd. destruct (name_domain virtdomains name userid) as [domain base].
  destruct Hd as (Hbase & Hle & Hdom). destruct (sprint_over m0 [] base Hm0 Hbase) as (m1 & -> & Hb1 & Hm1); [lia|].
  cbn [mbind result_bind]. destruct (hiersep_ok sep_out ns m1 [] base Hsep Hm1) as (m2 & E & Hb2 & Hm2); [by apply sep_out_cstring|].
  unfold mboxname_hiersep_toexternal. change (blen []) with 0 in E. rewrite E. cbn [mbind result_bind app] in *.
  rewrite (holds_strlen m2 _ Hm2). cbn [mbind result_bind]. rewrite blen_translated.
  destruct domain as [d|]; [|apply printed_ok; [congruence|done|by rewrite blen_translated; lia]].
  destruct (Z.ltb_spec MAX_MAILBOX_NAME (blen base + blen d + 1)); [apply printed_bad; congruence|].
  pose proof (blen_nonneg base). rewrite take_ge by (unfold blen in *; cbn [length]; lia).
  assert (blen (AT :: d) = blen d + 1) as Hat by blia.
  destruct (sprint_end m2 (translated sep_out ns base) (AT :: d) Hm2) as (m3 & E3 & Hb3 & Hm3).
  { apply Forall_cons. split; [done|exact Hdom]. }
  { rewrite blen_translated. lia. }
  rewrite blen_translated in E3. rewrite E3. cbn [mbind result_bind]. apply printed_ok; [congruence|done|].
  rewrite blen_app, blen_translated. lia.
Qed.

(** The alternate one: the name in the user's domain, and what is printed before
    the separators are translated. *)
Definition strip (name u : bytes) : bytes * Z :=
  if negb virtdomains then (name, blen u) else
  match chr_pos u AT with
  | None => (name, blen u)
  | Some p => (if starts_with name (tail (from p u)) && (at0 name (blen (from p u) - 1) =? BANG) then from (blen (from p u)) name else name, p)
  end.

(** Whether the name is below [s] or is [s]. *)
Definition below (starts : bytes → bytes → bool) (name s : bytes) : option bool :=
  if starts name s then if at0 name (blen s) =? 0 then Some false else if at0 name (blen s) =? DOT then Some true else None
  else None.

Definition alt_text (name : bytes) (u : bytes) (userlen : Z) : option bytes :=
  match below starts_case name inbox_, below starts_with name (user_dot ++ take (Z.to_nat userlen) u),
        below starts_with name (removelast user_dot) with
  | Some dot, _, _ => Some (if dot then from 6 name else name)
  | None, Some dot, _ => Some (if dot then from (5 + userlen + 1) name else INBOX_name)
  | None, None, Some dot =>
      if (MAX_MAILBOX_NAME <? blen (prefix_user ns)) || (dot && (MAX_MAILBOX_NAME <? blen (prefix_user ns) + 1 + blen (from 5 name)))
      then None
      else Some (prec (blen (prefix_user ns) - 1) (prefix_user ns) ++ if dot then hier_sep ns :: from 5 name else [])
  | None, None, None =>
      let shared := prefix_shared ns in
      Some (if (if blen shared =? 0 then blen name =? 0 else starts_with name (removelast shared)) then name else shared ++ name)
  end.

Definition external_name_alt (name : bytes) (userid : option bytes) : option bytes :=
  if MAX_MAILBOX_NAME <? blen name then None else
  match userid with
  | None => None
  | Some u => let '(base, userlen) := strip name u in translated sep_out ns <$> alt_text base u userlen
  end.

Lemma under_ok starts name s : (∀ t, starts name t = true → blen t ≤ blen name) → under starts name s = Ok (below starts name s).
Proof using.
  intros Hst. unfold under, below. destruct (starts name s) eqn:E; [|done]. cbn [negb]. rewrite chr_ok; [done|].
  apply Hst in E. pose proof (blen_nonneg s). lia.
Qed.

Lemma strip_ok name u : is_cstring name → strip_domain virtdomains name u = Ok (strip name u).
Proof using.
  intros Hname. unfold strip_domain, strip. destruct virtdomains; [|done]. cbn [negb]. destruct (chr_pos u AT) as [p|] eqn:Hp; [|done].
  destruct (chr_pos_ok _ _ _ Hp) as (v & w & -> & -> & _). rewrite from_blen. cbn [tail]. destruct (starts_with name w) eqn:E; [|done].
  cbn [negb andb]. apply starts_with_blen in E. rewrite blen_cons. replace (1 + blen w - 1) with (blen w) by lia.
  rewrite chr_ok by (pose proof (blen_nonneg w); lia). done.
Qed.

Lemma strip_cstring name u : is_cstring name → is_cstring (strip name u).1 ∧ blen (strip name u).1 ≤ blen name.
Proof using.
  intros Hname. unfold strip. destruct (negb virtdomains); [done|]. destruct (chr_pos u AT); [|done]. cbn [fst].
  destruct (_ && _); [|done]. split; [by apply from_cstring|]. unfold from, blen. rewrite length_drop. lia.
Qed.

Definition prefixes_cstring : Prop :=
  is_cstring (prefix_shared ns) ∧ is_cstring (prefix_user ns) ∧ blen (prefix_shared ns) ≤ MAX_MAILBOX_NAME.

(** [sprint] of a string that may not fit. *)
Definition print_or_fault (m : bytes) (res : result (option bytes)) (t : bytes) : Prop :=
  if blen t <? blen m then ∃ m', res = Ok (Some m') ∧ blen m' = blen m ∧ holds m' t else res = Fault OutOfBounds.

Lemma sprint_all m s0 s : holds m s0 → is_cstring s → print_or_fault m (m ← sprint m 0 s; Ok (Some m)) s.
Proof using.
  intros Hm Hs. unfold print_or_fault. destruct (Z.ltb_spec (blen s) (blen m)).
  - destruct (sprint_ok [] m s) as (r & E & Hb); [lia|]. cbn [app] in *. change (blen []) with 0 in E. rewrite E.
    eexists. split; [done|]. split; [done|]. destruct Hm as (Hm & _). split_and!; [lia|done|by exists r].
  - unfold sprint. destruct (Z.leb_spec (0 + blen s + 1) (blen m)); [lia|]. done.
Qed.

Lemma sprint_both m s0 s1 s : holds m s0 → is_cstring s1 → is_cstring s → blen s1 ≤ MAX_MAILBOX_NAME →
  print_or_fault m (m ← sprint m 0 s1; n ← strlen_at m 0; m ← sprint m n s; Ok (Some m)) (s1 ++ s).
Proof using.
  intros Hm Hs1 Hs Hl. destruct (sprint_over m s0 s1 Hm Hs1 Hl) as (m1 & -> & Hb1 & Hm1). cbn [mbind result_bind].
  rewrite (holds_strlen m1 s1 Hm1). cbn [mbind result_bind]. unfold print_or_fault. rewrite blen_app.
  destruct (Z.ltb_spec (blen s1 + blen s) (blen m)).
  - destruct Hm1 as (Hm1 & _ & r & ->). rewrite blen_app in Hb1. destruct (sprint_ok s1 (0 :: r) s) as (r' & -> & Hb); [lia|].
    cbn [mbind result_bind]. eexists. split; [done|]. split; [rewrite Hb, blen_app; done|].
    rewrite app_assoc. split_and!; [by rewrite <- app_assoc, Hb|by apply cstring_app|by exists r'].
  - unfold sprint. destruct (Z.leb_spec (blen s1 + blen s + 1) (blen m1)); [lia|]. by rewrite andb_false_r.
Qed.

Lemma from_6 name i : is_cstring name → is_cstring (from i name) ∧ blen (from i name) ≤ blen name.
Proof using. intros H. split; [by apply from_cstring|]. unfold from, blen. rewrite length_drop. lia. Qed.

Lemma print_fits m t res : print_or_fault m res t → blen t ≤ MAX_MAILBOX_NAME → MAX_MAILBOX_NAME < blen m →
  ∃ m', res = Ok (Some m') ∧ blen m' = blen m ∧ holds m' t.
Proof using. unfold print_or_fault. intros H Hl Hm. destruct (Z.ltb_spec (blen t) (blen m)); [done|lia]. Qed.

Lemma sep_cstring : is_cstring [hier_sep ns].
Proof using Hsep. apply Forall_singleton. unfold sep_ok, DOT, SLASH in Hsep. lia. Qed.

(** The whole of the conversion but the translation of separators. *)
Definition alt_print (name u : bytes) (userlen : Z) (m : bytes) : result (option bytes) :=
  match below starts_case name inbox_, below starts_with name (user_dot ++ take (Z.to_nat userlen) u),
        below starts_with name (removelast user_dot) with
  | Some dot, _, _ => m ← sprint m 0 (if (dot : bool) then from 6 name else name); Ok (Some m)
  | None, Some dot, _ => m ← sprint m 0 (if (dot : bool) then from (5 + userlen + 1) name else INBOX_name); Ok (Some m)
  | None, None, Some dot =>
      let prefixlen := blen (prefix_user ns) in
      if (MAX_MAILBOX_NAME <? prefixlen) || ((dot : bool) && (MAX_MAILBOX_NAME <? prefixlen + 1 + blen (from 5 name))) then Ok None else
      m ← sprint m 0 (prec (prefixlen - 1) (prefix_user ns));
      resultlen ← strlen_at m 0;
      if dot then m ← sprint m resultlen (hier_sep ns :: from 5 name); Ok (Some m) else Ok (Some m)
  | None, None, None =>
      let shared := prefix_shared ns in
      if (if blen shared =? 0 then blen name =? 0 else starts_with name (removelast shared)) then m ← sprint m 0 name; Ok (Some m)
      else
        m ← sprint m 0 shared;
        resultlen ← strlen_at m 0;
        m ← sprint m resultlen name; Ok (Some m)
  end.

Lemma alt_print_ok name u userlen m : prefixes_cstring → is_cstring name → holds m [] →
  match alt_text name u userlen with
  | None => alt_print name u userlen m = Ok None
  | Some t => is_cstring t ∧ print_or_fault m (alt_print name u userlen m) t
  end.
Proof using Hsep.
  intros (Hps & Hpu & Hpl) Hname Hm. unfold alt_text, alt_print. pose proof sep_cstring as Hsc.
  destruct (below starts_case name inbox_) as [dot|].
  { assert (is_cstring (if dot then from 6 name else name)) as Ht by (destruct dot; [by apply from_cstring|done]).
    split; [done|by apply (sprint_all m [])]. }
  destruct (below starts_with name (user_dot ++ _)) as [dot|].
  { assert (is_cstring (if dot then from (5 + userlen + 1) name else INBOX_name)) as Ht
      by (destruct dot; [by apply from_cstring|by apply (bool_decide_unpack _)]).
    split; [done|by apply (sprint_all m [])]. }
  destruct (below starts_with name (removelast user_dot)) as [dot|].
  - destruct (_ || _) eqn:Hover; [done|]. apply orb_false_iff in Hover as [Hl%Z.ltb_ge _].
    assert (is_cstring (prec (blen (prefix_user ns) - 1) (prefix_user ns))) as Hp by by apply prec_cstring.
    assert (blen (prec (blen (prefix_user ns) - 1) (prefix_user ns)) ≤ blen (prefix_user ns)) as Hle
      by (unfold prec, blen; destruct (_ <? 0); rewrite ?length_take; lia).
    destruct dot.
    + assert (is_cstring (hier_sep ns :: from 5 name)) as Ht by (apply (cstring_app [_]); [done|by apply from_cstring]).
      split; [by apply cstring_app|]. apply (sprint_both m []); [done..|lia].
    + rewrite app_nil_r. split; [done|]. destruct (sprint_over m [] _ Hm Hp) as (m1 & -> & Hb1 & Hm1); [lia|].
      cbn [mbind result_bind]. rewrite (holds_strlen m1 _ Hm1). cbn [mbind result_bind]. unfold print_or_fault.
      destruct Hm as (Hmm & _). destruct (Z.ltb_spec (blen (prec (blen (prefix_user ns) - 1) (prefix_user ns))) (blen m)); [eauto|lia].
  - destruct (if blen (prefix_shared ns) =? 0 then _ else _); [split; [done|by apply (sprint_all m [])]|].
    split; [by apply cstring_app|]. by apply (sprint_both m []).
Qed.

(** The conversion prints what it should when that fits the buffer, and runs over
    the end of it when it does not. *)
Lemma toexternal_alt_result name userid m : prefixes_cstring → is_cstring name → opt_cstring userid → MAX_MAILBOX_NAME < blen m →
  match external_name_alt name userid with
  | None => ∃ m', mboxname_toexternal_alt virtdomains ns name userid m = Ok (IMAP_MAILBOX_BADNAME, m') ∧ blen m' = blen m
  | Some t =>
      if blen t <? blen m
      then ∃ m', mboxname_toexternal_alt virtdomains ns name userid m = Ok (0, m') ∧ blen m' = blen m ∧ holds m' t
      else mboxname_toexternal_alt virtdomains ns name userid m = Fault OutOfBounds
  end.
Proof using Hsep.
  intros Hpre Hname Hu Hm. unfold mboxname_toexternal_alt, external_name_alt.
  destruct (holds_blank m Hm) as (m0 & -> & Hb0 & Hm0). cbn [mbind result_bind].
  destruct (Z.ltb_spec MAX_MAILBOX_NAME (blen name)); [by exists m0|]. destruct userid as [u|]; [|by exists m0].
  rewrite strip_ok by done. cbn [mbind result_bind]. destruct (strip_cstring name u Hname) as [Hb _].
  destruct (strip name u) as [base ul]. cbn [fst] in *.
  rewrite !under_ok by (intros t; first [apply starts_case_blen|apply starts_with_blen]). cbn [mbind result_bind].
  pose proof (alt_print_ok base u ul m0 Hpre Hb Hm0) as Hp. unfold alt_print in Hp. cbv zeta in *.
  destruct (alt_text base u ul) as [t|]; cbn [fmap option_fmap option_map].
  2:{ rewrite Hp. by exists m0. }
  destruct Hp as [Ht Hp]. unfold print_or_fault in Hp. rewrite blen_translated, <- Hb0. destruct (blen t <? blen m0); [|by rewrite Hp].
  destruct Hp as (m1 & -> & Hb1 & Hm1). cbn [mbind result_bind].
  destruct (hiersep_ok sep_out ns m1 [] t Hsep Hm1) as (m2 & E & Hb2 & Hm2); [by apply sep_out_cstring|].
  unfold mboxname_hiersep_toexternal. change (blen []) with 0 in E. rewrite E. cbn [mbind result_bind].
  exists m2. split; [done|]. split; [congruence|done].
Qed.
End Names.
