(* ===== verification/MboxRound.v ===== *)
(** * MboxRound: names there and back

    What a client is shown for a mailbox names that mailbox when the client sends
    it back. *)
From S2P Require Import Prelude CMem.
From stdpp Require Import list.
From S2P Require Import CString Glob Mboxname MboxNames.
#[local] Open Scope Z_scope.

(** ** Separators *)

Lemma sep_in_out c : c ≠ SLASH → sep_in (sep_out c) = c.
Proof.
  unfold sep_in, sep_out, SLASH, DOT, DOTCHAR. intros H.
  destruct (Z.eqb_spec c 46) as [->|]; [done|]. destruct (Z.eqb_spec c 94) as [->|]; [done|].
  destruct (Z.eqb_spec c 47), (Z.eqb_spec c 46); congruence.
Qed.

Lemma translated_back ns s : (SLASH ∉ s) → translated sep_in ns (translated sep_out ns s) = s.
Proof.
  unfold translated. destruct (hier_sep ns =? SLASH); [|done]. intros H. rewrite map_map. rewrite <- (map_id s) at 2.
  apply map_ext_in. intros c Hc. apply sep_in_out. intros ->. by apply H, list_elem_of_In.
Qed.

Lemma elem_translated ns c s : c ∈ translated sep_out ns s → c = SLASH ∨ c = DOT ∨ c ∈ s.
Proof.
  unfold translated. destruct (hier_sep ns =? SLASH); [|auto]. intros (x & -> & Hx)%list_elem_of_fmap.
  unfold sep_out. destruct (x =? DOT); [auto|]. destruct (x =? DOTCHAR); auto.
Qed.

Lemma translated_app f ns a b : translated f ns (a ++ b) = translated f ns a ++ translated f ns b.
Proof. unfold translated. destruct (_ =? _); [apply map_app|done]. Qed.

Lemma translated_id ns s : (DOT ∉ s) → (DOTCHAR ∉ s) → translated sep_out ns s = s.
Proof.
  unfold translated. destruct (_ =? _); [|done]. intros H1 H2. rewrite <- (map_id s) at 2. apply map_ext_in. intros c Hc.
  apply list_elem_of_In in Hc. unfold sep_out. destruct (Z.eqb_spec c DOT) as [->|]; [done|]. by destruct (Z.eqb_spec c DOTCHAR) as [->|].
Qed.

(** The separator stands where there was a dot. *)
Lemma at0_translated ns s i : sep_ok ns → (SLASH ∉ s) → at0 (translated sep_out ns s) i = hier_sep ns ↔ at0 s i = DOT.
Proof.
  intros Hsep Hs. unfold translated, at0. destruct (Z.eqb_spec (hier_sep ns) SLASH) as [E|E].
  2:{ destruct Hsep as [->|]; [done|contradiction]. }
  rewrite E. assert (byte_at (map sep_out s) i = sep_out <$> byte_at s i) as ->.
  { unfold byte_at. destruct (i <? 0); [done|]. apply list_lookup_fmap. }
  destruct (byte_at s i) as [c|] eqn:Hc; [|done]. cbn. apply byte_at_elem in Hc. unfold sep_out.
  destruct (Z.eqb_spec c DOT) as [->|Hd]; [done|]. destruct (Z.eqb_spec c DOTCHAR) as [->|]; [done|].
  split; [intros ->; contradiction|done].
Qed.

Lemma map_take_translated n ns s : map TOLOWER (take n (translated sep_out ns s)) = translated sep_out ns (map TOLOWER (take n s)).
Proof.
  unfold translated. destruct (_ =? _); [|done]. rewrite <- !fmap_take, !map_map. apply map_ext. intros c.
  unfold sep_out, TOLOWER, DOT, DOTCHAR, SLASH.
  destruct (Z.eqb_spec c 46) as [->|]; [done|]. destruct (Z.eqb_spec c 94) as [->|]; [done|].
  destruct (Z.leb_spec 65 c), (Z.leb_spec c 90); cbn [andb]; try done; try (destruct (Z.eqb_spec c 46), (Z.eqb_spec c 94); congruence).
  destruct (Z.eqb_spec (c + 32) 46), (Z.eqb_spec (c + 32) 94); lia || done.
Qed.

Lemma translated_letters ns s t : (DOT ∉ t) → (SLASH ∉ t) → (DOTCHAR ∉ t) → translated sep_out ns s = t ↔ s = t.
Proof.
  intros H1 H2 H3. split; [|intros ->; by apply translated_id]. unfold translated. destruct (_ =? _); [|done]. intros <-.
  symmetry. rewrite <- (map_id s) at 2. apply map_ext_in. intros c Hc%list_elem_of_In. unfold sep_out in *.
  destruct (Z.eqb_spec c DOT) as [->|].
  { exfalso. apply H2, list_elem_of_fmap. by exists DOT. }
  destruct (Z.eqb_spec c DOTCHAR) as [->|]; [|done]. exfalso. apply H1, list_elem_of_fmap. by exists DOTCHAR.
Qed.

(** INBOX, whatever its case, and the names below it. *)
Definition is_inbox_internal (n : bytes) : Prop := starts_case n inbox_ = true ∧ (blen n = 5 ∨ at0 n 5 = DOT).

Lemma inbox_name_translated ns s : sep_ok ns → (SLASH ∉ s) → ¬ is_inbox_internal s →
  ∀ n, (n = 5 → blen s = 5) → inbox_name ns (translated sep_out ns s) n = false.
Proof.
  intros Hsep Hs Hno n Hn. unfold inbox_name. destruct (starts_case _ inbox_) eqn:Hst; [|done]. cbn [andb].
  apply bool_decide_eq_true in Hst. rewrite map_take_translated in Hst.
  apply translated_letters in Hst; [|by apply (bool_decide_unpack _); vm_compute..].
  assert (starts_case s inbox_ = true) as Hst' by by apply bool_decide_eq_true.
  apply orb_false_iff. split; apply Z.eqb_neq; intros E; apply Hno; split; [done|auto|done|right].
  by apply (at0_translated ns s 5 Hsep Hs).
Qed.

Lemma chr_pos_none s c : chr_pos s c = None ↔ c ∉ s.
Proof.
  induction s as [|x s IH]; cbn [chr_pos]; [split; [intros _; by apply not_elem_of_nil|done]|].
  rewrite not_elem_of_cons. destruct (Z.eqb_spec x c) as [->|]; [split; [done|tauto]|].
  destruct (chr_pos s c); cbn; [split; [done|]|]; [intros [_ H]; by apply IH in H|]. rewrite <- IH. split; [auto|done].
Qed.

Lemma rchr_pos_none s c : c ∉ s → rchr_pos s c = None.
Proof.
  intros H. destruct (rchr_pos s c) as [p|] eqn:E; [|done]. destruct (rchr_pos_ok _ _ _ E) as (u & v & -> & _).
  exfalso. apply H. apply elem_of_app. right. by left.
Qed.

Lemma chr_pos_first u v c : c ∉ u → chr_pos (u ++ c :: v) c = Some (blen u).
Proof.
  induction u as [|x u IH]; cbn [chr_pos app]; [by rewrite Z.eqb_refl|]. rewrite not_elem_of_cons. intros [Hne Hu].
  destruct (Z.eqb_spec x c); [congruence|]. rewrite IH by done. cbn. by rewrite blen_cons.
Qed.

Lemma rchr_pos_last u v c : c ∉ v → rchr_pos (u ++ c :: v) c = Some (blen u).
Proof.
  intros Hv. induction u as [|x u IH]; cbn [rchr_pos app]; [by rewrite (rchr_pos_none v), Z.eqb_refl|].
  by rewrite IH, blen_cons.
Qed.

Lemma prec_all s n : n = blen s → prec n s = s.
Proof. intros ->. rewrite prec_take by apply blen_nonneg. unfold blen. rewrite Nat2Z.id. by apply take_ge. Qed.

Lemma prec_app a b : prec (blen a) (a ++ b) = a.
Proof. rewrite prec_take by apply blen_nonneg. apply take_blen. Qed.

(** An '@' behind the name does not make it INBOX. *)
Lemma inbox_name_at ns t d : inbox_name ns (t ++ AT :: d) (blen t) = inbox_name ns t (blen t).
Proof.
  unfold inbox_name. destruct (starts_case t inbox_) eqn:Hst.
  - pose proof (starts_case_blen _ _ Hst) as Hl. change (blen inbox_) with 5 in Hl.
    assert (starts_case (t ++ AT :: d) inbox_ = true) as ->.
    { unfold starts_case in *. rewrite take_app_le; [done|]. unfold blen in Hl. cbn. lia. }
    destruct (Z.eqb_spec (blen t) 5); [done|]. unfold at0. rewrite byte_at_app. destruct (Z.ltb_spec 5 (blen t)); [done|lia].
  - destruct (starts_case (t ++ AT :: d) inbox_) eqn:Hst'; [|done]. exfalso.
    assert (name_end (t ++ AT :: d) (blen t)) as He by (right; by rewrite byte_at_app, Z.ltb_irrefl, Z.sub_diag).
    pose proof (inbox_len _ _ Hst' He (blen_nonneg t)). unfold starts_case in *.
    rewrite take_app_le in Hst' by (unfold blen in *; cbn; lia). congruence.
Qed.

Section Round.
Context (virtdomains : bool) (defdomain : option bytes) (ns : namespace) (Hsep : sep_ok ns).

(** ** The standard namespace *)

(** The mailboxes [dom ++ base] a user can name: without virtual domains any; with
    them those of the domain of the user, or of none when the user has none, and
    an administrator those of any domain. *)
Inductive nameable (userid : option bytes) : bytes → bytes → Prop :=
  | nm_plain base : virtdomains = false → nameable userid [] base
  | nm_own u d base : virtdomains = true → userid = Some (u ++ AT :: d) → (AT ∉ u) → (AT ∉ d) → (BANG ∉ d) →
      is_defdomain defdomain d = false → (AT ∉ base) → nameable userid (d ++ [BANG]) base
  | nm_none base : virtdomains = true → (AT ∉ default [] userid) → (AT ∉ base) → (BANG ∉ base) → nameable userid [] base
  | nm_admin d base : virtdomains = true → (AT ∉ default [] userid) → isadmin ns = true → (AT ∉ d) → (BANG ∉ d) →
      is_defdomain defdomain d = false → nameable userid (d ++ [BANG]) base.

Lemma at_sep : AT ≠ SLASH ∧ AT ≠ DOT.
Proof using. done. Qed.

Lemma at_translated s : (AT ∉ s) → AT ∉ translated sep_out ns s.
Proof using. intros H [?|[?|?]]%elem_translated; by destruct at_sep. Qed.

Lemma external_internal userid dom base : nameable userid dom base → (SLASH ∉ base) → ¬ is_inbox_internal base →
  blen (dom ++ base) ≤ MAX_MAILBOX_NAME →
  ∃ e, external_name virtdomains ns (dom ++ base) userid = Some e ∧ internal_name virtdomains defdomain ns e userid = Some (dom ++ base).
Proof using Hsep.
  intros Hn Hs Hno Hl. unfold external_name. destruct (Z.ltb_spec MAX_MAILBOX_NAME (blen (dom ++ base))); [lia|].
  set (t := translated sep_out ns base). assert (blen t = blen base) as Ht by apply blen_translated.
  assert (∀ ul nl d e, domain_of virtdomains defdomain (λ u, rchr_pos u AT) ns e userid = Some (ul, nl, d) → prec nl e = t →
    inbox_name ns e nl = false → nl = blen t → d = dom → internal_name virtdomains defdomain ns e userid = Some (dom ++ base)) as Hin.
  { intros ul nl d e Hd Hp Hib -> ->. unfold internal_name. rewrite Hd, Hib. rewrite blen_app in Hl.
    destruct (Z.ltb_spec MAX_MAILBOX_NAME (blen dom + blen t)); [lia|]. rewrite Hp. unfold t. by rewrite translated_back. }
  assert (inbox_name ns t (blen t) = false) as Hib by (apply inbox_name_translated; [done..|lia]).
  unfold name_domain. destruct Hn as [base ->|u d base -> -> Hu Hd Hbd Hdef Hat|base -> Hu Hat Hb|d base -> Hu Hadm Hd Hbd Hdef].
  - cbn [negb]. eexists. split; [done|]. apply (Hin (blen (default [] userid)) (blen t) []); [done|by apply prec_all|done..].
  - cbn [negb]. rewrite <- app_assoc in *. cbn [app] in *. rewrite chr_pos_first, chr_pos_first, from_blen_1, take_blen, from_blen_1 by done.
    rewrite bool_decide_true by done. eexists. split; [done|]. fold t.
    apply (Hin (blen u) (blen t) (d ++ [BANG])); [|by apply prec_all|done..].
    unfold domain_of. cbn [negb default from_option id]. rewrite rchr_pos_last, from_blen_1, Hdef by done. rewrite blen_app, blen_cons in Hl.
    rewrite blen_snoc. pose proof (blen_nonneg base).
    destruct (Z.ltb_spec MAX_MAILBOX_NAME (blen d + 1)); [lia|]. by rewrite rchr_pos_none by by apply at_translated.
  - cbn [negb app]. rewrite (proj2 (chr_pos_none base BANG)) by done. eexists. split; [done|]. fold t.
    apply (Hin (blen (default [] userid)) (blen t) []); [|by apply prec_all|done..].
    unfold domain_of. cbn [negb]. rewrite rchr_pos_none by done. cbn. by rewrite rchr_pos_none by by apply at_translated.
  - cbn [negb]. rewrite <- app_assoc in *. cbn [app] in *. rewrite chr_pos_first, from_blen_1, take_blen by done.
    assert (match userid with Some u => match chr_pos u AT with Some p => bool_decide (from (p + 1) u = d) | None => false end
            | None => false end = false) as ->.
    { destruct userid as [u|]; [|done]. by rewrite (proj2 (chr_pos_none u AT)). }
    rewrite blen_app, blen_cons in Hl.
    destruct (Z.ltb_spec MAX_MAILBOX_NAME (blen base + blen d + 1)); [lia|]. eexists. split; [done|]. fold t.
    apply (Hin (blen (default [] userid)) (blen t) (d ++ [BANG])); [|by apply prec_app| |done..].
    + unfold domain_of. cbn [negb]. rewrite (rchr_pos_none (default [] userid)) by done. cbn [default from_option id].
      rewrite rchr_pos_last, from_blen by done. cbn [tail]. rewrite Hdef, Hadm. cbn. pose proof (blen_nonneg base).
      destruct (Z.ltb_spec MAX_MAILBOX_NAME (blen d + 1)); [lia|done].
    + by rewrite inbox_name_at.
Qed.

(** ** The alternate namespace, without virtual domains *)

(** The prefixes [mboxname_init_namespace] makes, of names it accepts. *)
Record alt_prefixes (p q : bytes) : Prop := {
  ap_user : prefix_user ns = p ++ [hier_sep ns];
  ap_shared : prefix_shared ns = q ++ [hier_sep ns];
  ap_seps : (hier_sep ns ∉ p) ∧ (hier_sep ns ∉ q);
  ap_apart : starts_with (p ++ [hier_sep ns]) q = false;
  ap_plain : Forall (λ c, c ≠ DOT ∧ c ≠ DOTCHAR ∧ 0 < c < 256) (p ++ q);
  ap_len : blen p < MAX_NAMESPACE_PREFIX ∧ blen q < MAX_NAMESPACE_PREFIX;
}.

#[local] Abbreviation outer := (translated sep_out ns).
#[local] Abbreviation external u n := (external_name_alt false ns n (Some u)).
#[local] Abbreviation internal u e := (internal_name_alt false defdomain ns e (Some u)).

(** Names of other users and shared names begin with their prefix. *)
Definition prefixed (e : bytes) : bool :=
  prefix_name ns e (prefix_shared ns) (blen e) || prefix_name ns e (prefix_user ns) (blen e).

Lemma starts_with_app a b : starts_with (a ++ b) a = true.
Proof using. apply bool_decide_eq_true. by apply take_app_length. Qed.

Lemma starts_with_split s t : starts_with s t = true → ∃ r, s = t ++ r.
Proof using. intros H%bool_decide_eq_true. exists (drop (length t) s). by rewrite <- H at 1; rewrite take_drop. Qed.

Lemma at0_app a b : at0 (a ++ b) (blen a) = match b with [] => 0 | c :: _ => c end.
Proof using. unfold at0. rewrite byte_at_app, Z.ltb_irrefl, Z.sub_diag. by destruct b. Qed.

Lemma at0_end s i : is_cstring s → 0 ≤ i ≤ blen s → at0 s i = 0 → blen s = i.
Proof using.
  unfold at0. intros Hs Hi. destruct (byte_at s i) as [c|] eqn:E; cbn.
  - intros ->. pose proof (cstring_at _ _ _ Hs E). lia.
  - intros _. destruct (decide (i < blen s)); [|lia]. destruct (byte_at_is_Some s i) as [? ?]; [lia|congruence].
Qed.

Lemma below_self s : below starts_with s s = Some false.
Proof using.
  unfold below. pose proof (starts_with_app s []) as Hs. pose proof (at0_app s []) as Ha. rewrite app_nil_r in *. by rewrite Hs, Ha.
Qed.

Lemma user_not_inbox x : below starts_case (user_dot ++ x) inbox_ = None.
Proof using. done. Qed.

Lemma alt_own u x p q : alt_prefixes p q → (hier_sep ns ∉ u) → (SLASH ∉ x) → ¬ is_inbox_internal x →
  prefixed (outer x) = false → blen (user_dot ++ u ++ DOT :: x) + 5 ≤ MAX_MAILBOX_NAME →
  external u (user_dot ++ u ++ DOT :: x) = Some (outer x) ∧ internal u (outer x) = Some (user_dot ++ u ++ DOT :: x).
Proof using Hsep.
  intros Hp Hu Hx Hno [Hns Hnu]%orb_false_iff Hl. pose proof (blen_nonneg u). pose proof (blen_nonneg x).
  assert (blen (user_dot ++ u ++ DOT :: x) = 5 + blen u + 1 + blen x) as Hb by (rewrite !blen_app, blen_cons; change (blen user_dot) with 5; lia).
  split.
  - unfold external_name_alt. destruct (Z.ltb_spec MAX_MAILBOX_NAME (blen (user_dot ++ u ++ DOT :: x))); [lia|].
    unfold strip. cbn [negb]. unfold alt_text. rewrite user_not_inbox. rewrite (take_ge u) by (unfold blen; lia).
    unfold below. rewrite (app_assoc user_dot u), starts_with_app, at0_app. cbn. do 2 f_equal.
    replace (5 + blen u + 1) with (blen (user_dot ++ u) + 1) by (rewrite blen_app; done).
    exact (from_blen_1 (user_dot ++ u) x DOT).
  - unfold internal_name_alt, domain_of. cbn [negb default from_option id]. rewrite (ap_shared _ _ Hp), (ap_user _ _ Hp) in *.
    rewrite Hns, Hnu, !blen_snoc. pose proof (blen_nonneg p). pose proof (blen_nonneg q).
    destruct (Z.eqb_spec (blen q + 1) 0); [lia|]. destruct (Z.eqb_spec (blen p + 1) 0); [lia|].
    unfold no_inbox. rewrite (proj2 (chr_pos_none u _)) by done. rewrite blen_nil. cbn [orb].
    destruct (Z.ltb_spec MAX_MAILBOX_NAME (0 + blen u + 5)); [lia|]. rewrite inbox_name_translated; [|done..|rewrite blen_translated; lia].
    rewrite blen_translated. destruct (Z.ltb_spec MAX_MAILBOX_NAME (0 + (5 + blen u) + 6 + blen x)); [lia|].
    rewrite prec_all by done. rewrite prec_all by by rewrite blen_translated. by rewrite translated_back.
Qed.

Lemma alt_inbox u p q : alt_prefixes p q → (hier_sep ns ∉ u) → prefixed INBOX_name = false → blen (user_dot ++ u) ≤ MAX_MAILBOX_NAME →
  external u (user_dot ++ u) = Some INBOX_name ∧ internal u INBOX_name = Some (user_dot ++ u).
Proof using Hsep.
  intros Hp Hu [Hns Hnu]%orb_false_iff Hl. change (blen INBOX_name) with 5 in *. pose proof (blen_nonneg u).
  assert (blen (user_dot ++ u) = 5 + blen u) as Hb by by rewrite blen_app. split.
  - unfold external_name_alt. destruct (Z.ltb_spec MAX_MAILBOX_NAME (blen (user_dot ++ u))); [lia|].
    unfold strip. cbn [negb]. unfold alt_text. rewrite user_not_inbox. rewrite (take_ge u) by (unfold blen; lia).
    rewrite below_self. cbn. f_equal.
    apply translated_id; by apply (bool_decide_unpack _); vm_compute.
  - unfold internal_name_alt, domain_of. cbn [negb default from_option id]. rewrite (ap_shared _ _ Hp), (ap_user _ _ Hp) in *.
    change (blen INBOX_name) with 5. rewrite Hns, Hnu, !blen_snoc. pose proof (blen_nonneg p). pose proof (blen_nonneg q).
    destruct (Z.eqb_spec (blen q + 1) 0); [lia|]. destruct (Z.eqb_spec (blen p + 1) 0); [lia|].
    unfold no_inbox. rewrite (proj2 (chr_pos_none u _)) by done. rewrite blen_nil. cbn [orb].
    destruct (Z.ltb_spec MAX_MAILBOX_NAME (0 + blen u + 5)); [lia|]. assert (inbox_name ns INBOX_name 5 = true) as -> by done.
    change (at0 INBOX_name 5) with 0. destruct (Z.eqb_spec 0 (hier_sep ns)); [unfold sep_ok, DOT, SLASH in Hsep; lia|].
    by rewrite prec_all.
Qed.

(** A name with a prefix: [prefix] is followed by the separator. *)
Lemma prefix_name_yes a x : prefix_name ns (a ++ hier_sep ns :: x) (a ++ [hier_sep ns]) (blen (a ++ hier_sep ns :: x)) = true.
Proof using.
  unfold prefix_name. rewrite removelast_last, starts_with_app, blen_snoc. cbn [andb].
  replace (blen a + 1 - 1) with (blen a) by lia. by rewrite at0_app, Z.eqb_refl, orb_true_r.
Qed.

(** What begins with the prefix of users does not begin with the shared one. *)
Lemma prefix_name_no p q x : alt_prefixes p q →
  prefix_name ns (p ++ hier_sep ns :: x) (prefix_shared ns) (blen (p ++ hier_sep ns :: x)) = false.
Proof using.
  intros Hp. unfold prefix_name. rewrite (ap_shared _ _ Hp), removelast_last.
  destruct (starts_with (p ++ hier_sep ns :: x) q) eqn:E; [|done]. exfalso.
  pose proof (ap_apart _ _ Hp) as Ha. destruct (ap_seps _ _ Hp) as [_ Hq].
  replace (p ++ hier_sep ns :: x) with ((p ++ [hier_sep ns]) ++ x) in E by by rewrite <- app_assoc.
  apply bool_decide_eq_true in E. apply bool_decide_eq_false in Ha. destruct (decide (length q ≤ length (p ++ [hier_sep ns]))%nat).
  - rewrite take_app_le in E by done. contradiction.
  - rewrite take_app_ge in E by lia. apply Hq. rewrite <- E. rewrite !elem_of_app, list_elem_of_singleton. auto.
Qed.

Lemma prefix_plain p q a : alt_prefixes p q → a = p ∨ a = q → outer (a ++ [hier_sep ns]) = a ++ [hier_sep ns].
Proof using Hsep.
  intros Hp Ha. rewrite translated_app. f_equal.
  - pose proof (ap_plain _ _ Hp) as [H1 H2]%Forall_app. rewrite list.Forall_forall in H1, H2.
    apply translated_id; intros H; destruct Ha as [->| ->]; (apply H1 in H || apply H2 in H); by destruct H as (? & ? & _).
  - unfold translated. by destruct (Z.eqb_spec (hier_sep ns) SLASH) as [->|].
Qed.

Lemma from_prefix a x : from (blen a + 1) (a ++ hier_sep ns :: x) = x.
Proof using. apply from_blen_1. Qed.

(** Mailboxes of another user. *)
Lemma alt_other u x p q : alt_prefixes p q → (SLASH ∉ x) → below starts_with (user_dot ++ x) (user_dot ++ u) = None →
  blen (p ++ hier_sep ns :: x) + 1 ≤ MAX_MAILBOX_NAME → blen (user_dot ++ x) ≤ MAX_MAILBOX_NAME →
  external u (user_dot ++ x) = Some (p ++ hier_sep ns :: outer x) ∧
  internal u (p ++ hier_sep ns :: outer x) = Some (user_dot ++ x).
Proof using Hsep.
  intros Hp Hx Hown Hl Hl2. rewrite blen_app, blen_cons in Hl. rewrite blen_app in Hl2. change (blen user_dot) with 5 in Hl2.
  pose proof (blen_nonneg p). pose proof (blen_nonneg x).
  assert (outer (p ++ hier_sep ns :: x) = p ++ hier_sep ns :: outer x) as Hout.
  { replace (p ++ hier_sep ns :: x) with ((p ++ [hier_sep ns]) ++ x) by by rewrite <- app_assoc.
    rewrite translated_app, (prefix_plain p q p Hp) by auto. by rewrite <- app_assoc. }
  split.
  - unfold external_name_alt. rewrite blen_app. change (blen user_dot) with 5.
    destruct (Z.ltb_spec MAX_MAILBOX_NAME (5 + blen x)); [lia|]. unfold strip. cbn [negb]. unfold alt_text.
    rewrite user_not_inbox, (take_ge u), Hown by (unfold blen; lia).
    change (below starts_with (user_dot ++ x) (removelast user_dot)) with (Some true).
    change (from 5 (user_dot ++ x)) with x. rewrite (ap_user _ _ Hp), blen_snoc.
    destruct (Z.ltb_spec MAX_MAILBOX_NAME (blen p + 1)); [lia|]. destruct (Z.ltb_spec MAX_MAILBOX_NAME (blen p + 1 + 1 + blen x)); [lia|].
    replace (blen p + 1 - 1) with (blen p) by lia. rewrite prec_app. cbn. by rewrite Hout.
  - unfold internal_name_alt, domain_of. cbn [negb default from_option id]. rewrite (prefix_name_no p q) by done.
    rewrite (ap_shared _ _ Hp), (ap_user _ _ Hp), prefix_name_yes, !blen_snoc, blen_nil, blen_app, blen_cons, blen_translated.
    pose proof (blen_nonneg q). destruct (Z.eqb_spec (blen q + 1) 0); [lia|]. destruct (Z.eqb_spec (blen p + 1) 0); [lia|].
    destruct (Z.eqb_spec (blen p + (1 + blen x)) (blen p + 1 - 1)); [lia|]. cbn [orb].
    destruct (Z.ltb_spec MAX_MAILBOX_NAME (0 + (blen p + (1 + blen x)) - (blen p + 1) + 5)); [lia|].
    rewrite from_prefix, prec_all by (rewrite blen_translated; lia). by rewrite translated_back.
Qed.

(** Shared mailboxes whose name does not begin as the prefix does. *)
Lemma alt_shared u x p q : alt_prefixes p q → is_cstring x → (SLASH ∉ x) → ¬ is_inbox_internal x → x ≠ [] →
  below starts_with x (user_dot ++ u) = None → below starts_with x (removelast user_dot) = None → starts_with x q = false →
  blen x ≤ MAX_MAILBOX_NAME →
  external u x = Some (q ++ hier_sep ns :: outer x) ∧ internal u (q ++ hier_sep ns :: outer x) = Some x.
Proof using Hsep.
  intros Hp Hxc Hx Hno Hne Hown Husr Hq Hl. pose proof (blen_nonneg p). pose proof (blen_nonneg q).
  assert (outer ((q ++ [hier_sep ns]) ++ x) = q ++ hier_sep ns :: outer x) as Hout.
  { rewrite translated_app, (prefix_plain p q q Hp) by auto. by rewrite <- app_assoc. }
  assert (0 < blen x) as Hpos by (destruct x; [done|blia]).
  split.
  - unfold external_name_alt. destruct (Z.ltb_spec MAX_MAILBOX_NAME (blen x)); [lia|]. unfold strip. cbn [negb]. unfold alt_text.
    assert (below starts_case x inbox_ = None) as ->.
    { unfold below. destruct (starts_case x inbox_) eqn:E; [|done]. pose proof (starts_case_blen _ _ E) as H5.
      change (blen inbox_) with 5 in *. destruct (Z.eqb_spec (at0 x 5) 0) as [Hz|]; [|destruct (Z.eqb_spec (at0 x 5) DOT); [|done]].
      - exfalso. apply Hno. split; [done|]. left. by apply (at0_end x 5).
      - exfalso. apply Hno. split; auto. }
    rewrite (take_ge u), Hown, Husr by (unfold blen; lia). rewrite (ap_shared _ _ Hp), blen_snoc, removelast_last, Hq.
    destruct (Z.eqb_spec (blen q + 1) 0); [lia|]. cbn. by rewrite Hout.
  - unfold internal_name_alt, domain_of. cbn [negb default from_option id].
    rewrite (ap_shared _ _ Hp), prefix_name_yes, !blen_snoc, blen_nil, blen_app, blen_cons, blen_translated.
    destruct (Z.eqb_spec (blen q + 1) 0); [lia|].
    destruct (Z.eqb_spec (blen q + (1 + blen x)) (blen q + 1 - 1)); [lia|]. cbn [orb].
    destruct (Z.ltb_spec MAX_MAILBOX_NAME (0 + (blen q + (1 + blen x)) - (blen q + 1))); [lia|].
    rewrite from_prefix, prec_all by (rewrite blen_translated; lia). by rewrite translated_back.
Qed.
End Round.
