(* ===== verification/MboxTheorems.v ===== *)
(** * MboxTheorems: mailbox names

    The theorems about [imap/mboxname.c], applied to small names. *)
From S2P Require Import Prelude CMem.
From stdpp Require Import list.
From S2P Require Import CString Glob GlobInit Mboxname MboxPolicy MboxNames MboxRound.
From Stdlib Require Import Strings.String.
#[local] Open Scope Z_scope.

(** C33: [mboxname_policycheck] reads no further than the NUL and accepts a name
    exactly when it is at most [MAX_MAILBOX_NAME] long, has no empty component,
    tab, newline or '/', is not "user", does not begin with '~', and consists of
    plain characters, "&-", and shifted sequences of UTF-16 units outside ASCII
    that are not surrogates, in the one modified base64 form there is for them,
    with no two of the sequences next to each other. *)
Theorem mboxname_policycheck_decides unixsep t r : is_cstring t →
  ∃ z, mboxname_policycheck unixsep (t ++ 0 :: r) = Ok z ∧ decided z ∧
    (z = 0 ↔ blen t ≤ MAX_MAILBOX_NAME ∧ shape_ok t ∧ head t ≠ Some 126 ∧
       ∃ ps, t = text ps ∧ Forall (piece_ok unixsep) ps ∧ apart false ps).
Proof. apply policycheck_ok. Qed.

(** ** The namespaces *)

Section Init.
Context (vd : bool) (dd : option bytes) (unixsep altns : bool) (up sp : option bytes) (admin : bool) (ns : namespace).
Context (Hns : mboxname_init_namespace unixsep altns up sp admin = inr ns).
(** The prefixes of [imapd.conf] are strings without an '@'. *)
Context (Hprefix : ∀ p, up = Some p ∨ sp = Some p → is_cstring p ∧ (AT ∉ p)).

Lemma good_prefix sep o : bad_prefix sep o = false →
  ∃ p, o = Some p ∧ p ≠ [] ∧ blen p < MAX_NAMESPACE_PREFIX ∧ (sep ∉ p) ∧ delimited sep o = p ++ [sep].
Proof using.
  destruct o as [p|]; [|done]. cbn [bad_prefix]. intros [[H0 Hl]%orb_false_iff Hc]%orb_false_iff. exists p.
  destruct (chr_pos p sep) eqn:E; [done|]. apply chr_pos_none in E. apply Z.leb_gt in Hl.
  split_and!; [done|by intros ->|done|done|]. unfold delimited. cbn [default from_option id]. f_equal. rewrite prec_take by done.
  apply take_ge. unfold blen, MAX_NAMESPACE_PREFIX in *. lia.
Qed.

Lemma init_cases : sep_ok ns ∧
  if isalt ns then ∃ p q, prefix_user ns = p ++ [hier_sep ns] ∧ prefix_shared ns = q ++ [hier_sep ns] ∧
    up = Some p ∧ sp = Some q ∧ p ≠ [] ∧ q ≠ [] ∧ blen p < MAX_NAMESPACE_PREFIX ∧ blen q < MAX_NAMESPACE_PREFIX ∧
    (hier_sep ns ∉ p) ∧ (hier_sep ns ∉ q) ∧ starts_with (p ++ [hier_sep ns]) q = false
  else prefix_user ns = removelast user_dot ++ [hier_sep ns] ∧ prefix_shared ns = [].
Proof using Hns.
  clear Hprefix. unfold mboxname_init_namespace in Hns. set (sep := if unixsep then SLASH else DOT) in *.
  assert (sep = DOT ∨ sep = SLASH) as Hs by (subst sep; destruct unixsep; auto).
  destruct (negb admin && altns); [|injection Hns as <-; by split].
  destruct (bad_prefix sep up) eqn:Hu; [done|]. destruct (bad_prefix sep sp) eqn:Hsp; [done|].
  destruct (good_prefix _ _ Hu) as (p & -> & Hp0 & Hp1 & Hp2 & Hp3).
  destruct (good_prefix _ _ Hsp) as (q & -> & Hq0 & Hq1 & Hq2 & Hq3). rewrite Hp3, Hq3 in *. cbn [orb default from_option id] in Hns.
  destruct (starts_with (p ++ [sep]) q) eqn:E; [done|]. injection Hns as <-. split; [done|]. cbn. by exists p, q.
Qed.

Lemma init_sep : sep_ok ns.
Proof using Hns. apply init_cases. Qed.

Lemma init_prefixes : isalt ns = true → prefixes_ok ns ∧ prefixes_cstring ns.
Proof using Hns Hprefix.
  intros Ha. destruct init_cases as [Hsep H]. rewrite Ha in H. destruct H as (p & q & Hpu & Hps & -> & -> & _ & _ & Hlp & Hlq & _).
  destruct (Hprefix p) as [Hpc Hpa]; [by left|]. destruct (Hprefix q) as [Hqc Hqa]; [by right|].
  assert (is_cstring [hier_sep ns] ∧ (AT ∉ [hier_sep ns])) as [Hsc Hsa].
  { rewrite list_elem_of_singleton. unfold sep_ok, DOT, SLASH in Hsep. split; [apply Forall_singleton|unfold AT]; lia. }
  unfold prefixes_ok, prefixes_cstring. rewrite Hpu, Hps, !elem_of_app, blen_snoc.
  split; [tauto|]. split; [by apply cstring_app|]. split; [by apply cstring_app|]. unfold MAX_MAILBOX_NAME, MAX_NAMESPACE_PREFIX in *. lia.
Qed.

Lemma init_alt_prefixes p q : isalt ns = true → up = Some p → sp = Some q →
  Forall (λ c, c ≠ DOT ∧ c ≠ DOTCHAR) (p ++ q) → alt_prefixes ns p q.
Proof using Hns Hprefix.
  intros Ha Hp Hq Hpl. destruct init_cases as [Hsep H]. rewrite Ha in H.
  destruct H as (p' & q' & Hpu & Hps & E1 & E2 & _ & _ & Hlp & Hlq & Hnp & Hnq & Hap).
  assert (p' = p) as -> by congruence. assert (q' = q) as -> by congruence.
  destruct (Hprefix p) as [Hpc _]; [by left|]. destruct (Hprefix q) as [Hqc _]; [by right|]. split; try done.
  assert (is_cstring (p ++ q)) as Hc by by apply cstring_app. unfold is_cstring in Hc. rewrite list.Forall_forall in Hc, Hpl |- *.
  intros c Hin. specialize (Hpl c Hin). specialize (Hc c Hin). destruct Hpl, Hc. by split_and!.
Qed.

(** C35: whatever the name, the user and the configuration of domains, a buffer of
    [MAX_MAILBOX_NAME] + 1 bytes is enough for the conversion to internal names,
    in both namespaces, and for that to external names in the standard one; they
    return 0 with a name of at most [MAX_MAILBOX_NAME] bytes in it, or
    [IMAP_MAILBOX_BADNAME].  In the alternate namespace the conversion to external
    names is not bounded: it writes past the end of the buffer exactly when what
    it has to print does not fit, which happens to long names of shared
    mailboxes. *)
Theorem conversions_fit name userid m : is_cstring name → opt_cstring userid → MAX_MAILBOX_NAME < blen m →
  (∃ z m', mboxname_tointernal vd dd ns name userid m = Ok (z, m') ∧ blen m' = blen m ∧
     (z = IMAP_MAILBOX_BADNAME ∨ z = 0 ∧ ∃ t, holds m' t ∧ blen t ≤ MAX_MAILBOX_NAME)) ∧
  (isalt ns = false →
   ∃ z m', mboxname_toexternal vd ns name userid m = Ok (z, m') ∧ blen m' = blen m ∧
     (z = IMAP_MAILBOX_BADNAME ∨ z = 0 ∧ ∃ t, holds m' t ∧ blen t ≤ MAX_MAILBOX_NAME)) ∧
  (isalt ns = true →
   mboxname_toexternal vd ns name userid m = Fault OutOfBounds ↔
     ∃ t, external_name_alt vd ns name userid = Some t ∧ blen m ≤ blen t).
Proof using Hns Hprefix.
  intros Hname Hu Hm. pose proof init_sep as Hsep.
  assert (∀ res o, printed m res o → ∃ z m', res = Ok (z, m') ∧ blen m' = blen m ∧
    (z = IMAP_MAILBOX_BADNAME ∨ z = 0 ∧ ∃ t, holds m' t ∧ blen t ≤ MAX_MAILBOX_NAME)) as Hpr.
  { intros res o (z & m' & -> & Hb & Ho). exists z, m'. split; [done|]. split; [done|]. destruct o as [t|]; [|by left].
    destruct Ho as (-> & Ht & Hl). right. split; [done|]. by exists t. }
  unfold mboxname_tointernal, mboxname_toexternal. destruct (isalt ns) eqn:Ha.
  - destruct (init_prefixes Ha) as [Hat Hpc]. split; [by eapply Hpr, tointernal_alt_prints|]. split; [done|]. intros _.
    pose proof (toexternal_alt_result vd ns Hsep name userid m Hpc Hname Hu Hm) as H.
    destruct (external_name_alt vd ns name userid) as [t|].
    + destruct (Z.ltb_spec (blen t) (blen m)).
      * destruct H as (m' & -> & _). split; [done|]. intros (t' & [= <-] & ?). lia.
      * rewrite H. split; [|done]. intros _. by exists t.
    + destruct H as (m' & -> & _). split; [done|]. by intros (t & ? & _).
  - split; [by eapply Hpr, tointernal_prints|]. split; [|done]. intros _. by eapply Hpr, toexternal_prints.
Qed.

(** ** There and back *)

(** Internal names of mailboxes, after their domain, that a user can refer to. *)
Inductive addressable (userid : option bytes) : bytes → bytes → Prop :=
  | ad_standard d base : isalt ns = false → nameable vd dd ns userid d base → ¬ is_inbox_internal base → addressable userid d base
  | ad_inbox u : isalt ns = true → vd = false → userid = Some u → (hier_sep ns ∉ u) → prefixed ns INBOX_name = false →
      addressable userid [] (user_dot ++ u)
  | ad_own u x : isalt ns = true → vd = false → userid = Some u → (hier_sep ns ∉ u) → ¬ is_inbox_internal x →
      prefixed ns (translated sep_out ns x) = false → blen (user_dot ++ u ++ DOT :: x) + 5 ≤ MAX_MAILBOX_NAME →
      addressable userid [] (user_dot ++ u ++ DOT :: x)
  | ad_other u x : isalt ns = true → vd = false → userid = Some u → below starts_with (user_dot ++ x) (user_dot ++ u) = None →
      blen (prefix_user ns) + blen x + 1 ≤ MAX_MAILBOX_NAME → addressable userid [] (user_dot ++ x)
  | ad_shared u x : isalt ns = true → vd = false → userid = Some u → ¬ is_inbox_internal x →
      below starts_with x (user_dot ++ u) = None → below starts_with x (removelast user_dot) = None →
      starts_with x (removelast (prefix_shared ns)) = false → blen (prefix_shared ns) + blen x ≤ MAX_MAILBOX_NAME →
      addressable userid [] x.

(** The prefixes have no separators in them, and '^' counts as one. *)
Context (Hplain : ∀ p, up = Some p ∨ sp = Some p → Forall (λ c, c ≠ DOT ∧ c ≠ DOTCHAR) p).

Lemma addressable_alt userid d base : isalt ns = true → addressable userid d base → is_cstring base → (SLASH ∉ base) → base ≠ [] →
  blen base ≤ MAX_MAILBOX_NAME →
  vd = false ∧ d = [] ∧ ∃ e, external_name_alt false ns base userid = Some e ∧ blen e ≤ MAX_MAILBOX_NAME ∧
    internal_name_alt false dd ns e userid = Some base.
Proof using Hns Hprefix Hplain.
  intros Ha Had Hc Hs Hne Hl. pose proof init_sep as Hsep. destruct init_cases as [_ H]. rewrite Ha in H.
  destruct H as (p & q & Hpu & Hps & Hup & Hsp & _ & _ & Hlp & Hlq & _ & Hnq & _).
  assert (alt_prefixes ns p q) as Hap.
  { apply init_alt_prefixes; [done..|]. apply Forall_app. split; apply Hplain; auto. }
  assert (∀ x, SLASH ∉ user_dot ++ x → SLASH ∉ x) as Hsx by (intros x H Hx; apply H, elem_of_app; by right).
  destruct Had as [d base Hna|u _ Hv -> Hu Hpre|u x _ Hv -> Hu Hno Hpre Hb|u x _ Hv -> Hown Hb|u x _ Hv -> Hno Hown Husr Hst Hb];
    [congruence|..]; (split; [done|]; split; [done|]).
  - destruct (alt_inbox dd ns Hsep u p q Hap Hu Hpre Hl) as [E1 E2]. by eexists.
  - destruct (alt_own dd ns Hsep u x p q Hap Hu) as [E1 E2]; [|done|done|done|].
    { intros Hx. apply Hs. rewrite !elem_of_app, elem_of_cons. auto. }
    eexists. split; [done|]. split; [|done]. rewrite blen_translated. rewrite !blen_app, blen_cons in Hl.
    change (blen user_dot) with 5 in Hl. pose proof (blen_nonneg u). lia.
  - rewrite Hpu, blen_snoc in Hb.
    destruct (alt_other dd ns Hsep u x p q Hap (Hsx x Hs) Hown) as [E1 E2]; [rewrite blen_app, blen_cons; lia|done|].
    eexists. split; [done|]. split; [|done]. rewrite blen_app, blen_cons, blen_translated. lia.
  - rewrite Hps, removelast_last, blen_snoc in *.
    destruct (alt_shared dd ns Hsep u x p q Hap Hc Hs Hno Hne Hown Husr Hst Hl) as [E1 E2].
    eexists. split; [done|]. split; [|done]. rewrite blen_app, blen_cons, blen_translated. lia.
Qed.

Lemma policy_slash unixs t r : is_cstring t → mboxname_policycheck unixs (t ++ 0 :: r) = Ok 0 →
  (SLASH ∉ t) ∧ t ≠ [] ∧ blen t ≤ MAX_MAILBOX_NAME.
Proof using.
  intros Ht H. destruct (policycheck_ok unixs t r Ht) as (z & Hz & _ & Hiff). rewrite H in Hz. injection Hz as <-.
  destruct Hiff as [Hiff _]. destruct (Hiff eq_refl) as (Hl & (Hne & _ & _ & Hs & _) & _). done.
Qed.

(** C34: the mailbox whose internal name is [d ++ base], a domain and a name that
    [mboxname_policycheck] accepts, is shown to the user as some name, and that
    name, sent back, is converted to [d ++ base] again; in the standard namespace,
    with and without virtual domains, and in the alternate one for INBOX, the
    user's other mailboxes, those of other users and shared ones, under the
    conditions of [addressable]. *)
Theorem names_roundtrip userid d base r m1 m2 :
  addressable userid d base → opt_cstring userid → is_cstring (d ++ base) →
  mboxname_policycheck unixsep (base ++ 0 :: r) = Ok 0 → blen (d ++ base) ≤ MAX_MAILBOX_NAME →
  MAX_MAILBOX_NAME < blen m1 → MAX_MAILBOX_NAME < blen m2 →
  ∃ e m1' m2', mboxname_toexternal vd ns (d ++ base) userid m1 = Ok (0, m1') ∧ holds m1' e ∧
    mboxname_tointernal vd dd ns e userid m2 = Ok (0, m2') ∧ holds m2' (d ++ base).
Proof using Hns Hprefix Hplain.
  intros Had Hu Hc Hpol Hl Hm1 Hm2. pose proof init_sep as Hsep. pose proof Hc as [_ Hcb]%Forall_app.
  destruct (policy_slash _ _ _ Hcb Hpol) as (Hs & Hne & Hlb). unfold mboxname_toexternal, mboxname_tointernal.
  destruct (isalt ns) eqn:Ha.
  - destruct (addressable_alt userid d base Ha Had Hcb Hs Hne Hlb) as (Hv & -> & e & E1 & Hle & E2). rewrite Hv.
    destruct (init_prefixes Ha) as [Hat Hpc]. cbn [app] in *.
    pose proof (toexternal_alt_result false ns Hsep base userid m1 Hpc Hcb Hu Hm1) as H. rewrite E1 in H.
    destruct (Z.ltb_spec (blen e) (blen m1)); [|lia]. destruct H as (m1' & Ex & _ & Hm1'). assert (is_cstring e) as He by apply Hm1'.
    destruct (tointernal_alt_prints false dd ns Hsep e userid m2 Hat He Hu Hm2) as (z & m2' & Ei & _ & Hp). rewrite E2 in Hp.
    destruct Hp as (-> & Hm2' & _). exists e, m1', m2'. by split_and?.
  - destruct Had as [d base _ Hnm Hno| | | |]; [|congruence..].
    destruct (external_internal vd dd ns Hsep userid d base Hnm Hs Hno Hl) as (e & E1 & E2).
    destruct (toexternal_prints vd ns Hsep (d ++ base) userid m1 Hc Hm1) as (z & m1' & Ex & _ & Hp). rewrite E1 in Hp.
    destruct Hp as (-> & Hm1' & _). assert (is_cstring e) as He by apply Hm1'.
    destruct (tointernal_prints vd dd ns Hsep e userid m2 He Hu Hm2) as (z & m2' & Ei & _ & Hp). rewrite E2 in Hp.
    destruct Hp as (-> & Hm2' & _). exists e, m1', m2'. by split_and?.
Qed.
End Init.

(** ** Applied *)

(** A buffer with rubbish in it. *)
Definition buffer : bytes := replicate 491 170.

(** "user.joe.&U,BTFw-" is a mailbox with a Chinese name. *)
Lemma mboxname_policycheck_decides_witness :
  ∃ z, mboxname_policycheck true (chars "user.joe.&U,BTFw-" ++ [0]) = Ok z ∧ decided z ∧
    (z = 0 ↔ blen (chars "user.joe.&U,BTFw-") ≤ MAX_MAILBOX_NAME ∧ shape_ok (chars "user.joe.&U,BTFw-") ∧
       head (chars "user.joe.&U,BTFw-") ≠ Some 126 ∧
       ∃ ps, chars "user.joe.&U,BTFw-" = text ps ∧ Forall (piece_ok true) ps ∧ apart false ps).
Proof. apply (mboxname_policycheck_decides true _ []). by apply (bool_decide_unpack _). Defined.

Example names_checked :
  Forall (λ '(s, z), mboxname_policycheck true (chars s ++ [0]) = Ok z)
    [("user.joe.&U,BTFw-", 0); ("user.a^b", 0); ("a&-b", 0); ("user", IMAP_MAILBOX_BADNAME); ("a..b", IMAP_MAILBOX_BADNAME);
     ("a/b", IMAP_MAILBOX_BADNAME); ("~joe", IMAP_MAILBOX_BADNAME); ("&AGE-", IMAP_MAILBOX_BADNAME);
     ("&U,BTFx-", IMAP_MAILBOX_BADNAME); ("&U,A-&UxA-", IMAP_MAILBOX_BADNAME); ("a*", IMAP_MAILBOX_BADNAME)]%string.
Proof. repeat constructor. Qed.

(** The namespaces of a site with '/' between components, and "Other Users" and
    "Shared Folders" in the alternate one. *)
Definition site (alt : bool) : Z + namespace :=
  mboxname_init_namespace true alt (Some (chars "Other Users")) (Some (chars "Shared Folders")) false.
Definition site_ns (alt : bool) : namespace :=
  match site alt with inr ns => ns | inl _ => Namespace DOT false false [] [] [] end.

Lemma site_prefix p : Some (chars "Other Users") = Some p ∨ Some (chars "Shared Folders") = Some p → is_cstring p ∧ (AT ∉ p).
Proof. intros [[= <-]|[= <-]]; by apply (bool_decide_unpack _). Qed.

Lemma site_plain p : Some (chars "Other Users") = Some p ∨ Some (chars "Shared Folders") = Some p →
  Forall (λ c, c ≠ DOT ∧ c ≠ DOTCHAR) p.
Proof. intros [[= <-]|[= <-]]; by apply (bool_decide_unpack _). Qed.

Lemma site_ok : mboxname_init_namespace true true (Some (chars "Other Users")) (Some (chars "Shared Folders")) false = inr (site_ns true).
Proof. by vm_compute. Qed.

Definition joe : option bytes := Some (chars "joe").

Lemma conversions_fit_witness :
  (∃ z m', mboxname_tointernal false None (site_ns true) (chars "work/a.b") joe buffer = Ok (z, m') ∧ blen m' = blen buffer ∧
     (z = IMAP_MAILBOX_BADNAME ∨ z = 0 ∧ ∃ t, holds m' t ∧ blen t ≤ MAX_MAILBOX_NAME)) ∧
  (isalt (site_ns true) = false →
   ∃ z m', mboxname_toexternal false (site_ns true) (chars "work/a.b") joe buffer = Ok (z, m') ∧ blen m' = blen buffer ∧
     (z = IMAP_MAILBOX_BADNAME ∨ z = 0 ∧ ∃ t, holds m' t ∧ blen t ≤ MAX_MAILBOX_NAME)) ∧
  (isalt (site_ns true) = true →
   mboxname_toexternal false (site_ns true) (chars "work/a.b") joe buffer = Fault OutOfBounds ↔
     ∃ t, external_name_alt false (site_ns true) (chars "work/a.b") joe = Some t ∧ blen buffer ≤ blen t).
Proof.
  apply (conversions_fit false None true true _ _ false (site_ns true) site_ok site_prefix);
    [by apply (bool_decide_unpack _)|by apply (bool_decide_unpack _)|done].
Defined.

Lemma names_roundtrip_witness :
  ∃ e m1' m2', mboxname_toexternal false (site_ns true) ([] ++ chars "user.bob.a^b") joe buffer = Ok (0, m1') ∧ holds m1' e ∧
    mboxname_tointernal false None (site_ns true) e joe buffer = Ok (0, m2') ∧ holds m2' ([] ++ chars "user.bob.a^b").
Proof.
  apply (names_roundtrip false None true true _ _ false (site_ns true) site_ok site_prefix site_plain joe [] (chars "user.bob.a^b") []).
  - apply (ad_other false None (site_ns true) joe (chars "joe") (chars "bob.a^b")); done.
  - by apply (bool_decide_unpack _).
  - by apply (bool_decide_unpack _).
  - reflexivity.
  - done.
  - done.
  - done.
Defined.

(** What the user sees, and the shared mailbox with a long name. *)
Definition shown (alt : bool) (n : string) : result (Z * bytes) :=
  '(z, m) ← mboxname_toexternal false (site_ns alt) (chars n) joe buffer; s ← cstr m; Ok (z, s).
Definition meant (alt : bool) (e : string) : result (Z * bytes) :=
  '(z, m) ← mboxname_tointernal false None (site_ns alt) (chars e) joe buffer; s ← cstr m; Ok (z, s).

Example names_shown :
  shown true "user.joe.a^b.c" = Ok (0, chars "a.b/c") ∧ meant true "a.b/c" = Ok (0, chars "user.joe.a^b.c") ∧
  shown true "user.joe" = Ok (0, chars "INBOX") ∧ meant true "inbox" = Ok (0, chars "user.joe") ∧
  shown true "user.bob.x" = Ok (0, chars "Other Users/bob/x") ∧ meant true "Other Users/bob/x" = Ok (0, chars "user.bob.x") ∧
  shown true "news.x" = Ok (0, chars "Shared Folders/news/x") ∧ shown false "news.x" = Ok (0, chars "news/x") ∧
  meant false "INBOX/x.y" = Ok (0, chars "user.joe.x^y").
Proof. by repeat split. Qed.

(** A name of 490 characters is printed with 15 in front of it. *)
Example shared_overflow : mboxname_toexternal false (site_ns true) (replicate 490 120) joe buffer = Fault OutOfBounds.
Proof. by vm_compute. Qed.

(** Near the limit a user cannot refer to a mailbox in the alternate namespace: "user." is counted twice. *)
Example counted_twice :
  let x := replicate 480 120 in
  (∃ m, mboxname_toexternal false (site_ns true) (chars "user.joe." ++ x) joe buffer = Ok (0, m) ∧ cstr m = Ok x) ∧
  ∃ m, mboxname_tointernal false None (site_ns true) x joe buffer = Ok (IMAP_MAILBOX_BADNAME, m).
Proof. split; eexists; [split; [by vm_compute|by vm_compute]|by vm_compute]. Qed.
