(* ===== verification/Prog.v ===== *)
(** * Prog: programs with a state that may fail

    The monad of the stateful components, for any type of state, and weakest
    preconditions for it: [wp m Q s], "[m] returns from [s], and [Q] holds of
    its result and the state after it", and [wlp], "if it returns". *)
From S2P Require Import Prelude.
#[local] Open Scope Z_scope.

Definition Prog (S A : Type) : Type := S → result (A * S).
#[global] Instance Prog_ret {S} : MRet (Prog S) := λ A a s, Ok (a, s).
#[global] Instance Prog_bind {S} : MBind (Prog S) := λ A B k m s, '(a, s) ← m s; k a s.

Section Prog.
Context {S : Type}.

Definition get {A} (f : S → A) : Prog S A := λ s, Ok (f s, s).
Definition modify (f : S → S) : Prog S unit := λ s, Ok (tt, f s).
Definition mfault {A} (e : fault) : Prog S A := λ _, Fault e.
Definition liftr {A} (m : result A) : Prog S A := λ s, a ← m; Ok (a, s).
Definition m_assert (b : bool) : Prog S unit := liftr (c_assert b).

Lemma bind_assoc {A B C} (m : Prog S A) (f : A → Prog S B) (g : B → Prog S C) s :
  ((m ≫= f) ≫= g) s = (m ≫= (λ a, f a ≫= g)) s.
Proof. unfold mbind, Prog_bind. by destruct (m s) as [[a s']|]. Qed.
Lemma bind_same {A B} (m : Prog S A) (f g : A → Prog S B) s : (∀ a s', f a s' = g a s') → (m ≫= f) s = (m ≫= g) s.
Proof. intros H. unfold mbind, Prog_bind. destruct (m s) as [[a s']|]; [apply H|done]. Qed.

(** ** Weakest preconditions *)

Definition wp {A} (m : Prog S A) (Q : A → S → Prop) (s : S) : Prop :=
  match m s with Ok (a, s') => Q a s' | Fault _ => False end.

Lemma wp_ok {A} (m : Prog S A) Q s : wp m Q s → ∃ a s', m s = Ok (a, s') ∧ Q a s'.
Proof. unfold wp. destruct (m s) as [[a s']|]; [eauto|done]. Qed.

Lemma wp_intro {A} (m : Prog S A) Q s a s' : m s = Ok (a, s') → Q a s' → wp m Q s.
Proof. unfold wp. by intros ->. Qed.

Lemma wp_ret {A} (a : A) Q s : Q a s → wp (mret a) Q s.
Proof. done. Qed.

Lemma wp_bind {A B} (m : Prog S A) (k : A → Prog S B) Q s :
  wp m (λ a s', wp (k a) Q s') s → wp (m ≫= k) Q s.
Proof. unfold wp, mbind, Prog_bind. destruct (m s) as [[a s']|]; done. Qed.

Lemma wp_mono {A} (m : Prog S A) (P Q : A → S → Prop) s :
  wp m P s → (∀ a s', P a s' → Q a s') → wp m Q s.
Proof. unfold wp. destruct (m s) as [[a s']|]; auto. Qed.

Lemma wp_bind_mono {A B} (m : Prog S A) (k : A → Prog S B) P Q s :
  wp m P s → (∀ a s', P a s' → wp (k a) Q s') → wp (m ≫= k) Q s.
Proof. intros H1 H2. apply wp_bind. by eapply wp_mono. Qed.

Lemma wp_get {A} (f : S → A) Q s : Q (f s) s → wp (get f) Q s.
Proof. done. Qed.
Lemma wp_modify (f : S → S) Q s : Q tt (f s) → wp (modify f) Q s.
Proof. done. Qed.
Lemma wp_liftr {A} (m : result A) Q s a : m = Ok a → Q a s → wp (liftr m) Q s.
Proof. intros ->. done. Qed.
Lemma wp_assert b Q s : b = true → Q tt s → wp (m_assert b) Q s.
Proof. by intros ->. Qed.
Lemma wp_and {A} (m : Prog S A) P Q s : wp m P s → wp m Q s → wp m (λ a s', P a s' ∧ Q a s') s.
Proof. unfold wp. destruct (m s) as [[a s']|]; auto. Qed.
Lemma wp_elim {A} (m : Prog S A) Q s a s' : wp m Q s → m s = Ok (a, s') → Q a s'.
Proof. unfold wp. by intros H E; rewrite E in H. Qed.

(** ** Weakest liberal preconditions

    [Q] holds if the program returns. *)

Definition wlp {A} (m : Prog S A) (Q : A → S → Prop) (s : S) : Prop := ∀ a s', m s = Ok (a, s') → Q a s'.

Lemma wlp_wp {A} (m : Prog S A) Q s : wp m Q s → wlp m Q s.
Proof. intros H a s'. by apply wp_elim. Qed.

Lemma wlp_elim {A} (m : Prog S A) Q s a s' : wlp m Q s → m s = Ok (a, s') → Q a s'.
Proof. intros H. apply H. Qed.

Lemma wlp_ret {A} (a : A) Q s : Q a s → wlp (mret a) Q s.
Proof. by intros H a' s' [= <- <-]. Qed.

Lemma wlp_bind {A B} (m : Prog S A) (k : A → Prog S B) Q s :
  wlp m (λ a s', wlp (k a) Q s') s → wlp (m ≫= k) Q s.
Proof.
  intros H b s'. unfold mbind, Prog_bind. destruct (m s) as [[a s1]|] eqn:E; [|done]. apply (H a s1 E).
Qed.

Lemma wlp_mono {A} (m : Prog S A) (P Q : A → S → Prop) s :
  wlp m P s → (∀ a s', P a s' → Q a s') → wlp m Q s.
Proof. intros H HQ a s' E. by apply HQ, H. Qed.

Lemma wlp_get {A} (f : S → A) Q s : Q (f s) s → wlp (get f) Q s.
Proof. by intros H a s' [= <- <-]. Qed.
Lemma wlp_modify (f : S → S) Q s : Q tt (f s) → wlp (modify f) Q s.
Proof. by intros H a s' [= <- <-]. Qed.
Lemma wlp_fault {A} e (Q : A → S → Prop) s : wlp (mfault e) Q s.
Proof. done. Qed.
Lemma wlp_liftr {A} (m : result A) Q s : (∀ a, m = Ok a → Q a s) → wlp (liftr m) Q s.
Proof.
  intros H a s'. unfold liftr. destruct m as [x|]; [|done]. cbn. intros [= <- <-]. by apply H.
Qed.
End Prog.

#[global] Opaque wp wlp.

(** One step into a program. *)
Ltac wstep :=
  first
    [ apply wp_ret
    | apply wp_bind, wp_get
    | apply wp_bind, wp_modify
    | apply wp_bind, wp_ret
    | apply wp_modify
    | apply wp_get ].
Ltac wlstep :=
  first
    [ apply wlp_ret
    | apply wlp_bind, wlp_get
    | apply wlp_bind, wlp_modify
    | apply wlp_bind, wlp_ret
    | apply wlp_modify
    | apply wlp_get
    | apply wlp_fault ].
