(* ===== verification/Master.v ===== *)
(** * Master: the process that starts the servers

    [master/master.c]: the table of services, the table of children with the
    state each has reported, the schedule of events, and the operations on them.
    What a child does between [fork] and [exec] is not the master's; of the
    system the model has the results of [fork], the clock, and what the
    configuration needs ([Kernel]).  [fatal] ends the process: a fault here. *)
From stdpp Require Import gmap list.
From S2P Require Import Prelude CMem CString Prog.
#[local] Open Scope Z_scope.

(** ** State *)

(** [struct service], by the sections it has in [master/master.h].  A listener
    that is closed, and a pipe that is, are 0. *)
Record s_conf := SConf {
  s_name : option bytes; s_listen : option bytes; s_proto : option bytes; s_exec : option (list bytes);
  s_babysit : bool; s_provide_uuid : bool; s_associate : Z; s_family : Z }.
Record s_comm := SComm { s_socket : Z; stat0 : Z; stat1 : Z }.
Record s_limits := SLimits { desired_workers : Z; max_workers : Z; maxfds : Z; maxforkrate : Z }.
Record s_stats := SStats {
  ready_workers : Z; nforks : Z; nactive : Z; nconnections : Z; forkrate : Z;
  last_interval_start : Z; interval_forks : Z }.
Record service := Service { conf : s_conf; comm : s_comm; limits : s_limits; stats : s_stats }.

Definition set_conf (x : s_conf) (s : service) : service := Service x (comm s) (limits s) (stats s).
Definition set_comm (x : s_comm) (s : service) : service := Service (conf s) x (limits s) (stats s).
Definition set_limits (x : s_limits) (s : service) : service := Service (conf s) (comm s) x (stats s).
Definition set_stats (x : s_stats) (s : service) : service := Service (conf s) (comm s) (limits s) x.

(** Adding to [ready_workers], [nactive] and [nconnections]. *)
Definition count (ready active conns : Z) (t : s_stats) : s_stats :=
  SStats (ready_workers t + ready) (nforks t) (nactive t + active) (nconnections t + conns) (forkrate t)
    (last_interval_start t) (interval_forks t).

Inductive sstate :=
  SERVICE_STATE_UNKNOWN | SERVICE_STATE_INIT | SERVICE_STATE_READY | SERVICE_STATE_BUSY | SERVICE_STATE_DEAD.
#[global] Instance sstate_eq_dec : EqDecision sstate.
Proof. solve_decision. Defined.

Definition SERVICE_NONE : Z := -1.

(** Memory that has not been written is [None]. *)
Record centry := Centry {
  pid : Z; service_state : sstate; janitor_deadline : Z; si : Z;
  m_start_time : option Z; m_user_buf : option bytes; m_host_buf : option bytes }.
Definition set_state (x : sstate) (c : centry) : centry :=
  Centry (pid c) x (janitor_deadline c) (si c) (m_start_time c) (m_user_buf c) (m_host_buf c).
Definition set_si (x : Z) (c : centry) : centry :=
  Centry (pid c) (service_state c) (janitor_deadline c) x (m_start_time c) (m_user_buf c) (m_host_buf c).
Definition set_user (t : Z) (user host : bytes) (c : centry) : centry :=
  Centry (pid c) (service_state c) (janitor_deadline c) (si c) (Some t) (Some user) (Some host).

(** Of the names only those of the configuration are kept; they are for the log. *)
Record event := Event { e_name : bytes; mark : Z; period : Z; periodic : bool; e_exec : option (list bytes) }.
Definition set_mark (x : Z) (e : event) : event := Event (e_name e) x (period e) (periodic e) (e_exec e).

(** [struct user_conn]. *)
Record user_conn := UserConn { user_id : bytes; u_count : Z }.

(** The chains of [ctable] are lists; an empty one has no entry in the map.
    [conn_limit_tbl] is [None] when no limit is configured or its file is not
    open.  [calls] counts the calls of the system. *)
Record master := Master {
  Services : list service;
  ctable : gmap Z (list centry);
  cfreelist : list centry;
  schedule : list event;
  janitor_position : Z; janitor_mark : Z * Z;
  imap_count : Z; pop_count : Z;
  conn_limit_tbl : option (list user_conn);
  calls : nat }.

Definition set_services (x : list service) (m : master) : master :=
  Master x (ctable m) (cfreelist m) (schedule m) (janitor_position m) (janitor_mark m) (imap_count m) (pop_count m)
    (conn_limit_tbl m) (calls m).
Definition set_ctable (x : gmap Z (list centry)) (m : master) : master :=
  Master (Services m) x (cfreelist m) (schedule m) (janitor_position m) (janitor_mark m) (imap_count m) (pop_count m)
    (conn_limit_tbl m) (calls m).
Definition set_cfreelist (x : list centry) (m : master) : master :=
  Master (Services m) (ctable m) x (schedule m) (janitor_position m) (janitor_mark m) (imap_count m) (pop_count m)
    (conn_limit_tbl m) (calls m).
Definition set_schedule (x : list event) (m : master) : master :=
  Master (Services m) (ctable m) (cfreelist m) x (janitor_position m) (janitor_mark m) (imap_count m) (pop_count m)
    (conn_limit_tbl m) (calls m).
Definition set_janitor (pos : Z) (t : Z * Z) (m : master) : master :=
  Master (Services m) (ctable m) (cfreelist m) (schedule m) pos t (imap_count m) (pop_count m)
    (conn_limit_tbl m) (calls m).
Definition add_counts (imap pop : Z) (m : master) : master :=
  Master (Services m) (ctable m) (cfreelist m) (schedule m) (janitor_position m) (janitor_mark m)
    (imap_count m + imap) (pop_count m + pop) (conn_limit_tbl m) (calls m).
Definition set_conns (x : option (list user_conn)) (m : master) : master :=
  Master (Services m) (ctable m) (cfreelist m) (schedule m) (janitor_position m) (janitor_mark m) (imap_count m)
    (pop_count m) x (calls m).
Definition set_calls (x : nat) (m : master) : master :=
  Master (Services m) (ctable m) (cfreelist m) (schedule m) (janitor_position m) (janitor_mark m) (imap_count m)
    (pop_count m) (conn_limit_tbl m) x.

(** ** The system

    The [n]-th call: [time(NULL)], [gettimeofday] (seconds and microseconds),
    [fork] (the pid in the parent, or -1), [getaddrinfo] (the families of the
    addresses, or none), [socket], [bind], [listen], [pipe].  [runnable] is what
    [verify_service_file] finds of a program, [day_time t h m] the [mktime] of the
    day of [t] at [h]:[m]. *)
Class Kernel := {
  k_time : nat → Z;
  k_timeofday : nat → Z * Z;
  k_fork : nat → Z;
  k_addrinfo : nat → option bytes → bytes → bytes → option (list Z);
  k_socket : nat → Z;
  k_bind : nat → bool;
  k_listen : nat → bool;
  k_pipe : nat → option (Z * Z);
  k_runnable : list bytes → bool;
  k_day_time : Z → Z → Z → Z }.

Section Master.
Context `{K : Kernel}.
Abbreviation P := (Prog master).

Definition call {A} (f : nat → A) : P A := n ← get calls; modify (set_calls (S n));; mret (f n).
Definition time : P Z := call k_time.
Definition fatal {A} : P A := mfault AssertFailed.

(** [&Services[i]], and a change of it. *)
Definition service_at (i : Z) : P service :=
  l ← get Services;
  match (if i <? 0 then None else l !! Z.to_nat i) with Some s => mret s | None => mfault OutOfBounds end.
Definition put_service (i : Z) (s : service) : P unit :=
  modify (λ m, set_services (<[Z.to_nat i := s]> (Services m)) m).

(** ** The table of children *)

Definition child_table_size : Z := 10000.
Definition child_table_inc : Z := 100.

(** [pid % child_table_size], as an index. *)
Definition child_hash (p : Z) : result Z :=
  let h := Z.rem p child_table_size in if h <? 0 then Fault OutOfBounds else Ok h.
Definition chain (h : Z) (m : master) : list centry := default [] (ctable m !! h).
Definition put_chain (h : Z) (l : list centry) : P unit := modify (λ m, set_ctable (<[h := l]> (ctable m)) m).

Fixpoint find_child (p : Z) (l : list centry) : option centry :=
  match l with [] => None | c :: l' => if pid c =? p then Some c else find_child p l' end.
(** The entry [find_child] finds, changed. *)
Fixpoint change_child (p : Z) (f : centry → centry) (l : list centry) : list centry :=
  match l with [] => [] | c :: l' => if pid c =? p then f c :: l' else c :: change_child p f l' end.

(** Of fresh memory; entries that are used again keep what they had. *)
Definition new_centry : centry := Centry 0 SERVICE_STATE_UNKNOWN 0 0 None None None.
Definition get_centry : P centry :=
  l ← get cfreelist;
  match l with
  | [] => modify (set_cfreelist (replicate (Z.to_nat (child_table_inc - 1)) new_centry));; mret new_centry
  | c :: l' => modify (set_cfreelist l');; mret c
  end.

(** [get_centry], the fields set by its callers, and insertion in front. *)
Definition add_child (p : Z) (st : sstate) (deadline : Z) (i : Z) : P unit :=
  h ← liftr (child_hash p);
  c ← get_centry;
  l ← get (chain h);
  put_chain h (Centry p st deadline i (m_start_time c) (m_user_buf c) (m_host_buf c) :: l).

(** ** Events *)

Fixpoint insert_event (a : event) (ptr : event) (next : list event) : list event :=
  match next with
  | e :: next' => if mark e <=? mark a then ptr :: insert_event a e next' else ptr :: a :: e :: next'
  | [] => [ptr; a]
  end.
Definition scheduled (a : event) (l : list event) : list event :=
  match l with
  | [] => [a]
  | e :: l' => if mark a <? mark e then a :: e :: l' else insert_event a e l'
  end.
Definition schedule_event (a : event) : P unit := modify (λ m, set_schedule (scheduled a (schedule m)) m).

(** ** Connection counts *)

Definition imap_name : bytes := [105; 109; 97; 112].
Definition pop3_name : bytes := [112; 111; 112; 51].
Definition is_imap (name : bytes) : bool := bool_decide (name = imap_name) || bool_decide (name = imap_name ++ [115]).
Definition is_pop3 (name : bytes) : bool := bool_decide (name = pop3_name) || bool_decide (name = pop3_name ++ [115]).
Definition count_protocol (name : option bytes) (d : Z) : P unit :=
  match name with
  | None => mfault OutOfBounds
  | Some n => if is_imap n then modify (add_counts d 0) else if is_pop3 n then modify (add_counts 0 d) else mret tt
  end.

(** ** [spawn_service] *)

Definition FORKRATE_INTERVAL : Z := 2.

(** Update our fork rate. *)
Definition update_forkrate (now : Z) (t : s_stats) : s_stats :=
  if FORKRATE_INTERVAL <=? now - last_interval_start t then
    let rate := interval_forks t / 2 + forkrate t / 2 in
    let start := last_interval_start t + FORKRATE_INTERVAL in
    let interval := to_s32 (now - start) in
    let '(rate, start) :=
      if 2 <? interval then
        let skipped_intervals := interval / FORKRATE_INTERVAL in
        if 30 <? skipped_intervals then (0, start) else (Z.shiftr rate skipped_intervals, now)
      else (rate, start) in
    SStats (ready_workers t) (nforks t) (nactive t) (nconnections t) rate start 0
  else t.

(** [s->ready_workers++; s->interval_forks++; s->nforks++; s->nactive++;] *)
Definition started (t : s_stats) : s_stats :=
  SStats (ready_workers t + 1) (nforks t + 1) (nactive t + 1) (nconnections t) (forkrate t)
    (last_interval_start t) (to_u32 (interval_forks t + 1)).

Definition spawn_service (i : Z) : P unit :=
  s ← service_at i; now ← time;
  match s_name (conf s) with
  | None => fatal
  | Some name =>
      let t := update_forkrate now (stats s) in
      put_service i (set_stats t s);;
      (* If we've been busy lately, we will refuse to fork! *)
      if negb (maxforkrate (limits s) =? 0) && (maxforkrate (limits s) <=? forkrate t) then
        now ← time; schedule_event (Event [] (now + FORKRATE_INTERVAL) 0 false None)
      else
        count_protocol (Some name) 1;;
        p ← call k_fork;
        if p =? -1 then mret tt else
        put_service i (set_stats (started t) s);;
        add_child p SERVICE_STATE_READY 0 i
  end.

(** ** [spawn_schedule] *)

(** The events that are due, in the order they are run: the last first. *)
Fixpoint take_due (now : Z) (l a : list event) : list event * list event :=
  match l with
  | e :: l' => if mark e <=? now then take_due now l' (e :: a) else (a, l)
  | [] => (a, [])
  end.

(** [while (a->mark <= now) a->mark += a->period;] *)
Fixpoint next_day (fuel : nat) (now mk per : Z) : result Z :=
  match fuel with
  | O => Fault OutOfFuel
  | S fuel' => if mk <=? now then next_day fuel' now (mk + per) per else Ok mk
  end.

Definition run_event (now : Z) (a : event) : P unit :=
  (match e_exec a with
   | None => mret tt (* we just used the event to wake up *)
   | Some _ =>
       p ← call k_fork;
       if p =? -1 then mret tt else add_child p SERVICE_STATE_READY 0 SERVICE_NONE
   end);;
  (* reschedule as needed *)
  if period a =? 0 then mret tt
  else if periodic a then schedule_event (set_mark (now + period a) a)
  else
    mk ← liftr (next_day (S (S (Z.to_nat (now - mark a)))) now (mark a) (period a));
    schedule_event (set_mark mk a).

Fixpoint run_events (now : Z) (l : list event) : P unit :=
  match l with [] => mret tt | a :: l' => run_event now a;; run_events now l' end.

Definition spawn_schedule (now : Z) : P unit :=
  l ← get schedule;
  let '(a, rest) := take_due now l [] in
  modify (set_schedule rest);; run_events now a.

(** ** [reap_child] *)

(** What the state of a child that has gone says about the counters. *)
Definition account (st : sstate) (t : s_stats) : s_stats :=
  match st with
  | SERVICE_STATE_READY => count (-1) (-1) 0 t
  | SERVICE_STATE_BUSY | SERVICE_STATE_UNKNOWN => count 0 (-1) 0 t
  | _ => t
  end.

(** Paranoia: an illegal state becomes the unknown one. *)
Definition legal (st : sstate) : sstate :=
  match st with SERVICE_STATE_INIT => SERVICE_STATE_UNKNOWN | _ => st end.

Definition reap_one (p : Z) : P unit :=
  h ← liftr (child_hash p);
  l ← get (chain h);
  match find_child p l with
  | Some c =>
      let st := legal (service_state c) in
      (if si c =? SERVICE_NONE then mret tt else
       s ← service_at (si c);
       put_service (si c) (set_stats (account st (stats s)) s);;
       if decide (st = SERVICE_STATE_DEAD) then mret tt else count_protocol (s_name (conf s)) (-1));;
      now ← time;
      put_chain h (change_child p
        (λ c, Centry (pid c) SERVICE_STATE_DEAD (now + 2) (si c) (m_start_time c) (m_user_buf c) (m_host_buf c)) l)
  | None => (* we don't know this child *)
      now ← time; add_child p SERVICE_STATE_DEAD (now + 2) SERVICE_NONE
  end.

(** The pids [waitpid] gives. *)
Fixpoint reap_child (pids : list Z) : P unit :=
  match pids with [] => mret tt | p :: pids' => reap_one p;; reap_child pids' end.

(** ** The janitor *)

Definition init_janitor : P unit :=
  t ← call k_timeofday; modify (set_janitor 0 t);;
  now ← time; schedule_event (Event [] (now + 2) 10 false None).

(** Entries that can go, and those that stay. *)
Definition expired (now : Z) (c : centry) : bool :=
  bool_decide (service_state c = SERVICE_STATE_DEAD) && (janitor_deadline c <? now).
Fixpoint sweep_chain (now : Z) (l free : list centry) : list centry * list centry :=
  match l with
  | [] => ([], free)
  | c :: l' =>
      if expired now c then sweep_chain now l' (c :: free)
      else let '(l'', free') := sweep_chain now l' free in (c :: l'', free')
  end.

Fixpoint sweep (n : nat) (now : Z) : P unit :=
  match n with
  | O => mret tt
  | S n' =>
      pos ← get janitor_position; mk ← get janitor_mark;
      l ← get (chain pos); free ← get cfreelist;
      let '(l', free') := sweep_chain now l free in
      put_chain pos l';; modify (set_cfreelist free');;
      modify (set_janitor ((pos + 1) mod child_table_size) mk);; sweep n' now
  end.

(** The number of entries: the [double] is truncated. *)
Definition sweep_size (janitor_frequency : Z) (mk rightnow : Z * Z) : Z :=
  if mk.1 + 1 <? rightnow.1 then child_table_size else
  let n := Z.quot (child_table_size * janitor_frequency * ((rightnow.1 - mk.1) * 1000000 + rightnow.2 - mk.2)) 1000000 in
  if n <? child_table_size then n else child_table_size.

Definition child_janitor (janitor_frequency now : Z) : P unit :=
  rightnow ← call k_timeofday; mk ← get janitor_mark;
  sweep (Z.to_nat (sweep_size janitor_frequency mk rightnow)) now.

(** ** Messages *)

Inductive message :=
  MASTER_SERVICE_AVAILABLE | MASTER_SERVICE_UNAVAILABLE | MASTER_SERVICE_CONNECTION | MASTER_SERVICE_CONNECTION_MULTI
  | MASTER_SERVICE_STATUS_ADD_USER | MASTER_SERVICE_STATUS_REMOVE_USER | OTHER_MESSAGE.

Record notify_message := Msg {
  message_ : message; service_pid : Z; s_start_time : Z; s_user_buf : bytes; s_host_buf : bytes }.

(** The state machine: the new state of the child and the counters of its service. *)
Definition react (msg : message) (st : sstate) (t : s_stats) : sstate * s_stats :=
  match msg, st with
  | MASTER_SERVICE_AVAILABLE, SERVICE_STATE_UNKNOWN => (SERVICE_STATE_READY, t)
  | MASTER_SERVICE_AVAILABLE, SERVICE_STATE_BUSY => (SERVICE_STATE_READY, count 1 0 0 t)
  | MASTER_SERVICE_UNAVAILABLE, SERVICE_STATE_UNKNOWN => (SERVICE_STATE_BUSY, t)
  | MASTER_SERVICE_UNAVAILABLE, SERVICE_STATE_READY => (SERVICE_STATE_BUSY, count (-1) 0 0 t)
  | MASTER_SERVICE_CONNECTION, SERVICE_STATE_BUSY => (SERVICE_STATE_BUSY, count 0 0 1 t)
  | MASTER_SERVICE_CONNECTION, SERVICE_STATE_UNKNOWN => (SERVICE_STATE_BUSY, count 0 0 1 t)
  | MASTER_SERVICE_CONNECTION, SERVICE_STATE_READY => (SERVICE_STATE_BUSY, count (-1) 0 1 t)
  | MASTER_SERVICE_CONNECTION_MULTI, SERVICE_STATE_READY => (SERVICE_STATE_READY, count 0 0 1 t)
  | MASTER_SERVICE_CONNECTION_MULTI, SERVICE_STATE_BUSY => (SERVICE_STATE_READY, count 1 0 1 t)
  | MASTER_SERVICE_CONNECTION_MULTI, SERVICE_STATE_UNKNOWN => (SERVICE_STATE_READY, count 0 0 1 t)
  | _, _ => (st, t)
  end.

(** [set_user_conn_limit]: one slot for all users of a hash. *)
Fixpoint user_hash (user : bytes) (hash : Z) : Z :=
  match user with
  | [] => hash
  | c :: user' => user_hash user' (to_u64 (schar c + Z.shiftl hash 6 + Z.shiftl hash 16 - hash))
  end.
Definition add_user (user : bytes) (u : user_conn) : user_conn :=
  if blen (user_id u) =? 0 then UserConn (take 64 user) 1
  else if bool_decide (user = user_id u) then UserConn (user_id u) (u_count u + 1) else u.
Definition remove_user (u : user_conn) : user_conn :=
  if blen (user_id u) =? 0 then u
  else if u_count u <=? 1 then UserConn [] 0 else UserConn (user_id u) (u_count u - 1).
Definition set_user_conn_limit (user : bytes) (add : bool) : P unit :=
  modify (λ m, set_conns ((λ t, alter (if add then add_user user else remove_user) (Z.to_nat (user_hash user 0 mod 1000)) t)
    <$> conn_limit_tbl m) m).

Definition idle_process : bytes := [105; 100; 108; 101; 32; 112; 114; 111; 99; 101; 115; 115].
Definition no_host : bytes := [91; 48; 46; 48; 46; 48; 46; 48; 93].

(** The first entry of the chain, whatever child the message is from. *)
Definition head_user (h : Z) (msg : notify_message) (add : bool) : P unit :=
  l ← get (chain h);
  match l with
  | [] => mfault OutOfBounds
  | c :: l' =>
      if (add : bool) then
        user ← liftr (cstr (s_user_buf msg)); host ← liftr (cstr (s_host_buf msg));
        put_chain h (set_user (s_start_time msg) (take 64 user) (take 64 host) c :: l');;
        set_user_conn_limit user true
      else
        t ← get conn_limit_tbl;
        (match t, m_user_buf c with
         | None, _ => mret tt
         | Some _, Some user => set_user_conn_limit user false
         | Some _, None => mfault OutOfBounds
         end);;
        put_chain h (set_user 0 idle_process no_host c :: l')
  end.

Definition process_msg (i : Z) (msg : notify_message) : P unit :=
  s ← service_at i;
  h ← liftr (child_hash (service_pid msg));
  l ← get (chain h);
  (* resilience paranoia: a child that is not registered is now *)
  (match find_child (service_pid msg) l with
   | Some _ => mret tt
   | None => add_child (service_pid msg) SERVICE_STATE_UNKNOWN 0 i
   end);;
  l ← get (chain h);
  match find_child (service_pid msg) l with
  | None => mfault OutOfBounds
  | Some c =>
      let '(st, t) := react (message_ msg) (legal (service_state c)) (stats s) in
      put_chain h (change_child (service_pid msg) (λ c, set_state st (set_si i c)) l);;
      put_service i (set_stats t s);;
      match message_ msg with
      | MASTER_SERVICE_STATUS_ADD_USER => head_user h msg true
      | MASTER_SERVICE_STATUS_REMOVE_USER => head_user h msg false
      | _ => mret tt
      end
  end.
End Master.
