(* ===== verification/MasterConf.v ===== *)
(** * MasterConf: the configuration of the master

    [master/masterconf.c], and the functions of [master/master.c] that turn the
    entries of the file into services and events, open the listeners, and do it
    again on SIGHUP.  A buffer on the stack begins with what was there before
    ([junk]), and what [fgets] leaves of it stays. *)
From stdpp Require Import gmap list.
From S2P Require Import Prelude CMem CString Prog Master.
#[local] Open Scope Z_scope.

(** ** [masterconf.c] *)

(** [e->line], as the buffer it points into and the offset. *)
Record entry := Entry { e_buf : bytes; e_line : Z }.

(** [strstr(m + i, k)] *)
Fixpoint strstr_loop (n : nat) (m : bytes) (i : Z) (k : bytes) : result (option Z) :=
  match n with
  | O => Fault OutOfBounds
  | S n' =>
      s ← cstr_at m i;
      if bool_decide (take (length k) s = k) then Ok (Some i)
      else if bool_decide (s = []) then Ok None else strstr_loop n' m (i + 1) k
  end.
Definition strstr (m : bytes) (i : Z) (k : bytes) : result (option Z) := strstr_loop (S (length m)) m i k.

(** [for (i = 0; i < 255; i++) { if (stop( *p)) break; v[i] = *p++; }]: what is
    copied, and where [p] ends. *)
Fixpoint copy_until (stop : Z → bool) (n : nat) (m : bytes) (p : Z) : result (bytes * Z) :=
  match n with
  | O => Ok ([], p)
  | S n' => c ← rd8 m p; if stop c then Ok ([], p) else '(v, p') ← copy_until stop n' m (p + 1); Ok (c :: v, p')
  end.

(** The string in [v], [None] for [def]. *)
Definition masterconf_getstring (e : entry) (key : bytes) : result (option bytes) :=
  let k := key ++ [61] in
  p ← strstr (e_buf e) (e_line e) k;
  match p with
  | None => Ok None
  | Some p =>
      let p := p + blen k in
      c ← rd8 (e_buf e) p;
      v ← (if c =? 34 then
             '(v, p) ← copy_until (λ c, c =? 34) 255 (e_buf e) (p + 1);
             c ← rd8 (e_buf e) p;
             if c =? 34 then Ok v else Fault AssertFailed
           else '(v, _) ← copy_until isspace 255 (e_buf e) p; Ok v);
      s ← cstr (v ++ [0]); Ok (Some s)
  end.

(** [atoi] *)
Fixpoint drop_space (s : bytes) : bytes :=
  match s with c :: s' => if isspace c then drop_space s' else s | [] => [] end.
Fixpoint digits_value (s : bytes) (n : Z) : Z :=
  match s with c :: s' => if isdigit c then digits_value s' (10 * n + (c - 48)) else n | [] => n end.
Definition atoi (s : bytes) : Z :=
  to_s32 (match drop_space s with
    | 45 :: s' => - digits_value s' 0
    | 43 :: s' => digits_value s' 0
    | s' => digits_value s' 0
    end).
Definition is_number (s : bytes) : bool :=
  match s with
  | 45 :: c :: _ => isdigit c
  | c :: _ => isdigit c
  | [] => false
  end.
Definition masterconf_getint (e : entry) (key : bytes) (def : Z) : result Z :=
  v ← masterconf_getstring e key;
  Ok (match v with Some v => if is_number v then atoi v else def | None => def end).

(** The first letters of [0], [no], [off], [false], and of [1], [yes], [on], [true]. *)
Definition switch_of (v : bytes) : option bool :=
  match v with
  | [] => None
  | c :: v' =>
      let next := default 0 (head v') in
      if (c =? 48) || (c =? 110) || ((c =? 111) && (next =? 102)) || (c =? 102) then Some false
      else if (c =? 49) || (c =? 121) || ((c =? 111) && (next =? 110)) || (c =? 116) then Some true
      else None
  end.
Definition masterconf_getswitch (e : entry) (key : bytes) (def : bool) : result bool :=
  v ← masterconf_getstring e key;
  Ok (match v with Some v => default def (switch_of v) | None => def end).

(** [fgets(buf, 4096, f)]: the buffer, and the rest of the file. *)
Fixpoint take_line (n : nat) (f : bytes) : bytes * bytes :=
  match n, f with
  | S n', c :: f' => if c =? 10 then ([c], f') else let '(l, r) := take_line n' f' in (c :: l, r)
  | _, _ => ([], f)
  end.
Definition fgets (buf f : bytes) : option (bytes * bytes) :=
  match f with [] => None | _ => let '(l, r) := take_line 4095 f in Some (wr buf 0 (l ++ [0]), r) end.

(** [for (p = buf; *p && isspace( *p); p++)] and [for (q = p; isalnum( *q); q++)] *)
Fixpoint skip_while (f : Z → bool) (n : nat) (m : bytes) (p : Z) : result Z :=
  match n with
  | O => Fault OutOfBounds
  | S n' => c ← rd8 m p; if f c then skip_while f n' m (p + 1) else Ok p
  end.

(** A line without its newline and comment: the buffer, and where the text begins. *)
Definition clean_line (buf : bytes) : result (bytes * Z) :=
  n ← strlen_at buf 0;
  c ← rd8 buf (n - 1);
  buf ← (if c =? 10 then store8 buf (n - 1) 0 else Ok buf);
  p ← skip_while isspace (S (length buf)) buf 0;
  q ← strchr buf p 35;
  buf ← (match q with Some q => store8 buf q 0 | None => Ok buf end);
  Ok (buf, p).

Section Conf.
Context `{K : Kernel}.
Abbreviation P := (Prog master).

(** The callbacks get the name and the entry. *)
Fixpoint process_section (fuel : nat) (buf f : bytes) (func : bytes → entry → P unit) : P bytes :=
  match fuel with
  | O => mfault OutOfFuel
  | S fuel' =>
      match fgets buf f with
      | None => mret f
      | Some (buf, f) =>
          '(buf, p) ← liftr (clean_line buf);
          c ← liftr (rd8 buf p);
          if c =? 0 then process_section fuel' buf f func (* skip empty lines or all comment lines *)
          else if c =? 125 then mret f
          else
            q ← liftr (skip_while isalnum (S (length buf)) buf p);
            buf ← liftr (store8 buf q 0);
            name ← liftr (cstr_at buf p);
            func name (Entry buf (q + 1));;
            (* end of section? *)
            e ← liftr (strchr buf (q + 1) 125);
            match e with Some _ => mret f | None => process_section fuel' buf f func end
      end
  end.

(** The braces of a string. *)
Fixpoint braces (s : bytes) (level : Z) : Z :=
  match s with
  | [] => level
  | c :: s' => braces s' (if c =? 123 then level + 1 else if c =? 125 then level - 1 else level)
  end.

(** [level == 0 && *p == *section && !strncasecmp(p, section, seclen) && !isalnum(p[seclen])] *)
Definition opens (section s : bytes) (level : Z) : bool :=
  (level =? 0) && bool_decide (head s = head section)
  && bool_decide (map TOLOWER (take (length section) s) = map TOLOWER section)
  && negb (isalnum (default 0 (s !! length section))).

Fixpoint getsection_loop (fuel : nat) (junk buf f section : bytes) (level : Z) (func : bytes → entry → P unit) : P unit :=
  match fuel with
  | O => mfault OutOfFuel
  | S fuel' =>
      match fgets buf f with
      | None => mret tt
      | Some (buf, f) =>
          '(buf, p) ← liftr (clean_line buf);
          s ← liftr (cstr_at buf p);
          if bool_decide (s = []) then getsection_loop fuel' junk buf f section level func
          else if opens section s level then
            let level := braces (drop (length section) s) level in
            (* valid opening; process the section *)
            f ← (if level =? 1 then process_section (S (length f)) junk f func else mret f);
            getsection_loop fuel' junk buf f section level func
          else getsection_loop fuel' junk buf f section (braces s level) func
      end
  end.

(** [file] is the configuration file, [None] if it cannot be opened. *)
Definition masterconf_getsection (junk : bytes) (file : option bytes) (section : bytes) (func : bytes → entry → P unit) : P unit :=
  match file with
  | None => fatal
  | Some f => getsection_loop (S (length f)) junk junk f section 0 func
  end.

(** ** Command lines and listeners *)

Fixpoint take_word (s : bytes) : bytes * bytes :=
  match s with
  | c :: s' => if isspace c then ([], s') else let '(w, r) := take_word s' in (c :: w, r)
  | [] => ([], [])
  end.
Fixpoint tokens (fuel : nat) (s : bytes) : list bytes :=
  match fuel, s with
  | S fuel', _ :: _ => let '(w, r) := take_word (drop_space s) in w :: tokens fuel' r
  | _, _ => []
  end.
(** Each turn takes a character at least. *)
Definition tokenize (s : bytes) : option (list bytes) :=
  match s with [] => None | _ => Some (tokens (length s) s) end.

(** What is left of [listen], and the port. *)
Definition before_last (c : Z) (s : bytes) : bytes :=
  match strrchr s c with Some t => take (length s - length t) s | None => s end.
Definition parse_listen (listen : bytes) : bytes * option bytes :=
  let port p := match p with [] => None | _ => Some p end in
  match strrchr listen 93 with
  | Some (_ :: cp) => (* ":port" after closing bracket for IP address? *)
      match cp with
      | 58 :: p => (take (length listen - length cp) listen, port p)
      | _ => (listen, None)
      end
  | _ =>
      match strrchr listen 58 with
      | Some (_ :: p) => (before_last 58 listen, port p)
      | _ => (listen, None)
      end
  end.
Definition parse_host (listen : bytes) : bytes :=
  match listen with 91 :: l => before_last 93 l | _ => listen end.

(** ** [service_create] *)

Definition tcp_proto (p : bytes) : bool :=
  bool_decide (p = [116; 99; 112]) || bool_decide (p = [116; 99; 112; 52]) || bool_decide (p = [116; 99; 112; 54]).
Definition udp_proto (p : bytes) : bool :=
  bool_decide (p = [117; 100; 112]) || bool_decide (p = [117; 100; 112; 52]) || bool_decide (p = [117; 100; 112; 54]).

(** [sun_path] has 104 bytes. *)
Definition PF_UNIX : Z := 1.
Definition SUN_PATH : Z := 104.

(** The families to listen on; [None] when the service is disabled. *)
Definition resolve (listen proto : bytes) : P (option (list Z)) :=
  if bool_decide (head listen = Some 47) then (* unix socket *)
    if SUN_PATH <=? blen listen then mfault OutOfBounds else mret (Some [PF_UNIX])
  else if negb (tcp_proto proto || udp_proto proto) then mret None
  else
    let '(addr, port) := parse_listen listen in
    let '(addr, port) := match port with
      | None => (None, addr) (* listen IS the port *)
      | Some port => (match parse_host addr with [] => None | h => Some h end, port)
      end in
    call (λ n, k_addrinfo n addr port proto).

(** [socket], [bind] and [listen]: the descriptor, 0 when one of them fails. *)
Definition open_listener (proto : bytes) : P Z :=
  d ← call k_socket;
  if d <? 0 then mret 0 else
  b ← call k_bind;
  if negb b then mret 0 else
  if tcp_proto proto then l ← call k_listen; mret (if (l : bool) then d else 0) else mret d.

Definition get_statsock : P (Z * Z) := p ← call k_pipe; match p with Some p => mret p | None => fatal end.

(** [s->ready_workers = 0; s->associate = nsocket; s->family = ...; get_statsock(s->stat);] *)
Definition listening (d nsocket family : Z) (st : Z * Z) (s : service) : service :=
  Service
    (SConf (s_name (conf s)) (s_listen (conf s)) (s_proto (conf s)) (s_exec (conf s)) (s_babysit (conf s))
       (s_provide_uuid (conf s)) nsocket family)
    (SComm d st.1 st.2) (limits s)
    (SStats 0 (nforks (stats s)) (nactive (stats s)) (nconnections (stats s)) (forkrate (stats s))
       (last_interval_start (stats s)) (interval_forks (stats s))).

(** The loop over the addresses: [s] is [Services[i]] until that has a listener,
    and then a copy of what it was before ([local]), kept when it gets one. *)
Fixpoint create_loop (i : Z) (service0 : service) (proto : bytes) (families : list Z) (local : option service) (nsocket : Z) : P Z :=
  match families with
  | [] => mret nsocket
  | family :: families' =>
      s0 ← service_at i;
      let s := default s0 local in
      let local := if 0 <? s_socket (comm s) then Some service0 else local in
      let s := default s0 local in
      d ← open_listener proto;
      if d =? 0 then
        let s := set_comm (SComm 0 (stat0 (comm s)) (stat1 (comm s))) s in
        match local with
        | None => put_service i s;; create_loop i service0 proto families' None nsocket
        | Some _ => create_loop i service0 proto families' (Some s) nsocket
        end
      else
        st ← get_statsock;
        let s := listening d nsocket family st s in
        match local with
        | None => put_service i s;; create_loop i service0 proto families' None (nsocket + 1)
        | Some _ =>
            modify (λ m, set_services (Services m ++ [s]) m);;
            create_loop i service0 proto families' (Some s) (nsocket + 1)
        end
  end.

Definition set_exec (x : option (list bytes)) (s : service) : service :=
  set_conf (SConf (s_name (conf s)) (s_listen (conf s)) (s_proto (conf s)) x (s_babysit (conf s))
    (s_provide_uuid (conf s)) (s_associate (conf s)) (s_family (conf s))) s.
Definition disable (i : Z) : P unit := s ← service_at i; put_service i (set_exec None s).

Definition service_create (i : Z) : P unit :=
  s ← service_at i;
  if 0 <? s_associate (conf s) then mret tt (* service is already activated *) else
  match s_name (conf s), s_listen (conf s), s_proto (conf s) with
  | None, _, _ => fatal
  | Some _, Some listen, Some proto =>
      fs ← resolve listen proto;
      match fs with
      | None => disable i
      | Some fs => n ← create_loop i s proto fs None 0;
          (* not [s] any more if it had a listener *)
          let copied := (0 <? s_socket (comm s)) && bool_decide (fs ≠ []) in
          if (n <=? 0) && negb copied then disable i else mret tt
      end
  | Some _, _, _ => mfault OutOfBounds
  end.

(** ** Entries of the file *)

(** [fatal], or a warning and no more. *)
Definition complain (ignore_err : bool) : P unit := if ignore_err then mret tt else fatal.

Definition key_cmd : bytes := [99; 109; 100].
Definition key_prefork : bytes := [112; 114; 101; 102; 111; 114; 107].
Definition key_babysit : bytes := [98; 97; 98; 121; 115; 105; 116].
Definition key_maxforkrate : bytes := [109; 97; 120; 102; 111; 114; 107; 114; 97; 116; 101].
Definition key_listen : bytes := [108; 105; 115; 116; 101; 110].
Definition key_proto : bytes := [112; 114; 111; 116; 111].
Definition key_maxchild : bytes := [109; 97; 120; 99; 104; 105; 108; 100].
Definition key_maxfds : bytes := [109; 97; 120; 102; 100; 115].
Definition key_provide_uuid : bytes := [112; 114; 111; 118; 105; 100; 101; 95; 117; 117; 105; 100].
Definition key_period : bytes := [112; 101; 114; 105; 111; 100].
Definition key_at : bytes := [97; 116].

Definition INT_MAX : Z := 2147483647.

(** The variables of [add_service]. *)
Record svc_entry := SvcEntry {
  v_cmd : bytes; v_prefork : Z; v_babysit : bool; v_maxforkrate : Z; v_listen : bytes; v_proto : bytes; v_max : bytes;
  v_maxfds : Z; v_uuid : bool }.
Definition read_service (e : entry) (have_uuid : bool) : result svc_entry :=
  cmd ← masterconf_getstring e key_cmd;
  prefork ← masterconf_getint e key_prefork 0;
  babysit ← masterconf_getswitch e key_babysit false;
  maxforkrate ← masterconf_getint e key_maxforkrate 0;
  listen ← masterconf_getstring e key_listen;
  proto ← masterconf_getstring e key_proto;
  max ← masterconf_getstring e key_maxchild;
  maxfds ← masterconf_getint e key_maxfds 256;
  uuid ← (if have_uuid then masterconf_getswitch e key_provide_uuid false else Ok false);
  Ok (SvcEntry (default [] cmd) (if babysit && (prefork =? 0) then 1 else prefork) babysit
        (if babysit && (maxforkrate =? 0) then 10 else maxforkrate) (default [] listen)
        (default [116; 99; 112] proto) (default [45; 49] max) maxfds uuid).

(** An existing entry that can be reused: a primary instance with the same or no
    name, address and protocol. *)
Definition same_or_none (x : option bytes) (y : bytes) : bool := match x with None => true | Some x => bool_decide (x = y) end.
Fixpoint find_service (name listen proto : bytes) (l : list service) (i : Z) : Z :=
  match l with
  | [] => i
  | s :: l' =>
      let c := conf s in
      if (s_associate c <=? 0) && same_or_none (s_name c) name && same_or_none (s_listen c) listen && same_or_none (s_proto c) proto
      then i else find_service name listen proto l' (i + 1)
  end.

Definition no_service (now : Z) : service :=
  Service (SConf None None None None false false 0 0) (SComm 0 0 0) (SLimits 0 0 0 0) (SStats 0 0 0 0 0 now 0).

(** Number of workers and babysitting, by the kind of protocol. *)
Definition configured (v : svc_entry) (name : bytes) (exec : list bytes) (s : service) : service :=
  let tcp := tcp_proto (v_proto v) in
  let max := atoi (v_max v) in
  Service
    (SConf (Some (default name (s_name (conf s)))) (Some (v_listen v)) (Some (v_proto v)) (Some exec)
       (if tcp then v_babysit v else s_babysit (conf s)) (v_uuid v) (s_associate (conf s)) (s_family (conf s)))
    (comm s)
    (SLimits (if tcp then v_prefork v else Z.min (v_prefork v) 1)
       (if tcp then (if max =? -1 then INT_MAX else max) else 1) (to_u64 (v_maxfds v)) (to_u32 (v_maxforkrate v)))
    (stats s).

(** An additional instance gets what its primary got. *)
Definition follow (name : bytes) (p s : service) : service :=
  let c := conf s in
  if (0 <? s_associate c) && bool_decide (s_name c = Some name) && match s_listen c with Some _ => true | None => false end then
    Service (SConf (s_name c) (s_listen c) (s_proto c) (s_exec (conf p)) (s_babysit (conf p)) (s_provide_uuid (conf p))
               (s_associate c) (s_family c))
      (comm s) (SLimits (desired_workers (limits p)) (max_workers (limits p)) (maxfds (limits s)) (maxforkrate (limits p))) (stats s)
  else s.

Definition add_service (have_uuid ignore_err : bool) (name : bytes) (e : entry) : P unit :=
  v ← liftr (read_service e have_uuid);
  if bool_decide (v_cmd v = []) || bool_decide (v_listen v = []) then complain ignore_err else
  l ← get Services;
  let i := find_service name (v_listen v) (v_proto v) l 0 in
  let n := Z.of_nat (length l) in
  let old := l !! Z.to_nat i in
  if match old with Some s => bool_decide (s_exec (conf s) ≠ None) | None => false end then complain ignore_err else
  (if i =? n then now ← time; modify (λ m, set_services (Services m ++ [no_service now]) m) else mret tt);;
  let reconfig := match old with Some s => bool_decide (s_listen (conf s) ≠ None) | None => false end in
  match tokenize (v_cmd v) with
  | None => fatal
  | Some exec =>
      if negb (k_runnable exec) then fatal else (* if it is not, we're misconfigured, die. *)
      s ← service_at i;
      let s := configured v name exec s in
      put_service i s;;
      if (reconfig : bool) then modify (λ m, set_services (map (follow name s) (Services m)) m) else mret tt
  end.

Definition add_event (ignore_err : bool) (name : bytes) (e : entry) : P unit :=
  cmd ← liftr (masterconf_getstring e key_cmd);
  per ← liftr (masterconf_getint e key_period 0);
  at_ ← liftr (masterconf_getint e key_at (-1));
  now ← time;
  match default [] cmd with
  | [] => complain ignore_err
  | cmd =>
      match tokenize cmd with
      | None => fatal
      | Some exec =>
          let hour := at_ / 100 in let min := at_ mod 100 in
          if (0 <=? at_) && (hour <=? 23) && (min <=? 59) then
            let mk := k_day_time now hour min in
            (* already missed it, so schedule for next day *)
            schedule_event (Event name (if mk <? now then mk + 86400 else mk) 86400 false (Some exec))
          else schedule_event (Event name now (to_s32 (60 * per)) true (Some exec))
      end
  end.

(** ** SIGHUP *)

(** A newly disabled service, and a new one; [nservices] may grow meanwhile. *)
Definition closed (s : service) : service :=
  let c := conf s in
  Service (SConf (s_name c) None None (s_exec c) (s_babysit c) (s_provide_uuid c) (s_associate c) (s_family c))
    (SComm 0 (stat0 (comm s)) (stat1 (comm s)))
    (SLimits 0 (max_workers (limits s)) (maxfds (limits s)) (maxforkrate (limits s))) (stats s).
Fixpoint update_services (fuel : nat) (i : Z) : P unit :=
  match fuel with
  | O => mfault OutOfFuel
  | S fuel' =>
      l ← get Services;
      if Z.of_nat (length l) <=? i then mret tt else
      s ← service_at i;
      let enabled := bool_decide (s_exec (conf s) ≠ None) in
      (if negb enabled && negb (s_socket (comm s) =? 0) then put_service i (closed s)
       else if enabled && (s_socket (comm s) =? 0) then service_create i
       else mret tt);;
      update_services fuel' (i + 1)
  end.

Definition SERVICES : bytes := [83; 69; 82; 86; 73; 67; 69; 83].
Definition EVENTS : bytes := [69; 86; 69; 78; 84; 83].

(** [fuel] bounds the services there are in the end. *)
Definition reread_conf (fuel : nat) (have_uuid : bool) (junk : bytes) (file : option bytes) : P unit :=
  modify (λ m, set_services (map (set_exec None) (Services m)) m);;
  masterconf_getsection junk file SERVICES (add_service have_uuid true);;
  update_services fuel 0;;
  modify (set_schedule []);;
  masterconf_getsection junk file EVENTS (add_event true);;
  init_janitor.
End Conf.
