(* ===== verification/MasterLoop.v ===== *)
(** * MasterLoop: the main loop of the master

    [main] of [master/master.c], from the configuration on: what happens between
    two returns of [select] is [turn]; what the system gives it is [wakeup]. *)
From stdpp Require Import gmap list.
From S2P Require Import Prelude CMem Prog Master MasterConf.
#[local] Open Scope Z_scope.

(** The children that have gone, if SIGCHLD has come; the configuration file, if
    SIGHUP has; what [select] returns, unless it is interrupted: for a service
    the message in its pipe ([Some None] for one of the wrong size), and whether
    its listener has a connection. *)
Record wakeup := Wakeup {
  w_sigchld : option (list Z);
  w_sighup : option (option bytes);
  w_select : option ((Z → option (option notify_message)) * (Z → bool)) }.

(** The stack of [masterconf_getsection]; the options of the command line and of
    [imapd.conf]; a bound on the services, for the loop that adds some. *)
Record options := Options { junk : bytes; janitor_frequency : Z; have_uuid : bool; services_max : nat }.

Section Loop.
Context `{K : Kernel}.
Abbreviation P := (Prog master).

(** ** Services that are short of workers *)

Definition enabled (s : service) : bool := bool_decide (s_exec (conf s) ≠ None).

(** A disabled service without children; its name goes, and its pipe.  The instances of a
    service have one name between them, which the code frees with the first of
    them ([associate] is 0); here each keeps its own. *)
Definition removed (s : service) : service :=
  let c := conf s in let t := stats s in
  Service (SConf None (s_listen c) (s_proto c) (s_exec c) (s_babysit c) false 0 (s_family c))
    (SComm (s_socket (comm s)) 0 0) (limits s)
    (SStats (ready_workers t) 0 0 0 (forkrate t) (last_interval_start t) (interval_forks t)).

Definition check_service (i : Z) : P unit :=
  s ← service_at i;
  let t := stats s in
  if enabled s && (nactive t <? max_workers (limits s)) && (ready_workers t <? desired_workers (limits s))
  then spawn_service i
  else if enabled s && s_babysit (conf s) && (nactive t =? 0) then spawn_service i (* applying babysitter *)
  else if negb (enabled s) && bool_decide (s_name (conf s) ≠ None) && (nactive t =? 0) then put_service i (removed s)
  else mret tt.

(** [for (i = 0; i < nservices; i++)], with [n] services from [i] on. *)
Fixpoint for_services (n : nat) (i : Z) (f : Z → P unit) : P unit :=
  match n with O => mret tt | S n' => f i;; for_services n' (i + 1) f end.
Definition all_services (f : Z → P unit) : P unit := l ← get Services; for_services (length l) 0 f.

(** ** Messages and connections *)

(** The listeners that are watched: those of services without a free worker. *)
Definition wants_connections (s : service) : bool :=
  (0 <? s_socket (comm s)) && (ready_workers (stats s) =? 0) && (nactive (stats s) <? max_workers (limits s)).

Fixpoint spawn_many (n : nat) (i : Z) : P unit :=
  match n with O => mret tt | S n' => spawn_service i;; spawn_many n' i end.

(** Bring us up to [desired_workers], and one more when someone wants to talk to
    us and nobody is free. *)
Definition bring_up (i : Z) (connection : bool) : P unit :=
  s ← service_at i;
  if enabled s && (nactive (stats s) <? max_workers (limits s)) then
    spawn_many (Z.to_nat (desired_workers (limits s) - ready_workers (stats s))) i;;
    s ← service_at i;
    if (ready_workers (stats s) =? 0) && connection then spawn_service i else mret tt
  else mret tt.

Definition serve (msgs : Z → option (option notify_message)) (connection : Z → bool) (i : Z) : P unit :=
  s ← service_at i;
  match (if 0 <? stat0 (comm s) then msgs i else None) with
  | Some None => mret tt (* incorrectly sized *)
  | Some (Some msg) => process_msg i msg;; bring_up i (connection i)
  | None => bring_up i (connection i)
  end.

(** ** One turn *)

(** [now] is the time at the end of the last turn; the new one. *)
Definition before_select (o : options) (w : wakeup) (now : Z) : P unit :=
  spawn_schedule now;; (* run any scheduled processes *)
  (match w_sigchld w with Some pids => reap_child pids | None => mret tt end);; (* reap first *)
  all_services check_service;;
  match w_sighup w with
  | Some file => reread_conf (services_max o) (have_uuid o) (junk o) file
  | None => mret tt
  end.

Definition after_select (o : options) (msgs : Z → option (option notify_message)) (conns : Z → bool) : P Z :=
  l ← get Services;
  all_services (serve msgs (λ i, conns i && match l !! Z.to_nat i with Some s => wants_connections s | None => false end));;
  now ← time; child_janitor (janitor_frequency o) now;; mret now.

Definition turn (o : options) (w : wakeup) (now : Z) : P Z :=
  before_select o w now;;
  match w_select w with None => mret now | Some (msgs, conns) => after_select o msgs conns end.

(** How long [select] waits at most, in seconds. *)
Definition timeout (now : Z) (m : master) : option Z :=
  match schedule m with e :: _ => Some (if now <? mark e then mark e - now else 0) | [] => None end.

(** ** Starting *)

Definition master0 : master := Master [] ∅ [] [] 0 (0, 0) 0 0 None 0.

Definition LIMITS : bytes := [76; 73; 77; 73; 84; 83].
Definition connlimit : bytes := [99; 111; 110; 110; 108; 105; 109; 105; 116].
Definition key_value : bytes := [118; 97; 108; 117; 101].

(** [add_limits]; [imaplimit] is only told to the children.  The file of the
    table is opened. *)
Definition add_limits (name : bytes) (e : entry) : P unit :=
  value ← liftr (masterconf_getint e key_value 0);
  if bool_decide (name = connlimit) && negb (value =? 0)
  then modify (set_conns (Some (replicate 1025 (UserConn [] 0)))) else mret tt.

(** [have_uuid] is 0 when the services are added: it is set later. *)
Definition start (o : options) (file : option bytes) : P Z :=
  masterconf_getsection (junk o) file SERVICES (add_service false false);;
  masterconf_getsection (junk o) file EVENTS (add_event false);;
  masterconf_getsection (junk o) file LIMITS add_limits;;
  all_services service_create;;
  init_janitor;;
  time.
End Loop.
