(* ===== verification/MasterProof.v ===== *)
(** * MasterProof: the children and the counters

    Every entry of the table of children is counted by its service: [Counted].
    Each operation of the master keeps this, and returns. *)
From S2P Require Import Prelude CMem.
From stdpp Require Import gmap sorting list.
From S2P Require Import CString Prog Master MasterConf MasterLoop.
#[local] Open Scope Z_scope.

(** ** Counting *)

Definition entries (f : centry → bool) (l : list centry) : Z := Z.of_nat (length (filter f l)).
Definition total (f : centry → bool) (ct : gmap Z (list centry)) : Z := map_fold (λ _ l n, entries f l + n) 0 ct.

Lemma entries_cons f c l : entries f (c :: l) = b2z (f c) + entries f l.
Proof. unfold entries. rewrite filter_cons. destruct (f c); cbn [decide is_true Is_true_dec b2z]; case_decide; cbn [length]; try done; lia. Qed.

Lemma entries_app f l1 l2 : entries f (l1 ++ l2) = entries f l1 + entries f l2.
Proof. induction l1 as [|c l1 IH]; [done|]. cbn [app]. rewrite !entries_cons, IH. lia. Qed.

Lemma entries_nonneg f l : 0 ≤ entries f l.
Proof. unfold entries. lia. Qed.

Lemma total_fresh f ct h l : ct !! h = None → total f (<[h:=l]> ct) = entries f l + total f ct.
Proof. intros H. unfold total. rewrite map_fold_insert_L; [done| |done]. intros. lia. Qed.

Lemma total_insert f ct h l :
  total f (<[h:=l]> ct) = total f ct - entries f (default [] (ct !! h)) + entries f l.
Proof.
  destruct (ct !! h) as [l0|] eqn:E; cbn [from_option]; unfold id.
  - rewrite <- (insert_delete_id ct h l0 E) at 2. rewrite <- insert_delete_eq.
    rewrite !total_fresh by apply lookup_delete_eq. lia.
  - rewrite total_fresh by done. change (entries f []) with 0. lia.
Qed.

Lemma total_nonneg f ct : 0 ≤ total f ct.
Proof.
  induction ct as [|h l ct Hh IH] using map_ind; [done|]. rewrite total_fresh by done.
  pose proof (entries_nonneg f l). lia.
Qed.

Lemma total_in f ct h l c : ct !! h = Some l → c ∈ l → f c = true → 0 < total f ct.
Proof.
  intros Hl Hc Hf. rewrite <- (insert_id ct h l Hl), total_insert, Hl. cbn [from_option]; unfold id.
  pose proof (total_nonneg f (<[h:=[]]> ct)) as Ht. rewrite total_insert, Hl in Ht. cbn [from_option] in Ht; unfold id in Ht.
  change (entries f []) with 0 in Ht.
  apply list_elem_of_split in Hc as (l1 & l2 & ->).
  rewrite entries_app, entries_cons, Hf in *. cbn [b2z] in *.
  pose proof (entries_nonneg f l1). pose proof (entries_nonneg f l2). lia.
Qed.

(** The entries of service [i]: those of live children, and of ready ones. *)
Definition alive (i : Z) (c : centry) : bool := (si c =? i) && bool_decide (service_state c ≠ SERVICE_STATE_DEAD).
Definition idle (i : Z) (c : centry) : bool := (si c =? i) && bool_decide (service_state c = SERVICE_STATE_READY).

Lemma total_le f g ct : (∀ c, f c = true → g c = true) → total f ct ≤ total g ct.
Proof.
  intros H. induction ct as [|h l ct Hh IH] using map_ind; [done|]. rewrite !total_fresh by done.
  enough (entries f l ≤ entries g l) by lia. induction l as [|c l IHl]; [done|]. rewrite !entries_cons.
  specialize (H c). destruct (f c), (g c); cbn; lia || by discriminate H.
Qed.

Lemma not_of i c : si c ≠ i → alive i c = false ∧ idle i c = false.
Proof. intros H. unfold alive, idle. by destruct (Z.eqb_spec (si c) i). Qed.

Lemma ready_of i c : si c = i → service_state c = SERVICE_STATE_READY → alive i c = true ∧ idle i c = true.
Proof. intros H1 H2. unfold alive, idle. rewrite H1, H2, Z.eqb_refl. done. Qed.

Lemma idle_alive i ct : total (idle i) ct ≤ total (alive i) ct.
Proof.
  apply total_le. intros c. unfold idle, alive. destruct (si c =? i); [|done].
  intros H%bool_decide_eq_true. by rewrite H.
Qed.

(** ** The invariant *)

(** A service without a name is a slot that may be used again; it is disabled. *)
Definition svc_ok (ct : gmap Z (list centry)) (i : Z) (s : service) : Prop :=
  nactive (stats s) = total (alive i) ct ∧ ready_workers (stats s) = total (idle i) ct
  ∧ (s_name (conf s) = None → nactive (stats s) = 0 ∧ s_exec (conf s) = None).

Definition entry_ok (n : Z) (c : centry) : Prop :=
  -1 ≤ si c < n ∧ service_state c ≠ SERVICE_STATE_INIT ∧ service_state c ≠ SERVICE_STATE_UNKNOWN.

Record Counted (svs : list service) (ct : gmap Z (list centry)) : Prop := {
  cn_svc (i : nat) s : svs !! i = Some s → svc_ok ct (Z.of_nat i) s;
  cn_entry h l c : ct !! h = Some l → c ∈ l → entry_ok (Z.of_nat (length svs)) c;
}.

(** A daily event has a period. *)
Definition event_ok (e : event) : Prop := period e ≠ 0 → periodic e = false → 0 < period e.

Record Inv (m : master) : Prop := {
  inv_counted : Counted (Services m) (ctable m);
  inv_events : Forall event_ok (schedule m);
}.

(** Entries are replaced in one chain, and the counters of the services follow. *)
Lemma counted_chain svs svs' ct h l :
  Counted svs ct → length svs' = length svs →
  (∀ c, c ∈ l → entry_ok (Z.of_nat (length svs)) c) →
  (∀ (i : nat) s, svs !! i = Some s → ∃ s', svs' !! i = Some s' ∧ conf s' = conf s ∧
     nactive (stats s') - nactive (stats s) = entries (alive (Z.of_nat i)) l - entries (alive (Z.of_nat i)) (default [] (ct !! h)) ∧
     ready_workers (stats s') - ready_workers (stats s) = entries (idle (Z.of_nat i)) l - entries (idle (Z.of_nat i)) (default [] (ct !! h)) ∧
     (s_name (conf s) = None → nactive (stats s') = nactive (stats s))) →
  Counted svs' (<[h:=l]> ct).
Proof.
  intros HC Hlen Hl Hs. split.
  - intros i s' Hi'. assert (∃ s, svs !! i = Some s) as [s Hi].
    { apply lookup_lt_is_Some_2. rewrite <- Hlen. by eapply lookup_lt_Some. }
    destruct (Hs i s Hi) as (s1 & Hi1 & Hn & Ha & Hr & Hz). rewrite Hi' in Hi1. injection Hi1 as <-.
    destruct (cn_svc _ _ HC i s Hi) as (Ha0 & Hr0 & Hz0). split_and!.
    + rewrite total_insert. lia.
    + rewrite total_insert. lia.
    + rewrite Hn. intros E. rewrite Hz by done. by apply Hz0.
  - intros h' l' c Hh Hc. rewrite Hlen. destruct (decide (h' = h)) as [->|].
    + rewrite lookup_insert_eq in Hh. injection Hh as <-. by apply Hl.
    + rewrite lookup_insert_ne in Hh by done. by eapply cn_entry.
Qed.

(** Services that change, and new ones. *)
Lemma counted_put svs ct (k : nat) s : Counted svs ct → svc_ok ct (Z.of_nat k) s → Counted (<[k := s]> svs) ct.
Proof.
  intros HC Hs. split.
  - intros i s0 Hi. destruct (decide (i = k)) as [->|Hne].
    + destruct (decide (k < length svs)%nat); [rewrite list_lookup_insert_eq in Hi by done; by injection Hi as <-|].
      rewrite list_insert_ge in Hi by lia. by apply (cn_svc _ _ HC).
    + rewrite list_lookup_insert_ne in Hi by done. by apply (cn_svc _ _ HC).
  - intros h l c Hl Hc. rewrite length_insert. by eapply cn_entry.
Qed.

Lemma counted_map f svs ct : Counted svs ct → (∀ i s, svc_ok ct i s → svc_ok ct i (f s)) → Counted (map f svs) ct.
Proof.
  intros HC Hf. split.
  - intros i s Hi. change (map f svs) with (f <$> svs) in Hi. apply list_lookup_fmap_Some in Hi as (s0 & -> & Hs). by apply Hf, (cn_svc _ _ HC).
  - intros h l c Hl Hc. rewrite length_map. by eapply cn_entry.
Qed.

Lemma total_none n svs ct f : Counted svs ct → n = Z.of_nat (length svs) → (∀ c, f c = true → si c = n) → total f ct = 0.
Proof.
  intros HC -> Hf. assert (∀ h l, ct !! h = Some l → entries f l = 0) as He.
  { intros h l Hl. assert (∀ c, c ∈ l → f c = false) as Hl'.
    { intros c Hc. destruct (f c) eqn:E; [|done]. apply Hf in E. destruct (cn_entry _ _ HC h l c Hl Hc) as [? _]. lia. }
    clear Hl. induction l as [|c l IH]; [done|]. rewrite entries_cons, (Hl' c), IH; [done| |by left]. intros x Hx. apply Hl'. by right. }
  clear HC Hf. induction ct as [|h l ct Hh IH] using map_ind; [done|]. rewrite total_fresh by done.
  rewrite (He h l) by apply lookup_insert_eq. apply IH. intros h' l' Hl'. apply (He h').
  rewrite lookup_insert_ne; [done|]. congruence.
Qed.

Lemma counted_snoc svs ct s : Counted svs ct → nactive (stats s) = 0 → ready_workers (stats s) = 0 →
  (s_name (conf s) = None → s_exec (conf s) = None) → Counted (svs ++ [s]) ct.
Proof.
  intros HC Ha Hr Hn. split.
  - intros i s0 Hi. apply lookup_app_Some in Hi as [Hi|[Hle Hi]]; [by apply (cn_svc _ _ HC)|].
    apply list_lookup_singleton_Some in Hi as [Hi <-]. assert (Z.of_nat i = Z.of_nat (length svs)) as -> by lia.
    unfold svc_ok. rewrite Ha, Hr, !(total_none _ _ _ _ HC eq_refl); [by auto|..];
      (intros c Hc; unfold alive, idle in Hc; by apply andb_true_iff in Hc as [?%Z.eqb_eq _]).
  - intros h l c Hl Hc. rewrite length_app. cbn [length]. destruct (cn_entry _ _ HC h l c Hl Hc) as [? ?]. split; [lia|done].
Qed.

Lemma counted_same svs ct h l :
  Counted svs ct → (∀ c, c ∈ l → entry_ok (Z.of_nat (length svs)) c) →
  (∀ i, 0 ≤ i → entries (alive i) l = entries (alive i) (default [] (ct !! h))
                ∧ entries (idle i) l = entries (idle i) (default [] (ct !! h))) →
  Counted svs (<[h:=l]> ct).
Proof.
  intros HC Hl He. eapply counted_chain; [done|done|done|]. intros i s Hi. exists s.
  destruct (He (Z.of_nat i)) as [-> ->]; [lia|]. split_and!; try done; lia.
Qed.

Lemma counted_one svs ct h l k s s' :
  Counted svs ct → (∀ c, c ∈ l → entry_ok (Z.of_nat (length svs)) c) → 0 ≤ k →
  svs !! Z.to_nat k = Some s → s_name (conf s) ≠ None → s_name (conf s') ≠ None →
  nactive (stats s') = nactive (stats s) + (entries (alive k) l - entries (alive k) (default [] (ct !! h))) →
  ready_workers (stats s') = ready_workers (stats s) + (entries (idle k) l - entries (idle k) (default [] (ct !! h))) →
  (∀ i, 0 ≤ i → i ≠ k → entries (alive i) l = entries (alive i) (default [] (ct !! h))
                        ∧ entries (idle i) l = entries (idle i) (default [] (ct !! h))) →
  Counted (<[Z.to_nat k := s']> svs) (<[h:=l]> ct).
Proof.
  intros HC Hl Hk Hs Hn Hn' Ha Hr He.
  assert (Counted (<[Z.to_nat k := set_conf (conf s) s']> svs) (<[h:=l]> ct)) as HC'.
  { eapply counted_chain; [done|by rewrite length_insert|done|]. intros i s0 Hi.
    destruct (decide (i = Z.to_nat k)) as [->|Hne].
    - rewrite Hs in Hi. injection Hi as <-. exists (set_conf (conf s) s').
      rewrite list_lookup_insert_eq by (by eapply lookup_lt_Some). rewrite Z2Nat.id by done. cbn [set_conf conf stats].
      split_and!; try done; lia.
    - exists s0. rewrite list_lookup_insert_ne by done. destruct (He (Z.of_nat i)) as [-> ->]; [lia..|].
      split_and!; try done; lia. }
  rewrite <- (list_insert_insert_eq svs (Z.to_nat k) s' (set_conf (conf s) s')). apply counted_put; [done|].
  destruct (cn_svc _ _ HC' (Z.to_nat k) (set_conf (conf s) s')) as (H1 & H2 & _).
  { apply list_lookup_insert_eq. by eapply lookup_lt_Some. }
  by split_and!.
Qed.

(** ** The schedule *)

Lemma insert_perm a e l : insert_event a e l ≡ₚ a :: e :: l.
Proof.
  revert e. induction l as [|e' l IH]; intros e; cbn [insert_event]; [apply Permutation_swap|].
  destruct (mark e' <=? mark a); [rewrite IH|]; apply Permutation_swap.
Qed.

Lemma scheduled_perm a l : scheduled a l ≡ₚ a :: l.
Proof. unfold scheduled. destruct l as [|e l]; [done|]. destruct (mark a <? mark e); [done|apply insert_perm]. Qed.

Definition by_mark (e1 e2 : event) : Prop := mark e1 ≤ mark e2.

Lemma scheduled_sorted a l : StronglySorted by_mark l → StronglySorted by_mark (scheduled a l).
Proof.
  unfold scheduled. destruct l as [|e l]; [repeat constructor|]. intros H. inversion_clear H as [|?? Hs Hf].
  destruct (Z.ltb_spec (mark a) (mark e)).
  { constructor; [by constructor|]. constructor; [unfold by_mark; lia|].
    eapply Forall_impl; [exact Hf|]. unfold by_mark. intros; cbn in *; lia. }
  revert e Hf H. induction Hs as [|e' l Hs IH Hf']; intros e Hf Hae; cbn [insert_event].
  { repeat constructor. done. }
  inversion_clear Hf as [|?? He Hf2]. destruct (Z.leb_spec (mark e') (mark a)).
  - constructor; [by apply IH|]. rewrite insert_perm. by repeat constructor.
  - constructor; [|repeat constructor; done]. constructor; [by constructor|].
    constructor; [unfold by_mark; lia|]. eapply Forall_impl; [exact Hf'|]. unfold by_mark. intros; cbn in *; lia.
Qed.

(** ** Entries of a chain *)

Lemma find_child_in p l c : find_child p l = Some c → c ∈ l ∧ pid c = p.
Proof.
  induction l as [|c' l IH]; cbn; [done|]. destruct (Z.eqb_spec (pid c') p).
  - intros [= ->]. split; [by left|done].
  - intros [? ?]%IH. split; [by right|done].
Qed.

Lemma entries_change g p f l c : find_child p l = Some c →
  entries g (change_child p f l) = entries g l - b2z (g c) + b2z (g (f c)).
Proof.
  induction l as [|c' l IH]; cbn [find_child change_child]; [done|]. destruct (pid c' =? p).
  - intros [= ->]. rewrite !entries_cons. lia.
  - intros H. rewrite !entries_cons, IH by done. lia.
Qed.

Lemma change_child_in p f l c x : find_child p l = Some c → x ∈ change_child p f l → x ∈ l ∨ x = f c.
Proof.
  induction l as [|c' l IH]; cbn [find_child change_child]; [done|]. destruct (pid c' =? p).
  - intros [= ->] [->|Hx]%elem_of_cons; [by right|left; by right].
  - intros H [->|Hx]%elem_of_cons; [left; by left|]. destruct (IH H Hx); [left; by right|by right].
Qed.

(** ** Small programs *)

Section Programs.
Context `{K : Kernel}.

Lemma wp_call {A} (f : nat → A) Q m : Q (f (calls m)) (set_calls (S (calls m)) m) → wp (call f) Q m.
Proof. intros H. unfold call. apply wp_bind, wp_get, wp_bind, wp_modify. by apply wp_ret. Qed.

Lemma wp_service_at i s Q m : 0 ≤ i → Services m !! Z.to_nat i = Some s → Q s m → wp (service_at i) Q m.
Proof.
  intros Hi Hs H. unfold service_at. apply wp_bind, wp_get. destruct (Z.ltb_spec i 0); [lia|]. rewrite Hs. by apply wp_ret.
Qed.

Definition hash (p : Z) : Z := Z.rem p child_table_size.
Lemma child_hash_ok p : 0 ≤ p → child_hash p = Ok (hash p).
Proof.
  intros Hp. unfold child_hash, hash. pose proof (Z.rem_nonneg p child_table_size ltac:(done) Hp).
  by destruct (Z.ltb_spec (Z.rem p child_table_size) 0); [lia|].
Qed.

Lemma wp_get_centry Q m : (∀ c l, Q c (set_cfreelist l m)) → wp get_centry Q m.
Proof.
  intros H. unfold get_centry. apply wp_bind, wp_get. destruct (cfreelist m); by apply wp_bind, wp_modify, wp_ret.
Qed.

Lemma wp_add_child p st d i Q m :
  0 ≤ p →
  (∀ c l, pid c = p → service_state c = st → si c = i →
     Q tt (set_ctable (<[hash p := c :: chain (hash p) m]> (ctable m)) (set_cfreelist l m))) →
  wp (add_child p st d i) Q m.
Proof.
  intros Hp H. unfold add_child. apply wp_bind. eapply wp_liftr; [by apply child_hash_ok|].
  apply wp_bind, wp_get_centry. intros c l. apply wp_bind, wp_get. unfold put_chain. apply wp_modify.
  by apply (H (Centry p st d i (m_start_time c) (m_user_buf c) (m_host_buf c))).
Qed.

Lemma wp_count_protocol n d Q m :
  (∀ a b, Q tt (add_counts a b m)) → Q tt m → wp (count_protocol (Some n) d) Q m.
Proof. intros H1 H2. unfold count_protocol. destruct (is_imap n); [by apply wp_modify|]. destruct (is_pop3 n); [by apply wp_modify|by apply wp_ret]. Qed.

Lemma entry_ok_in svs ct h l c :
  Counted svs ct → c ∈ default [] (ct !! h) → l = length svs → entry_ok (Z.of_nat l) c.
Proof. intros HC Hc ->. destruct (ct !! h) as [l'|] eqn:E; [by eapply cn_entry|by apply elem_of_nil in Hc]. Qed.

(** Counters that change without the numbers of children. *)
Lemma counted_stats svs ct k s t :
  Counted svs ct → 0 ≤ k → svs !! Z.to_nat k = Some s →
  nactive t = nactive (stats s) → ready_workers t = ready_workers (stats s) →
  Counted (<[Z.to_nat k := set_stats t s]> svs) ct.
Proof.
  intros HC Hk Hs Ha Hr. apply counted_put; [done|]. destruct (cn_svc _ _ HC _ _ Hs) as (H1 & H2 & H3).
  unfold svc_ok. cbn [set_stats stats conf]. by rewrite Ha, Hr.
Qed.

(** A new entry in front of a chain: of no service, or of one whose counters follow. *)
Lemma counted_event svs ct h c :
  Counted svs ct → si c = SERVICE_NONE → service_state c ≠ SERVICE_STATE_INIT → service_state c ≠ SERVICE_STATE_UNKNOWN →
  Counted svs (<[h := c :: default [] (ct !! h)]> ct).
Proof.
  intros HC Hc Hst Hst'. apply counted_same; [done| |].
  - intros x [->|Hx]%elem_of_cons; [split; [rewrite Hc; unfold SERVICE_NONE; lia|done]|by eapply entry_ok_in].
  - intros i Hi. rewrite !entries_cons. destruct (not_of i c) as [-> ->]; [rewrite Hc; unfold SERVICE_NONE; lia|done].
Qed.

Lemma counted_spawn svs ct h c k s s' :
  Counted svs ct → 0 ≤ k → svs !! Z.to_nat k = Some s → s_name (conf s) ≠ None → s_name (conf s') ≠ None →
  si c = k → service_state c = SERVICE_STATE_READY →
  nactive (stats s') = nactive (stats s) + 1 → ready_workers (stats s') = ready_workers (stats s) + 1 →
  Counted (<[Z.to_nat k := s']> svs) (<[h := c :: default [] (ct !! h)]> ct).
Proof.
  intros HC Hk Hs Hn Hn' Hc Hst Ha Hr. pose proof (lookup_lt_Some _ _ _ Hs).
  apply (counted_one svs ct h _ k s s'); try done.
  - intros x [->|Hx]%elem_of_cons; [split; [lia|by rewrite Hst]|by eapply entry_ok_in].
  - rewrite entries_cons. destruct (ready_of k c Hc Hst) as [-> _]. cbn [b2z]. lia.
  - rewrite entries_cons. destruct (ready_of k c Hc Hst) as [_ ->]. cbn [b2z]. lia.
  - intros i _ Hne. rewrite !entries_cons. destruct (not_of i c) as [-> ->]; [lia|done].
Qed.
End Programs.

(** ** [spawn_service] *)

(** A [fork] between the calls [a] and [b] has failed; an event has been scheduled
    within two seconds of one of them. *)
Definition fork_failed `{K : Kernel} (a b : nat) : Prop := ∃ n, (a ≤ n < b)%nat ∧ k_fork n = -1.
Definition wakeup_call `{K : Kernel} (a b : nat) (m : master) : Prop :=
  ∃ e n, e ∈ schedule m ∧ (a ≤ n < b)%nat ∧ mark e = k_time n + FORKRATE_INTERVAL.

Definition troubled `{K : Kernel} (s : service) (a b : nat) (m : master) : Prop :=
  fork_failed a b ∨ (maxforkrate (limits s) ≠ 0 ∧ wakeup_call a b m).

(** From [m] to [m'] the service [s] has become [s']: it has got [n] more children
    that are ready, or fewer and there is a reason. *)
Definition grown `{K : Kernel} (n : Z) (m : master) (s : service) (m' : master) (s' : service) : Prop :=
  conf s' = conf s ∧ limits s' = limits s ∧ comm s' = comm s ∧ (calls m ≤ calls m')%nat ∧
  (∀ e, e ∈ schedule m → e ∈ schedule m') ∧
  ∃ j, 0 ≤ j ≤ n ∧ ready_workers (stats s') = ready_workers (stats s) + j ∧
    nactive (stats s') = nactive (stats s) + j ∧ (j = n ∨ troubled s (calls m) (calls m') m').

Lemma troubled_mono `{K : Kernel} s a b a' b' m m' :
  troubled s a b m → (a' ≤ a)%nat → (b ≤ b')%nat → (∀ e, e ∈ schedule m → e ∈ schedule m') → troubled s a' b' m'.
Proof.
  intros [(n & Hn & ?)|[Hr (e & n & He & Hn & ?)]] Ha Hb Hs; [left|right; split; [done|]].
  - exists n. split; [lia|done].
  - exists e, n. split_and!; [by apply Hs|lia|lia|done].
Qed.

Lemma grown_refl `{K : Kernel} m s : grown 0 m s m s.
Proof. split_and!; try done. exists 0. split_and!; try lia. Qed.

Lemma grown_trans `{K : Kernel} n1 n2 m s m1 s1 m2 s2 :
  grown n1 m s m1 s1 → grown n2 m1 s1 m2 s2 → grown (n1 + n2) m s m2 s2.
Proof.
  intros (Hc1 & Hl1 & Hm1 & Hn1 & Hs1 & j1 & Hj1 & Hr1 & Ha1 & H1) (Hc2 & Hl2 & Hm2 & Hn2 & Hs2 & j2 & Hj2 & Hr2 & Ha2 & H2).
  split_and!; [congruence..|lia|auto|]. exists (j1 + j2). split_and!; [lia..|].
  destruct H1 as [->|H1]; [destruct H2 as [->|H2]; [by left|right]|right].
  - unfold troubled in H2. rewrite Hl1 in H2. eapply (troubled_mono s); [exact H2|lia|lia|auto].
  - eapply troubled_mono; [exact H1|lia|lia|auto].
Qed.

Section Operations.
Context `{K : Kernel} (Hfork : ∀ n, k_fork n = -1 ∨ 0 < k_fork n).

Lemma update_forkrate_counts now t :
  nactive (update_forkrate now t) = nactive t ∧ ready_workers (update_forkrate now t) = ready_workers t.
Proof using. unfold update_forkrate. repeat case_match; done. Qed.

Lemma wp_spawn_service i s Q m :
  Inv m → 0 ≤ i → Services m !! Z.to_nat i = Some s → s_name (conf s) ≠ None →
  (∀ m' s', Inv m' → Services m' = <[Z.to_nat i := s']> (Services m) → grown 1 m s m' s' → Q tt m') →
  wp (spawn_service i) Q m.
Proof using Hfork.
  intros [HC He] Hi Hs Hn HQ. unfold spawn_service. apply wp_bind. eapply wp_service_at; [done..|].
  apply wp_bind. unfold time. apply wp_call. destruct (s_name (conf s)) as [name|] eqn:En; [clear Hn|done].
  set (t := update_forkrate (k_time (calls m)) (stats s)).
  destruct (update_forkrate_counts (k_time (calls m)) (stats s)) as [Ha Hr]. fold t in Ha, Hr.
  apply wp_bind. unfold put_service. apply wp_modify.
  assert (Counted (<[Z.to_nat i := set_stats t s]> (Services m)) (ctable m)) as HC1 by (by apply counted_stats).
  destruct (_ && _) eqn:Eb.
  - apply andb_true_iff in Eb as [Hmax _]. apply negb_true_iff, Z.eqb_neq in Hmax.
    apply wp_bind, wp_call. unfold schedule_event. apply wp_modify.
    eapply (HQ _ (set_stats t s)); [split; [done|]|done|].
    + cbn [schedule set_schedule set_calls set_services]. rewrite scheduled_perm. constructor; [by intros ?|done].
    + unfold grown. cbn [calls set_schedule set_calls set_services set_stats conf limits comm stats]. split_and!; [done..|lia| |].
      { intros e Hin. cbn [schedule set_schedule set_calls set_services]. rewrite scheduled_perm. by right. }
      exists 0. split_and!; [lia..|]. right. right. split; [done|]. exists (Event [] (k_time (S (calls m)) + FORKRATE_INTERVAL) 0 false None), (S (calls m)). split; [|split; [|done]].
      * cbn [schedule set_schedule set_calls set_services]. rewrite scheduled_perm. by left.
      * cbn [calls set_schedule set_calls set_services]. lia.
  - apply wp_bind. assert (∀ a b, wp (p ← call k_fork;
        if p =? -1 then mret tt
        else put_service i (set_stats (started t) s);; add_child p SERVICE_STATE_READY 0 i) Q
        (add_counts a b (set_services (<[Z.to_nat i := set_stats t s]> (Services m)) (set_calls (S (calls m)) m)))) as Hgo.
    2:{ apply wp_count_protocol; [apply Hgo|]. specialize (Hgo 0 0). unfold add_counts in Hgo. by rewrite !Z.add_0_r in Hgo. }
    intros a b. apply wp_bind, wp_call. cbn [calls add_counts set_services set_calls].
    destruct (Hfork (S (calls m))) as [Hf|Hf].
    + rewrite Hf. apply wp_ret. eapply (HQ _ (set_stats t s)); [by split|done|].
      unfold grown. cbn [calls set_calls add_counts set_services set_stats conf limits comm stats]. split_and!; [done..|lia|done|].
      exists 0. split_and!; [lia..|]. right. left. exists (S (calls m)). split; [lia|done].
    + destruct (Z.eqb_spec (k_fork (S (calls m))) (-1)) as [E|_]; [lia|].
      apply wp_bind. unfold put_service. apply wp_modify, wp_add_child; [lia|]. intros c l _ Hst Hsi.
      cbn [Services ctable set_calls add_counts set_services set_ctable set_cfreelist chain]. unfold chain.
      cbn [ctable set_calls add_counts set_services]. rewrite list_insert_insert_eq.
      eapply (HQ _ (set_stats (started t) s)); [split|done|].
      * cbn [Services ctable set_calls add_counts set_services set_ctable set_cfreelist].
        eapply counted_spawn; try done; cbn [conf stats set_stats started nactive ready_workers]; try congruence; lia.
      * done.
      * unfold grown. cbn [calls set_calls add_counts set_services set_ctable set_cfreelist set_stats conf limits comm stats started ready_workers nactive].
        split_and!; [done..|lia|done|]. exists 1. split_and!; [lia..|by left].
Qed.
Lemma wp_spawn_many n i : ∀ s Q m,
  Inv m → 0 ≤ i → Services m !! Z.to_nat i = Some s → s_name (conf s) ≠ None →
  (∀ m' s', Inv m' → Services m' = <[Z.to_nat i := s']> (Services m) → grown (Z.of_nat n) m s m' s' → Q tt m') →
  wp (spawn_many n i) Q m.
Proof using Hfork.
  induction n as [|n IH]; intros s Q m HI Hi Hs Hn HQ; cbn [spawn_many].
  - apply wp_ret, (HQ m s); [done|by rewrite list_insert_id|apply grown_refl].
  - apply wp_bind. eapply wp_spawn_service; [done..|]. intros m1 s1 HI1 Hs1 Hg1.
    pose proof (lookup_lt_Some _ _ _ Hs) as Hlt.
    eapply (IH s1); [done|done|by rewrite Hs1, list_lookup_insert_eq|destruct Hg1 as (-> & _); done|].
    intros m2 s2 HI2 Hs2 Hg2. apply (HQ m2 s2); [done|by rewrite Hs2, Hs1, list_insert_insert_eq|].
    replace (Z.of_nat (S n)) with (1 + Z.of_nat n) by lia. by eapply grown_trans.
Qed.

(** [bring_up]: afterwards the service has the workers it should have, and one for
    the connection, or there is a reason. *)
Lemma wp_bring_up i b s Q m :
  Inv m → 0 ≤ i → Services m !! Z.to_nat i = Some s → (enabled s = true → s_name (conf s) ≠ None) →
  (∀ m' s', Inv m' → Services m' = <[Z.to_nat i := s']> (Services m) → conf s' = conf s → limits s' = limits s →
     (enabled s = true → nactive (stats s) < max_workers (limits s) →
        (desired_workers (limits s) ≤ ready_workers (stats s') ∧ (b = true → ready_workers (stats s') ≠ 0))
        ∨ troubled s (calls m) (calls m') m') → Q tt m') →
  wp (bring_up i b) Q m.
Proof using Hfork.
  intros HI Hi Hs Hn HQ. pose proof (lookup_lt_Some _ _ _ Hs) as Hlt. unfold bring_up. apply wp_bind. eapply wp_service_at; [done..|].
  destruct (enabled s) eqn:Een; cbn [andb].
  2:{ apply wp_ret, (HQ m s); [done|by rewrite list_insert_id|done..]. }
  destruct (Z.ltb_spec (nactive (stats s)) (max_workers (limits s))) as [Hmax|Hmax].
  2:{ apply wp_ret, (HQ m s); [done|by rewrite list_insert_id|done..|lia]. }
  specialize (Hn eq_refl). apply wp_bind. eapply wp_spawn_many; [done..|]. intros m1 s1 HI1 Hs1 Hg1.
  assert (Services m1 !! Z.to_nat i = Some s1) as Hl1 by by rewrite Hs1, list_lookup_insert_eq.
  apply wp_bind. eapply wp_service_at; [done..|].
  assert (∀ n2 m2 s2, grown n2 m1 s1 m2 s2 → (b = true → n2 = 0 → ready_workers (stats s1) ≠ 0) → 0 ≤ n2 →
    (n2 ≠ 0 → ready_workers (stats s1) = 0) →
    (desired_workers (limits s) ≤ ready_workers (stats s2) ∧ (b = true → ready_workers (stats s2) ≠ 0))
      ∨ troubled s (calls m) (calls m2) m2) as Hend.
  { intros n2 m2 s2 Hg2 Hb Hn2 Hz. pose proof (grown_trans _ _ _ _ _ _ _ _ Hg1 Hg2) as (_ & _ & _ & _ & _ & j & Hj & Hr & _ & [->|?]); [|by right].
    left. destruct Hg2 as (_ & _ & _ & _ & _ & j2 & Hj2 & Hr2 & _). destruct Hg1 as (_ & _ & _ & _ & _ & j1 & Hj1 & Hr1 & _).
    split; [lia|]. intros Hbt. destruct (decide (n2 = 0)) as [->|Hne]; [specialize (Hb Hbt eq_refl); lia|]. specialize (Hz Hne). lia. }
  destruct Hg1 as (Hc1 & Hlim1 & Hg1').
  destruct (_ && b) eqn:Eb.
  - apply andb_true_iff in Eb as [Ez ->]. apply Z.eqb_eq in Ez.
    eapply wp_spawn_service; [done..|by rewrite Hc1|]. intros m2 s2 HI2 Hs2 Hg2.
    apply (HQ m2 s2); [done|by rewrite Hs2, Hs1, list_insert_insert_eq|..].
    + destruct Hg2 as (-> & _). done.
    + destruct Hg2 as (_ & -> & _). done.
    + intros _ _. eapply Hend; [exact Hg2|lia..].
  - apply wp_ret, (HQ m1 s1); [done..|]. intros _ _. eapply (Hend 0 m1 s1); [apply grown_refl| |lia..].
    intros -> _. rewrite andb_true_r in Eb. by apply Z.eqb_neq.
Qed.
(** ** [check_service] *)

Lemma counted_removed svs ct k s : Counted svs ct → 0 ≤ k → svs !! Z.to_nat k = Some s →
  nactive (stats s) = 0 → enabled s = false → Counted (<[Z.to_nat k := removed s]> svs) ct.
Proof using.
  intros HC Hk Hs Ha He. apply counted_put; [done|]. destruct (cn_svc _ _ HC _ _ Hs) as (H1 & H2 & H3).
  split_and!; cbn [removed stats nactive ready_workers]; [lia|done|]. intros _. split; [done|]. cbn [removed conf s_exec].
  unfold enabled in He. apply bool_decide_eq_false in He. by destruct (s_exec (conf s)); [destruct He|].
Qed.

Lemma inv_service m i s : Inv m → 0 ≤ i → Services m !! Z.to_nat i = Some s → svc_ok (ctable m) i s.
Proof using. intros [HC _] Hi Hs. pose proof (cn_svc _ _ HC _ _ Hs) as H. by rewrite Z2Nat.id in H. Qed.

Lemma enabled_named m i s : Inv m → 0 ≤ i → Services m !! Z.to_nat i = Some s → enabled s = true → s_name (conf s) ≠ None.
Proof using.
  intros HI Hi Hs He%bool_decide_eq_true Hn. destruct (inv_service _ _ _ HI Hi Hs) as (_ & _ & H).
  by destruct (H Hn) as [_ ?].
Qed.

Lemma wp_check_service i m : Inv m → 0 ≤ i < Z.of_nat (length (Services m)) → wp (check_service i) (λ _ m', Inv m' ∧ length (Services m') = length (Services m)) m.
Proof using Hfork.
  intros HI Hi. destruct (lookup_lt_is_Some_2 (Services m) (Z.to_nat i)) as [s Hs]; [lia|].
  unfold check_service. apply wp_bind. eapply wp_service_at; [lia|done|].
  pose proof (enabled_named m i s HI ltac:(lia) Hs) as Hn. destruct (enabled s) eqn:Een; cbn [andb negb].
  - specialize (Hn eq_refl). assert (wp (spawn_service i) (λ _ m', Inv m' ∧ length (Services m') = length (Services m)) m) as Hsp.
    { eapply wp_spawn_service; [done|lia|done..|]. intros m' s' HI' Hs' _. by rewrite Hs', length_insert. }
    repeat case_match; [done..|by apply wp_ret].
  - destruct (bool_decide _ && _) eqn:Eb; [|by apply wp_ret]. apply andb_true_iff in Eb as [_ Ea%Z.eqb_eq].
    unfold put_service. apply wp_modify. destruct HI as [HC He]. split; [split; [|done]|apply length_insert].
    by apply counted_removed; [|lia|..].
Qed.

(** ** [reap_child] *)

Lemma legal_ok n c : entry_ok n c → legal (service_state c) = service_state c.
Proof using. intros (_ & H & _). by destruct (service_state c). Qed.

Definition gone (d : Z) (c : centry) : centry :=
  Centry (pid c) SERVICE_STATE_DEAD d (si c) (m_start_time c) (m_user_buf c) (m_host_buf c).

Lemma gone_not i d c : alive i (gone d c) = false ∧ idle i (gone d c) = false.
Proof using. unfold alive, idle. cbn. by rewrite !andb_false_r. Qed.

Lemma counted_gone svs ct h p d c l :
  Counted svs ct → l = default [] (ct !! h) → find_child p l = Some c →
  (si c = SERVICE_NONE → Counted svs (<[h := change_child p (gone d) l]> ct)) ∧
  (0 ≤ si c → ∃ s, svs !! Z.to_nat (si c) = Some s ∧
     (service_state c ≠ SERVICE_STATE_DEAD → s_name (conf s) ≠ None) ∧
     Counted (<[Z.to_nat (si c) := set_stats (account (service_state c) (stats s)) s]> svs) (<[h := change_child p (gone d) l]> ct)).
Proof using.
  intros HC -> Hf. destruct (find_child_in _ _ _ Hf) as [Hin _].
  destruct (ct !! h) as [l|] eqn:El; cbn [from_option] in *; unfold id in *; [|done].
  assert (∀ x, x ∈ change_child p (gone d) l → entry_ok (Z.of_nat (length svs)) x) as Hall.
  { intros x Hx. destruct (change_child_in _ _ _ _ _ Hf Hx) as [?| ->]; [by eapply cn_entry|].
    destruct (cn_entry _ _ HC h l c El Hin) as (? & _). done. }
  assert (∀ g, (∀ x, g (gone d x) = false) → entries g (change_child p (gone d) l) = entries g l - b2z (g c)) as He.
  { intros g Hg. rewrite (entries_change _ _ _ _ _ Hf), Hg. cbn [b2z]. lia. }
  split.
  - intros Hs. apply counted_same; [done..|]. intros i Hi. rewrite El. cbn [from_option]. unfold id.
    rewrite !He by (intros; apply gone_not). destruct (not_of i c) as [-> ->]; [rewrite Hs; unfold SERVICE_NONE; lia|]. cbn [b2z]. lia.
  - intros Hs. destruct (cn_entry _ _ HC h l c El Hin) as (Hr & Hst1 & Hst2).
    destruct (lookup_lt_is_Some_2 svs (Z.to_nat (si c))) as [s Hs']; [lia|]. exists s. split; [done|].
    assert (service_state c ≠ SERVICE_STATE_DEAD → s_name (conf s) ≠ None) as Hn.
    { intros Hst En. destruct (cn_svc _ _ HC _ _ Hs') as (Ha & _ & Hz). destruct (Hz En) as [Hz0 _].
      rewrite Z2Nat.id in Ha by done. pose proof (total_in (alive (si c)) ct h l c El Hin) as Ht.
      rewrite <- Ha, Hz0 in Ht. unfold alive in Ht. rewrite Z.eqb_refl, bool_decide_eq_true_2 in Ht by done. by specialize (Ht eq_refl). }
    split; [done|]. destruct (decide (service_state c = SERVICE_STATE_DEAD)) as [Hd|Hd].
    + rewrite Hd. cbn [account]. replace (set_stats (stats s) s) with s by by destruct s. rewrite list_insert_id by done.
      apply counted_same; [done..|]. intros i Hi. rewrite El. cbn [from_option]. unfold id.
      rewrite !He by (intros; apply gone_not). unfold alive at 2, idle at 2. rewrite Hd, !andb_false_r. cbn [b2z]. lia.
    + specialize (Hn Hd). apply (counted_one svs ct h _ (si c) s); try done.
      * rewrite El. cbn [from_option]. unfold id. rewrite He by (intros; apply gone_not). unfold alive at 2.
        rewrite Z.eqb_refl, bool_decide_eq_true_2 by done. cbn [b2z andb stats set_stats].
        destruct (service_state c); try done; cbn [account count nactive]; lia.
      * rewrite El. cbn [from_option]. unfold id. rewrite He by (intros; apply gone_not). unfold idle at 2.
        rewrite Z.eqb_refl. cbn [stats set_stats andb].
        case_bool_decide as Hr'; [rewrite Hr'; cbn; lia|]. destruct (service_state c); try done; cbn; lia.
      * intros i _ Hne. rewrite El. cbn [from_option]. unfold id. rewrite !He by (intros; apply gone_not).
        destruct (not_of i c) as [-> ->]; [done|]. cbn [b2z]. lia.
Qed.
Lemma wp_reap_one p m : 0 < p → Inv m → wp (reap_one p) (λ _ m', Inv m') m.
Proof using.
  intros Hp [HC He]. unfold reap_one. apply wp_bind. eapply wp_liftr; [apply child_hash_ok; lia|].
  apply wp_bind, wp_get. destruct (find_child p (chain (hash p) m)) as [c|] eqn:Ef.
  2:{ apply wp_bind. unfold time. apply wp_call. apply wp_add_child; [lia|]. intros c l _ Hst Hsi. split; [|done].
      apply counted_event; [done..|by rewrite Hst|by rewrite Hst]. }
  destruct (find_child_in _ _ _ Ef) as [Hin _].
  destruct (entry_ok_in _ _ _ (length (Services m)) c HC Hin eq_refl) as ((Hlo & Hhi) & Hst).
  rewrite (legal_ok _ c (conj (conj Hlo Hhi) Hst)).
  assert (∀ m1, ctable m1 = ctable m → schedule m1 = schedule m →
    (∀ d, Counted (Services m1) (<[hash p := change_child p (gone d) (chain (hash p) m)]> (ctable m))) →
    wp (now ← time; put_chain (hash p) (change_child p (gone (now + 2)) (chain (hash p) m))) (λ _ m', Inv m') m1) as Hend.
  { intros m1 H1 H2 H3. apply wp_bind. unfold time, put_chain. apply wp_call, wp_modify. split; cbn; rewrite ?H1, ?H2; [apply H3|done]. }
  destruct (Z.eqb_spec (si c) SERVICE_NONE) as [Hs|Hs].
  - apply wp_bind, wp_ret, Hend; [done..|]. intros d. by apply (counted_gone _ _ _ _ d c _ HC eq_refl Ef).
  - assert (0 ≤ si c) as Hsi by (unfold SERVICE_NONE in Hs; lia).
    destruct (proj2 (counted_gone _ _ _ _ 0 c _ HC eq_refl Ef) Hsi) as (s & Hs' & Hn & _).
    assert (∀ m1, Services m1 = <[Z.to_nat (si c) := set_stats (account (service_state c) (stats s)) s]> (Services m) →
      ∀ d, Counted (Services m1) (<[hash p := change_child p (gone d) (chain (hash p) m)]> (ctable m))) as HC1.
    { intros m1 -> d. destruct (proj2 (counted_gone _ _ _ _ d c _ HC eq_refl Ef) Hsi) as (s1 & Hs1 & _ & H).
      rewrite Hs' in Hs1. injection Hs1 as <-. exact H. }
    apply wp_bind, wp_bind. eapply wp_service_at; [done..|]. apply wp_bind. unfold put_service. apply wp_modify.
    destruct (decide (service_state c = SERVICE_STATE_DEAD)) as [Hd|Hd].
    + apply wp_ret, Hend; [done..|]. by apply HC1.
    + specialize (Hn Hd). destruct (s_name (conf s)) as [name|]; [|done].
      apply wp_count_protocol; [intros a b|]; (apply Hend; [done..|by apply HC1]).
Qed.

Lemma wp_reap_child ps m : Forall (λ p, 0 < p) ps → Inv m → wp (reap_child ps) (λ _ m', Inv m') m.
Proof using.
  intros Hps. revert m. induction Hps as [|p ps Hp _ IH]; intros m HI; cbn [reap_child]; [by apply wp_ret|].
  apply wp_bind. eapply wp_mono; [by apply wp_reap_one|]. intros [] m1. apply IH.
Qed.

(** ** [spawn_schedule] *)

Lemma next_day_ok fuel now mk per : 0 < per → (Z.to_nat (now - mk + 1) < fuel)%nat →
  ∃ mk', next_day fuel now mk per = Ok mk' ∧ now < mk'.
Proof using.
  intros Hp. revert mk. induction fuel as [|fuel IH]; intros mk Hf; [lia|]. cbn [next_day].
  destruct (Z.leb_spec mk now); [apply IH; lia|]. by exists mk.
Qed.

Lemma wp_run_event now a m : event_ok a → Inv m → wp (run_event now a) (λ _ m', Inv m') m.
Proof using Hfork.
  intros Ha HI. unfold run_event. apply wp_bind.
  assert (∀ m1, Inv m1 → wp (if period a =? 0 then mret tt
    else if periodic a then schedule_event (set_mark (now + period a) a)
    else mk ← liftr (next_day (S (S (Z.to_nat (now - mark a)))) now (mark a) (period a)); schedule_event (set_mark mk a))
    (λ _ m', Inv m') m1) as Hend.
  { intros m1 [HC He]. assert (∀ x, wp (schedule_event (set_mark x a)) (λ _ m', Inv m') m1) as Hs.
    { intros x. unfold schedule_event. apply wp_modify. split; [done|]. cbn [schedule set_schedule]. rewrite scheduled_perm. by constructor. }
    destruct (Z.eqb_spec (period a) 0); [by apply wp_ret|]. destruct (periodic a) eqn:Ep; [apply Hs|].
    destruct (next_day_ok (S (S (Z.to_nat (now - mark a)))) now (mark a) (period a)) as (mk & Hmk & _); [by apply Ha|lia|].
    apply wp_bind. eapply wp_liftr; [exact Hmk|apply Hs]. }
  destruct (e_exec a); [|by apply wp_ret, Hend].
  apply wp_bind, wp_call. destruct (Hfork (calls m)) as [Hf|Hf].
  - rewrite Hf. apply wp_ret, Hend. by destruct HI.
  - destruct (Z.eqb_spec (k_fork (calls m)) (-1)); [lia|]. apply wp_add_child; [lia|]. intros c l0 _ Hst Hsi. apply Hend.
    destruct HI as [HC He]. split; [|done]. apply counted_event; [done..|by rewrite Hst|by rewrite Hst].
Qed.

Lemma wp_run_events now l m : Forall event_ok l → Inv m → wp (run_events now l) (λ _ m', Inv m') m.
Proof using Hfork.
  intros Hl. revert m. induction Hl as [|a l Ha _ IH]; intros m HI; cbn [run_events]; [by apply wp_ret|].
  apply wp_bind. eapply wp_mono; [by apply wp_run_event|]. intros [] m1. apply IH.
Qed.

Lemma take_due_perm now l a : let '(d, r) := take_due now l a in d ++ r ≡ₚ a ++ l.
Proof using.
  revert a. induction l as [|e l IH]; intros a; cbn [take_due]; [done|].
  destruct (mark e <=? now); [|done]. specialize (IH (e :: a)). destruct (take_due now l (e :: a)). rewrite IH.
  cbn [app]. by rewrite Permutation_middle.
Qed.

Lemma wp_spawn_schedule now m : Inv m → wp (spawn_schedule now) (λ _ m', Inv m') m.
Proof using Hfork.
  intros [HC He]. unfold spawn_schedule. apply wp_bind, wp_get.
  pose proof (take_due_perm now (schedule m) []) as Hp. destruct (take_due now (schedule m) []) as [d r].
  cbn [app] in Hp. rewrite <- Hp in He. apply Forall_app in He as [Hd Hr].
  apply wp_bind, wp_modify, wp_run_events; [done|]. by split.
Qed.

(** ** The janitor *)

Lemma sweep_chain_kept now l free : ∀ l' free', sweep_chain now l free = (l', free') →
  (∀ c, c ∈ l' ↔ c ∈ l ∧ expired now c = false) ∧
  (∀ i, entries (alive i) l' = entries (alive i) l ∧ entries (idle i) l' = entries (idle i) l).
Proof using.
  revert free. induction l as [|c l IH]; intros free l' free'; cbn [sweep_chain].
  { intros [= <- <-]. split; [|done]. intros c. rewrite elem_of_nil. by split; [|intros [? _]]. }
  destruct (expired now c) eqn:Ex.
  - intros H. destruct (IH _ _ _ H) as [H1 H2]. split.
    + intros x. rewrite H1, elem_of_cons. split; [by intros [? ?]; split; [right|]|].
      intros [[->|?] ?]; [congruence|done].
    + intros i. destruct (H2 i) as [-> ->]. rewrite !entries_cons. apply andb_true_iff in Ex as [Ed%bool_decide_eq_true _].
      unfold alive at 2, idle at 2. rewrite Ed, !andb_false_r. cbn [b2z]. lia.
  - destruct (sweep_chain now l free) as [l1 f1] eqn:Es. intros [= <- <-]. destruct (IH _ _ _ Es) as [H1 H2]. split.
    + intros x. rewrite !elem_of_cons, H1. split; [intros [->|[? ?]]; [split; [by left|done]|split; [by right|done]]|].
      intros [[->|?] ?]; [by left|by right].
    + intros i. rewrite !entries_cons. by destruct (H2 i) as [-> ->].
Qed.

Lemma wp_sweep n now m : Inv m → wp (sweep n now) (λ _ m', Inv m') m.
Proof using.
  revert m. induction n as [|n IH]; intros m [HC He]; cbn [sweep]; [by apply wp_ret|].
  apply wp_bind, wp_get, wp_bind, wp_get, wp_bind, wp_get, wp_bind, wp_get.
  destruct (sweep_chain _ _ _) as [l' f'] eqn:Es. destruct (sweep_chain_kept _ _ _ _ _ Es) as [H1 H2].
  unfold put_chain. apply wp_bind, wp_modify, wp_bind, wp_modify, wp_bind, wp_modify, IH. split; [|done].
  apply counted_same; [done| |intros; apply H2]. intros c [Hc _]%H1. by eapply entry_ok_in.
Qed.

Lemma wp_child_janitor f now m : Inv m → wp (child_janitor f now) (λ _ m', Inv m') m.
Proof using.
  intros HI. unfold child_janitor. apply wp_bind, wp_call, wp_bind, wp_get, wp_sweep. by destruct HI.
Qed.
(** ** Messages *)

(** A message from a registered child, through the pipe of its service. *)
Definition from_child (i : Z) (msg : notify_message) (m : master) : Prop :=
  0 ≤ i ∧ 0 ≤ service_pid msg ∧
  (∃ c, find_child (service_pid msg) (chain (hash (service_pid msg)) m) = Some c ∧ si c = i) ∧
  (message_ msg = MASTER_SERVICE_STATUS_ADD_USER →
     (∃ u, cstr (s_user_buf msg) = Ok u) ∧ ∃ h, cstr (s_host_buf msg) = Ok h) ∧
  (message_ msg = MASTER_SERVICE_STATUS_REMOVE_USER → conn_limit_tbl m = None).

Definition ready (st : sstate) : Z := b2z (bool_decide (st = SERVICE_STATE_READY)).

Lemma react_counts msg st t :
  let '(st', t') := react msg st t in
  nactive t' = nactive t ∧ (st = SERVICE_STATE_DEAD → st' = SERVICE_STATE_DEAD ∧ t' = t) ∧
  (st = SERVICE_STATE_READY ∨ st = SERVICE_STATE_BUSY →
     ready_workers t' = ready_workers t + ready st' - ready st ∧ (st' = SERVICE_STATE_READY ∨ st' = SERVICE_STATE_BUSY)).
Proof using.
  destruct msg, st; cbn [react]; (split_and!; [cbn; lia|by intros|]); intros [?|?]; try done;
    (split; [change (ready SERVICE_STATE_READY) with 1; change (ready SERVICE_STATE_BUSY) with 0; cbn [count ready_workers]; lia|by auto]).
Qed.

Lemma counted_head svs ct h c t u v l :
  Counted svs ct → ct !! h = Some (c :: l) → Counted svs (<[h := set_user t u v c :: l]> ct).
Proof using.
  intros HC Hl. apply counted_same; [done| |].
  - intros x [->|Hx]%elem_of_cons.
    + destruct (cn_entry _ _ HC h _ c Hl) as (? & ?); [by left|done].
    + eapply cn_entry; [done..|by right].
  - intros i _. rewrite Hl. cbn [from_option]. unfold id. by rewrite !entries_cons.
Qed.

Lemma wp_head_user h msg add m c l :
  Inv m → ctable m !! h = Some (c :: l) →
  (add = true → (∃ u, cstr (s_user_buf msg) = Ok u) ∧ ∃ h, cstr (s_host_buf msg) = Ok h) →
  (add = false → conn_limit_tbl m = None) →
  wp (head_user h msg add) (λ _ m', Inv m' ∧ Services m' = Services m) m.
Proof using.
  intros [HC He] Hl Ha Hr. unfold head_user. apply wp_bind, wp_get. unfold chain. rewrite Hl. cbn [from_option]. unfold id.
  destruct add.
  - destruct (Ha eq_refl) as [[u Hu] [v Hv]].
    apply wp_bind. eapply wp_liftr; [exact Hu|]. apply wp_bind. eapply wp_liftr; [exact Hv|].
    unfold put_chain, set_user_conn_limit. apply wp_bind, wp_modify, wp_modify. split; [|done]. split; [|done]. by apply counted_head.
  - apply wp_bind, wp_get. rewrite (Hr eq_refl). apply wp_bind, wp_ret. unfold put_chain. apply wp_modify.
    split; [|done]. split; [|done]. by apply counted_head.
Qed.

Lemma counted_message svs ct h p l c s st t :
  Counted svs ct → ct !! h = Some l → find_child p l = Some c → 0 ≤ si c → svs !! Z.to_nat (si c) = Some s →
  nactive t = nactive (stats s) →
  (service_state c = SERVICE_STATE_DEAD → st = SERVICE_STATE_DEAD ∧ t = stats s) →
  (service_state c = SERVICE_STATE_READY ∨ service_state c = SERVICE_STATE_BUSY →
     ready_workers t = ready_workers (stats s) + ready st - ready (service_state c) ∧
     (st = SERVICE_STATE_READY ∨ st = SERVICE_STATE_BUSY)) →
  Counted (<[Z.to_nat (si c) := set_stats t s]> svs) (<[h := change_child p (λ x, set_state st (set_si (si c) x)) l]> ct).
Proof using.
  intros HC Hl Hf Hsi Hs Ha Hd Hlive. destruct (find_child_in _ _ _ Hf) as [Hin _].
  destruct (cn_entry _ _ HC h l c Hl Hin) as (Hr & Hst1 & Hst2). set (c' := set_state st (set_si (si c) c)).
  assert (service_state c' = SERVICE_STATE_DEAD ∧ service_state c = SERVICE_STATE_DEAD ∧ t = stats s ∨
          service_state c' ≠ SERVICE_STATE_DEAD ∧ service_state c ≠ SERVICE_STATE_DEAD ∧ entry_ok (Z.of_nat (length svs)) c' ∧
          ready_workers t = ready_workers (stats s) + ready (service_state c') - ready (service_state c)) as Hcase.
  { destruct (service_state c) eqn:Ec; try done.
    - destruct Hlive as [H [->| ->]]; [by left|..]; right; by split_and!.
    - destruct Hlive as [H [->| ->]]; [by right|..]; right; by split_and!.
    - destruct Hd as [-> ->]; [done|]. by left. }
  assert (∀ x, x ∈ change_child p (λ x, set_state st (set_si (si c) x)) l → entry_ok (Z.of_nat (length svs)) x) as Hall.
  { intros x Hx. destruct (change_child_in _ _ _ _ _ Hf Hx) as [?| ->]; [by eapply cn_entry|]. fold c'.
    destruct Hcase as [(E & _)|(_ & _ & ? & _)]; [|done]. split; [exact Hr|]. by rewrite E. }
  assert (∀ i, i ≠ si c → alive i c' = false ∧ idle i c' = false) as Hother by (intros i Hi; by apply not_of).
  assert (∀ i, i ≠ si c → alive i c = false ∧ idle i c = false) as Hother' by (intros i Hi; by apply not_of).
  destruct Hcase as [(E' & E & ->)|(E' & E & _ & Hrd)].
  - replace (set_stats (stats s) s) with s by by destruct s. rewrite list_insert_id by done.
    apply counted_same; [done..|]. intros i _. rewrite Hl. cbn [from_option]. unfold id.
    rewrite !(entries_change _ _ _ _ _ Hf). fold c'. unfold alive at 2 3, idle at 2 3. rewrite E, E', !andb_false_r. cbn [b2z]. lia.
  - assert (s_name (conf s) ≠ None) as Hn.
    { intros En. destruct (cn_svc _ _ HC _ _ Hs) as (Hna & _ & Hz). destruct (Hz En) as [Hz0 _]. rewrite Z2Nat.id in Hna by done.
      pose proof (total_in (alive (si c)) ct h l c Hl Hin) as Ht. rewrite <- Hna, Hz0 in Ht. unfold alive in Ht.
      rewrite Z.eqb_refl, bool_decide_eq_true_2 in Ht by done. by specialize (Ht eq_refl). }
    apply (counted_one svs ct h _ (si c) s); try done.
    + rewrite Hl. cbn [from_option stats set_stats]. unfold id. rewrite (entries_change _ _ _ _ _ Hf). fold c'.
      unfold alive at 2 3. rewrite Z.eqb_refl, !bool_decide_eq_true_2 by done. change (si c') with (si c). rewrite Z.eqb_refl. cbn [andb b2z]. lia.
    + rewrite Hl. cbn [from_option stats set_stats]. unfold id. rewrite (entries_change _ _ _ _ _ Hf). fold c'.
      unfold idle at 2 3. change (si c') with (si c). rewrite Z.eqb_refl. cbn [andb]. unfold ready in Hrd. lia.
    + intros i _ Hne. rewrite Hl. cbn [from_option]. unfold id. rewrite !(entries_change _ _ _ _ _ Hf). fold c'.
      destruct (Hother i Hne) as [-> ->]. destruct (Hother' i Hne) as [-> ->]. cbn [b2z]. lia.
Qed.

Lemma wp_process_msg i msg m : Inv m → from_child i msg m → wp (process_msg i msg) (λ _ m', Inv m' ∧ length (Services m') = length (Services m)) m.
Proof using.
  intros HI (Hi & Hp & (c & Hf & Hc) & Hadd & Hrem). pose proof HI as [HC He].
  destruct (find_child_in _ _ _ Hf) as [Hin _]. unfold chain in Hf, Hin.
  destruct (ctable m !! hash (service_pid msg)) as [l|] eqn:El; cbn [from_option] in *; unfold id in *; [|done].
  pose proof (cn_entry _ _ HC _ _ _ El Hin) as Hok. destruct (lookup_lt_is_Some_2 (Services m) (Z.to_nat i)) as [s Hs].
  { destruct Hok as [? _]. lia. }
  unfold process_msg. apply wp_bind. eapply wp_service_at; [done..|]. apply wp_bind. eapply wp_liftr; [by apply child_hash_ok|].
  apply wp_bind, wp_get. unfold chain. rewrite El. cbn [from_option]. unfold id. rewrite Hf. apply wp_bind, wp_ret.
  apply wp_bind, wp_get. unfold chain. rewrite El. cbn [from_option]. unfold id. rewrite Hf, (legal_ok _ _ Hok).
  pose proof (react_counts (message_ msg) (service_state c) (stats s)) as Hreact.
  destruct (react (message_ msg) (service_state c) (stats s)) as [st t]. destruct Hreact as (Ha & Hd & Hlive).
  unfold put_chain, put_service. apply wp_bind, wp_modify, wp_bind, wp_modify.
  set (m1 := set_services _ _). subst i.
  assert (Inv m1) as HI1 by (split; [by apply counted_message|done]).
  assert (∃ c1 l1, ctable m1 !! hash (service_pid msg) = Some (c1 :: l1)) as (c1 & l1 & El1).
  { cbn [m1 ctable set_services set_ctable]. rewrite lookup_insert_eq. destruct l as [|x l]; [by apply elem_of_nil in Hin|].
    cbn [change_child]. destruct (_ =? _); by eexists _, _. }
  assert (length (Services m1) = length (Services m)) as Hlen by apply length_insert. rewrite <- Hlen.
  destruct (message_ msg) eqn:Em; try (by apply wp_ret);
    (eapply wp_mono; [eapply wp_head_user; [done..| |]; try done; auto|]; by intros [] m2 [HI2 ->]).
Qed.
End Operations.
