(* ===== verification/MasterConfProof.v ===== *)
(** * MasterConfProof: the counters and the configuration

    Reading the configuration, at the start and on SIGHUP, keeps the invariant
    of [MasterProof]; on SIGHUP when no service without a listener has children
    ([settled]). *)
From S2P Require Import Prelude CMem.
From stdpp Require Import gmap sorting list.
From S2P Require Import CString Prog Master MasterConf MasterLoop MasterProof.
#[local] Open Scope Z_scope.

Section Conf.
Context `{K : Kernel}.

(** ** Sections of the file *)

Section Getsection.
Context (J : master → Prop) (func : bytes → entry → Prog master unit).
Hypothesis Hfunc : ∀ name e m, J m → wlp (func name e) (λ _ m', J m') m.

Lemma wlp_process_section fuel : ∀ buf f m, J m → wlp (process_section fuel buf f func) (λ _ m', J m') m.
Proof using Hfunc.
  induction fuel as [|fuel IH]; intros buf f m HJ; cbn [process_section]; [wlstep|].
  destruct (fgets buf f) as [[buf' f']|]; [|by wlstep].
  apply wlp_bind, wlp_liftr. intros [b p] _. apply wlp_bind, wlp_liftr. intros c _.
  destruct (c =? 0); [by apply IH|]. destruct (c =? 125); [by wlstep|].
  apply wlp_bind, wlp_liftr. intros q _. apply wlp_bind, wlp_liftr. intros b' _. apply wlp_bind, wlp_liftr. intros name _.
  apply wlp_bind. eapply wlp_mono; [by apply Hfunc|]. intros [] m' HJ'. cbv beta in HJ'.
  apply wlp_bind, wlp_liftr. intros [e|] _; [by wlstep|by apply IH].
Qed.

Lemma wlp_getsection_loop fuel junk section : ∀ buf f level m, J m →
  wlp (getsection_loop fuel junk buf f section level func) (λ _ m', J m') m.
Proof using Hfunc.
  induction fuel as [|fuel IH]; intros buf f level m HJ; cbn [getsection_loop]; [wlstep|].
  destruct (fgets buf f) as [[buf' f']|]; [|by wlstep].
  apply wlp_bind, wlp_liftr. intros [b p] _. apply wlp_bind, wlp_liftr. intros s _.
  destruct (bool_decide _); [by apply IH|]. destruct (opens section s level); [|by apply IH].
  apply wlp_bind. destruct (_ =? 1).
  - eapply wlp_mono; [by apply wlp_process_section|]. intros f1 m' HJ'. by apply IH.
  - wlstep. by apply IH.
Qed.

Lemma wlp_getsection junk file section m : J m → wlp (masterconf_getsection junk file section func) (λ _ m', J m') m.
Proof using Hfunc. intros HJ. unfold masterconf_getsection. destruct file; [by apply wlp_getsection_loop|wlstep]. Qed.
End Getsection.

(** ** Services *)

Section Settled.
(** Which services may have children, by their listeners. *)
Context (opened : s_comm → bool).

(** From the [k]-th on, the others have none. *)
Definition settled (k : nat) (m : master) : Prop :=
  ∀ j s, (k ≤ j)%nat → Services m !! j = Some s → opened (comm s) = false → nactive (stats s) = 0.

Definition Ready (k : nat) (m : master) : Prop := Inv m ∧ settled k m.

Lemma settled_put k i s m : settled k m → (opened (comm s) = false → nactive (stats s) = 0) →
  settled k (set_services (<[i := s]> (Services m)) m).
Proof.
  intros H Hs j s' Hj Hl. cbn [Services set_services] in Hl. destruct (decide (j = i)) as [->|Hne].
  - destruct (decide (i < length (Services m))%nat); [rewrite list_lookup_insert_eq in Hl by done; by injection Hl as <-|].
    rewrite list_insert_ge in Hl by lia. by apply (H i).
  - rewrite list_lookup_insert_ne in Hl by done. by apply (H j).
Qed.

Lemma settled_map k f m : settled k m → (∀ s, comm (f s) = comm s ∧ nactive (stats (f s)) = nactive (stats s)) →
  settled k (set_services (map f (Services m)) m).
Proof.
  intros H Hf j s' Hj Hl. cbn [Services set_services] in Hl. change (map f (Services m)) with (f <$> Services m) in Hl.
  apply list_lookup_fmap_Some in Hl as (s & -> & Hs). destruct (Hf s) as [-> ->]. by apply (H j).
Qed.

Lemma settled_snoc k s m : settled k m → nactive (stats s) = 0 → settled k (set_services (Services m ++ [s]) m).
Proof.
  intros H Hs j s' Hj Hl. cbn [Services set_services] in Hl. apply lookup_app_Some in Hl as [Hl|[_ Hl]]; [by apply (H j)|].
  by apply list_lookup_singleton_Some in Hl as [_ <-].
Qed.

Lemma wlp_service_at i Q m : (∀ s, 0 ≤ i → Services m !! Z.to_nat i = Some s → Q s m) → wlp (service_at i) Q m.
Proof.
  intros H. unfold service_at. wlstep. destruct (Z.ltb_spec i 0); [wlstep|].
  destruct (Services m !! Z.to_nat i) as [s|] eqn:E; wlstep. by apply H.
Qed.

Lemma wlp_call {A} (f : nat → A) Q m : (∀ a n, Q a (set_calls n m)) → wlp (call f) Q m.
Proof. intros H. unfold call. wlstep. wlstep. wlstep. apply H. Qed.

Lemma inv_calls n m : Inv m → Inv (set_calls n m).
Proof. by intros []. Qed.

(** A service that is put in the place of another. *)
Lemma ready_put k i s s' m : Ready k m → 0 ≤ i → Services m !! Z.to_nat i = Some s → svc_ok (ctable m) i s' →
  (opened (comm s') = false → nactive (stats s') = 0) → Ready k (set_services (<[Z.to_nat i := s']> (Services m)) m).
Proof.
  intros [[HC He] Hs] Hi Hl Hok Hz. split; [split; [|done]|by apply settled_put].
  apply counted_put; [done|]. by rewrite Z2Nat.id.
Qed.

Lemma ready_stats k i s m : Ready k m → 0 ≤ i → Services m !! Z.to_nat i = Some s → (k ≤ Z.to_nat i)%nat →
  svc_ok (ctable m) i s ∧ (opened (comm s) = false → nactive (stats s) = 0).
Proof. intros [HI Hs] Hi Hl Hk. split; [by apply inv_service|by apply (Hs (Z.to_nat i))]. Qed.

(** Services that are changed in their configuration only, and keep a name. *)
Lemma svc_ok_conf ct i s s' : svc_ok ct i s → stats s' = stats s → s_name (conf s') ≠ None → svc_ok ct i s'.
Proof. intros (H1 & H2 & _) E Hn. unfold svc_ok. by rewrite E. Qed.

Lemma svc_ok_disabled ct i s : svc_ok ct i s → svc_ok ct i (set_exec None s).
Proof. intros (H1 & H2 & H3). split_and!; [done..|]. intros Hn. cbn [set_exec set_conf conf s_exec]. by split; [apply H3|]. Qed.

Lemma wlp_disable k i m : Ready k m → (k ≤ Z.to_nat i)%nat → wlp (disable i) (λ _ m', Ready k m') m.
Proof.
  intros HR Hk. unfold disable. apply wlp_bind, wlp_service_at. intros s Hi Hs. unfold put_service. wlstep.
  destruct (ready_stats _ _ _ _ HR Hi Hs Hk) as [Hok Hz]. eapply ready_put; [done..| |done]. by apply svc_ok_disabled.
Qed.

(** ** [add_service] *)

Lemma find_service_range name listen proto l i : 0 ≤ i → i ≤ find_service name listen proto l i ≤ i + Z.of_nat (length l).
Proof.
  revert i. induction l as [|s l IH]; intros i Hi; cbn [find_service length]; [lia|].
  destruct (_ && _); [lia|]. specialize (IH (i + 1)). lia.
Qed.

Lemma wlp_add_service u ign name e m : Ready 0 m → wlp (add_service u ign name e) (λ _ m', Ready 0 m') m.
Proof.
  intros HR. unfold add_service. apply wlp_bind, wlp_liftr. intros v _.
  assert (wlp (complain ign) (λ _ m', Ready 0 m') m) as Hcomp by (unfold complain, fatal; destruct ign; by wlstep).
  destruct (_ || _); [done|]. wlstep. set (i := find_service _ _ _ _ _).
  assert (0 ≤ i) as Hi by (pose proof (find_service_range name (v_listen v) (v_proto v) (Services m) 0); unfold i; lia).
  destruct (match Services m !! Z.to_nat i with Some s => _ | None => _ end); [done|].
  apply wlp_bind. assert (∀ m1, Ready 0 m1 → wlp (match tokenize (v_cmd v) with
    | None => fatal
    | Some exec =>
        if negb (k_runnable exec) then fatal
        else s ← service_at i;
             let s' := configured v name exec s in
             put_service i s';;
             if match Services m !! Z.to_nat i with Some s => bool_decide (s_listen (conf s) ≠ None) | None => false end
             then modify (λ m, set_services (map (follow name s') (Services m)) m) else mret tt
    end) (λ _ m', Ready 0 m') m1) as Hend.
  { intros m1 HR1. destruct (tokenize (v_cmd v)) as [exec|]; [|wlstep]. destruct (negb _); [wlstep|].
    apply wlp_bind, wlp_service_at. intros s _ Hs. cbn zeta. unfold put_service. wlstep.
    destruct (ready_stats 0 i s m1 HR1 Hi Hs ltac:(lia)) as [Hok Hz].
    assert (Ready 0 (set_services (<[Z.to_nat i := configured v name exec s]> (Services m1)) m1)) as HR2.
    { eapply ready_put; [done..| |done]. eapply svc_ok_conf; [done..|by cbn]. }
    destruct (match Services m !! Z.to_nat i with Some _ => _ | None => _ end); wlstep; [|done].
    destruct HR2 as [[HC He] Hset]. split; [split; [|done]|].
    - apply counted_map; [done|]. intros j s0 Hok0. unfold follow. destruct (_ && _) eqn:Eb; [|done].
      eapply svc_ok_conf; [done|done|]. apply andb_true_iff in Eb as [[_ En%bool_decide_eq_true]%andb_true_iff _]. cbn. by rewrite En.
    - apply (settled_map 0 (follow name (configured v name exec s)) (set_services _ m1)); [done|]. intros s0. unfold follow. by destruct (_ && _). }
  destruct (_ =? _).
  - apply wlp_bind. unfold time. apply wlp_call. intros now n. wlstep. apply Hend. destruct HR as [[HC He] Hs]. split; [split; [|done]|].
    + by apply counted_snoc.
    + by apply (settled_snoc 0 (no_service now) (set_calls n m)).
  - wlstep. by apply Hend.
Qed.
(** ** [service_create] *)

(** A service without children, that has a name. *)
Definition childless (s : service) : Prop := nactive (stats s) = 0 ∧ s_name (conf s) ≠ None.

Lemma childless_idle k i s m : Ready k m → 0 ≤ i → Services m !! Z.to_nat i = Some s → childless s →
  total (alive i) (ctable m) = 0 ∧ total (idle i) (ctable m) = 0 ∧ ready_workers (stats s) = 0.
Proof.
  intros [HI _] Hi Hs [Ha _]. destruct (inv_service _ _ _ HI Hi Hs) as (H1 & H2 & _).
  pose proof (idle_alive i (ctable m)). pose proof (total_nonneg (idle i) (ctable m)). lia.
Qed.

Lemma wlp_open_listener proto Q m : (∀ d n, Q d (set_calls n m)) → wlp (open_listener proto) Q m.
Proof.
  intros H. unfold open_listener. apply wlp_bind, wlp_call. intros d n1. destruct (d <? 0); [wlstep; apply H|].
  apply wlp_bind, wlp_call. intros b n2. destruct (negb b); [wlstep; apply (H 0 n2)|].
  destruct (tcp_proto proto); [|wlstep; apply (H d n2)]. apply wlp_bind, wlp_call. intros l n3. wlstep. apply (H _ n3).
Qed.

Lemma wlp_statsock Q m : (∀ p n, Q p (set_calls n m)) → wlp get_statsock Q m.
Proof. intros H. unfold get_statsock. apply wlp_bind, wlp_call. intros [p|] n; wlstep. apply H. Qed.

Lemma ready_calls k n m : Ready k m → Ready k (set_calls n m).
Proof. by intros [[] ?]. Qed.

Lemma wlp_create_loop i service0 proto fs : ∀ local nsocket m,
  Ready (S (Z.to_nat i)) m → 0 ≤ i → childless service0 →
  (∃ s, Services m !! Z.to_nat i = Some s ∧ childless s) → (∀ s, local = Some s → childless s) →
  wlp (create_loop i service0 proto fs local nsocket) (λ _ m', Ready (S (Z.to_nat i)) m') m.
Proof.
  induction fs as [|family fs IH]; intros local nsocket m HR Hi H0 (s1 & Hs1 & Hc1) Hloc; cbn [create_loop]; [by wlstep|].
  apply wlp_bind, wlp_service_at. intros s0 _ Hs0. rewrite Hs1 in Hs0. injection Hs0 as <-. cbn zeta.
  set (local' := if 0 <? _ then Some service0 else local).
  assert (∀ s, local' = Some s → childless s) as Hloc'.
  { intros s. unfold local'. destruct (0 <? _); [by intros [= <-]|apply Hloc]. }
  assert (childless (default s1 local')) as Hcs.
  { destruct local' as [x|]; [by apply Hloc'|done]. }
  assert (local' = None → default s1 local' = s1) as Hnone.
  { by intros ->. }
  pose proof (lookup_lt_Some _ _ _ Hs1) as Hlt.
  assert (∀ s n m1, m1 = set_calls n m → childless s →
    ready_workers (stats s) = 0 ∨ stats s = stats (default s1 local') → local' = None →
    Ready (S (Z.to_nat i)) (set_services (<[Z.to_nat i := s]> (Services m1)) m1)) as Hput.
  { intros s n m1 -> Hcs' Hst Hn. destruct (childless_idle _ _ _ _ HR Hi Hs1 Hc1) as (Hta & Hti & Hr1).
    apply ready_put with (s := s1); [by apply ready_calls|done..| |].
    - destruct Hcs' as [Ha' Hn']. change (ctable (set_calls n m)) with (ctable m). split_and!; [lia| |done]. destruct Hst as [Hst|Hst]; [lia|].
      rewrite Hst, (Hnone Hn). lia.
    - intros _. apply Hcs'. }
  apply wlp_bind, wlp_open_listener. intros d n.
  destruct (d =? 0).
  - destruct local' as [x|] eqn:El.
    + apply IH; [by apply ready_calls|done..|by exists s1|]. intros s [= <-]. exact Hcs.
    + apply wlp_bind. unfold put_service. wlstep. apply IH; [apply (Hput _ n); [done|exact Hcs|by right|done]|done..| |done].
      eexists. cbn [Services set_services set_calls]. rewrite list_lookup_insert_eq by done. split; [done|exact Hcs].
  - apply wlp_bind, wlp_statsock. intros st n2.
    set (s := listening d nsocket family st _). assert (childless s) as Hcs' by exact Hcs.
    destruct local' as [x|] eqn:El.
    + apply wlp_bind. wlstep. apply IH; [|done..| |].
      * destruct HR as [[HC He] Hset]. split; [split; [|done]|].
        { destruct Hcs' as [Ha Hn]. by apply counted_snoc. }
        { apply (settled_snoc _ _ (set_calls n2 (set_calls n m))); [done|apply Hcs']. }
      * exists s1. split; [|done]. cbn [Services set_services set_calls]. by apply lookup_app_l_Some.
      * intros y [= <-]. exact Hcs'.
    + apply wlp_bind. unfold put_service. wlstep. apply IH; [apply (Hput s n2); [done|exact Hcs'|by left|done]|done..| |done].
      exists s. cbn [Services set_services set_calls]. by rewrite list_lookup_insert_eq.
Qed.

Lemma ready_mono k k' m : Ready k m → (k ≤ k')%nat → Ready k' m.
Proof using. intros [HI Hs] Hk. split; [done|]. intros j s Hj. apply Hs. lia. Qed.

Lemma wlp_service_create i m : Ready (Z.to_nat i) m → 0 ≤ i →
  (∀ s, Services m !! Z.to_nat i = Some s → 0 < s_associate (conf s) ∨ nactive (stats s) = 0) →
  wlp (service_create i) (λ _ m', Ready (S (Z.to_nat i)) m') m.
Proof.
  intros HR Hi Hz. pose proof (ready_mono _ (S (Z.to_nat i)) _ HR ltac:(lia)) as HR'.
  unfold service_create. apply wlp_bind, wlp_service_at. intros s _ Hs.
  destruct (Z.ltb_spec 0 (s_associate (conf s))); [by wlstep|]. destruct (Hz s Hs) as [?|Ha]; [lia|].
  destruct (s_name (conf s)) as [name|] eqn:En; [|wlstep].
  destruct (s_listen (conf s)) as [listen|]; [|wlstep]. destruct (s_proto (conf s)) as [proto|]; [|wlstep].
  assert (childless s) as Hcs by (split; [done|by rewrite En]).
  assert (∀ m1, Ready (S (Z.to_nat i)) m1 → wlp (disable i) (λ _ m', Ready (S (Z.to_nat i)) m') m1) as Hdis.
  { intros m1 HR1. unfold disable. apply wlp_bind, wlp_service_at. intros s1 _ Hs1. unfold put_service. wlstep.
    destruct HR1 as [[HC He] Hset]. split; [split; [|done]|].
    - apply counted_put; [done|]. apply svc_ok_disabled. pose proof (cn_svc _ _ HC _ _ Hs1). done.
    - intros j s' Hj Hl. cbn [Services set_services] in Hl. rewrite list_lookup_insert_ne in Hl by lia. by apply (Hset j). }
  apply wlp_bind. assert (∀ fs n, wlp (match fs with
      | None => disable i
      | Some fs => n ← create_loop i s proto fs None 0;
          let copied := (0 <? s_socket (comm s)) && bool_decide (fs ≠ []) in
          if (n <=? 0) && negb copied then disable i else mret tt
      end) (λ _ m', Ready (S (Z.to_nat i)) m') (set_calls n m)) as Hgo.
  { intros [fs|] n; [|by apply Hdis, ready_calls]. apply wlp_bind. eapply wlp_mono.
    - apply wlp_create_loop; [by apply ready_calls|done..|by exists s|done].
    - intros a m1 HR1. cbv beta in HR1. cbn zeta. destruct (_ && negb _); [by apply Hdis|by wlstep]. }
  assert (set_calls (calls m) m = m) as Em by by destruct m.
  unfold resolve. destruct (bool_decide _).
  { destruct (_ <=? _); [wlstep|]. wlstep. specialize (Hgo (Some [PF_UNIX]) (calls m)). by rewrite Em in Hgo. }
  destruct (negb _). { wlstep. specialize (Hgo None (calls m)). by rewrite Em in Hgo. }
  destruct (parse_listen listen) as [addr port]. destruct port as [port|]; (apply wlp_call; intros fs n; apply Hgo).
Qed.

End Settled.

(** ** SIGHUP *)

Definition has_socket (c : s_comm) : bool := negb (s_socket c =? 0).

Lemma wlp_update_services fuel i m : Ready has_socket (Z.to_nat i) m → 0 ≤ i → wlp (update_services fuel i) (λ _ m', Inv m') m.
Proof.
  revert i m. induction fuel as [|fuel IH]; intros i m HR Hi; cbn [update_services]; [wlstep|].
  wlstep. destruct (_ <=? i); [wlstep; apply HR|].
  apply wlp_bind, wlp_service_at. intros s _ Hs. apply wlp_bind.
  destruct (ready_stats _ _ _ _ _ HR Hi Hs ltac:(lia)) as [Hok Hz].
  assert (∀ m1, Ready has_socket (S (Z.to_nat i)) m1 → wlp (update_services fuel (i + 1)) (λ _ m', Inv m') m1) as Hnext.
  { intros m1 HR1. apply IH; [|lia]. by replace (Z.to_nat (i + 1)) with (S (Z.to_nat i)) by lia. }
  destruct (_ && negb _).
  { unfold put_service. wlstep. apply Hnext. destruct HR as [[HC He] Hset]. split; [split; [|done]|].
    - apply counted_put; [done|]. destruct (cn_svc _ _ HC _ _ Hs) as (H1 & H2 & H3). by split_and!.
    - intros j s' Hj Hl. cbn [Services set_services] in Hl. rewrite list_lookup_insert_ne in Hl by lia. apply (Hset j); [lia|done]. }
  destruct (_ && _) eqn:Eb.
  - apply andb_true_iff in Eb as [_ Ez%Z.eqb_eq]. eapply wlp_mono.
    + apply wlp_service_create; [done..|]. intros s' Hs'. rewrite Hs in Hs'. injection Hs' as <-. right. apply Hz. unfold has_socket. by rewrite Ez.
    + intros [] m1. apply Hnext.
  - wlstep. apply Hnext. eapply ready_mono; [done|lia].
Qed.

(** ** Events *)

Lemma inv_scheduled a m : Inv m → event_ok a → Inv (set_schedule (scheduled a (schedule m)) m).
Proof. intros [HC He] Ha. split; [done|]. cbn [schedule set_schedule]. rewrite scheduled_perm. by constructor. Qed.

(** Events and limits do not touch the services. *)
Definition Based (svs : list service) (m : master) : Prop := Inv m ∧ Services m = svs.

Lemma wlp_add_event svs ign name e m : Based svs m → wlp (add_event ign name e) (λ _ m', Based svs m') m.
Proof.
  intros [HI Hs]. unfold add_event. apply wlp_bind, wlp_liftr. intros cmd _. apply wlp_bind, wlp_liftr. intros per _.
  apply wlp_bind, wlp_liftr. intros at_ _. apply wlp_bind. unfold time. apply wlp_call. intros now n.
  pose proof (inv_calls n _ HI) as HI'. destruct (default [] cmd) as [|c cmd'].
  { unfold complain, fatal. destruct ign; wlstep. by split. }
  destruct (tokenize _); [|wlstep]. unfold schedule_event. destruct (_ && _); wlstep; (split; [by apply inv_scheduled|done]).
Qed.

Lemma wlp_add_limits svs name e m : Based svs m → wlp (add_limits name e) (λ _ m', Based svs m') m.
Proof.
  intros [[HC He] Hs]. unfold add_limits. apply wlp_bind, wlp_liftr. intros v _. destruct (_ && _); wlstep; by split.
Qed.

Lemma wlp_init_janitor m : Inv m → wlp init_janitor (λ _ m', Inv m') m.
Proof.
  intros [HC He]. unfold init_janitor. apply wlp_bind, wlp_call. intros t n. wlstep. apply wlp_bind. unfold time. apply wlp_call.
  intros now n2. unfold schedule_event. wlstep. apply (inv_scheduled _ (set_calls n2 (set_janitor 0 t (set_calls n m)))); [by split|done].
Qed.

Lemma wlp_reread_conf fuel u junk file m : Ready has_socket 0 m → wlp (reread_conf fuel u junk file) (λ _ m', Inv m') m.
Proof.
  intros [[HC He] Hs]. unfold reread_conf. wlstep. apply wlp_bind. eapply wlp_mono.
  { apply (wlp_getsection (Ready has_socket 0)); [intros; by apply wlp_add_service|]. split; [split; [|done]|].
    - apply counted_map; [done|]. intros i s. apply svc_ok_disabled.
    - by apply settled_map. }
  intros [] m1 HR1. cbv beta in HR1. apply wlp_bind. eapply wlp_mono; [by apply wlp_update_services|].
  intros [] m2 HI2. cbv beta in HI2. wlstep. apply wlp_bind. eapply wlp_mono.
  { apply (wlp_getsection (Based (Services m2))); [intros; by apply wlp_add_event|]. destruct HI2 as [HC2 _]. by split. }
  intros [] m3 [HI3 _]. by apply wlp_init_janitor.
Qed.

(** ** Starting *)

(** At the start no service has children. *)
Definition no_socket (c : s_comm) : bool := false.

Lemma wlp_create_all n i m : Ready no_socket (Z.to_nat i) m → 0 ≤ i →
  wlp (for_services n i service_create) (λ _ m', Inv m') m.
Proof.
  revert i m. induction n as [|n IH]; intros i m HR Hi; cbn [for_services]; [wlstep; apply HR|].
  apply wlp_bind. eapply wlp_mono.
  - apply wlp_service_create; [done..|]. intros s Hs. right. by apply (proj2 HR (Z.to_nat i) s).
  - intros [] m1 HR1. apply IH; [|lia]. by replace (Z.to_nat (i + 1)) with (S (Z.to_nat i)) by lia.
Qed.

Lemma wlp_start o file : wlp (start o file) (λ _ m', Inv m') master0.
Proof.
  unfold start. apply wlp_bind. eapply wlp_mono.
  { apply (wlp_getsection (Ready no_socket 0)); [intros; by apply wlp_add_service|]. by split; [split; [split|]|]. }
  intros [] m1 [HI1 Hs1]. apply wlp_bind. eapply wlp_mono.
  { apply (wlp_getsection (Based (Services m1))); [intros; by apply wlp_add_event|by split]. }
  intros [] m2 HB2. cbv beta in HB2. apply wlp_bind. eapply wlp_mono.
  { apply (wlp_getsection (Based (Services m1))); [intros; by apply wlp_add_limits|done]. }
  intros [] m3 [HI3 Hs3]. apply wlp_bind. unfold all_services. wlstep. eapply wlp_mono.
  { apply wlp_create_all; [|done]. split; [done|]. intros j s. rewrite Hs3. apply Hs1. }
  intros [] m4 HI4. cbv beta in HI4. apply wlp_bind. eapply wlp_mono; [by apply wlp_init_janitor|].
  intros [] m5 HI5. unfold time. apply wlp_call. intros now n. by apply inv_calls.
Qed.
End Conf.
