(* ===== verification/MasterSched.v ===== *)
(** * MasterSched: the schedule over the turns of the main loop

    The schedule stays sorted, and an event that wakes the janitor up is always
    in it; positions and chains stay in the table.  Every program that changes
    the schedule only by [schedule_event] keeps this ([kept]). *)
From S2P Require Import Prelude CMem.
From stdpp Require Import gmap sorting list.
From S2P Require Import CString Prog Master MasterConf MasterLoop MasterProof MasterConfProof.
#[local] Open Scope Z_scope.

Section Sched.
Context `{K : Kernel} (Hclock : ∀ a b, (a ≤ b)%nat → k_time a ≤ k_time b).

Record Quiet (now : Z) (m : master) : Prop := {
  qu_sorted : StronglySorted by_mark (schedule m);
  qu_time : now ≤ k_time (calls m);
  qu_keys h l : ctable m !! h = Some l → 0 ≤ h < child_table_size;
  qu_position : 0 ≤ janitor_position m < child_table_size;
}.

(** Events are only added. *)
Definition keeps {A} (p : Prog master A) : Prop :=
  ∀ now m, Quiet now m → wlp p (λ _ m', Quiet now m' ∧ schedule m ⊆ schedule m') m.

Lemma keeps_ret {A} (a : A) : keeps (mret a).
Proof using. intros now m H. by wlstep. Qed.
Lemma keeps_bind {A B} (p : Prog master A) (k : A → Prog master B) : keeps p → (∀ a, keeps (k a)) → keeps (p ≫= k).
Proof using.
  intros Hp Hk now m H. apply wlp_bind. eapply wlp_mono; [by apply Hp|]. intros a m1 [H1 Hs1].
  eapply wlp_mono; [by apply Hk|]. intros b m2 [H2 Hs2]. split; [done|]. by etrans.
Qed.
Lemma keeps_get {A} (f : master → A) : keeps (get f).
Proof using. intros now m H. by wlstep. Qed.
Lemma keeps_fault {A} e : keeps (A := A) (mfault e).
Proof using. intros now m H. wlstep. Qed.
Lemma keeps_liftr {A} (r : result A) : keeps (liftr r).
Proof using. intros now m H. by apply wlp_liftr. Qed.
Lemma keeps_call {A} (f : nat → A) : keeps (call f).
Proof using Hclock.
  intros now m []. unfold call. wlstep. wlstep. wlstep. split; [|done]. split; try done. cbn [calls set_calls].
  pose proof (Hclock (calls m) (S (calls m)) ltac:(lia)). lia.
Qed.
Lemma keeps_schedule a : keeps (schedule_event a).
Proof using.
  intros now m []. unfold schedule_event. wlstep. split; [split; try done; by apply scheduled_sorted|].
  intros e He. cbn [schedule set_schedule]. rewrite scheduled_perm. by right.
Qed.
(** Changes of other parts of the state. *)
Lemma keeps_modify f : (∀ m, schedule (f m) = schedule m ∧ ctable (f m) = ctable m ∧ calls (f m) = calls m ∧
  janitor_position (f m) = janitor_position m) → keeps (modify f).
Proof using.
  intros Hf now m []. wlstep. destruct (Hf m) as (H1 & H2 & H3 & H4). split; [|by rewrite H1].
  by split; rewrite ?H1, ?H2, ?H3, ?H4.
Qed.
Lemma keeps_put_service i s : keeps (put_service i s).
Proof using. by apply keeps_modify. Qed.

Lemma hash_range p h : child_hash p = Ok h → 0 ≤ h < child_table_size.
Proof using.
  unfold child_hash. destruct (Z.ltb_spec (Z.rem p child_table_size) 0); [done|]. intros [= <-].
  split; [done|]. pose proof (Z.rem_bound_abs p child_table_size ltac:(done)). unfold child_table_size in *. lia.
Qed.

(** A chain is put back where the hash of a pid says. *)
Lemma keeps_hash {A} p (k : Z → Prog master A) :
  (∀ h, 0 ≤ h < child_table_size → keeps (k h)) → keeps (h ← liftr (child_hash p); k h).
Proof using. intros Hk now m H. apply wlp_bind, wlp_liftr. intros h Hh. apply Hk; [by eapply hash_range|done]. Qed.
Lemma keeps_put_chain h l : 0 ≤ h < child_table_size → keeps (put_chain h l).
Proof using.
  intros Hh now m []. unfold put_chain. wlstep. split; [|done]. split; try done. cbn [ctable set_ctable]. intros h' l' Hl.
  destruct (decide (h' = h)) as [->|]; [done|]. rewrite lookup_insert_ne in Hl by done. by eapply qu_keys0.
Qed.
End Sched.

(** One step through a program, by its head, and all of them. *)
Ltac kept_step :=
  lazymatch goal with
  | |- keeps (h ← liftr (child_hash _); _) => apply keeps_hash; intros ? ?
  | |- keeps (_ ≫= _) => apply keeps_bind; [|intros ?]
  | |- keeps (mret _) => apply keeps_ret
  | |- keeps (mfault _) => apply keeps_fault
  | |- keeps (get _) => apply keeps_get
  | |- keeps (liftr _) => apply keeps_liftr
  | |- keeps (call _) => apply keeps_call; assumption
  | |- keeps (schedule_event _) => apply keeps_schedule
  | |- keeps (put_service _ _) => apply keeps_put_service
  | |- keeps (put_chain _ _) => apply keeps_put_chain; assumption
  | |- keeps (modify _) => apply keeps_modify; intros; split_and!; reflexivity
  | |- keeps (let _ := _ in _) => cbn zeta
  | |- keeps (match _ with _ => _ end) => case_match
  end.
Ltac kept := repeat kept_step; auto.

Section Turns.
Context `{K : Kernel} (Hclock : ∀ a b, (a ≤ b)%nat → k_time a ≤ k_time b).

Lemma keeps_get_centry : keeps get_centry.
Proof using. unfold get_centry. kept. Qed.

Lemma keeps_add_child p st d i : keeps (add_child p st d i).
Proof using. pose proof keeps_get_centry. unfold add_child. kept. Qed.

Lemma keeps_count_protocol n d : keeps (count_protocol n d).
Proof using. unfold count_protocol. kept. Qed.

Lemma keeps_service_at i : keeps (service_at i).
Proof using. unfold service_at. kept. Qed.

Lemma keeps_spawn_service i : keeps (spawn_service i).
Proof using Hclock.
  pose proof keeps_service_at. pose proof keeps_count_protocol. pose proof keeps_add_child.
  unfold spawn_service, time, fatal. kept.
Qed.

Lemma keeps_reap_one p : keeps (reap_one p).
Proof using Hclock.
  pose proof keeps_service_at. pose proof keeps_count_protocol. pose proof keeps_add_child.
  unfold reap_one, time. kept.
Qed.

Lemma keeps_reap_child ps : keeps (reap_child ps).
Proof using Hclock. pose proof keeps_reap_one. induction ps; cbn [reap_child]; kept. Qed.

Lemma keeps_head_user h msg add : 0 ≤ h < child_table_size → keeps (head_user h msg add).
Proof using. intros Hh. unfold head_user, set_user_conn_limit. kept. Qed.

Lemma keeps_process_msg i msg : keeps (process_msg i msg).
Proof using. pose proof keeps_service_at. pose proof keeps_add_child. pose proof keeps_head_user. unfold process_msg. kept. Qed.

Lemma keeps_check_service i : keeps (check_service i).
Proof using Hclock. pose proof keeps_service_at. pose proof keeps_spawn_service. unfold check_service. kept. Qed.

Lemma keeps_for_services n i f : (∀ i, keeps (f i)) → keeps (for_services n i f).
Proof using. intros Hf. revert i. induction n; intros i; cbn [for_services]; kept. Qed.

Lemma keeps_all_services f : (∀ i, keeps (f i)) → keeps (all_services f).
Proof using. intros Hf. pose proof keeps_for_services. unfold all_services. kept. Qed.

Lemma keeps_spawn_many n i : keeps (spawn_many n i).
Proof using Hclock. pose proof keeps_spawn_service. induction n; cbn [spawn_many]; kept. Qed.

Lemma keeps_bring_up i b : keeps (bring_up i b).
Proof using Hclock.
  pose proof keeps_service_at. pose proof keeps_spawn_service. pose proof keeps_spawn_many. unfold bring_up. kept.
Qed.

Lemma keeps_serve msgs conns i : keeps (serve msgs conns i).
Proof using Hclock.
  pose proof keeps_service_at. pose proof keeps_process_msg. pose proof keeps_bring_up. unfold serve. kept.
Qed.

Lemma keeps_sweep n now0 : keeps (sweep n now0).
Proof using.
  induction n as [|n IH]; cbn [sweep]; [kept|]. intros now m HQ. wlstep. wlstep. wlstep. wlstep.
  destruct (sweep_chain _ _ _) as [l' f']. apply wlp_bind. eapply wlp_mono; [apply keeps_put_chain; [by destruct HQ|done]|].
  intros [] m1 [[] Hs]. wlstep. wlstep. eapply wlp_mono; [apply IH|].
  - split; try done. cbn [janitor_position set_janitor]. by apply Z.mod_pos_bound.
  - intros [] m2 [H2 Hs2]. split; [done|]. by etrans; [exact Hs|].
Qed.

Lemma keeps_child_janitor f now0 : keeps (child_janitor f now0).
Proof using Hclock. pose proof keeps_sweep. unfold child_janitor. kept. Qed.

(** ** [spawn_schedule] *)

Lemma take_due_split now l a : let '(d, r) := take_due now l a in
  (StronglySorted by_mark l → StronglySorted by_mark r ∧ Forall (λ e, now < mark e) r) ∧
  (∀ e, e ∈ l → e ∈ d ∨ e ∈ r) ∧ (∀ e, e ∈ a → e ∈ d).
Proof using.
  revert a. induction l as [|e l IH]; intros a; cbn [take_due]; [by split_and!; [|intros e ?%elem_of_nil|]|].
  destruct (Z.leb_spec (mark e) now) as [Hle|Hlt].
  - specialize (IH (e :: a)). destruct (take_due now l (e :: a)) as [d r]. destruct IH as (H1 & H2 & H3). split_and!.
    + intros Hs. inversion_clear Hs. by apply H1.
    + intros x [->|Hx]%elem_of_cons; [left; apply H3; by left|by apply H2].
    + intros x Hx. apply H3. by right.
  - split_and!; [|intros x Hx; by right|done]. intros Hs. split; [done|]. inversion_clear Hs as [|?? _ Hf].
    constructor; [done|]. eapply Forall_impl; [exact Hf|]. unfold by_mark. intros x Hx. cbn in Hx |- *. lia.
Qed.

(** The event of [init_janitor]; [T] is a time it is scheduled from. *)
Definition janitor_event (T : Z) (e : event) : Prop := mark e ≤ T + 10 ∧ period e = 10 ∧ periodic e = false.
Definition Kept (T : Z) (m : master) : Prop := Quiet T m ∧ ∃ e, e ∈ schedule m ∧ janitor_event T e.

Lemma keeps_kept {A} (p : Prog master A) T m : keeps p → Kept T m → wlp p (λ _ m', Kept T m') m.
Proof using.
  intros Hp [HQ (e & He & Hj)]. eapply wlp_mono; [by apply Hp|]. intros a m' [HQ' Hs]. split; [done|].
  exists e. by split; [apply Hs|].
Qed.

Lemma keeps_quiet {A} (p : Prog master A) T m : keeps p → Quiet T m → wlp p (λ _ m', Quiet T m') m.
Proof using. intros Hp HQ. eapply wlp_mono; [by apply Hp|]. by intros a m' []. Qed.

Lemma kept_later T T' m : Kept T m → T ≤ T' → T' ≤ k_time (calls m) → Kept T' m.
Proof using.
  intros [[] (e & He & H1 & H2 & H3)] HT Hc. split; [by split|]. exists e. split; [done|]. split_and!; [lia|done..].
Qed.

Lemma keeps_run_event now a : keeps (run_event now a).
Proof using Hclock. pose proof keeps_add_child. unfold run_event. kept. Qed.

Lemma keeps_run_events now l : keeps (run_events now l).
Proof using Hclock. pose proof keeps_run_event. induction l; cbn [run_events]; kept. Qed.

(** A due event comes back before its period has passed. *)
Lemma next_day_bound fuel now mk per mk' : next_day fuel now mk per = Ok mk' → mk ≤ now → mk' ≤ now + per.
Proof using.
  revert mk. induction fuel as [|fuel IH]; intros mk; cbn [next_day]; [done|].
  destruct (Z.leb_spec mk now) as [?|?]; [|lia]. intros H' _. destruct (Z.le_gt_cases (mk + per) now); [by apply (IH (mk + per))|].
  destruct fuel; cbn [next_day] in H'; [done|]. destruct (Z.leb_spec (mk + per) now); [lia|]. injection H' as <-. lia.
Qed.

(** The janitor's event is put back when it is taken. *)
Lemma wlp_run_janitor now T a m : Quiet T m → janitor_event T a → now ≤ T → wlp (run_event now a) (λ _ m', Kept T m') m.
Proof using Hclock.
  intros HQ (Hm & Hp & Hd) HT. unfold run_event. apply wlp_bind.
  eapply (wlp_mono _ (λ _ m', Quiet T m')).
  { pose proof keeps_add_child. apply keeps_quiet; [kept|done]. }
  intros [] m1 HQ1. cbv beta in HQ1. rewrite Hp, Hd. cbn [Z.eqb]. apply wlp_bind, wlp_liftr. intros mk Hmk.
  destruct HQ1. unfold schedule_event. wlstep. split.
  - split; try done. by apply scheduled_sorted.
  - exists (set_mark mk a). cbn [schedule set_schedule]. rewrite scheduled_perm. split; [by left|]. split_and!; [|done..].
    cbn [mark set_mark]. destruct (Z.le_gt_cases (mark a) now) as [Hle|Hgt].
    + pose proof (next_day_bound _ _ _ _ _ Hmk Hle). lia.
    + cbn [next_day] in Hmk. destruct (Z.leb_spec (mark a) now); [lia|]. injection Hmk as <-. lia.
Qed.

Lemma wlp_run_events now T l m : now ≤ T → Quiet T m →
  (∃ e, (e ∈ l ∨ e ∈ schedule m) ∧ janitor_event T e) → wlp (run_events now l) (λ _ m', Kept T m') m.
Proof using Hclock.
  intros HT. revert m. induction l as [|a l IH]; intros m HQ (e & He & Hj); cbn [run_events].
  - wlstep. split; [done|]. exists e. split; [|done]. by destruct He as [He%elem_of_nil|He].
  - apply wlp_bind. destruct He as [[->|He]%elem_of_cons|He].
    + eapply wlp_mono; [by apply wlp_run_janitor|]. intros [] m1 Hk. by apply keeps_kept; [apply keeps_run_events|].
    + eapply wlp_mono; [by apply keeps_run_event|]. intros [] m1 [HQ1 Hs1]. apply IH; [done|]. exists e. by split; [left|].
    + eapply wlp_mono; [by apply keeps_run_event|]. intros [] m1 [HQ1 Hs1]. apply IH; [done|]. exists e. by split; [right; apply Hs1|].
Qed.

Lemma wlp_spawn_schedule now T m : now ≤ T → Kept T m → wlp (spawn_schedule now) (λ _ m', Kept T m') m.
Proof using Hclock.
  intros HT [[] (e & He & Hj)]. unfold spawn_schedule. wlstep.
  pose proof (take_due_split now (schedule m) []) as Hs. destruct (take_due now (schedule m) []) as [d r].
  destruct Hs as (Hs & Hin & _). wlstep. apply wlp_run_events; [done|split; try done; by apply Hs|].
  exists e. split; [|done]. by apply Hin.
Qed.

(** ** The configuration *)

Lemma keeps_process_section func fuel : (∀ n e, keeps (func n e)) → ∀ buf f, keeps (process_section fuel buf f func).
Proof using. intros Hf. induction fuel as [|fuel IH]; intros buf f; cbn [process_section]; kept. Qed.

Lemma keeps_getsection func junk file sec : (∀ n e, keeps (func n e)) → keeps (masterconf_getsection junk file sec func).
Proof using.
  intros Hf. unfold masterconf_getsection, fatal. destruct file as [f|]; [|kept].
  pose proof (keeps_process_section func) as Hp. specialize (λ n, Hp n Hf).
  generalize (S (length f)) at 1. intros fuel. generalize junk at 2. generalize 0. revert f.
  induction fuel as [|fuel IH]; intros f level buf; cbn [getsection_loop]; kept.
Qed.

Lemma keeps_add_service u ign n e : keeps (add_service u ign n e).
Proof using Hclock. pose proof keeps_service_at. unfold add_service, complain, fatal, time. kept. Qed.
Lemma keeps_add_event ign n e : keeps (add_event ign n e).
Proof using Hclock. unfold add_event, complain, fatal, time. kept. Qed.
Lemma keeps_add_limits n e : keeps (add_limits n e).
Proof using. unfold add_limits. kept. Qed.

Lemma keeps_disable i : keeps (disable i).
Proof using. pose proof keeps_service_at. unfold disable. kept. Qed.
Lemma keeps_open_listener p : keeps (open_listener p).
Proof using Hclock. unfold open_listener. kept. Qed.
Lemma keeps_statsock : keeps get_statsock.
Proof using Hclock. unfold get_statsock, fatal. kept. Qed.
Lemma keeps_create_loop i s p fs : ∀ local n, keeps (create_loop i s p fs local n).
Proof using Hclock.
  pose proof keeps_service_at. pose proof keeps_open_listener. pose proof keeps_statsock.
  induction fs as [|f fs IH]; intros local n; cbn [create_loop]; kept.
Qed.
Lemma keeps_service_create i : keeps (service_create i).
Proof using Hclock.
  pose proof keeps_service_at. pose proof keeps_create_loop. pose proof keeps_disable.
  unfold service_create, resolve, fatal. kept.
Qed.
Lemma keeps_update_services fuel i : keeps (update_services fuel i).
Proof using Hclock.
  pose proof keeps_service_at. pose proof keeps_service_create. revert i.
  induction fuel as [|fuel IH]; intros i; cbn [update_services]; kept.
Qed.

(** The janitor's event is scheduled. *)
Lemma wlp_init_janitor_kept T m : Quiet T m → wlp init_janitor (λ _ m', Quiet T m' ∧ Kept (k_time (calls m')) m') m.
Proof using Hclock.
  intros []. unfold init_janitor, call, time, schedule_event. apply wlp_bind. do 4 wlstep. apply wlp_bind. do 4 wlstep.
  cbn [calls set_calls set_janitor set_schedule schedule]. set (n := S (S (calls m))).
  pose proof (Hclock (calls m) n ltac:(lia)). pose proof (Hclock (S (calls m)) n ltac:(lia)).
  set (e := Event _ _ _ _ _).
  assert (StronglySorted by_mark (scheduled e (schedule m))) by by apply scheduled_sorted.
  split; [by split; try (cbn; lia)|]. split; [by split; try (cbn; lia)|].
  exists e. cbn [schedule set_schedule set_calls set_janitor]. rewrite scheduled_perm. split; [by left|].
  split_and!; [cbn [e mark]; lia|done..].
Qed.

Lemma wlp_reread_kept fuel u junk file T m : Quiet T m →
  wlp (reread_conf fuel u junk file) (λ _ m', Quiet T m' ∧ Kept (k_time (calls m')) m') m.
Proof using Hclock.
  intros HQ. unfold reread_conf. wlstep.
  apply wlp_bind. eapply wlp_mono; [apply (keeps_getsection _ _ _ _ (keeps_add_service u true)); by destruct HQ|].
  intros [] m1 [HQ1 _]. cbv beta in HQ1. apply wlp_bind. eapply wlp_mono; [by apply keeps_update_services|].
  intros [] m2 [HQ2 _]. wlstep. apply wlp_bind.
  eapply wlp_mono; [apply (keeps_getsection _ _ _ _ (keeps_add_event true)); destruct HQ2; split; try done; constructor|].
  intros [] m3 [HQ3 _]. by apply wlp_init_janitor_kept.
Qed.
End Turns.
