(* ===== verification/MasterTheorems.v ===== *)
(** * MasterTheorems: the properties of the master process

    The counters of the services in every state the master can reach, staffing,
    the wakeup calls, the janitor's sweep, and what goes wrong. *)
From S2P Require Import Prelude CMem.
From Stdlib Require Import String Ascii.
From stdpp Require Import gmap sorting list.
From S2P Require Import CString Prog Master MasterConf MasterLoop MasterProof MasterConfProof MasterSched.
#[local] Open Scope Z_scope.

(** ** Runs

    What the main loop does, in the order the system makes it: a turn up to
    [select], SIGHUP, a service after [select], the janitor. *)
Inductive operation :=
| OpBefore (o : options) (sigchld : option (list Z)) (now : Z)
| OpHangup (o : options) (file : option bytes)
| OpServe (msgs : Z → option (option notify_message)) (conns : Z → bool) (i : Z)
| OpJanitor (o : options) (now : Z).

Section Runs.
Context `{K : Kernel}.

Definition perform (a : operation) : Prog master unit :=
  match a with
  | OpBefore o pids now => before_select o (Wakeup pids None None) now
  | OpHangup o file => reread_conf (services_max o) (have_uuid o) (junk o) file
  | OpServe msgs conns i => serve msgs conns i
  | OpJanitor o now => child_janitor (janitor_frequency o) now
  end.

(** The pids of [waitpid] are positive; SIGHUP comes when no service without a
    listener has children; messages are from registered children of the service. *)
Definition permitted (a : operation) (m : master) : Prop :=
  match a with
  | OpBefore _ pids _ => Forall (λ p, 0 < p) (default [] pids)
  | OpHangup _ _ => settled has_socket 0 m
  | OpServe msgs _ i => 0 ≤ i < Z.of_nat (length (Services m)) ∧
      ∀ s msg, Services m !! Z.to_nat i = Some s → 0 < stat0 (comm s) → msgs i = Some (Some msg) → from_child i msg m
  | OpJanitor _ _ => True
  end.

Inductive run : master → Prop :=
| run_start o file t m : start o file master0 = Ok (t, m) → run m
| run_more a m m' : run m → permitted a m → perform a m = Ok (tt, m') → run m'.

Definition hangup (a : operation) : bool := match a with OpHangup _ _ => true | _ => false end.

(** A turn is made of these. *)
Definition turn_ops (o : options) (w : wakeup) (now : Z) : Prog master Z :=
  perform (OpBefore o (w_sigchld w) now);;
  (match w_sighup w with Some file => perform (OpHangup o file) | None => mret tt end);;
  match w_select w with
  | None => mret now
  | Some (msgs, conns) =>
      l ← get Services;
      all_services (λ i, perform (OpServe msgs
        (λ i, conns i && match l !! Z.to_nat i with Some s => wants_connections s | None => false end) i));;
      now ← time; perform (OpJanitor o now);; mret now
  end.
End Runs.

Section Facts.
Context `{K : Kernel}.

Lemma turn_is_ops o w now m : turn o w now m = turn_ops o w now m.
Proof using.
  unfold turn, turn_ops, perform, before_select, after_select. cbn [w_sigchld w_sighup]. rewrite !bind_assoc.
  apply bind_same. intros [] m1. rewrite !bind_assoc. apply bind_same. intros [] m2.
  rewrite !bind_assoc. apply bind_same. intros [] m3.
  lazymatch goal with |- ?l = (mret tt ≫= ?g) ?x => change (l = g tt x) end. apply bind_same. intros [] m4.
  by destruct (w_select w) as [[msgs conns]|].
Qed.

Lemma wp_for_services (J : master → Prop) f n : ∀ i m,
  (∀ j m, i ≤ j < i + Z.of_nat n → J m → wp (f j) (λ _ m', J m') m) → J m → wp (for_services n i f) (λ _ m', J m') m.
Proof using.
  induction n as [|n IH]; intros i m Hf HJ; cbn [for_services]; [by wstep|].
  apply wp_bind. eapply wp_mono; [apply Hf; [lia|done]|]. intros [] m1 HJ1. apply IH; [|done].
  intros j m2 Hj. apply Hf. lia.
Qed.

Context (Hfork : ∀ n, k_fork n = -1 ∨ 0 < k_fork n).

Lemma wp_before o pids now m : Inv m → Forall (λ p, 0 < p) (default [] pids) →
  wp (before_select o (Wakeup pids None None) now) (λ _ m', Inv m') m.
Proof using Hfork.
  intros HI Hp. unfold before_select. cbn [w_sigchld w_sighup]. apply wp_bind.
  eapply wp_mono; [by apply wp_spawn_schedule|]. intros [] m1 HI1. cbv beta in HI1. apply wp_bind.
  apply (wp_mono _ (λ _ m', Inv m')); [destruct pids; [by apply wp_reap_child|by wstep]|].
  intros [] m2 HI2. cbv beta in HI2. apply wp_bind. unfold all_services. wstep. eapply wp_mono.
  { apply (wp_for_services (λ m', Inv m' ∧ length (Services m') = length (Services m2))); [|done].
    intros j m3 Hj [HI3 Hl3]. rewrite <- Hl3 in Hj |- *. apply wp_check_service; [done|done|lia]. }
  intros [] m3 [HI3 _]. by wstep.
Qed.

Lemma wp_serve msgs conns i m : Inv m → permitted (OpServe msgs conns i) m → wp (serve msgs conns i) (λ _ m', Inv m') m.
Proof using Hfork.
  intros HI [Hi Hmsg]. assert (∀ m1 b, Inv m1 → length (Services m1) = length (Services m) → wp (bring_up i b) (λ _ m', Inv m') m1) as Hup.
  { intros m1 b HI1 Hl. destruct (lookup_lt_is_Some_2 (Services m1) (Z.to_nat i)) as [s Hs]; [lia|].
    eapply wp_bring_up; [done|done|lia|exact Hs| |by intros]. by apply (enabled_named m1 i); [|lia|]. }
  destruct (lookup_lt_is_Some_2 (Services m) (Z.to_nat i)) as [s Hs]; [lia|].
  unfold serve. apply wp_bind. eapply wp_service_at; [lia|done|].
  destruct (Z.ltb_spec 0 (stat0 (comm s))); [|by apply Hup].
  destruct (msgs i) as [[msg|]|] eqn:Em; [|by wstep|by apply Hup].
  apply wp_bind. eapply wp_mono; [apply wp_process_msg; [done|by apply (Hmsg s)]|]. intros [] m1 [HI1 Hl1]. by apply Hup.
Qed.

Lemma run_inv m : run m → Inv m.
Proof using Hfork.
  induction 1 as [o file t m H|a m m' _ HI Hp H]; [exact (wlp_elim _ _ _ _ _ (wlp_start o file) H)|].
  destruct a; cbn [perform permitted] in *.
  - eapply (wp_elim _ (λ _ m', Inv m')); [by apply wp_before|exact H].
  - eapply (wlp_elim _ (λ _ m', Inv m')); [by apply wlp_reread_conf|exact H].
  - eapply (wp_elim _ (λ _ m', Inv m')); [by apply wp_serve|exact H].
  - eapply (wp_elim _ (λ _ m', Inv m')); [by apply wp_child_janitor|exact H].
Qed.

Lemma perform_returns m a : Inv m → permitted a m → hangup a = false → ∃ m', perform a m = Ok (tt, m').
Proof using Hfork.
  intros HI Hp Hh. enough (wp (perform a) (λ _ m', Inv m') m) as (u & m' & Hm & _)%wp_ok by (exists m'; by destruct u).
  destruct a; cbn [perform permitted] in *; [by apply wp_before|done|by apply wp_serve|by apply wp_child_janitor].
Qed.

(** ** Staffing *)

(** C36: in every state the master can reach from its start by turns of the main
    loop, with [fork] failing at will, [nactive] is the number of entries of live
    children the service has in the table, [ready_workers] that of its ready ones,
    whatever children exit, report or are swept, and in whatever order; and every
    operation but SIGHUP then returns.  A turn of the loop is a sequence of these
    operations.  SIGHUP keeps the counts when no service without a listener has children. *)
Theorem master_counts_children m : run m →
  (∀ i s, 0 ≤ i → Services m !! Z.to_nat i = Some s →
     nactive (stats s) = total (alive i) (ctable m) ∧ ready_workers (stats s) = total (idle i) (ctable m)
     ∧ 0 ≤ ready_workers (stats s) ≤ nactive (stats s)) ∧
  (∀ a, permitted a m → hangup a = false → ∃ m', perform a m = Ok (tt, m')) ∧
  (∀ o w now, turn o w now m = turn_ops o w now m).
Proof using Hfork.
  intros HI%run_inv. split_and!; [|intros a; by apply perform_returns|intros; apply turn_is_ops].
  intros i s Hi Hs. destruct (inv_service _ _ _ HI Hi Hs) as (Ha & Hr & _).
  pose proof (idle_alive i (ctable m)). pose proof (total_nonneg (idle i) (ctable m)). lia.
Qed.

(** C37: when the main loop comes to an enabled service that may have more
    children, it leaves it with the workers it should have, and with a free one if
    a client waits; or [fork] has failed, or its fork rate is limited and the main
    loop will wake up within two seconds to try again.  Other services stay. *)
Theorem master_staffs_services m i s b : run m → 0 ≤ i → Services m !! Z.to_nat i = Some s →
  enabled s = true → nactive (stats s) < max_workers (limits s) →
  ∃ m' s', bring_up i b m = Ok (tt, m') ∧ Services m' = <[Z.to_nat i := s']> (Services m) ∧ limits s' = limits s ∧
    ((desired_workers (limits s) ≤ ready_workers (stats s') ∧ (b = true → ready_workers (stats s') ≠ 0)) ∨
     (∃ n, (calls m ≤ n < calls m')%nat ∧ k_fork n = -1) ∨
     (maxforkrate (limits s) ≠ 0 ∧
      ∃ e n, e ∈ schedule m' ∧ (calls m ≤ n < calls m')%nat ∧ mark e = k_time n + FORKRATE_INTERVAL)).
Proof using Hfork.
  intros HI%run_inv Hi Hs He Hmax.
  enough (wp (bring_up i b) (λ _ m', ∃ s', Services m' = <[Z.to_nat i := s']> (Services m) ∧ limits s' = limits s ∧
    ((desired_workers (limits s) ≤ ready_workers (stats s') ∧ (b = true → ready_workers (stats s') ≠ 0)) ∨
     troubled s (calls m) (calls m') m')) m) as ([] & m' & Hm & s' & H)%wp_ok by (by exists m', s').
  eapply wp_bring_up; [done..|by apply (enabled_named m i)|]. intros m' s' _ Hs' _ Hl H. exists s'. split_and!; [done..|by apply H].
Qed.
End Facts.

(** ** Wakeup calls *)

(** Turns of the main loop: what has happened, the time at the end of the last one. *)
Inductive turns `{K : Kernel} (o : options) : list wakeup → Z → master → Prop :=
| turns_start file now m : start o file master0 = Ok (now, m) → turns o [] now m
| turns_turn ws w now m now' m' : turns o ws now m → turn o w now m = Ok (now', m') → turns o (w :: ws) now' m'.

Section Wakeups.
Context `{K : Kernel} (Hclock : ∀ a b, (a ≤ b)%nat → k_time a ≤ k_time b).

Lemma wlp_start_kept o file : wlp (start o file) (λ t m', Kept t m') master0.
Proof using Hclock.
  assert (Quiet (k_time 0) master0) as HQ0.
  { split; cbn; [constructor|lia|by intros h l|done]. }
  unfold start. apply wlp_bind. eapply wlp_mono; [apply (keeps_quiet _ _ _ (keeps_getsection _ _ _ _ (keeps_add_service Hclock _ _)) HQ0)|].
  intros [] m1 HQ1. apply wlp_bind. eapply wlp_mono; [apply (keeps_quiet _ _ _ (keeps_getsection _ _ _ _ (keeps_add_event Hclock _)) HQ1)|].
  intros [] m2 HQ2. apply wlp_bind. eapply wlp_mono; [apply (keeps_quiet _ _ _ (keeps_getsection _ _ _ _ keeps_add_limits) HQ2)|].
  intros [] m3 HQ3. apply wlp_bind. eapply wlp_mono; [apply (keeps_quiet _ _ _ (keeps_all_services _ (keeps_service_create Hclock)) HQ3)|].
  intros [] m4 HQ4. apply wlp_bind. eapply wlp_mono; [by apply wlp_init_janitor_kept|].
  intros [] m5 [_ HK]. unfold time, call. do 3 wlstep. destruct HK as [[] He]. split; [split|]; try done.
  cbn [calls set_calls]. apply Hclock. lia.
Qed.

Lemma wlp_before_kept o w now T m : now ≤ T → Kept T m →
  wlp (before_select o w now) (λ _ m', ∃ T', T ≤ T' ∧ Kept T' m' ∧ (w_sighup w = None → T' = T)) m.
Proof using Hclock.
  intros HT HK. unfold before_select. apply wlp_bind. eapply wlp_mono; [by apply wlp_spawn_schedule|].
  intros [] m1 HK1. cbv beta in HK1. apply wlp_bind. apply (wlp_mono _ (λ _ m', Kept T m')).
  { destruct (w_sigchld w); [apply keeps_kept; [by apply keeps_reap_child|done]|by wlstep]. }
  intros [] m2 HK2. cbv beta in HK2. apply wlp_bind. eapply wlp_mono.
  { apply keeps_kept; [apply keeps_all_services; by apply keeps_check_service|done]. }
  intros [] m3 HK3. destruct (w_sighup w) as [file|]; [|wlstep; by exists T].
  eapply wlp_mono; [apply wlp_reread_kept; [done|apply HK3]|]. intros [] m4 [[] HK4].
  exists (k_time (calls m4)). by split_and!.
Qed.

Lemma wlp_after_kept o msgs conns T m : Kept T m → wlp (after_select o msgs conns) (λ now m', Kept now m') m.
Proof using Hclock.
  intros HK. unfold after_select. wlstep. apply wlp_bind. eapply wlp_mono.
  { apply keeps_kept; [apply keeps_all_services; intros; by apply keeps_serve|done]. }
  intros [] m1 HK1. cbv beta in HK1. unfold time, call. apply wlp_bind. do 3 wlstep.
  apply wlp_bind. eapply wlp_mono; [|intros a m2 H; wlstep; exact H].
  apply keeps_kept; [by apply keeps_child_janitor|]. pose proof (Hclock (calls m1) (S (calls m1)) ltac:(lia)).
  destruct HK1 as [[] He]. apply (kept_later T); [|done|done]. split; [split; try done; cbn [calls set_calls]; lia|done].
Qed.

Lemma turns_kept o ws now m : turns o ws now m →
  ∃ T, now ≤ T ∧ Kept T m ∧ (Forall (λ w, w_sighup w = None) ws → T = now).
Proof using Hclock.
  induction 1 as [file now m H|ws w now m now' m' _ (T & HT & HK & Hno) H].
  - exists now. split_and!; [done| |done]. exact (wlp_elim _ _ _ _ _ (wlp_start_kept o file) H).
  - assert (wlp (turn o w now) (λ now' m', ∃ T', now' ≤ T' ∧ Kept T' m' ∧ (Forall (λ w, w_sighup w = None) (w :: ws) → T' = now')) m) as Hw.
    2:{ exact (wlp_elim _ _ _ _ _ Hw H). }
    unfold turn. apply wlp_bind. eapply wlp_mono; [by apply wlp_before_kept|]. intros [] m1 (T1 & HT1 & HK1 & Hn1).
    destruct (w_select w) as [[msgs conns]|].
    + eapply wlp_mono; [by eapply wlp_after_kept|]. intros now2 m2 HK2. by exists now2.
    + wlstep. exists T1. split_and!; [lia|done|]. intros Hf. inversion_clear Hf. by rewrite Hn1, Hno.
Qed.

(** C38: the master always wakes up again: when it comes to [select], the schedule is
    not empty, the time [select] is given is that of the earliest event, and it is
    at most ten seconds, or ten seconds from now when a SIGHUP has just been served. *)
Theorem master_wakes_up o ws now m w m' : turns o ws now m → before_select o w now m = Ok (tt, m') →
  ∃ d, timeout now m' = Some d ∧ 0 ≤ d ∧ now + d ≤ k_time (calls m') + 10 ∧
    (∀ e, e ∈ schedule m' → now + d ≤ mark e ∨ mark e ≤ now) ∧
    (Forall (λ w, w_sighup w = None) (w :: ws) → d ≤ 10).
Proof using Hclock.
  intros (T & HT & HK & Hno)%turns_kept H. destruct (wlp_elim _ _ _ _ _ (wlp_before_kept o w now T m HT HK) H) as (T1 & HT1 & [[Hs Ht _ _] (e & He & Hm & _)] & Hn1).
  unfold timeout. destruct (schedule m') as [|e0 l]; [by apply elem_of_nil in He|].
  inversion_clear Hs as [|?? Hs' Hf]. assert (∀ x, x ∈ e0 :: l → mark e0 ≤ mark x) as Hmin.
  { intros x [->|Hx]%elem_of_cons; [done|]. rewrite Forall_forall in Hf. by apply (Hf x). }
  pose proof (Hmin e He). assert (Forall (λ w, w_sighup w = None) (w :: ws) → T1 = now) as Hns.
  { intros Hf'. inversion_clear Hf'. by rewrite Hn1, Hno. }
  destruct (Z.ltb_spec now (mark e0)).
  - exists (mark e0 - now). split_and!; [done|lia|lia| |intros Hq; specialize (Hns Hq); lia].
    intros x Hx. left. specialize (Hmin x Hx). lia.
  - exists 0. split_and!; [done|lia|lia| |lia]. intros x Hx. lia.
Qed.
End Wakeups.

(** ** The janitor's sweep *)

Section Sweep.
Context `{K : Kernel}.

Definition live (now : Z) (l : list centry) : list centry := filter (λ c, expired now c = false) l.

Lemma sweep_chain_live now l free : (sweep_chain now l free).1 = live now l.
Proof using.
  unfold live. revert free. induction l as [|c l IH]; intros free; cbn [sweep_chain]; [done|]. rewrite filter_cons.
  destruct (expired now c) eqn:E; case_decide; try done. specialize (IH free). destruct (sweep_chain now l free). cbn [fst] in *. by rewrite IH.
Qed.

(** How many steps of the janitor it is from [pos] to [h]. *)
Definition ahead (pos h : Z) : Z := (h - pos) mod child_table_size.

Lemma ahead_next pos h : 0 ≤ pos < child_table_size → 0 ≤ h < child_table_size → h ≠ pos →
  ahead pos h = 1 + ahead ((pos + 1) mod child_table_size) h.
Proof using.
  intros Hp Hh Hne. unfold ahead. rewrite Zminus_mod_idemp_r. replace (h - (pos + 1)) with (h - pos - 1) by lia.
  assert (child_table_size = 10000) as E by done. rewrite E in *. clear E.
  pose proof (Z.mod_pos_bound (h - pos) 10000 ltac:(lia)). pose proof (Z.div_mod (h - pos) 10000 ltac:(lia)).
  assert ((h - pos) mod 10000 ≠ 0) by lia. rewrite <- (Zminus_mod_idemp_l (h - pos)), (Z.mod_small (_ - 1)); lia.
Qed.

Lemma ahead_self pos : 0 ≤ pos < child_table_size → ahead pos pos = 0 ∧ ahead ((pos + 1) mod child_table_size) pos = child_table_size - 1.
Proof using.
  intros Hp. unfold ahead. rewrite Zminus_mod_idemp_r, Z.sub_diag. split; [done|].
  replace (pos - (pos + 1)) with (-1) by lia. done.
Qed.

Lemma wp_sweep_chains n now : ∀ m, Z.of_nat n ≤ child_table_size → 0 ≤ janitor_position m < child_table_size →
  wp (sweep n now) (λ _ m', Services m' = Services m ∧ janitor_mark m' = janitor_mark m ∧
    ∀ h, 0 ≤ h < child_table_size →
      chain h m' = if ahead (janitor_position m) h <? Z.of_nat n then live now (chain h m) else chain h m) m.
Proof using.
  induction n as [|n IH]; intros m Hn Hp; cbn [sweep].
  { wstep. split_and!; try done. intros h Hh. unfold ahead. pose proof (Z.mod_pos_bound (h - janitor_position m) child_table_size ltac:(done)).
    by destruct (Z.ltb_spec ((h - janitor_position m) mod child_table_size) (Z.of_nat 0)); [lia|]. }
  do 4 wstep. pose proof (sweep_chain_live now (chain (janitor_position m) m) (cfreelist m)) as Hl.
  destruct (sweep_chain _ _ _) as [l' free']. cbn [fst] in Hl. unfold put_chain. do 3 wstep.
  eapply wp_mono; [apply IH; [lia|by apply Z.mod_pos_bound]|]. cbn [Services janitor_mark janitor_position set_janitor set_cfreelist set_ctable].
  intros [] m' (HS & HM & Hc). split_and!; [done..|]. intros h Hh. rewrite Hc by done. unfold chain at 1 2 3.
  cbn [ctable set_janitor set_cfreelist set_ctable]. destruct (decide (h = janitor_position m)) as [->|Hne].
  - destruct (ahead_self (janitor_position m) Hp) as [-> ->]. rewrite lookup_insert_eq. cbn [from_option]. unfold id.
    destruct (Z.ltb_spec (child_table_size - 1) (Z.of_nat n)); [lia|]. destruct (Z.ltb_spec 0 (Z.of_nat (S n))); [|lia]. exact Hl.
  - rewrite lookup_insert_ne by done. rewrite (ahead_next _ _ Hp Hh Hne).
    destruct (Z.ltb_spec (ahead ((janitor_position m + 1) mod child_table_size) h) (Z.of_nat n)),
      (Z.ltb_spec (1 + ahead ((janitor_position m + 1) mod child_table_size) h) (Z.of_nat (S n))); done || lia.
Qed.

Lemma dead_or (P Q R : Prop) : Decision P → (¬ P ∨ Q) ∧ R ↔ R ∧ (P → Q).
Proof using. intros []; tauto. Qed.

(** C39: the janitor sweeps as many chains as its frequency and the time since its mark
    say, from where it stopped, and all of them when that is more than a second: of
    those it removes the entries of children that have been dead for their two
    seconds, and nothing else; the rest of the table, the services and the mark stay. *)
Theorem janitor_sweeps f now m : 0 ≤ janitor_position m < child_table_size →
  ∃ m', child_janitor f now m = Ok (tt, m') ∧ Services m' = Services m ∧ janitor_mark m' = janitor_mark m ∧
    (∀ h, 0 ≤ h < child_table_size →
       chain h m' = if ahead (janitor_position m) h <? sweep_size f (janitor_mark m) (k_timeofday (calls m))
                    then live now (chain h m) else chain h m) ∧
    ((janitor_mark m).1 + 1 < (k_timeofday (calls m)).1 → ∀ h, 0 ≤ h < child_table_size →
       ∀ c, c ∈ chain h m' ↔ c ∈ chain h m ∧ (service_state c = SERVICE_STATE_DEAD → now ≤ janitor_deadline c)).
Proof using.
  intros Hp. set (n := sweep_size f (janitor_mark m) (k_timeofday (calls m))).
  assert (n ≤ child_table_size) as Hn.
  { unfold n, sweep_size. destruct (_ <? _); [lia|]. case_match; [|lia]. apply Z.lt_le_incl. by apply Z.ltb_lt. }
  enough (wp (child_janitor f now) (λ _ m', Services m' = Services m ∧ janitor_mark m' = janitor_mark m ∧
    ∀ h, 0 ≤ h < child_table_size → chain h m' = if ahead (janitor_position m) h <? n then live now (chain h m) else chain h m) m)
    as ([] & m' & Hm & HS & HM & Hc)%wp_ok.
  { exists m'. split_and!; [done..|]. intros Hold h Hh c. rewrite Hc by done.
    assert (n = child_table_size) as -> by (unfold n, sweep_size; by rewrite (proj2 (Z.ltb_lt _ _) Hold)).
    pose proof (Z.mod_pos_bound (h - janitor_position m) child_table_size ltac:(done)) as [_ Hb].
    unfold ahead. rewrite (proj2 (Z.ltb_lt _ _) Hb). unfold live. rewrite list_elem_of_filter. unfold expired.
    rewrite andb_false_iff, bool_decide_eq_false, Z.ltb_ge. apply dead_or, sstate_eq_dec. }
  unfold child_janitor. apply wp_bind, wp_call. wstep. cbn [janitor_mark set_calls]. fold n.
  eapply wp_mono; [apply wp_sweep_chains; [lia|done]|]. intros [] m' (HS & HM & Hc). split_and!; [done..|].
  intros h Hh. rewrite Hc by done. cbn [janitor_position set_calls]. change (chain h (set_calls _ m)) with (chain h m).
  unfold ahead. pose proof (Z.mod_pos_bound (h - janitor_position m) child_table_size ltac:(done)).
  destruct (Z.le_gt_cases 0 n); [by rewrite Z2Nat.id|]. rewrite Z2Nat.nonpos by lia.
  rewrite !(proj2 (Z.ltb_ge _ _)) by lia. done.
Qed.
End Sweep.

(** ** A system to run it on *)

(** Text of a file: an apostrophe stands for a quote, a bar for the end of a line. *)
Definition text (s : string) : bytes :=
  map (λ c, let n := Z.of_N (N_of_ascii c) in if n =? 39 then 34 else if n =? 124 then 10 else n) (list_ascii_of_string s).

(** The [n]-th call is at [start] and [n / speed] seconds; [fork] gives [pids]. *)
Definition calm (pids : nat → Z) (start speed : Z) : Kernel := {|
  k_time n := start + Z.of_nat n / speed; k_timeofday n := (start + Z.of_nat n / speed, 0); k_fork := pids;
  k_addrinfo _ _ _ _ := Some [2]; k_socket n := 3 + Z.of_nat n; k_bind _ := true; k_listen _ := true;
  k_pipe n := Some (100 + Z.of_nat n, 200 + Z.of_nat n); k_runnable _ := true; k_day_time t h m := t |}.
Definition fresh (n : nat) : Z := 1000 + Z.of_nat n.

Definition demo_options : options := Options (replicate 4096 0) 1 true 10.
Definition demo_file : bytes :=
  text "SERVICES {|  imap cmd='imapd' listen='143' prefork=2 provide_uuid=yes|}|EVENTS {|  tidy cmd='expire' at=400|}|".

Definition after {A} (p : Prog master A) (m : master) : master := match p m with Ok (_, m') => m' | Fault _ => m end.
Definition returns {A} (p : Prog master A) (m : master) : bool := match p m with Ok _ => true | Fault _ => false end.
Lemma after_ok (p : Prog master unit) m : returns p m = true → p m = Ok (tt, after p m).
Proof. unfold returns, after. by destruct (p m) as [[[] m']|]. Qed.
Lemma start_ok `{K : Kernel} o file m : returns (start o file) m = true → ∃ t, start o file m = Ok (t, after (start o file) m).
Proof. unfold returns, after. destruct (start o file m) as [[t m']|]; [by exists t|done]. Qed.

Section Demo.
#[local] Instance demo_kernel : Kernel := calm fresh 0 1.

Lemma fork_gives n : k_fork n = -1 ∨ 0 < k_fork n.
Proof. right. unfold k_fork, demo_kernel, calm, fresh. lia. Qed.
Lemma clock_runs a b : (a ≤ b)%nat → k_time a ≤ k_time b.
Proof. intros H. unfold k_time, demo_kernel, calm. rewrite !Z.div_1_r. lia. Qed.

(** Started, and one turn later. *)
Definition demo_started : master := after (start demo_options (Some demo_file)) master0.
Definition demo_staffed : master := after (perform (OpBefore demo_options None 9)) demo_started.
Definition first_service (m : master) : service := default (no_service 0) (head (Services m)).

Lemma demo_started_run : run demo_started.
Proof. destruct (start_ok demo_options (Some demo_file) master0) as [t H]; [by vm_compute|]. exact (run_start _ _ _ _ H). Qed.
Lemma demo_staffed_run : run demo_staffed.
Proof.
  eapply (run_more (OpBefore demo_options None 9)); [exact demo_started_run|by constructor|].
  apply after_ok. by vm_compute.
Qed.

(** The first child is ready; then it says that it is not. *)
Definition busy_message : notify_message := Msg MASTER_SERVICE_UNAVAILABLE 1012 0 [0] [0].
Lemma master_counts_children_witness :
  total (alive 0) (ctable demo_staffed) = 1 ∧ total (idle 0) (ctable demo_staffed) = 1 ∧
  ∃ m', perform (OpServe (λ _, Some (Some busy_message)) (λ _, false) 0) demo_staffed = Ok (tt, m').
Proof.
  destruct (master_counts_children fork_gives demo_staffed demo_staffed_run) as (Hc & Hp & _).
  destruct (Hc 0 (first_service demo_staffed)) as (Ha & Hr & _); [done|by vm_compute|].
  rewrite <- Ha, <- Hr. split; [vm_compute; reflexivity|]. split; [vm_compute; reflexivity|].
  apply Hp; [|reflexivity]. clear Hc Hp Ha Hr. split.
  - split; [done|vm_compute; reflexivity].
  - intros s msg _ _ [= <-]. clear s. unfold from_child. split; [done|]. split; [done|]. split; [|by split].
    eexists. split; [vm_compute; reflexivity|reflexivity].
Defined.

(** A second child is started, as the service should have two. *)
Lemma master_staffs_services_witness : ∃ m' s', bring_up 0 true demo_staffed = Ok (tt, m') ∧
  Services m' = <[0%nat := s']> (Services demo_staffed) ∧ limits s' = limits (first_service demo_staffed).
Proof.
  destruct (master_staffs_services fork_gives demo_staffed 0 (first_service demo_staffed) true demo_staffed_run)
    as (m' & s' & H1 & H2 & H3 & _); [done|vm_compute; reflexivity..|].
  exists m', s'. exact (conj H1 (conj H2 H3)).
Defined.

Lemma master_wakes_up_witness : ∃ d, timeout 9 demo_staffed = Some d ∧ 0 ≤ d ≤ 10.
Proof.
  assert (start demo_options (Some demo_file) master0 = Ok (9, demo_started)) as H.
  { destruct (start_ok demo_options (Some demo_file) master0) as [t H]; [by vm_compute|].
    enough (t = 9) as <- by exact H. apply (f_equal (λ r, match r with Ok (t, _) => t | Fault _ => 0 end)) in H.
    rewrite <- H. by vm_compute. }
  destruct (master_wakes_up clock_runs demo_options [] 9 demo_started (Wakeup None None None) demo_staffed)
    as (d & Hd & H0 & _ & _ & H10); [exact (turns_start _ _ _ _ H)|apply after_ok; by vm_compute|].
  exists d. split; [exact Hd|]. split; [exact H0|]. apply H10. by constructor.
Defined.

(** The first child exits; three seconds later its entry is swept. *)
Definition demo_reaped : master := after (reap_child [1012]) demo_staffed.
Lemma janitor_sweeps_witness : ∃ m', child_janitor 1 100 demo_reaped = Ok (tt, m') ∧
  total (λ _, true) (ctable demo_reaped) = 2 ∧ chain 1012 m' = [].
Proof.
  assert (0 ≤ 1012 < child_table_size) as Hh by done.
  destruct (janitor_sweeps 1 100 demo_reaped) as (m' & Hm & _ & _ & Hc & _); [by vm_compute|].
  exists m'. split; [exact Hm|]. split; [vm_compute; reflexivity|].
  rewrite (Hc 1012 Hh). vm_compute. reflexivity.
Defined.
End Demo.

(** ** What goes wrong *)

(** A master with one service, and a service called imap that nobody uses yet. *)
Definition only (s : service) : master := Master [s] ∅ [] [] 0 (0, 0) 0 0 None 0.
Definition imap_service (rate start : Z) : service :=
  Service (SConf (Some imap_name) (Some [49]) (Some [116; 99; 112]) (Some [[105]]) false false 0 2) (SComm 3 4 5)
    (SLimits 0 100 256 rate) (SStats 0 0 0 0 0 start 0).
Definition counters (m : master) : Z * Z := let t := stats (first_service m) in (ready_workers t, nactive t).
Definition message_from (p : Z) (msg : message) : notify_message := Msg msg p 0 [117; 0] [104; 0].
Definition no_file : bytes := text "SERVICES {|}|".


Section Strays.
Context `{K : Kernel}.



(** A [fork] that fails for the service called imap is counted as a connection. *)
Theorem failed_fork_counted (m : master) (i : Z) (s : service)
    (Hi : 0 ≤ i) (Hservice : Services m !! Z.to_nat i = Some s) (Hname : s_name (conf s) = Some imap_name)
    (Hrate : maxforkrate (limits s) = 0) (Hfork : ∀ n, k_fork n = -1) :
  ∃ m', spawn_service i m = Ok (tt, m') ∧ imap_count m' = imap_count m + 1 ∧ ctable m' = ctable m.
Proof using.
  enough (wp (spawn_service i) (λ _ m', imap_count m' = imap_count m + 1 ∧ ctable m' = ctable m) m)
    as ([] & m' & Hm & H)%wp_ok by (by exists m').
  unfold spawn_service, time, put_service. apply wp_bind. eapply wp_service_at; [done..|].
  apply wp_bind, wp_call. rewrite Hname, Hrate. apply wp_bind, wp_modify. cbn [Z.eqb negb andb].
  apply wp_bind, wp_modify, wp_bind, wp_call. rewrite Hfork. by apply wp_ret.
Qed.
End Strays.


(** Concrete runs of the master's mistakes.  A service with a fork rate of
    at most 1 an interval is held back, but not when it has been idle for long before.
    A child that is only known from its message is counted when it exits, and not
    before: both counters are -1.  A [fork] that fails leaves
    [imap_count] up.  The user of a session is written to another child's entry when
    the pids collide.  Started with it, [provide_uuid] is not heeded, and after SIGHUP
    it is.  A service that is disabled and enabled again by SIGHUP while it has a
    ready child forgets it, and is left with [ready_workers] at -1 when it exits. *)
Example master_bad_runs :
  let calm0 := calm fresh 10000 8 in
  (* the fork rate *)
  counters (after (@spawn_many calm0 40 0) (only (imap_service 1 10000))) = (16, 16) ∧
  counters (after (@spawn_many calm0 40 0) (only (imap_service 1 0))) = (40, 40) ∧
  (* a message out of nowhere *)
  counters (after (@reap_one calm0 77) (after (process_msg 0 (message_from 77 MASTER_SERVICE_AVAILABLE)) (only (imap_service 0 0)))) = (-1, -1) ∧
  (* no fork *)
  (let m := after (@spawn_service (calm (λ _, -1) 0 1) 0) (only (imap_service 0 0)) in counters m = (0, 0) ∧ imap_count m = 1) ∧
  (* pids that collide *)
  (let m := after (@spawn_many (calm (λ n, if (n <? 3)%nat then 5 else 10005) 0 1) 2 0) (only (imap_service 0 0)) in
   let m := after (process_msg 0 (message_from 5 MASTER_SERVICE_STATUS_ADD_USER)) m in
   map (λ c, (pid c, m_user_buf c)) (chain 5 m) = [(10005, Some [117]); (5, None)]) ∧
  (* UUIDs *)
  (let K := calm fresh 0 1 in let reread file := reread_conf 10 true (replicate 4096 0) (Some file) in
   let started := after (start demo_options (Some demo_file)) master0 in
   s_provide_uuid (conf (first_service started)) = false ∧
   s_provide_uuid (conf (first_service (after (reread demo_file) started))) = true ∧
   (* SIGHUP *)
   let m := after (reread demo_file) (after (reread no_file) demo_staffed) in
   counters demo_staffed = (1, 1) ∧ counters m = (0, 1) ∧ counters (after (reap_one 1012) m) = (-1, 0)).
Proof. vm_compute. repeat split. Qed.
