(* ===== verification/DbFile.v ===== *)
(** * DbFile: the file system below a database backend

    Inodes, names, one open descriptor, [fcntl] locks and one shared mapping,
    with the helpers of [lib/] that the backends go through:
    [lib/lock_fcntl.c] ([lock_reopen], [lock_shared], [lock_unlock]),
    [lib/map_shared.c] ([map_refresh], [map_free]) and [lib/retry.c]
    ([retry_write]).  What the system may do otherwise (a call that fails, a
    full disk, the clock, [rand]) is the class [Env]. *)
From stdpp Require Import gmap.
From S2P Require Import Prelude CMem Prog.
#[local] Open Scope Z_scope.

(** ** The environment

    The [n]-th call that can fail does so when [fails n]; a write past
    [file_limit] gets no space.  [coin n] is the outcome of the [n]-th
    [rand() / RAND_MAX < PROB], [clock n] the [n]-th [time(NULL)]. *)
Class Env := {
  fails : nat → bool;
  coin : nat → bool;
  clock : nat → Z;
  file_limit : Z;
  skiplist_unsafe : bool;
}.

Inductive lock := LShared | LExclusive.
#[global] Instance lock_eq_dec : EqDecision lock.
Proof. solve_decision. Defined.

Record fsys := Fs {
  inodes : gmap Z bytes;
  names : gmap bytes Z;
  held : gmap Z lock; (* this process's locks *)
  nextino : Z;
  ticks : nat;
}.

(** The in-memory copy of the header of a database file. *)
Record header := Hdr {
  version : Z; version_minor : Z; maxlevel : Z; curlevel : Z;
  listsize : Z; logstart : Z; last_recovery : Z;
}.

(** [map_base] is a shared mapping of the first [map_len] bytes of the inode
    [map_of], NULL when [map_len] is 0. *)
Record mapping := Map { map_of : Z; map_len : Z; map_size : Z; map_ino : Z }.

(** The process: the file system and [struct db]; the descriptor is its inode
    and position, [None] when it is -1 or closed. *)
Record st := St {
  fs : fsys;
  fname : bytes;
  fd : option (Z * Z);
  mp : mapping;
  hdr : header;
}.

Definition set_fs (x : fsys) (s : st) : st := St x (fname s) (fd s) (mp s) (hdr s).
Definition set_fd (x : option (Z * Z)) (s : st) : st := St (fs s) (fname s) x (mp s) (hdr s).
Definition set_mp (x : mapping) (s : st) : st := St (fs s) (fname s) (fd s) x (hdr s).
Definition set_hdr (x : header) (s : st) : st := St (fs s) (fname s) (fd s) (mp s) x.

Definition set_curlevel (x : Z) (h : header) : header :=
  Hdr (version h) (version_minor h) (maxlevel h) x (listsize h) (logstart h) (last_recovery h).
Definition set_listsize (x : Z) (h : header) : header :=
  Hdr (version h) (version_minor h) (maxlevel h) (curlevel h) x (logstart h) (last_recovery h).
Definition set_logstart (x : Z) (h : header) : header :=
  Hdr (version h) (version_minor h) (maxlevel h) (curlevel h) (listsize h) x (last_recovery h).
Definition set_last_recovery (x : Z) (h : header) : header :=
  Hdr (version h) (version_minor h) (maxlevel h) (curlevel h) (listsize h) (logstart h) x.
Definition set_map_size (x : Z) (m : mapping) : mapping := Map (map_of m) (map_len m) x (map_ino m).

Definition set_inodes (x : gmap Z bytes) (f : fsys) : fsys :=
  Fs x (names f) (held f) (nextino f) (ticks f).
Definition set_names (x : gmap bytes Z) (f : fsys) : fsys :=
  Fs (inodes f) x (held f) (nextino f) (ticks f).
Definition set_held (x : gmap Z lock) (f : fsys) : fsys :=
  Fs (inodes f) (names f) x (nextino f) (ticks f).

(** ** Programs *)

Abbreviation M := (Prog st).

Definition modify_fs (f : fsys → fsys) : M unit := modify (λ s, set_fs (f (fs s)) s).
Definition modify_hdr (f : header → header) : M unit := modify (λ s, set_hdr (f (hdr s)) s).

(** The bytes the mapping shows.  A page past the end of the file cannot be
    touched; the zeros up to the end of the last page are not modelled, reading
    them is a fault here. *)
Definition view (s : st) : bytes :=
  take (Z.to_nat (map_len (mp s))) (default [] (inodes (fs s) !! map_of (mp s))).

(** Read through the mapping. *)
Definition rd {A} (f : bytes → result A) : M A := λ s, a ← f (view s); Ok (a, s).

Section Env.
Context `{E : Env}.

Definition tick : M nat := λ s,
  let f := fs s in
  Ok (ticks f, set_fs (Fs (inodes f) (names f) (held f) (nextino f) (S (ticks f))) s).
Definition sys_fails : M bool := n ← tick; mret (fails n).
Definition rand_below_prob : M bool := n ← tick; mret (coin n).
Definition time_now : M Z := n ← tick; mret (clock n).

(** ** Descriptors *)

Definition file_of (s : st) (ino : Z) : bytes := default [] (inodes (fs s) !! ino).

Definition put_file (ino : Z) (bs : bytes) : M unit :=
  modify_fs (λ f, set_inodes (<[ino := bs]> (inodes f)) f).

(** [open(name, O_RDWR | O_CREAT, 0644)]: the descriptor. *)
Definition open_creat (name : bytes) : M (option Z) :=
  bad ← sys_fails;
  if (bad : bool) then mret None else
  f ← get fs;
  match names f !! name with
  | Some ino => mret (Some ino)
  | None =>
      let ino := nextino f in
      modify (set_fs (Fs (<[ino := []]> (inodes f)) (<[name := ino]> (names f)) (held f)
                        (ino + 1) (ticks f)));;
      mret (Some ino)
  end.

(** [lseek(db->fd, off, SEEK_SET)] and [lseek(db->fd, 0, SEEK_END)]. *)
Definition c_lseek_set (off : Z) : M Z :=
  d ← get fd;
  match d with
  | None => mret (-1)
  | Some (ino, _) =>
      if off <? 0 then mret (-1) else modify (set_fd (Some (ino, off)));; mret off
  end.
Definition c_lseek_end : M Z :=
  d ← get fd;
  match d with
  | None => mret (-1)
  | Some (ino, _) =>
      n ← get (λ s, blen (file_of s ino)); modify (set_fd (Some (ino, n)));; mret n
  end.

(** [retry_write] and [retry_writev] ([lib/retry.c]): what fits is written, and
    if that is not all the next [write] fails. *)
Definition retry_write (bs : bytes) : M Z :=
  if blen bs =? 0 then mret 0 else
  d ← get fd;
  match d with
  | None => mret (-1)
  | Some (ino, pos) =>
      let n := Z.min (blen bs) (Z.max 0 (file_limit - pos)) in
      old ← get (λ s, file_of s ino);
      (if n =? 0 then mret tt else
       put_file ino (wr old pos (take (Z.to_nat n) bs));; modify (set_fd (Some (ino, pos + n))));;
      mret (if n =? blen bs then n else -1)
  end.

Definition ftruncate (n : Z) : M Z :=
  d ← get fd; bad ← sys_fails;
  match d with
  | None => mret (-1)
  | Some (ino, _) =>
      if (bad : bool) then mret (-1) else
      old ← get (λ s, file_of s ino);
      put_file ino (take (Z.to_nat n) (pad_to old n));; mret 0
  end.

(** [DO_FSYNC && fsync(db->fd) < 0], and the same of [fdatasync]. *)
Definition fsync_fails : M bool := if skiplist_unsafe then mret false else sys_fails.

(** ** Locks ([lib/lock_fcntl.c])

    Closing a descriptor gives up the process's locks on its inode. *)
Definition set_lock (ino : Z) (l : lock) : M unit := modify_fs (λ f, set_held (<[ino := l]> (held f)) f).
Definition drop_lock (ino : Z) : M unit := modify_fs (λ f, set_held (delete ino (held f)) f).

(** Failure to lock, to find the name, or to open it gives -1; a descriptor of
    a file that is no longer the named one is replaced and the lock taken again.
    The inode locked. *)
Fixpoint lock_loop (fuel : nat) (l : lock) (filename : bytes) : M (option Z) :=
  match fuel with
  | O => mfault OutOfFuel
  | S fuel' =>
      d ← get fd; bad ← sys_fails;
      match d with
      | None => mret None
      | Some (ino, _) =>
          if (bad : bool) then mret None else
          set_lock ino l;;
          nm ← get (λ s, names (fs s) !! filename);
          match nm with
          | None => drop_lock ino;; mret None
          | Some ino' =>
              if ino =? ino' then mret (Some ino) else
              bad ← sys_fails;
              if (bad : bool) then drop_lock ino;; mret None else
              drop_lock ino;; modify (set_fd (Some (ino', 0)));; (* dup2 *)
              lock_loop fuel' l filename
          end
      end
  end.
Definition lock_reopen (filename : bytes) : M (option Z) := lock_loop 2 LExclusive filename.
(** The loop of [read_lock] in the skiplist backend, around [lock_shared]. *)
Definition lock_reopen_shared (filename : bytes) : M (option Z) := lock_loop 2 LShared filename.

Definition lock_unlock : M Z :=
  d ← get fd; bad ← sys_fails;
  match d with
  | None => mret (-1)
  | Some (ino, _) => if (bad : bool) then mret (-1) else drop_lock ino;; mret 0
  end.

(** [close] of the descriptor [fd]. *)
Definition close_fd (d : option (Z * Z)) : M unit :=
  match d with None => mret tt | Some (ino, _) => drop_lock ino end.

(** ** Mapping ([lib/map_shared.c]) *)
Definition SLOP : Z := 8 * 1024.

(** [None] is [MAP_UNKNOWN_LEN].  [fstat] and [mmap] of a bad descriptor end the
    process. *)
Definition map_refresh (newlen : option Z) : M unit :=
  d ← get fd;
  match d with
  | None => mfault AssertFailed
  | Some (ino, _) =>
      size ← get (λ s, blen (file_of s ino));
      let newlen := default size newlen in
      m ← get mp;
      if newlen <=? map_len m then mret tt
      else modify (set_mp (Map ino (Z.land (newlen + 2 * SLOP - 1) (Z.lnot (SLOP - 1)))
                             (map_size m) (map_ino m)))
  end.

Definition map_free : M unit :=
  m ← get mp; modify (set_mp (Map 0 0 (map_size m) (map_ino m))).
(** ** Other system calls *)

(** A call on the descriptor [d], and what is left of it. *)
Definition with_fd {A} (d : option (Z * Z)) (m : M A) : M (A * option (Z * Z)) :=
  old ← get fd; modify (set_fd d);; a ← m; d' ← get fd; modify (set_fd old);; mret (a, d').

(** The name goes; the inode stays for those who have it open.  Failure is ignored. *)
Definition unlink (name : bytes) : M unit :=
  bad ← sys_fails;
  if (bad : bool) then mret tt else modify_fs (λ f, set_names (delete name (names f)) f).

Definition rename (old new : bytes) : M Z :=
  bad ← sys_fails;
  nm ← get (λ s, names (fs s) !! old);
  match nm with
  | Some i =>
      if (bad : bool) then mret (-1)
      else modify_fs (λ f, set_names (<[new := i]> (delete old (names f))) f);; mret 0
  | None => mret (-1)
  end.

(** [fstat(fd, &sbuf)]: [st_ino] and [st_size]. *)
Definition fstat (d : option (Z * Z)) : M (option (Z * Z)) :=
  bad ← sys_fails;
  match d with
  | Some (ino, _) =>
      if (bad : bool) then mret None else size ← get (λ s, blen (file_of s ino)); mret (Some (ino, size))
  | None => mret None
  end.
Definition stat (name : bytes) : M (option (Z * Z)) :=
  bad ← sys_fails;
  nm ← get (λ s, names (fs s) !! name);
  match nm with
  | Some ino =>
      if (bad : bool) then mret None else size ← get (λ s, blen (file_of s ino)); mret (Some (ino, size))
  | None => mret None
  end.

Definition fsync (d : option (Z * Z)) : M Z :=
  bad ← sys_fails;
  match d with Some _ => mret (if (bad : bool) then -1 else 0) | None => mret (-1) end.
End Env.

(** ** Running programs *)

Lemma wp_rd {A} (f : bytes → result A) Q s a : f (view s) = Ok a → Q a s → wp (rd f) Q s.
Proof. intros H HQ. eapply wp_intro; [unfold rd; by rewrite H|done]. Qed.

(** [map_refresh] rounds up. *)
Lemma map_round n : 0 ≤ n → n ≤ Z.land (n + 2 * SLOP - 1) (Z.lnot (SLOP - 1)).
Proof.
  intros Hn. rewrite <- Z.ldiff_land. change (SLOP - 1) with (Z.ones 13).
  rewrite Z.ldiff_ones_r by lia. rewrite Z.shiftl_mul_pow2, Z.shiftr_div_pow2 by lia.
  unfold SLOP. change (2 ^ 13) with 8192. Z.to_euclidean_division_equations. lia.
Qed.
