(* ===== verification/CyrusDb.v ===== *)
(** * CyrusDb: what a database promises

    [lib/cyrusdb.h]: the return codes, the calls of a backend as the class
    [Backend], and what a client may rely on as the class [BackendOk]: the calls
    of a transaction are operations on a finite map.  Clients are written and
    proved against the classes; the skiplist and the flat backend are instances. *)
From stdpp Require Import gmap sorting.
From S2P Require Import Prelude CMem Prog DbFile.
#[local] Open Scope Z_scope.

Definition CYRUSDB_OK : Z := 0.
Definition CYRUSDB_IOERROR : Z := -1.
Definition CYRUSDB_EXISTS : Z := -3.
Definition CYRUSDB_INTERNAL : Z := -4.
Definition CYRUSDB_NOTFOUND : Z := -5.

(** The [struct txn **tid] a caller passes: NULL, the address of a NULL pointer
    (begin a transaction), or of a transaction to go on with. *)
Inductive tidp (txn : Type) := NoTid | NewTid | OldTid (t : txn).
Arguments NoTid {_}.
Arguments NewTid {_}.
Arguments OldTid {_} _.

(** ** The specification *)

Inductive op :=
  | OFetch (k : bytes)
  | OStore (k d : bytes)
  | OCreate (k d : bytes)
  | ODelete (k : bytes) (force : bool).

Definition answer : Type := Z * option bytes.

(** The answer, and the map afterwards; none when the transaction is over.
    [cyrusdb.h] gives [delete] a [force] that says to ignore that there is no such
    key; it is for a backend to say which deletions it takes ([db_op_ok] below).  The
    skiplist and the flat file take all of them and never look at [force]: a
    key that is not there is deleted with the answer 0 without it, too. *)
Definition spec_call (o : op) (m : gmap bytes bytes) : answer * option (gmap bytes bytes) :=
  match o with
  | OFetch k =>
      (match m !! k with Some d => (0, Some d) | None => (CYRUSDB_NOTFOUND, None) end, Some m)
  | OStore k d => ((0, None), Some (<[k := d]> m))
  | OCreate k d =>
      match m !! k with
      | Some _ => ((CYRUSDB_EXISTS, None), None)
      | None => ((0, None), Some (<[k := d]> m))
      end
  | ODelete k force => ((0, None), Some (delete k m))
  end.

Fixpoint spec_calls (ops : list op) (m : gmap bytes bytes) : list answer * option (gmap bytes bytes) :=
  match ops with
  | [] => ([], Some m)
  | o :: ops' =>
      match spec_call o m with
      | (a, Some m') => let '(rs, r) := spec_calls ops' m' in (a :: rs, r)
      | (a, None) => ([a], None)
      end
  end.

(** What [foreach] does with the records it visits: those that the test lets through
    are given to the callback, one after the other, until it returns something. *)
Fixpoint scan {R} (goodp : R → bytes → bytes → bool) (f : R → bytes → bytes → Z * R) (rock : R) (l : list (bytes * bytes)) : Z * R :=
  match l with
  | [] => (0, rock)
  | x :: l' =>
      if goodp rock x.1 x.2 then
        let '(r, rock) := f rock x.1 x.2 in if negb (r =? 0) then (r, rock) else scan goodp f rock l'
      else scan goodp f rock l'
  end.

(** ** The interface

    The functions of [struct cyrusdb_backend] that act on the open database, with
    keys and data as strings with lengths.  [fetch] also gives the data found; a
    transaction that is over is not given back.  [foreach] is called without a
    transaction; the prefix is memory and a length, [goodp] and [cb] are the caller's,
    with his [rock]; the number bounds the records visited. *)
Class Backend := {
  db_txn : Type;
  db_fetch : bytes → tidp db_txn → M (Z * option bytes * option db_txn);
  db_create : bytes → bytes → tidp db_txn → M (Z * option db_txn);
  db_store : bytes → bytes → tidp db_txn → M (Z * option db_txn);
  db_delete : bytes → tidp db_txn → bool → M (Z * option db_txn);
  db_commit : db_txn → M Z;
  db_abort : db_txn → M Z;
  db_foreach : ∀ {R : Type}, nat → (R → bytes → bytes → result bool) → (R → bytes → bytes → M (Z * R)) →
    bytes → Z → R → M (Z * R);
}.

Section Client.
Context `{B : Backend}.

Definition call (o : op) (tid : tidp db_txn) : M (Z * option bytes * option db_txn) :=
  match o with
  | OFetch k => db_fetch k tid
  | OStore k d => '(r, t) ← db_store k d tid; mret (r, None, t)
  | OCreate k d => '(r, t) ← db_create k d tid; mret (r, None, t)
  | ODelete k force => '(r, t) ← db_delete k tid force; mret (r, None, t)
  end.

(** The transaction is handed on until a call ends it. *)
Fixpoint calls (ops : list op) (t : db_txn) : M (list answer * option db_txn) :=
  match ops with
  | [] => mret ([], Some t)
  | o :: ops' =>
      '(r, d, t') ← call o (OldTid t);
      match t' with
      | Some t' => '(rs, e) ← calls ops' t'; mret ((r, d) :: rs, e)
      | None => mret ([(r, d)], None)
      end
  end.

(** The first call begins it. *)
Definition begin (o : op) (ops : list op) : M (list answer * option db_txn) :=
  '(r, d, t) ← call o NewTid;
  match t with
  | Some t => '(rs, e) ← calls ops t; mret ((r, d) :: rs, e)
  | None => mret ([(r, d)], None)
  end.

(** Begin with the first call, go on, and commit. *)
Definition transact (o : op) (ops : list op) : M (list answer) :=
  '(rs, e) ← begin o ops;
  match e with Some t => _ ← db_commit t; mret rs | None => mret rs end.

(** A history: transactions one after the other, each its first call and the others. *)
Fixpoint history (ts : list (op * list op)) : M (list (list answer)) :=
  match ts with
  | [] => mret []
  | (o, ops) :: ts' => rs ← transact o ops; rss ← history ts'; mret (rs :: rss)
  end.
End Client.

(** Its answers, and the map at its end. *)
Fixpoint spec_history (ts : list (op * list op)) (m : gmap bytes bytes) : list (list answer) * gmap bytes bytes :=
  match ts with
  | [] => ([], m)
  | (o, ops) :: ts' =>
      let '(rs, mo) := spec_calls (o :: ops) m in
      let '(rss, m') := spec_history ts' (default m mo) in (rs :: rss, m')
  end.

(** A file of a backend stays below 2 GB: offsets are [int]s. *)
Definition DB_LIMIT : Z := 2147483648.

(** [db_holds s m n]: the open database of [s] holds [m], in a file of at most
    [n] bytes, and no transaction is going on.  [db_during s m0 m n t]: the
    transaction [t] began on [m0] and has made it [m].  [db_reading s m n t]: it has
    only read; such a one can be aborted.  [db_before] is the order of the keys. *)
Class BackendOk (B : Backend) := {
  db_holds : st → gmap bytes bytes → Z → Prop;
  db_during : st → gmap bytes bytes → gmap bytes bytes → Z → db_txn → Prop;
  db_reading : st → gmap bytes bytes → Z → db_txn → Prop;
  db_op_ok : op → gmap bytes bytes → Prop;
  db_before : bytes → bytes → Prop;
  db_prefix_ok : bytes → Prop;
  db_cost : op → Z;
  db_end_cost : Z;
  db_cost_nonneg o : 0 ≤ db_cost o;
  db_end_cost_nonneg : 0 ≤ db_end_cost;
  db_holds_mono s m n n' : db_holds s m n → n ≤ n' → db_holds s m n';
  db_begin o s m n :
    db_holds s m n → db_op_ok o m → n + db_cost o < DB_LIMIT →
    wp (call o NewTid) (λ r s', match (spec_call o m).2 with
      | Some m' => ∃ t, r = ((spec_call o m).1, Some t) ∧ db_during s' m m' (n + db_cost o) t
      | None => r = ((spec_call o m).1, None) ∧ db_holds s' m n
      end) s;
  db_go_on o s m0 m n t :
    db_during s m0 m n t → db_op_ok o m → n + db_cost o < DB_LIMIT →
    wp (call o (OldTid t)) (λ r s', match (spec_call o m).2 with
      | Some m' => ∃ t', r = ((spec_call o m).1, Some t') ∧ db_during s' m0 m' (n + db_cost o) t'
      | None => r = ((spec_call o m).1, None) ∧ db_holds s' m0 n
      end) s;
  db_alone o s m n :
    db_holds s m n → db_op_ok o m → n + db_cost o + db_end_cost < DB_LIMIT →
    wp (call o NoTid) (λ r s', r = ((spec_call o m).1, None) ∧
      db_holds s' (default m (spec_call o m).2) (n + db_cost o + db_end_cost)) s;
  db_committed s m0 m n t :
    db_during s m0 m n t → n + db_end_cost < DB_LIMIT →
    wp (db_commit t) (λ r s', r = 0 ∧ db_holds s' m (n + db_end_cost)) s;
  db_reading_during s m n t : db_reading s m n t → db_during s m m n t;
  db_read_alone k s m n :
    db_holds s m n → db_op_ok (OFetch k) m → n < DB_LIMIT →
    wp (call (OFetch k) NoTid) (λ r s', r = ((spec_call (OFetch k) m).1, None) ∧ db_holds s' m n) s;
  db_read_begin k s m n :
    db_holds s m n → db_op_ok (OFetch k) m → n < DB_LIMIT →
    wp (call (OFetch k) NewTid) (λ r s', ∃ t, r = ((spec_call (OFetch k) m).1, Some t) ∧ db_reading s' m n t) s;
  db_read_on k s m n t :
    db_reading s m n t → db_op_ok (OFetch k) m → n < DB_LIMIT →
    wp (call (OFetch k) (OldTid t)) (λ r s', ∃ t', r = ((spec_call (OFetch k) m).1, Some t') ∧ db_reading s' m n t') s;
  db_aborted s m n t : db_reading s m n t → wp (db_abort t) (λ r s', r = 0 ∧ db_holds s' m n) s;
  db_foreach_alone {R} fuel (gp : R → bytes → bytes → result bool) (cb : R → bytes → bytes → M (Z * R))
      goodp (f : R → bytes → bytes → Z * R) pre c rest rock s m n :
    db_holds s m n → n < DB_LIMIT → db_prefix_ok pre → (size m < fuel)%nat →
    (∀ rock k d, m !! k = Some d → pre `prefix_of` k → gp rock k d = Ok (goodp rock k d)) →
    (∀ rock k d s, m !! k = Some d → pre `prefix_of` k → cb rock k d s = Ok (f rock k d, s)) →
    wp (db_foreach fuel gp cb (pre ++ c :: rest) (blen pre) rock) (λ a s', ∃ l,
      l ≡ₚ map_to_list m ∧ StronglySorted db_before l.*1 ∧
      a = scan goodp f rock (filter (λ x, pre `prefix_of` x.1) l) ∧ db_holds s' m n) s;
}.

Section Refinement.
Context `{B : Backend} {BO : BackendOk B}.

Fixpoint ops_ok (ops : list op) (m : gmap bytes bytes) : Prop :=
  match ops with
  | [] => True
  | o :: ops' =>
      db_op_ok o m ∧ match (spec_call o m).2 with Some m' => ops_ok ops' m' | None => True end
  end.
Fixpoint ops_cost (ops : list op) : Z :=
  match ops with [] => 0 | o :: ops' => db_cost o + ops_cost ops' end.

Lemma ops_cost_nonneg ops : 0 ≤ ops_cost ops.
Proof using. induction ops as [|o ops IH]; cbn; [lia|]. pose proof (db_cost_nonneg o). lia. Qed.

Lemma calls_refine ops s m0 m n t :
  db_during s m0 m n t → ops_ok ops m → n + ops_cost ops < DB_LIMIT →
  wp (calls ops t) (λ r s', let '(rs, mo) := spec_calls ops m in
    match mo with
    | Some m' => ∃ t', r = (rs, Some t') ∧ db_during s' m0 m' (n + ops_cost ops) t'
    | None => r = (rs, None) ∧ db_holds s' m0 (n + ops_cost ops)
    end) s.
Proof using BO.
  revert s m n t. induction ops as [|o ops IH]; intros s m n t Hd Hok Hn; cbn [calls spec_calls ops_cost] in *.
  { apply wp_ret. exists t. by rewrite Z.add_0_r. }
  destruct Hok as [Hok Hoks]. pose proof (ops_cost_nonneg ops). pose proof (db_cost_nonneg o). apply wp_bind.
  eapply wp_mono; [eapply db_go_on; [done|done|lia]|]. intros r s1 Ha. cbv beta in Ha.
  destruct (spec_call o m) as [a [m1|]]; cbn [fst snd] in *.
  - destruct Ha as (t1 & -> & Hd1). destruct a as [r d].
    apply wp_bind. eapply wp_mono; [eapply IH; [done|done|lia]|]. intros [rs' e'] s2 H'. cbv beta in H'. apply wp_ret.
    rewrite Z.add_assoc. destruct (spec_calls ops m1) as [rs [m2|]].
    + destruct H' as (t2 & [= -> ->] & ?). by exists t2.
    + destruct H' as [[= -> ->] ?]. done.
  - destruct Ha as [-> Hh]. destruct a as [r d]. apply wp_ret. split; [done|]. eapply db_holds_mono; [done|lia].
Qed.

Lemma begin_refine o ops s m n :
  db_holds s m n → ops_ok (o :: ops) m → n + ops_cost (o :: ops) < DB_LIMIT →
  wp (begin o ops) (λ r s', let '(rs, mo) := spec_calls (o :: ops) m in
    match mo with
    | Some m' => ∃ t, r = (rs, Some t) ∧ db_during s' m m' (n + ops_cost (o :: ops)) t
    | None => r = (rs, None) ∧ db_holds s' m (n + ops_cost (o :: ops))
    end) s.
Proof using BO.
  intros Hh [Hok Hoks] Hn. cbn [ops_cost spec_calls] in *. pose proof (ops_cost_nonneg ops).
  pose proof (db_cost_nonneg o). unfold begin. apply wp_bind.
  eapply wp_mono; [eapply db_begin; [done|done|lia]|]. intros r s1 Ha. cbv beta in Ha.
  destruct (spec_call o m) as [a [m1|]]; cbn [fst snd] in *.
  - destruct Ha as (t1 & -> & Hd1). destruct a as [r d].
    apply wp_bind. eapply wp_mono; [eapply calls_refine; [done|done|lia]|]. intros [rs' e'] s2 H'. cbv beta in H'.
    rewrite Z.add_assoc. apply wp_ret. destruct (spec_calls ops m1) as [rs [m2|]].
    + destruct H' as (t2 & [= -> ->] & Hd2). by exists t2.
    + by destruct H' as [[= -> ->] ?].
  - destruct Ha as [-> ?]. destruct a as [r d]. apply wp_ret. split; [done|]. eapply db_holds_mono; [done|lia].
Qed.

(** A transaction run to its end answers and leaves what the specification
    says; if a call ended it, the database is what it was. *)
Lemma transact_refine o ops s m n :
  db_holds s m n → ops_ok (o :: ops) m → n + ops_cost (o :: ops) + db_end_cost < DB_LIMIT →
  wp (transact o ops) (λ r s', let '(rs, mo) := spec_calls (o :: ops) m in
    r = rs ∧ db_holds s' (default m mo) (n + ops_cost (o :: ops) + db_end_cost)) s.
Proof using BO.
  intros Hh Hok Hn. pose proof db_end_cost_nonneg. unfold transact. apply wp_bind.
  eapply wp_mono; [eapply begin_refine; [done|done|lia]|]. intros [rs' e'] s1 Ha. cbv beta in Ha.
  destruct (spec_calls (o :: ops) m) as [rs [m'|]].
  - destruct Ha as (t & [= -> ->] & Hd). apply wp_bind.
    eapply wp_mono; [eapply db_committed; [done|lia]|]. intros rc s2 [-> ?]. by apply wp_ret.
  - destruct Ha as [[= -> ->] ?]. apply wp_ret. split; [done|]. eapply db_holds_mono; [done|lia].
Qed.

(** What may be asked in a history, and the bytes it can add to the file. *)
Fixpoint history_ok (ts : list (op * list op)) (m : gmap bytes bytes) : Prop :=
  match ts with
  | [] => True
  | (o, ops) :: ts' => ops_ok (o :: ops) m ∧ history_ok ts' (default m (spec_calls (o :: ops) m).2)
  end.
Fixpoint history_cost (ts : list (op * list op)) : Z :=
  match ts with [] => 0 | (o, ops) :: ts' => ops_cost (o :: ops) + db_end_cost + history_cost ts' end.

Lemma history_cost_nonneg ts : 0 ≤ history_cost ts.
Proof using.
  pose proof db_end_cost_nonneg. induction ts as [|[o ops] ts IH]; cbn [history_cost]; [lia|].
  pose proof (ops_cost_nonneg (o :: ops)). lia.
Qed.

(** The answers and the contents are the specification's. *)
Lemma history_refine ts s m n :
  db_holds s m n → history_ok ts m → n + history_cost ts < DB_LIMIT →
  wp (history ts) (λ r s', let '(rss, m') := spec_history ts m in r = rss ∧ db_holds s' m' (n + history_cost ts)) s.
Proof using BO.
  revert s m n. induction ts as [|[o ops] ts IH]; intros s m n Hh Hok Hn; cbn [history spec_history history_cost].
  { apply wp_ret. split; [done|]. by rewrite Z.add_0_r. }
  cbn [history_ok history_cost] in *. destruct Hok as [Hok Hoks]. pose proof (history_cost_nonneg ts). apply wp_bind.
  eapply wp_mono; [eapply transact_refine; [done|done|lia]|]. intros rs s1 Ha. cbv beta in Ha.
  destruct (spec_calls (o :: ops) m) as [rs' mo]. cbn [snd] in Hoks. destruct Ha as [-> Hd]. apply wp_bind.
  eapply wp_mono; [eapply IH; [exact Hd|done|lia]|]. intros rss s2 Hr. cbv beta in Hr.
  destruct (spec_history ts (default m mo)) as [rss' m']. destruct Hr as [-> Hr]. apply wp_ret.
  split; [done|]. eapply db_holds_mono; [done|lia].
Qed.
End Refinement.
