(* ===== verification/BSearch.v ===== *)
(** * BSearch: lines and keys in mailbox order

    [lib/bsearch.c]. *)
From S2P Require Import Prelude CMem CString.
#[local] Open Scope Z_scope.

(** ** The comparator

    The loop of [bsearch_ncompare] and of [compare] in the skiplist backend, which
    differ in what they subtract: [None] when [min] characters are equal. *)
Fixpoint cmp_loop (f : Z → Z) (min : nat) (s1 s2 : bytes) : option Z :=
  match min, s1, s2 with
  | S min', c1 :: s1', c2 :: s2' =>
      let cmp := f c1 - f c2 in if cmp =? 0 then cmp_loop f min' s1' s2' else Some cmp
  | _, _, _ => None
  end.
Definition compare_with (f : Z → Z) (s1 s2 : bytes) : Z :=
  let l1 := blen s1 in let l2 := blen s2 in
  match cmp_loop f (Z.to_nat (Z.min l1 l2)) s1 s2 with
  | Some cmp => cmp
  | None => if l2 <? l1 then 1 else if l1 <? l2 then -1 else 0
  end.

(** [convert_to_compare]: tab and newline become 1, the dot 2, and what is below
    them moves up. *)
Definition TOCOMPARE (c : Z) : Z :=
  if (c =? 9) || (c =? 10) then 1
  else if c =? 46 then 2
  else if (0 <? c) && (c <? 9) then c + 2
  else c.
Definition bsearch_ncompare (s1 s2 : bytes) : Z := compare_with TOCOMPARE s1 s2.


(** ** Searching lines

    [memchr(m + i, c, n)]: the offset of the character, [None] for [NULL]. *)
Fixpoint memchr (n : nat) (m : bytes) (i c : Z) : result (option Z) :=
  match n with
  | O => Ok None
  | S n' => b ← rd8 m i; if b =? c then Ok (Some i) else memchr n' m (i + 1) c
  end.

(** The comparison of the word with a line of [n] bytes: the while loop and the
    two [if]s after it, that is, [!*wordp] at a difference and the end of the line
    without one. *)
Fixpoint line_cmp (conv : Z → Z) (n : nat) (word base : bytes) (wordp p : Z) : result Z :=
  match n with
  | O => Ok 1
  | S n' =>
      a ← rd8 word wordp; b ← rd8 base p;
      let cmp := conv a - conv b in
      if cmp =? 0 then line_cmp conv n' word base (wordp + 1) (p + 1)
      else if a =? 0 then Ok (conv 9 - conv b) else Ok cmp
  end.

Section Search.
Context (conv : Z → Z) (word base : bytes) (len hint : Z).

(** Where the loop ends: at the offset and with the length of the line found, or
    with [start]. *)
Fixpoint bsearch_loop (fuel : nat) (firstsearch : bool) (start last : Z) : result (Z * Z + Z) :=
  match fuel with
  | O => Fault OutOfFuel
  | S fuel' =>
      if negb (start <? to_u64 (last + 1)) then Ok (inr start) else
      let mid :=
        if firstsearch then (if (hint <=? start) || (last <? hint) then start else hint)
        else to_u64 (start + last) / 2 in
      off ← (if mid =? 0 then Ok (Some mid)
             else p ← memchr (Z.to_nat (to_u64 (last + 1 - mid))) base mid 10; Ok (option_map Z.succ p));
      match off with
      | None => bsearch_loop fuel' false start (to_u64 (mid - 1))
      | Some offset =>
          p ← memchr (Z.to_nat (to_u64 (len - offset))) base offset 10;
          match p with
          | None => bsearch_loop fuel' false start (to_u64 (mid - 1))
          | Some p =>
              let linelen := p - offset + 1 in
              cmp ← line_cmp conv (Z.to_nat linelen) word base 0 offset;
              if cmp =? 0 then Ok (inl (offset, linelen))
              else if cmp <? 0 then
                if mid =? 0 then Ok (inr start) else bsearch_loop fuel' false start (to_u64 (mid - 1))
              else bsearch_loop fuel' false (offset + 1) last
          end
      end
  end.
End Search.

(** The offset returned, an [int], and [*linelenp].  Past the end of the loop the
    newline that ends the last line below the word is looked for; without one
    the code computes with a null pointer. *)
Definition bsearch_mem (word : bytes) (caseSensitive : bool) (base : bytes) (len hint : Z) : result (Z * Z) :=
  let conv := if caseSensitive then TOCOMPARE else TOLOWER in
  r ← bsearch_loop conv word base len hint (S (S (Z.to_nat len))) true 0 (to_u64 (len - 1));
  match r with
  | inl (offset, linelen) => Ok (to_s32 offset, linelen)
  | inr start =>
      if len <? start then Ok (to_s32 len, 0)
      else if start =? 0 then Ok (0, 0)
      else
        p ← memchr (Z.to_nat (to_u64 (len - start))) base start 10;
        match p with
        | Some p => Ok (to_s32 (p + 1), 0)
        | None => Fault OutOfBounds
        end
  end.

(** [bsearch_compare]: C strings up to a tab or newline of the second. *)
Fixpoint bsearch_compare_loop (fuel : nat) (s1 s2 : bytes) (i : Z) : result Z :=
  match fuel with
  | O => Fault OutOfFuel
  | S fuel' =>
      c2 ← rd8 s2 i; c1 ← rd8 s1 i;
      if c2 =? 0 then Ok c1 else
      let cmp := TOCOMPARE c1 - TOCOMPARE c2 in
      if negb (cmp =? 0) then Ok cmp
      else if TOCOMPARE c2 =? TOCOMPARE 9 then Ok 0
      else bsearch_compare_loop fuel' s1 s2 (i + 1)
  end.
Definition bsearch_compare (s1 s2 : bytes) : result Z := bsearch_compare_loop (S (length s2)) s1 s2 0.
