(* ===== verification/DbOrder.v ===== *)
(** * DbOrder: orders of keys

    The class [KeyOrder] is what the proofs about the backends use of a comparator;
    [bsearch_ncompare], the order of mailbox names, is an instance. *)
From stdpp Require Import gmap.
From S2P Require Import Prelude CMem BSearch.
#[local] Open Scope Z_scope.

(** A total order on the keys that are [keyok], lexicographic in that the keys
    with a given prefix are an interval that starts at the prefix. *)
Class KeyOrder (compar : bytes → bytes → Z) (keyok : bytes → Prop) := {
  ko_eq a b : keyok a → keyok b → compar a b = 0 ↔ a = b;
  ko_sym a b : compar a b < 0 ↔ 0 < compar b a;
  ko_trans a b c : compar a b < 0 → compar b c < 0 → compar a c < 0;
  ko_prefix_le p a : keyok p → keyok a → p `prefix_of` a → 0 ≤ compar a p;
  ko_prefix_conv p a b :
    keyok p → keyok a → keyok b → 0 ≤ compar a p → compar a b < 0 → p `prefix_of` b → p `prefix_of` a;
  ko_take a n : keyok a → keyok (take n a);
}.

(** ** Comparators that go character by character *)

(** The order as a relation: lexicographic on [f]. *)
Fixpoint lex (a b : list Z) : Z :=
  match a, b with
  | [], [] => 0
  | [], _ :: _ => -1
  | _ :: _, [] => 1
  | x :: a', y :: b' => if x - y =? 0 then lex a' b' else x - y
  end.

Lemma compare_with_lex f a b : compare_with f a b = lex (f <$> a) (f <$> b).
Proof.
  unfold compare_with.
  replace (Z.to_nat (Z.min (blen a) (blen b))) with (Nat.min (length a) (length b))
    by (unfold blen; lia).
  revert b. induction a as [|x a IH]; intros [|y b].
  - done.
  - cbn [length Nat.min cmp_loop]. rewrite blen_cons, blen_nil. pose proof (blen_nonneg b).
    destruct (Z.ltb_spec (1 + blen b) 0), (Z.ltb_spec 0 (1 + blen b)); try lia; done.
  - cbn [length Nat.min cmp_loop]. rewrite blen_cons, blen_nil. pose proof (blen_nonneg a).
    destruct (Z.ltb_spec 0 (1 + blen a)); try lia; done.
  - cbn [length Nat.min cmp_loop fmap list_fmap lex]. destruct (f x - f y =? 0); [|done].
    rewrite <- IH, !blen_cons. destruct (cmp_loop _ _ _ _); [done|].
    destruct (Z.ltb_spec (1 + blen b) (1 + blen a)), (Z.ltb_spec (blen b) (blen a)),
      (Z.ltb_spec (1 + blen a) (1 + blen b)), (Z.ltb_spec (blen a) (blen b)); lia.
Qed.

Lemma lex_refl a : lex a a = 0.
Proof. induction a as [|x a IH]; [done|]. cbn. by rewrite Z.sub_diag. Qed.

Lemma lex_eq a b : lex a b = 0 → a = b.
Proof.
  revert b. induction a as [|x a IH]; intros [|y b]; cbn; try done.
  destruct (Z.eqb_spec (x - y) 0); [|done]. intros H%IH. subst. f_equal. lia.
Qed.

Lemma lex_sym a b : lex a b < 0 ↔ 0 < lex b a.
Proof.
  revert b. induction a as [|x a IH]; intros [|y b]; cbn; try lia.
  destruct (Z.eqb_spec (x - y) 0), (Z.eqb_spec (y - x) 0); try lia. apply IH.
Qed.

Lemma lex_trans a b c : lex a b < 0 → lex b c < 0 → lex a c < 0.
Proof.
  revert b c. induction a as [|x a IH]; intros [|y b] [|z c]; cbn; try lia.
  destruct (Z.eqb_spec (x - y) 0), (Z.eqb_spec (y - z) 0), (Z.eqb_spec (x - z) 0); try lia.
  apply IH.
Qed.

Lemma lex_prefix_le p a : p `prefix_of` a → 0 ≤ lex a p.
Proof.
  intros [t ->]. induction p as [|x p IH]; cbn; [destruct t; cbn; lia|]. by rewrite Z.sub_diag.
Qed.

Lemma lex_prefix_conv p a b :
  0 ≤ lex a p → lex a b < 0 → p `prefix_of` b → p `prefix_of` a.
Proof.
  intros Hp Hb [t ->]. revert a Hp Hb. induction p as [|x p IH]; intros [|y a]; cbn; try lia.
  - intros. apply prefix_nil.
  - intros. apply prefix_nil.
  - destruct (Z.eqb_spec (y - x) 0); [|lia]. intros Hp Hb. replace y with x by lia.
    by apply prefix_cons, IH.
Qed.

Section Inj.
(** A character map that is injective on the characters of keys. *)
Context (f : Z → Z) (charok : Z → Prop).
Context (f_inj : ∀ x y, charok x → charok y → f x = f y → x = y).

Lemma fmap_inj_on a b : Forall charok a → Forall charok b → f <$> a = f <$> b → a = b.
Proof using f_inj.
  intros Ha. revert b. induction Ha as [|x a Hx _ IH]; intros b Hb E.
  - by destruct b.
  - destruct Hb as [|y b Hy Hb]; [done|]. injection E as E1 E2. f_equal; auto.
Qed.

Lemma compare_with_order : KeyOrder (compare_with f) (Forall charok).
Proof using f_inj.
  split.
  - intros a b Ha Hb. rewrite compare_with_lex. split.
    + intros H%lex_eq. by apply fmap_inj_on.
    + intros ->. apply lex_refl.
  - intros a b. rewrite !compare_with_lex. apply lex_sym.
  - intros a b c. rewrite !compare_with_lex. apply lex_trans.
  - intros p a _ _ [t ->]. rewrite compare_with_lex. apply lex_prefix_le.
    rewrite fmap_app. by eexists.
  - intros p a b Hp Ha Hb. rewrite !compare_with_lex. intros H1 H2 [t ->].
    destruct (lex_prefix_conv (f <$> p) (f <$> a) (f <$> p ++ t)) as [r Hr]; auto.
    { rewrite fmap_app. by eexists. }
    exists (drop (length p) a). rewrite <- (take_drop (length p) a) at 1. f_equal.
    apply fmap_inj_on; [by apply Forall_take|done|].
    rewrite fmap_take, Hr. rewrite <- (length_fmap f p). apply take_app_length.
  - intros a n. apply Forall_take.
Qed.
End Inj.

(** [bsearch_ncompare] does not tell tabs and newlines apart, which the
    interface of [lib/cyrusdb.h] excludes from keys (with NUL). *)
Definition mbox_char (c : Z) : Prop := is_byte c ∧ c ≠ 0 ∧ c ≠ 9 ∧ c ≠ 10.

Lemma TOCOMPARE_inj x y : mbox_char x → mbox_char y → TOCOMPARE x = TOCOMPARE y → x = y.
Proof.
  unfold mbox_char, is_byte, TOCOMPARE.
  destruct (Z.eqb_spec x 9), (Z.eqb_spec x 10), (Z.eqb_spec x 46), (Z.eqb_spec y 9),
    (Z.eqb_spec y 10), (Z.eqb_spec y 46); cbn [orb]; try lia;
  destruct (Z.ltb_spec 0 x), (Z.ltb_spec x 9), (Z.ltb_spec 0 y), (Z.ltb_spec y 9); cbn [andb]; lia.
Qed.

#[export] Instance bsearch_ncompare_order : KeyOrder bsearch_ncompare (Forall mbox_char) :=
  compare_with_order TOCOMPARE mbox_char TOCOMPARE_inj.
