(* ===== verification/BSearchProof.v ===== *)
(** * BSearchProof: the search finds the line

    A sorted file of lines [key TAB data NEWLINE] as a list of records, and that
    [bsearch_mem] gives, for any word, the line of the record with that key, or
    where one has to be inserted. *)
From S2P Require Import Prelude CMem.
From stdpp Require Import sorting list.
From S2P Require Import CString BSearch DbOrder.
#[local] Open Scope Z_scope.

(** ** Files of lines *)

Abbreviation rec := (bytes * bytes)%type.
Definition line (r : rec) : bytes := r.1 ++ 9 :: r.2 ++ [10].
Definition lines (l : list rec) : bytes := mjoin (line <$> l).

(** Keys and data as [lib/cyrusdb.h] wants them. *)
Definition data_char (c : Z) : Prop := 0 < c < 256 ∧ c ≠ 10.
Definition rec_ok (r : rec) : Prop := Forall mbox_char r.1 ∧ Forall data_char r.2.
Definition key_lt (a b : rec) : Prop := bsearch_ncompare a.1 b.1 < 0.
Definition recs_ok (l : list rec) : Prop := Forall rec_ok l ∧ StronglySorted key_lt l.

Lemma lines_app a b : lines (a ++ b) = lines a ++ lines b.
Proof. unfold lines. by rewrite fmap_app, mjoin_app. Qed.

Lemma lines_cons r l : lines (r :: l) = line r ++ lines l.
Proof. done. Qed.

Lemma blen_line r : blen (line r) = blen r.1 + blen r.2 + 2.
Proof. unfold line. autorewrite with blen. lia. Qed.

Lemma line_at l q :
  0 ≤ q < blen (lines l) →
  ∃ l1 r l2, l = l1 ++ r :: l2 ∧ blen (lines l1) ≤ q < blen (lines l1) + blen (line r).
Proof.
  revert q. induction l as [|r l IH]; intros q Hq; [change (blen (lines [])) with 0 in Hq; lia|].
  rewrite lines_cons, blen_app in Hq. destruct (decide (q < blen (line r))).
  - exists [], r, l. split; [done|].
    change (blen (lines [])) with 0.
    lia.
  - destruct (IH (q - blen (line r))) as (l1 & r' & l2 & -> & H); [lia|].
    exists (r :: l1), r', l2. split; [done|]. rewrite lines_cons, blen_app. lia.
Qed.

(** ** [memchr] *)

Lemma memchr_found n pre s c post :
  Forall (λ x, x ≠ c) s → (length s < n)%nat →
  memchr n (pre ++ s ++ c :: post) (blen pre) c = Ok (Some (blen pre + blen s)).
Proof.
  intros Hs. revert n pre. induction Hs as [|x s Hx _ IH]; intros n pre Hn; (destruct n; [cbn in Hn; lia|]); cbn [memchr app].
  - rewrite rd8_end. cbn [mbind result_bind]. rewrite Z.eqb_refl, blen_nil. do 2 f_equal. lia.
  - rewrite rd8_end. cbn [mbind result_bind]. destruct (Z.eqb_spec x c); [done|].
    specialize (IH n (pre ++ [x]) ltac:(cbn in Hn; lia)). rewrite <- app_assoc, blen_app in IH. cbn [app] in IH.
    change (blen [x]) with 1 in IH. rewrite IH, blen_cons. do 2 f_equal. lia.
Qed.

Lemma memchr_none n pre s c post :
  Forall (λ x, x ≠ c) s → (n ≤ length s)%nat → memchr n (pre ++ s ++ post) (blen pre) c = Ok None.
Proof.
  intros Hs. revert n pre. induction Hs as [|x s Hx _ IH]; intros n pre Hn; (destruct n; [done|]); cbn [memchr app]; [cbn in Hn; lia|].
  rewrite rd8_end. cbn [mbind result_bind]. destruct (Z.eqb_spec x c); [done|].
  specialize (IH n (pre ++ [x]) ltac:(cbn in Hn; lia)). rewrite <- app_assoc, blen_app in IH. exact IH.
Qed.

Lemma line_body r : rec_ok r → ∃ s, line r = s ++ [10] ∧ Forall (λ x, x ≠ 10) s.
Proof.
  intros [Hk Hd]. exists (r.1 ++ 9 :: r.2). split; [unfold line; by rewrite <- app_assoc|].
  apply Forall_app. split; [|constructor; [done|]].
  - eapply Forall_impl; [exact Hk|]. intros x (_ & _ & _ & ?). done.
  - eapply Forall_impl; [exact Hd|]. by intros x [_ ?].
Qed.

(** The end of the line is found from anywhere in it. *)
Lemma memchr_line n l1 r l2 q :
  rec_ok r → blen (lines l1) ≤ q < blen (lines l1) + blen (line r) →
  memchr n (lines (l1 ++ r :: l2)) q 10 =
    Ok (if Z.of_nat n <=? blen (lines l1) + blen (line r) - 1 - q then None
        else Some (blen (lines l1) + blen (line r) - 1)).
Proof.
  intros Hr Hq. destruct (line_body r Hr) as (s & Hs & Hno).
  assert (blen (line r) = blen s + 1) as Hb by (rewrite Hs, blen_app; done). rewrite Hb in *.
  set (j := Z.to_nat (q - blen (lines l1))).
  assert (lines (l1 ++ r :: l2) = (lines l1 ++ take j s) ++ drop j s ++ 10 :: lines l2) as ->.
  { rewrite lines_app, lines_cons, Hs, <- !app_assoc. f_equal. rewrite (app_assoc (take j s)), take_drop. done. }
  assert (q = blen (lines l1 ++ take j s)) as Hq'.
  { rewrite blen_app. unfold blen at 2. rewrite length_take. unfold blen in *. lia. }
  assert (length (drop j s) = Z.to_nat (blen (lines l1) + blen s - q)) as Hdl.
  { rewrite length_drop. unfold blen in *. lia. }
  rewrite Hq' at 1. destruct (Z.leb_spec (Z.of_nat n) (blen (lines l1) + (blen s + 1) - 1 - q)).
  - apply memchr_none; [by apply Forall_drop|lia].
  - rewrite memchr_found; [|by apply Forall_drop|lia]. do 2 f_equal. rewrite <- Hq'. unfold blen at 1. rewrite Hdl.
    unfold blen in *. lia.
Qed.

(** ** Comparing a word with a line *)

Lemma TOCOMPARE_key c : mbox_char c → 1 < TOCOMPARE c.
Proof.
  unfold mbox_char, is_byte, TOCOMPARE.
  destruct (Z.eqb_spec c 9), (Z.eqb_spec c 10), (Z.eqb_spec c 46); cbn [orb]; try lia.
  destruct (Z.ltb_spec 0 c), (Z.ltb_spec c 9); cbn [andb]; lia.
Qed.

Lemma line_cmp_ok n wpre w wpost pre k post :
  Forall mbox_char w → Forall mbox_char k → (length k < n)%nat →
  ∃ c, line_cmp TOCOMPARE n (wpre ++ w ++ 0 :: wpost) (pre ++ k ++ 9 :: post) (blen wpre) (blen pre) = Ok c ∧
    Z.sgn c = Z.sgn (bsearch_ncompare w k).
Proof.
  unfold bsearch_ncompare. rewrite compare_with_lex. intros Hw. revert n wpre pre k.
  induction Hw as [|x w Hx _ IH]; intros n wpre pre k Hk Hn; (destruct n as [|n]; [lia|]);
    destruct Hk as [|y k Hy Hk]; cbn [app line_cmp]; rewrite !rd8_end; cbn [mbind result_bind fmap list_fmap lex].
  - exists 0. done.
  - pose proof (TOCOMPARE_key y Hy). change (TOCOMPARE 0) with 0. change (TOCOMPARE 9) with 1.
    destruct (Z.eqb_spec (0 - TOCOMPARE y) 0); [lia|]. cbn [Z.eqb]. eexists. split; [done|]. lia.
  - pose proof (TOCOMPARE_key x Hx). change (TOCOMPARE 9) with 1.
    destruct (Z.eqb_spec (TOCOMPARE x - 1) 0); [lia|]. destruct (Z.eqb_spec x 0) as [->|]; [by destruct Hx as (_ & ? & _)|].
    eexists. split; [done|]. lia.
  - destruct (Z.eqb_spec (TOCOMPARE x - TOCOMPARE y) 0) as [He|].
    + specialize (IH n (wpre ++ [x]) (pre ++ [y]) k Hk ltac:(cbn in Hn; lia)).
      rewrite <- !app_assoc, !blen_app in IH. exact IH.
    + destruct (Z.eqb_spec x 0) as [->|]; [by destruct Hx as (_ & ? & _)|]. by eexists.
Qed.

Lemma line_cmp_line w wpost l1 r l2 :
  Forall mbox_char w → rec_ok r →
  ∃ c, line_cmp TOCOMPARE (Z.to_nat (blen (line r))) (w ++ 0 :: wpost) (lines (l1 ++ r :: l2)) 0 (blen (lines l1)) = Ok c ∧
    Z.sgn c = Z.sgn (bsearch_ncompare w r.1).
Proof.
  intros Hw [Hk _].
  destruct (line_cmp_ok (Z.to_nat (blen (line r))) [] w wpost (lines l1) r.1 (r.2 ++ [10] ++ lines l2)) as (c & Hc & Hs); [done|done| |].
  { rewrite blen_line. unfold blen. lia. }
  exists c. split; [|done]. rewrite <- Hc. cbn [app]. f_equal.
  rewrite lines_app, lines_cons. unfold line. by rewrite <- !app_assoc, <- app_comm_cons, <- app_assoc.
Qed.

(** ** The loop *)

Lemma split_after (l1 l2 a b : list rec) (r x : rec) :
  l1 ++ r :: l2 = a ++ x :: b → blen (lines l1) < blen (lines a) → ∃ c, a = l1 ++ r :: c ∧ l2 = c ++ x :: b.
Proof.
  intros H Hlt. apply app_eq_inv in H as [(k & -> & Hk)|(k & -> & Hk)].
  - rewrite lines_app, blen_app in Hlt. pose proof (blen_nonneg (lines k)). lia.
  - destruct k as [|y k]; [rewrite app_nil_r in Hlt; lia|]. cbn in Hk. injection Hk as <- ->. by exists k.
Qed.

Section Search.
Context (l : list rec) (w wpost : bytes).
Context (Hok : recs_ok l) (Hw : Forall mbox_char w) (Hlen : blen (lines l) < 2147483648).

Abbreviation below x := (bsearch_ncompare x.1 w < 0) (only parsing).
Abbreviation above x := (bsearch_ncompare w x.1 < 0) (only parsing).

(** Where the word is, or belongs. *)
Definition placed (r : Z * Z) : Prop :=
  (∃ l1 d l2, l = l1 ++ (w, d) :: l2 ∧ r = (blen (lines l1), blen (line (w, d)))) ∨
  (∃ l1 l2, l = l1 ++ l2 ∧ r = (blen (lines l1), 0) ∧
     Forall (λ x, below x) l1 ∧ Forall (λ x, above x) l2).

(** [start] is inside a line below the word; the lines that begin past [last] are
    above it. *)
Definition low (start : Z) : Prop := ∃ l1 r l2, l = l1 ++ r :: l2 ∧ start = blen (lines l1) + 1 ∧ below r.
Definition high (last : Z) : Prop := ∀ l1 r l2, l = l1 ++ r :: l2 → last < blen (lines l1) - 1 → above r.

Definition loop_result (r : Z * Z + Z) : Prop :=
  match r with
  | inl (o, n) => ∃ l1 d l2, l = l1 ++ (w, d) :: l2 ∧ (o, n) = (blen (lines l1), blen (line (w, d)))
  | inr start => ∃ l1 r l2, l = l1 ++ r :: l2 ∧ start = blen (lines l1) + 1 ∧ below r ∧ Forall (λ x, above x) l2
  end.

Lemma rec_in l1 r l2 : l = l1 ++ r :: l2 → rec_ok r ∧ Forall (key_lt r) l2 ∧ Forall (λ x, key_lt x r) l1.
Proof using Hok.
  intros Hl. assert (recs_ok (l1 ++ r :: l2)) as [Hr Hs] by by rewrite <- Hl. clear Hl. apply Forall_app in Hr as [_ Hr]. inversion_clear Hr. split; [done|].
  clear -Hs. induction l1 as [|y l1 IH]; cbn in Hs; inversion_clear Hs as [|?? H1 H2]; [by split|].
  destruct (IH H1) as [? ?]. split; [done|]. constructor; [|done].
  by apply Forall_app in H2 as [_ [??]%Forall_cons].
Qed.

Lemma above_rest l1 r l2 : l = l1 ++ r :: l2 → above r → Forall (λ x, above x) l2.
Proof using Hok.
  intros Hl Hr. destruct (rec_in _ _ _ Hl) as (_ & H & _). eapply Forall_impl; [exact H|].
  intros x Hx. cbn. by eapply (ko_trans w r.1 x.1).
Qed.

Lemma below_rest l1 r l2 : l = l1 ++ r :: l2 → below r → Forall (λ x, below x) l1.
Proof using Hok.
  intros Hl Hr. destruct (rec_in _ _ _ Hl) as (_ & _ & H). eapply Forall_impl; [exact H|].
  intros x Hx. cbn. by eapply (ko_trans x.1 r.1 w).
Qed.

(** Nothing is left between [start] and [last]. *)
Lemma loop_end start last : low start → high last → last < start → loop_result (inr start).
Proof using Hok.
  intros (l1 & r & l2 & Hl & -> & Hb) Hh Hlt. exists l1, r, l2. split_and!; [done|done|done|].
  destruct l2 as [|x l2]; [done|].
  assert (l = (l1 ++ [r]) ++ x :: l2) as Hx by by rewrite Hl, <- app_assoc.
  assert (above x) as Ha.
  { apply (Hh (l1 ++ [r]) x l2 Hx). rewrite lines_app, blen_app, lines_cons, blen_app, blen_line.
    pose proof (blen_nonneg r.1). pose proof (blen_nonneg r.2). pose proof (blen_nonneg (lines [])). lia. }
  constructor; [done|]. by eapply above_rest.
Qed.

(** The lines that begin past [mid], which is in the line [r], are those of [l2]. *)
Lemma high_mid l1 r l2 mid :
  l = l1 ++ r :: l2 → blen (lines l1) ≤ mid → (∀ c x b, l2 = c ++ x :: b → above x) → high (mid - 1).
Proof using.
  intros Hl Hm H a x b Ha Hlt. rewrite Hl in Ha.
  destruct (split_after _ _ _ _ _ _ Ha) as (c & _ & ->); [lia|]. by eapply H.
Qed.

Lemma to_u64_in x : 0 ≤ x < 2147483648 → to_u64 x = x.
Proof using. intros. apply to_u64_small. lia. Qed.

Lemma memchr_at n l1 r l2 q :
  l = l1 ++ r :: l2 → blen (lines l1) ≤ q < blen (lines l1) + blen (line r) →
  memchr n (lines l) q 10 =
    Ok (if Z.of_nat n <=? blen (lines l1) + blen (line r) - 1 - q then None
        else Some (blen (lines l1) + blen (line r) - 1)).
Proof using Hok. intros Hl. destruct (rec_in _ _ _ Hl) as [Hr _]. rewrite Hl. by apply memchr_line. Qed.

Lemma line_cmp_at l1 r l2 :
  l = l1 ++ r :: l2 →
  ∃ c, line_cmp TOCOMPARE (Z.to_nat (blen (line r))) (w ++ 0 :: wpost) (lines l) 0 (blen (lines l1)) = Ok c ∧
    Z.sgn c = Z.sgn (bsearch_ncompare w r.1).
Proof using Hok Hw. intros Hl. destruct (rec_in _ _ _ Hl) as [Hr _]. rewrite Hl. by apply line_cmp_line. Qed.

Lemma lines_split_len l1 r l2 : l = l1 ++ r :: l2 → blen (lines l) = blen (lines l1) + blen (line r) + blen (lines l2).
Proof using. intros Hl. rewrite Hl, lines_app, lines_cons, !blen_app. lia. Qed.

Lemma lines_snoc_len l1 r : blen (lines (l1 ++ [r])) = blen (lines l1) + blen (line r).
Proof using. rewrite lines_app, lines_cons, !blen_app. change (blen (lines [])) with 0. lia. Qed.

(** The second half of the loop's body, on the line that begins at the end of [l1]. *)
Lemma probe l1 r l2 :
  l = l1 ++ r :: l2 →
  memchr (Z.to_nat (to_u64 (blen (lines l) - blen (lines l1)))) (lines l) (blen (lines l1)) 10 =
    Ok (Some (blen (lines l1) + blen (line r) - 1)) ∧
  ∃ c, line_cmp TOCOMPARE (Z.to_nat (blen (lines l1) + blen (line r) - 1 - blen (lines l1) + 1)) (w ++ 0 :: wpost)
         (lines l) 0 (blen (lines l1)) = Ok c ∧
    (c = 0 → w = r.1) ∧ (c < 0 → above r) ∧ (0 < c → below r).
Proof using Hok Hw Hlen.
  intros Hl. pose proof (lines_split_len _ _ _ Hl) as Hb. pose proof (blen_nonneg (lines l1)).
  pose proof (blen_nonneg (lines l2)). pose proof (blen_line r). pose proof (blen_nonneg r.1). pose proof (blen_nonneg r.2).
  split.
  - rewrite (memchr_at _ l1 r l2) by (done || lia). rewrite to_u64_in, Z2Nat.id by lia.
    destruct (Z.leb_spec (blen (lines l) - blen (lines l1)) (blen (lines l1) + blen (line r) - 1 - blen (lines l1))); [lia|done].
  - replace (blen (lines l1) + blen (line r) - 1 - blen (lines l1) + 1) with (blen (line r)) by lia.
    destruct (line_cmp_at _ _ _ Hl) as (c & -> & Hs). exists c. split; [done|].
    destruct (rec_in _ _ _ Hl) as [[Hk _] _].
    split_and!; intros Hc; [apply (ko_eq w r.1 Hw Hk)|cbn|apply (ko_sym r.1 w)]; lia.
Qed.

Lemma bsearch_loop_ok fuel start last :
  low start → high last → 0 ≤ last < blen (lines l) → Z.max 0 (last + 1 - start) < Z.of_nat fuel →
  ∃ r, bsearch_loop TOCOMPARE (w ++ 0 :: wpost) (lines l) (blen (lines l)) 0 fuel false start last = Ok r ∧
    loop_result r.
Proof using Hok Hw Hlen.
  revert start last. induction fuel as [|fuel IH]; intros start last Hlow Hhigh Hlast Hf; [lia|]. cbn [bsearch_loop].
  rewrite to_u64_in by lia. destruct (Z.ltb_spec start (last + 1)); cbn [negb].
  2: { exists (inr start). split; [done|]. eapply loop_end; [done|done|lia]. }
  assert (1 ≤ start) as Hst by (destruct Hlow as (l1 & ? & ? & _ & -> & _); pose proof (blen_nonneg (lines l1)); lia).
  rewrite (to_u64_small (start + last)) by lia. set (mid := (start + last) / 2).
  assert (start ≤ mid ≤ last) as Hmid by (subst mid; Z.to_euclidean_division_equations; lia). clearbody mid.
  cbv zeta. destruct (Z.eqb_spec mid 0); [lia|]. rewrite !to_u64_in by lia.
  destruct (line_at l mid ltac:(lia)) as (l1 & r & l2 & Hl & Hq). pose proof (lines_split_len _ _ _ Hl) as Hb.
  rewrite (memchr_at _ l1 r l2) by done. rewrite Z2Nat.id by lia. cbn [mbind result_bind].
  assert ((∀ c x b, l2 = c ++ x :: b → above x) →
    ∃ r, bsearch_loop TOCOMPARE (w ++ 0 :: wpost) (lines l) (blen (lines l)) 0 fuel false start (mid - 1) = Ok r ∧
      loop_result r) as Hdown.
  { intros Hab. apply IH; [done|by eapply high_mid; [exact Hl|lia|]|lia|lia]. }
  destruct (Z.leb_spec (last + 1 - mid) (blen (lines l1) + blen (line r) - 1 - mid)); cbn [option_map mbind result_bind].
  { apply Hdown. intros c x b ->. apply (Hhigh (l1 ++ r :: c) x b); [by rewrite Hl, <- app_assoc|].
    rewrite lines_app, lines_cons, !blen_app. pose proof (blen_nonneg (lines c)). lia. }
  replace (Z.succ (blen (lines l1) + blen (line r) - 1)) with (blen (lines (l1 ++ [r]))) by (rewrite lines_snoc_len; lia).
  destruct l2 as [|r' l2].
  { replace (blen (lines l) - blen (lines (l1 ++ [r]))) with 0 by (rewrite lines_snoc_len, Hb; change (blen (lines [])) with 0; lia).
    cbn [to_u64 Z.to_nat memchr mbind result_bind]. apply Hdown. intros [|? ?] ? ? ?; done. }
  assert (l = (l1 ++ [r]) ++ r' :: l2) as Hl' by by rewrite Hl, <- app_assoc.
  destruct (probe _ _ _ Hl') as (-> & c & Hc & Heq & Hlt & Hgt). cbn [mbind result_bind].
  rewrite Hc. cbn [mbind result_bind]. destruct (Z.eqb_spec c 0) as [->|].
  { eexists. split; [done|]. exists (l1 ++ [r]), r'.2, l2. rewrite (Heq eq_refl). split; [by destruct r'|].
    f_equal. destruct r'; cbn [fst snd]. lia. }
  destruct (Z.ltb_spec c 0).
  - destruct (Z.eqb_spec mid 0); [lia|]. apply Hdown. intros [|y cs] x b; cbn; intros [= -> Hx]; [by apply Hlt|].
    pose proof (above_rest _ _ _ Hl' (Hlt ltac:(lia))) as Ha. rewrite Hx in Ha.
    apply Forall_app in Ha as [_ Ha]. by inversion_clear Ha.
  - apply IH; [|done|done|rewrite lines_snoc_len; lia].
    exists (l1 ++ [r]), r', l2. split_and!; [done|done|]. apply Hgt. lia.
Qed.
(** Past the loop: the end of the last line below the word. *)
Lemma finish_ok r :
  loop_result r →
  ∃ p, (match r with
    | inl (offset, linelen) => Ok (to_s32 offset, linelen)
    | inr start =>
        if blen (lines l) <? start then Ok (to_s32 (blen (lines l)), 0)
        else if start =? 0 then Ok (0, 0)
        else
          p ← memchr (Z.to_nat (to_u64 (blen (lines l) - start))) (lines l) start 10;
          match p with
          | Some p => Ok (to_s32 (p + 1), 0)
          | None => Fault OutOfBounds
          end
    end) = Ok p ∧ placed p.
Proof using Hok Hlen.
  destruct r as [[o n]|start]; cbn [loop_result].
  - intros (l1 & d & l2 & Hl & [= -> ->]). pose proof (lines_split_len _ _ _ Hl). pose proof (blen_nonneg (lines l1)).
    pose proof (blen_nonneg (line (w, d))). pose proof (blen_nonneg (lines l2)).
    rewrite to_s32_small by (unfold is_s32; lia). eexists. split; [done|]. left. by exists l1, d, l2.
  - intros (l1 & r & l2 & Hl & -> & Hb & Ha). pose proof (lines_split_len _ _ _ Hl). pose proof (blen_nonneg (lines l1)).
    pose proof (blen_line r). pose proof (blen_nonneg r.1). pose proof (blen_nonneg r.2). pose proof (blen_nonneg (lines l2)).
    destruct (Z.ltb_spec (blen (lines l)) (blen (lines l1) + 1)); [lia|].
    destruct (Z.eqb_spec (blen (lines l1) + 1) 0); [lia|].
    rewrite (memchr_at _ l1 r l2) by (done || lia). rewrite to_u64_in, Z2Nat.id by lia.
    destruct (Z.leb_spec (blen (lines l) - (blen (lines l1) + 1)) (blen (lines l1) + blen (line r) - 1 - (blen (lines l1) + 1))); [lia|].
    cbn [mbind result_bind]. replace (blen (lines l1) + blen (line r) - 1 + 1) with (blen (lines (l1 ++ [r]))) by (rewrite lines_snoc_len; lia).
    rewrite to_s32_small by (unfold is_s32; rewrite lines_snoc_len; lia).
    eexists. split; [done|]. right. exists (l1 ++ [r]), l2. split_and!; [by rewrite Hl, <- app_assoc|done| |done].
    apply Forall_app. split; [by eapply below_rest|by constructor].
Qed.

(** Without a hint, as all callers have it. *)
Lemma bsearch_mem_ok :
  ∃ p, bsearch_mem (w ++ 0 :: wpost) true (lines l) (blen (lines l)) 0 = Ok p ∧ placed p.
Proof using Hok Hw Hlen.
  unfold bsearch_mem. assert (l = [] ∨ ∃ r l', l = [] ++ r :: l') as [Hl|(r & l' & Hl)].
  { destruct l as [|r l']; [by left|right; by exists r, l']. }
  { exists (0, 0). split; [by rewrite Hl|]. right. by exists [], []. }
  pose proof (lines_split_len _ _ _ Hl) as Hb.
  pose proof (blen_line r). pose proof (blen_nonneg r.1). pose proof (blen_nonneg r.2). pose proof (blen_nonneg (lines l')).
  change (blen (lines [])) with 0 in *. rewrite (to_u64_in (blen (lines l) - 1)) by lia.
  set (fuel := S (Z.to_nat (blen (lines l)))). assert (blen (lines l) < Z.of_nat fuel) as Hf by (subst fuel; lia). clearbody fuel.
  assert (∃ x, bsearch_loop TOCOMPARE (w ++ 0 :: wpost) (lines l) (blen (lines l)) 0 (S fuel) true 0 (blen (lines l) - 1) = Ok x ∧
    (loop_result x ∨ x = inr 0 ∧ Forall (λ x, above x) l)) as (x & -> & Hx).
  - cbn [bsearch_loop]. rewrite to_u64_in by lia. destruct (Z.ltb_spec 0 (blen (lines l) - 1 + 1)); [|lia].
    cbn [negb Z.leb Z.compare orb Z.eqb mbind result_bind]. destruct (probe _ _ _ Hl) as (Hm & c & Hc & Heq & Hlt & Hgt).
    change (blen (lines [])) with 0 in *. rewrite Hm. cbn [mbind result_bind]. rewrite Hc. cbn [mbind result_bind].
    destruct (Z.eqb_spec c 0) as [->|].
    { eexists. split; [done|]. left. exists [], r.2, l'. rewrite (Heq eq_refl). split; [by destruct r|].
      change (blen (lines [])) with 0. f_equal. destruct r; cbn [fst snd]. lia. }
    destruct (Z.ltb_spec c 0).
    + eexists. split; [done|]. right. split; [done|]. rewrite Hl. constructor; [by apply Hlt|]. by eapply above_rest, Hlt.
    + destruct (bsearch_loop_ok fuel (0 + 1) (blen (lines l) - 1)) as (x & -> & Hx); [| |lia|lia|exists x; split; [done|by left]].
      * exists [], r, l'. split_and!; [done|done|]. apply Hgt. lia.
      * intros a y b Ha Hlt'. pose proof (lines_split_len _ _ _ Ha). pose proof (blen_line y).
        pose proof (blen_nonneg y.1). pose proof (blen_nonneg y.2). pose proof (blen_nonneg (lines b)). lia.
  - cbn [mbind result_bind]. destruct Hx as [Hx|[-> Ha]]; [by apply finish_ok|].
    destruct (Z.ltb_spec (blen (lines l)) 0); [lia|]. eexists. split; [done|]. right. exists [], l. by split_and!.
Qed.
End Search.
