(* ===== verification/Skiplist.v ===== *)
(** * Skiplist: the skiplist database backend

    [lib/cyrusdb_skiplist.c] over the file system of [DbFile].  A [char *] into
    the mapped file is its offset from [map_base]; the macros and the read-only
    functions are functions of the mapped bytes, the others programs [M].
    [be_paranoid] and [use_osync] are the constants 0 they are in the source:
    the branches under them are not written, and the descriptor of a
    transaction is the database's ([syncfd] says whether it has been set).  An
    [int *updateoffsets] is the list of its elements; an access outside
    [maxlevel] elements is a fault. *)
From stdpp Require Import gmap.
From S2P Require Import Prelude CMem Prog DbFile CyrusDb BSearch.
#[local] Open Scope Z_scope.

Definition INORDER : Z := 1.
Definition ADD : Z := 2.
Definition DELETE : Z := 4.
Definition COMMIT : Z := 255.
Definition DUMMY : Z := 257.

Definition SKIPLIST_VERSION : Z := 1.
Definition SKIPLIST_VERSION_MINOR : Z := 2.
Definition SKIPLIST_MAXLEVEL : Z := 20.
Definition SKIPLIST_MINREWRITE : Z := 16834.

(** ["\241\002\213\015skiplist file\0\0\0"] *)
Definition HEADER_MAGIC : bytes :=
  [161; 2; 139; 13; 115; 107; 105; 112; 108; 105; 115; 116; 32; 102; 105; 108; 101; 0; 0; 0].
Definition OFFSET_VERSION : Z := 20.
Definition OFFSET_VERSION_MINOR : Z := 24.
Definition OFFSET_MAXLEVEL : Z := 28.
Definition OFFSET_CURLEVEL : Z := 32.
Definition OFFSET_LISTSIZE : Z := 36.
Definition OFFSET_LOGSTART : Z := 40.
Definition OFFSET_LASTRECOVERY : Z := 44.
Definition HEADER_SIZE : Z := 48.
Definition DUMMY_OFFSET : Z := HEADER_SIZE.
Definition DUMMY_SIZE (maxlevel : Z) : Z := 4 * (3 + maxlevel + 1).

(** [(bit32)-1] *)
Definition MINUS1 : Z := 4294967295.

Record txn := Txn { syncfd : bool; t_logstart : Z; t_logend : Z }.

(** ** Records *)

Definition TYPE (m : bytes) (ptr : Z) : result Z := rd32 m ptr.
Definition KEYLEN (m : bytes) (ptr : Z) : result Z := rd32 m (ptr + 4).
Definition KEY (ptr : Z) : Z := ptr + 8.
Definition DATALEN (m : bytes) (ptr : Z) : result Z :=
  kl ← KEYLEN m ptr; rd32 m (ptr + 8 + ROUNDUP kl).
Definition DATA (m : bytes) (ptr : Z) : result Z :=
  kl ← KEYLEN m ptr; Ok (ptr + 8 + ROUNDUP kl + 4).
Definition FIRSTPTR (m : bytes) (ptr : Z) : result Z :=
  kl ← KEYLEN m ptr; dl ← DATALEN m ptr; Ok (ptr + 8 + ROUNDUP kl + 4 + ROUNDUP dl).
Definition PTR (m : bytes) (ptr x : Z) : result Z := p ← FIRSTPTR m ptr; Ok (p + 4 * x).
Definition FORWARD (m : bytes) (ptr x : Z) : result Z := p ← PTR m ptr x; rd32 m p.

(** The key and the data of a record, for the comparator and the caller. *)
Definition rec_key (m : bytes) (ptr : Z) : result bytes :=
  kl ← KEYLEN m ptr; slice m (KEY ptr) kl.
Definition rec_data (m : bytes) (ptr : Z) : result bytes :=
  dl ← DATALEN m ptr; p ← DATA m ptr; slice m p dl.

(** [while ( *p != (bit32)-1) p++;] *)
Fixpoint level_loop (fuel : nat) (m : bytes) (p n : Z) : result Z :=
  match fuel with
  | O => Fault OutOfFuel
  | S fuel' => v ← rd32 m p; if v =? MINUS1 then Ok n else level_loop fuel' m (p + 4) (n + 1)
  end.
Definition LEVEL (m : bytes) (ptr : Z) : result Z :=
  ty ← TYPE m ptr;
  _ ← c_assert ((ty =? DUMMY) || (ty =? INORDER) || (ty =? ADD));
  p ← FIRSTPTR m ptr;
  level_loop (S (length m)) m p 0.

Definition RECSIZE (m : bytes) (ptr : Z) : result Z :=
  ty ← TYPE m ptr;
  if (ty =? DUMMY) || (ty =? INORDER) || (ty =? ADD) then
    kl ← KEYLEN m ptr; dl ← DATALEN m ptr; lvl ← LEVEL m ptr;
    Ok (to_s32 (4 + 4 + ROUNDUP kl + 4 + ROUNDUP dl + 4 * lvl + 4))
  else if ty =? DELETE then Ok 8
  else if ty =? COMMIT then Ok 4
  else Ok 0.

Definition PADDING (m : bytes) (ptr : Z) : result Z :=
  n ← RECSIZE m ptr; rd32 m (ptr + n - 4).

(** Is it unsafe to append? *)
Definition SAFE_TO_APPEND (m : bytes) (map_size logstart : Z) : result bool :=
  if negb (map_size mod 4 =? 0) then Ok true
  else if map_size =? logstart then v ← rd32 m (map_size - 4); Ok (negb (v =? MINUS1))
  else
    v8 ← rd32 m (map_size - 8);
    if v8 =? MINUS1 then Ok false
    else v4 ← rd32 m (map_size - 4); Ok (negb (v4 =? COMMIT)).

(** Elements of an [updateoffsets]. *)
Definition uget (u : list Z) (i : Z) : result Z :=
  if i <? 0 then Fault OutOfBounds
  else match u !! Z.to_nat i with Some v => Ok v | None => Fault OutOfBounds end.
Definition uset (u : list Z) (i v : Z) : result (list Z) :=
  if (0 <=? i) && (i <? Z.of_nat (length u)) then Ok (<[Z.to_nat i := v]> u)
  else Fault OutOfBounds.

(** ** The comparator for databases not in mailbox order *)
Definition compare (s1 s2 : bytes) : Z := compare_with schar s1 s2.

Section Backend.
Context `{E : Env}.
(** [db->compar] *)
Context (compar : bytes → bytes → Z).

(** ** Header *)

Definition header_bytes (h : header) : bytes :=
  HEADER_MAGIC ++ be32 (version h) ++ be32 (version_minor h) ++ be32 (maxlevel h)
    ++ be32 (curlevel h) ++ be32 (listsize h) ++ be32 (logstart h) ++ be32 (last_recovery h).

(** What is read before the first error stays in [db]. *)
Definition read_header : M Z :=
  ml ← get (λ s, map_len (mp s));
  m_assert (negb (ml =? 0));;
  magic ← rd (λ m, slice m 0 20);
  if negb (bool_decide (magic = HEADER_MAGIC)) then mret CYRUSDB_IOERROR else
  ver ← rd (λ m, rd32 m OFFSET_VERSION);
  minor ← rd (λ m, rd32 m OFFSET_VERSION_MINOR);
  modify_hdr (λ h, Hdr (to_s32 ver) (to_s32 minor) (maxlevel h) (curlevel h) (listsize h)
                     (logstart h) (last_recovery h));;
  if negb (to_s32 ver =? SKIPLIST_VERSION) then mret CYRUSDB_IOERROR else
  maxl ← rd (λ m, rd32 m OFFSET_MAXLEVEL);
  modify_hdr (λ h, Hdr (version h) (version_minor h) (to_s32 maxl) (curlevel h) (listsize h)
                     (logstart h) (last_recovery h));;
  if SKIPLIST_MAXLEVEL <? to_s32 maxl then mret CYRUSDB_IOERROR else
  curl ← rd (λ m, rd32 m OFFSET_CURLEVEL);
  modify_hdr (set_curlevel (to_s32 curl));;
  if to_s32 maxl <? to_s32 curl then mret CYRUSDB_IOERROR else
  lsz ← rd (λ m, rd32 m OFFSET_LISTSIZE);
  lst ← rd (λ m, rd32 m OFFSET_LOGSTART);
  rec ← rd (λ m, rd32 m OFFSET_LASTRECOVERY);
  modify_hdr (λ h, Hdr (version h) (version_minor h) (maxlevel h) (curlevel h) (to_s32 lsz)
                     (to_s32 lst) rec);;
  bad ← rd (λ m, (* verify dummy node *)
    ty ← TYPE m DUMMY_OFFSET;
    if negb (ty =? DUMMY) then Ok true else
    kl ← KEYLEN m DUMMY_OFFSET;
    if negb (kl =? 0) then Ok true else
    dl ← DATALEN m DUMMY_OFFSET;
    if negb (dl =? 0) then Ok true else
    lvl ← LEVEL m DUMMY_OFFSET; Ok (negb (lvl =? to_s32 maxl)));
  mret (if (bad : bool) then CYRUSDB_IOERROR else 0).

Definition write_header : M Z :=
  h ← get hdr;
  _ ← c_lseek_set 0;
  n ← retry_write (header_bytes h);
  mret (if negb (n =? HEADER_SIZE) then CYRUSDB_IOERROR else 0).

(** ** Locks and transactions *)

Definition newtxn : M txn := n ← get (λ s, map_size (mp s)); mret (Txn false n n).
Definition getsyncfd (t : txn) : txn := Txn true (t_logstart t) (t_logend t).
Definition add_logend (t : txn) (n : Z) : txn := Txn (syncfd t) (t_logstart t) (t_logend t + n).

Definition set_msize (n : Z) : M unit := modify (λ s, set_mp (set_map_size n (mp s)) s).

(** make sure our mmap() is big enough *)
Definition update_lock (t : txn) : M unit :=
  map_refresh (Some (t_logend t));; set_msize (t_logend t).

(** What [write_lock] and [read_lock] do with the locked file. *)
Definition refresh_locked (ino : Z) : M unit :=
  m ← get mp;
  (if negb (map_ino m =? ino) then map_free else mret tt);;
  size ← get (λ s, blen (file_of s ino));
  modify (λ s, set_mp (Map (map_of (mp s)) (map_len (mp s)) size ino) s);;
  map_refresh (Some size);;
  h ← get hdr;
  if curlevel h =? 0 then mret tt
  else curl ← rd (λ m, rd32 m OFFSET_CURLEVEL); modify_hdr (set_curlevel (to_s32 curl)).

Definition write_lock (altname : option bytes) : M Z :=
  name ← get fname;
  r ← lock_reopen (default name altname);
  match r with None => mret CYRUSDB_IOERROR | Some ino => refresh_locked ino;; mret 0 end.

Definition read_lock : M Z :=
  name ← get fname;
  r ← lock_reopen_shared name;
  match r with None => mret CYRUSDB_IOERROR | Some ino => refresh_locked ino;; mret 0 end.

Definition unlock : M Z :=
  r ← lock_unlock; mret (if r <? 0 then CYRUSDB_IOERROR else 0).

(** ** [find_node]

    The while loop at level [i], and the loop over the levels below [n]. *)
Fixpoint find_forward (fuel : nat) (m key : bytes) (ptr i : Z) : result Z :=
  match fuel with
  | O => Fault OutOfFuel
  | S fuel' =>
      off ← FORWARD m ptr i;
      let offset := to_s32 off in
      if offset =? 0 then Ok ptr else
      k ← rec_key m offset;
      if compar k key <? 0 then find_forward fuel' m key offset i else Ok ptr
  end.

Fixpoint find_levels (n : nat) (m key : bytes) (ptr : Z) (u : list Z) : result (Z * list Z) :=
  match n with
  | O => Ok (ptr, u)
  | S n' =>
      ptr ← find_forward (length m) m key ptr (Z.of_nat n');
      u ← uset u (Z.of_nat n') ptr;
      find_levels n' m key ptr u
  end.

(** The node (0, that is [map_base], for none), and [updateoffsets]. *)
Definition find_node (m : bytes) (h : header) (key : bytes) : result (Z * list Z) :=
  '(ptr, u) ← find_levels (Z.to_nat (curlevel h)) m key DUMMY_OFFSET
                (replicate (Z.to_nat (maxlevel h)) DUMMY_OFFSET);
  p ← FORWARD m ptr 0; Ok (p, u).

Definition m_find_node (key : bytes) : M (Z * list Z) :=
  h ← get hdr; rd (λ m, find_node m h key).

(** [lseek(db->fd, off, SEEK_SET); retry_write(db->fd, v, 4);] *)
Definition write_word (off v : Z) : M Z := _ ← c_lseek_set off; retry_write (be32 v).

(** [FORWARD(db->map_base + p, i) = v], through the descriptor. *)
Definition write_forward (p i v : Z) : M unit :=
  off ← rd (λ m, PTR m p i); _ ← write_word off v; mret tt.

(** The loop that takes a node out: while [FORWARD(update[i], i)] is [offset],
    it becomes [FORWARD(offset, i)]. *)
Fixpoint unlink_loop (n : nat) (i : Z) (u : list Z) (offset : Z) : M unit :=
  match n with
  | O => mret tt
  | S n' =>
      p ← liftr (uget u i);
      f ← rd (λ m, FORWARD m p i);
      if negb (f =? offset) then mret tt else
      v ← rd (λ m, FORWARD m offset i);
      write_forward p i v;;
      unlink_loop n' (i + 1) u offset
  end.

(** [FORWARD(update[i], i) = offset] for [n] levels from [i]. *)
Fixpoint link_loop (n : nat) (i : Z) (u : list Z) (offset : Z) : M unit :=
  match n with
  | O => mret tt
  | S n' =>
      p ← liftr (uget u i); write_forward p i offset;; link_loop n' (i + 1) u offset
  end.

(** ** [myconsistent]

    The levels of one node: [None] when consistent, else the code to return.
    The last pointer read is what the caller's [offset] becomes. *)
Fixpoint consistent_levels (n : nat) (m : bytes) (map_size ptr i : Z) : result Z :=
  match n with
  | O => Ok 0
  | S n' =>
      offset ← FORWARD m ptr i;
      if map_size <? offset then Ok CYRUSDB_INTERNAL else
      if offset =? 0 then consistent_levels n' m map_size ptr (i + 1) else
      k ← rec_key m ptr; k' ← rec_key m offset;
      if 0 <=? compar k k' then Ok CYRUSDB_INTERNAL
      else consistent_levels n' m map_size ptr (i + 1)
  end.

Fixpoint consistent_loop (fuel : nat) (m : bytes) (map_size offset : Z) : result Z :=
  match fuel with
  | O => Fault OutOfFuel
  | S fuel' =>
      if offset =? 0 then Ok 0 else
      lvl ← LEVEL m offset;
      r ← consistent_levels (Z.to_nat lvl) m map_size offset 0;
      if negb (r =? 0) then Ok r else
      next ← FORWARD m offset 0;
      consistent_loop fuel' m map_size next
  end.

(** [locked]; an inconsistency returns without unlocking. *)
Definition myconsistent (tid : option txn) (locked : bool) : M Z :=
  (if locked then (match tid with Some t => update_lock t | None => mret tt end)
   else _ ← read_lock; mret tt);;
  size ← get (λ s, map_size (mp s));
  r ← rd (λ m, offset ← FORWARD m DUMMY_OFFSET 0; consistent_loop (S (length m)) m size offset);
  if negb (r =? 0) then mret r else
  (if locked then mret tt else _ ← unlock; mret tt);; mret 0.

Definition consistent : M Z := myconsistent None false.

(** ** [recovery] *)

Definition RECOVERY_FORCE : Z := 1.
Definition RECOVERY_CALLER_LOCKED : Z := 2.

(** The [lseek] and [retry_write] of a word with their checks. *)
Definition write_word_checked (off v : Z) : M Z :=
  r ← c_lseek_set off;
  if to_s32 r <? 0 then mret CYRUSDB_IOERROR else
  r ← retry_write (be32 v);
  mret (if r <? 0 then CYRUSDB_IOERROR else 0).

(** update previous pointers, record these for updating *)
Fixpoint relink_levels (fuel : nat) (i offset : Z) (u : list Z) : M (Z * list Z) :=
  match fuel with
  | O => mfault OutOfFuel
  | S fuel' =>
      lvl ← rd (λ m, LEVEL m offset);
      if lvl <=? i then mret (0, u) else
      pos ← liftr (uget u i);
      r ← write_word_checked pos offset;
      if negb (r =? 0) then mret (r, u) else
      p ← rd (λ m, PTR m offset i);
      u ← liftr (uset u i p);
      relink_levels fuel' (i + 1) offset u
  end.

(** reset the data that was written INORDER by the last checkpoint *)
Fixpoint relink_inorder (fuel : nat) (offset : Z) (u : list Z) : M (Z * Z * list Z) :=
  match fuel with
  | O => mfault OutOfFuel
  | S fuel' =>
      h ← get hdr;
      if negb (offset <? to_u32 (logstart h)) then mret (0, offset, u) else
      modify_hdr (λ h, set_listsize (listsize h + 1) h);;
      ty ← rd (λ m, TYPE m offset);
      if negb (ty =? INORDER) then mret (CYRUSDB_IOERROR, offset, u) else
      '(r, u) ← relink_levels (S (length u)) 0 offset u;
      if negb (r =? 0) then mret (r, offset, u) else
      pad ← rd (λ m, PADDING m offset);
      if negb (pad =? MINUS1) then mret (CYRUSDB_IOERROR, offset, u) else
      n ← rd (λ m, RECSIZE m offset);
      relink_inorder fuel' (offset + n) u
  end.

(** zero out the remaining pointers *)
Fixpoint zero_pointers (n : nat) (i : Z) (u : list Z) : M Z :=
  match n with
  | O => mret 0
  | S n' =>
      pos ← liftr (uget u i);
      r ← write_word_checked pos 0;
      if negb (r =? 0) then mret r else zero_pointers n' (i + 1) u
  end.

(** look ahead for a commit: where it is, or something not below [q]. *)
Fixpoint find_commit (fuel : nat) (m : bytes) (p q : Z) : result Z :=
  match fuel with
  | O => Fault OutOfFuel
  | S fuel' =>
      n ← RECSIZE m p;
      if n <=? 0 then Ok q else
      if q <=? p + n then Ok (p + n) else
      ty ← TYPE m (p + n);
      if ty =? COMMIT then Ok (p + n) else find_commit fuel' m (p + n) q
  end.

(** set our next pointers, replace 'updateoffsets' to point to me *)
Fixpoint splice_loop (n : nat) (i : Z) (u : list Z) (offset : Z) : M (list Z) :=
  match n with
  | O => mret []
  | S n' =>
      p ← liftr (uget u i);
      v ← rd (λ m, FORWARD m p i);
      write_forward p i offset;;
      vs ← splice_loop n' (i + 1) u offset;
      mret (v :: vs)
  end.

(** One record of the log, the transaction known to be committed. *)
Definition replay_record (offset ty : Z) : M Z :=
  if ty =? ADD then
    key ← rd (λ m, rec_key m offset);
    '(keyptr, u) ← m_find_node key;
    found ← (if keyptr =? 0 then mret false
             else k ← rd (λ m, rec_key m keyptr); mret (compar key k =? 0));
    if (found : bool) then mret CYRUSDB_IOERROR else
    modify_hdr (λ h, set_listsize (listsize h + 1) h);;
    lvl ← rd (λ m, LEVEL m offset);
    if SKIPLIST_MAXLEVEL <? lvl then mret CYRUSDB_IOERROR else
    newoffsets ← splice_loop (Z.to_nat lvl) 0 u offset;
    pos ← rd (λ m, FIRSTPTR m offset);
    _ ← c_lseek_set pos;
    _ ← retry_write (mjoin (be32 <$> newoffsets));
    mret 0
  else
    myoff ← rd (λ m, rd32 m (offset + 4));
    key ← rd (λ m, rec_key m myoff);
    '(keyptr, u) ← m_find_node key;
    if keyptr =? 0 then mret CYRUSDB_IOERROR else
    modify_hdr (λ h, set_listsize (listsize h - 1) h);;
    h ← get hdr;
    unlink_loop (Z.to_nat (curlevel h)) 0 u myoff;;
    mret 0.

(** replay the log *)
Fixpoint replay_log (fuel : nat) (offset : Z) : M Z :=
  match fuel with
  | O => mfault OutOfFuel
  | S fuel' =>
      size ← get (λ s, map_size (mp s));
      if negb (offset <? size) then mret 0 else
      map_refresh (Some size);;
      ty ← rd (λ m, TYPE m offset);
      if ty =? COMMIT then
        n ← rd (λ m, RECSIZE m offset); replay_log fuel' (offset + n)
      else if negb (ty =? ADD) && negb (ty =? DELETE) then mret CYRUSDB_IOERROR else
      p ← rd (λ m, find_commit (S (length m)) m offset size);
      if size <=? p then (* no commit, we should truncate *)
        r ← ftruncate offset; mret (if r <? 0 then CYRUSDB_IOERROR else 0)
      else
      r ← replay_record offset ty;
      n ← rd (λ m, RECSIZE m offset);
      if negb (r =? 0) then mret r else replay_log fuel' (offset + n)
  end.

(** [updateoffsets[i] = DUMMY_OFFSET(db) + 12 + 4 * i] *)
Definition dummy_positions (maxlevel : Z) : list Z :=
  (λ i : nat, DUMMY_OFFSET + 12 + 4 * Z.of_nat i) <$> seq 0 (Z.to_nat maxlevel).

(** The part of [recovery] that rebuilds the list. *)
Definition recover_records : M Z :=
  modify_hdr (set_listsize 0);;
  h ← get hdr;
  bad ← rd (λ m,
    ty ← TYPE m DUMMY_OFFSET;
    if negb (ty =? DUMMY) then Ok true else
    kl ← KEYLEN m DUMMY_OFFSET;
    if negb (kl =? 0) then Ok true else
    dl ← DATALEN m DUMMY_OFFSET;
    if negb (dl =? 0) then Ok true else
    lvl ← LEVEL m DUMMY_OFFSET; Ok (negb (lvl =? maxlevel h)));
  if (bad : bool) then mret CYRUSDB_IOERROR else
  fuel ← rd (λ m, Ok (S (length m)));
  '(r, offset, u) ← relink_inorder fuel (DUMMY_OFFSET + DUMMY_SIZE (maxlevel h))
                      (dummy_positions (maxlevel h));
  if negb (r =? 0) then mret r else
  r ← zero_pointers (Z.to_nat (maxlevel h)) 0 u;
  if negb (r =? 0) then mret r else
  fuel ← get (λ s, S (Z.to_nat (map_size (mp s))));
  replay_log fuel offset.

Definition recovery (global_recovery flags : Z) : M Z :=
  let caller_locked := negb (Z.land flags RECOVERY_CALLER_LOCKED =? 0) in
  r ← (if caller_locked then mret 0 else write_lock None);
  if r <? 0 then mret r else
  r ← read_header;
  if r <? 0 then _ ← unlock; mret r else
  h ← get hdr;
  if (Z.land flags RECOVERY_FORCE =? 0) && negb (global_recovery =? 0)
     && (global_recovery <=? last_recovery h) then _ ← unlock; mret 0 else
  r ← recover_records;
  r ← (if negb (r =? 0) then mret r
       else bad ← fsync_fails; mret (if (bad : bool) then CYRUSDB_IOERROR else 0));
  r ← (if negb (r =? 0) then mret r
       else now ← time_now; modify_hdr (set_last_recovery now);; _ ← write_header; mret 0);
  r ← (if negb (r =? 0) then mret r
       else bad ← fsync_fails; mret (if (bad : bool) then CYRUSDB_IOERROR else 0));
  (if negb (r =? 0) || negb caller_locked then _ ← unlock; mret tt else mret tt);;
  mret r.

(** ** [mycheckpoint] *)

(** The pointers of one copied record; [rel] is [PTR(ptr, i) - ptr]. *)
Fixpoint copy_pointers (n : nat) (i ptr newoffset : Z) (u : list Z) : M (Z * list Z) :=
  match n with
  | O => mret (0, u)
  | S n' =>
      pos ← liftr (uget u i);
      r ← write_word_checked pos newoffset;
      if negb (r =? 0) then mret (r, u) else
      p ← rd (λ m, PTR m ptr i);
      u ← liftr (uset u i (newoffset + (p - ptr)));
      copy_pointers n' (i + 1) ptr newoffset u
  end.

(** write records to new file *)
Fixpoint copy_records (fuel : nat) (offset : Z) (u : list Z) : M (Z * list Z) :=
  match fuel with
  | O => mfault OutOfFuel
  | S fuel' =>
      if offset =? 0 then mret (0, u) else
      lvl ← rd (λ m, LEVEL m offset);
      modify_hdr (λ h, set_listsize (listsize h + 1) h);;
      body ← rd (λ m, n ← RECSIZE m offset; slice m (offset + 4) (n - 4));
      newoffset ← c_lseek_end;
      r ← retry_write (be32 INORDER ++ body);
      if r <? 0 then mret (CYRUSDB_IOERROR, u) else
      '(r, u) ← copy_pointers (Z.to_nat lvl) 0 offset newoffset u;
      next ← rd (λ m, FORWARD m offset 0);
      if negb (r =? 0) then mret (r, u) else copy_records fuel' next u
  end.

(** An empty DUMMY record. *)
Definition dummy_bytes (maxlevel : Z) : bytes :=
  be32 DUMMY ++ replicate (Z.to_nat (DUMMY_SIZE maxlevel - 8)) 0 ++ be32 (-1).

(** Write it. *)
Definition write_dummy : M Z :=
  h ← get hdr;
  _ ← c_lseek_set DUMMY_OFFSET;
  n ← retry_write (dummy_bytes (maxlevel h));
  mret (if negb (n =? DUMMY_SIZE (maxlevel h)) then CYRUSDB_IOERROR else 0).

(** [snprintf(fname, sizeof(fname), "%s.NEW", db->fname)] with 1024 bytes. *)
Definition new_name (name : bytes) : bytes := take 1023 (name ++ [46; 78; 69; 87]).

(** Up to where the new file is complete: the last [r], which is that of
    [write_header]. *)
Definition write_checkpoint : M Z :=
  r ← write_dummy;
  offset ← rd (λ m, FORWARD m DUMMY_OFFSET 0);
  modify_hdr (set_listsize 0);;
  fuel ← rd (λ m, Ok (S (length m)));
  h ← get hdr;
  '(r, u) ← (if negb (r =? 0) then mret (r, dummy_positions (maxlevel h))
             else copy_records fuel offset (dummy_positions (maxlevel h)));
  _ ← (if negb (r =? 0) then mret r else zero_pointers (Z.to_nat (maxlevel h)) 0 u);
  n ← c_lseek_end;
  modify_hdr (set_logstart n);;
  write_header.

Definition mycheckpoint (locked : bool) : M Z :=
  name ← get fname;
  r ← (if locked then map_refresh None;; mret 0 else write_lock None);
  if r <? 0 then mret r else
  r ← myconsistent None true;
  if r <? 0 then mret r else
  oldfd ← get fd;
  newfd ← open_creat (new_name name);
  match newfd with
  | None => (if locked then mret tt else _ ← unlock; mret tt);; mret CYRUSDB_IOERROR
  | Some ino =>
      modify (set_fd (Some (ino, 0)));;
      r ← write_checkpoint;
      r ← (if negb (r =? 0) then mret r
           else bad ← fsync_fails; mret (if (bad : bool) then CYRUSDB_IOERROR else 0));
      r ← (if negb (r =? 0) then mret r else write_lock (Some (new_name name)));
      r ← (if negb (r =? 0) then mret r (* rename *)
           else bad ← sys_fails;
                if (bad : bool) then mret CYRUSDB_IOERROR else
                modify_fs (λ f,
                  match names f !! new_name name with
                  | Some i => set_names (<[name := i]> (delete (new_name name) (names f))) f
                  | None => f
                  end);; mret 0);
      r ← (if negb (r =? 0) then mret r
           else bad ← fsync_fails; mret (if (bad : bool) then CYRUSDB_IOERROR else 0));
      (if negb (r =? 0) then
         d ← get fd; close_fd d;; modify (set_fd oldfd);;
         modify_fs (λ f, set_names (delete (new_name name) (names f)) f);;
         close_fd oldfd;; modify (set_fd None) (* what [db->fd] is now is closed *)
       else close_fd oldfd);;
      map_free;;
      d ← get fd;
      match d with
      | None => mret CYRUSDB_IOERROR
      | Some (ino, _) =>
          size ← get (λ s, blen (file_of s ino));
          modify (λ s, set_mp (Map (map_of (mp s)) (map_len (mp s)) size ino) s);;
          map_refresh (Some size);;
          r ← myconsistent None true;
          if r <? 0 then mret r else
          (if locked then mret tt else _ ← unlock; mret tt);; mret r
      end
  end.

(** ** [myabort] *)

(** find the last log entry *)
Fixpoint last_entry (fuel : nat) (m : bytes) (offset logend : Z) : result Z :=
  match fuel with
  | O => Fault OutOfFuel
  | S fuel' =>
      n ← RECSIZE m offset;
      if offset + n =? logend then Ok offset else last_entry fuel' m (offset + n) logend
  end.

(** Undo one of them: remove the record added, or add the record deleted. *)
Definition undo_entry (offset : Z) : M unit :=
  ty ← rd (λ m, TYPE m offset);
  m_assert ((ty =? ADD) || (ty =? DELETE));;
  if ty =? ADD then
    key ← rd (λ m, rec_key m offset);
    '(_, u) ← m_find_node key;
    h ← get hdr;
    unlink_loop (Z.to_nat (curlevel h)) 0 u offset
  else
    q ← rd (λ m, rd32 m (offset + 4));
    lvl ← rd (λ m, LEVEL m q);
    key ← rd (λ m, rec_key m q);
    '(_, u) ← m_find_node key;
    link_loop (Z.to_nat lvl) 0 u q.

(** look at the log entries we've written, and undo their effects *)
Fixpoint undo_log (fuel : nat) (start logend : Z) : M unit :=
  match fuel with
  | O => mfault OutOfFuel
  | S fuel' =>
      if start =? logend then mret tt else
      offset ← rd (λ m, last_entry (S (length m)) m start logend);
      undo_entry offset;;
      n ← rd (λ m, RECSIZE m offset);
      undo_log fuel' start (logend - n)
  end.

Definition myabort (t : txn) : M Z :=
  undo_log (S (Z.to_nat (t_logend t))) (t_logstart t) (t_logend t);;
  r ← ftruncate (t_logstart t);
  if r <? 0 then _ ← unlock; mret CYRUSDB_IOERROR else
  set_msize (t_logstart t);;
  unlock.

(** ** [mycommit] *)

Definition mycommit (t : txn) : M Z :=
  update_lock t;;
  r ← (if t_logstart t =? t_logend t then mret 0 else
       bad ← fsync_fails;
       if (bad : bool) then mret CYRUSDB_IOERROR else
       m_assert (syncfd t);;
       _ ← c_lseek_set (t_logend t);
       _ ← retry_write (be32 COMMIT);
       bad ← fsync_fails;
       mret (if (bad : bool) then CYRUSDB_IOERROR else 0));
  h ← get hdr;
  r ← (if (r =? 0) && (to_s32 (2 * logstart h + SKIPLIST_MINREWRITE) <? t_logend t)
       then mycheckpoint true else mret r);
  if negb (r =? 0) then _ ← myabort t; mret r else unlock.

(** [find_node], and whether it found the key itself:
    [ptr != db->map_base && !db->compar(KEY(ptr), KEYLEN(ptr), key, keylen)]. *)
Definition find_key (key : bytes) : M (Z * list Z * bool) :=
  '(ptr, u) ← m_find_node key;
  if ptr =? 0 then mret (ptr, u, false) else
  k ← rd (λ m, rec_key m ptr); mret (ptr, u, compar k key =? 0).

(** ** [myfetch], [myforeach] *)

(** The start both share: a read lock without a transaction, a write lock to
    begin one. *)
Definition start_read (tid : tidp txn) : M (Z * option txn) :=
  match tid with
  | NoTid => r ← read_lock; mret (r, None)
  | NewTid =>
      r ← write_lock None;
      if r <? 0 then mret (r, None) else t ← newtxn; mret (0, Some t)
  | OldTid t => update_lock t;; mret (0, Some t)
  end.

(** The code returned, the data found, and the transaction left at [*mytid]. *)
Definition myfetch (key : bytes) (mytid : tidp txn) : M (Z * option bytes * option txn) :=
  '(r, tp) ← start_read mytid;
  if r <? 0 then mret (r, None, tp) else
  '(ptr, _, found) ← find_key key;
  '(r, data) ← (if (found : bool) then d ← rd (λ m, rec_data m ptr); mret (0, Some d)
                else mret (CYRUSDB_NOTFOUND, None));
  match mytid with
  | NoTid => r1 ← unlock; mret (if r1 <? 0 then r1 else r, data, tp)
  | _ => mret (r, data, tp)
  end.

Section Foreach.
(** The caller's [rock], [goodp] and [cb]; the callback may use the database. *)
Context {R : Type} (goodp : R → bytes → bytes → result bool) (cb : R → bytes → bytes → M (Z * R)).

(** Where to go on after a callback on the record at [ptr]. *)
Definition reposition (ino sz : Z) (savebuf : bytes) (ptr : Z) : M Z :=
  m' ← get mp;
  if (ino =? map_ino m') && (sz =? map_size m') then rd (λ m, FORWARD m ptr 0) else
  '(ptr, _) ← m_find_node savebuf;
  kl ← rd (λ m, KEYLEN m ptr);
  if negb (kl =? blen savebuf) then mret ptr else
  k ← rd (λ m, rec_key m ptr);
  if bool_decide (k = savebuf) then rd (λ m, FORWARD m ptr 0) else mret ptr.

(** [r], the callback's code, and the rock; [None] for an early return. *)
Fixpoint foreach_loop (fuel : nat) (prefix : bytes) (tid : option txn) (rock : R) (ptr : Z)
    : M (option Z * Z * R) :=
  match fuel with
  | O => mfault OutOfFuel
  | S fuel' =>
      if ptr =? 0 then mret (None, 0, rock) else
      kl ← rd (λ m, KEYLEN m ptr);
      if kl <? blen prefix then mret (None, 0, rock) else
      pre ← rd (λ m, slice m (KEY ptr) (blen prefix));
      if negb (blen prefix =? 0) && negb (compar pre prefix =? 0) then mret (None, 0, rock) else
      k ← rd (λ m, rec_key m ptr);
      d ← rd (λ m, rec_data m ptr);
      good ← liftr (goodp rock k d);
      if (good : bool) then
        m ← get mp;
        r ← (match tid with None => unlock | Some _ => mret 0 end);
        if r <? 0 then mret (Some r, 0, rock) else
        '(cb_r, rock) ← cb rock k d;
        if negb (cb_r =? 0) then mret (None, cb_r, rock) else
        r ← (match tid with None => read_lock | Some t => update_lock t;; mret 0 end);
        if r <? 0 then mret (Some r, 0, rock) else
        ptr ← reposition (map_ino m) (map_size m) k ptr;
        foreach_loop fuel' prefix tid rock ptr
      else
        ptr ← rd (λ m, FORWARD m ptr 0);
        foreach_loop fuel' prefix tid rock ptr
  end.

Definition myforeach (fuel : nat) (prefix : bytes) (tid : tidp txn) (rock : R)
    : M (Z * R * option txn) :=
  '(r, tp) ← start_read tid;
  if r <? 0 then mret (r, rock, tp) else
  '(ptr, _) ← m_find_node prefix;
  '(early, cb_r, rock) ← foreach_loop fuel prefix tp rock ptr;
  match early with
  | Some r => mret (r, rock, tp)
  | None =>
      match tid with
      | NoTid => r ← unlock; mret (if r <? 0 then r else cb_r, rock, tp)
      | _ => mret (cb_r, rock, tp)
      end
  end.
End Foreach.

(** ** [mystore], [mydelete] *)

(** [(float) rand() / RAND_MAX < PROB && lvl < db->maxlevel] *)
Fixpoint randlvl_loop (fuel : nat) (maxl lvl : Z) : M Z :=
  match fuel with
  | O => mfault OutOfFuel
  | S fuel' =>
      c ← rand_below_prob;
      if (c : bool) && (lvl <? to_u32 maxl) then randlvl_loop fuel' maxl (lvl + 1) else mret lvl
  end.
Definition randlvl : M Z := h ← get hdr; randlvl_loop (S (Z.to_nat (to_u32 (maxlevel h)))) (maxlevel h) 1.

(** The start of both: lock, recover if it is not safe to append, begin a
    transaction; or go on with one. *)
Definition start_write (tid : tidp txn) : M (Z * txn) :=
  match tid with
  | OldTid t => update_lock t;; mret (0, t)
  | _ =>
      r ← write_lock None;
      if r <? 0 then mret (r, Txn false 0 0) else
      size ← get (λ s, map_size (mp s)); h ← get hdr;
      unsafe ← rd (λ m, SAFE_TO_APPEND m size (logstart h));
      r ← (if (unsafe : bool) then recovery 0 (RECOVERY_FORCE + RECOVERY_CALLER_LOCKED)
           else mret 0);
      if r <? 0 then mret (r, Txn false 0 0) else
      t ← newtxn; mret (0, t)
  end.

(** The end of both: hand the transaction back, or commit it. *)
Definition finish_write (tid : tidp txn) (t : txn) : M (Z * option txn) :=
  match tid with
  | NoTid => _ ← mycommit t; mret (0, None)
  | _ => mret (0, Some t)
  end.

(** [htonl(FORWARD(db->map_base + update[i], i))] for the levels of a new node. *)
Fixpoint forwards (n : nat) (m : bytes) (u : list Z) (i : Z) : result (list Z) :=
  match n with
  | O => Ok []
  | S n' => p ← uget u i; v ← FORWARD m p i; vs ← forwards n' m u (i + 1); Ok (v :: vs)
  end.
(** The same of the node at [ptr]. *)
Fixpoint forwards_of (n : nat) (m : bytes) (ptr i : Z) : result (list Z) :=
  match n with
  | O => Ok []
  | S n' => v ← FORWARD m ptr i; vs ← forwards_of n' m ptr (i + 1); Ok (v :: vs)
  end.

(** A string and its zero padding. *)
Definition padded (s : bytes) : bytes :=
  s ++ replicate (Z.to_nat (ROUNDUP (blen s) - blen s)) 0.

(** The record that goes to the log. *)
Definition add_bytes (key data : bytes) (newoffsets : list Z) : bytes :=
  be32 ADD ++ be32 (blen key) ++ padded key ++ be32 (blen data) ++ padded data
    ++ mjoin (be32 <$> newoffsets) ++ be32 (-1).

(** pick a size for the new node; update the header if it is higher *)
Definition new_level (u : list Z) : M (Z * list Z) :=
  lvl ← randlvl;
  h ← get hdr;
  if to_u32 (curlevel h) <? lvl then
    (* updateoffsets[i] = DUMMY_OFFSET from the old level up *)
    u ← liftr (foldl (λ u i, u ← u; uset u (curlevel h + Z.of_nat i) DUMMY_OFFSET) (Ok u)
                 (seq 0 (Z.to_nat (lvl - curlevel h))));
    modify_hdr (set_curlevel lvl);;
    _ ← write_header;
    mret (lvl, u)
  else mret (lvl, u).

(** The pointers and the record, or the refusal: from [find_node] to the new
    [logend]. *)
Definition store_entry (key data : bytes) (overwrite : bool) (t : txn) : M (Z * txn) :=
  '(ptr, u, found) ← find_key key;
  if (found : bool) && negb overwrite then
    _ ← myabort t; mret (CYRUSDB_EXISTS, t)
  else
  '(del, lvl, u, newoffsets) ←
    (if (found : bool) then (* replace with an equal height node, log a removal *)
       lvl ← rd (λ m, LEVEL m ptr);
       vs ← rd (λ m, forwards_of (Z.to_nat lvl) m ptr 0);
       mret (be32 DELETE ++ be32 ptr, lvl, u, vs)
     else
       '(lvl, u) ← new_level u;
       vs ← rd (λ m, forwards (Z.to_nat lvl) m u 0);
       mret ([], lvl, u, vs));
  let newoffset := t_logend t + blen del in
  link_loop (Z.to_nat lvl) 0 u newoffset;;
  let t := getsyncfd t in
  _ ← c_lseek_set (t_logend t);
  r ← retry_write (del ++ add_bytes key data newoffsets);
  if r <? 0 then _ ← myabort t; mret (CYRUSDB_IOERROR, t) else
  mret (0, add_logend t r).

Definition mystore (key data : bytes) (tid : tidp txn) (overwrite : bool) : M (Z * option txn) :=
  m_assert (negb (blen key =? 0));;
  '(r, t) ← start_write tid;
  if r <? 0 then mret (r, None) else
  '(r, t) ← store_entry key data overwrite t;
  if r <? 0 then mret (r, None) else finish_write tid t.

Definition create (key data : bytes) (tid : tidp txn) := mystore key data tid false.
Definition store (key data : bytes) (tid : tidp txn) := mystore key data tid true.

Definition delete_entry (key : bytes) (t : txn) : M txn :=
  '(ptr, u, found) ← find_key key;
  if (ptr =? 0) || (found : bool) then (* gotcha *)
    h ← get hdr;
    unlink_loop (Z.to_nat (curlevel h)) 0 u ptr;;
    let t := getsyncfd t in
    _ ← c_lseek_set (t_logend t);
    n ← retry_write (be32 DELETE ++ be32 ptr);
    mret (add_logend t n)
  else mret t.

(** [force] is not used: that there is no such key is never an error. *)
Definition mydelete (key : bytes) (tid : tidp txn) (force : bool) : M (Z * option txn) :=
  '(r, t) ← start_write tid;
  if r <? 0 then mret (r, None) else
  t ← delete_entry key t; finish_write tid t.

(** ** [myopen] *)

Definition set_db (s : st) (name : bytes) : st :=
  St (fs s) name None (Map 0 0 0 0) (Hdr 0 0 0 0 0 0 0).

(** [dispose_db] *)
Definition dispose_db : M unit :=
  map_free;; d ← get fd; close_fd d;; modify (set_fd None).

Definition init_header (now : Z) : header :=
  Hdr SKIPLIST_VERSION SKIPLIST_VERSION_MINOR SKIPLIST_MAXLEVEL 1 0
    (DUMMY_OFFSET + DUMMY_SIZE SKIPLIST_MAXLEVEL) now.

(** initialize in memory structure, create the header and the dummy node *)
Definition init_file : M Z :=
  now ← time_now;
  modify_hdr (λ _, init_header now);;
  r ← write_header;
  r ← (if negb (r =? 0) then mret r else write_dummy);
  if negb (r =? 0) then mret r
  else bad ← fsync_fails; mret (if (bad : bool) then CYRUSDB_IOERROR else 0).

(** From [retry:] to [unlock]: [None] goes round again. *)
Fixpoint open_loop (fuel : nat) (new : bool) : M Z :=
  match fuel with
  | O => mfault OutOfFuel
  | S fuel' =>
      modify_hdr (set_curlevel 0);;
      r ← (if new then write_lock None else read_lock);
      if r <? 0 then dispose_db;; mret r else
      size ← get (λ s, map_size (mp s));
      (if new && (size =? 0) then _ ← init_file; mret tt else mret tt);;
      if size =? 0 then _ ← unlock; open_loop fuel' true else
      r ← read_header;
      if negb (r =? 0) then dispose_db;; mret r else
      _ ← unlock; mret 0
  end.

Definition myopen (global_recovery : Z) (name : bytes) (create_flag : bool) : M Z :=
  modify (λ s, set_db s name);;
  f ← get fs; bad ← sys_fails;
  '(r, new) ← (match names f !! name with
    | Some ino =>
        if (bad : bool) then mret (CYRUSDB_IOERROR, false)
        else modify (set_fd (Some (ino, 0)));; mret (0, false)
    | None =>
        if negb create_flag then mret (CYRUSDB_IOERROR, false) else
        bad ← sys_fails; (* cyrus_mkdir *)
        if (bad : bool) then mret (CYRUSDB_IOERROR, false) else
        d ← open_creat name;
        match d with
        | None => mret (CYRUSDB_IOERROR, false)
        | Some ino => modify (set_fd (Some (ino, 0)));; mret (0, true)
        end
    end);
  if r <? 0 then dispose_db;; mret r else
  r ← open_loop 3 new;
  if negb (r =? 0) then mret r else
  h ← get hdr;
  if (global_recovery =? 0) || (last_recovery h <? global_recovery) then
    r ← recovery global_recovery 0;
    if negb (r =? 0) then dispose_db;; mret r else mret 0
  else mret 0.

Definition myclose : M Z := dispose_db;; mret 0.

(** The calls of the backend on an open database. *)
Definition cyrusdb_skiplist : Backend := {|
  db_txn := txn;
  db_fetch := myfetch;
  db_create := create;
  db_store := store;
  db_delete := mydelete;
  db_commit := mycommit;
  db_abort := myabort;
  db_foreach R fuel goodp cb prefix prefixlen rock :=
    prefix ← liftr (slice prefix 0 prefixlen);
    '(r, rock, _) ← myforeach goodp cb fuel prefix NoTid rock; mret (r, rock);
|}.
End Backend.
