(* ===== verification/SkipFile.v ===== *)
(** * SkipFile: database files as lists of entries

    The contents of a skiplist file that the code keeps are the header and a
    sequence of entries: DUMMY, the INORDER records of the last checkpoint, and
    the log.  This file relates the byte-level accessors and pointer writes of
    [Skiplist] to that view. *)
From stdpp Require Import gmap.
From S2P Require Import Prelude CMem CFile Prog DbFile CyrusDb BSearch Skiplist.
#[local] Open Scope Z_scope.

Inductive entry :=
  | ERec (ty : Z) (key data : bytes) (ptrs : list Z)
  | EDel (off : Z)
  | ECommit.

#[global] Instance entry_eq_dec : EqDecision entry.
Proof. solve_decision. Defined.

Definition rec_bytes (ty : Z) (key data : bytes) (ptrs : list Z) : bytes :=
  be32 ty ++ be32 (blen key) ++ padded key ++ be32 (blen data) ++ padded data
    ++ mjoin (be32 <$> ptrs) ++ be32 (-1).
Definition ebytes (e : entry) : bytes :=
  match e with
  | ERec ty key data ptrs => rec_bytes ty key data ptrs
  | EDel off => be32 DELETE ++ be32 off
  | ECommit => be32 COMMIT
  end.
Definition esize (e : entry) : Z := blen (ebytes e).
Definition lsize (es : list entry) : Z := foldr (λ e n, esize e + n) 0 es.

(** The whole file. *)
Definition ser (h : header) (es : list entry) : bytes := header_bytes h ++ mjoin (ebytes <$> es).

(** A file whose header is [z]. *)
Definition serz (z : bytes) (es : list entry) : bytes := z ++ mjoin (ebytes <$> es).

(** The values a file of less than 2 GB holds. *)
Definition is_off (z : Z) : Prop := 0 ≤ z < 2147483648.
Definition is_node_type (ty : Z) : Prop := ty = DUMMY ∨ ty = INORDER ∨ ty = ADD.
Definition wf_entry (e : entry) : Prop :=
  match e with
  | ERec ty key data ptrs =>
      is_node_type ty ∧ is_off (blen key + 4) ∧ is_off (blen data + 4) ∧ Forall is_off ptrs
      ∧ (length ptrs ≤ 20)%nat
  | EDel off => is_off off
  | ECommit => True
  end.

(** ** Sizes *)

Lemma blen_padded s : is_off (blen s + 4) → blen (padded s) = ROUNDUP (blen s).
Proof.
  intros H. unfold padded, is_off in *. pose proof (blen_nonneg s).
  pose proof (ROUNDUP_bounds (blen s) ltac:(lia)). blia.
Qed.

Lemma blen_words (ps : list Z) : blen (mjoin (be32 <$> ps)) = 4 * Z.of_nat (length ps).
Proof. induction ps as [|p ps IH]; [done|]. rewrite fmap_cons, mjoin_cons, blen_app, IH, blen_be32. cbn [length]. lia. Qed.

Definition rsize (key data : bytes) (n : nat) : Z :=
  16 + ROUNDUP (blen key) + ROUNDUP (blen data) + 4 * Z.of_nat n.

Lemma blen_rec ty key data ps :
  is_off (blen key + 4) → is_off (blen data + 4) →
  blen (rec_bytes ty key data ps) = rsize key data (length ps).
Proof.
  intros Hk Hd. unfold rec_bytes, rsize. autorewrite with blen.
  rewrite !blen_padded, blen_words by done. lia.
Qed.

Lemma esize_pos e : 4 ≤ esize e.
Proof. destruct e; unfold esize; cbn [ebytes]; unfold rec_bytes; blia. Qed.

Lemma lsize_cons e es : lsize (e :: es) = esize e + lsize es.
Proof. done. Qed.

Lemma lsize_nonneg es : 0 ≤ lsize es.
Proof.
  induction es as [|e es IH]; [done|]. rewrite lsize_cons. pose proof (esize_pos e). lia.
Qed.

Lemma lsize_app es1 es2 : lsize (es1 ++ es2) = lsize es1 + lsize es2.
Proof.
  induction es1 as [|e es IH]; [done|]. rewrite <- app_comm_cons, !lsize_cons, IH. lia.
Qed.

Lemma lsize_snoc es e : lsize (es ++ [e]) = lsize es + esize e.
Proof. rewrite lsize_app, lsize_cons. change (lsize []) with 0. lia. Qed.

Lemma blen_entries es : blen (mjoin (ebytes <$> es)) = lsize es.
Proof.
  induction es as [|e es IH]; [done|].
  rewrite fmap_cons, mjoin_cons, blen_app, lsize_cons, IH. done.
Qed.

Lemma blen_header h : blen (header_bytes h) = 48.
Proof. reflexivity. Qed.

Lemma blen_ser h es : blen (ser h es) = 48 + lsize es.
Proof. unfold ser. by rewrite blen_app, blen_header, blen_entries. Qed.

Lemma blen_serz z es : blen z = 48 → blen (serz z es) = 48 + lsize es.
Proof. intros Hz. unfold serz. by rewrite blen_app, Hz, blen_entries. Qed.

Lemma ser_app h es1 es2 : ser h (es1 ++ es2) = ser h es1 ++ mjoin (ebytes <$> es2).
Proof. unfold ser. by rewrite fmap_app, mjoin_app, app_assoc. Qed.

(** ** Reading a record *)

Lemma slice_at m o s : bytes_at m o s → o + blen s ≤ blen m → slice m o (blen s) = Ok s.
Proof.
  intros [H0 H] Hl. unfold slice.
  destruct (Z.leb_spec 0 o), (Z.leb_spec 0 (blen s)), (Z.leb_spec (o + blen s) (blen m)); try blia.
  cbn. f_equal. apply byte_at_ext. intros i. rewrite byte_at_take, byte_at_drop.
  destruct (Z.ltb_spec i (Z.of_nat (Z.to_nat (blen s)))).
  - destruct (Z.ltb_spec i 0); [unfold byte_at; destruct (Z.ltb_spec i 0); [done|lia]|].
    destruct (byte_at_is_Some s i) as [b Hb]; [lia|]. rewrite Hb.
    apply H in Hb. rewrite <- Hb. f_equal. lia.
  - destruct (byte_at s i) eqn:Hb; [|done]. apply byte_at_lt in Hb. lia.
Qed.

Section Record.
Context (m : bytes) (off : Z) (ty : Z) (key data : bytes) (ps : list Z).
Context (Hat : bytes_at m off (rec_bytes ty key data ps)).
Context (Hwf : wf_entry (ERec ty key data ps)).

#[local] Lemma parts :
  bytes_at m off (be32 ty) ∧ bytes_at m (off + 4) (be32 (blen key)) ∧
  bytes_at m (off + 8) key ∧
  bytes_at m (off + 8 + ROUNDUP (blen key)) (be32 (blen data)) ∧
  bytes_at m (off + 12 + ROUNDUP (blen key)) data ∧
  bytes_at m (off + 12 + ROUNDUP (blen key) + ROUNDUP (blen data)) (mjoin (be32 <$> ps)) ∧
  bytes_at m (off + 12 + ROUNDUP (blen key) + ROUNDUP (blen data) + 4 * Z.of_nat (length ps))
    (be32 (-1)).
Proof using Hat Hwf.
  destruct Hwf as (_ & Hk & Hd & _). pose proof Hat as H. unfold rec_bytes in H.
  repeat (apply bytes_at_app in H as [? H]).
  pose proof (blen_padded key Hk) as Ek. pose proof (blen_padded data Hd) as Ed.
  rewrite ?blen_words, ?Ek, ?Ed, ?blen_be32 in *.
  unfold padded in *.
  repeat match goal with H : bytes_at _ _ (_ ++ _) |- _ => apply bytes_at_app in H as [? _] end.
  split_and!;
    match goal with H : bytes_at m ?o ?bs |- bytes_at m ?o' ?bs =>
      replace o' with o by lia; exact H end.
Qed.

Lemma TYPE_at : TYPE m off = Ok ty.
Proof using Hat Hwf.
  unfold TYPE. rewrite (rd32_be32 m off ty) by apply parts.
  destruct Hwf as [Ht _]. by destruct Ht as [->|[->| ->]].
Qed.

Lemma KEYLEN_at : KEYLEN m off = Ok (blen key).
Proof using Hat Hwf.
  unfold KEYLEN. rewrite (rd32_be32 _ _ (blen key)) by apply parts.
  destruct Hwf as (_ & Hk & _). unfold is_off in Hk. pose proof (blen_nonneg key).
  by rewrite to_u32_small by (unfold is_u32; lia).
Qed.

Lemma DATALEN_at : DATALEN m off = Ok (blen data).
Proof using Hat Hwf.
  unfold DATALEN. rewrite KEYLEN_at. cbn [mbind result_bind].
  rewrite (rd32_be32 _ _ (blen data)) by apply parts.
  destruct Hwf as (_ & _ & Hd & _). unfold is_off in Hd. pose proof (blen_nonneg data).
  by rewrite to_u32_small by (unfold is_u32; lia).
Qed.

Lemma FIRSTPTR_at :
  FIRSTPTR m off = Ok (off + 12 + ROUNDUP (blen key) + ROUNDUP (blen data)).
Proof using Hat Hwf.
  unfold FIRSTPTR. rewrite KEYLEN_at. cbn [mbind result_bind]. rewrite DATALEN_at.
  cbn [mbind result_bind]. f_equal. lia.
Qed.

Lemma rec_end : off + rsize key data (length ps) ≤ blen m.
Proof using Hat Hwf.
  destruct Hwf as (_ & Hk & Hd & _). rewrite <- (blen_rec ty) by done.
  apply bytes_at_blen; [done|]. unfold rec_bytes, be32. done.
Qed.

Lemma rec_key_at : rec_key m off = Ok key.
Proof using Hat Hwf.
  unfold rec_key, KEY. rewrite KEYLEN_at. cbn [mbind result_bind].
  apply slice_at; [apply parts|]. pose proof rec_end as H. unfold rsize in H.
  destruct Hwf as (_ & Hk & Hd & _). unfold is_off in *.
  pose proof (blen_nonneg key). pose proof (blen_nonneg data).
  pose proof (ROUNDUP_bounds (blen key) ltac:(lia)). pose proof (ROUNDUP_bounds (blen data) ltac:(lia)).
  lia.
Qed.

Lemma rec_data_at : rec_data m off = Ok data.
Proof using Hat Hwf.
  unfold rec_data, DATA. rewrite DATALEN_at, KEYLEN_at. cbn [mbind result_bind].
  replace (off + 8 + ROUNDUP (blen key) + 4) with (off + 12 + ROUNDUP (blen key)) by lia.
  apply slice_at; [apply parts|]. pose proof rec_end as H. unfold rsize in H.
  destruct Hwf as (_ & Hk & Hd & _). unfold is_off in *.
  pose proof (blen_nonneg key). pose proof (blen_nonneg data).
  pose proof (ROUNDUP_bounds (blen data) ltac:(lia)).
  lia.
Qed.

Lemma PTR_at i : PTR m off i = Ok (off + 12 + ROUNDUP (blen key) + ROUNDUP (blen data) + 4 * i).
Proof using Hat Hwf. unfold PTR. by rewrite FIRSTPTR_at. Qed.

Lemma FORWARD_at (i : nat) v : ps !! i = Some v → FORWARD m off (Z.of_nat i) = Ok v.
Proof using Hat Hwf.
  intros Hi. unfold FORWARD. rewrite PTR_at. cbn [mbind result_bind].
  destruct parts as (_ & _ & _ & _ & _ & Hp & _).
  pose proof (take_drop_middle ps i v Hi) as Hs. rewrite <- Hs in Hp.
  rewrite fmap_app, fmap_cons, mjoin_app, mjoin_cons in Hp.
  apply bytes_at_app in Hp as [_ Hp]. apply bytes_at_app in Hp as [Hp _].
  rewrite blen_words, length_take_le in Hp by (apply lookup_lt_Some in Hi; lia).
  rewrite (rd32_be32 _ _ _ Hp). destruct Hwf as (_ & _ & _ & Hps & _).
  assert (is_off v) as Hv by (by eapply Forall_lookup_1). unfold is_off in Hv.
  by rewrite to_u32_small by (unfold is_u32; lia).
Qed.

#[local] Lemma level_loop_at n fuel k :
  (n + k = length ps)%nat → (k < fuel)%nat →
  level_loop fuel m (off + 12 + ROUNDUP (blen key) + ROUNDUP (blen data) + 4 * Z.of_nat n) (Z.of_nat n)
    = Ok (Z.of_nat (length ps)).
Proof using Hat Hwf.
  revert n fuel. induction k as [|k IH]; intros n fuel Hn Hf; (destruct fuel as [|fuel]; [lia|]);
    cbn [level_loop].
  - destruct parts as (_ & _ & _ & _ & _ & _ & Hp).
    replace n with (length ps) by lia. rewrite (rd32_be32 _ _ _ Hp). done.
  - destruct (lookup_lt_is_Some_2 ps n) as [v Hv]; [lia|].
    pose proof (FORWARD_at n v Hv) as Hf'. unfold FORWARD in Hf'. rewrite PTR_at in Hf'.
    cbn [mbind result_bind] in Hf'. rewrite Hf'. cbn [mbind result_bind].
    destruct Hwf as (_ & _ & _ & Hps & _).
    assert (is_off v) as Hv' by (by eapply Forall_lookup_1). unfold is_off in Hv'.
    destruct (Z.eqb_spec v MINUS1) as [->|_]; [unfold MINUS1 in *; lia|].
    rewrite <- (IH (S n) fuel) by lia. f_equal; lia.
Qed.

Lemma LEVEL_at : LEVEL m off = Ok (Z.of_nat (length ps)).
Proof using Hat Hwf.
  unfold LEVEL. rewrite TYPE_at. cbn [mbind result_bind].
  assert (c_assert ((ty =? DUMMY) || (ty =? INORDER) || (ty =? ADD)) = Ok tt) as ->.
  { destruct Hwf as [Ht _]. by destruct Ht as [->|[->| ->]]. }
  cbn [mbind result_bind]. rewrite FIRSTPTR_at. cbn [mbind result_bind].
  pose proof (level_loop_at 0 (S (length m)) (length ps) ltac:(lia)) as H.
  rewrite Z.mul_0_r, Z.add_0_r in H. apply H.
  pose proof rec_end as He. unfold rsize in He. destruct Hwf as (_ & Hk & Hd & _).
  unfold is_off in *. pose proof (blen_nonneg key). pose proof (blen_nonneg data).
  pose proof (ROUNDUP_bounds (blen key) ltac:(lia)). pose proof (ROUNDUP_bounds (blen data) ltac:(lia)).
  destruct Hat as [Hoff _]. unfold blen in He at 3. lia.
Qed.

Lemma RECSIZE_at : rsize key data (length ps) < 2147483648 → RECSIZE m off = Ok (rsize key data (length ps)).
Proof using Hat Hwf.
  intros Hs. unfold RECSIZE. rewrite TYPE_at. cbn [mbind result_bind].
  assert ((ty =? DUMMY) || (ty =? INORDER) || (ty =? ADD) = true) as ->.
  { destruct Hwf as [Ht _]. by destruct Ht as [->|[->| ->]]. }
  rewrite KEYLEN_at; cbn [mbind result_bind]. rewrite DATALEN_at; cbn [mbind result_bind].
  rewrite LEVEL_at; cbn [mbind result_bind]. f_equal.
  destruct Hwf as (_ & Hk & Hd & _).
  unfold is_off in *. pose proof (blen_nonneg key). pose proof (blen_nonneg data).
  pose proof (ROUNDUP_bounds (blen key) ltac:(lia)). pose proof (ROUNDUP_bounds (blen data) ltac:(lia)).
  unfold rsize in *. rewrite to_s32_small by (unfold is_s32; lia). lia.
Qed.
End Record.

(** ** Entries by offset *)

Fixpoint ent (base : Z) (es : list entry) (off : Z) : option entry :=
  match es with
  | [] => None
  | e :: es' => if off =? base then Some e else ent (base + esize e) es' off
  end.

Fixpoint upd (base : Z) (es : list entry) (off : Z) (f : entry → entry) : list entry :=
  match es with
  | [] => []
  | e :: es' => if off =? base then f e :: es' else e :: upd (base + esize e) es' off f
  end.

(** The [i]-th pointer of the record at [p], and its change to [v]. *)
Definition ptrs_of (e : entry) : list Z := match e with ERec _ _ _ ps => ps | _ => [] end.
Definition eset (i : nat) (v : Z) (e : entry) : entry :=
  match e with ERec ty k d ps => ERec ty k d (<[i := v]> ps) | e => e end.
Definition ptrs (es : list entry) (p : Z) : list Z :=
  match ent DUMMY_OFFSET es p with Some e => ptrs_of e | None => [] end.
Definition fwd (es : list entry) (p : Z) (i : nat) : option Z := ptrs es p !! i.
Definition setp (es : list entry) (p : Z) (i : nat) (v : Z) : list entry :=
  upd DUMMY_OFFSET es p (eset i v).

Lemma ent_range base es off e : ent base es off = Some e → base ≤ off ∧ off + esize e ≤ base + lsize es.
Proof.
  revert base. induction es as [|e' es IH]; intros base; cbn [ent]; [done|]. rewrite lsize_cons.
  pose proof (lsize_nonneg es). pose proof (esize_pos e').
  destruct (Z.eqb_spec off base) as [->|_]; [intros [= ->]; lia|].
  intros H'%IH. lia.
Qed.

Lemma ent_split base es off e :
  ent base es off = Some e → ∃ pre post, es = pre ++ e :: post ∧ off = base + lsize pre.
Proof.
  revert base. induction es as [|e' es IH]; intros base; cbn [ent]; [done|].
  destruct (Z.eqb_spec off base) as [->|_].
  - intros [= ->]. exists [], es. split; [done|]. cbn. lia.
  - intros (pre & post & -> & ->)%IH. exists (e' :: pre), post. split; [done|].
    rewrite lsize_cons. lia.
Qed.

Lemma ent_here base pre e post : ent base (pre ++ e :: post) (base + lsize pre) = Some e.
Proof.
  revert base. induction pre as [|e' pre IH]; intros base; cbn [app ent].
  - cbn. by rewrite Z.add_0_r, Z.eqb_refl.
  - rewrite lsize_cons. pose proof (esize_pos e'). pose proof (lsize_nonneg pre).
    destruct (Z.eqb_spec (base + (esize e' + lsize pre)) base); [lia|].
    rewrite Z.add_assoc. apply IH.
Qed.

Lemma ent_app base es1 es2 off :
  ent base (es1 ++ es2) off =
    match ent base es1 off with Some e => Some e | None => ent (base + lsize es1) es2 off end.
Proof.
  revert base. induction es1 as [|e es IH]; intros base; cbn [app ent].
  - by rewrite Z.add_0_r.
  - destruct (off =? base); [done|]. rewrite IH, lsize_cons. by rewrite Z.add_assoc.
Qed.

Lemma ent_app_l base es1 es2 off e : ent base es1 off = Some e → ent base (es1 ++ es2) off = Some e.
Proof. intros H. by rewrite ent_app, H. Qed.

Lemma ent_end base es : ent base es (base + lsize es) = None.
Proof.
  destruct (ent base es (base + lsize es)) eqn:He; [|done].
  apply ent_range in He. pose proof (esize_pos e). lia.
Qed.

Lemma esize_eset i v e : esize (eset i v e) = esize e.
Proof.
  destruct e; try done. unfold esize, eset, ebytes, rec_bytes.
  autorewrite with blen. by rewrite !blen_words, length_insert.
Qed.

Section Upd.
Context (f : entry → entry) (Hf : ∀ e, esize (f e) = esize e).

Lemma lsize_upd base es off : lsize (upd base es off f) = lsize es.
Proof using Hf.
  revert base. induction es as [|e es IH]; intros base; cbn [upd]; [done|].
  destruct (off =? base); rewrite !lsize_cons; [by rewrite Hf|by rewrite IH].
Qed.

Lemma ent_upd base es off off' :
  ent base (upd base es off f) off' = if off' =? off then f <$> ent base es off' else ent base es off'.
Proof using Hf.
  revert base. induction es as [|e es IH]; intros base; cbn [upd ent].
  - by destruct (off' =? off).
  - destruct (Z.eqb_spec off base) as [->|Hne]; cbn [ent].
    + destruct (Z.eqb_spec off' base) as [->|]; [done|]. by rewrite Hf.
    + destruct (Z.eqb_spec off' base) as [->|]; [|apply IH].
      destruct (Z.eqb_spec base off); [lia|done].
Qed.
End Upd.

Lemma upd_split base pre e post f :
  upd base (pre ++ e :: post) (base + lsize pre) f = pre ++ f e :: post.
Proof.
  revert base. induction pre as [|e' pre IH]; intros base; cbn [app upd].
  - cbn. by rewrite Z.add_0_r, Z.eqb_refl.
  - rewrite lsize_cons. pose proof (esize_pos e'). pose proof (lsize_nonneg pre).
    destruct (Z.eqb_spec (base + (esize e' + lsize pre)) base); [lia|].
    by rewrite Z.add_assoc, IH.
Qed.

Lemma upd_none base es off f : ent base es off = None → upd base es off f = es.
Proof.
  revert base. induction es as [|e es IH]; intros base; cbn [ent upd]; [done|].
  destruct (off =? base); [done|]. intros H. by rewrite IH.
Qed.

Lemma upd_app_l base es1 es2 off f e :
  ent base es1 off = Some e → upd base (es1 ++ es2) off f = upd base es1 off f ++ es2.
Proof.
  intros (pre & post & -> & ->)%ent_split. rewrite <- app_assoc, <- app_comm_cons, !upd_split.
  by rewrite <- app_assoc, <- app_comm_cons.
Qed.

(** ** The bytes of the file *)

Lemma ser_at h es off e : ent DUMMY_OFFSET es off = Some e → bytes_at (ser h es) off (ebytes e).
Proof.
  intros (pre & post & -> & ->)%ent_split. unfold ser.
  rewrite fmap_app, fmap_cons, mjoin_app, mjoin_cons.
  rewrite app_assoc. replace (DUMMY_OFFSET + lsize pre)
    with (blen (header_bytes h ++ mjoin (ebytes <$> pre))).
  - apply bytes_at_here.
  - rewrite blen_app, blen_entries. done.
Qed.

(** Writing a pointer word changes that pointer of the record. *)
Lemma serz_setp z es off ty k d ps i v w :
  blen z = 48 → ent DUMMY_OFFSET es off = Some (ERec ty k d ps) → wf_entry (ERec ty k d ps) → ps !! i = Some w →
  wr (serz z es) (off + 12 + ROUNDUP (blen k) + ROUNDUP (blen d) + 4 * Z.of_nat i) (be32 v)
    = serz z (setp es off i v).
Proof.
  intros Hz He (_ & Hk & Hd & _) Hi. unfold setp.
  destruct (ent_split _ _ _ _ He) as (pre & post & -> & ->). rewrite upd_split.
  unfold serz. rewrite !fmap_app, !fmap_cons, !mjoin_app, !mjoin_cons. cbn [eset ebytes].
  unfold rec_bytes.
  rewrite <- (take_drop_middle ps i w Hi) at 1.
  rewrite insert_take_drop by (by apply lookup_lt_Some in Hi).
  rewrite !fmap_app, !fmap_cons, !mjoin_app, !mjoin_cons.
  set (ws1 := mjoin (be32 <$> take i ps)). set (ws2 := mjoin (be32 <$> drop (S i) ps)).
  set (A := z ++ mjoin (ebytes <$> pre) ++ be32 ty ++ be32 (blen k) ++ padded k ++
              be32 (blen d) ++ padded d ++ ws1).
  assert (blen A = DUMMY_OFFSET + lsize pre + 12 + ROUNDUP (blen k) + ROUNDUP (blen d) + 4 * Z.of_nat i)
    as HA.
  { unfold A, ws1. autorewrite with blen. rewrite Hz, blen_entries, !blen_padded by done.
    rewrite blen_words, length_take_le by (apply lookup_lt_Some in Hi; lia).
    unfold DUMMY_OFFSET, HEADER_SIZE. lia. }
  rewrite <- HA.
  pose proof (wr_overwrite A (be32 w) (be32 v) (ws2 ++ be32 (-1) ++ mjoin (ebytes <$> post)) eq_refl) as Hw.
  unfold A in Hw |- *. rewrite <- !app_assoc in *. exact Hw.
Qed.

Lemma ser_setp h es off ty k d ps i v w :
  ent DUMMY_OFFSET es off = Some (ERec ty k d ps) → wf_entry (ERec ty k d ps) → ps !! i = Some w →
  wr (ser h es) (off + 12 + ROUNDUP (blen k) + ROUNDUP (blen d) + 4 * Z.of_nat i) (be32 v)
    = ser h (setp es off i v).
Proof. by apply (serz_setp (header_bytes h)). Qed.

(** Writing the header. *)
Lemma ser_header h h' es : wr (ser h es) 0 (header_bytes h') = ser h' es.
Proof.
  unfold ser. apply (wr_overwrite [] (header_bytes h) (header_bytes h')). reflexivity.
Qed.

Lemma ser_append h es bs : wr (ser h es) (48 + lsize es) bs = ser h es ++ bs.
Proof. rewrite <- (blen_ser h). apply wr_append. Qed.
