(* ===== verification/SkipList.v ===== *)
(** * SkipList: the linked structure in a database file

    The active records of a file form a list sorted by key, and the pointers at
    each level chain the records that reach that level.  This file is about
    that structure alone, as a function from record and level to pointer:
    chains, taking a node out, putting one in; and about the log, which
    determines the active records.

    [slist es curl maxl l]: the active records of the entries [es] are [l].
    [find_node] on such a file returns the first record not below the key and,
    for every level, the last record below it. *)
From S2P Require Import Prelude CMem Prog DbFile CyrusDb BSearch Skiplist DbOrder SkipFile.
From stdpp Require Import gmap sorting list.
#[local] Open Scope Z_scope.

(** ** Comparators

    [db->compar] is [compare] or [bsearch_ncompare]; the proofs about the list use
    only the class [KeyOrder], which both implement. *)
Lemma schar_inj x y : is_byte x → is_byte y → schar x = schar y → x = y.
Proof. unfold is_byte, schar. destruct (Z.ltb_spec x 128), (Z.ltb_spec y 128); lia. Qed.

(** Any byte may occur in a key ordered by [compare]. *)
#[export] Instance compare_order : KeyOrder compare all_bytes :=
  compare_with_order schar is_byte schar_inj.

Lemma Forall_in {A} (P : A → Prop) l x : Forall P l → x ∈ l → P x.
Proof. rewrite Forall_forall. auto. Qed.

Lemma Forall_filter {A} (P Q : A → Prop) `{∀ x, Decision (Q x)} l : Forall P l → Forall P (filter Q l).
Proof. rewrite !Forall_forall. intros H' x [_ Hx]%list_elem_of_filter. auto. Qed.

Record node := Node { n_off : Z; n_key : bytes; n_data : bytes; n_lvl : nat }.

(** ** Chains *)

Fixpoint last_off (p : Z) (l : list node) : Z :=
  match l with [] => p | n :: l' => last_off (n_off n) l' end.
Definition hd_off (l : list node) : Z := match l with n :: _ => n_off n | [] => 0 end.

Lemma last_off_cons p n l : last_off p (n :: l) = last_off (n_off n) l.
Proof. done. Qed.

Lemma last_off_app p a b : last_off p (a ++ b) = last_off (last_off p a) b.
Proof. revert p. induction a as [|n a IH]; intros p; [done|]. apply IH. Qed.

Lemma last_off_in p l : last_off p l ∈ p :: (n_off <$> l).
Proof.
  revert p. induction l as [|n l IH]; intros p; [by left|]. rewrite last_off_cons. right. apply IH.
Qed.

Section Chains.
Context (F : Z → nat → option Z) (i : nat).

(** From [p] the pointers at level [i] lead through [l]. *)
Fixpoint path (p : Z) (l : list node) : Prop :=
  match l with
  | [] => True
  | n :: l' => F p i = Some (n_off n) ∧ path (n_off n) l'
  end.

(** ... and then end. *)
Definition links (p : Z) (l : list node) : Prop := path p l ∧ F (last_off p l) i = Some 0.

Lemma path_app p a b : path p (a ++ b) ↔ path p a ∧ path (last_off p a) b.
Proof.
  revert p. induction a as [|n a IH]; intros p; cbn [app path]; [tauto|].
  rewrite IH, last_off_cons. tauto.
Qed.

Lemma links_app p a b : links p (a ++ b) ↔ path p a ∧ links (last_off p a) b.
Proof. unfold links. rewrite path_app, last_off_app. tauto. Qed.

Lemma links_hd p l : links p l → F p i = Some (hd_off l).
Proof. intros [Hp Hl]. destruct l as [|n l]; [done|]. apply Hp. Qed.

Lemma links_next p a b : links p (a ++ b) → F (last_off p a) i = Some (hd_off b).
Proof. intros [_ H]%links_app. by apply links_hd. Qed.
End Chains.

(** Two pointer functions that agree where the path leaves from. *)
Lemma path_ext F F' i p l :
  NoDup (p :: (n_off <$> l)) →
  (∀ x, x ∈ p :: (n_off <$> l) → x ≠ last_off p l → F' x i = F x i) →
  path F i p l → path F' i p l.
Proof.
  revert p. induction l as [|n l IH]; intros p Hnd Hx; cbn [path]; [done|]. intros [Hp Hl].
  rewrite last_off_cons in Hx. cbn [fmap list_fmap] in *. apply NoDup_cons in Hnd as [Hn Hnd].
  split.
  - rewrite Hx; [done|by left|]. intros ->. apply Hn. apply last_off_in.
  - apply IH; [done| |done]. intros x Hin. apply Hx. by right.
Qed.

Lemma links_ext F F' i p l :
  (∀ x, x ∈ p :: (n_off <$> l) → F' x i = F x i) → links F i p l → links F' i p l.
Proof.
  intros Hx [Hp Hl]. split; [|rewrite Hx; [done|apply last_off_in]].
  revert p Hx Hp Hl. induction l as [|n l IH]; intros p Hx; cbn [path]; [done|].
  intros [Hp Hl] Hlast. split; [rewrite Hx; [done|by left]|].
  rewrite last_off_cons in Hlast. apply IH; [|done|done]. intros x Hin. apply Hx. by right.
Qed.

(** Put [o] in between: its predecessor points to it, it to what follows. *)
Lemma links_insert F F' i p a o b :
  NoDup (p :: (n_off <$> a ++ o :: b)) → links F i p (a ++ b) →
  F' (last_off p a) i = Some (n_off o) → F' (n_off o) i = Some (hd_off b) →
  (∀ x, x ∈ p :: (n_off <$> a ++ b) → x ≠ last_off p a → F' x i = F x i) →
  links F' i p (a ++ o :: b).
Proof.
  rewrite !fmap_app, fmap_cons. intros Hnd [Ha Hb]%links_app Hp Ho Hx.
  apply links_app. split.
  - apply (path_ext F); [|intros x Hin; apply Hx|done].
    + rewrite app_comm_cons in Hnd. by apply NoDup_app in Hnd as [? _].
    + rewrite app_comm_cons. by apply elem_of_app; left.
  - assert (∀ x, x ∈ n_off <$> b → F' x i = F x i) as Hb'.
    { intros x Hin. apply Hx; [rewrite app_comm_cons; by apply elem_of_app; right|]. intros ->.
      rewrite app_comm_cons in Hnd. apply NoDup_app in Hnd as (_ & Hd & _).
      apply (Hd (last_off p a)); [apply last_off_in|by right]. }
    destruct b as [|n b].
    + split; [|rewrite last_off_cons; done]. split; done.
    + destruct Hb as [[_ Hb] Hl]. rewrite last_off_cons in Hl.
      assert (links F' i (n_off n) b) as [Hb1 Hb2].
      { apply (links_ext F); [intros x Hin; apply Hb'; done|by split]. }
      split; [|by rewrite !last_off_cons]. split; [done|]. split; done.
Qed.

(** Take [o] out: its predecessor points to what it pointed to. *)
Lemma links_remove F F' i p a o b :
  NoDup (p :: (n_off <$> a ++ o :: b)) → links F i p (a ++ o :: b) →
  F' (last_off p a) i = Some (hd_off b) →
  (∀ x, x ∈ p :: (n_off <$> a ++ b) → x ≠ last_off p a → F' x i = F x i) →
  links F' i p (a ++ b).
Proof.
  rewrite !fmap_app, fmap_cons. intros Hnd [Ha Hb]%links_app Hp Hx.
  apply links_app. split.
  - apply (path_ext F); [|intros x Hin; apply Hx|done].
    + rewrite app_comm_cons in Hnd. by apply NoDup_app in Hnd as [? _].
    + rewrite app_comm_cons. by apply elem_of_app; left.
  - assert (∀ x, x ∈ n_off <$> b → F' x i = F x i) as Hb'.
    { intros x Hin. apply Hx; [rewrite app_comm_cons; by apply elem_of_app; right|]. intros ->.
      rewrite app_comm_cons in Hnd. apply NoDup_app in Hnd as (_ & Hd & _).
      apply (Hd (last_off p a)); [apply last_off_in|by right]. }
    destruct Hb as [[_ Hb] Hl]. rewrite last_off_cons in Hl.
    destruct b as [|n b]; [by split|].
    destruct Hb as [_ Hb]. rewrite last_off_cons in Hl.
    assert (links F' i (n_off n) b) as [Hb1 Hb2].
    { apply (links_ext F); [intros x Hin; apply Hb'; done|by split]. }
    split; [|by rewrite !last_off_cons]. split; done.
Qed.

(** ** Levels and positions *)

Section Order.
Context `{KO : KeyOrder compar keyok}.

Definition at_lvl (i : nat) (l : list node) : list node := filter (λ n, (i < n_lvl n)%nat) l.
Definition below (k : bytes) (l : list node) : list node := filter (λ n, compar (n_key n) k < 0) l.
Definition above (k : bytes) (l : list node) : list node := filter (λ n, ¬ compar (n_key n) k < 0) l.

Definition node_lt (a b : node) : Prop := compar (n_key a) (n_key b) < 0.
Definition sorted (l : list node) : Prop := StronglySorted node_lt l.
Definition keys_ok (l : list node) : Prop := Forall (λ n, keyok (n_key n)) l.

Lemma at_lvl_app i a b : at_lvl i (a ++ b) = at_lvl i a ++ at_lvl i b.
Proof. apply filter_app. Qed.

Lemma at_lvl_cons i n l :
  at_lvl i (n :: l) = if decide (i < n_lvl n)%nat then n :: at_lvl i l else at_lvl i l.
Proof. unfold at_lvl. by rewrite filter_cons. Qed.

Lemma at_lvl_0 l : Forall (λ n, (1 ≤ n_lvl n)%nat) l → at_lvl 0 l = l.
Proof.
  induction 1 as [|n l Hn _ IH]; [done|]. rewrite at_lvl_cons, decide_True by lia. by rewrite IH.
Qed.

Lemma at_lvl_high i l : Forall (λ n, (n_lvl n ≤ i)%nat) l → at_lvl i l = [].
Proof.
  induction 1 as [|n l Hn _ IH]; [done|]. rewrite at_lvl_cons, decide_False by lia. done.
Qed.

Lemma elem_at_lvl i n l : n ∈ at_lvl i l ↔ (i < n_lvl n)%nat ∧ n ∈ l.
Proof. unfold at_lvl. by rewrite list_elem_of_filter. Qed.

Lemma at_lvl_below i k l : at_lvl i (below k l) = below k (at_lvl i l).
Proof.
  unfold at_lvl, below. rewrite !list_filter_filter. apply list_filter_iff. intros; cbn; tauto.
Qed.
Lemma at_lvl_above i k l : at_lvl i (above k l) = above k (at_lvl i l).
Proof.
  unfold at_lvl, above. rewrite !list_filter_filter. apply list_filter_iff. intros; cbn; tauto.
Qed.

Lemma sorted_filter P `{∀ n, Decision (P n)} l : sorted l → sorted (filter P l).
Proof.
  induction 1 as [|n l Hs IH Hn]; [constructor|]. rewrite filter_cons. destruct (decide (P n)); [|done].
  constructor; [done|]. apply Forall_forall. intros x [_ Hx]%list_elem_of_filter.
  by eapply Forall_forall in Hn.
Qed.

Lemma below_all k l : Forall (λ n, compar (n_key n) k < 0) l → below k l = l.
Proof. induction 1 as [|n l Hn _ IH]; [done|]. unfold below in *. by rewrite filter_cons_True, IH. Qed.
Lemma below_none k l : Forall (λ n, ¬ compar (n_key n) k < 0) l → below k l = [].
Proof. induction 1 as [|n l Hn _ IH]; [done|]. unfold below in *. by rewrite filter_cons_False, IH. Qed.
Lemma above_all k l : Forall (λ n, ¬ compar (n_key n) k < 0) l → above k l = l.
Proof. induction 1 as [|n l Hn _ IH]; [done|]. unfold above in *. by rewrite filter_cons_True, IH. Qed.
Lemma above_none k l : Forall (λ n, compar (n_key n) k < 0) l → above k l = [].
Proof.
  induction 1 as [|n l Hn _ IH]; [done|]. unfold above in *.
  rewrite filter_cons_False, IH by tauto. done.
Qed.

Lemma below_app k a b : below k (a ++ b) = below k a ++ below k b.
Proof. apply filter_app. Qed.
Lemma above_app k a b : above k (a ++ b) = above k a ++ above k b.
Proof. apply filter_app. Qed.

(** Comparison is transitive through "not less" as well. *)
Lemma not_lt_trans a b k :
  keyok a → keyok k → compar a b < 0 → ¬ compar a k < 0 → ¬ compar b k < 0.
Proof using KO.
  intros Ha Hk Hab Hak Hbk. destruct (decide (compar a k = 0)) as [E%ko_eq|Hne]; [|done|done|].
  - subst. apply ko_sym in Hab. lia.
  - assert (compar k a < 0) as Hka by (apply ko_sym; lia).
    apply Hak. by apply (ko_trans _ b).
Qed.

(** The active records fall into those below a key and the rest. *)
Lemma sorted_split k l : sorted l → keys_ok l → keyok k → l = below k l ++ above k l.
Proof using KO.
  intros Hs Hk Hkk. induction Hs as [|n l Hs IH Hn]; [done|].
  inversion_clear Hk as [|?? Hkn Hkl]. specialize (IH Hkl).
  destruct (decide (compar (n_key n) k < 0)) as [Hlt|Hge].
  - unfold below, above in *. rewrite filter_cons_True, filter_cons_False by tauto.
    cbn [app]. by f_equal.
  - assert (Forall (λ x, ¬ compar (n_key x) k < 0) (n :: l)) as Hall.
    { constructor; [done|]. eapply Forall_impl; [exact Hn|]. intros x Hx. by eapply not_lt_trans. }
    by rewrite below_none, above_all by done.
Qed.

Lemma sorted_app a b :
  sorted (a ++ b) ↔ sorted a ∧ sorted b ∧ Forall (λ x, Forall (node_lt x) b) a.
Proof.
  induction a as [|n a IH]; cbn [app].
  - split; [intros; split_and!; [constructor|done|constructor]|by intros (_ & ? & _)].
  - split.
    + inversion_clear 1 as [|?? Hs Hn]. apply IH in Hs as (? & ? & ?).
      apply Forall_app in Hn as [? ?]. split_and!; auto; by constructor.
    + intros (Ha & Hb & Hab). inversion_clear Ha. inversion_clear Hab.
      constructor; [apply IH; split_and!; auto|]. by apply Forall_app.
Qed.

(** The smallest record that is not below [k] has the key [k], or none has. *)
Lemma above_cases k l :
  sorted l → keys_ok l → keyok k →
  (∃ n b, above k l = n :: b ∧ n_key n = k) ∨
  (Forall (λ n, n_key n ≠ k) l ∧ ∀ n b, above k l = n :: b → compar (n_key n) k ≠ 0).
Proof using KO.
  intros Hs Hok Hk.
  assert (∀ n, n ∈ l → compar (n_key n) k = 0 ↔ n_key n = k) as Heq.
  { intros n Hn. apply ko_eq; [|done]. by eapply Forall_forall in Hok. }
  destruct (above k l) as [|n b] eqn:Ha.
  - right. split; [|done]. apply Forall_forall. intros n Hn E.
    assert (n ∈ above k l) as Hin; [|rewrite Ha in Hin; by apply elem_of_nil in Hin].
    apply list_elem_of_filter. split; [|done]. apply Heq in E; [|done]. lia.
  - assert (n ∈ l) as Hnl.
    { assert (n ∈ above k l) as [_ ?]%list_elem_of_filter; [rewrite Ha; by left|done]. }
    destruct (decide (n_key n = k)) as [E|Hne]; [left; eauto|right].
    assert (compar (n_key n) k ≠ 0) as Hc by (rewrite (Heq n); done).
    split; [|by intros ?? [= <- <-]].
    apply Forall_forall. intros x Hx E. apply (Heq x) in E; [|done].
    assert (x ∈ above k l) as Hin by (apply list_elem_of_filter; split; [lia|done]).
    rewrite Ha in Hin. apply elem_of_cons in Hin as [->|Hin]; [done|].
    assert (sorted (n :: b)) as Hs' by (rewrite <- Ha; by apply sorted_filter).
    inversion_clear Hs' as [|?? _ Hb]. eapply Forall_forall in Hb; [|exact Hin].
    apply Heq in E; [|done]. unfold node_lt in Hb. rewrite E in Hb.
    assert (n ∈ above k l) as [Hnk _]%list_elem_of_filter; [rewrite Ha; by left|done].
Qed.
End Order.

(** ** Pointers of a serialized file *)

Definition wf_file (es : list entry) : Prop :=
  Forall wf_entry es ∧ DUMMY_OFFSET + lsize es < 2147483648.

Lemma fwd_ent es p i v :
  fwd es p i = Some v →
  ∃ ty k d ps, ent DUMMY_OFFSET es p = Some (ERec ty k d ps) ∧ ps !! i = Some v.
Proof.
  unfold fwd, ptrs. destruct (ent DUMMY_OFFSET es p) as [[ty k d ps|?|]|]; cbn [ptrs_of]; try done.
  eauto 10.
Qed.

Lemma ent_fwd es p ty k d ps i :
  ent DUMMY_OFFSET es p = Some (ERec ty k d ps) → fwd es p i = ps !! i.
Proof. unfold fwd, ptrs. by intros ->. Qed.

Lemma wf_ent es p e : wf_file es → ent DUMMY_OFFSET es p = Some e → wf_entry e.
Proof.
  intros [Hwf _] (pre & post & -> & _)%ent_split. apply Forall_app in Hwf as [_ Hwf].
  by inversion_clear Hwf.
Qed.

Lemma ent_off es p e : wf_file es → ent DUMMY_OFFSET es p = Some e → is_off p ∧ DUMMY_OFFSET ≤ p.
Proof.
  intros [_ Hs] H%ent_range. pose proof (esize_pos e). unfold is_off, DUMMY_OFFSET, HEADER_SIZE in *. lia.
Qed.

Lemma fwd_off es p i v : wf_file es → fwd es p i = Some v → is_off v.
Proof.
  intros Hwf (ty & k & d & ps & He & Hi)%fwd_ent. apply (wf_ent _ _ _ Hwf) in He as (_ & _ & _ & Hps & _).
  by eapply Forall_lookup_1.
Qed.

Lemma FORWARD_fwd h es p i v :
  wf_file es → fwd es p i = Some v → FORWARD (ser h es) p (Z.of_nat i) = Ok v.
Proof.
  intros Hwf (ty & k & d & ps & He & Hi)%fwd_ent.
  eapply FORWARD_at; [by apply (ser_at h _ _ _ He)|by eapply wf_ent|done].
Qed.

(** ** The invariant *)

Definition is_node (es : list entry) (n : node) : Prop :=
  ∃ ty ps, ent DUMMY_OFFSET es (n_off n) = Some (ERec ty (n_key n) (n_data n) ps)
    ∧ (ty = INORDER ∨ ty = ADD) ∧ length ps = n_lvl n.

Section Inv.
Context `{KO : KeyOrder compar keyok}.

Abbreviation below := (below (compar := compar)).
Abbreviation above := (above (compar := compar)).
Abbreviation sorted := (sorted (compar := compar)).
Abbreviation keys_ok := (keys_ok (keyok := keyok)).

(** The records of [l] are in the file; the head reaches every level; no
    record is higher than [curl]. *)
Record nodes_ok (es : list entry) (curl maxl : nat) (l : list node) : Prop := {
  no_sorted : sorted l;
  no_keys : keys_ok l;
  no_nodes : Forall (is_node es) l;
  no_lvl : Forall (λ n, (1 ≤ n_lvl n ≤ curl)%nat) l;
  no_dummy : ∃ ps, ent DUMMY_OFFSET es DUMMY_OFFSET = Some (ERec DUMMY [] [] ps) ∧ length ps = maxl;
  no_curl : (1 ≤ curl ≤ maxl)%nat ∧ (maxl ≤ 20)%nat;
}.

Record slist (es : list entry) (curl maxl : nat) (l : list node) : Prop := {
  sk_nodes : nodes_ok es curl maxl l;
  sk_links : ∀ i, (i < maxl)%nat → links (fwd es) i DUMMY_OFFSET (at_lvl i l);
}.

(** Keys determine offsets and the other way round. *)
Lemma node_off_inj es a b :
  is_node es a → is_node es b → n_off a = n_off b → n_key a = n_key b.
Proof. intros (? & ? & Ha & _) (? & ? & Hb & _) E. rewrite E in Ha. congruence. Qed.

Lemma offs_nodup es curl maxl l : nodes_ok es curl maxl l → NoDup (DUMMY_OFFSET :: (n_off <$> l)).
Proof using KO.
  intros [Hs Hk Hn _ (ps & Hd & _) _]. constructor.
  - intros (n & Hoff & Hin)%list_elem_of_fmap. destruct (Forall_in _ _ _ Hn Hin) as (ty & qs & He & Hty & _).
    rewrite <- Hoff, Hd in He. injection He as <- _ _. destruct Hty; done.
  - induction Hs as [|n l Hs IH Hlt]; [constructor|]. inversion_clear Hk as [|?? Hkn Hkl].
    inversion_clear Hn as [|?? Hnn Hnl]. cbn. constructor; [|by apply IH].
    intros (x & Hoff & Hin)%list_elem_of_fmap.
    pose proof (Forall_in _ _ _ Hlt Hin) as Hx. pose proof (Forall_in _ _ _ Hnl Hin) as Hnx.
    pose proof (node_off_inj _ _ _ Hnn Hnx Hoff) as E. unfold node_lt in Hx. rewrite <- E in Hx.
    assert (compar (n_key n) (n_key n) = 0) by by apply ko_eq. lia.
Qed.

Lemma nodes_few es curl maxl l h : nodes_ok es curl maxl l → (length l < length (ser h es))%nat.
Proof using KO.
  intros H. pose proof (offs_nodup _ _ _ _ H) as Hnd.
  assert (DUMMY_OFFSET :: (n_off <$> l) ⊆+ seqZ 48 (lsize es)) as Hsub%submseteq_length.
  { apply NoDup_submseteq; [done|]. intros x Hx. apply elem_of_seqZ.
    assert (∃ e, ent DUMMY_OFFSET es x = Some e) as [e He%ent_range].
    { apply elem_of_cons in Hx as [->|(n & -> & Hin)%list_elem_of_fmap].
      - destruct (no_dummy _ _ _ _ H) as (? & ? & _). eauto.
      - destruct (Forall_in _ _ _ (no_nodes _ _ _ _ H) Hin) as (? & ? & ? & _). eauto. }
    pose proof (esize_pos e). unfold DUMMY_OFFSET, HEADER_SIZE in *. lia. }
  cbn [length] in Hsub. rewrite length_fmap, length_seqZ in Hsub.
  pose proof (blen_ser h es) as Hb. unfold blen in Hb. pose proof (lsize_nonneg es). lia.
Qed.

(** The last record below [k] that reaches level [i]. *)
Definition prev_off (k : bytes) (l : list node) (i : nat) : Z :=
  last_off DUMMY_OFFSET (at_lvl i (below k l)).
Definition prev_offs (k : bytes) (l : list node) (maxl : nat) : list Z := prev_off k l <$> seq 0 maxl.

Lemma below_sorted k l : sorted l → sorted (below k l).
Proof. apply sorted_filter. Qed.

(** ** [find_node] *)

Lemma find_forward_ok h es k i fuel p l :
  wf_file es → links (fwd es) i p l → Forall (is_node es) l → sorted l → keys_ok l → keyok k →
  (length l < fuel)%nat →
  find_forward compar fuel (ser h es) k p (Z.of_nat i) = Ok (last_off p (below k l)).
Proof using KO.
  intros Hwf Hl Hn Hs Hk Hkk. revert p fuel Hl. induction Hs as [|n l Hs IH Hlt];
    intros p fuel Hl Hf; (destruct fuel as [|fuel]; [cbn in Hf; lia|]); cbn [find_forward].
  - apply links_hd in Hl. cbn [hd_off] in Hl. by rewrite (FORWARD_fwd _ _ _ _ _ Hwf Hl).
  - pose proof (links_hd _ _ _ _ Hl) as Hp. rewrite (FORWARD_fwd _ _ _ _ _ Hwf Hp).
    cbn [mbind result_bind hd_off]. inversion_clear Hn as [|?? Hnn Hnl]. inversion_clear Hk as [|?? Hkn Hkl].
    pose proof Hnn as (ty & ps & He & _ & _).
    pose proof (ent_off _ _ _ Hwf He) as [Ho Ho']. unfold is_off in Ho.
    rewrite to_s32_small by (unfold is_s32; lia).
    destruct (Z.eqb_spec (n_off n) 0); [unfold DUMMY_OFFSET, HEADER_SIZE in *; lia|].
    rewrite (rec_key_at _ _ _ _ _ _ (ser_at h _ _ _ He) (wf_ent _ _ _ Hwf He)).
    cbn [mbind result_bind]. destruct (Z.ltb_spec (compar (n_key n) k) 0) as [Hlk|Hge].
    + rewrite IH; [|done|done| |cbn in Hf; lia].
      * f_equal. unfold SkipList.below. by rewrite filter_cons_True by done.
      * destruct Hl as [[_ Hl1] Hl2]. by split.
    + rewrite below_none; [done|]. constructor; [lia|].
      eapply Forall_impl; [exact Hlt|]. intros x Hx. eapply not_lt_trans; [exact Hkn|done|exact Hx|lia].
Qed.

(** One level down: the walk goes on from where it was. *)
Lemma find_step h es curl maxl l k i :
  wf_file es → slist es curl maxl l → keyok k → (i < maxl)%nat →
  find_forward compar (length (ser h es)) (ser h es) k (prev_off k l (S i)) (Z.of_nat i) = Ok (prev_off k l i).
Proof using KO.
  intros Hwf Hsk Hk Hi. pose proof (sk_nodes _ _ _ _ Hsk) as Hno.
  pose proof (sk_links _ _ _ _ Hsk i Hi) as Hl.
  pose proof (no_sorted _ _ _ _ Hno) as Hs. pose proof (no_keys _ _ _ _ Hno) as Hko.
  pose proof (no_nodes _ _ _ _ Hno) as Hn.
  pose proof (nodes_few _ _ _ _ h (sk_nodes _ _ _ _ Hsk)) as Hfew.
  pose proof (sorted_split k l Hs Hko Hk) as Hsplit. unfold prev_off.
  destruct (at_lvl (S i) (below k l)) as [|x a _] eqn:Ea using rev_ind.
  - cbn [last_off]. rewrite at_lvl_below. apply find_forward_ok; auto.
    + by apply Forall_filter.
    + by apply sorted_filter.
    + by apply Forall_filter.
    + pose proof (length_filter (λ n, (i < n_lvl n)%nat) l). unfold at_lvl. lia.
  - rewrite last_off_app. cbn [last_off].
    assert (x ∈ at_lvl (S i) (below k l)) as [Hxl Hx]%elem_at_lvl.
    { rewrite Ea. apply elem_of_app. right. by left. }
    apply list_elem_of_split in Hx as (b & c & Hb). rewrite Hb in *.
    assert (at_lvl i (b ++ x :: c) = at_lvl i b ++ x :: at_lvl i c) as Hbx.
    { rewrite at_lvl_app, at_lvl_cons, decide_True by lia. done. }
    rewrite Hbx, last_off_app, last_off_cons.
    rewrite Hsplit, at_lvl_app, Hbx, <- app_assoc in Hl. cbn [app] in Hl.
    apply links_app in Hl as [_ [[_ Hl1] Hl2]].
    assert (Forall (λ n, compar (n_key n) k < 0) (b ++ x :: c)) as Hbel.
    { rewrite <- Hb. apply Forall_forall. by intros ? [? _]%list_elem_of_filter. }
    assert (below k (at_lvl i c ++ at_lvl i (above k l)) = at_lvl i c) as Hbc.
    { rewrite below_app, below_all, below_none, app_nil_r; [done| |].
      - apply Forall_filter, Forall_forall. by intros ? [? _]%list_elem_of_filter.
      - apply Forall_filter. apply Forall_app in Hbel as [_ Hbel]. by inversion_clear Hbel. }
    rewrite <- Hbc.
    assert (∀ P : node → Prop, Forall P l → Forall P (at_lvl i c ++ at_lvl i (above k l))) as Hsub.
    { intros P HP. rewrite Hsplit in HP. apply Forall_app in HP as [HP1 HP2].
      apply Forall_app in HP1 as [_ HP1]. inversion_clear HP1.
      apply Forall_app; split; by apply Forall_filter. }
    apply find_forward_ok; auto.
    + split; [exact Hl1|exact Hl2].
    + rewrite <- at_lvl_app. apply sorted_filter. rewrite Hsplit in Hs.
      apply sorted_app in Hs as (Hs1 & Hs2 & Hs3). apply sorted_app in Hs1 as (_ & Hs1 & _).
      apply sorted_app. split_and!; [by inversion_clear Hs1|done|].
      apply Forall_app in Hs3 as [_ Hs3]. by inversion_clear Hs3.
    + apply Hsub. exact Hko.
    + rewrite <- at_lvl_app. pose proof (length_filter (λ n, (i < n_lvl n)%nat) (c ++ above k l)) as H1.
      pose proof (f_equal length Hsplit) as Hlen. rewrite !length_app in *. cbn [length] in Hlen.
      unfold at_lvl. lia.
Qed.
Lemma find_levels_ok h es curl maxl l k n u :
  wf_file es → slist es curl maxl l → keyok k → (n ≤ maxl)%nat → length u = maxl →
  find_levels compar n (ser h es) k (prev_off k l n) u
    = Ok (prev_off k l 0, (prev_off k l <$> seq 0 n) ++ drop n u).
Proof using KO.
  intros Hwf Hsk Hk. revert u. induction n as [|n IH]; intros u Hn Hu; [done|].
  cbn [find_levels]. rewrite (find_step h es curl maxl) by (try done; lia).
  cbn [mbind result_bind]. unfold uset.
  destruct (Z.leb_spec 0 (Z.of_nat n)), (Z.ltb_spec (Z.of_nat n) (Z.of_nat (length u))); try lia.
  cbn [andb mbind result_bind]. rewrite IH by (rewrite ?length_insert; lia). do 2 f_equal.
  rewrite seq_S, fmap_app, <- app_assoc. f_equal. cbn.
  rewrite Nat2Z.id, drop_insert_ge by lia. rewrite Nat.sub_diag.
  destruct (lookup_lt_is_Some_2 u n) as [x Hx]; [lia|].
  rewrite (drop_S _ _ _ Hx). done.
Qed.

Lemma prev_off_high k l i : Forall (λ n, (n_lvl n ≤ i)%nat) l → prev_off k l i = DUMMY_OFFSET.
Proof. intros H. unfold prev_off. rewrite at_lvl_high; [done|]. by apply Forall_filter. Qed.

Lemma find_node_ok hd h es l k :
  wf_file es → slist es (Z.to_nat (curlevel h)) (Z.to_nat (maxlevel h)) l → keyok k →
  find_node compar (ser hd es) h k
    = Ok (hd_off (above k l), prev_offs k l (Z.to_nat (maxlevel h))).
Proof using KO.
  intros Hwf Hsk Hk. unfold find_node.
  pose proof (sk_nodes _ _ _ _ Hsk) as Hno. pose proof (no_curl _ _ _ _ Hno) as Hc.
  assert (∀ i, (Z.to_nat (curlevel h) ≤ i)%nat → prev_off k l i = DUMMY_OFFSET) as Hhigh.
  { intros i Hi. apply prev_off_high. eapply Forall_impl; [apply (no_lvl _ _ _ _ Hno)|]. cbn. lia. }
  rewrite <- (Hhigh (Z.to_nat (curlevel h))) at 1 by done.
  rewrite (find_levels_ok hd es (Z.to_nat (curlevel h)) (Z.to_nat (maxlevel h)))
    by (rewrite ?length_replicate; try done; lia).
  cbn [mbind result_bind].
  assert (fwd es (prev_off k l 0) 0 = Some (hd_off (above k l))) as Hf.
  { pose proof (sk_links _ _ _ _ Hsk 0%nat ltac:(lia)) as Hl.
    assert (Forall (λ n, (1 ≤ n_lvl n)%nat) l) as H1.
    { eapply Forall_impl; [apply (no_lvl _ _ _ _ Hno)|]. cbn. lia. }
    rewrite at_lvl_0 in Hl by done. unfold prev_off.
    rewrite at_lvl_0 by (by apply Forall_filter).
    rewrite (sorted_split k l) in Hl; [|apply (no_sorted _ _ _ _ Hno)|apply (no_keys _ _ _ _ Hno)|done].
    by apply links_next in Hl. }
  change 0 with (Z.of_nat 0) at 1. rewrite (FORWARD_fwd _ _ _ _ _ Hwf Hf).
  cbn [mbind result_bind]. do 2 f_equal. unfold prev_offs.
  rewrite drop_replicate.
  replace (Z.to_nat (maxlevel h)) with (Z.to_nat (curlevel h) + (Z.to_nat (maxlevel h) - Z.to_nat (curlevel h)))%nat
    at 2 by lia.
  rewrite seq_app, fmap_app. f_equal. apply replicate_as_Forall. split.
  - by rewrite length_fmap, length_seq.
  - apply Forall_fmap, Forall_forall. intros i Hi%elem_of_seq. cbn. rewrite Hhigh by lia. done.
Qed.

Lemma prev_offs_lookup k l maxl i : (i < maxl)%nat → prev_offs k l maxl !! i = Some (prev_off k l i).
Proof. intros H. unfold prev_offs. rewrite list_lookup_fmap, lookup_seq_lt by done. done. Qed.

Lemma uget_prev k l maxl i :
  (i < maxl)%nat → uget (prev_offs k l maxl) (Z.of_nat i) = Ok (prev_off k l i).
Proof.
  intros H. unfold uget. destruct (Z.ltb_spec (Z.of_nat i) 0); [lia|].
  by rewrite Nat2Z.id, prev_offs_lookup.
Qed.
End Inv.
