(* ===== verification/SkipStep.v ===== *)
(** * SkipStep: adding and deleting on the list of entries

    What a store or a delete does to the entries of a file: pointer changes and
    one more entry of the log.  Both preserve the invariant, and both can be
    undone exactly. *)
From S2P Require Import Prelude CMem Prog DbFile CyrusDb BSearch Skiplist DbOrder SkipFile SkipList.
From stdpp Require Import gmap sorting list.
#[local] Open Scope Z_scope.

(** ** Entries up to their pointers *)

Definition eshape (e : entry) : entry :=
  match e with ERec ty k d ps => ERec ty k d (replicate (length ps) 0) | e => e end.
Definition shape (es : list entry) : list entry := eshape <$> es.

Lemma esize_eshape e : esize (eshape e) = esize e.
Proof.
  destruct e; try done. unfold esize. cbn [eshape ebytes]. unfold rec_bytes.
  autorewrite with blen. by rewrite !blen_words, length_replicate.
Qed.

Lemma eshape_esize e e' : eshape e = eshape e' → esize e = esize e'.
Proof. intros H. by rewrite <- (esize_eshape e), H, esize_eshape. Qed.

Lemma shape_lsize es es' : shape es = shape es' → lsize es = lsize es'.
Proof.
  revert es'. induction es as [|e es IH]; intros [|e' es']; try done.
  intros [= He Hes]. rewrite !lsize_cons, (eshape_esize _ _ He). by rewrite (IH es').
Qed.

Lemma shape_ent base es es' p e :
  shape es = shape es' → ent base es p = Some e → ∃ e', ent base es' p = Some e' ∧ eshape e = eshape e'.
Proof.
  revert base es'. induction es as [|a es IH]; intros base [|a' es']; try done.
  intros [= Ha Hes]. cbn [ent]. rewrite (eshape_esize _ _ Ha). destruct (p =? base).
  - intros [= ->]. eauto.
  - by apply IH.
Qed.

Lemma shape_rec es es' p ty k d ps :
  shape es = shape es' → ent DUMMY_OFFSET es p = Some (ERec ty k d ps) →
  ∃ ps', ent DUMMY_OFFSET es' p = Some (ERec ty k d ps') ∧ length ps' = length ps.
Proof.
  intros Hs (e' & He' & E)%(shape_ent _ _ _ _ _ Hs). destruct e'; try done.
  injection E as -> -> -> E. exists ptrs. split; [done|].
  apply (f_equal length) in E. by rewrite !length_replicate in E.
Qed.

Lemma shape_app es1 es2 : shape (es1 ++ es2) = shape es1 ++ shape es2.
Proof. apply fmap_app. Qed.

Lemma shape_upd base es p i v : shape (upd base es p (eset i v)) = shape es.
Proof.
  revert base. induction es as [|e es IH]; intros base; [done|]. cbn [upd].
  destruct (p =? base); cbn; [|by f_equal]. f_equal. destruct e; [|done..]. cbn.
  by rewrite length_insert.
Qed.

(** A list of entries is its shape and its pointers. *)
Lemma ent_ptrs_ext base es es' :
  shape es = shape es' →
  (∀ p, ptrs_of <$> ent base es p = ptrs_of <$> ent base es' p) → es = es'.
Proof.
  revert base es'. induction es as [|e es IH]; intros base [|e' es']; try done.
  intros [= He Hes] Hp. f_equal.
  - pose proof (Hp base) as H. cbn [ent] in H. rewrite Z.eqb_refl in H. injection H as H.
    destruct e, e'; cbn in *; try done; congruence.
  - apply (IH (base + esize e)); [done|]. intros p.
    destruct (decide (base + esize e ≤ p)) as [Hle|Hlt].
    + specialize (Hp p). cbn [ent] in Hp. rewrite <- (eshape_esize _ _ He) in Hp.
      pose proof (esize_pos e). destruct (Z.eqb_spec p base); [lia|done].
    + assert (∀ l, ent (base + esize e) l p = None) as Hn.
      { intros l. destruct (ent _ l p) eqn:E; [|done]. apply ent_range in E. lia. }
      by rewrite !Hn.
Qed.

Lemma es_ext es es' :
  shape es = shape es' → (∀ p i, fwd es p i = fwd es' p i) → es = es'.
Proof.
  intros Hs Hf. apply (ent_ptrs_ext DUMMY_OFFSET); [done|]. intros p.
  destruct (ent DUMMY_OFFSET es p) as [e|] eqn:E.
  - destruct (shape_ent _ _ _ _ _ Hs E) as (e' & E' & _). rewrite E'. cbn. f_equal.
    apply list_eq. intros i. specialize (Hf p i). unfold fwd, ptrs in Hf. by rewrite E, E' in Hf.
  - destruct (ent DUMMY_OFFSET es' p) as [e'|] eqn:E'; [|done].
    destruct (shape_ent _ _ _ _ _ (eq_sym Hs) E') as (e & Ee & _). congruence.
Qed.

(** ** Setting pointers *)

(** Pointer [i] of [g i] becomes [v i], for [i] below [n]. *)
Fixpoint setps (es : list entry) (n : nat) (g v : nat → Z) : list entry :=
  match n with O => es | S n' => setp (setps es n' g v) (g n') n' (v n') end.

Lemma shape_setp es p i v : shape (setp es p i v) = shape es.
Proof. apply shape_upd. Qed.

Lemma shape_setps es n g v : shape (setps es n g v) = shape es.
Proof. induction n as [|n IH]; [done|]. cbn [setps]. by rewrite shape_setp. Qed.

Lemma fwd_setp es p i v q j w :
  fwd es p i = Some w →
  fwd (setp es p i v) q j = if decide (q = p ∧ j = i) then Some v else fwd es q j.
Proof.
  intros (ty & k & d & ps & He & Hi)%fwd_ent. unfold fwd, ptrs, setp.
  rewrite ent_upd by apply esize_eset. destruct (Z.eqb_spec q p) as [->|Hne].
  - rewrite He. cbn [fmap option_fmap option_map eset ptrs_of].
    destruct (decide (p = p ∧ j = i)) as [[_ ->]|Hn].
    + apply list_lookup_insert_eq. by eapply lookup_lt_Some.
    + apply list_lookup_insert_ne. intros ->. tauto.
  - rewrite decide_False by tauto. done.
Qed.

Lemma fwd_setps es n g v q j :
  (∀ i, (i < n)%nat → is_Some (fwd es (g i) i)) →
  fwd (setps es n g v) q j =
    if decide ((j < n)%nat ∧ q = g j) then Some (v j) else fwd es q j.
Proof.
  revert q j. induction n as [|n IH]; intros q j H; cbn [setps].
  - rewrite decide_False by lia. done.
  - destruct (H n ltac:(lia)) as [w Hw].
    rewrite (fwd_setp _ _ _ _ _ _ w).
    + rewrite IH by auto with lia. destruct (decide (q = g n ∧ j = n)) as [[-> ->]|Hn].
      * by rewrite decide_True by lia.
      * destruct (decide ((j < n)%nat ∧ q = g j)) as [[Hj ->]|Hj].
        -- by rewrite decide_True by lia.
        -- rewrite decide_False; [done|]. intros [Hj' ->].
           destruct (decide (j = n)) as [->|]; [tauto|]. apply Hj. split; [lia|done].
    + rewrite IH by auto with lia. rewrite decide_False by lia. done.
Qed.

(** Setting them back. *)
Lemma setps_restore es n g v w :
  (∀ i, (i < n)%nat → fwd es (g i) i = Some (w i)) → setps (setps es n g v) n g w = es.
Proof.
  intros H. apply es_ext; [by rewrite !shape_setps|]. intros p i.
  assert (∀ i, (i < n)%nat → is_Some (fwd es (g i) i)) as H' by (intros; rewrite H; eauto).
  rewrite fwd_setps.
  - destruct (decide _) as [[Hi ->]|Hn]; [by rewrite H|]. rewrite fwd_setps by done.
    rewrite decide_False; done.
  - intros j Hj. rewrite fwd_setps by done. rewrite decide_True by done. eauto.
Qed.

Lemma setps_ext es n g g' v v' :
  (∀ i, (i < n)%nat → g i = g' i ∧ v i = v' i) → setps es n g v = setps es n g' v'.
Proof.
  induction n as [|n IH]; intros H; [done|]. cbn [setps]. rewrite IH by auto with lia.
  destruct (H n) as [-> ->]; [lia|done].
Qed.

(** Setting them again. *)
Lemma setps_again es n g v w :
  (∀ i, (i < n)%nat → is_Some (fwd es (g i) i)) → setps (setps es n g v) n g w = setps es n g w.
Proof.
  intros H. apply es_ext; [by rewrite !shape_setps|]. intros p i.
  rewrite fwd_setps.
  - rewrite !fwd_setps by done. by destruct (decide _).
  - intros j Hj. rewrite fwd_setps by done. rewrite decide_True by done. eauto.
Qed.

Lemma setp_app es es' p i v w :
  fwd es p i = Some w → setp (es ++ es') p i v = setp es p i v ++ es'.
Proof. intros (ty & k & d & ps & He & _)%fwd_ent. unfold setp. by erewrite upd_app_l. Qed.

Lemma setps_app es es' n g v :
  (∀ i, (i < n)%nat → is_Some (fwd es (g i) i)) →
  setps (es ++ es') n g v = setps es n g v ++ es'.
Proof.
  induction n as [|n IH]; intros H; [done|]. cbn [setps]. rewrite IH by auto with lia.
  destruct (H n ltac:(lia)) as [w Hw]. eapply setp_app. rewrite fwd_setps by auto with lia.
  rewrite decide_False by lia. done.
Qed.

Lemma wf_setp es p i v : wf_file es → is_off v → wf_file (setp es p i v).
Proof.
  intros [Hwf Hs] Hv. split; [|by rewrite (shape_lsize _ es) by apply shape_setp].
  unfold setp. destruct (ent DUMMY_OFFSET es p) as [e|] eqn:E; [|by rewrite upd_none].
  apply ent_split in E as (pre & post & -> & ->). rewrite upd_split.
  apply Forall_app in Hwf as [Hpre Hwf]. inversion_clear Hwf as [|?? He Hpost].
  apply Forall_app. split; [done|]. constructor; [|done].
  destruct e as [ty k d ps|?|]; [|done..]. cbn in *. rewrite length_insert.
  destruct He as (? & ? & ? & ? & ?). split_and!; auto. by apply Forall_insert.
Qed.

Lemma wf_setps es n g v :
  wf_file es → (∀ i, (i < n)%nat → is_off (v i)) → wf_file (setps es n g v).
Proof.
  intros Hwf. induction n as [|n IH]; intros H; [done|]. cbn [setps].
  apply wf_setp; [apply IH; auto with lia|]. apply H. lia.
Qed.

Lemma wf_snoc es e :
  wf_file es → wf_entry e → DUMMY_OFFSET + lsize es + esize e < 2147483648 → wf_file (es ++ [e]).
Proof.
  intros [Hwf Hs] He Hl. split; [by apply Forall_app; split; [|constructor]|].
  rewrite lsize_app, lsize_cons. change (lsize []) with 0. lia.
Qed.

Lemma fwd_app_l es es' p i v : fwd es p i = Some v → fwd (es ++ es') p i = Some v.
Proof.
  intros (ty & k & d & ps & He & Hi)%fwd_ent. by rewrite (ent_fwd _ _ ty k d ps) by by apply ent_app_l.
Qed.

Lemma fwd_app_in es es' p i e :
  ent DUMMY_OFFSET es p = Some e → fwd (es ++ es') p i = fwd es p i.
Proof. intros He. unfold fwd, ptrs. by rewrite (ent_app_l _ _ _ _ _ He), He. Qed.

Lemma fwd_new es k d ps i :
  fwd (es ++ [ERec ADD k d ps]) (DUMMY_OFFSET + lsize es) i = ps !! i.
Proof. unfold fwd, ptrs. by rewrite ent_here. Qed.

Lemma shape_is_node es es' n : shape es = shape es' → is_node es n → is_node es' n.
Proof.
  intros Hs (ty & ps & He & Hty & Hl). destruct (shape_rec _ _ _ _ _ _ _ Hs He) as (ps' & He' & Hl').
  exists ty, ps'. split_and!; auto. congruence.
Qed.

Lemma is_node_app es es' n : is_node es n → is_node (es ++ es') n.
Proof. intros (ty & ps & He & ?). exists ty, ps. split; [by apply ent_app_l|done]. Qed.

(** ** The two steps *)

Section Steps.
Context `{KO : KeyOrder compar keyok}.

Abbreviation below := (below (compar := compar)).
Abbreviation above := (above (compar := compar)).
Abbreviation slist := (slist (compar := compar) (keyok := keyok)).
Abbreviation nodes_ok := (nodes_ok (compar := compar) (keyok := keyok)).
Abbreviation prev_off := (prev_off (compar := compar)).

(** What the node with key [k] has, or would have, to point to. *)
Definition succs (i : nat) (b : list node) : Z := hd_off (at_lvl i b).

(** Delete: the records in front of [x] point to what follows it. *)
Definition del_ptrs (es : list entry) (k : bytes) (l : list node) (x : node) (rest : list node) :=
  setps es (n_lvl x) (prev_off k l) (λ i, succs i rest).
Definition del_step es k l x rest := del_ptrs es k l x rest ++ [EDel (n_off x)].

(** Add: they point to the new record, which points to what they did. *)
Definition new_off (es : list entry) : Z := DUMMY_OFFSET + lsize es.
Definition new_ptrs (l : list node) (k : bytes) (lvl : nat) : list Z :=
  (λ i, succs i (above k l)) <$> seq 0 lvl.
Definition add_ptrs (es : list entry) (k : bytes) (l : list node) (lvl : nat) :=
  setps es lvl (prev_off k l) (λ _, new_off es).
Definition add_step es k d l lvl := add_ptrs es k l lvl ++ [ERec ADD k d (new_ptrs l k lvl)].

Lemma nodes_ok_shape es es' tl curl maxl l :
  shape es = shape es' → nodes_ok es curl maxl l → nodes_ok (es' ++ tl) curl maxl l.
Proof using.
  intros Hs [H1 H2 H3 H4 (ps & Hd & Hl) H6]. split; try done.
  - eapply Forall_impl; [exact H3|]. intros n Hn. by apply is_node_app, (shape_is_node es).
  - destruct (shape_rec _ _ _ _ _ _ _ Hs Hd) as (ps' & Hd' & Hl'). exists ps'.
    split; [by apply ent_app_l|congruence].
Qed.

Lemma nodup_at_lvl es curl maxl l i :
  nodes_ok es curl maxl l → NoDup (DUMMY_OFFSET :: (n_off <$> at_lvl i l)).
Proof using KO.
  intros H%offs_nodup. eapply sublist_NoDup; [exact H|]. apply sublist_skip, fmap_sublist.
  apply sublist_filter.
Qed.

Lemma at_lvl_split k l i :
  sorted (compar := compar) l → keys_ok (keyok := keyok) l → keyok k →
  at_lvl i l = at_lvl i (below k l) ++ at_lvl i (above k l).
Proof using KO. intros. by rewrite <- at_lvl_app, <- sorted_split. Qed.

Lemma prev_off_fwd es curl maxl l k i :
  slist es curl maxl l → keyok k → (i < maxl)%nat →
  fwd es (prev_off k l i) i = Some (succs i (above k l)).
Proof using KO.
  intros [[Hs Hko _ _ _ _] Hl] Hk Hi. specialize (Hl i Hi).
  rewrite (at_lvl_split k l i) in Hl by done. by apply links_next in Hl.
Qed.

(** A record in the file keeps its pointers when more is appended. *)
Lemma fwd_known es tl curl maxl l x i :
  nodes_ok es curl maxl l → x ∈ DUMMY_OFFSET :: (n_off <$> l) → fwd (es ++ tl) x i = fwd es x i.
Proof using.
  intros [_ _ Hn _ (ps & Hd & _) _] [->|(n & -> & Hin)%list_elem_of_fmap]%elem_of_cons.
  - by eapply fwd_app_in.
  - destruct (Forall_in _ _ _ Hn Hin) as (? & ? & He & _). by eapply fwd_app_in.
Qed.

Lemma in_at_lvl x i l :
  x ∈ DUMMY_OFFSET :: (n_off <$> at_lvl i l) → x ∈ DUMMY_OFFSET :: (n_off <$> l).
Proof using.
  intros [->|(n & -> & [_ Hin]%elem_at_lvl)%list_elem_of_fmap]%elem_of_cons; [by left|].
  right. by apply list_elem_of_fmap_2.
Qed.

(** *** Delete *)

Lemma del_nodes es curl maxl a x rest :
  nodes_ok es curl maxl (a ++ x :: rest) → nodes_ok es curl maxl (a ++ rest).
Proof using.
  assert (∀ P : node → Prop, Forall P (a ++ x :: rest) → Forall P (a ++ rest)) as Hsub.
  { intros P [H1 H2]%Forall_app. inversion_clear H2. by apply Forall_app. }
  intros [H1 H2 H3 H4 H5 H6]. split; auto; [|by apply Hsub].
  apply sorted_app in H1 as (Ha & Hb & Hab). apply sorted_app. inversion_clear Hb. split_and!; auto.
  eapply Forall_impl; [exact Hab|]. intros y Hy. by inversion_clear Hy.
Qed.

Lemma skip_del es curl maxl l k x rest tl :
  slist es curl maxl l → keyok k → above k l = x :: rest →
  slist (del_ptrs es k l x rest ++ tl) curl maxl (below k l ++ rest).
Proof using KO.
  intros Hsk Hk Hab. pose proof Hsk as [Hno Hl]. pose proof Hno as [Hs Hko Hn Hlv Hd Hc].
  pose proof (sorted_split k l Hs Hko Hk) as Hsplit. rewrite Hab in Hsplit.
  assert (n_lvl x ≤ maxl)%nat as Hx.
  { assert (x ∈ l) as Hin by (rewrite Hsplit; apply elem_of_app; right; by left).
    pose proof (Forall_in _ _ _ Hlv Hin) as H. cbn in H. lia. }
  assert (∀ i, (i < n_lvl x)%nat → is_Some (fwd es (prev_off k l i) i)) as Hsome.
  { intros i Hi. rewrite (prev_off_fwd es curl maxl) by (try done; lia). eauto. }
  assert (nodes_ok (del_ptrs es k l x rest) curl maxl (below k l ++ rest)) as Hno'.
  { rewrite <- (app_nil_r (del_ptrs _ _ _ _ _)). eapply nodes_ok_shape; [symmetry; apply shape_setps|].
    eapply del_nodes. by rewrite <- Hsplit. }
  split; [by eapply (nodes_ok_shape (del_ptrs es k l x rest))|].
  intros i Hi. specialize (Hl i Hi). rewrite at_lvl_app.
  rewrite Hsplit, at_lvl_app, at_lvl_cons in Hl.
  apply (links_ext (fwd (del_ptrs es k l x rest))).
  { intros y Hy. rewrite <- at_lvl_app in Hy. eapply fwd_known; [exact Hno'|]. by eapply in_at_lvl. }
  destruct (decide (i < n_lvl x)%nat) as [Hi'|Hi'].
  - eapply (links_remove (fwd es) _ _ _ _ x).
    + pose proof (nodup_at_lvl _ _ _ _ i Hno) as Hnd. rewrite Hsplit, at_lvl_app, at_lvl_cons in Hnd.
      by rewrite decide_True in Hnd by done.
    + done.
    + unfold del_ptrs. rewrite fwd_setps by done. rewrite decide_True by done. done.
    + intros y Hy Hne. unfold del_ptrs. rewrite fwd_setps by done. rewrite decide_False; [done|].
      intros [_ E]. done.
  - eapply links_ext; [|exact Hl]. intros y Hy. unfold del_ptrs. rewrite fwd_setps by done.
    rewrite decide_False; [done|lia].
Qed.

(** *** Add *)

Lemma add_nodes es curl maxl l k d lvl o :
  nodes_ok es curl maxl l → keyok k → Forall (λ n, n_key n ≠ k) l →
  is_node es (Node o k d lvl) → (1 ≤ lvl ≤ maxl)%nat →
  nodes_ok es (Nat.max curl lvl) maxl (below k l ++ Node o k d lvl :: above k l).
Proof using KO.
  intros [Hs Hko Hn Hlv Hd Hc] Hk Hnew Ho Hl.
  assert (∀ P : node → Prop, Forall P l → P (Node o k d lvl) →
            Forall P (below k l ++ Node o k d lvl :: above k l)) as Hsub.
  { intros P HP HN. apply Forall_app. split; [|constructor; [done|]]; by apply Forall_filter. }
  split; try done.
  - apply sorted_app. split_and!.
    + by apply sorted_filter.
    + constructor; [by apply sorted_filter|]. apply Forall_forall.
      intros n [Hnk Hin]%list_elem_of_filter. unfold node_lt. cbn. apply ko_sym.
      pose proof (Forall_in _ _ _ Hnew Hin) as Hne. pose proof (Forall_in _ _ _ Hko Hin) as Hok.
      cbn in Hne, Hok. pose proof (proj1 (ko_eq (n_key n) k Hok Hk)) as E.
      destruct (decide (compar (n_key n) k = 0)) as [E'|]; [by apply E in E'|lia].
    + apply Forall_forall. intros n [Hnk Hin]%list_elem_of_filter. constructor; [done|].
      apply Forall_forall. intros m [Hmk Hin']%list_elem_of_filter. unfold node_lt.
      rewrite (sorted_split k l) in Hs by done. apply sorted_app in Hs as (_ & _ & Hs).
      assert (n ∈ below k l) as Hnb by by apply list_elem_of_filter.
      assert (m ∈ above k l) as Hma by by apply list_elem_of_filter.
      exact (Forall_in _ _ _ (Forall_in _ _ _ Hs Hnb) Hma).
  - by apply Hsub.
  - by apply Hsub.
  - apply Hsub; [|cbn; lia]. eapply Forall_impl; [exact Hlv|]. cbn. lia.
  - lia.
Qed.

Lemma new_fresh es curl maxl l :
  nodes_ok es curl maxl l → new_off es ∉ DUMMY_OFFSET :: (n_off <$> l).
Proof using.
  intros [_ _ Hn _ (ps & Hd & _) _]. pose proof (ent_end DUMMY_OFFSET es) as He. unfold new_off.
  intros [E|(n & E & Hin)%list_elem_of_fmap]%elem_of_cons.
  - rewrite E in He. congruence.
  - destruct (Forall_in _ _ _ Hn Hin) as (? & ? & H & _). rewrite <- E in H. congruence.
Qed.

Lemma skip_add es curl maxl l k d lvl :
  slist es curl maxl l → keyok k → Forall (λ n, n_key n ≠ k) l → (1 ≤ lvl ≤ maxl)%nat →
  slist (add_step es k d l lvl) (Nat.max curl lvl) maxl
    (below k l ++ Node (new_off es) k d lvl :: above k l).
Proof using KO.
  intros Hsk Hk Hnew Hlvl. pose proof Hsk as [Hno Hl]. pose proof Hno as [Hs Hko Hn Hlv Hd Hc].
  assert (∀ i, (i < lvl)%nat → is_Some (fwd es (prev_off k l i) i)) as Hsome.
  { intros i Hi. rewrite (prev_off_fwd es curl maxl) by (try done; lia). eauto. }
  assert (shape es = shape (add_ptrs es k l lvl)) as Hsh by (symmetry; apply shape_setps).
  assert (nodes_ok (add_ptrs es k l lvl) curl maxl l) as Hno1.
  { rewrite <- (app_nil_r (add_ptrs _ _ _ _)). by eapply nodes_ok_shape. }
  assert (nodes_ok (add_step es k d l lvl) curl maxl l) as Hno2 by by eapply nodes_ok_shape.
  assert (lsize (add_ptrs es k l lvl) = lsize es) as Hsz by by apply shape_lsize.
  assert (length (new_ptrs l k lvl) = lvl) as Hnp.
  { unfold new_ptrs. by rewrite length_fmap, length_seq. }
  assert (is_node (add_step es k d l lvl) (Node (new_off es) k d lvl)) as Hnode.
  { exists ADD, (new_ptrs l k lvl). cbn. split_and!; auto. unfold add_step, new_off.
    rewrite <- Hsz. apply ent_here. }
  assert (nodes_ok (add_step es k d l lvl) (Nat.max curl lvl) maxl
    (below k l ++ Node (new_off es) k d lvl :: above k l)) as Hno3 by by apply add_nodes.
  split; [done|]. intros i Hi. specialize (Hl i Hi).
  rewrite (at_lvl_split k l i) in Hl by done.
  assert (∀ y, y ∈ DUMMY_OFFSET :: (n_off <$> at_lvl i (below k l) ++ at_lvl i (above k l)) →
     fwd (add_step es k d l lvl) y i
       = if decide ((i < lvl)%nat ∧ y = prev_off k l i) then Some (new_off es) else fwd es y i) as Hf.
  { intros y Hy. rewrite <- at_lvl_split in Hy by done. unfold add_step.
    rewrite (fwd_known _ _ curl maxl l) by (try done; by eapply in_at_lvl).
    unfold add_ptrs. by rewrite fwd_setps. }
  rewrite at_lvl_app, at_lvl_cons. cbn [n_lvl].
  destruct (decide (i < lvl)%nat) as [Hi'|Hi'].
  - apply (links_insert (fwd es)); [|done| | |].
    + pose proof (nodup_at_lvl _ _ _ _ i Hno3) as Hnd. rewrite at_lvl_app, at_lvl_cons in Hnd.
      cbn [n_lvl] in Hnd. by rewrite decide_True in Hnd by done.
    + fold (prev_off k l i). rewrite Hf; [by rewrite decide_True by done|].
      rewrite fmap_app, app_comm_cons. apply elem_of_app. left. apply last_off_in.
    + cbn [n_off]. unfold add_step, new_off. rewrite <- Hsz, fwd_new. unfold new_ptrs.
      rewrite list_lookup_fmap, lookup_seq_lt by done. done.
    + intros y Hy Hne. rewrite Hf by done. rewrite decide_False; [done|]. intros [_ E]. done.
  - eapply links_ext; [|exact Hl]. intros y Hy. rewrite Hf by done.
    rewrite decide_False by lia. done.
Qed.
End Steps.
