(* ===== verification/SkipRun.v ===== *)
(** * SkipRun: running the backend on a database file

    Weakest preconditions for the programs of [DbFile] and [Skiplist], and what
    the primitive operations and pointer loops do when the system calls succeed.
    The state is written out: the file, the copy of its header, the mapping and
    the locks; the position of the descriptor and the number of system calls
    made so far are whatever they are. *)
From S2P Require Import Prelude CMem CFile Prog DbFile CyrusDb BSearch Skiplist DbOrder SkipFile SkipList SkipStep.
From stdpp Require Import gmap sorting list.
#[local] Open Scope Z_scope.

(** ** States *)

Section Run.
Context `{E : Env}.
(** No call fails and there is room for 2 GB. *)
Context (Hcalls : ∀ n, fails n = false) (Hroom : 2147483648 ≤ file_limit).
(** The database's inode and name; other inodes and names. *)
Context (ino : Z) (others : gmap Z bytes) (nm : gmap bytes Z) (nx : Z) (name : bytes).

Definition S_ (m : bytes) (h : header) (g : mapping) (hl : gmap Z lock) (pos : Z) (t : nat) : st :=
  St (Fs (<[ino := m]> others) nm hl nx t) name (Some (ino, pos)) g h.

(** The mapping shows the whole file. *)
Definition covers (g : mapping) (m : bytes) : Prop := map_of g = ino ∧ blen m ≤ map_len g.

Lemma view_S m h g hl pos t : covers g m → view (S_ m h g hl pos t) = m.
Proof using.
  intros [Hof Hl]. unfold view, S_. cbn [mp fs inodes]. rewrite Hof, lookup_insert_eq. cbn.
  apply take_ge. unfold blen in Hl. lia.
Qed.

Lemma file_of_S m h g hl pos t : file_of (S_ m h g hl pos t) ino = m.
Proof using. unfold file_of, S_. cbn [fs inodes]. by rewrite lookup_insert_eq. Qed.

Lemma put_S m m' h g hl pos pos' t :
  set_fd (Some (ino, pos')) (set_fs (set_inodes (<[ino := m']> (inodes (fs (S_ m h g hl pos t))))
    (fs (S_ m h g hl pos t))) (S_ m h g hl pos t)) = S_ m' h g hl pos' t.
Proof using. unfold S_, set_fd, set_fs, set_inodes. cbn. by rewrite insert_insert_eq. Qed.

Lemma wp_read {A} (f : bytes → result A) Q m h g hl pos t a :
  covers g m → f m = Ok a → Q a (S_ m h g hl pos t) → wp (rd f) Q (S_ m h g hl pos t).
Proof using. intros Hc Hf. apply wp_rd. by rewrite view_S. Qed.

Lemma wp_sys_fails Q m h g hl pos t :
  Q false (S_ m h g hl pos (S t)) → wp sys_fails Q (S_ m h g hl pos t).
Proof using Hcalls.
  intros HQ. eapply wp_intro; [reflexivity|]. by rewrite Hcalls.
Qed.

Lemma wp_fsync Q m h g hl pos t :
  (∀ t', Q false (S_ m h g hl pos t')) → wp fsync_fails Q (S_ m h g hl pos t).
Proof using Hcalls.
  intros HQ. unfold fsync_fails. destruct skiplist_unsafe; [apply wp_ret, HQ|apply wp_sys_fails, HQ].
Qed.

Lemma wp_time Q m h g hl pos t :
  Q (clock t) (S_ m h g hl pos (S t)) → wp time_now Q (S_ m h g hl pos t).
Proof using. intros HQ. by eapply wp_intro. Qed.

Lemma wp_lseek off Q m h g hl pos t :
  0 ≤ off → Q off (S_ m h g hl off t) → wp (c_lseek_set off) Q (S_ m h g hl pos t).
Proof using.
  intros H HQ. unfold c_lseek_set. wstep. cbn [fd S_]. destruct (Z.ltb_spec off 0); [lia|].
  wstep. by wstep.
Qed.

Lemma wp_lseek_end Q m h g hl pos t :
  Q (blen m) (S_ m h g hl (blen m) t) → wp c_lseek_end Q (S_ m h g hl pos t).
Proof using.
  intros HQ. unfold c_lseek_end. wstep. cbn [fd S_]. wstep. rewrite (file_of_S m h g hl pos t). wstep. by wstep.
Qed.

Lemma wp_write bs Q m h g hl pos t :
  bs ≠ [] → 0 ≤ pos → pos + blen bs ≤ 2147483648 →
  Q (blen bs) (S_ (wr m pos bs) h g hl (pos + blen bs) t) →
  wp (retry_write bs) Q (S_ m h g hl pos t).
Proof using Hroom.
  intros Hne Hp Hl HQ. assert (0 < blen bs) by (destruct bs; [done|blia]).
  unfold retry_write. destruct (Z.eqb_spec (blen bs) 0); [lia|].
  wstep. cbn [fd S_]. wstep. rewrite (file_of_S m h g hl pos t).
  rewrite Z.max_r, Z.min_l by lia. destruct (Z.eqb_spec (blen bs) 0); [lia|].
  unfold put_file, modify_fs. do 2 apply wp_bind. wstep. wstep. wstep.
  rewrite Z.eqb_refl, put_S. replace (Z.to_nat (blen bs)) with (length bs) by (unfold blen; lia).
  by rewrite firstn_all.
Qed.

(** A word is written where one was. *)
Lemma wp_write_word off v Q m h g hl pos t :
  0 ≤ off → off + 4 ≤ 2147483648 →
  (∀ pos', Q 4 (S_ (wr m off (be32 v)) h g hl pos' t)) →
  wp (write_word off v) Q (S_ m h g hl pos t).
Proof using Hroom.
  intros H0 H1 HQ. unfold write_word. apply wp_bind, wp_lseek; [done|].
  apply wp_write; [done|done|by rewrite blen_be32|]. apply HQ.
Qed.

Lemma wp_write_word_checked off v Q m h g hl pos t :
  0 ≤ off → off + 4 ≤ 2147483648 →
  (∀ pos', Q 0 (S_ (wr m off (be32 v)) h g hl pos' t)) →
  wp (write_word_checked off v) Q (S_ m h g hl pos t).
Proof using Hroom.
  intros H0 H1 HQ. unfold write_word_checked. apply wp_bind, wp_lseek; [done|].
  rewrite to_s32_small by (unfold is_s32; lia). destruct (Z.ltb_spec off 0); [lia|].
  apply wp_bind, wp_write; [done|done|by rewrite blen_be32|]. apply wp_ret, HQ.
Qed.

(** ** Pointers *)

Lemma covers_shape g hd es es' : shape es = shape es' → covers g (ser hd es) → covers g (ser hd es').
Proof using.
  intros Hs [Ho Hl]. split; [done|]. rewrite blen_ser in *. by rewrite <- (shape_lsize _ _ Hs).
Qed.

(** [FORWARD(p, i) = v] *)
Lemma wp_write_forward p i v w Q hd es h g hl pos t :
  wf_file es → covers g (ser hd es) → fwd es p i = Some w →
  (∀ pos', Q tt (S_ (ser hd (setp es p i v)) h g hl pos' t)) →
  wp (write_forward p (Z.of_nat i) v) Q (S_ (ser hd es) h g hl pos t).
Proof using Hroom.
  intros Hwf Hc Hf HQ. unfold write_forward.
  destruct (fwd_ent _ _ _ _ Hf) as (ty & k & d & ps & He & Hi).
  pose proof (ser_at hd _ _ _ He) as Hat. pose proof (wf_ent _ _ _ Hwf He) as Hwe.
  apply wp_bind. eapply wp_read; [done|by apply (PTR_at _ _ _ _ _ _ Hat Hwe)|].
  pose proof (rec_end _ _ _ _ _ _ Hat Hwe) as Hend. unfold rsize in Hend.
  pose proof (ent_off _ _ _ Hwf He) as [_ Hp]. destruct Hwf as [_ Hsz]. rewrite blen_ser in Hend.
  unfold DUMMY_OFFSET, HEADER_SIZE in *. apply lookup_lt_Some in Hi as Hi'.
  pose proof Hwe as (_ & Hk & Hd & _). unfold is_off in Hk, Hd.
  pose proof (blen_nonneg k). pose proof (blen_nonneg d).
  pose proof (ROUNDUP_bounds (blen k) ltac:(lia)). pose proof (ROUNDUP_bounds (blen d) ltac:(lia)).
  apply wp_bind, wp_write_word; [lia|lia|]. intros pos'. apply wp_ret.
  erewrite ser_setp; [apply HQ|done..].
Qed.

Lemma wp_FORWARD p i v Q hd es h g hl pos t :
  wf_file es → covers g (ser hd es) → fwd es p i = Some v →
  Q v (S_ (ser hd es) h g hl pos t) →
  wp (rd (λ m, FORWARD m p (Z.of_nat i))) Q (S_ (ser hd es) h g hl pos t).
Proof using. intros Hwf Hc Hf HQ. eapply wp_read; [done|by apply FORWARD_fwd|done]. Qed.

Section Loops.
Context (hd : header) (es : list entry) (g : mapping).
Context (Hwf : wf_file es) (Hcov : covers g (ser hd es)).
(** The records [u] says to update, level by level. *)
Context (u : list Z) (pf : nat → Z).

#[local] Lemma setps_ok n v :
  (∀ i, (i < n)%nat → is_off (v i)) →
  wf_file (setps es n pf v) ∧ covers g (ser hd (setps es n pf v)).
Proof using Hwf Hcov.
  intros Hv. split; [by apply wf_setps|]. eapply covers_shape; [|exact Hcov].
  symmetry. apply shape_setps.
Qed.

Lemma wp_link_loop n o Q h hl pos t :
  is_off o →
  (∀ i, (i < n)%nat → uget u (Z.of_nat i) = Ok (pf i) ∧ is_Some (fwd es (pf i) i)) →
  (∀ pos', Q tt (S_ (ser hd (setps es n pf (λ _, o))) h g hl pos' t)) →
  wp (link_loop n 0 u o) Q (S_ (ser hd es) h g hl pos t).
Proof using Hwf Hcov Hroom.
  intros Ho Hu HQ.
  assert (∀ j n' pos, (j + n' = n)%nat →
    wp (link_loop n' (Z.of_nat j) u o) Q (S_ (ser hd (setps es j pf (λ _, o))) h g hl pos t)) as Hgo;
    [|by apply (Hgo 0%nat n pos)].
  intros j n'. revert j. induction n' as [|n' IH]; intros j pos' Hn; cbn [link_loop].
  - replace j with n by lia. apply wp_ret, HQ.
  - destruct (Hu j ltac:(lia)) as [Hg [w Hw]].
    apply wp_bind. eapply wp_liftr; [exact Hg|].
    destruct (setps_ok j (λ _, o) ltac:(done)) as [Hwf' Hcov'].
    apply wp_bind. eapply (wp_write_forward _ _ _ w); [done|done| |].
    { rewrite fwd_setps; [by rewrite decide_False by lia|]. intros i Hi. apply Hu. lia. }
    intros pos''. replace (Z.of_nat j + 1) with (Z.of_nat (S j)) by lia.
    change (setp _ _ _ _) with (setps es (S j) pf (λ _, o)). apply IH. lia.
Qed.

(** The record [o] reaches [lvl] levels and points to [v] there. *)
Lemma wp_unlink_loop n lvl o v Q h hl pos t :
  (lvl ≤ n)%nat → (∀ i, (i < lvl)%nat → is_off (v i)) →
  (∀ i, (i < n)%nat → uget u (Z.of_nat i) = Ok (pf i)) →
  (∀ i, (i < lvl)%nat → fwd es (pf i) i = Some o ∧ fwd es o i = Some (v i)) →
  (∀ i, (lvl ≤ i < n)%nat → ∃ w, fwd es (pf i) i = Some w ∧ w ≠ o) →
  (∀ i, (i < lvl)%nat → pf i ≠ o) →
  (∀ pos', Q tt (S_ (ser hd (setps es lvl pf v)) h g hl pos' t)) →
  wp (unlink_loop n 0 u o) Q (S_ (ser hd es) h g hl pos t).
Proof using Hwf Hcov Hroom.
  intros Hln Hv Hu Hin Hout Hne HQ.
  assert (∀ j, (j ≤ lvl)%nat → ∀ i, (i < j)%nat → is_Some (fwd es (pf i) i)) as Hsome.
  { intros j Hj i Hi. destruct (Hin i) as [-> _]; [lia|]. eauto. }
  assert (∀ j n' pos, (j ≤ lvl)%nat → (j + n' = n)%nat →
    wp (unlink_loop n' (Z.of_nat j) u o) Q (S_ (ser hd (setps es j pf v)) h g hl pos t)) as Hgo;
    [|by apply (Hgo 0%nat n pos); lia].
  intros j n'. revert j. induction n' as [|n' IH]; intros j pos' Hj Hn; cbn [unlink_loop].
  - replace j with lvl by lia. apply wp_ret, HQ.
  - apply wp_bind. eapply wp_liftr; [apply Hu; lia|].
    destruct (setps_ok j v) as [Hwf' Hcov']; [intros; apply Hv; lia|].
    assert (∀ q w, fwd es q j = Some w → fwd (setps es j pf v) q j = Some w) as Hsame.
    { intros q w Hq. rewrite fwd_setps by (by apply Hsome). by rewrite decide_False by lia. }
    destruct (decide (j < lvl)%nat) as [Hlt|Hge].
    + destruct (Hin j Hlt) as [Hp Ho].
      apply wp_bind. eapply wp_FORWARD; [done|done|by apply Hsame|].
      rewrite Z.eqb_refl. cbn [negb].
      apply wp_bind. eapply wp_FORWARD; [done|done|by apply Hsame|].
      apply wp_bind. eapply wp_write_forward; [done|done|by apply Hsame|].
      intros pos''. replace (Z.of_nat j + 1) with (Z.of_nat (S j)) by lia.
      change (setp _ _ _ _) with (setps es (S j) pf v). apply IH; lia.
    + assert (j = lvl) as -> by lia. destruct (Hout lvl) as (w & Hw & Hwo); [lia|].
      apply wp_bind. eapply wp_FORWARD; [done|done|by apply Hsame|].
      destruct (Z.eqb_spec w o); [done|]. apply wp_ret, HQ.
Qed.

(** The old pointers are returned. *)
Lemma wp_splice_loop n o w Q h hl pos t :
  is_off o →
  (∀ i, (i < n)%nat → uget u (Z.of_nat i) = Ok (pf i) ∧ fwd es (pf i) i = Some (w i)) →
  (∀ pos', Q (w <$> seq 0 n) (S_ (ser hd (setps es n pf (λ _, o))) h g hl pos' t)) →
  wp (splice_loop n 0 u o) Q (S_ (ser hd es) h g hl pos t).
Proof using Hwf Hcov Hroom.
  intros Ho Hu HQ.
  assert (∀ j n' pos (R : list Z → st → Prop), (j + n' = n)%nat →
    (∀ pos', R (w <$> seq j n') (S_ (ser hd (setps es n pf (λ _, o))) h g hl pos' t)) →
    wp (splice_loop n' (Z.of_nat j) u o) R (S_ (ser hd (setps es j pf (λ _, o))) h g hl pos t)) as Hgo;
    [|by apply (Hgo 0%nat n pos); [lia|]].
  intros j n'. revert j. induction n' as [|n' IH]; intros j pos' R Hn HR; cbn [splice_loop].
  - replace j with n by lia. apply wp_ret, HR.
  - destruct (Hu j ltac:(lia)) as [Hg Hw].
    apply wp_bind. eapply wp_liftr; [exact Hg|].
    destruct (setps_ok j (λ _, o) ltac:(done)) as [Hwf' Hcov'].
    assert (fwd (setps es j pf (λ _, o)) (pf j) j = Some (w j)) as Hw'.
    { rewrite fwd_setps; [by rewrite decide_False by lia|].
      intros i Hi. destruct (Hu i) as [_ ->]; [lia|eauto]. }
    apply wp_bind. eapply wp_FORWARD; [done|done|done|].
    apply wp_bind. eapply wp_write_forward; [done|done|done|].
    intros pos''. replace (Z.of_nat j + 1) with (Z.of_nat (S j)) by lia.
    change (setp _ _ _ _) with (setps es (S j) pf (λ _, o)).
    apply wp_bind. apply IH; [lia|]. intros pos3. apply wp_ret, HR.
Qed.
End Loops.
End Run.
