(* ===== verification/SkipFetch.v ===== *)
(** * SkipFetch: an open database, its locks, and reading it

    [open_db s ino hd es l]: the process state [s] has the database file [ino]
    open, with header [hd], entries [es] and active records [l].  Fetching
    returns what the finite map [contents l] holds. *)
From S2P Require Import Prelude CMem.
From stdpp Require Import gmap sorting list.
From S2P Require Import CFile Prog DbFile CyrusDb BSearch Skiplist DbOrder SkipFile SkipList SkipStep SkipRun.
#[local] Open Scope Z_scope.

(** What the database holds. *)
Definition contents (l : list node) : gmap bytes bytes :=
  list_to_map ((λ n, (n_key n, n_data n)) <$> l).

(** The header of a file and the mapping of a handle. *)
Definition header_ok (h : header) : Prop :=
  is_s32 (version h) ∧ is_s32 (version_minor h) ∧ 1 ≤ curlevel h ≤ maxlevel h ∧ maxlevel h ≤ 20
  ∧ is_s32 (listsize h) ∧ is_off (logstart h) ∧ is_u32 (last_recovery h).
Definition mapping_ok (ino : Z) (g : mapping) : Prop :=
  0 ≤ map_len g ∧ (map_ino g = ino → map_len g = 0 ∨ map_of g = ino).

(** Reading the header words. *)
Lemma header_word m hd es off pre v post :
  m = ser hd es → header_bytes hd = pre ++ be32 v ++ post → blen pre = off →
  rd32 m off = Ok (to_u32 v).
Proof.
  intros -> Hh <-. apply rd32_be32. unfold ser. rewrite Hh, <- !app_assoc.
  apply bytes_at_here.
Qed.

Lemma rd_curlevel hd es : rd32 (ser hd es) OFFSET_CURLEVEL = Ok (to_u32 (curlevel hd)).
Proof.
  eapply (header_word _ hd es _ (HEADER_MAGIC ++ be32 (version hd) ++ be32 (version_minor hd)
    ++ be32 (maxlevel hd))); [done| |done].
  unfold header_bytes. rewrite <- !app_assoc. reflexivity.
Qed.

Section Locks.
Context `{E : Env} (Hcalls : ∀ n, fails n = false).
Context (ino : Z) (others : gmap Z bytes) (nm : gmap bytes Z) (nx : Z) (name : bytes).
Abbreviation S_ := (S_ ino others nm nx name).
Abbreviation covers := (covers ino).

(** The mapping grows to what is asked for. *)
Lemma wp_map_refresh n Q m h g hl pos t :
  (map_len g ≠ 0 → map_of g = ino) → 0 < n →
  (∀ g', map_of g' = ino → n ≤ map_len g' → map_len g ≤ map_len g' → map_size g' = map_size g →
     map_ino g' = map_ino g → Q tt (S_ m h g' hl pos t)) →
  wp (map_refresh (Some n)) Q (S_ m h g hl pos t).
Proof using.
  intros Hof Hn HQ. unfold map_refresh. wstep. cbn [fd SkipRun.S_]. wstep. wstep.
  cbn [from_option id mp SkipRun.S_]. unfold id. destruct (Z.leb_spec n (map_len g)).
  - apply wp_ret, HQ; try done. apply Hof. lia.
  - wstep. pose proof (map_round n ltac:(lia)) as Hr. apply HQ; cbn; try done; lia.
Qed.

(** [write_lock] and [read_lock] after the lock has been obtained. *)
Lemma wp_refresh_locked Q hd es h g hl pos t :
  header_ok hd → mapping_ok ino g →
  (∀ g', covers g' (ser hd es) → map_size g' = blen (ser hd es) → map_ino g' = ino →
     Q tt (S_ (ser hd es) (if curlevel h =? 0 then h else set_curlevel (curlevel hd) h) g' hl pos t)) →
  wp (refresh_locked ino) Q (S_ (ser hd es) h g hl pos t).
Proof using.
  intros Hh [Hl0 Hof] HQ. unfold refresh_locked. wstep. cbn [mp SkipRun.S_].
  set (g1 := if map_ino g =? ino then g else Map 0 0 (map_size g) (map_ino g)).
  apply (wp_bind_mono _ _ (λ _ s, s = S_ (ser hd es) h g1 hl pos t)).
  { unfold g1. destruct (map_ino g =? ino); cbn [negb]; [by apply wp_ret|].
    unfold map_free. wstep. wstep. done. }
  intros _ ? ->. wstep. rewrite (file_of_S ino others nm nx name _ h g1 hl pos t). wstep. cbn [mp SkipRun.S_ set_mp].
  pose proof (blen_ser hd es) as Hb. pose proof (lsize_nonneg es).
  apply wp_bind. change (set_mp ?g' (S_ ?m ?h ?g ?hl ?p ?t)) with (S_ m h g' hl p t).
  apply wp_map_refresh; cbn [map_len map_of map_size map_ino]; [|lia|].
  { unfold g1. destruct (Z.eqb_spec (map_ino g) ino); [|done]. destruct Hof; [done| |done]. lia. }
  intros g' Hof' Hn' _ Hs' Hi'. wstep. cbn [hdr SkipRun.S_].
  assert (covers g' (ser hd es)) as Hc by (by split).
  specialize (HQ g' Hc Hs' Hi'). destruct (Z.eqb_spec (curlevel h) 0); [by apply wp_ret|].
  apply wp_bind. eapply wp_read; [done|apply rd_curlevel|].
  rewrite to_s32_u32. destruct Hh as (_ & _ & Hc1 & Hc2 & _).
  rewrite to_s32_small by (unfold is_s32; lia). unfold modify_hdr. by wstep.
Qed.

Lemma wp_lock_loop l filename Q m h g hl pos t :
  nm !! filename = Some ino → Q (Some ino) (S_ m h g (<[ino := l]> hl) pos (S t)) →
  wp (lock_loop 2 l filename) Q (S_ m h g hl pos t).
Proof using Hcalls.
  intros Hn HQ. cbn [lock_loop]. wstep. apply wp_bind, wp_sys_fails; [done|]. cbn [fd SkipRun.S_].
  apply wp_bind. unfold set_lock, modify_fs. wstep. wstep.
  cbn [set_fs fs names set_held SkipRun.S_]. rewrite Hn, Z.eqb_refl. apply wp_ret, HQ.
Qed.

Lemma wp_write_lock Q hd es h g hl pos t :
  header_ok hd → mapping_ok ino g → nm !! name = Some ino →
  (∀ g' t', covers g' (ser hd es) → map_size g' = blen (ser hd es) → map_ino g' = ino →
     Q 0 (S_ (ser hd es) (if curlevel h =? 0 then h else set_curlevel (curlevel hd) h) g'
            (<[ino := LExclusive]> hl) pos t')) →
  wp (write_lock None) Q (S_ (ser hd es) h g hl pos t).
Proof using Hcalls.
  intros Hh Hg Hn HQ. unfold write_lock. wstep. cbn [from_option id fname SkipRun.S_]. unfold id.
  apply wp_bind. unfold lock_reopen. apply wp_lock_loop; [done|].
  apply wp_bind. apply wp_refresh_locked; [done|done|]. intros. by apply wp_ret, HQ.
Qed.

Lemma wp_read_lock Q hd es h g hl pos t :
  header_ok hd → mapping_ok ino g → nm !! name = Some ino →
  (∀ g' t', covers g' (ser hd es) → map_size g' = blen (ser hd es) → map_ino g' = ino →
     Q 0 (S_ (ser hd es) (if curlevel h =? 0 then h else set_curlevel (curlevel hd) h) g'
            (<[ino := LShared]> hl) pos t')) →
  wp read_lock Q (S_ (ser hd es) h g hl pos t).
Proof using Hcalls.
  intros Hh Hg Hn HQ. unfold read_lock. wstep. cbn [fname SkipRun.S_].
  apply wp_bind. unfold lock_reopen_shared. apply wp_lock_loop; [done|].
  apply wp_bind. apply wp_refresh_locked; [done|done|]. intros. by apply wp_ret, HQ.
Qed.

Lemma wp_unlock Q m h g hl pos t :
  Q 0 (S_ m h g (delete ino hl) pos (S t)) → wp unlock Q (S_ m h g hl pos t).
Proof using Hcalls.
  intros HQ. unfold unlock, lock_unlock. apply wp_bind. wstep. apply wp_bind, wp_sys_fails; [done|].
  cbn [fd SkipRun.S_]. unfold drop_lock, modify_fs. wstep. apply wp_ret, wp_ret, HQ.
Qed.

Lemma wp_update_lock x Q m h g hl pos t :
  (map_len g ≠ 0 → map_of g = ino) → 0 < t_logend x →
  (∀ g', map_of g' = ino → t_logend x ≤ map_len g' → map_size g' = t_logend x → map_ino g' = map_ino g →
     Q tt (S_ m h g' hl pos t)) →
  wp (update_lock x) Q (S_ m h g hl pos t).
Proof using.
  intros Hof Hn HQ. unfold update_lock. apply wp_bind, wp_map_refresh; [done|done|].
  intros g' H1 H2 _ _ H3. unfold set_msize. wstep. by apply HQ.
Qed.
End Locks.

(** ** Open databases and transactions *)

Section Db.
Context `{E : Env} `{KO : KeyOrder compar keyok}.

Abbreviation slist := (slist (compar := compar) (keyok := keyok)).

(** The header's levels, in the types of the structure. *)
Definition maxl (hd : header) : nat := Z.to_nat (maxlevel hd).
Definition curl (hd : header) : nat := Z.to_nat (curlevel hd).

(** No file is in the way of a checkpoint. *)
Definition no_new (nm : gmap bytes Z) (nx : Z) (name : bytes) (ino : Z) : Prop :=
  nm !! new_name name = None ∧ ino ≠ nx.

(** Between calls: the handle's copy of the header is that of the file but for
    the current level, which every lock refreshes. *)
Record open_db (s : st) (ino : Z) (hd : header) (es : list entry) (l : list node) : Prop := {
  od_fd : ∃ pos, fd s = Some (ino, pos);
  od_file : inodes (fs s) !! ino = Some (ser hd es);
  od_name : names (fs s) !! fname s = Some ino;
  od_hdr : ∃ c, c ≠ 0 ∧ hdr s = set_curlevel c hd;
  od_map : mapping_ok ino (mp s);
  od_hd : header_ok hd;
  od_wf : wf_file es;
  od_list : slist es (curl hd) (maxl hd) l;
  od_new : no_new (names (fs s)) (nextino (fs s)) (fname s) ino;
}.

(** Inside the transaction [t], the write lock held, its log entries at the end
    of the file. *)
Record in_txn (s : st) (ino : Z) (hd : header) (es : list entry) (l : list node) (t : txn) : Prop := {
  it_fd : ∃ pos, fd s = Some (ino, pos);
  it_file : inodes (fs s) !! ino = Some (ser hd es);
  it_name : names (fs s) !! fname s = Some ino;
  it_hdr : hdr s = hd;
  it_map : map_of (mp s) = ino ∧ map_ino (mp s) = ino ∧ 0 < map_len (mp s);
  it_hd : header_ok hd;
  it_wf : wf_file es;
  it_list : slist es (curl hd) (maxl hd) l;
  it_held : held (fs s) !! ino = Some LExclusive;
  it_log : t_logend t = blen (ser hd es);
  it_new : no_new (names (fs s)) (nextino (fs s)) (fname s) ino;
}.

Lemma set_curlevel_same h : set_curlevel (curlevel h) h = h.
Proof. by destruct h. Qed.
Lemma set_curlevel_set c c' h : set_curlevel c (set_curlevel c' h) = set_curlevel c h.
Proof. done. Qed.

Section Reading.
Context (Hcalls : ∀ n, fails n = false).
Context (ino : Z) (others : gmap Z bytes) (nm : gmap bytes Z) (nx : Z) (name : bytes).
Abbreviation S_ := (S_ ino others nm nx name).
Abbreviation covers := (covers ino).

Context (hd : header) (es : list entry) (l : list node).
Context (Hhd : header_ok hd) (Hwf : wf_file es) (Hsl : slist es (curl hd) (maxl hd) l).

(** The search, and the test whether it found the key. *)
Lemma wp_find_node k Q g hl pos t :
  covers g (ser hd es) → keyok k →
  Q (hd_off (above (compar := compar) k l), prev_offs (compar := compar) k l (maxl hd))
    (S_ (ser hd es) hd g hl pos t) →
  wp (m_find_node compar k) Q (S_ (ser hd es) hd g hl pos t).
Proof using Hwf Hsl KO.
  intros Hc Hk HQ. unfold m_find_node. wstep. cbn [hdr SkipRun.S_].
  eapply wp_read; [done|by eapply find_node_ok|done].
Qed.

Lemma above_node k x rest :
  above (compar := compar) k l = x :: rest →
  x ∈ l ∧ ∃ ty ps, ent DUMMY_OFFSET es (n_off x) = Some (ERec ty (n_key x) (n_data x) ps)
    ∧ (ty = INORDER ∨ ty = ADD) ∧ length ps = n_lvl x ∧ n_off x ≠ 0.
Proof using Hwf Hsl.
  intros Hab. assert (x ∈ above (compar := compar) k l) as [_ Hin]%list_elem_of_filter by (rewrite Hab; by left).
  split; [done|].
  destruct (Forall_in _ _ _ (no_nodes _ _ _ _ (sk_nodes _ _ _ _ Hsl)) Hin) as (ty & ps & He & Hty & Hl).
  exists ty, ps. split_and!; auto. apply (ent_off _ _ _ Hwf) in He as [_ Ho].
  unfold DUMMY_OFFSET, HEADER_SIZE in Ho. lia.
Qed.

Definition found (k : bytes) : bool :=
  match above (compar := compar) k l with x :: _ => bool_decide (n_key x = k) | [] => false end.

Lemma wp_find_key k Q g hl pos t :
  covers g (ser hd es) → keyok k →
  Q (hd_off (above (compar := compar) k l), prev_offs (compar := compar) k l (maxl hd), found k)
    (S_ (ser hd es) hd g hl pos t) →
  wp (find_key compar k) Q (S_ (ser hd es) hd g hl pos t).
Proof using Hwf Hsl KO.
  intros Hc Hk HQ. unfold find_key. apply wp_bind, wp_find_node; [done|done|].
  unfold found in HQ. destruct (above k l) as [|x rest] eqn:Hab; cbn [hd_off] in *.
  - rewrite Z.eqb_refl. by apply wp_ret.
  - destruct (above_node k x rest Hab) as (Hin & ty & ps & He & _ & _ & Hne).
    destruct (Z.eqb_spec (n_off x) 0); [done|].
    apply wp_bind. eapply wp_read; [done| |].
    { eapply rec_key_at; [by apply (ser_at hd _ _ _ He)|by eapply wf_ent]. }
    apply wp_ret.
    assert (keyok (n_key x)) as Hkx.
    { exact (Forall_in _ _ _ (no_keys _ _ _ _ (sk_nodes _ _ _ _ Hsl)) Hin). }
    replace (compar (n_key x) k =? 0) with (bool_decide (n_key x = k)); [done|].
    pose proof (ko_eq (n_key x) k Hkx Hk) as Heq.
    destruct (Z.eqb_spec (compar (n_key x) k) 0); [apply bool_decide_eq_true|apply bool_decide_eq_false]; tauto.
Qed.
End Reading.

(** [contents] at a key is decided by the first record not below it. *)
Lemma keys_nodup l :
  sorted (compar := compar) l → keys_ok (keyok := keyok) l → NoDup (n_key <$> l).
Proof using KO.
  induction 1 as [|n l Hs IH Hn]; intros Hk; [constructor|]. inversion_clear Hk as [|?? Hkn Hkl].
  cbn. constructor; [|by apply IH]. intros (x & Hx & Hin)%list_elem_of_fmap.
  pose proof (Forall_in _ _ _ Hn Hin) as H. unfold node_lt in H. rewrite <- Hx in H.
  assert (compar (n_key n) (n_key n) = 0) by by apply ko_eq. lia.
Qed.

Lemma contents_nodup l :
  NoDup (n_key <$> l) → NoDup ((λ n, (n_key n, n_data n)) <$> l).*1.
Proof using. by rewrite <- list_fmap_compose. Qed.

Lemma contents_in l x :
  NoDup (n_key <$> l) → x ∈ l → contents l !! n_key x = Some (n_data x).
Proof using.
  intros Hnd Hin. apply elem_of_list_to_map; [by apply contents_nodup|].
  apply list_elem_of_fmap. eauto.
Qed.

Lemma contents_none l k : Forall (λ n, n_key n ≠ k) l → contents l !! k = None.
Proof using.
  intros H. apply not_elem_of_list_to_map. rewrite <- list_fmap_compose.
  intros (x & Hx & Hin)%list_elem_of_fmap. pose proof (Forall_in _ _ _ H Hin) as Hne. by apply Hne.
Qed.

Lemma contents_lookup es c m l k :
  slist es c m l → keyok k →
  contents l !! k = match above (compar := compar) k l with
                    | x :: _ => if decide (n_key x = k) then Some (n_data x) else None
                    | [] => None
                    end.
Proof using KO.
  intros Hsl Hk. pose proof (sk_nodes _ _ _ _ Hsl) as Hno.
  pose proof (no_sorted _ _ _ _ Hno) as Hs. pose proof (no_keys _ _ _ _ Hno) as Hko.
  destruct (above_cases k l Hs Hko Hk) as [(x & b & Hab & Hx)|[Hnone Hab]].
  - rewrite Hab, decide_True by done. rewrite <- Hx. apply contents_in; [by apply keys_nodup|].
    assert (x ∈ above (compar := compar) k l) as [_ Hin]%list_elem_of_filter by (rewrite Hab; by left). done.
  - rewrite contents_none by done. destruct (above k l) as [|x b] eqn:Hb; [done|].
    rewrite decide_False; [done|]. apply (Forall_in _ _ _ Hnone).
    assert (x ∈ above (compar := compar) k l) as [_ Hin]%list_elem_of_filter by (rewrite Hb; by left). done.
Qed.

(** ** Writing a state out *)

Lemma open_db_S s ino hd es l :
  open_db s ino hd es l →
  ∃ c pos, c ≠ 0 ∧ names (fs s) !! fname s = Some ino ∧
    s = S_ ino (inodes (fs s)) (names (fs s)) (nextino (fs s)) (fname s) (ser hd es)
          (set_curlevel c hd) (mp s) (held (fs s)) pos (ticks (fs s)).
Proof using.
  intros [[pos Hfd] Hf Hn [c [Hc Hh]] Hm _ _ _ _]. exists c, pos. split_and!; auto.
  unfold S_. rewrite insert_id by done. destruct s as [[]]; cbn in *. by subst.
Qed.

Lemma in_txn_S s ino hd es l t :
  in_txn s ino hd es l t →
  ∃ pos, s = S_ ino (inodes (fs s)) (names (fs s)) (nextino (fs s)) (fname s) (ser hd es)
          hd (mp s) (held (fs s)) pos (ticks (fs s)).
Proof using.
  intros [[pos Hfd] Hf Hn Hh Hm _ _ _ _ _ _]. exists pos.
  unfold S_. rewrite insert_id by done. destruct s as [[]]; cbn in *. by subst.
Qed.

(** A handle that has just refreshed its mapping. *)
Definition fresh (ino : Z) (g : mapping) (m : bytes) : Prop :=
  covers ino g m ∧ map_size g = blen m ∧ map_ino g = ino.

Lemma S_open_db ino others nm nx name hd es l g hl pos t :
  nm !! name = Some ino → no_new nm nx name ino → header_ok hd → wf_file es → slist es (curl hd) (maxl hd) l →
  mapping_ok ino g → open_db (S_ ino others nm nx name (ser hd es) hd g hl pos t) ino hd es l.
Proof using.
  intros Hn Hnew Hh Hwf Hsl Hg. split; cbn; auto.
  - eauto.
  - by rewrite lookup_insert_eq.
  - exists (curlevel hd). rewrite set_curlevel_same. split; [|done]. destruct Hh as (_ & _ & ? & _). lia.
Qed.

Lemma S_in_txn ino others nm nx name hd es l g hl pos t x :
  nm !! name = Some ino → no_new nm nx name ino → header_ok hd → wf_file es → slist es (curl hd) (maxl hd) l →
  map_of g = ino → map_ino g = ino → 0 < map_len g → hl !! ino = Some LExclusive →
  t_logend x = blen (ser hd es) →
  in_txn (S_ ino others nm nx name (ser hd es) hd g hl pos t) ino hd es l x.
Proof using.
  intros. split; cbn; auto; [eauto|]. by rewrite lookup_insert_eq.
Qed.

Lemma fresh_ok ino g hd es : fresh ino g (ser hd es) → mapping_ok ino g ∧ 0 < map_len g.
Proof using.
  intros ((Ho & Hl) & Hs & Hi). rewrite blen_ser in Hl. pose proof (lsize_nonneg es).
  split; [|lia]. split; [lia|]. intros _. by right.
Qed.

Lemma open_refresh hd c : c ≠ 0 →
  (if curlevel (set_curlevel c hd) =? 0 then set_curlevel c hd
   else set_curlevel (curlevel hd) (set_curlevel c hd)) = hd.
Proof using.
  intros Hc. cbn. destruct (Z.eqb_spec c 0); [done|]. rewrite set_curlevel_set. apply set_curlevel_same.
Qed.

(** ** Fetching *)

Section Fetch.
Context (Hcalls : ∀ n, fails n = false).

(** What [myfetch] gives for a key. *)
Definition fetched (l : list node) (k : bytes) : Z * option bytes :=
  match contents l !! k with Some d => (0, Some d) | None => (CYRUSDB_NOTFOUND, None) end.

Lemma wp_fetch_data ino others nm nx name hd es l k Q g hl pos t :
  wf_file es → slist es (curl hd) (maxl hd) l → keyok k → covers ino g (ser hd es) →
  Q (fetched l k) (S_ ino others nm nx name (ser hd es) hd g hl pos t) →
  wp (if found l k then d ← rd (λ m, rec_data m (hd_off (above (compar := compar) k l))); mret (0, Some d)
      else mret (CYRUSDB_NOTFOUND, None)) Q (S_ ino others nm nx name (ser hd es) hd g hl pos t).
Proof using KO.
  intros Hwf Hsl Hk Hc HQ.
  unfold fetched in HQ. rewrite (contents_lookup _ _ _ _ _ Hsl Hk) in HQ. unfold found.
  destruct (above k l) as [|x rest] eqn:Hab; [by apply wp_ret|]. cbn [hd_off].
  destruct (decide (n_key x = k)) as [Hx|Hx];
    [rewrite bool_decide_true by done|rewrite bool_decide_false by done; by apply wp_ret].
  destruct (above_node hd es l Hwf Hsl k x rest Hab) as (_ & ty & ps & He & _).
  apply wp_bind. eapply wp_read; [done| |by apply wp_ret].
  eapply rec_data_at; [by apply (ser_at hd _ _ _ He)|by eapply wf_ent].
Qed.

(** Outside a transaction: a read lock for the call. *)
Lemma fetch_open s ino hd es l k :
  open_db s ino hd es l → keyok k →
  wp (myfetch compar k NoTid) (λ a s', a = (fetched l k, None) ∧ open_db s' ino hd es l ∧
    inodes (fs s') = inodes (fs s) ∧ held (fs s') = delete ino (held (fs s))) s.
Proof using KO Hcalls.
  intros Ho Hk. pose proof Ho as [_ Hfile _ _ Hm Hh Hwf Hsl].
  destruct (open_db_S _ _ _ _ _ Ho) as (c & pos & Hc & Hn & ->). cbn in Hfile.
  unfold myfetch, start_read. apply wp_bind, wp_bind. apply (wp_read_lock Hcalls); [done|done|done|].
  intros g' t' Hcov Hsz Hino. rewrite open_refresh by done. apply wp_ret. cbn [fst snd Z.ltb Z.compare].
  apply wp_bind; eapply wp_find_key; [done..|]. apply wp_bind; eapply wp_fetch_data; [done..|].
  destruct (fetched l k) as [r d] eqn:Hf.
  apply wp_bind. apply (wp_unlock Hcalls). apply wp_ret. split; [done|]. split; [|split].
  - apply S_open_db; try done. by apply (fresh_ok ino g' hd es).
  - cbn. by rewrite insert_id.
  - cbn. by rewrite delete_insert_eq.
Qed.

(** In a transaction: nothing but the mapping changes. *)
Lemma fetch_txn s ino hd es l k x :
  in_txn s ino hd es l x → keyok k →
  wp (myfetch compar k (OldTid x)) (λ a s', a = (fetched l k, Some x) ∧ in_txn s' ino hd es l x ∧
    inodes (fs s') = inodes (fs s) ∧ held (fs s') = held (fs s)) s.
Proof using KO.
  intros Ho Hk. pose proof Ho as [_ Hfile Hn _ (Hm1 & Hm2 & Hm3) Hh Hwf Hsl Hheld Hlog].
  destruct (in_txn_S _ _ _ _ _ _ Ho) as (pos & ->). cbn in Hfile, Hn, Hm1, Hm2, Hm3, Hheld.
  pose proof (blen_ser hd es) as Hb. pose proof (lsize_nonneg es).
  unfold myfetch, start_read. apply wp_bind, wp_bind, wp_update_lock; [done|lia|].
  intros g' H1 H2 H3 H4. apply wp_ret. cbn [fst snd Z.ltb Z.compare].
  assert (covers ino g' (ser hd es)) as Hcov by (split; [done|lia]).
  apply wp_bind; eapply wp_find_key; [done..|]. apply wp_bind; eapply wp_fetch_data; [done..|].
  destruct (fetched l k) as [r d] eqn:Hf. apply wp_ret. split; [done|]. split; [|split].
  - apply S_in_txn; try done; [congruence|lia].
  - cbn. by rewrite insert_id.
  - done.
Qed.

(** Beginning a transaction: the write lock stays. *)
Lemma fetch_begin s ino hd es l k :
  open_db s ino hd es l → keyok k →
  wp (myfetch compar k NewTid) (λ a s', ∃ x, a = (fetched l k, Some x) ∧ in_txn s' ino hd es l x ∧
    t_logstart x = blen (ser hd es) ∧ inodes (fs s') = inodes (fs s)) s.
Proof using KO Hcalls.
  intros Ho Hk. pose proof Ho as [_ Hfile _ _ Hm Hh Hwf Hsl].
  destruct (open_db_S _ _ _ _ _ Ho) as (c & pos & Hc & Hn & ->). cbn in Hfile.
  unfold myfetch, start_read. apply wp_bind, wp_bind. apply (wp_write_lock Hcalls); [done|done|done|].
  intros g' t' Hcov Hsz Hino. rewrite open_refresh by done. cbn [Z.ltb Z.compare].
  apply wp_bind. unfold newtxn. wstep. cbn [mp SkipRun.S_]. apply wp_ret, wp_ret. cbn [fst snd Z.ltb Z.compare].
  apply wp_bind; eapply wp_find_key; [done..|]. apply wp_bind; eapply wp_fetch_data; [done..|].
  destruct (fetched l k) as [r d] eqn:Hf. apply wp_ret. eexists. split; [done|].
  destruct (fresh_ok ino g' hd es) as [_ ?]; [done|]. destruct Hcov. split; [|split].
  - apply S_in_txn; try done. by rewrite lookup_insert_eq.
  - done.
  - cbn. by rewrite insert_id.
Qed.
End Fetch.
End Db.
