(* ===== verification/SkipWrite.v ===== *)
(** * SkipWrite: storing, deleting and committing

    [mystore] and [mydelete] on a file with a sound list take the steps of
    [SkipStep]; on the finite map a file represents they are insertion and
    deletion. *)
From S2P Require Import Prelude CMem.
From stdpp Require Import gmap sorting list.
From S2P Require Import CFile Prog DbFile CyrusDb BSearch Skiplist DbOrder SkipFile SkipList SkipStep SkipRun.
From S2P Require Import SkipFetch.
#[local] Open Scope Z_scope.

(** ** Entries appended *)

Lemma ser_snoc h es e : ser h (es ++ [e]) = ser h es ++ ebytes e.
Proof. by rewrite ser_app, fmap_cons, mjoin_cons, app_nil_r. Qed.

Lemma wr_end h es bs : wr (ser h es) (blen (ser h es)) bs = ser h es ++ bs.
Proof. apply wr_append. Qed.

Lemma add_bytes_rec k d ps : add_bytes k d ps = ebytes (ERec ADD k d ps).
Proof. done. Qed.

Section Write.
Context `{E : Env} `{KO : KeyOrder compar keyok}.

Abbreviation slist := (slist (compar := compar) (keyok := keyok)).
Abbreviation below := (below (compar := compar)).
Abbreviation above := (above (compar := compar)).
Abbreviation prev_off := (prev_off (compar := compar)).
Abbreviation prev_offs := (prev_offs (compar := compar)).

Lemma slist_app es tl c m l : slist es c m l → slist (es ++ tl) c m l.
Proof using.
  intros [Hno Hl]. split; [by eapply nodes_ok_shape|]. intros i Hi.
  eapply links_ext; [|by apply Hl]. intros x Hx. eapply fwd_known; [done|]. by eapply in_at_lvl.
Qed.

(** What an active record points to. *)
Lemma node_fwd es c m l k x rest i :
  slist es c m l → keyok k → above k l = x :: rest → (i < n_lvl x)%nat →
  fwd es (n_off x) i = Some (succs i rest).
Proof using KO.
  intros [Hno Hl] Hk Hab Hi.
  pose proof (sorted_split k l (no_sorted _ _ _ _ Hno) (no_keys _ _ _ _ Hno) Hk) as Hs. rewrite Hab in Hs.
  assert (n_lvl x ≤ m)%nat as Hx.
  { assert (x ∈ l) as Hin by (rewrite Hs; apply elem_of_app; right; by left).
    pose proof (Forall_in _ _ _ (no_lvl _ _ _ _ Hno) Hin) as H. cbn in H.
    pose proof (no_curl _ _ _ _ Hno). lia. }
  specialize (Hl i ltac:(lia)). rewrite Hs, at_lvl_app, at_lvl_cons, decide_True in Hl by done.
  rewrite cons_middle, app_assoc in Hl. apply links_next in Hl. rewrite last_off_app in Hl. exact Hl.
Qed.

(** The record found is in front of nothing on its levels but what [prev_off] says. *)
Lemma prev_ne es c m l k x rest i :
  slist es c m l → keyok k → above k l = x :: rest → prev_off k l i ≠ n_off x.
Proof using KO.
  intros [Hno _] Hk Hab. pose proof (offs_nodup _ _ _ _ Hno) as Hnd.
  pose proof (sorted_split k l (no_sorted _ _ _ _ Hno) (no_keys _ _ _ _ Hno) Hk) as Hs.
  rewrite Hs, Hab, fmap_app, fmap_cons, app_comm_cons in Hnd.
  apply NoDup_app in Hnd as (_ & Hd & _). intros E'. apply (Hd (n_off x)); [|by left].
  rewrite <- E'. unfold prev_off. eapply in_at_lvl, last_off_in.
Qed.

Lemma forwards_ok hd es c m l k n i :
  wf_file es → slist es c m l → keyok k → (i + n ≤ m)%nat →
  forwards n (ser hd es) (prev_offs k l m) (Z.of_nat i) = Ok ((λ j, succs j (above k l)) <$> seq i n).
Proof using KO.
  intros Hwf Hsl Hk. revert i. induction n as [|n IH]; intros i Hi; [done|]. cbn [forwards].
  rewrite uget_prev by lia. cbn [mbind result_bind].
  rewrite (FORWARD_fwd _ _ _ _ _ Hwf (prev_off_fwd es c m l k i Hsl Hk ltac:(lia))).
  cbn [mbind result_bind]. replace (Z.of_nat i + 1) with (Z.of_nat (S i)) by lia.
  rewrite IH by lia. done.
Qed.

Lemma forwards_of_ok hd es c m l k x rest n i :
  wf_file es → slist es c m l → keyok k → above k l = x :: rest → (i + n = n_lvl x)%nat →
  forwards_of n (ser hd es) (n_off x) (Z.of_nat i) = Ok ((λ j, succs j rest) <$> seq i n).
Proof using KO.
  intros Hwf Hsl Hk Hab. revert i. induction n as [|n IH]; intros i Hi; [done|]. cbn [forwards_of].
  rewrite (FORWARD_fwd _ _ _ _ _ Hwf (node_fwd _ _ _ _ _ _ _ i Hsl Hk Hab ltac:(lia))).
  cbn [mbind result_bind]. replace (Z.of_nat i + 1) with (Z.of_nat (S i)) by lia.
  rewrite IH by lia. done.
Qed.

(** ** The map the file represents *)

Lemma contents_middle a x b :
  NoDup (n_key <$> a ++ x :: b) →
  contents (a ++ x :: b) = <[n_key x := n_data x]> (contents (a ++ b)) ∧
  contents (a ++ b) !! n_key x = None.
Proof using.
  intros Hnd. pose proof (Permutation_middle a b x) as Hp. split.
  - transitivity (contents (x :: a ++ b)); [|done]. unfold contents. symmetry.
    apply list_to_map_proper; [|by rewrite Hp]. apply contents_nodup. by rewrite Hp.
  - rewrite <- Hp in Hnd. cbn in Hnd. apply NoDup_cons in Hnd as [Hnd _].
    apply contents_none, Forall_forall. intros n Hn E'. apply Hnd. rewrite <- E'.
    by apply list_elem_of_fmap_2.
Qed.

Lemma slist_keys_nodup es c m l : slist es c m l → NoDup (n_key <$> l).
Proof using KO. intros [[Hs Hk _ _ _ _] _]. by apply keys_nodup. Qed.

Lemma contents_remove es c m l k x rest :
  slist es c m l → keyok k → above k l = x :: rest → n_key x = k →
  contents (below k l ++ rest) = delete k (contents l).
Proof using KO.
  intros Hsl Hk Hab <-. pose proof (sk_nodes _ _ _ _ Hsl) as Hno.
  pose proof (slist_keys_nodup _ _ _ _ Hsl) as Hnd.
  pose proof (sorted_split (n_key x) l (no_sorted _ _ _ _ Hno) (no_keys _ _ _ _ Hno) Hk) as Hsp.
  rewrite Hab in Hsp. set (a := below (n_key x) l) in *. clearbody a. subst l.
  destruct (contents_middle a x rest Hnd) as [-> Hn]. by rewrite delete_insert_id.
Qed.

Lemma contents_add l k d o lvl :
  sorted (compar := compar) l → keys_ok (keyok := keyok) l → keyok k → Forall (λ n, n_key n ≠ k) l →
  contents (below k l ++ Node o k d lvl :: above k l) = <[k := d]> (contents l).
Proof using KO.
  intros Hs Hko Hk Hnew. pose proof (keys_nodup _ Hs Hko) as Hnd.
  pose proof (sorted_split k l Hs Hko Hk) as Hsp.
  transitivity (<[k := d]> (contents (below k l ++ above k l))); [|by rewrite <- Hsp].
  apply (contents_middle _ (Node o k d lvl)). rewrite <- Permutation_middle. cbn.
  rewrite <- Hsp. constructor; [|done].
  intros (n & E' & Hn)%list_elem_of_fmap. by apply (Forall_in _ _ _ Hnew Hn).
Qed.

(** ** Steps of a transaction *)

Inductive wr_op : header → list entry → list node → header → list entry → list node → Prop :=
  | op_add hd es l k d lvl :
      keyok k → Forall (λ n, n_key n ≠ k) l → (1 ≤ lvl ≤ maxl hd)%nat →
      wf_file (add_step (compar := compar) es k d l lvl) →
      wr_op hd es l (set_curlevel (Z.max (curlevel hd) (Z.of_nat lvl)) hd)
        (add_step (compar := compar) es k d l lvl) (below k l ++ Node (new_off es) k d lvl :: above k l)
  | op_del hd es l k x rest :
      keyok k → above k l = x :: rest → n_key x = k →
      wf_file (del_step (compar := compar) es k l x rest) →
      wr_op hd es l hd (del_step (compar := compar) es k l x rest) (below k l ++ rest).

(** The history of a transaction. *)
Inductive wr_ops (hd0 : header) (es0 : list entry) (l0 : list node)
    : header → list entry → list node → Prop :=
  | ops_nil : wr_ops hd0 es0 l0 hd0 es0 l0
  | ops_snoc hd es l hd' es' l' :
      wr_ops hd0 es0 l0 hd es l → wr_op hd es l hd' es' l' → wr_ops hd0 es0 l0 hd' es' l'.

Lemma wr_ops_trans hd0 es0 l0 hd1 es1 l1 hd2 es2 l2 :
  wr_ops hd0 es0 l0 hd1 es1 l1 → wr_ops hd1 es1 l1 hd2 es2 l2 → wr_ops hd0 es0 l0 hd2 es2 l2.
Proof using. intros H1 H2. induction H2; [done|]. by eapply ops_snoc. Qed.

Lemma header_ok_level hd lvl :
  header_ok hd → 1 ≤ lvl ≤ maxlevel hd → header_ok (set_curlevel (Z.max (curlevel hd) lvl) hd).
Proof using. unfold header_ok. cbn. intros (? & ? & ? & ? & ? & ? & ?) ?. split_and!; auto; lia. Qed.

Lemma wr_op_slist hd es l hd' es' l' :
  header_ok hd → slist es (curl hd) (maxl hd) l → wr_op hd es l hd' es' l' →
  header_ok hd' ∧ slist es' (curl hd') (maxl hd') l' ∧ wf_file es'.
Proof using KO.
  intros Hh Hsl Hop. pose proof Hh as (_ & _ & Hc & _). destruct Hop.
  - unfold maxl in *. split; [apply header_ok_level; [done|lia]|]. split; [|done].
    replace (curl _) with (Nat.max (curl hd) lvl) by (unfold curl; cbn; lia).
    by apply skip_add.
  - split; [done|]. split; [|done]. by apply skip_del.
Qed.

(** What is left without the record found splits at its key as before. *)
Lemma split_removed es c m l k x rest :
  slist es c m l → keyok k → above k l = x :: rest →
  below k (below k l ++ rest) = below k l ∧ above k (below k l ++ rest) = rest.
Proof using.
  intros _ Hk Hab.
  assert (Forall (λ n, compar (n_key n) k < 0) (below k l)) as Hb.
  { apply Forall_forall. by intros n [? _]%list_elem_of_filter. }
  assert (Forall (λ n, ¬ compar (n_key n) k < 0) rest) as Hr.
  { apply Forall_forall. intros n Hn. assert (n ∈ above k l) as [? _]%list_elem_of_filter; [|done].
    rewrite Hab. by right. }
  by rewrite below_app, above_app, (below_all k (below k l)), (below_none k rest), (above_none k (below k l)),
    (above_all k rest), app_nil_r by done.
Qed.

Lemma removed_new es c m l k x rest :
  slist es c m l → keyok k → above k l = x :: rest → n_key x = k →
  Forall (λ n, n_key n ≠ k) (below k l ++ rest).
Proof using KO.
  intros Hsl Hk Hab Hx. pose proof (slist_keys_nodup _ _ _ _ Hsl) as Hnd.
  destruct Hsl as [[Hs Hko _ _ _ _] _].
  rewrite (sorted_split k l Hs Hko Hk), Hab, <- Permutation_middle in Hnd. cbn in Hnd.
  apply NoDup_cons in Hnd as [Hn _]. apply Forall_forall. intros n Hin E'. apply Hn.
  apply list_elem_of_fmap. exists n. split; [congruence|done].
Qed.

(** A replacement is a deletion and an addition: the pointers in front are
    written once. *)
Lemma replace_step es c m l k d x rest :
  slist es c m l → keyok k → above k l = x :: rest →
  add_step (compar := compar) (del_step (compar := compar) es k l x rest) k d (below k l ++ rest) (n_lvl x)
    = setps es (n_lvl x) (prev_off k l) (λ _, new_off es + 8)
        ++ [EDel (n_off x); ERec ADD k d ((λ i, succs i rest) <$> seq 0 (n_lvl x))].
Proof using KO.
  intros Hsl Hk Hab. destruct (split_removed _ _ _ _ _ _ _ Hsl Hk Hab) as [Hb Ha].
  assert (n_lvl x ≤ m)%nat as Hx.
  { assert (x ∈ above k l) as [_ Hin]%list_elem_of_filter by (rewrite Hab; by left).
    pose proof (sk_nodes _ _ _ _ Hsl) as Hno.
    pose proof (Forall_in _ _ _ (no_lvl _ _ _ _ Hno) Hin) as H. cbn in H.
    pose proof (no_curl _ _ _ _ Hno). lia. }
  assert (∀ i, (i < n_lvl x)%nat → is_Some (fwd es (prev_off k l i) i)) as Hsome.
  { intros i Hi. rewrite (prev_off_fwd es c m) by (try done; lia). eauto. }
  assert (∀ i, prev_off k (below k l ++ rest) i = prev_off k l i) as Hprev.
  { intros i. unfold SkipList.prev_off. by rewrite Hb. }
  assert (new_off (del_step (compar := compar) es k l x rest) = new_off es + 8) as Hnew.
  { unfold new_off, del_step, del_ptrs. rewrite lsize_app, lsize_cons, (shape_lsize _ es) by apply shape_setps.
    change (esize (EDel (n_off x))) with 8. change (lsize []) with 0. lia. }
  unfold add_step, new_ptrs. rewrite Ha. unfold add_ptrs. rewrite Hnew.
  rewrite (setps_ext _ _ _ (prev_off k l) _ (λ _, new_off es + 8)) by done.
  unfold del_step, del_ptrs. rewrite setps_app.
  - rewrite setps_again by done. by rewrite <- app_assoc.
  - intros i Hi. rewrite fwd_setps by done. rewrite decide_True by done. eauto.
Qed.

(** ** [store_entry] *)

Section Calls.
Context (Hcalls : ∀ n, fails n = false) (Hroom : 2147483648 ≤ file_limit).
Context (ino : Z) (others : gmap Z bytes) (nm : gmap bytes Z) (nx : Z) (name : bytes).
Abbreviation S_ := (S_ ino others nm nx name).
Abbreviation covers := (covers ino).

Lemma wp_write_header Q es hd hd' g hl pos t :
  blen (ser hd es) ≤ 2147483648 →
  (∀ pos', Q 0 (S_ (ser hd' es) hd' g hl pos' t)) →
  wp write_header Q (S_ (ser hd es) hd' g hl pos t).
Proof using Hroom.
  intros Hsz HQ. unfold write_header. wstep. cbn [hdr SkipRun.S_].
  apply wp_bind, wp_lseek; [lia|]. apply wp_bind, (wp_write Hroom); [done|lia|by rewrite blen_header|].
  rewrite blen_header, ser_header. cbn [Z.eqb HEADER_SIZE negb Pos.eqb]. apply wp_ret, HQ.
Qed.

Lemma wp_randlvl_loop fuel mx lvl Q m h g hl pos t :
  is_u32 mx → 1 ≤ lvl ≤ mx → mx - lvl < Z.of_nat fuel →
  (∀ lvl' t', 1 ≤ lvl' ≤ mx → Q lvl' (S_ m h g hl pos t')) →
  wp (randlvl_loop fuel mx lvl) Q (S_ m h g hl pos t).
Proof using.
  intros Hmx. revert lvl t. induction fuel as [|fuel IH]; intros lvl t Hl Hf HQ; [lia|].
  cbn [randlvl_loop]. unfold rand_below_prob. apply wp_bind, wp_bind.
  eapply wp_intro; [reflexivity|]. apply wp_ret. rewrite to_u32_small by done.
  destruct (_ && _) eqn:Hc; [|by apply wp_ret, HQ].
  apply andb_true_iff in Hc as [_ Hc%Z.ltb_lt]. apply (IH (lvl + 1)); [lia|lia|]. apply HQ.
Qed.

Lemma wp_randlvl Q m h g hl pos t :
  1 ≤ maxlevel h ≤ 20 →
  (∀ lvl t', 1 ≤ lvl ≤ maxlevel h → Q lvl (S_ m h g hl pos t')) →
  wp randlvl Q (S_ m h g hl pos t).
Proof using.
  intros Hm HQ. unfold randlvl. wstep. cbn [hdr SkipRun.S_].
  apply wp_randlvl_loop.
  - unfold is_u32. lia.
  - lia.
  - rewrite to_u32_small by (unfold is_u32; lia). lia.
  - intros lvl t' Hl. by apply HQ.
Qed.

(** Raising the current level leaves the positions as they are. *)
Lemma raise_levels k l m (c : nat) n :
  (c + n ≤ m)%nat → Forall (λ x, (n_lvl x ≤ c)%nat) l →
  foldl (λ u i, u ← u; uset u (Z.of_nat c + Z.of_nat i) DUMMY_OFFSET) (Ok (prev_offs k l m)) (seq 0 n)
    = Ok (prev_offs k l m).
Proof using.
  intros Hm Hl. induction n as [|n IH]; [done|].
  rewrite seq_S, foldl_app, IH by lia. cbn [foldl mbind result_bind]. unfold uset.
  assert (length (prev_offs k l m) = m) as Hlen by (unfold SkipList.prev_offs; by rewrite length_fmap, length_seq).
  rewrite Hlen. destruct (Z.leb_spec 0 (Z.of_nat c + Z.of_nat (0 + n))); [|lia].
  destruct (Z.ltb_spec (Z.of_nat c + Z.of_nat (0 + n)) (Z.of_nat m)); [|lia]. cbn [andb]. f_equal.
  apply list_insert_id. replace (Z.to_nat _) with (c + n)%nat by lia.
  rewrite prev_offs_lookup by lia. f_equal. apply prev_off_high.
  eapply Forall_impl; [exact Hl|]. cbn. lia.
Qed.

(** A level is chosen, and the header raised to it. *)
Lemma wp_new_level Q hd es l k g hl pos t :
  header_ok hd → slist es (curl hd) (maxl hd) l → wf_file es → keyok k →
  (∀ lvl pos' t', 1 ≤ lvl ≤ maxlevel hd →
     let hd' := set_curlevel (Z.max (curlevel hd) lvl) hd in
     Q (lvl, prev_offs k l (maxl hd)) (S_ (ser hd' es) hd' g hl pos' t')) →
  wp (new_level (prev_offs k l (maxl hd))) Q (S_ (ser hd es) hd g hl pos t).
Proof using Hroom.
  intros Hh Hsl Hwf Hk HQ. pose proof Hh as (_ & _ & Hc & Hm & _).
  unfold new_level. apply wp_bind, wp_randlvl; [lia|]. intros lvl t' Hl. wstep. cbn [hdr SkipRun.S_].
  rewrite to_u32_small by (unfold is_u32; lia). specialize (HQ lvl).
  destruct (Z.ltb_spec (curlevel hd) lvl).
  - rewrite Z.max_r in HQ by lia. apply wp_bind. eapply wp_liftr.
    { replace (curlevel hd) with (Z.of_nat (curl hd)) by (unfold curl; lia).
      apply raise_levels; [unfold maxl, curl; lia|].
      eapply Forall_impl; [apply (no_lvl _ _ _ _ (sk_nodes _ _ _ _ Hsl))|]. cbn. lia. }
    apply wp_bind. unfold modify_hdr. wstep. cbn [set_hdr hdr SkipRun.S_].
    apply wp_bind. change (set_hdr ?h' (S_ ?m ?h ?g ?hl ?p ?t)) with (S_ m h' g hl p t).
    apply wp_write_header; [rewrite blen_ser; destruct Hwf; unfold DUMMY_OFFSET, HEADER_SIZE in *; lia|].
    intros pos'. by apply wp_ret, HQ.
  - rewrite Z.max_l in HQ by lia. replace (set_curlevel (curlevel hd) hd) with hd in HQ by by destruct hd.
    apply wp_ret. by apply HQ.
Qed.

(** The new record at the end. *)
Lemma wp_append {A} Q (k : Z → M A) n hd es bs tl h g hl pos t :
  n = blen (ser hd es) → bs = mjoin (ebytes <$> tl) → bs ≠ [] →
  blen (ser hd es) + blen bs ≤ 2147483648 →
  (∀ pos', wp (k (blen bs)) Q (S_ (ser hd (es ++ tl)) h g hl pos' t)) →
  wp (_ ← c_lseek_set n; r ← retry_write bs; k r) Q (S_ (ser hd es) h g hl pos t).
Proof using Hroom.
  intros -> -> Hne Hsz HQ. pose proof (blen_nonneg (ser hd es)). apply wp_bind, wp_lseek; [done|].
  apply wp_bind, (wp_write Hroom); [done|done|lia|]. rewrite wr_end, <- ser_app. apply HQ.
Qed.

(** Taking the record found out of the list. *)
Lemma wp_unlink es tl c m l k x rest n Q hd h g hl pos t :
  slist es c m l → wf_file (es ++ tl) → covers g (ser hd (es ++ tl)) → keyok k → above k l = x :: rest →
  (c ≤ n ≤ m)%nat →
  (∀ pos', Q tt (S_ (ser hd (del_ptrs (compar := compar) es k l x rest ++ tl)) h g hl pos' t)) →
  wp (unlink_loop n 0 (prev_offs k l m) (n_off x)) Q (S_ (ser hd (es ++ tl)) h g hl pos t).
Proof using KO Hroom.
  intros Hsl Hwf Hc Hk Hab Hn HQ. pose proof (sk_nodes _ _ _ _ Hsl) as Hno.
  assert (x ∈ above k l) as [_ Hxl]%list_elem_of_filter by (rewrite Hab; by left).
  pose proof (Forall_in _ _ _ (no_lvl _ _ _ _ Hno) Hxl) as Hlv. cbn in Hlv.
  assert (∀ i, (i < m)%nat → fwd es (prev_off k l i) i = Some (succs i (x :: rest))) as Hpf.
  { intros i Hi. rewrite (prev_off_fwd es c m) by (try done; lia). by rewrite Hab. }
  eapply (wp_unlink_loop Hroom) with (pf := prev_off k l) (lvl := n_lvl x) (v := λ i, succs i rest);
    [done|done|lia| | | | | |].
  - intros i Hi. eapply (fwd_off (es ++ tl) (n_off x) i); [done|]. apply fwd_app_l. by eapply node_fwd.
  - intros i Hi. apply uget_prev. lia.
  - intros i Hi. split; [|apply fwd_app_l; by eapply node_fwd].
    apply fwd_app_l. rewrite Hpf by lia. unfold succs. rewrite at_lvl_cons. by rewrite decide_True by done.
  - intros i Hi. exists (succs i rest). split.
    { apply fwd_app_l. rewrite Hpf by lia. unfold succs. rewrite at_lvl_cons.
      by rewrite decide_False by lia. }
    intros E'. pose proof (offs_nodup _ _ _ _ Hno) as Hnd. destruct Hno as [Hs Hko _ _ _ _].
    rewrite (sorted_split k l Hs Hko Hk), Hab, <- Permutation_middle in Hnd. cbn in Hnd.
    apply NoDup_cons in Hnd as [H0 Hnd]. apply NoDup_cons in Hnd as [Hnd _]. unfold succs in E'.
    destruct (at_lvl i rest) as [|z r] eqn:Hr; cbn [hd_off] in E'.
    + destruct (Forall_in _ _ _ (no_nodes _ _ _ _ (sk_nodes _ _ _ _ Hsl)) Hxl) as (? & ? & He & _).
      apply ent_range in He as [He _]. unfold DUMMY_OFFSET, HEADER_SIZE in He. lia.
    + apply Hnd. rewrite <- E'. apply list_elem_of_fmap_2, elem_of_app. right.
      assert (z ∈ at_lvl i rest) as [_ Hz]%elem_at_lvl; [rewrite Hr; by left|done].
  - intros i _. by eapply prev_ne.
  - intros pos'. rewrite setps_app by (intros i Hi; rewrite Hpf by lia; eauto). apply HQ.
Qed.

Context (hd : header) (es : list entry) (l : list node).
Context (Hhd : header_ok hd) (Hwf : wf_file es) (Hsl : slist es (curl hd) (maxl hd) l).

(** What an operation that wrote leaves. *)
Definition wrote (x : txn) (Q : txn → st → Prop) (k : bytes) (f : gmap bytes bytes → gmap bytes bytes)
    (cost : Z) (g : mapping) (hl : gmap Z lock) : Prop :=
  ∀ hd' es' l' pos' t' x',
    wr_op hd es l hd' es' l' ∨ (∃ hd1 es1 l1, wr_op hd es l hd1 es1 l1 ∧ wr_op hd1 es1 l1 hd' es' l') →
    contents l' = f (contents l) → t_logend x' = blen (ser hd' es') → t_logstart x' = t_logstart x →
    syncfd x' = true → t_logend x' ≤ t_logend x + cost → Q x' (S_ (ser hd' es') hd' g hl pos' t').

(** Room for the largest record the call can write. *)
Definition room (k d : bytes) : Prop :=
  is_off (blen k + 4) ∧ is_off (blen d + 4) ∧ blen (ser hd es) + 8 + rsize k d 20 < 2147483648.

Lemma rsize_le k d n : (n ≤ 20)%nat → rsize k d n ≤ rsize k d 20.
Proof using. unfold rsize. lia. Qed.

Lemma curl_maxl : (curl hd ≤ maxl hd ≤ 20)%nat ∧ Z.of_nat (maxl hd) = maxlevel hd.
Proof using Hhd. destruct Hhd as (_ & _ & ? & ? & _). unfold curl, maxl. lia. Qed.

Lemma wf_new_ptrs k n : keyok k → (n ≤ maxl hd)%nat → Forall is_off (new_ptrs (compar := compar) l k n).
Proof using Hwf Hsl KO.
  intros Hk Hn. unfold new_ptrs. apply Forall_fmap, Forall_forall. intros i Hi%elem_of_seq.
  eapply (fwd_off es (prev_off k l i)); [done|]. eapply prev_off_fwd; [done|done|lia].
Qed.

Lemma wf_add k d lvl :
  keyok k → room k d → (1 ≤ lvl ≤ maxl hd)%nat → wf_file (add_step (compar := compar) es k d l lvl).
Proof using Hhd Hwf Hsl KO.
  intros Hk (Hkl & Hdl & Hsz) Hl. pose proof curl_maxl as [Hm _]. unfold add_step.
  assert (length (new_ptrs (compar := compar) l k lvl) = lvl) as Hlen
    by (unfold new_ptrs; by rewrite length_fmap, length_seq).
  rewrite blen_ser in Hsz. apply wf_snoc.
  - apply wf_setps; [done|]. intros i _. unfold is_off, new_off. destruct Hwf as [_ Hs].
    pose proof (lsize_nonneg es). unfold DUMMY_OFFSET, HEADER_SIZE in *. lia.
  - split_and!; auto; [by right; right|by apply wf_new_ptrs; [|lia]|lia].
  - rewrite (shape_lsize _ es) by apply shape_setps. unfold esize. cbn [ebytes].
    rewrite blen_rec, Hlen by done. pose proof (rsize_le k d lvl ltac:(lia)).
    unfold DUMMY_OFFSET, HEADER_SIZE. lia.
Qed.

(** A new key. *)
Lemma store_new k d overwrite x Q g hl pos t :
  covers g (ser hd es) → keyok k → room k d → t_logend x = blen (ser hd es) →
  contents l !! k = None →
  wrote x (λ x', Q (0, x')) k (λ m, <[k := d]> m) (8 + rsize k d 20) g hl →
  wp (store_entry compar k d overwrite x) Q (S_ (ser hd es) hd g hl pos t).
Proof using Hhd Hwf Hsl KO Hroom.
  intros Hc Hk Hrm Hx Hnone HQ. pose proof (sk_nodes _ _ _ _ Hsl) as Hno.
  pose proof (no_sorted _ _ _ _ Hno) as Hs. pose proof (no_keys _ _ _ _ Hno) as Hko.
  pose proof curl_maxl as [Hcm Hml].
  assert (Forall (λ n, n_key n ≠ k) l) as Hnew.
  { apply Forall_forall. intros n Hn Ek. subst k.
    rewrite (contents_in l n) in Hnone by (try done; by eapply slist_keys_nodup). done. }
  assert (found (compar := compar) l k = false) as Hf.
  { unfold found. destruct (above k l) as [|y rest] eqn:Hab; [done|]. apply bool_decide_false.
    apply (Forall_in _ _ _ Hnew). assert (y ∈ above k l) as [_ ?]%list_elem_of_filter; [|done].
    rewrite Hab. by left. }
  unfold store_entry. apply wp_bind. eapply wp_find_key; [done..|]. rewrite Hf. cbn [andb].
  apply wp_bind, wp_bind. eapply wp_new_level; [done..|]. intros lvl pos' t' Hlvl hd'.
  assert (Z.of_nat (Z.to_nat lvl) = lvl) as Hlz by lia.
  assert (1 ≤ Z.to_nat lvl ≤ maxl hd)%nat as Hln by lia.
  pose proof (wf_add k d _ Hk Hrm Hln) as Hwf'.
  assert (covers g (ser hd' es)) as Hc' by (destruct Hc; split; by rewrite blen_ser in *).
  apply wp_bind. eapply wp_read; [done| |].
  { change 0 with (Z.of_nat 0). eapply forwards_ok; [done|done|done|lia]. }
  apply wp_ret. cbn [fst snd]. change (blen []) with 0.
  apply wp_bind. eapply (wp_link_loop Hroom); [done|done| | |].
  { unfold is_off. rewrite Hx, blen_ser. destruct Hwf as [_ Hw]. pose proof (lsize_nonneg es).
    unfold DUMMY_OFFSET, HEADER_SIZE in Hw. lia. }
  { intros i Hi. split; [by apply uget_prev; lia|].
    rewrite (prev_off_fwd es (curl hd) (maxl hd)) by (try done; lia). eauto. }
  intros pos''. cbn [t_logend getsyncfd].
  rewrite (setps_ext es _ _ (prev_off k l) _ (λ _, new_off es));
    [|intros i _; split; [done|]; rewrite Hx, blen_ser; unfold new_off, DUMMY_OFFSET, HEADER_SIZE; lia].
  fold (add_ptrs (compar := compar) es k l (Z.to_nat lvl)).
  cbn [app]. rewrite add_bytes_rec. fold (new_ptrs (compar := compar) l k (Z.to_nat lvl)).
  set (e := ERec ADD k d (new_ptrs (compar := compar) l k (Z.to_nat lvl))).
  assert (blen (ser hd' (add_ptrs (compar := compar) es k l (Z.to_nat lvl))) = t_logend x) as Hend.
  { rewrite Hx, !blen_ser. by rewrite (shape_lsize _ es) by apply shape_setps. }
  assert (blen (ebytes e) = rsize k d (Z.to_nat lvl)) as He.
  { unfold e. cbn [ebytes]. destruct Hrm as (? & ? & _). rewrite blen_rec by done.
    unfold new_ptrs. by rewrite length_fmap, length_seq. }
  pose proof (rsize_le k d (Z.to_nat lvl) ltac:(lia)). pose proof (blen_nonneg (ebytes e)).
  eapply (wp_append _ _ _ _ _ _ [e]); [done|by rewrite fmap_cons, mjoin_cons, app_nil_r|done| |].
  { destruct Hrm as (_ & _ & ?). rewrite Hend, Hx. lia. }
  intros pos3. destruct (Z.ltb_spec (blen (ebytes e)) 0); [lia|]. apply wp_ret.
  apply (HQ hd' (add_step (compar := compar) es k d l (Z.to_nat lvl))
           (below k l ++ Node (new_off es) k d (Z.to_nat lvl) :: above k l)); try done; [| | |cbn [t_logend add_logend getsyncfd]; lia].
  - left. unfold hd'. rewrite <- Hlz at 1. by apply op_add.
  - by apply contents_add.
  - change (t_logend _) with (t_logend x + blen (ebytes e)). rewrite <- Hend. unfold add_step.
    fold e. rewrite ser_snoc, blen_app. done.
Qed.

(** The record found at a key. *)
Lemma found_node k d :
  contents l !! k = Some d → keyok k →
  ∃ x rest, above k l = x :: rest ∧ n_key x = k ∧ (n_lvl x ≤ maxl hd)%nat ∧ (1 ≤ n_lvl x ≤ curl hd)%nat.
Proof using Hsl KO.
  intros Hd Hk. rewrite (contents_lookup _ _ _ _ _ Hsl Hk) in Hd.
  destruct (above k l) as [|x rest] eqn:Hab; [done|]. case_decide; [|done]. exists x, rest.
  assert (x ∈ above k l) as [_ Hin]%list_elem_of_filter by (rewrite Hab; by left).
  pose proof (sk_nodes _ _ _ _ Hsl) as Hno.
  pose proof (Forall_in _ _ _ (no_lvl _ _ _ _ Hno) Hin) as H'. cbn in H'.
  pose proof (no_curl _ _ _ _ Hno). split_and!; auto; lia.
Qed.

Lemma wf_del k x rest :
  keyok k → above k l = x :: rest → (n_lvl x ≤ maxl hd)%nat → blen (ser hd es) + 8 < 2147483648 →
  wf_file (del_step (compar := compar) es k l x rest).
Proof using Hhd Hwf Hsl KO.
  intros Hk Hab Hx Hsz. rewrite blen_ser in Hsz. unfold del_step. apply wf_snoc.
  - apply wf_setps; [done|]. intros i Hi. eapply (fwd_off es (n_off x) i); [done|].
    by eapply node_fwd.
  - destruct (above_node hd es l Hwf Hsl k x rest Hab) as (_ & ty & ps & He & _).
    by destruct (ent_off _ _ _ Hwf He).
  - unfold del_ptrs. rewrite (shape_lsize _ es) by apply shape_setps.
    change (esize (EDel (n_off x))) with 8. unfold DUMMY_OFFSET, HEADER_SIZE. lia.
Qed.

Lemma wf_replace k d x rest :
  keyok k → room k d → above k l = x :: rest → (n_lvl x ≤ maxl hd)%nat →
  wf_file (setps es (n_lvl x) (prev_off k l) (λ _, new_off es + 8)
    ++ [EDel (n_off x); ERec ADD k d ((λ i, succs i rest) <$> seq 0 (n_lvl x))]).
Proof using Hhd Hwf Hsl KO.
  intros Hk (Hkl & Hdl & Hsz) Hab Hx. pose proof (rsize_le k d (n_lvl x)) as Hrs.
  destruct (above_node hd es l Hwf Hsl k x rest Hab) as (_ & ty & ps & He & _ & Hps & _).
  set (es1 := setps _ _ _ _). assert (lsize es1 = lsize es) as Hl1 by (apply shape_lsize, shape_setps).
  set (e := ERec _ _ _ _). rewrite blen_ser in Hsz.
  assert (0 ≤ rsize k d (n_lvl x) ≤ rsize k d 20) as Hr0.
  { split; [|apply Hrs; destruct curl_maxl; lia]. unfold rsize, is_off in *.
    pose proof (blen_nonneg k). pose proof (blen_nonneg d).
    pose proof (ROUNDUP_bounds (blen k) ltac:(lia)). pose proof (ROUNDUP_bounds (blen d) ltac:(lia)). lia. }
  change [EDel (n_off x); e] with ([EDel (n_off x)] ++ [e]). rewrite app_assoc.
  pose proof (lsize_nonneg es). apply wf_snoc; [apply wf_snoc|..].
  - apply wf_setps; [done|]. intros i _. unfold is_off, new_off, DUMMY_OFFSET, HEADER_SIZE. lia.
  - by destruct (ent_off _ _ _ Hwf He).
  - change (esize (EDel (n_off x))) with 8. rewrite Hl1. unfold DUMMY_OFFSET, HEADER_SIZE. lia.
  - split_and!; auto; [by right; right| |rewrite length_fmap, length_seq; destruct curl_maxl; lia].
    apply Forall_fmap, Forall_forall. intros i Hi%elem_of_seq.
    eapply (fwd_off es (n_off x) i); [done|]. eapply node_fwd; [done..|lia].
  - assert (esize e = rsize k d (n_lvl x)) as ->.
    { unfold e, esize. cbn [ebytes]. rewrite blen_rec by done. by rewrite length_fmap, length_seq. }
    rewrite lsize_app, lsize_cons, Hl1. change (esize (EDel (n_off x))) with 8. change (lsize []) with 0.
    unfold DUMMY_OFFSET, HEADER_SIZE. lia.
Qed.

(** A key that is there is replaced by a record of the same height. *)
Lemma store_replace k d d0 x Q g hl pos t :
  covers g (ser hd es) → keyok k → room k d → t_logend x = blen (ser hd es) →
  contents l !! k = Some d0 →
  wrote x (λ x', Q (0, x')) k (λ m, <[k := d]> m) (8 + rsize k d 20) g hl →
  wp (store_entry compar k d true x) Q (S_ (ser hd es) hd g hl pos t).
Proof using Hhd Hwf Hsl KO Hroom.
  intros Hc Hk Hrm Hx Hd0 HQ. destruct (found_node k d0 Hd0 Hk) as (y & rest & Hab & Hy & Hym & Hy1 & Hyc).
  pose proof curl_maxl as [Hcm Hml]. pose proof (rsize_le k d (n_lvl y) ltac:(lia)) as Hrs.
  assert (0 ≤ rsize k d (n_lvl y)) as Hr0.
  { destruct Hrm as (? & ? & _). unfold rsize, is_off in *. pose proof (blen_nonneg k). pose proof (blen_nonneg d).
    pose proof (ROUNDUP_bounds (blen k) ltac:(lia)). pose proof (ROUNDUP_bounds (blen d) ltac:(lia)). lia. }
  pose proof (wf_del k y rest Hk Hab Hym ltac:(destruct Hrm as (_ & _ & ?); lia)) as Hwf1.
  assert (wr_op hd es l hd (del_step (compar := compar) es k l y rest) (below k l ++ rest)) as Hop1
    by by apply op_del.
  destruct (wr_op_slist _ _ _ _ _ _ Hhd Hsl Hop1) as (_ & Hsl1 & _).
  pose proof (removed_new _ _ _ _ _ _ _ Hsl Hk Hab Hy) as Hnew.
  pose proof (replace_step es (curl hd) (maxl hd) l k d y rest Hsl Hk Hab) as Hstep.
  destruct (above_node hd es l Hwf Hsl k y rest Hab) as (_ & ty & ps & He & _ & Hps & Hne).
  unfold store_entry. apply wp_bind. eapply wp_find_key; [done..|].
  unfold found. rewrite Hab. cbn [hd_off]. rewrite bool_decide_true by done. cbn [andb negb].
  apply wp_bind, wp_bind. eapply wp_read; [done| |].
  { exact (LEVEL_at _ _ _ _ _ _ (ser_at hd _ _ _ He) (wf_ent _ _ _ Hwf He)). }
  rewrite Hps, Nat2Z.id. apply wp_bind. eapply wp_read; [done| |].
  { change 0 with (Z.of_nat 0). eapply forwards_of_ok; [done..|lia]. }
  apply wp_ret. rewrite Nat2Z.id. change (blen (be32 DELETE ++ be32 (n_off y))) with 8.
  assert (t_logend x + 8 = new_off es + 8) as Ho.
  { rewrite Hx, blen_ser. unfold new_off, DUMMY_OFFSET, HEADER_SIZE. lia. }
  rewrite Ho. apply wp_bind. eapply (wp_link_loop Hroom); [done|done| | |].
  { unfold is_off. rewrite <- Ho, Hx. pose proof (blen_nonneg (ser hd es)). destruct Hrm as (_ & _ & ?). lia. }
  { intros i Hi. split; [by apply uget_prev; lia|].
    rewrite (prev_off_fwd es (curl hd) (maxl hd)) by (try done; lia). eauto. }
  intros pos''. cbn [t_logend getsyncfd].
  rewrite (setps_ext es _ _ (prev_off k l) _ (λ _, new_off es + 8)) by done.
  set (es1 := setps es (n_lvl y) (prev_off k l) (λ _, new_off es + 8)).
  rewrite <- app_assoc, add_bytes_rec.
  set (e := ERec ADD k d ((λ j, succs j rest) <$> seq 0 (n_lvl y))).
  assert (blen (ebytes e) = rsize k d (n_lvl y)) as Hel.
  { unfold e. cbn [ebytes]. destruct Hrm as (? & ? & _). rewrite blen_rec by done.
    by rewrite length_fmap, length_seq. }
  assert (blen (ser hd es1) = blen (ser hd es)) as Hend.
  { rewrite !blen_ser. by rewrite (shape_lsize es1 es) by apply shape_setps. }
  assert (blen (be32 DELETE ++ be32 (n_off y) ++ ebytes e) = 8 + rsize k d (n_lvl y)) as Hlen.
  { rewrite !blen_app, Hel, !blen_be32. lia. }
  eapply (wp_append _ _ _ _ _ _ [EDel (n_off y); e]).
  - by rewrite Hend.
  - rewrite !fmap_cons, !mjoin_cons, app_nil_r. cbn [ebytes]. by rewrite <- app_assoc.
  - done.
  - rewrite Hlen, Hend. destruct Hrm as (_ & _ & ?). lia.
  - intros pos3. rewrite Hlen. destruct (Z.ltb_spec (8 + rsize k d (n_lvl y)) 0); [lia|].
    apply wp_ret. unfold es1, e. rewrite <- Hstep.
    assert (wf_file (add_step (compar := compar) (del_step (compar := compar) es k l y rest) k d
      (below k l ++ rest) (n_lvl y))) as Hwf2.
    { rewrite Hstep. by apply wf_replace. }
    assert (wr_op hd (del_step (compar := compar) es k l y rest) (below k l ++ rest)
      (set_curlevel (Z.max (curlevel hd) (Z.of_nat (n_lvl y))) hd)
      (add_step (compar := compar) (del_step (compar := compar) es k l y rest) k d (below k l ++ rest) (n_lvl y))
      (below k (below k l ++ rest) ++ Node (new_off (del_step (compar := compar) es k l y rest)) k d (n_lvl y)
         :: above k (below k l ++ rest))) as Hop2 by (apply op_add; [done..|lia|done]).
    assert (set_curlevel (Z.max (curlevel hd) (Z.of_nat (n_lvl y))) hd = hd) as Hsame.
    { rewrite Z.max_l by (unfold curl in *; lia). apply set_curlevel_same. }
    rewrite Hsame in Hop2. eapply HQ; [right; eauto| | |done|done|cbn [t_logend add_logend getsyncfd]; lia].
    + rewrite contents_add; [|apply (no_sorted _ _ _ _ (sk_nodes _ _ _ _ Hsl1))|
        apply (no_keys _ _ _ _ (sk_nodes _ _ _ _ Hsl1))|done|done].
      rewrite (contents_remove _ _ _ _ _ _ _ Hsl Hk Hab Hy). apply insert_delete_eq.
    + change (t_logend _) with (t_logend x + (8 + rsize k d (n_lvl y))). rewrite Hstep.
      fold es1 e. change [EDel (n_off y); e] with ([EDel (n_off y)] ++ [e]).
      rewrite app_assoc, !ser_snoc, !blen_app, Hend, Hx, Hel.
      change (blen (ebytes (EDel (n_off y)))) with 8. lia.
Qed.

(** ** [delete_entry] *)

Lemma delete_found k d0 x Q g hl pos t :
  covers g (ser hd es) → keyok k → blen (ser hd es) + 8 < 2147483648 →
  t_logend x = blen (ser hd es) → contents l !! k = Some d0 →
  wrote x Q k (delete k) 8 g hl →
  wp (delete_entry compar k x) Q (S_ (ser hd es) hd g hl pos t).
Proof using Hhd Hwf Hsl KO Hroom.
  intros Hc Hk Hsz Hx Hd0 HQ.
  destruct (found_node k d0 Hd0 Hk) as (y & rest & Hab & Hy & Hym & Hy1 & Hyc).
  pose proof (wf_del k y rest Hk Hab Hym Hsz) as Hwf1.
  destruct (above_node hd es l Hwf Hsl k y rest Hab) as (_ & ty & ps & He & _ & Hps & Hne).
  destruct (ent_off _ _ _ Hwf He) as [Ho _]. pose proof curl_maxl as [Hcm _].
  unfold delete_entry. apply wp_bind. eapply wp_find_key; [done..|].
  unfold found. rewrite Hab. cbn [hd_off]. rewrite bool_decide_true, orb_true_r by done.
  wstep. cbn [hdr SkipRun.S_]. fold (curl hd). apply wp_bind.
  rewrite <- (app_nil_r es) at 1.
  eapply wp_unlink; rewrite ?app_nil_r; [done..|lia|]. intros pos'.
  assert (blen (ser hd (del_ptrs (compar := compar) es k l y rest)) = blen (ser hd es)) as Hend.
  { rewrite !blen_ser. unfold del_ptrs. by rewrite (shape_lsize _ es) by apply shape_setps. }
  eapply (wp_append _ _ _ _ _ _ [EDel (n_off y)]).
  - cbn [t_logend getsyncfd]. by rewrite Hend.
  - by rewrite fmap_cons, mjoin_cons, app_nil_r.
  - done.
  - rewrite Hend, blen_app, !blen_be32. lia.
  - intros pos''. apply wp_ret. fold (del_step (compar := compar) es k l y rest).
    eapply HQ; [left; by apply op_del|by eapply contents_remove| |done|done|done].
    change (t_logend _) with (t_logend x + 8). unfold del_step.
    rewrite ser_snoc, blen_app, Hend, Hx. done.
Qed.

(** A key that is not there, but has a greater one after it: nothing happens. *)
Lemma delete_absent k x (Q : txn → st → Prop) g hl pos t :
  covers g (ser hd es) → keyok k → contents l !! k = None → above k l ≠ [] →
  Q x (S_ (ser hd es) hd g hl pos t) →
  wp (delete_entry compar k x) Q (S_ (ser hd es) hd g hl pos t).
Proof using Hhd Hwf Hsl KO.
  intros Hc Hk Hn Hne HQ. unfold delete_entry. apply wp_bind. eapply wp_find_key; [done..|].
  rewrite (contents_lookup _ _ _ _ _ Hsl Hk) in Hn. unfold found.
  destruct (above k l) as [|y rest] eqn:Hab; [done|]. case_decide; [done|].
  destruct (above_node hd es l Hwf Hsl k y rest Hab) as (_ & ty & ps & _ & _ & _ & Ho).
  cbn [hd_off]. rewrite bool_decide_false by done. destruct (Z.eqb_spec (n_off y) 0); [done|].
  by apply wp_ret.
Qed.
End Calls.
End Write.
