(* ===== verification/SkipScan.v ===== *)
(** * SkipScan: going through the records

    [myforeach] calls back on exactly the records whose key has the prefix, in
    key order, until a callback says stop; [myconsistent] accepts every sound
    database. *)
From S2P Require Import Prelude CMem.
From stdpp Require Import gmap sorting list.
From S2P Require Import CFile Prog DbFile CyrusDb BSearch Skiplist DbOrder SkipFile SkipList SkipStep SkipRun.
From S2P Require Import SkipFetch SkipWrite.
#[local] Open Scope Z_scope.

Lemma slice_take m o k s n :
  slice m o k = Ok s → 0 ≤ n ≤ k → slice m o n = Ok (take (Z.to_nat n) s).
Proof.
  unfold slice. destruct ((0 <=? o) && (0 <=? k) && (o + k <=? blen m)) eqn:Hc; [|done].
  intros [= <-] Hn. apply andb_true_iff in Hc as [[H0 H1]%andb_true_iff H2].
  apply Z.leb_le in H0, H1, H2. destruct (Z.leb_spec 0 o), (Z.leb_spec 0 n), (Z.leb_spec (o + n) (blen m)); try lia.
  cbn. f_equal. rewrite take_take. f_equal. lia.
Qed.

(** ** The specification of a scan *)

Section Visit.
Context {R : Type} (goodp : R → bytes → bytes → bool) (f : R → bytes → bytes → Z * R).

(** The callback's code, 0 unless it stopped the scan, and the rock. *)
Fixpoint visit (rock : R) (l : list node) : Z * R :=
  match l with
  | [] => (0, rock)
  | n :: l' =>
      if goodp rock (n_key n) (n_data n) then
        let '(r, rock) := f rock (n_key n) (n_data n) in
        if r =? 0 then visit rock l' else (r, rock)
      else visit rock l'
  end.
End Visit.

Section Scan.
Context `{E : Env} `{KO : KeyOrder compar keyok}.

Abbreviation slist := (slist (compar := compar) (keyok := keyok)).
Abbreviation below := (below (compar := compar)).
Abbreviation above := (above (compar := compar)).

(** A record splits the list at its key. *)
Lemma split_at_node es c m a x rest :
  slist es c m (a ++ x :: rest) → keyok (n_key x) ∧ above (n_key x) (a ++ x :: rest) = x :: rest.
Proof using KO.
  intros [[Hs Hk _ _ _ _] _]. assert (keyok (n_key x)) as Hkx.
  { apply Forall_app in Hk as [_ Hk]. by inversion_clear Hk. }
  split; [done|]. apply sorted_app in Hs as (_ & Hb & Hab). inversion_clear Hb as [|?? _ Hlt].
  rewrite above_app, above_none, above_all; [done| |].
  - constructor; [pose proof (proj2 (ko_eq _ _ Hkx Hkx) eq_refl); lia|].
    eapply Forall_impl; [exact Hlt|]. intros y Hy. unfold node_lt in Hy. apply ko_sym in Hy. lia.
  - eapply Forall_impl; [exact Hab|]. intros y Hy. by inversion_clear Hy.
Qed.

Lemma node_next es c m a x rest i :
  slist es c m (a ++ x :: rest) → (i < n_lvl x)%nat → fwd es (n_off x) i = Some (succs i rest).
Proof using KO. intros Hsl Hi. destruct (split_at_node _ _ _ _ _ _ Hsl). by eapply node_fwd. Qed.

Lemma node_rec es c m a x rest :
  slist es c m (a ++ x :: rest) → ∃ ty ps,
    ent DUMMY_OFFSET es (n_off x) = Some (ERec ty (n_key x) (n_data x) ps) ∧ length ps = n_lvl x ∧ (1 ≤ n_lvl x)%nat.
Proof using.
  intros [Hno _]. assert (x ∈ a ++ x :: rest) as Hin by (apply elem_of_app; right; by left).
  destruct (Forall_in _ _ _ (no_nodes _ _ _ _ Hno) Hin) as (ty & ps & He & _ & Hl).
  pose proof (Forall_in _ _ _ (no_lvl _ _ _ _ Hno) Hin) as Hlv. cbn in Hlv. exists ty, ps. split_and!; [done|done|lia].
Qed.

Lemma off_nonzero es off e : wf_file es → ent DUMMY_OFFSET es off = Some e → off ≠ 0 ∧ off ≤ 48 + lsize es.
Proof using.
  intros Hwf He. pose proof (esize_pos e). apply ent_range in He. unfold DUMMY_OFFSET, HEADER_SIZE in *. lia.
Qed.

(** On the lowest level every record leads to the next. *)
Lemma FORWARD_next hd es c m a x rest :
  wf_file es → slist es c m (a ++ x :: rest) → FORWARD (ser hd es) (n_off x) 0 = Ok (hd_off rest).
Proof using KO.
  intros Hwf Hsl. pose proof (no_lvl _ _ _ _ (sk_nodes _ _ _ _ Hsl)) as Hlv.
  apply Forall_app in Hlv as [_ Hlv]. inversion_clear Hlv as [|?? Hx Hr].
  change 0 with (Z.of_nat 0). rewrite (FORWARD_fwd hd es _ 0 (succs 0 rest)) by first [done|eapply node_next; [exact Hsl|lia]].
  unfold succs. rewrite at_lvl_0; [done|]. eapply Forall_impl; [exact Hr|]. cbn. lia.
Qed.

(** ** [myconsistent] *)

Lemma consistent_levels_ok hd es c m sz a x rest i n :
  wf_file es → slist es c m (a ++ x :: rest) → 0 ≤ sz → Forall (λ n, n_off n ≤ sz) rest → (i + n = n_lvl x)%nat →
  consistent_levels compar n (ser hd es) sz (n_off x) (Z.of_nat i) = Ok 0.
Proof using KO.
  intros Hwf Hsl Hsz Hoffs. revert i. induction n as [|n IH]; intros i Hi; [done|]. cbn [consistent_levels].
  rewrite (FORWARD_fwd hd es _ _ _ Hwf (node_next _ _ _ _ _ _ i Hsl ltac:(lia))). cbn [mbind result_bind].
  replace (Z.of_nat i + 1) with (Z.of_nat (S i)) by lia. unfold succs.
  destruct (at_lvl i rest) as [|z r] eqn:Hz; cbn [hd_off].
  - destruct (Z.ltb_spec sz 0); [lia|]. rewrite Z.eqb_refl. apply IH. lia.
  - assert (z ∈ rest) as Hzr by (assert (z ∈ at_lvl i rest) as [_ ?]%elem_at_lvl; [rewrite Hz; by left|done]).
    destruct (node_rec _ _ _ _ _ _ Hsl) as (tx & px & Hx & _ & _).
    pose proof (Forall_in _ _ _ Hoffs Hzr) as Hzsz. cbn in Hzsz.
    apply list_elem_of_split in Hzr as (b & r' & ->).
    assert (slist es c m ((a ++ x :: b) ++ z :: r')) as Hsl' by by rewrite <- app_assoc.
    destruct (node_rec _ _ _ _ _ _ Hsl') as (tz & pz & Hze & _ & _).
    destruct (off_nonzero _ _ _ Hwf Hze) as [Hz0 Hzl].
    destruct (Z.ltb_spec sz (n_off z)); [lia|].
    destruct (Z.eqb_spec (n_off z) 0); [done|].
    rewrite (rec_key_at _ _ _ _ _ _ (ser_at hd _ _ _ Hx) (wf_ent _ _ _ Hwf Hx)). cbn [mbind result_bind].
    rewrite (rec_key_at _ _ _ _ _ _ (ser_at hd _ _ _ Hze) (wf_ent _ _ _ Hwf Hze)). cbn [mbind result_bind].
    assert (compar (n_key x) (n_key z) < 0) as Hlt.
    { destruct Hsl as [[Hs _ _ _ _ _] _]. apply sorted_app in Hs as (_ & Hs & _). inversion_clear Hs as [|?? _ Hall].
      apply Forall_app in Hall as [_ Hall]. by inversion_clear Hall. }
    destruct (Z.leb_spec 0 (compar (n_key x) (n_key z))); [lia|]. apply IH. lia.
Qed.

Lemma consistent_loop_ok hd es c m sz a rest fuel :
  wf_file es → slist es c m (a ++ rest) → 0 ≤ sz → Forall (λ n, n_off n ≤ sz) rest → (length rest < fuel)%nat →
  consistent_loop compar fuel (ser hd es) sz (hd_off rest) = Ok 0.
Proof using KO.
  intros Hwf Hsl0 Hsz. revert a fuel Hsl0. induction rest as [|x rest IH]; intros a fuel Hsl Hoffs Hf;
    (destruct fuel as [|fuel]; [cbn in Hf; lia|]); cbn [consistent_loop hd_off]; [done|].
  destruct (node_rec _ _ _ _ _ _ Hsl) as (ty & ps & Hx & Hl & Hl1).
  destruct (off_nonzero _ _ _ Hwf Hx) as [Hx0 _]. destruct (Z.eqb_spec (n_off x) 0); [done|].
  rewrite (LEVEL_at _ _ _ _ _ _ (ser_at hd _ _ _ Hx) (wf_ent _ _ _ Hwf Hx)). cbn [mbind result_bind].
  rewrite Nat2Z.id, Hl, (consistent_levels_ok hd es c m sz a x rest 0) by (try done; by inversion_clear Hoffs). cbn [mbind result_bind Z.eqb negb].
  rewrite (FORWARD_next hd es c m a x rest) by done. cbn [mbind result_bind].
  apply (IH (a ++ [x])); [by rewrite <- app_assoc|by inversion_clear Hoffs|cbn in Hf; lia].
Qed.

Lemma first_off es c m l : slist es c m l → (0 < m)%nat → fwd es DUMMY_OFFSET 0 = Some (hd_off l).
Proof using.
  intros Hsl Hm. pose proof (sk_links _ _ _ _ Hsl 0%nat Hm) as Hl.
  rewrite at_lvl_0 in Hl; [by apply links_hd in Hl|].
  eapply Forall_impl; [apply (no_lvl _ _ _ _ (sk_nodes _ _ _ _ Hsl))|]. cbn. lia.
Qed.

(** Every node is inside the file. *)
Lemma nodes_inside hd es c m l :
  wf_file es → nodes_ok (compar := compar) (keyok := keyok) es c m l → Forall (λ n, n_off n ≤ blen (ser hd es)) l.
Proof using.
  intros Hwf Hno. eapply Forall_impl; [apply (no_nodes _ _ _ _ Hno)|]. intros n (ty & ps & He & _). cbv beta.
  rewrite blen_ser. by destruct (off_nonzero _ _ _ Hwf He).
Qed.

Lemma FORWARD_first hd es c m l :
  wf_file es → slist es c m l → FORWARD (ser hd es) DUMMY_OFFSET 0 = Ok (hd_off l).
Proof using.
  intros Hwf Hsl. pose proof (no_curl _ _ _ _ (sk_nodes _ _ _ _ Hsl)) as Hcm.
  change 0 with (Z.of_nat 0). by rewrite (FORWARD_fwd hd es _ 0 _ Hwf (first_off _ _ _ _ Hsl ltac:(lia))).
Qed.

(** What [myconsistent] computes of the mapped file. *)
Lemma consistent_body hd es c m l sz :
  wf_file es → slist es c m l → 0 ≤ sz → Forall (λ n, n_off n ≤ sz) l →
  (offset ← FORWARD (ser hd es) DUMMY_OFFSET 0;
   consistent_loop compar (S (length (ser hd es))) (ser hd es) sz offset) = Ok 0.
Proof using KO.
  intros Hwf Hsl Hsz Hoffs. rewrite (FORWARD_first hd es c m l) by done.
  cbn [mbind result_bind]. apply (consistent_loop_ok hd es c m sz []); [done..|].
  pose proof (nodes_few _ _ _ _ hd (sk_nodes _ _ _ _ Hsl)). lia.
Qed.

Lemma consistent_ok (Hcalls : ∀ n, fails n = false) s ino hd es l :
  open_db (compar := compar) (keyok := keyok) s ino hd es l →
  wp (consistent compar) (λ r s', r = 0 ∧ open_db (compar := compar) (keyok := keyok) s' ino hd es l ∧
    inodes (fs s') = inodes (fs s)) s.
Proof using KO.
  intros Ho. pose proof Ho as [_ Hfile _ _ Hm Hh Hwf Hsl].
  destruct (open_db_S _ _ _ _ _ Ho) as (c & pos & Hc & Hn & ->). cbn in Hfile.
  unfold consistent, myconsistent. apply wp_bind, wp_bind, (wp_read_lock Hcalls); [done..|].
  intros g' t' Hcov Hsz Hino. rewrite open_refresh by done. wstep. wstep. cbn [mp S_]. rewrite Hsz.
  apply wp_bind. eapply wp_read; [done| |].
  { eapply consistent_body; [done..|apply blen_nonneg|by eapply nodes_inside, (sk_nodes _ _ _ _ Hsl)]. }
  cbn [Z.of_nat Z.eqb negb]. apply wp_bind, wp_bind, (wp_unlock Hcalls), wp_ret, wp_ret.
  split; [done|]. split; [|cbn; by rewrite insert_id].
  apply S_open_db; try done. by apply (fresh_ok ino g' hd es).
Qed.

(** ** [myforeach] *)

Section Foreach.
Context (Hcalls : ∀ n, fails n = false).
Context (ino : Z) (others : gmap Z bytes) (nm : gmap bytes Z) (nx : Z) (name : bytes).
Abbreviation S_ := (S_ ino others nm nx name).
Context (Hname : nm !! name = Some ino).
Context {R : Type} (goodp : R → bytes → bytes → bool) (f : R → bytes → bytes → Z * R).
(** A callback that leaves the database alone. *)
Definition cb (rock : R) (k d : bytes) : M (Z * R) := mret (f rock k d).

Context (hd : header) (es : list entry) (l : list node).
Context (Hhd : header_ok hd) (Hwf : wf_file es) (Hsl : slist es (curl hd) (maxl hd) l).
Context (pre : bytes) (Hpre : keyok pre).

(** The records with the prefix are an interval. *)
Lemma prefix_stop x rest :
  sorted (compar := compar) (x :: rest) → keys_ok (keyok := keyok) (x :: rest) →
  Forall (λ n, 0 ≤ compar (n_key n) pre) (x :: rest) → ¬ pre `prefix_of` n_key x →
  filter (λ n, pre `prefix_of` n_key n) (x :: rest) = [].
Proof using KO Hpre.
  intros Hs Hk Hge Hx. rewrite filter_cons_False by done.
  inversion_clear Hs as [|?? _ Hlt]. inversion_clear Hk as [|?? Hkx Hkr]. inversion_clear Hge as [|?? Hgx _].
  induction rest as [|y rest IH]; [done|]. inversion_clear Hlt. inversion_clear Hkr.
  rewrite filter_cons_False; [by apply IH|]. intros Hy. apply Hx.
  by eapply (ko_prefix_conv _ _ (n_key y)).
Qed.

Lemma prefix_test x :
  keyok (n_key x) →
  (blen (n_key x) <? blen pre) = false →
  (negb (blen pre =? 0) && negb (compar (take (Z.to_nat (blen pre)) (n_key x)) pre =? 0)) = false
    ↔ pre `prefix_of` n_key x.
Proof using KO Hpre.
  intros Hk Hlen%Z.ltb_ge. unfold blen in *. rewrite Nat2Z.id.
  assert (pre `prefix_of` n_key x ↔ take (length pre) (n_key x) = pre) as Hp.
  { split.
    - intros [t ->]. apply take_app_length.
    - intros <-. apply prefix_take. }
  rewrite Hp. pose proof (ko_eq (take (length pre) (n_key x)) pre (ko_take _ _ Hk) Hpre) as Heq.
  destruct (Z.eqb_spec (Z.of_nat (length pre)) 0) as [H0|H0]; cbn [negb andb].
  - destruct pre as [|? ?]; [done|cbn in H0; lia].
  - destruct (Z.eqb_spec (compar (take (length pre) (n_key x)) pre) 0); cbn [negb]; intuition congruence.
Qed.

(** What the caller's functions do with the records that are there. *)
Context (gp : R → bytes → bytes → result bool) (cbm : R → bytes → bytes → M (Z * R)).
Context (Hgp : ∀ rock x, x ∈ l → pre `prefix_of` n_key x → gp rock (n_key x) (n_data x) = Ok (goodp rock (n_key x) (n_data x))).
Context (Hcb : ∀ rock x s, x ∈ l → pre `prefix_of` n_key x → cbm rock (n_key x) (n_data x) s = Ok (f rock (n_key x) (n_data x), s)).

(** Between the records nothing changes but the locks. *)
Definition tid_ok (tid : option txn) : Prop :=
  match tid with Some t => t_logend t = blen (ser hd es) | None => True end.

Lemma wp_foreach_loop a rest fuel tid rock Q g hl pos t :
  l = a ++ rest → (length rest < fuel)%nat → Forall (λ n, 0 ≤ compar (n_key n) pre) rest →
  tid_ok tid → fresh ino g (ser hd es) →
  (∀ g' hl' t', fresh ino g' (ser hd es) → (tid ≠ None → hl' = hl) →
     let '(r, rock') := visit goodp f rock (filter (λ n, pre `prefix_of` n_key n) rest) in
     Q (None, r, rock') (S_ (ser hd es) hd g' hl' pos t')) →
  wp (foreach_loop compar gp cbm fuel pre tid rock (hd_off rest)) Q (S_ (ser hd es) hd g hl pos t).
Proof using KO Hcalls Hname Hhd Hwf Hsl Hpre Hgp Hcb.
  revert a fuel rock g hl t. induction rest as [|x rest IH]; intros a fuel rock g hl t Hl Hf Hge Htid Hg HQ;
    (destruct fuel as [|fuel]; [cbn in Hf; lia|]); cbn [foreach_loop hd_off].
  { apply wp_ret. by apply (HQ g hl t). }
  pose proof Hg as [Hc [Hms Hmi]]. assert (x ∈ l) as Hin by (rewrite Hl; apply elem_of_app; right; left). rewrite Hl in Hsl.
  destruct (node_rec _ _ _ _ _ _ Hsl) as (ty & ps & He & Hlv & Hl1).
  pose proof (ser_at hd _ _ _ He) as Hat. pose proof (wf_ent _ _ _ Hwf He) as Hwe.
  destruct (off_nonzero _ _ _ Hwf He) as [Hx0 _]. destruct (Z.eqb_spec (n_off x) 0); [done|].
  pose proof (sk_nodes _ _ _ _ Hsl) as Hno. pose proof (no_sorted _ _ _ _ Hno) as Hs.
  pose proof (no_keys _ _ _ _ Hno) as Hk. apply sorted_app in Hs as (_ & Hs & _). apply Forall_app in Hk as [_ Hk].
  assert (keyok (n_key x)) as Hkx by by inversion_clear Hk.
  assert (¬ pre `prefix_of` n_key x → Q (None, 0, rock) (S_ (ser hd es) hd g hl pos t)) as Hstop.
  { intros Hx. specialize (HQ g hl t Hg ltac:(done)). by rewrite prefix_stop in HQ. }
  apply wp_bind. eapply wp_read; [done|exact (KEYLEN_at _ _ _ _ _ _ Hat Hwe)|].
  destruct (blen (n_key x) <? blen pre) eqn:Hlen.
  { apply wp_ret, Hstop. intros [r Hr]. apply Z.ltb_lt in Hlen. rewrite Hr, blen_app in Hlen.
    pose proof (blen_nonneg r). lia. }
  pose proof (prefix_test x Hkx Hlen) as Htest. apply Z.ltb_ge in Hlen. pose proof (blen_nonneg pre).
  apply wp_bind. eapply wp_read; [done|eapply slice_take; [|split; [done|exact Hlen]]|].
  { pose proof (rec_key_at _ _ _ _ _ _ Hat Hwe) as Hr. unfold rec_key in Hr.
    by rewrite (KEYLEN_at _ _ _ _ _ _ Hat Hwe) in Hr. }
  destruct (negb (blen pre =? 0) && _); [apply wp_ret, Hstop; by intros ?%Htest|].
  assert (pre `prefix_of` n_key x) as Hx by by apply Htest. rewrite filter_cons_True in HQ by done.
  apply wp_bind. eapply wp_read; [done|exact (rec_key_at _ _ _ _ _ _ Hat Hwe)|].
  apply wp_bind. eapply wp_read; [done|exact (rec_data_at _ _ _ _ _ _ Hat Hwe)|]. cbn [visit] in HQ.
  pose proof (FORWARD_next hd es _ _ _ _ _ Hwf Hsl) as Hfw.
  inversion_clear Hge as [|?? _ Hge'].
  assert (∀ rock g hl t, fresh ino g (ser hd es) →
    (∀ g' hl' t', fresh ino g' (ser hd es) → (tid ≠ None → hl' = hl) →
       let '(r, rock') := visit goodp f rock (filter (λ n, pre `prefix_of` n_key n) rest) in
       Q (None, r, rock') (S_ (ser hd es) hd g' hl' pos t')) →
    wp (foreach_loop compar gp cbm fuel pre tid rock (hd_off rest)) Q (S_ (ser hd es) hd g hl pos t)) as Hnext.
  { intros. apply (IH (a ++ [x])); try done; [by rewrite <- app_assoc|cbn in Hf; lia]. }
  apply wp_bind. eapply wp_liftr; [by apply Hgp|]. destruct (goodp rock (n_key x) (n_data x)).
  2: { apply wp_bind. eapply wp_read; [done|exact Hfw|]. apply Hnext; [done|]. intros. by apply HQ. }
  wstep. cbn [mp SkipRun.S_].
  (* the lock is given up for the callback *)
  apply (wp_bind_mono _ _ (λ r s, r = 0 ∧ ∃ hl1 t1, (tid ≠ None → hl1 = hl) ∧ s = S_ (ser hd es) hd g hl1 pos t1)).
  { destruct tid; [apply wp_ret|apply (wp_unlock Hcalls)]; (split; [done|]); [by exists hl, t|by exists (delete ino hl), (S t)]. }
  intros r ? (-> & hl1 & t1 & Hhl1 & ->). cbn [Z.ltb Z.compare]. apply wp_bind. eapply wp_intro; [by apply Hcb|].
  destruct (f rock (n_key x) (n_data x)) as [cr rock'] eqn:Hcbx.
  destruct (Z.eqb_spec cr 0) as [->|Hcr]; cbn [negb].
  2: { apply wp_ret. by apply (HQ g hl1 t1). }
  apply (wp_bind_mono _ _ (λ r s, r = 0 ∧ ∃ g2 hl2 t2, fresh ino g2 (ser hd es) ∧ (tid ≠ None → hl2 = hl) ∧
    s = S_ (ser hd es) hd g2 hl2 pos t2)).
  { destruct tid as [x'|].
    - apply wp_bind. pose proof (blen_ser hd es). pose proof (lsize_nonneg es). red in Htid. destruct Hc as [Ho Hle].
      apply wp_update_lock; [done|rewrite Htid; lia|]. intros g2 G1 G2 G3 G4. apply wp_ret. split; [done|].
      exists g2, hl1, t1. split_and!; try done. split; [split; [done|lia]|]. split; [by rewrite G3|by rewrite G4].
    - destruct Hc as [Ho Hle]. pose proof (blen_nonneg (ser hd es)).
      apply (wp_read_lock Hcalls); [done|split; [lia|by right]|done|]. intros g2 t2 G1 G2 G3. split; [done|].
      exists g2, (<[ino := LShared]> hl1), t2. split_and!; [done|done|].
      destruct (curlevel hd =? 0); [done|]. by rewrite set_curlevel_same. }
  intros r ? (-> & g2 & hl2 & t2 & Hg2 & Hhl2 & ->). cbn [Z.ltb Z.compare].
  apply wp_bind. unfold reposition. wstep. cbn [mp SkipRun.S_]. destruct Hg2 as [Hc2 [Hms2 Hmi2]].
  rewrite Hmi, Hmi2, Hms, Hms2, !Z.eqb_refl. cbn [andb]. eapply wp_read; [done|exact Hfw|].
  apply Hnext; [by split|]. intros g' hl' t' Hg' Hhl'. apply HQ; [done|]. intros Ht. rewrite Hhl', Hhl2 by done. done.
Qed.
End Foreach.

(** Every record, outside a transaction. *)
Lemma foreach_open (Hcalls : ∀ n, fails n = false) {R} goodp (f : R → bytes → bytes → Z * R) gp cbm
    fuel s ino hd es l pre rock :
  open_db (compar := compar) (keyok := keyok) s ino hd es l → keyok pre → (length l < fuel)%nat →
  (∀ rock x, x ∈ l → pre `prefix_of` n_key x → gp rock (n_key x) (n_data x) = Ok (goodp rock (n_key x) (n_data x))) →
  (∀ rock x s, x ∈ l → pre `prefix_of` n_key x → cbm rock (n_key x) (n_data x) s = Ok (f rock (n_key x) (n_data x), s)) →
  wp (myforeach compar gp cbm fuel pre NoTid rock) (λ a s',
    a = (visit goodp f rock (filter (λ n, pre `prefix_of` n_key n) l), None) ∧
    open_db (compar := compar) (keyok := keyok) s' ino hd es l ∧ inodes (fs s') = inodes (fs s)) s.
Proof using KO.
  intros Ho Hpre Hf Hgp Hcb. pose proof Ho as [_ Hfile _ _ Hm Hh Hwf Hsl].
  destruct (open_db_S _ _ _ _ _ Ho) as (c & pos & Hc & Hn & ->). cbn in Hfile.
  pose proof (sk_nodes _ _ _ _ Hsl) as Hno. pose proof (no_sorted _ _ _ _ Hno) as Hs.
  pose proof (no_keys _ _ _ _ Hno) as Hk.
  unfold myforeach, start_read. apply wp_bind, wp_bind, (wp_read_lock Hcalls); [done..|].
  intros g' t' Hcov Hsz Hino. rewrite open_refresh by done. apply wp_ret. cbn [fst snd Z.ltb Z.compare].
  apply wp_bind. eapply wp_find_node; [done..|].
  assert (filter (λ n, pre `prefix_of` n_key n) l = filter (λ n, pre `prefix_of` n_key n) (above pre l)) as ->.
  { rewrite (sorted_split pre l Hs Hk Hpre) at 1. rewrite filter_app.
    assert (filter (λ n, pre `prefix_of` n_key n) (below pre l) = []) as ->; [|done].
    assert (Forall (λ n, ¬ pre `prefix_of` n_key n) (below pre l)) as Hb.
    { apply Forall_forall. intros n [Hlt Hn']%list_elem_of_filter Hp.
      pose proof (ko_prefix_le pre (n_key n) Hpre (Forall_in _ _ _ Hk Hn') Hp). cbn in Hlt. lia. }
    induction Hb as [|y b Hy _ IH]; [done|]. by rewrite filter_cons_False. }
  apply wp_bind. eapply (wp_foreach_loop Hcalls) with (a := below pre l).
  - done.
  - done.
  - done.
  - done.
  - done.
  - done.
  - done.
  - by apply sorted_split.
  - pose proof (length_filter (λ n, ¬ compar (n_key n) pre < 0) l). unfold SkipList.above. lia.
  - apply Forall_forall. intros n [Hn' _]%list_elem_of_filter. lia.
  - done.
  - done.
  - intros g2 hl2 t2 Hg2 _. destruct (visit _ _ _ _) as [r rock'] eqn:Hv.
    apply wp_bind, (wp_unlock Hcalls). apply wp_ret. cbn [Z.ltb Z.compare]. split; [done|].
    split; [|cbn; by rewrite insert_id]. apply S_open_db; try done. by apply (fresh_ok ino g2 hd es).
Qed.
End Scan.
