(* ===== verification/SkipTxn.v ===== *)
(** * SkipTxn: transactions

    [SAFE_TO_APPEND] tells whether the log ends with a commit; [mycommit]
    closes a transaction; [myabort] takes every step of it back and leaves the
    bytes it found, but for a raised level in the header.

    And building a list from records in order: recovery and checkpoints lay out the
    chain of every level record by record; [updateoffsets] holds the file position of
    the last pointer of each level, which the next record of that level, or a zero at
    the end, goes into. *)
From S2P Require Import Prelude CMem.
From stdpp Require Import gmap sorting list.
From S2P Require Import CFile Prog DbFile CyrusDb BSearch Skiplist DbOrder SkipFile SkipList SkipStep SkipRun.
From S2P Require Import SkipFetch SkipWrite.
#[local] Open Scope Z_scope.

(** ** Sizes of records *)

Lemma esize_del off : esize (EDel off) = 8. Proof. done. Qed.
Lemma esize_commit : esize ECommit = 4. Proof. done. Qed.
Lemma esize_rec ty k d ps : wf_entry (ERec ty k d ps) → esize (ERec ty k d ps) = rsize k d (length ps).
Proof. intros (_ & Hk & Hd & _). by apply blen_rec. Qed.

Lemma wf_sizes ty k d ps :
  wf_entry (ERec ty k d ps) → 0 ≤ ROUNDUP (blen k) ∧ 0 ≤ ROUNDUP (blen d) ∧
    ROUNDUP (blen k) mod 4 = 0 ∧ ROUNDUP (blen d) mod 4 = 0.
Proof.
  intros (_ & Hk & Hd & _). unfold is_off in *. pose proof (blen_nonneg k). pose proof (blen_nonneg d).
  pose proof (ROUNDUP_bounds (blen k) ltac:(lia)). pose proof (ROUNDUP_bounds (blen d) ltac:(lia)). lia.
Qed.

Lemma esize_mod4 e : wf_entry e → esize e mod 4 = 0.
Proof.
  intros He. destruct e as [ty k d ps| |]; [|done..]. rewrite esize_rec by done. unfold rsize.
  pose proof (wf_sizes _ _ _ _ He). Z.to_euclidean_division_equations. lia.
Qed.

Lemma lsize_mod4 es : Forall wf_entry es → lsize es mod 4 = 0.
Proof.
  induction 1 as [|e es He _ IH]; [done|]. rewrite lsize_cons. pose proof (esize_mod4 _ He).
  Z.to_euclidean_division_equations. lia.
Qed.

Lemma RECSIZE_ent h es off e :
  wf_file es → ent DUMMY_OFFSET es off = Some e → RECSIZE (ser h es) off = Ok (esize e).
Proof.
  intros Hwf He. pose proof (ser_at h _ _ _ He) as Hat. pose proof (wf_ent _ _ _ Hwf He) as Hwe.
  destruct e as [ty k d ps|o|].
  - rewrite esize_rec by done. eapply RECSIZE_at; [done|done|].
    apply ent_range in He. rewrite esize_rec in He by done. destruct Hwf as [_ Hs].
    unfold DUMMY_OFFSET, HEADER_SIZE in *. lia.
  - cbn [ebytes] in Hat. apply bytes_at_app in Hat as [Hat _].
    unfold RECSIZE, TYPE. by rewrite (rd32_be32 _ _ _ Hat).
  - cbn [ebytes] in Hat. unfold RECSIZE, TYPE. by rewrite (rd32_be32 _ _ _ Hat).
Qed.

Lemma TYPE_ent h es off e :
  wf_file es → ent DUMMY_OFFSET es off = Some e →
  TYPE (ser h es) off = Ok (match e with ERec ty _ _ _ => ty | EDel _ => DELETE | ECommit => COMMIT end).
Proof.
  intros Hwf He. pose proof (ser_at h _ _ _ He) as Hat. pose proof (wf_ent _ _ _ Hwf He) as Hwe.
  destruct e as [ty k d ps|o|]; cbn [ebytes] in Hat.
  - by eapply TYPE_at.
  - apply bytes_at_app in Hat as [Hat _]. unfold TYPE. by rewrite (rd32_be32 _ _ _ Hat).
  - unfold TYPE. by rewrite (rd32_be32 _ _ _ Hat).
Qed.

(** ** [SAFE_TO_APPEND] *)

(** Every record of a file reaches a level. *)
Definition levels_pos (es : list entry) : Prop :=
  Forall (λ e, match e with ERec _ _ _ ps => ps ≠ [] | EDel o => o mod 4 = 0 | ECommit => True end) es.

Lemma rd32_last h es a v :
  ∀ pre, ser h es = pre ++ be32 v ++ a → rd32 (ser h es) (blen (ser h es) - blen a - 4) = Ok (to_u32 v).
Proof.
  intros pre ->. replace (_ - _ - _) with (blen pre) by (rewrite !blen_app, blen_be32; lia).
  apply rd32_be32, bytes_at_here.
Qed.

Lemma ser_last h es e : ser h (es ++ [e]) = ser h es ++ ebytes e.
Proof. apply ser_snoc. Qed.

(** The log is closed when it is empty or ends with a commit. *)
Definition closed (hd : header) (es : list entry) : Prop :=
  logstart hd ≤ blen (ser hd es) ∧ ∃ es' e, es = es' ++ [e] ∧
    if decide (logstart hd = blen (ser hd es)) then ∃ ty k d ps, e = ERec ty k d ps
    else e = ECommit.

Lemma last_words_rec h es ty k d ps :
  let m := ser h (es ++ [ERec ty k d ps]) in
  rd32 m (blen m - 4) = Ok MINUS1 ∧
  ∀ p, last ps = Some p → rd32 m (blen m - 8) = Ok (to_u32 p).
Proof.
  cbn zeta. split.
  - replace (blen (ser h (es ++ [ERec ty k d ps])) - 4)
      with (blen (ser h (es ++ [ERec ty k d ps])) - blen [] - 4) by (rewrite blen_nil; lia).
    rewrite (rd32_last h _ [] (-1)
      (ser h es ++ be32 ty ++ be32 (blen k) ++ padded k ++ be32 (blen d) ++ padded d ++ mjoin (be32 <$> ps)));
      [done|]. rewrite ser_last. cbn [ebytes]. unfold rec_bytes. by rewrite <- !app_assoc.
  - intros p Hp. apply last_Some in Hp as [qs ->].
    replace (blen (ser h (es ++ [ERec ty k d (qs ++ [p])])) - 8)
      with (blen (ser h (es ++ [ERec ty k d (qs ++ [p])])) - blen (be32 (-1)) - 4) by (rewrite blen_be32; lia).
    apply (rd32_last h _ (be32 (-1)) p
      (ser h es ++ be32 ty ++ be32 (blen k) ++ padded k ++ be32 (blen d) ++ padded d ++ mjoin (be32 <$> qs))).
    rewrite ser_last. cbn [ebytes]. unfold rec_bytes.
    rewrite fmap_app, fmap_cons, mjoin_app, mjoin_cons, <- !app_assoc. done.
Qed.

Lemma last_words_del h es o :
  let m := ser h (es ++ [EDel o]) in
  rd32 m (blen m - 4) = Ok (to_u32 o) ∧ rd32 m (blen m - 8) = Ok DELETE.
Proof.
  cbn zeta. split.
  - replace (_ - 4) with (blen (ser h (es ++ [EDel o])) - blen [] - 4) by (rewrite blen_nil; lia).
    apply (rd32_last h _ [] o (ser h es ++ be32 DELETE)). rewrite ser_last. cbn [ebytes].
    by rewrite app_nil_r, <- app_assoc.
  - replace (_ - 8) with (blen (ser h (es ++ [EDel o])) - blen (be32 o) - 4) by (rewrite blen_be32; lia).
    rewrite (rd32_last h _ (be32 o) DELETE (ser h es)); [done|]. by rewrite ser_last.
Qed.

Lemma last_word_commit h es :
  let m := ser h (es ++ [ECommit]) in rd32 m (blen m - 4) = Ok COMMIT.
Proof.
  cbn zeta. replace (_ - 4) with (blen (ser h (es ++ [ECommit])) - blen [] - 4) by (rewrite blen_nil; lia).
  rewrite (rd32_last h _ [] COMMIT (ser h es)); [done|]. rewrite ser_last. by rewrite app_nil_r.
Qed.

(** The word in front of a commit can be read: the file is longer than that. *)
Lemma rd32_inside h es off :
  0 ≤ off → off + 4 ≤ blen (ser h es) → ∃ v, rd32 (ser h es) off = Ok v.
Proof.
  intros H0 H1. unfold rd32, rd8.
  destruct (byte_at_is_Some (ser h es) off) as [b0 ->]; [lia|].
  destruct (byte_at_is_Some (ser h es) (off + 1)) as [b1 ->]; [lia|].
  destruct (byte_at_is_Some (ser h es) (off + 2)) as [b2 ->]; [lia|].
  destruct (byte_at_is_Some (ser h es) (off + 3)) as [b3 ->]; [lia|]. by eexists.
Qed.

Lemma closed_safe hd es :
  wf_file es → closed hd es →
  SAFE_TO_APPEND (ser hd es) (blen (ser hd es)) (logstart hd) = Ok false.
Proof.
  intros [Hwf _] (_ & es' & e & -> & Hc). unfold SAFE_TO_APPEND.
  assert (blen (ser hd (es' ++ [e])) mod 4 = 0) as ->.
  { rewrite blen_ser. pose proof (lsize_mod4 _ Hwf). Z.to_euclidean_division_equations. lia. }
  cbn [Z.eqb negb]. destruct (decide _) as [Hl|Hl].
  - destruct Hc as (ty & k & d & ps & ->). rewrite Hl, Z.eqb_refl.
    destruct (last_words_rec hd es' ty k d ps) as [-> _]. done.
  - subst e. destruct (Z.eqb_spec (blen (ser hd (es' ++ [ECommit]))) (logstart hd)); [done|].
    pose proof (blen_ser hd es') as Hb. pose proof (lsize_nonneg es').
    destruct (rd32_inside hd (es' ++ [ECommit]) (blen (ser hd (es' ++ [ECommit])) - 8)) as [v ->].
    + rewrite ser_last, blen_app. change (blen (ebytes ECommit)) with 4. lia.
    + lia.
    + cbn [mbind result_bind]. destruct (v =? MINUS1); [done|].
      pose proof (last_word_commit hd es') as H'. cbn zeta in H'. by rewrite H'.
Qed.

Lemma unclosed_unsafe hd es e :
  wf_file (es ++ [e]) → levels_pos [e] → e ≠ ECommit → logstart hd ≠ blen (ser hd (es ++ [e])) →
  SAFE_TO_APPEND (ser hd (es ++ [e])) (blen (ser hd (es ++ [e]))) (logstart hd) = Ok true.
Proof.
  intros [Hwf _] Hlv He Hl. unfold SAFE_TO_APPEND.
  assert (blen (ser hd (es ++ [e])) mod 4 = 0) as ->.
  { rewrite blen_ser. pose proof (lsize_mod4 _ Hwf). Z.to_euclidean_division_equations. lia. }
  cbn [Z.eqb negb]. destruct (Z.eqb_spec (blen (ser hd (es ++ [e]))) (logstart hd)); [done|].
  apply Forall_app in Hwf as [_ Hwf]. inversion_clear Hwf as [|?? Hwe _]. inversion_clear Hlv as [|?? Hlve _].
  destruct e as [ty k d ps|o|]; [| |done].
  - destruct (last_words_rec hd es ty k d ps) as [H4 H8].
    destruct (last ps) as [p|] eqn:Hp; [|by apply last_None in Hp].
    rewrite (H8 p) by done. cbn [mbind result_bind].
    assert (is_off p) as Hpo.
    { destruct Hwe as (_ & _ & _ & Hps & _). apply last_Some in Hp as [qs ->].
      apply Forall_app in Hps as [_ Hps]. by inversion_clear Hps. }
    unfold is_off in Hpo. rewrite to_u32_small by (unfold is_u32; lia).
    destruct (Z.eqb_spec p MINUS1); [unfold MINUS1 in *; lia|]. by rewrite H4.
  - destruct (last_words_del hd es o) as [H4 H8]. rewrite H8. cbn [mbind result_bind].
    change (DELETE =? MINUS1) with false. cbn [andb]. rewrite H4. cbn [mbind result_bind].
    cbn in Hwe. unfold is_off in Hwe. rewrite to_u32_small by (unfold is_u32; lia).
    destruct (Z.eqb_spec o COMMIT) as [->|]; [|done]. done.
Qed.

(** ** Taking steps back *)

Lemma length_lsize es : Z.of_nat (length es) ≤ lsize es.
Proof.
  induction es as [|e es IH]; [done|]. rewrite lsize_cons. pose proof (esize_pos e). cbn [length]. lia.
Qed.

Lemma last_entry_ok hd pre mid e tl fuel :
  wf_file (pre ++ mid ++ e :: tl) → (length mid < fuel)%nat →
  last_entry fuel (ser hd (pre ++ mid ++ e :: tl)) (DUMMY_OFFSET + lsize pre)
    (DUMMY_OFFSET + lsize (pre ++ mid ++ [e])) = Ok (DUMMY_OFFSET + lsize (pre ++ mid)).
Proof.
  revert pre fuel. induction mid as [|a mid IH]; intros pre fuel Hwf Hf;
    (destruct fuel as [|fuel]; [cbn in Hf; lia|]); cbn [last_entry].
  - cbn [app] in *. rewrite (RECSIZE_ent hd _ _ e) by (try done; apply ent_here).
    cbn [mbind result_bind]. rewrite app_nil_r.
    replace (DUMMY_OFFSET + lsize pre + esize e) with (DUMMY_OFFSET + lsize (pre ++ [e]))
      by (rewrite lsize_app, lsize_cons; change (lsize []) with 0; lia).
    by rewrite Z.eqb_refl.
  - cbn [app] in *. rewrite (RECSIZE_ent hd _ _ a) by (try done; apply ent_here).
    cbn [mbind result_bind].
    assert (DUMMY_OFFSET + lsize pre + esize a = DUMMY_OFFSET + lsize (pre ++ [a])) as Ha
      by (rewrite lsize_app, lsize_cons; change (lsize []) with 0; lia).
    destruct (Z.eqb_spec (DUMMY_OFFSET + lsize pre + esize a)
                (DUMMY_OFFSET + lsize (pre ++ a :: mid ++ [e]))) as [E'|_].
    { rewrite lsize_app, lsize_cons, lsize_app, lsize_cons in E'.
      change (lsize []) with 0 in E'. pose proof (esize_pos e). pose proof (lsize_nonneg mid). lia. }
    rewrite Ha. specialize (IH (pre ++ [a]) fuel). rewrite <- !app_assoc in IH. cbn [app] in IH.
    apply IH; [done|cbn in Hf; lia].
Qed.

Section Undo.
Context `{E : Env} `{KO : KeyOrder compar keyok}.

Abbreviation slist := (slist (compar := compar) (keyok := keyok)).
Abbreviation below := (below (compar := compar)).
Abbreviation above := (above (compar := compar)).
Abbreviation prev_off := (prev_off (compar := compar)).
Abbreviation prev_offs := (prev_offs (compar := compar)).
Abbreviation wr_op := (wr_op (compar := compar) (keyok := keyok)).
Abbreviation wr_ops := (wr_ops (compar := compar) (keyok := keyok)).

Lemma nodes_ok_level es c c' m l :
  nodes_ok (compar := compar) (keyok := keyok) es c m l → (c ≤ c' ≤ m)%nat →
  nodes_ok (compar := compar) (keyok := keyok) es c' m l.
Proof using.
  intros [Hs Hk Hn Hl Hd Hc] Hcc. split; try done; [|lia].
  eapply Forall_impl; [exact Hl|]. cbn. lia.
Qed.

Lemma slist_curl es c c' m l : slist es c m l → (c ≤ c' ≤ m)%nat → slist es c' m l.
Proof using. intros [Hno Hli] Hcc. split; [by eapply nodes_ok_level|done]. Qed.

(** What the operations of a transaction keep. *)
Lemma wr_ops_inv hd0 es0 l0 hd es l :
  header_ok hd0 → slist es0 (curl hd0) (maxl hd0) l0 → wf_file es0 → wr_ops hd0 es0 l0 hd es l →
  header_ok hd ∧ slist es (curl hd) (maxl hd) l ∧ wf_file es ∧
  (∃ ms, shape es = shape es0 ++ ms) ∧ (∃ c, hd = set_curlevel c hd0 ∧ curlevel hd0 ≤ c).
Proof using KO.
  intros Hh Hsl Hwf Hops. induction Hops as [|hd es l hd' es' l' Hops IH Hop].
  - split_and!; auto; [by exists []; rewrite app_nil_r|exists (curlevel hd0)].
    split; [by destruct hd0|lia].
  - destruct IH as (Hh1 & Hsl1 & Hwf1 & [ms Hms] & (c & Hhd & Hc)).
    destruct (wr_op_slist _ _ _ _ _ _ Hh1 Hsl1 Hop) as (Hh2 & Hsl2 & Hwf2).
    split_and!; auto; destruct Hop.
    + eexists. unfold add_step, add_ptrs. rewrite shape_app, shape_setps, Hms, <- app_assoc. done.
    + eexists. unfold del_step, del_ptrs. rewrite shape_app, shape_setps, Hms, <- app_assoc. done.
    + subst hd. exists (Z.max c (Z.of_nat lvl)). split; [done|lia].
    + by exists c.
Qed.

(** Every operation makes the log longer. *)
Lemma wr_op_size hd es l hd' es' l' : wr_op hd es l hd' es' l' → lsize es < lsize es'.
Proof using.
  intros Hop. destruct Hop; unfold add_step, del_step, add_ptrs, del_ptrs;
    rewrite lsize_app, (shape_lsize (setps _ _ _ _) es), lsize_cons by apply shape_setps;
    match goal with |- context [esize ?e] => pose proof (esize_pos e) end; change (lsize []) with 0; lia.
Qed.

Lemma wr_ops_size hd0 es0 l0 hd es l :
  wr_ops hd0 es0 l0 hd es l → (hd = hd0 ∧ es = es0 ∧ l = l0) ∨ lsize es0 < lsize es.
Proof using.
  induction 1 as [|hd es l hd' es' l' _ IH Hop%wr_op_size]; [by left|right].
  destruct IH as [(_ & -> & _)|]; lia.
Qed.

Context (Hcalls : ∀ n, fails n = false) (Hroom : 2147483648 ≤ file_limit).
Context (ino : Z) (others : gmap Z bytes) (nm : gmap bytes Z) (nx : Z) (name : bytes).
Abbreviation S_ := (S_ ino others nm nx name).
Abbreviation covers := (covers ino).

(** The last entry of the transaction is found. *)
Lemma undo_find hd hd0 hd' es0 esp ms e tl :
  shape esp = shape es0 ++ ms → wf_file ((esp ++ [e]) ++ tl) →
  last_entry (S (length (ser hd ((esp ++ [e]) ++ tl)))) (ser hd ((esp ++ [e]) ++ tl))
    (blen (ser hd0 es0)) (blen (ser hd' (esp ++ [e]))) = Ok (DUMMY_OFFSET + lsize esp).
Proof using.
  intros Hsh Hwf. apply fmap_app_inv in Hsh as (pre & mid & Hp & Hm & ->).
  assert (lsize pre = lsize es0) as Hlp by (by apply shape_lsize).
  rewrite !blen_ser, <- Hlp. rewrite <- !app_assoc in *. cbn [app] in *.
  apply (last_entry_ok hd pre mid e tl); [done|].
  assert (Z.of_nat (length mid) ≤ blen (ser hd (pre ++ mid ++ e :: tl))) as Hlen.
  { rewrite blen_ser, !lsize_app. pose proof (length_lsize mid). pose proof (lsize_nonneg pre).
    pose proof (lsize_nonneg (e :: tl)). lia. }
  unfold blen in Hlen. lia.
Qed.

(** Undo one addition. *)
Lemma undo_add hd hdF es tl l k d lvl Q g hl pos t :
  header_ok hd → slist es (curl hd) (maxl hd) l → wf_file es → keyok k →
  Forall (λ n, n_key n ≠ k) l → (1 ≤ lvl ≤ maxl hd)%nat → (lvl ≤ curl hdF ≤ maxl hd)%nat →
  (curl hd ≤ curl hdF)%nat → maxl hdF = maxl hd →
  let es' := add_step (compar := compar) es k d l lvl in
  let e := ERec ADD k d (new_ptrs (compar := compar) l k lvl) in
  wf_file (es' ++ tl) → covers g (ser hdF (es' ++ tl)) →
  (∀ pos', Q tt (S_ (ser hdF (es ++ e :: tl)) hdF g hl pos' t)) →
  wp (key ← rd (λ m, rec_key m (new_off es));
      '(_, u) ← m_find_node compar key;
      h ← get hdr;
      unlink_loop (Z.to_nat (curlevel h)) 0 u (new_off es)) Q (S_ (ser hdF (es' ++ tl)) hdF g hl pos t).
Proof using KO Hroom.
  intros Hh Hsl Hwf Hk Hnew Hlvl Hcur Hcc Hmm es' e Hwf' Hc HQ.
  pose proof (skip_add es (curl hd) (maxl hd) l k d lvl Hsl Hk Hnew Hlvl) as Hsl'. fold es' in Hsl'.
  set (l' := below k l ++ Node (new_off es) k d lvl :: above k l) in *.
  assert (slist (es' ++ tl) (curl hdF) (maxl hdF) l') as Hsl2.
  { rewrite Hmm. eapply slist_curl; [by apply slist_app|lia]. }
  assert (lsize (add_ptrs (compar := compar) es k l lvl) = lsize es) as Hsz.
  { unfold add_ptrs. apply shape_lsize, shape_setps. }
  assert (ent DUMMY_OFFSET (es' ++ tl) (new_off es) = Some e) as He.
  { apply ent_app_l. unfold es', add_step, new_off. rewrite <- Hsz. apply ent_here. }
  assert (∀ i, prev_off k l' i = prev_off k l i) as Hprev.
  { intros i. unfold SkipList.prev_off. f_equal. f_equal. unfold l'. rewrite below_app.
    assert (Forall (λ n, compar (n_key n) k < 0) (below k l)) as Hb.
    { apply Forall_forall. by intros n [? _]%list_elem_of_filter. }
    rewrite (below_all k (below k l)) by done. rewrite (below_none k (_ :: _)); [by rewrite app_nil_r|].
    constructor; [cbn; pose proof (proj2 (ko_eq k k Hk Hk) eq_refl); lia|].
    apply Forall_forall. by intros n [? _]%list_elem_of_filter. }
  apply wp_bind. eapply wp_read; [done| |].
  { exact (rec_key_at _ _ _ _ _ _ (ser_at hdF _ _ _ He) (wf_ent _ _ _ Hwf' He)). }
  apply wp_bind. eapply wp_find_node; [done|done|done|done|]. wstep. cbn [hdr SkipRun.S_]. fold (curl hdF).
  assert (∀ i, (i < maxl hd)%nat → fwd es (prev_off k l i) i = Some (succs i (above k l))) as Hpf.
  { intros i Hi. by eapply prev_off_fwd. }
  assert (∀ i, (i < maxl hd)%nat → fwd (es' ++ tl) (prev_off k l i) i
      = Some (if decide (i < lvl)%nat then new_off es else succs i (above k l))) as Hf.
  { intros i Hi. assert (fwd (add_ptrs (compar := compar) es k l lvl) (prev_off k l i) i
      = Some (if decide (i < lvl)%nat then new_off es else succs i (above k l))) as Hf.
    { unfold add_ptrs. rewrite fwd_setps by (intros j Hj; rewrite Hpf by lia; eauto).
      destruct (decide (i < lvl)%nat); [by rewrite decide_True|rewrite decide_False by lia; by apply Hpf]. }
    unfold es', add_step. by do 2 apply fwd_app_l. }
  eapply (wp_unlink_loop Hroom) with (pf := prev_off k l) (lvl := lvl) (v := λ i, succs i (above k l));
    [done|done|lia| | | | | |].
  - intros i Hi. eapply (fwd_off es (prev_off k l i) i); [done|]. apply Hpf. lia.
  - intros i Hi. rewrite uget_prev by lia. by rewrite Hprev.
  - intros i Hi. rewrite Hf, decide_True by lia. split; [done|].
    rewrite (ent_fwd _ _ _ _ _ _ _ He). unfold new_ptrs. by rewrite list_lookup_fmap, lookup_seq_lt.
  - intros i Hi. exists (succs i (above k l)). rewrite Hf, decide_False by lia. split; [done|].
    intros E'. pose proof (new_fresh _ _ _ _ (sk_nodes _ _ _ _ Hsl)) as Hfr. apply Hfr. rewrite <- E'.
    unfold succs. destruct (at_lvl i (above k l)) as [|z r] eqn:Hr; cbn [hd_off].
    + exfalso. unfold succs in E'. rewrite Hr in E'. cbn [hd_off] in E'. pose proof (lsize_nonneg es).
      unfold new_off, DUMMY_OFFSET, HEADER_SIZE in E'. lia.
    + right. apply list_elem_of_fmap_2.
      assert (z ∈ at_lvl i (above k l)) as [_ [_ Hz]%list_elem_of_filter]%elem_at_lvl; [rewrite Hr; by left|done].
  - intros i Hi E'. pose proof (new_fresh _ _ _ _ (sk_nodes _ _ _ _ Hsl)) as Hfr. apply Hfr. rewrite <- E'.
    unfold SkipList.prev_off. assert (∀ x, x ∈ DUMMY_OFFSET :: (n_off <$> below k l) →
      x ∈ DUMMY_OFFSET :: (n_off <$> l)) as Hsub.
    { intros x [->|(n & -> & [_ Hn]%list_elem_of_filter)%list_elem_of_fmap]%elem_of_cons; [by left|].
      right. by apply list_elem_of_fmap_2. }
    eapply Hsub, in_at_lvl, last_off_in.
  - intros pos'. unfold es', add_step. rewrite <- app_assoc. cbn [app]. rewrite setps_app.
    + unfold add_ptrs. rewrite setps_restore; [apply HQ|]. intros i Hi. apply Hpf. lia.
    + intros i Hi. unfold add_ptrs. rewrite fwd_setps by (intros j Hj; rewrite Hpf by lia; eauto).
      rewrite decide_True by done. eauto.
Qed.

(** Undo one deletion. *)
Lemma undo_del hdF es c m tl l k x rest Q g hl pos t :
  slist es c m l → wf_file es → keyok k → above k l = x :: rest → n_key x = k →
  (c ≤ curl hdF ≤ m)%nat → maxl hdF = m →
  let es' := del_step (compar := compar) es k l x rest in
  wf_file (es' ++ tl) → covers g (ser hdF (es' ++ tl)) →
  (∀ pos', Q tt (S_ (ser hdF (es ++ EDel (n_off x) :: tl)) hdF g hl pos' t)) →
  wp (q ← rd (λ m, rd32 m (new_off es + 4));
      lvl ← rd (λ m, LEVEL m q);
      key ← rd (λ m, rec_key m q);
      '(_, u) ← m_find_node compar key;
      link_loop (Z.to_nat lvl) 0 u q) Q (S_ (ser hdF (es' ++ tl)) hdF g hl pos t).
Proof using KO Hroom.
  intros Hsl Hwf Hk Hab Hx Hc1 Hm es' Hwf' Hc HQ.
  pose proof (skip_del es c m l k x rest [EDel (n_off x)] Hsl Hk Hab) as Hsl'.
  fold (del_step (compar := compar) es k l x rest) in Hsl'. fold es' in Hsl'.
  assert (slist (es' ++ tl) (curl hdF) (maxl hdF) (below k l ++ rest)) as Hsl2.
  { rewrite Hm. eapply slist_curl; [by apply slist_app|lia]. }
  assert (lsize (del_ptrs (compar := compar) es k l x rest) = lsize es) as Hsz.
  { unfold del_ptrs. apply shape_lsize, shape_setps. }
  assert (ent DUMMY_OFFSET (es' ++ tl) (new_off es) = Some (EDel (n_off x))) as He.
  { apply ent_app_l. unfold es', del_step, new_off. rewrite <- Hsz. apply ent_here. }
  assert (x ∈ above k l) as [_ Hxl]%list_elem_of_filter by (rewrite Hab; by left).
  pose proof (sk_nodes _ _ _ _ Hsl) as Hno.
  pose proof (Forall_in _ _ _ (no_lvl _ _ _ _ Hno) Hxl) as Hlv. cbn in Hlv.
  destruct (shape_is_node es (del_ptrs (compar := compar) es k l x rest) x) as (ty & ps & Hex & Hty & Hps);
    [symmetry; apply shape_setps|exact (Forall_in _ _ _ (no_nodes _ _ _ _ Hno) Hxl)|].
  assert (ent DUMMY_OFFSET (es' ++ tl) (n_off x) = Some (ERec ty (n_key x) (n_data x) ps)) as Hex2.
  { by do 2 apply ent_app_l. }
  destruct (ent_off _ _ _ Hwf' Hex2) as [Ho _]. unfold is_off in Ho.
  apply wp_bind. eapply wp_read; [done| |].
  { pose proof (ser_at hdF _ _ _ He) as Hat. cbn [ebytes] in Hat. apply bytes_at_app in Hat as [_ Hat].
    change (blen (be32 DELETE)) with 4 in Hat. rewrite (rd32_be32 _ _ _ Hat), to_u32_small by (unfold is_u32; lia). done. }
  apply wp_bind. eapply wp_read; [done| |].
  { exact (LEVEL_at _ _ _ _ _ _ (ser_at hdF _ _ _ Hex2) (wf_ent _ _ _ Hwf' Hex2)). }
  rewrite Hps. apply wp_bind. eapply wp_read; [done| |].
  { exact (rec_key_at _ _ _ _ _ _ (ser_at hdF _ _ _ Hex2) (wf_ent _ _ _ Hwf' Hex2)). }
  rewrite Hx. apply wp_bind. eapply wp_find_node; [done|done|done|done|]. rewrite Nat2Z.id.
  assert (∀ i, prev_off k (below k l ++ rest) i = prev_off k l i) as Hprev.
  { intros i. unfold SkipList.prev_off. f_equal. f_equal. by destruct (split_removed _ _ _ _ _ _ _ Hsl Hk Hab). }
  assert (∀ i, (i < n_lvl x)%nat → fwd es (prev_off k l i) i = Some (n_off x)) as Hpf.
  { intros i Hi. rewrite (prev_off_fwd es c m) by (try done; lia). rewrite Hab. unfold succs.
    rewrite at_lvl_cons. by rewrite decide_True by done. }
  assert (∀ i, (i < n_lvl x)%nat →
    is_Some (fwd (del_ptrs (compar := compar) es k l x rest) (prev_off k l i) i)) as Hsome.
  { intros i Hi. unfold del_ptrs. rewrite fwd_setps by (intros j Hj; rewrite Hpf by done; eauto).
    rewrite decide_True by done. eauto. }
  eapply (wp_link_loop Hroom); [done|done|done| |].
  - intros i Hi. split; [rewrite uget_prev by lia; by rewrite Hprev|].
    destruct (Hsome i Hi) as [v Hv]. exists v. unfold es', del_step. by do 2 apply fwd_app_l.
  - intros pos'. unfold es', del_step. rewrite <- app_assoc. cbn [app].
    rewrite setps_app by done. unfold del_ptrs. by rewrite setps_restore.
Qed.

(** One turn of [undo_log]. *)
Lemma undo_turn hd es l hd' es' l' hdF tl Q g hl pos t :
  header_ok hd → slist es (curl hd) (maxl hd) l → wf_file es → wr_op hd es l hd' es' l' →
  curlevel hd' ≤ curlevel hdF ≤ maxlevel hd → maxlevel hdF = maxlevel hd →
  wf_file (es' ++ tl) → covers g (ser hdF (es' ++ tl)) →
  ∃ e esp, es' = esp ++ [e] ∧ shape esp = shape es ∧
    ((∀ pos', Q tt (S_ (ser hdF (es ++ e :: tl)) hdF g hl pos' t)) →
     wp (undo_entry compar (new_off es)) Q (S_ (ser hdF (es' ++ tl)) hdF g hl pos t)).
Proof using KO Hroom.
  intros Hh Hsl Hwf Hop Hcl Hml Hwf' Hc. pose proof Hh as (_ & _ & ? & _).
  destruct Hop as [hd es l k d lvl Hk Hnew Hlvl Hw|hd es l k x rest Hk Hab Hx Hw].
  - cbn [curlevel set_curlevel] in Hcl. eexists _, _. split; [done|]. split; [apply shape_setps|]. intros HQ. unfold undo_entry.
    assert (ent DUMMY_OFFSET (add_step (compar := compar) es k d l lvl ++ tl) (new_off es)
      = Some (ERec ADD k d (new_ptrs (compar := compar) l k lvl))) as He.
    { apply ent_app_l. unfold add_step, new_off.
      rewrite <- (shape_lsize (add_ptrs (compar := compar) es k l lvl) es) by apply shape_setps. apply ent_here. }
    apply wp_bind. eapply wp_read; [done|by eapply TYPE_ent|]. change (ADD =? ADD) with true. cbn [orb].
    apply wp_bind, wp_assert; [done|].
    eapply undo_add; try done; unfold maxl, curl in *; lia.
  - eexists _, _. split; [done|]. split; [apply shape_setps|]. intros HQ. unfold undo_entry.
    assert (ent DUMMY_OFFSET (del_step (compar := compar) es k l x rest ++ tl) (new_off es)
      = Some (EDel (n_off x))) as He.
    { apply ent_app_l. unfold del_step, new_off.
      rewrite <- (shape_lsize (del_ptrs (compar := compar) es k l x rest) es) by apply shape_setps.
      apply ent_here. }
    apply wp_bind. eapply wp_read; [done|by eapply TYPE_ent|].
    apply wp_bind, wp_assert; [done|]. change (DELETE =? ADD) with false. cbv iota.
    eapply undo_del; try done; unfold maxl, curl in *; lia.
Qed.

(** The whole log of a transaction. *)
Lemma wp_undo_log hd0 es0 l0 hd es l hdF tl fuel Q g hl pos t :
  header_ok hd0 → slist es0 (curl hd0) (maxl hd0) l0 → wf_file es0 → wr_ops hd0 es0 l0 hd es l →
  curlevel hd ≤ curlevel hdF ≤ maxlevel hd0 → maxlevel hdF = maxlevel hd0 →
  wf_file (es ++ tl) → covers g (ser hdF (es ++ tl)) → lsize es - lsize es0 < Z.of_nat fuel →
  (∀ pos' tl', wf_file (es0 ++ tl') → lsize (es0 ++ tl') = lsize (es ++ tl) →
     Q tt (S_ (ser hdF (es0 ++ tl')) hdF g hl pos' t)) →
  wp (undo_log compar fuel (blen (ser hd0 es0)) (blen (ser hd es))) Q (S_ (ser hdF (es ++ tl)) hdF g hl pos t).
Proof using KO Hroom.
  intros Hh Hsl Hwf Hops Hcl Hml. revert tl fuel pos.
  induction Hops as [|hd es l hd' es' l' Hops IH Hop]; intros tl fuel pos Hwf' Hc Hf HQ.
  { destruct fuel; [lia|]. cbn [undo_log]. rewrite Z.eqb_refl. by apply wp_ret, HQ. }
  destruct (wr_ops_inv _ _ _ _ _ _ Hh Hsl Hwf Hops) as (Hh1 & Hsl1 & Hwf1 & [ms Hms] & (c & Hhd & Hcc)).
  assert (maxlevel hd = maxlevel hd0) as Hm1 by by subst hd.
  assert (curlevel hd ≤ curlevel hd') as Hcl1 by (destruct Hop; cbn; lia).
  assert (lsize es0 ≤ lsize es) as Hle by (destruct (wr_ops_size _ _ _ _ _ _ Hops) as [(_ & -> & _)|]; lia).
  destruct fuel as [|fuel].
  { apply wr_op_size in Hop. lia. }
  cbn [undo_log]. destruct (undo_turn hd es l hd' es' l' hdF tl
    (λ _ s, wp (n ← rd (λ m, RECSIZE m (new_off es));
                undo_log compar fuel (blen (ser hd0 es0)) (blen (ser hd' es') - n)) Q s) g hl pos t)
    as (e & esp & Hes' & Hesp & Hturn); [done..|lia|lia|done|done|].
  assert (lsize esp = lsize es) as Hlp by by apply shape_lsize.
  pose proof (esize_pos e) as Hep.
  assert (lsize es' = lsize es + esize e) as Hl'.
  { subst es'. rewrite lsize_app, lsize_cons, Hlp. change (lsize []) with 0. lia. }
  destruct (Z.eqb_spec (blen (ser hd0 es0)) (blen (ser hd' es'))) as [E'|_].
  { rewrite !blen_ser in E'. lia. }
  apply wp_bind. eapply wp_read; [done| |].
  { rewrite Hes' in *. apply (undo_find _ _ _ es0 esp ms); [by rewrite Hesp|done]. }
  rewrite Hlp. apply wp_bind, Hturn. intros pos'. clear Hturn.
  assert (wf_file (es ++ e :: tl)) as Hwf2.
  { destruct Hwf' as [Hw Hs]. rewrite Hes', <- app_assoc in Hw. apply Forall_app in Hw as [_ Hw].
    split; [apply Forall_app; split; [by destruct Hwf1|done]|].
    rewrite lsize_app, lsize_cons in *. lia. }
  assert (lsize (es ++ e :: tl) = lsize (es' ++ tl)) as Hlt by (rewrite !lsize_app, lsize_cons; lia).
  assert (covers g (ser hdF (es ++ e :: tl))) as Hc2.
  { destruct Hc as [? Hc]. split; [done|]. rewrite blen_ser in *. by rewrite Hlt. }
  apply wp_bind. eapply wp_read; [done|eapply RECSIZE_ent; [done|apply ent_here]|].
  replace (blen (ser hd' es') - esize e) with (blen (ser hd es)) by (rewrite !blen_ser; lia).
  apply IH; [lia|done|done|lia|]. intros pos'' tl' Hw1 Hl1. apply HQ; [done|by rewrite Hl1].
Qed.

(** [ftruncate] drops the tail. *)
Lemma wp_ftruncate Q hd es tl h g hl pos t :
  (∀ t', Q 0 (S_ (ser hd es) h g hl pos t')) →
  wp (ftruncate (blen (ser hd es))) Q (S_ (ser hd (es ++ tl)) h g hl pos t).
Proof using Hcalls.
  intros HQ. unfold ftruncate. wstep. apply wp_bind, wp_sys_fails; [done|]. cbn [fd SkipRun.S_].
  wstep. rewrite (file_of_S ino others nm nx name). unfold put_file, modify_fs. wstep. apply wp_ret.
  rewrite ser_app. set (m := ser hd es). rewrite pad_to_id by (pose proof (blen_nonneg (mjoin (ebytes <$> tl))); blia).
  unfold blen. rewrite Nat2Z.id, take_app_length.
  assert (∀ m', set_fs (set_inodes (<[ino := m']> (inodes (fs (S_ (m ++ mjoin (ebytes <$> tl)) h g hl pos (S t)))))
    (fs (S_ (m ++ mjoin (ebytes <$> tl)) h g hl pos (S t)))) (S_ (m ++ mjoin (ebytes <$> tl)) h g hl pos (S t))
    = S_ m' h g hl pos (S t)) as ->; [|apply HQ].
  intros m'. unfold SkipRun.S_, set_fs, set_inodes. cbn. by rewrite insert_insert_eq.
Qed.
End Undo.

(** * Building a list *)

(** ** Positions of pointers *)

(** [a] is the position of pointer [i] of the record at [p]. *)
Definition is_addr (es : list entry) (p : Z) (i : nat) (a : Z) : Prop :=
  ∃ ty k d ps, ent DUMMY_OFFSET es p = Some (ERec ty k d ps) ∧ (i < length ps)%nat ∧
    a = p + 12 + ROUNDUP (blen k) + ROUNDUP (blen d) + 4 * Z.of_nat i.

Lemma is_addr_shape es es' p i a : shape es = shape es' → is_addr es p i a → is_addr es' p i a.
Proof.
  intros Hs (ty & k & d & ps & He & Hi & ->).
  destruct (shape_rec _ _ _ _ _ _ _ Hs He) as (ps' & He' & Hl). exists ty, k, d, ps'.
  split_and!; [done|lia|done].
Qed.

Lemma is_addr_app es tl p i a : is_addr es p i a → is_addr (es ++ tl) p i a.
Proof. intros (ty & k & d & ps & He & ?). exists ty, k, d, ps. split; [by apply ent_app_l|done]. Qed.

Lemma is_addr_fwd es p i a : is_addr es p i a → is_Some (fwd es p i).
Proof.
  intros (ty & k & d & ps & He & Hi & _). rewrite (ent_fwd _ _ _ _ _ _ _ He).
  by apply lookup_lt_is_Some.
Qed.

(** ** Chains under construction *)

(** The chains of the levels below [m] lead through [done]. *)
Definition chained (es : list entry) (m : nat) (dn : list node) : Prop :=
  ∀ i, (i < m)%nat → path (fwd es) i DUMMY_OFFSET (at_lvl i dn).

Definition tail_off (dn : list node) (i : nat) : Z := last_off DUMMY_OFFSET (at_lvl i dn).

(** [u] has the position of the last pointer of each. *)
Definition tails (es : list entry) (m : nat) (dn : list node) (u : list Z) : Prop :=
  length u = m ∧ ∀ i, (i < m)%nat → ∃ a, u !! i = Some a ∧ is_addr es (tail_off dn i) i a.

Lemma tail_off_snoc dn n i :
  tail_off (dn ++ [n]) i = if decide (i < n_lvl n)%nat then n_off n else tail_off dn i.
Proof.
  unfold tail_off. rewrite at_lvl_app, at_lvl_cons. destruct (decide _).
  - by rewrite last_off_app.
  - by rewrite app_nil_r.
Qed.

Lemma tail_off_in dn i : tail_off dn i ∈ DUMMY_OFFSET :: (n_off <$> dn).
Proof. eapply in_at_lvl, last_off_in. Qed.

(** The record [n] goes to the end of its levels. *)
Definition chain_add (es : list entry) (dn : list node) (n : node) : list entry :=
  setps es (n_lvl n) (tail_off dn) (λ _, n_off n).

Lemma chained_add es m dn n :
  chained es m dn → (∀ i, (i < m)%nat → is_Some (fwd es (tail_off dn i) i)) → (n_lvl n ≤ m)%nat →
  NoDup (DUMMY_OFFSET :: (n_off <$> dn ++ [n])) → chained (chain_add es dn n) m (dn ++ [n]).
Proof.
  intros Hc Hs Hm Hnd i Hi. rewrite at_lvl_app. apply path_app.
  assert (∀ x, fwd (chain_add es dn n) x i =
    if decide ((i < n_lvl n)%nat ∧ x = tail_off dn i) then Some (n_off n) else fwd es x i) as Hf.
  { intros x. unfold chain_add. by rewrite fwd_setps by (intros; apply Hs; lia). }
  split.
  - eapply path_ext; [| |by apply Hc].
    + rewrite fmap_app, app_comm_cons in Hnd. apply NoDup_app in Hnd as [Hnd _].
      eapply sublist_NoDup; [exact Hnd|]. apply sublist_skip, fmap_sublist, sublist_filter.
    + intros x _ Hx. rewrite Hf. rewrite decide_False; [done|]. intros [_ ?]. done.
  - rewrite at_lvl_cons. destruct (decide (i < n_lvl n)%nat); [|done]. split; [|done].
    rewrite Hf. by rewrite decide_True.
Qed.

Lemma tails_some es m dn u i : tails es m dn u → (i < m)%nat → is_Some (fwd es (tail_off dn i) i).
Proof. intros [_ H] Hi. destruct (H i Hi) as (a & _ & Ha). by eapply is_addr_fwd. Qed.

(** Ending the chains makes them links. *)
Definition chain_end (es : list entry) (m : nat) (dn : list node) : list entry :=
  setps es m (tail_off dn) (λ _, 0).

Lemma chained_end es m dn i :
  chained es m dn → (∀ i, (i < m)%nat → is_Some (fwd es (tail_off dn i) i)) →
  NoDup (DUMMY_OFFSET :: (n_off <$> dn)) → (i < m)%nat →
  links (fwd (chain_end es m dn)) i DUMMY_OFFSET (at_lvl i dn).
Proof.
  intros Hc Hs Hnd Hi.
  assert (∀ x, fwd (chain_end es m dn) x i =
    if decide (x = tail_off dn i) then Some 0 else fwd es x i) as Hf.
  { intros x. unfold chain_end. rewrite fwd_setps by done.
    destruct (decide (x = _)); [by rewrite decide_True|]. rewrite decide_False; [done|]. by intros [_ ?]. }
  split; [|unfold tail_off in Hf; by rewrite Hf, decide_True].
  eapply path_ext; [| |by apply Hc].
  - eapply sublist_NoDup; [exact Hnd|]. apply sublist_skip, fmap_sublist, sublist_filter.
  - intros x _ Hx. rewrite Hf. by rewrite decide_False.
Qed.

(** The chains of an empty list. *)
Lemma chained_nil es m : chained es m [].
Proof. intros i Hi. done. Qed.

Lemma tails_nil es mx ps :
  ent DUMMY_OFFSET es DUMMY_OFFSET = Some (ERec DUMMY [] [] ps) → length ps = Z.to_nat mx →
  tails es (Z.to_nat mx) [] (dummy_positions mx).
Proof.
  intros He Hl. split; [unfold dummy_positions; by rewrite length_fmap, length_seq|]. intros i Hi.
  exists (DUMMY_OFFSET + 12 + 4 * Z.of_nat i). split.
  - unfold dummy_positions. by rewrite list_lookup_fmap, lookup_seq_lt.
  - exists DUMMY, [], [], ps. split_and!; [done|lia|]. change (ROUNDUP (blen [])) with 0. unfold tail_off. cbn [at_lvl filter list_filter last_off]. lia.
Qed.

(** ** The writes *)

Section Chain.
Context `{E : Env}.
Context (Hroom : 2147483648 ≤ file_limit).
Context (ino : Z) (others : gmap Z bytes) (nm : gmap bytes Z) (nx : Z) (name : bytes).
Abbreviation S_ := (S_ ino others nm nx name).
Abbreviation covers := (covers ino).

Lemma addr_range es p i a :
  wf_file es → is_addr es p i a → 0 ≤ a ∧ a + 4 ≤ 2147483648.
Proof using.
  intros Hwf (ty & k & d & ps & He & Hi & ->).
  pose proof (ent_off _ _ _ Hwf He) as [_ Hp]. pose proof (wf_ent _ _ _ Hwf He) as (_ & Hk & Hd & _).
  apply ent_range in He as [_ He]. unfold esize in He. cbn [ebytes] in He. rewrite blen_rec in He by done.
  destruct Hwf as [_ Hs]. unfold rsize, is_off, DUMMY_OFFSET, HEADER_SIZE in *.
  pose proof (blen_nonneg k). pose proof (blen_nonneg d).
  pose proof (ROUNDUP_bounds (blen k) ltac:(lia)). pose proof (ROUNDUP_bounds (blen d) ltac:(lia)). lia.
Qed.

(** A word written at such a position, whatever the header. *)
Lemma wp_set_addr_head z p i a v Q es h g hl pos t :
  blen z = 48 → wf_file es → is_addr es p i a →
  (∀ pos', Q 0 (S_ (serz z (setp es p i v)) h g hl pos' t)) →
  wp (write_word_checked a v) Q (S_ (serz z es) h g hl pos t).
Proof using Hroom.
  intros Hz Hwf Ha HQ. destruct (addr_range _ _ _ _ Hwf Ha).
  destruct Ha as (ty & k & d & ps & He & Hi & ->).
  apply (wp_write_word_checked Hroom); [done|done|]. intros pos'.
  destruct (lookup_lt_is_Some_2 ps i Hi) as [w Hw].
  rewrite (serz_setp z es p ty k d ps i v w Hz He (wf_ent _ _ _ Hwf He) Hw). apply HQ.
Qed.

Lemma wp_set_addr p i a v Q hd es h g hl pos t :
  wf_file es → is_addr es p i a →
  (∀ pos', Q 0 (S_ (ser hd (setp es p i v)) h g hl pos' t)) →
  wp (write_word_checked a v) Q (S_ (ser hd es) h g hl pos t).
Proof using Hroom. by apply (wp_set_addr_head (header_bytes hd)). Qed.

Lemma wp_zero_pointers_head z m dn u Q es h g hl pos t :
  blen z = 48 → wf_file es → tails es m dn u →
  (∀ pos', Q 0 (S_ (serz z (chain_end es m dn)) h g hl pos' t)) →
  wp (zero_pointers m 0 u) Q (S_ (serz z es) h g hl pos t).
Proof using Hroom.
  intros Hz Hwf Ht HQ.
  assert (∀ j n pos, (j + n = m)%nat →
    wp (zero_pointers n (Z.of_nat j) u) Q
      (S_ (serz z (setps es j (tail_off dn) (λ _, 0))) h g hl pos t)) as Hgo;
    [|by apply (Hgo 0%nat m pos)].
  intros j n. revert j. induction n as [|n IH]; intros j pos' Hj; cbn [zero_pointers].
  - replace j with m by lia. apply wp_ret, HQ.
  - destruct Ht as [Hlen Ht]. destruct (Ht j ltac:(lia)) as (a & Ha & Had).
    apply wp_bind. eapply wp_liftr.
    { unfold uget. destruct (Z.ltb_spec (Z.of_nat j) 0); [lia|]. by rewrite Nat2Z.id, Ha. }
    apply wp_bind. eapply wp_set_addr_head; [done|by apply wf_setps; [|done]| |].
    { eapply is_addr_shape; [|exact Had]. symmetry. apply shape_setps. }
    intros pos''. cbn [Z.eqb negb]. replace (Z.of_nat j + 1) with (Z.of_nat (S j)) by lia.
    change (setp _ _ _ _) with (setps es (S j) (tail_off dn) (λ _, 0)). apply IH. lia.
Qed.

Lemma wp_zero_pointers m dn u Q hd es h g hl pos t :
  wf_file es → tails es m dn u →
  (∀ pos', Q 0 (S_ (ser hd (chain_end es m dn)) h g hl pos' t)) →
  wp (zero_pointers m 0 u) Q (S_ (ser hd es) h g hl pos t).
Proof using Hroom. by apply (wp_zero_pointers_head (header_bytes hd)). Qed.
End Chain.
