(* ===== verification/SkipRecover.v ===== *)
(** * SkipRecover: recovery

    [recovery] trusts no pointer of the file: it chains the INORDER records anew
    and replays the log on them up to the last commit.  What it rebuilds is
    determined by the entries up to their pointers, so it is the same whatever
    was being written when a process died. *)
From S2P Require Import Prelude CMem.
From stdpp Require Import gmap sorting list.
From S2P Require Import CFile Prog DbFile CyrusDb BSearch Skiplist DbOrder SkipFile SkipList SkipStep SkipRun.
From S2P Require Import SkipFetch SkipWrite SkipTxn.
#[local] Open Scope Z_scope.

(** ** What the entries say *)

(** The records in file order. *)
Fixpoint nodes_of (off : Z) (es : list entry) : list node :=
  match es with
  | [] => []
  | ERec _ k d ps as e :: es' => Node off k d (length ps) :: nodes_of (off + esize e) es'
  | e :: es' => nodes_of (off + esize e) es'
  end.

Definition is_inorder (e : entry) : Prop := match e with ERec ty _ _ _ => ty = INORDER | _ => False end.

(** A transaction that was not committed. *)
Definition is_change (e : entry) : Prop :=
  match e with ERec ty _ _ _ => ty = ADD | EDel _ => True | ECommit => False end.

(** No record of the log is higher than [c]. *)
Definition lvl_ok (c : nat) (e : entry) : Prop :=
  match e with ERec _ _ _ ps => (length ps ≤ c)%nat | _ => True end.

Lemma lvl_ok_shape c e e' : eshape e = eshape e' → lvl_ok c e → lvl_ok c e'.
Proof.
  destruct e, e'; cbn; try done. intros [= _ _ _ Hl]. apply (f_equal length) in Hl.
  rewrite !length_replicate in Hl. by rewrite Hl.
Qed.

Lemma is_change_shape e e' : eshape e = eshape e' → is_change e → is_change e'.
Proof. destruct e, e'; cbn; try done. by intros [= -> _ _ _]. Qed.

Lemma is_inorder_shape e e' : eshape e = eshape e' → is_inorder e → is_inorder e'.
Proof. destruct e, e'; cbn; try done. by intros [= -> _ _ _]. Qed.

Lemma Forall_shape (P : entry → Prop) es es' :
  (∀ e e', eshape e = eshape e' → P e → P e') → shape es = shape es' → Forall P es → Forall P es'.
Proof.
  intros HP Hsh Hf. revert es' Hsh. induction Hf as [|e es He _ IH]; intros [|e' es'] Hsh; try done.
  injection Hsh as He' Hsh. constructor; [by eapply HP|by apply IH].
Qed.

Lemma nodes_of_shape es es' off : shape es = shape es' → nodes_of off es = nodes_of off es'.
Proof.
  revert off es'. induction es as [|e es IH]; intros off [|e' es']; try done.
  intros [= He Hes]. pose proof (eshape_esize _ _ He) as Hs.
  destruct e, e'; cbn [eshape] in He; try done; cbn [nodes_of]; [|try rewrite Hs; by apply IH..].
  injection He as -> -> -> Hl. apply (f_equal length) in Hl. rewrite !length_replicate in Hl.
  rewrite Hs, Hl. f_equal. by apply IH.
Qed.

Section Log.
Context `{KO : KeyOrder compar keyok}.

Abbreviation below := (below (compar := compar)).
Abbreviation above := (above (compar := compar)).

(** What an entry of the log at [off] makes of the active records. *)
Inductive log_step (off : Z) : entry → list node → list node → Prop :=
  | ls_add k d ps l :
      keyok k → Forall (λ n, n_key n ≠ k) l → (1 ≤ length ps)%nat →
      log_step off (ERec ADD k d ps) l (below k l ++ Node off k d (length ps) :: above k l)
  | ls_del k x rest l :
      keyok k → above k l = x :: rest → n_key x = k →
      log_step off (EDel (n_off x)) l (below k l ++ rest)
  | ls_commit l : log_step off ECommit l l.

Inductive log_run : Z → list entry → list node → list node → Prop :=
  | lr_nil off l : log_run off [] l l
  | lr_cons off e es l l1 l2 :
      log_step off e l l1 → log_run (off + esize e) es l1 l2 → log_run off (e :: es) l l2.

Lemma log_run_app off es es' l l1 l2 :
  log_run off es l l1 → log_run (off + lsize es) es' l1 l2 → log_run off (es ++ es') l l2.
Proof using.
  induction 1 as [|off e es l l1 l' Hst Hr IH]; intros H; cbn [app].
  - change (lsize []) with 0 in H. by rewrite Z.add_0_r in H.
  - eapply lr_cons; [done|]. apply IH. rewrite lsize_cons in H. by rewrite <- Z.add_assoc.
Qed.

Lemma log_step_shape off e e' l l' : eshape e = eshape e' → log_step off e l l' → log_step off e' l l'.
Proof using.
  intros He Hst. destruct Hst; destruct e'; cbn [eshape] in He; try done.
  - injection He as <- <- <- Hl. apply (f_equal length) in Hl. rewrite !length_replicate in Hl.
    rewrite Hl in *. by constructor.
  - injection He as <-. by econstructor.
  - constructor.
Qed.

Lemma log_run_shape off es es' l l' : shape es = shape es' → log_run off es l l' → log_run off es' l l'.
Proof using.
  intros Hs Hr. revert es' Hs. induction Hr as [|off e es l l1 l2 Hst Hr IH]; intros [|e' es'] Hs; try done.
  - constructor.
  - injection Hs as He Hs. eapply lr_cons; [by eapply log_step_shape|].
    rewrite <- (eshape_esize _ _ He). by apply IH.
Qed.

(** The entries of a file: head, checkpoint, log; and the records they leave. *)
Definition logged (hd : header) (es : list entry) (l : list node) : Prop :=
  ∃ dps ino log,
    es = (ERec DUMMY [] [] dps :: ino) ++ log ∧ length dps = maxl hd ∧ Forall is_inorder ino ∧
    logstart hd = DUMMY_OFFSET + DUMMY_SIZE (maxlevel hd) + lsize ino ∧
    let l0 := nodes_of (DUMMY_OFFSET + DUMMY_SIZE (maxlevel hd)) ino in
    nodes_ok (compar := compar) (keyok := keyok) (ERec DUMMY [] [] dps :: ino) (curl hd) (maxl hd) l0 ∧
    log_run (logstart hd) log l0 l ∧ Forall (lvl_ok (curl hd)) log.

(** They are determined up to the pointers. *)
Lemma logged_shape hd es es' l : shape es = shape es' → logged hd es l → logged hd es' l.
Proof using.
  intros Hsh (dps & ino & log & -> & Hd & Hin & Hls & Hno & Hrun & Hlv).
  rewrite !shape_app in Hsh. symmetry in Hsh. apply fmap_app_inv in Hsh as (pre & log' & Hpre & Hlog & ->).
  fold (shape pre) in Hpre. fold (shape log') in Hlog.
  destruct pre as [|[ty kk dd dps'| |] ino']; try done. cbn [shape fmap list_fmap eshape] in Hpre.
  injection Hpre as <- <- <- Hdps Hino. fold (shape ino) in Hino. fold (shape ino') in Hino.
  apply (f_equal length) in Hdps. rewrite !length_replicate in Hdps.
  exists dps', ino', log'. rewrite <- (nodes_of_shape _ _ _ Hino), <- (shape_lsize _ _ Hino).
  cbn zeta. split_and!; try done.
  - lia.
  - eapply Forall_shape; [apply is_inorder_shape|exact Hino|done].
  - rewrite <- (app_nil_r (_ :: ino')). eapply nodes_ok_shape; [|exact Hno].
    cbn [shape fmap list_fmap eshape]. rewrite Hdps. fold (shape ino) (shape ino'). by rewrite Hino.
  - by eapply log_run_shape.
  - eapply Forall_shape; [apply lvl_ok_shape|exact Hlog|done].
Qed.

Lemma esize_dummy hd dps :
  header_ok hd → length dps = maxl hd → esize (ERec DUMMY [] [] dps) = DUMMY_SIZE (maxlevel hd).
Proof using.
  intros (_ & _ & ? & _) Hd. unfold esize. cbn [ebytes]. rewrite blen_rec by done. rewrite Hd.
  unfold rsize, DUMMY_SIZE, maxl. change (ROUNDUP (blen [])) with 0. lia.
Qed.

(** One more entry; the current level may rise. *)
Lemma logged_snoc hd hd' es e l l' :
  header_ok hd → logged hd es l → log_step (new_off es) e l l' → maxlevel hd' = maxlevel hd →
  logstart hd' = logstart hd → curlevel hd ≤ curlevel hd' ≤ maxlevel hd → lvl_ok (curl hd') e →
  logged hd' (es ++ [e]) l'.
Proof using.
  intros Hh (dps & ino & log & -> & Hd & Hin & Hls & Hno & Hrun & Hlv) Hst Hml Hlg Hcl He.
  pose proof Hh as (_ & _ & ? & _).
  assert (maxl hd' = maxl hd) as Hmm by (unfold maxl; by rewrite Hml).
  exists dps, ino, (log ++ [e]). rewrite Hlg, Hml, Hmm, <- app_assoc. cbn zeta.
  split_and!; try done.
  - eapply nodes_ok_level; [exact Hno|]. unfold curl, maxl. lia.
  - eapply log_run_app; [done|]. eapply lr_cons; [|constructor].
    replace (logstart hd + lsize log) with (new_off ((ERec DUMMY [] [] dps :: ino) ++ log)); [done|].
    unfold new_off. rewrite lsize_app, lsize_cons, (esize_dummy hd) by done. lia.
  - apply Forall_app. split; [|by constructor]. eapply Forall_impl; [exact Hlv|].
    intros []; cbn; [|done..]. unfold curl. lia.
Qed.

Lemma logged_level hd es l c :
  header_ok hd → logged hd es l → curlevel hd ≤ c ≤ maxlevel hd → logged (set_curlevel c hd) es l.
Proof using.
  intros (_ & _ & ? & _) (dps & ino & log & -> & Hd & Hin & Hls & Hno & Hrun & Hlv) Hc.
  exists dps, ino, log. cbn zeta. split_and!; try done.
  - eapply nodes_ok_level; [exact Hno|]. unfold curl, maxl. cbn. lia.
  - eapply Forall_impl; [exact Hlv|]. intros []; cbn; [|done..]. unfold curl. cbn. lia.
Qed.

(** The steps of a transaction are what the log says. *)
Lemma wr_op_logged hd es l hd' es' l' :
  header_ok hd → wr_op (compar := compar) (keyok := keyok) hd es l hd' es' l' →
  logged hd es l → logged hd' es' l'.
Proof using KO.
  intros Hh Hop Hlg. pose proof Hh as (_ & _ & ? & _).
  destruct Hop as [hd es l k d lvl Hk Hnew Hlvl Hw|hd es l k x rest Hk Hab Hx Hw].
  - assert (length (new_ptrs (compar := compar) l k lvl) = lvl) as Hlen
      by (unfold new_ptrs; by rewrite length_fmap, length_seq).
    pose proof (shape_setps es lvl (prev_off (compar := compar) k l) (λ _, new_off es)) as Hsh.
    unfold add_step. eapply logged_snoc; [exact Hh|eapply logged_shape; [symmetry; exact Hsh|done]| |done|done| |].
    + replace (new_off (add_ptrs (compar := compar) es k l lvl)) with (new_off es)
        by (unfold new_off, add_ptrs; by rewrite (shape_lsize _ _ Hsh)).
      rewrite <- Hlen at 2. constructor; [done|done|lia].
    + unfold maxl in Hlvl. cbn. lia.
    + cbn [lvl_ok]. rewrite Hlen. unfold curl. cbn. lia.
  - pose proof (shape_setps es (n_lvl x) (prev_off (compar := compar) k l) (λ i, succs i rest)) as Hsh.
    unfold del_step. eapply logged_snoc; [exact Hh|eapply logged_shape; [symmetry; exact Hsh|done]| |done|done|lia|done].
    by econstructor.
Qed.

Lemma wr_ops_logged hd0 es0 l0 hd es l :
  header_ok hd0 → slist (compar := compar) (keyok := keyok) es0 (curl hd0) (maxl hd0) l0 → wf_file es0 →
  wr_ops (compar := compar) (keyok := keyok) hd0 es0 l0 hd es l → logged hd0 es0 l0 → logged hd es l.
Proof using KO.
  intros Hh Hsl Hwf Hops Hlg. induction Hops as [|hd es l hd' es' l' Hops IH Hop]; [done|].
  eapply wr_op_logged; [|exact Hop|exact IH].
  by destruct (wr_ops_inv _ _ _ _ _ _ Hh Hsl Hwf Hops) as (? & _).
Qed.
(** A file between transactions: the log is closed and says what there is. *)
Definition log_ok (hd : header) (es : list entry) (l : list node) : Prop :=
  closed hd es ∧ logged hd es l ∧ version hd = SKIPLIST_VERSION.

Lemma closed_level hd es c : closed hd es → closed (set_curlevel c hd) es.
Proof using.
  intros (Hle & es' & e & -> & Hc).
  assert (blen (ser hd (es' ++ [e])) = blen (ser (set_curlevel c hd) (es' ++ [e]))) as Hb by by rewrite !blen_ser.
  split; [by rewrite <- Hb|]. exists es', e. split; [done|]. by rewrite <- Hb.
Qed.

Lemma log_ok_level hd es l c :
  header_ok hd → log_ok hd es l → curlevel hd ≤ c ≤ maxlevel hd → log_ok (set_curlevel c hd) es l.
Proof using. intros Hh (? & ? & ?) Hc. split_and!; [by apply closed_level|by apply logged_level|done]. Qed.

Lemma closed_commit hd es : logstart hd ≤ blen (ser hd es) → closed hd (es ++ [ECommit]).
Proof using.
  intros Hle. rewrite blen_ser in Hle. unfold closed. rewrite blen_ser, lsize_app. change (lsize [ECommit]) with 4.
  split; [lia|]. exists es, ECommit. split; [done|]. rewrite decide_False; [done|lia].
Qed.

(** A commit closes the log. *)
Lemma log_ok_commit hd0 es0 l0 hd es l :
  header_ok hd0 → slist (compar := compar) (keyok := keyok) es0 (curl hd0) (maxl hd0) l0 → wf_file es0 →
  wr_ops (compar := compar) (keyok := keyok) hd0 es0 l0 hd es l → log_ok hd0 es0 l0 →
  log_ok hd (es ++ [ECommit]) l.
Proof using KO.
  intros Hh Hsl Hwf Hops ([Hle _] & Hlg & Hv).
  destruct (wr_ops_inv _ _ _ _ _ _ Hh Hsl Hwf Hops) as (Hh' & _ & _ & _ & (c & -> & _)).
  assert (lsize es0 ≤ lsize es) by (destruct (wr_ops_size _ _ _ _ _ _ Hops) as [(_ & -> & _)|]; lia).
  split_and!; [|eapply logged_snoc; [exact Hh'|exact (wr_ops_logged _ _ _ _ _ _ Hh Hsl Hwf Hops Hlg)|constructor|done|done| |done]|done].
  - apply closed_commit. rewrite blen_ser in *. cbn. lia.
  - destruct Hh' as (_ & _ & ? & _). lia.
Qed.
End Log.

(** ** Chaining the INORDER records *)

Section Recover.
Context `{E : Env} `{KO : KeyOrder compar keyok}.
Context (Hcalls : ∀ n, fails n = false) (Hroom : 2147483648 ≤ file_limit).
Context (ino : Z) (others : gmap Z bytes) (nm : gmap bytes Z) (nx : Z) (name : bytes).
Abbreviation S_ := (S_ ino others nm nx name).
Abbreviation covers := (covers ino).

Abbreviation slist := (slist (compar := compar) (keyok := keyok)).
Abbreviation below := (below (compar := compar)).
Abbreviation above := (above (compar := compar)).
Abbreviation nodes_ok := (nodes_ok (compar := compar) (keyok := keyok)).
Abbreviation log_step := (log_step (compar := compar) (keyok := keyok)).
Abbreviation log_run := (log_run (compar := compar) (keyok := keyok)).

(** One record's levels: [u] moves on to its pointers. *)
Lemma wp_relink_levels m dn u n Q hd es h g hl pos t :
  wf_file es → covers g (ser hd es) → is_node es n → (n_lvl n ≤ m)%nat → tails es m dn u →
  (∀ pos' u', tails (chain_add es dn n) m (dn ++ [n]) u' →
     Q (0, u') (S_ (ser hd (chain_add es dn n)) h g hl pos' t)) →
  wp (relink_levels (S (length u)) 0 (n_off n) u) Q (S_ (ser hd es) h g hl pos t).
Proof using Hroom.
  intros Hwf Hc (ty & qs & He & Hty & Hq) Hm [Hlen Ht] HQ. rewrite Hlen.
  assert (∀ j k u pos, (j + k = n_lvl n)%nat → length u = m →
    (∀ i, (i < m)%nat → ∃ a, u !! i = Some a ∧
       is_addr es (if decide (i < j)%nat then n_off n else tail_off dn i) i a) →
    wp (relink_levels (S m - j) (Z.of_nat j) (n_off n) u) Q
      (S_ (ser hd (setps es j (tail_off dn) (λ _, n_off n))) h g hl pos t)) as Hgo.
  2: { apply (Hgo 0%nat (n_lvl n) u pos); done. }
  clear u Hlen Ht. intros j k. revert j. induction k as [|k IH]; intros j u pos' Hj Hlen Hu;
    (replace (S m - j)%nat with (S (m - j)) by lia); cbn [relink_levels];
    set (es1 := setps es j (tail_off dn) (λ _, n_off n));
    assert (shape es = shape es1) as Hsh by (symmetry; apply shape_setps);
    destruct (shape_rec _ _ _ _ _ _ _ Hsh He) as (qs1 & He1 & Hq1);
    (assert (wf_file es1) as Hwf1 by (apply wf_setps; [done|]; intros i _; by eapply ent_off));
    (assert (covers g (ser hd es1)) as Hc1 by (by eapply covers_shape));
    (apply wp_bind; eapply wp_read;
      [exact Hc1|exact (LEVEL_at _ _ _ _ _ _ (ser_at hd _ _ _ He1) (wf_ent _ _ _ Hwf1 He1))|]).
  - rewrite Hq1, Hq. destruct (Z.leb_spec (Z.of_nat (n_lvl n)) (Z.of_nat j)); [|lia].
    apply wp_ret. unfold es1. replace j with (n_lvl n) by lia. apply HQ. split; [done|]. intros i Hi.
    destruct (Hu i Hi) as (a & Ha & Had). exists a. split; [done|].
    rewrite tail_off_snoc. replace j with (n_lvl n) in Had by lia.
    eapply is_addr_shape; [|exact Had]. symmetry. apply shape_setps.
  - rewrite Hq1, Hq. destruct (Z.leb_spec (Z.of_nat (n_lvl n)) (Z.of_nat j)); [lia|].
    destruct (Hu j ltac:(lia)) as (a & Ha & Had). rewrite decide_False in Had by lia.
    apply wp_bind. eapply wp_liftr.
    { unfold uget. destruct (Z.ltb_spec (Z.of_nat j) 0); [lia|]. by rewrite Nat2Z.id, Ha. }
    apply wp_bind. eapply (wp_set_addr Hroom); [done|by eapply is_addr_shape|].
    intros pos''. cbn [Z.eqb negb].
    change (setp es1 _ _ _) with (setps es (S j) (tail_off dn) (λ _, n_off n)).
    set (es2 := setps es (S j) (tail_off dn) (λ _, n_off n)).
    assert (shape es = shape es2) as Hsh2 by (symmetry; apply shape_setps).
    destruct (shape_rec _ _ _ _ _ _ _ Hsh2 He) as (qs2 & He2 & Hq2).
    assert (wf_file es2) as Hwf2 by (apply wf_setps; [done|]; intros i _; by eapply ent_off).
    apply wp_bind. eapply wp_read; [by eapply covers_shape|
      exact (PTR_at _ _ _ _ _ _ (ser_at hd _ _ _ He2) (wf_ent _ _ _ Hwf2 He2) (Z.of_nat j))|].
    apply wp_bind. eapply wp_liftr.
    { unfold uset. destruct (Z.leb_spec 0 (Z.of_nat j)), (Z.ltb_spec (Z.of_nat j) (Z.of_nat (length u)));
        [reflexivity|lia..]. }
    replace (Z.of_nat j + 1) with (Z.of_nat (S j)) by lia. rewrite Nat2Z.id.
    replace (m - j)%nat with (S m - S j)%nat by lia. apply IH; [lia|by rewrite length_insert|].
    intros i Hi. destruct (decide (i = j)) as [->|Hne].
    + eexists. split; [by apply list_lookup_insert_eq; lia|]. rewrite decide_True by lia.
      exists ty, (n_key n), (n_data n), qs. split_and!; [done|lia|done].
    + destruct (Hu i Hi) as (b & Hb & Hbd). exists b. rewrite list_lookup_insert_ne by done. split; [done|].
      destruct (decide (i < j)%nat); [rewrite decide_True by lia|rewrite decide_False by lia]; done.
Qed.

Lemma nodes_of_cons off k d ps es :
  nodes_of off (ERec INORDER k d ps :: es)
    = Node off k d (length ps) :: nodes_of (off + esize (ERec INORDER k d ps)) es.
Proof using. done. Qed.

(** The last word of a record. *)
Lemma PADDING_ent hd es off ty k d ps :
  wf_file es → ent DUMMY_OFFSET es off = Some (ERec ty k d ps) →
  PADDING (ser hd es) off = Ok MINUS1.
Proof using.
  intros Hwf He. unfold PADDING. rewrite (RECSIZE_ent hd _ _ _ Hwf He). cbn [mbind result_bind].
  pose proof (ser_at hd _ _ _ He) as Hat. cbn [ebytes] in Hat. unfold rec_bytes in Hat.
  rewrite !app_assoc in Hat. apply bytes_at_app in Hat as [_ Hat].
  change MINUS1 with (to_u32 (-1)). rewrite <- (rd32_be32 _ _ (-1) Hat). f_equal.
  unfold esize. cbn [ebytes]. unfold rec_bytes. autorewrite with blen. lia.
Qed.

(** All of them. *)
Lemma wp_relink_inorder m c pre mid post dn es u fuel Q hd h g hl pos t :
  shape es = shape (pre ++ mid ++ post) → Forall is_inorder mid →
  let off := DUMMY_OFFSET + lsize pre in
  let ns := nodes_of off mid in
  nodes_ok es c m (dn ++ ns) → wf_file es → covers g (ser hd es) → chained es m dn → tails es m dn u →
  logstart h = off + lsize mid → (length mid < fuel)%nat →
  (∀ pos' es' u', shape es' = shape es → wf_file es' → chained es' m (dn ++ ns) → tails es' m (dn ++ ns) u' →
     Q (0, off + lsize mid, u')
       (S_ (ser hd es') (set_listsize (listsize h + Z.of_nat (length mid)) h) g hl pos' t)) →
  wp (relink_inorder fuel off u) Q (S_ (ser hd es) h g hl pos t).
Proof using KO Hroom.
  revert pre dn es u fuel h pos. induction mid as [|e mid IH]; intros pre dn es u fuel h pos Hsh Hin off ns
    Hno Hwf Hc Hch Ht Hlog Hf HQ; (destruct fuel as [|fuel]; [cbn in Hf; lia|]); cbn [relink_inorder];
    wstep; cbn [hdr SkipRun.S_].
  - change (lsize []) with 0 in *. rewrite Z.add_0_r in *. rewrite Hlog.
    assert (to_u32 off <= off) as Hu.
    { unfold off. pose proof (lsize_nonneg pre). destruct Hwf as [_ Hs]. unfold DUMMY_OFFSET, HEADER_SIZE.
      unfold to_u32. apply Z.mod_le; lia. }
    destruct (Z.ltb_spec off (to_u32 off)); [lia|]. cbn [negb]. apply wp_ret.
    specialize (HQ pos es u). rewrite app_nil_r, Z.add_0_r in HQ.
    replace (set_listsize (listsize h) h) with h in HQ by by destruct h. by apply HQ.
  - inversion_clear Hin as [|?? He Hin']. destruct e as [ty k d ps| |]; try done. cbn [is_inorder] in He. subst ty.
    assert (∃ ps', ent DUMMY_OFFSET es off = Some (ERec INORDER k d ps') ∧ length ps' = length ps) as (ps' & He & Hps).
    { eapply shape_rec; [symmetry; exact Hsh|]. apply ent_here. }
    pose proof (ent_off _ _ _ Hwf He) as [Hoo _]. pose proof He as Hr%ent_range.
    set (n := Node off k d (length ps)).
    assert (ns = n :: nodes_of (off + esize (ERec INORDER k d ps)) mid) as Hns by done.
    rewrite lsize_cons in *. pose proof (esize_pos (ERec INORDER k d ps)) as Hep.
    pose proof (lsize_nonneg mid).
    assert (lsize es = lsize pre + (esize (ERec INORDER k d ps) + lsize mid) + lsize post) as Hls.
    { rewrite (shape_lsize _ _ Hsh), !lsize_app, lsize_cons. lia. }
    assert (to_u32 (logstart h) = logstart h) as ->.
    { apply to_u32_small. unfold is_u32. rewrite Hlog. destruct Hwf as [_ Hs]. pose proof (lsize_nonneg post).
      pose proof (lsize_nonneg pre). unfold off, DUMMY_OFFSET, HEADER_SIZE in *. lia. }
    destruct (Z.ltb_spec off (logstart h)); [|lia]. cbn [negb].
    apply wp_bind. unfold modify_hdr. wstep. cbn [set_hdr hdr SkipRun.S_].
    set (h1 := set_listsize (listsize h + 1) h).
    change (set_hdr ?h' (S_ ?m ?h ?g ?hl ?p ?t)) with (S_ m h' g hl p t).
    apply wp_bind. eapply wp_read; [done|by eapply TYPE_ent|]. rewrite Z.eqb_refl. cbn [negb].
    assert (is_node es n) as Hn by (exists INORDER, ps'; split_and!; [done|by left|done]).
    assert (n_lvl n ≤ m)%nat as Hnm.
    { pose proof (no_curl _ _ _ _ Hno) as [? _].
      assert (n ∈ dn ++ ns) as Hin by (rewrite Hns; apply elem_of_app; right; by left).
      pose proof (Forall_in _ _ _ (no_lvl _ _ _ _ Hno) Hin) as Hl. cbn in Hl. cbn. lia. }
    assert (NoDup (DUMMY_OFFSET :: (n_off <$> dn ++ [n]))) as Hnd.
    { pose proof (offs_nodup _ _ _ _ Hno) as Hnd. rewrite Hns, (cons_middle n dn), app_assoc, fmap_app, app_comm_cons in Hnd.
      by apply NoDup_app in Hnd as [? _]. }
    apply wp_bind. eapply (wp_relink_levels m dn u n); [done|done|done|done|done|]. intros pos' u' Ht'.
    set (es1 := chain_add es dn n) in *.
    assert (shape es1 = shape es) as Hsh1 by apply shape_setps.
    assert (wf_file es1) as Hwf1 by (apply wf_setps; [done|]; intros i _; done).
    assert (covers g (ser hd es1)) as Hc1 by (by eapply covers_shape).
    destruct (shape_rec es es1 off _ _ _ _ (eq_sym Hsh1) He) as (ps1 & He1 & Hps1).
    cbn [Z.eqb negb]. apply wp_bind. eapply wp_read; [done|by eapply PADDING_ent|].
    rewrite Z.eqb_refl. cbn [negb]. apply wp_bind. eapply wp_read; [done|by eapply RECSIZE_ent|].
    assert (esize (ERec INORDER k d ps1) = esize (ERec INORDER k d ps)) as ->.
    { apply eshape_esize. cbn [eshape]. do 2 f_equal. lia. }
    assert (off + esize (ERec INORDER k d ps) = DUMMY_OFFSET + lsize (pre ++ [ERec INORDER k d ps])) as Hoff.
    { unfold off. rewrite lsize_app, lsize_cons. change (lsize []) with 0. lia. }
    rewrite Hoff. rewrite Hoff in Hns.
    assert (dn ++ ns = (dn ++ [n]) ++ nodes_of (DUMMY_OFFSET + lsize (pre ++ [ERec INORDER k d ps])) mid) as Hdn
      by by rewrite Hns, <- app_assoc.
    eapply (IH (pre ++ [ERec INORDER k d ps]) (dn ++ [n])); try done.
    + rewrite Hsh1, Hsh, <- app_assoc. done.
    + rewrite <- Hdn. rewrite <- (app_nil_r es1). by eapply nodes_ok_shape.
    + apply chained_add; [done| |done|done]. intros i Hi. by eapply tails_some.
    + change (logstart h1) with (logstart h). lia.
    + cbn [length] in Hf. lia.
    + intros pos2 es2 u2 Hs2 Hw2 Hc2 Ht2. rewrite <- Hdn in Hc2, Ht2. rewrite <- Hoff.
      specialize (HQ pos2 es2 u2). rewrite Hs2, Hsh1 in HQ. specialize (HQ eq_refl Hw2 Hc2 Ht2).
      replace (off + esize (ERec INORDER k d ps) + lsize mid) with (off + (esize (ERec INORDER k d ps) + lsize mid)) by lia.
      replace (set_listsize (listsize h1 + Z.of_nat (length mid)) h1)
        with (set_listsize (listsize h + Z.of_nat (S (length mid))) h); [done|].
      unfold h1, set_listsize. cbn. f_equal. lia.
Qed.
End Recover.
