(* ===== verification/SkipCheckpoint.v ===== *)
(** * SkipCheckpoint: compressing a database

    [mycheckpoint] copies the records in key order to [fname.NEW], chaining them
    as it goes, and renames it over the database: a database with the same
    contents and an empty log. *)
From S2P Require Import Prelude CMem.
From stdpp Require Import gmap sorting list.
From S2P Require Import CFile Prog DbFile CyrusDb BSearch Skiplist DbOrder SkipFile SkipList SkipStep SkipRun.
From S2P Require Import SkipFetch SkipWrite SkipScan SkipTxn SkipRecover.
#[local] Open Scope Z_scope.

(** ** Copied records *)

(** The record of a node as a checkpoint writes it, with the pointers [ps] it
    had where it was. *)
Definition copy_entry (n : node) (ps : list Z) : entry := ERec INORDER (n_key n) (n_data n) ps.

(** Where it goes. *)
Definition moved (off : Z) (n : node) : node := Node off (n_key n) (n_data n) (n_lvl n).

Lemma copy_bytes ty n ps : be32 INORDER ++ drop 4 (ebytes (ERec ty (n_key n) (n_data n) ps)) = ebytes (copy_entry n ps).
Proof. cbn [ebytes copy_entry]. unfold rec_bytes. done. Qed.

Lemma serz_snoc z es e : serz z (es ++ [e]) = serz z es ++ ebytes e.
Proof.
  unfold serz. rewrite fmap_app, mjoin_app, app_assoc. f_equal. cbn. apply app_nil_r.
Qed.

Lemma path_mono F F' i p l : (∀ x v, F x i = Some v → F' x i = Some v) → path F i p l → path F' i p l.
Proof. intros HF. revert p. induction l as [|n l IH]; intros p; cbn [path]; [done|]. intros [? ?]. auto. Qed.

Lemma esize_dummy_len dps : esize (ERec DUMMY [] [] dps) = DUMMY_SIZE (Z.of_nat (length dps)).
Proof.
  unfold esize. cbn [ebytes]. rewrite blen_rec by done. unfold rsize, DUMMY_SIZE. change (ROUNDUP (blen [])) with 0. lia.
Qed.

(** ** Room for them *)

(** Different entries of a file fit in it together. *)
Lemma sizes_le es base (ns : list (Z * entry)) :
  NoDup (ns.*1) → Forall (λ p, ent base es p.1 = Some p.2) ns →
  foldr (λ p n, esize p.2 + n) 0 ns ≤ lsize es.
Proof.
  revert base ns. induction es as [|e es IH]; intros base ns Hnd Hf.
  { destruct ns as [|p ns]; [done|]. inversion_clear Hf as [|?? H _]. done. }
  rewrite lsize_cons. pose proof (esize_pos e).
  assert (∀ ns', base ∉ ns'.*1 → Forall (λ p, ent base (e :: es) p.1 = Some p.2) ns' →
    Forall (λ p, ent (base + esize e) es p.1 = Some p.2) ns') as Htl.
  { intros ns' Hb Hf'. apply Forall_forall. intros p Hp. rewrite <- (Forall_in _ _ _ Hf' Hp). cbn [ent].
    destruct (Z.eqb_spec p.1 base) as [<-|]; [|done]. destruct Hb. by apply list_elem_of_fmap_2. }
  destruct (decide (base ∈ ns.*1)) as [Hb|Hb].
  - apply list_elem_of_fmap in Hb as ([b e'] & -> & Hin). apply list_elem_of_split in Hin as (xs & ys & ->).
    cbn [fst] in *. rewrite fmap_app, fmap_cons in Hnd. cbn [fst] in Hnd.
    apply Forall_app in Hf as [Hf1 Hf2]. inversion_clear Hf2 as [|?? He' Hf3].
    cbn [ent fst snd] in He'. rewrite Z.eqb_refl in He'. injection He' as <-.
    apply NoDup_app in Hnd as (Hn1 & Hn2 & Hn3). apply NoDup_cons in Hn3 as [Hn3 Hn4].
    assert (b ∉ xs.*1) as Hx by (intros Hx; eapply Hn2; [exact Hx|by left]).
    pose proof (IH (b + esize e) (xs ++ ys)) as H1.
    rewrite fmap_app, foldr_app in H1. rewrite foldr_app. cbn [foldr fst snd].
    assert (∀ z n, foldr (λ p n, esize p.2 + n) (z + n) xs = z + foldr (λ p n, esize p.2 + n) n xs) as Hz.
    { intros z n. clear. induction xs as [|q xs IH]; cbn; [done|]. rewrite IH. lia. }
    rewrite Hz. apply Z.add_le_mono_l, H1.
    + apply NoDup_app. split_and!; [done| |done]. intros q Hq Hq'. eapply Hn2; [exact Hq|by right].
    + apply Forall_app. split; by apply Htl.
  - pose proof (IH (base + esize e) ns Hnd (Htl _ Hb Hf)). lia.
Qed.

(** The size of a node's record. *)
Definition nsize (n : node) : Z := rsize (n_key n) (n_data n) (n_lvl n).
Definition nsizes (l : list node) : Z := foldr (λ n z, nsize n + z) 0 l.

Lemma nsizes_app a b : nsizes (a ++ b) = nsizes a + nsizes b.
Proof. induction a as [|n a IH]; [done|]. cbn. fold (nsizes (a ++ b)) (nsizes a). rewrite IH. lia. Qed.

Lemma nsize_pos n : 16 ≤ nsize n.
Proof.
  unfold nsize, rsize. assert (∀ z, 0 ≤ ROUNDUP z) as H by (intros z; unfold ROUNDUP; apply Z.land_nonneg; right; lia).
  pose proof (H (blen (n_key n))). pose proof (H (blen (n_data n))). lia.
Qed.

Lemma nsizes_nonneg l : 0 ≤ nsizes l.
Proof. induction l as [|n l IH]; [done|]. cbn. fold (nsizes l). pose proof (nsize_pos n). lia. Qed.

(** A head without records. *)
Definition empty_head (m : nat) : entry := ERec DUMMY [] [] (replicate m 0).

Lemma mjoin_zeros n : mjoin (be32 <$> replicate n 0) = replicate (4 * n) 0.
Proof.
  induction n as [|n IH]; [done|]. rewrite replicate_S, fmap_cons, mjoin_cons, IH.
  change (be32 0) with (replicate 4 (0 : Z)). rewrite <- replicate_add. f_equal. lia.
Qed.

Lemma dummy_bytes_head m : dummy_bytes (Z.of_nat m) = ebytes (empty_head m).
Proof.
  unfold dummy_bytes, empty_head, DUMMY_SIZE. cbn [ebytes]. unfold rec_bytes. rewrite mjoin_zeros.
  change (be32 (blen [])) with (replicate 4 (0 : Z)). change (padded []) with (@nil Z). cbn [app]. f_equal.
  rewrite !app_assoc. f_equal. rewrite <- !replicate_add. f_equal. lia.
Qed.

Section Fit.
Context `{KO : KeyOrder compar keyok}.

(** The head and the records of a database fit where they are. *)
Lemma nodes_fit es c m l :
  wf_file es → nodes_ok (compar := compar) (keyok := keyok) es c m l →
  DUMMY_SIZE (Z.of_nat m) + nsizes l ≤ lsize es.
Proof using KO.
  intros Hwf Hno. pose proof (offs_nodup _ _ _ _ Hno) as Hnd.
  set (at_ off := (off, default ECommit (ent DUMMY_OFFSET es off))).
  pose proof (sizes_le es DUMMY_OFFSET (at_ <$> (DUMMY_OFFSET :: (n_off <$> l)))) as Hle.
  destruct (no_dummy _ _ _ _ Hno) as (dps & Hd & Hdl).
  assert (foldr (λ p n, esize p.2 + n) 0 (at_ <$> (DUMMY_OFFSET :: (n_off <$> l)))
    = DUMMY_SIZE (Z.of_nat m) + nsizes l) as <-.
  { cbn [fmap list_fmap foldr at_ snd]. rewrite Hd. cbn [from_option id]. unfold id. f_equal.
    - rewrite esize_rec by by eapply wf_ent. unfold rsize, DUMMY_SIZE. change (ROUNDUP (blen [])) with 0. lia.
    - pose proof (no_nodes _ _ _ _ Hno) as Hf. clear -Hf Hwf. induction Hf as [|n l (ty & ps & He & _ & Hl) _ IH]; [done|].
      cbn [fmap list_fmap foldr at_ snd nsizes]. rewrite IH. fold (nsizes l). rewrite He. cbn [from_option]. unfold id.
      rewrite esize_rec by by eapply wf_ent. unfold nsize. by rewrite Hl. }
  apply Hle.
  - rewrite <- list_fmap_compose. unfold compose, at_. cbn [fst]. by rewrite list_fmap_id.
  - apply Forall_fmap. constructor; [by cbn; rewrite Hd|]. apply Forall_fmap.
    eapply Forall_impl; [apply (no_nodes _ _ _ _ Hno)|]. intros n (ty & ps & He & _). cbn. by rewrite He.
Qed.
End Fit.

Section Copy.
Context `{E : Env} `{KO : KeyOrder compar keyok}.
Context (Hcalls : ∀ n, fails n = false) (Hroom : 2147483648 ≤ file_limit).
(** The new inode [ino]; the old one [oi], with the database [hd0], [es0], [l0]. *)
Context (ino : Z) (others : gmap Z bytes) (nm : gmap bytes Z) (nx : Z) (name : bytes).
Abbreviation S_ := (S_ ino others nm nx name).
Abbreviation slist := (slist (compar := compar) (keyok := keyok)).
Abbreviation nodes_ok := (nodes_ok (compar := compar) (keyok := keyok)).

Context (oi : Z) (hd0 : header) (es0 : list entry) (l0 : list node) (c mx : nat).
Context (Hoi : oi ≠ ino) (Hold : others !! oi = Some (ser hd0 es0)).
Context (Hwf0 : wf_file es0) (Hsl0 : slist es0 c mx l0).

(** The mapping still shows the old file. *)
Definition shows (g : mapping) : Prop := map_of g = oi ∧ blen (ser hd0 es0) ≤ map_len g.

Lemma wp_read_old {A} (f : bytes → result A) Q m h g hl pos t a :
  shows g → f (ser hd0 es0) = Ok a → Q a (S_ m h g hl pos t) → wp (rd f) Q (S_ m h g hl pos t).
Proof using Hoi Hold.
  intros [Hg Hl] Hf HQ. eapply wp_rd; [|done].
  assert (view (S_ m h g hl pos t) = ser hd0 es0) as ->; [|done].
  unfold view, SkipRun.S_. cbn [mp fs inodes]. rewrite Hg, lookup_insert_ne, Hold by done. cbn [from_option id].
  apply take_ge. unfold id, blen in *. lia.
Qed.

(** [updateoffsets] moves on to the pointers of the copy. *)
Lemma wp_copy_pointers z es dn u x ty ps Q h g hl pos t :
  blen z = 48 → wf_file es → tails es mx dn u → shows g →
  ent DUMMY_OFFSET es0 (n_off x) = Some (ERec ty (n_key x) (n_data x) ps) → length ps = n_lvl x → (n_lvl x ≤ mx)%nat →
  let n := moved (new_off es) x in
  let es1 := es ++ [copy_entry x ps] in
  wf_file es1 →
  (∀ pos' u', tails (chain_add es1 dn n) mx (dn ++ [n]) u' →
     Q (0, u') (S_ (serz z (chain_add es1 dn n)) h g hl pos' t)) →
  wp (copy_pointers (n_lvl x) 0 (n_off x) (new_off es) u) Q (S_ (serz z es1) h g hl pos t).
Proof using Hroom Hoi Hold Hwf0.
  intros Hz Hwf [Hlen Ht] Hg He Hps Hm n es1 Hwf1 HQ.
  assert (ent DUMMY_OFFSET es1 (n_off n) = Some (copy_entry x ps)) as Hn by apply ent_here.
  assert (∀ j k u pos, (j + k = n_lvl x)%nat → length u = mx →
    (∀ i, (i < mx)%nat → ∃ a, u !! i = Some a ∧ is_addr es1 (if decide (i < j)%nat then n_off n else tail_off dn i) i a) →
    wp (copy_pointers k (Z.of_nat j) (n_off x) (new_off es) u) Q
      (S_ (serz z (setps es1 j (tail_off dn) (λ _, n_off n))) h g hl pos t)) as Hgo.
  2: { apply (Hgo 0%nat (n_lvl x) u pos); [done|done|]. intros i Hi. destruct (Ht i Hi) as (a & Ha & Had).
       exists a. split; [done|]. by apply is_addr_app. }
  clear u Hlen Ht. intros j k. revert j. induction k as [|k IH]; intros j u pos' Hj Hlen Hu; cbn [copy_pointers].
  - apply wp_ret. replace j with (n_lvl n) by (cbn; lia). apply HQ. split; [done|]. intros i Hi.
    destruct (Hu i Hi) as (a & Ha & Had). exists a. split; [done|]. rewrite tail_off_snoc.
    replace j with (n_lvl n) in Had by (cbn; lia).
    eapply is_addr_shape; [|exact Had]. symmetry. apply shape_setps.
  - destruct (Hu j ltac:(lia)) as (a & Ha & Had). rewrite decide_False in Had by lia.
    assert (is_off (n_off n)) as Hoff by by eapply ent_off.
    apply wp_bind. eapply wp_liftr.
    { unfold uget. destruct (Z.ltb_spec (Z.of_nat j) 0); [lia|]. by rewrite Nat2Z.id, Ha. }
    apply wp_bind. eapply (wp_set_addr_head Hroom); [done|by apply wf_setps|by eapply is_addr_shape; [symmetry; apply shape_setps|]|].
    intros pos''. cbn [Z.eqb negb].
    change (setp _ _ _ _) with (setps es1 (S j) (tail_off dn) (λ _, n_off n)).
    apply wp_bind. eapply wp_read_old; [done|exact (PTR_at _ _ _ _ _ _ (ser_at hd0 _ _ _ He) (wf_ent _ _ _ Hwf0 He) (Z.of_nat j))|].
    apply wp_bind. eapply wp_liftr.
    { unfold uset. destruct (Z.leb_spec 0 (Z.of_nat j)), (Z.ltb_spec (Z.of_nat j) (Z.of_nat (length u)));
        [reflexivity|lia..]. }
    replace (Z.of_nat j + 1) with (Z.of_nat (S j)) by lia. rewrite Nat2Z.id. apply IH; [lia|by rewrite length_insert|].
    intros i Hi. destruct (decide (i = j)) as [->|Hne].
    + eexists. split; [by apply list_lookup_insert_eq; lia|]. rewrite decide_True by lia.
      exists INORDER, (n_key x), (n_data x), ps. split_and!; [done|lia|cbn; lia].
    + destruct (Hu i Hi) as (b & Hb & Hbd). exists b. rewrite list_lookup_insert_ne by done. split; [done|].
      destruct (decide (i < j)%nat); [rewrite decide_True by lia|rewrite decide_False by lia]; done.
Qed.

(** *** All of them *)

(** The nodes [a] have been copied to [dn]. *)
Definition same (x n : node) : Prop := n_key n = n_key x ∧ n_data n = n_data x ∧ n_lvl n = n_lvl x.

Record copied (es : list entry) (a dn : list node) : Prop := {
  cp_wf : wf_file es;
  cp_chain : chained es mx dn;
  cp_nodes : nodes_ok es c mx dn;
  cp_same : Forall2 same a dn;
  cp_size : lsize es = DUMMY_SIZE (Z.of_nat mx) + nsizes a;
  cp_shape : ∃ dps cps, shape es = shape (ERec DUMMY [] [] dps :: cps) ∧ length dps = mx ∧ Forall is_inorder cps ∧
    dn = nodes_of (DUMMY_OFFSET + DUMMY_SIZE (Z.of_nat mx)) cps;
}.

Lemma nodes_of_app off a b : nodes_of off (a ++ b) = nodes_of off a ++ nodes_of (off + lsize a) b.
Proof using.
  revert off. induction a as [|e a IH]; intros off; [by rewrite Z.add_0_r|].
  rewrite lsize_cons, Z.add_assoc. destruct e; cbn [app nodes_of]; by rewrite IH.
Qed.

Lemma same_sorted a dn x : Forall2 same a dn → sorted (compar := compar) (a ++ [x]) →
  sorted (compar := compar) dn → Forall (λ y, node_lt (compar := compar) y x) dn.
Proof using.
  intros Hs Ha _. apply sorted_app in Ha as (_ & _ & Ha). apply Forall_forall. intros y Hy.
  apply list_elem_of_lookup in Hy as [i Hi]. destruct (Forall2_lookup_r _ _ _ _ _ Hs Hi) as (z & Hz & Hk & _).
  apply list_elem_of_lookup_2 in Hz. pose proof (Forall_in _ _ _ Ha Hz) as Hlt. inversion_clear Hlt as [|?? H _].
  unfold node_lt in *. by rewrite Hk.
Qed.

(** One more. *)
Lemma copied_wf es a dn x rest ps :
  copied es a dn → l0 = a ++ x :: rest → length ps = n_lvl x → Forall is_off ps →
  is_off (blen (n_key x) + 4) → is_off (blen (n_data x) + 4) → wf_file (es ++ [copy_entry x ps]).
Proof using Hwf0 Hsl0 KO.
  intros Hcp Hl Hps Hpo Hk Hd. pose proof (nodes_fit _ _ _ _ Hwf0 (sk_nodes _ _ _ _ Hsl0)) as Hfit.
  destruct Hwf0 as [_ Hs0]. pose proof (no_curl _ _ _ _ (cp_nodes _ _ _ Hcp)).
  pose proof (Forall_in _ _ x (no_lvl _ _ _ _ (sk_nodes _ _ _ _ Hsl0)) ltac:(rewrite Hl; apply elem_of_app; right; by left)) as Hlv.
  cbn in Hlv. assert (wf_entry (copy_entry x ps)) as Hwe by (split_and!; [by right; left|done|done|done|lia]).
  apply wf_snoc; [apply Hcp|done|]. rewrite (cp_size _ _ _ Hcp).
  unfold copy_entry in *. rewrite esize_rec, Hps by done. fold (nsize x).
  rewrite Hl, nsizes_app in Hfit. cbn [nsizes foldr] in Hfit. fold (nsizes rest) in Hfit. pose proof (nsizes_nonneg rest). lia.
Qed.

Lemma copied_step es a dn u x rest ty ps :
  copied es a dn → tails es mx dn u → l0 = a ++ x :: rest →
  ent DUMMY_OFFSET es0 (n_off x) = Some (ERec ty (n_key x) (n_data x) ps) → length ps = n_lvl x →
  let n := moved (new_off es) x in
  let es1 := es ++ [copy_entry x ps] in
  wf_file es1 ∧ nodes_ok es1 c mx (dn ++ [n]) ∧ copied (chain_add es1 dn n) (a ++ [x]) (dn ++ [n]).
Proof using Hwf0 Hsl0 KO.
  intros Hcp Ht Hl He Hps n es1. pose proof Hsl0 as [Hno0 _].
  destruct (wf_ent _ _ _ Hwf0 He) as (_ & Hk & Hd & Hpo & _).
  assert (wf_file es1) as Hwf1 by by eapply copied_wf.
  assert (ent DUMMY_OFFSET es1 (n_off n) = Some (copy_entry x ps)) as Hn by apply ent_here.
  assert (x ∈ l0) as Hx by (rewrite Hl; apply elem_of_app; right; by left).
  assert (sorted (compar := compar) (a ++ [x])) as Hsa.
  { pose proof (no_sorted _ _ _ _ Hno0) as Hs. rewrite Hl, cons_middle, app_assoc in Hs. by apply sorted_app in Hs as (? & _). }
  pose proof Hcp as [_ Hch Hno Hsame Hsz (dps & cps & Hsh & Hdl & Hin & Hdn)].
  pose proof Hno as [H1 H2 H3 H4 (dps1 & H5 & H5') H6].
  assert (nodes_ok es1 c mx (dn ++ [n])) as Hno1.
  { split; [| | | | |done].
    - apply sorted_app. split_and!; [done|by repeat constructor|]. pose proof (same_sorted _ _ _ Hsame Hsa H1) as Hlt.
      eapply Forall_impl; [exact Hlt|]. intros y Hy. by constructor.
    - apply Forall_app. split; [done|]. constructor; [|done]. cbn. exact (Forall_in _ _ _ (no_keys _ _ _ _ Hno0) Hx).
    - apply Forall_app. split; [eapply Forall_impl; [exact H3|]; intros; by apply is_node_app|].
      constructor; [|done]. exists INORDER, ps. split_and!; [done|by left|done].
    - apply Forall_app. split; [done|]. constructor; [|done]. cbn. exact (Forall_in _ _ _ (no_lvl _ _ _ _ Hno0) Hx).
    - exists dps1. split; [by apply ent_app_l|done]. }
  split; [done|]. split; [done|].
  assert (shape (chain_add es1 dn n) = shape es1) as Hsh1 by apply shape_setps.
  assert (n_lvl x ≤ mx)%nat as Hlm.
  { pose proof (Forall_in _ _ _ (no_lvl _ _ _ _ Hno0) Hx). cbn in *. lia. }
  assert (chained es1 mx dn ∧ ∀ i, (i < mx)%nat → is_Some (fwd es1 (tail_off dn i) i)) as [Hch1 Hs1].
  { split.
    - intros i Hi. eapply path_mono; [|by apply Hch]. intros y v. apply fwd_app_l.
    - intros i Hi. destruct (tails_some _ _ _ _ i Ht Hi) as [v Hv]. exists v. by apply fwd_app_l. }
  split.
  - apply wf_setps; [done|]. intros i _. by eapply ent_off.
  - apply chained_add; [done|done|done|]. by eapply offs_nodup.
  - rewrite <- (app_nil_r (chain_add _ _ _)). eapply nodes_ok_shape; [symmetry; exact Hsh1|done].
  - apply Forall2_app; [done|]. by repeat constructor.
  - rewrite (shape_lsize _ _ Hsh1). unfold es1. rewrite lsize_snoc, Hsz, nsizes_app. unfold copy_entry.
    rewrite esize_rec, Hps; [cbn; unfold nsize; lia|]. eapply wf_ent; [exact Hwf1|exact Hn].
  - exists dps, (cps ++ [copy_entry x ps]). split_and!.
    + rewrite Hsh1. unfold es1. rewrite shape_app, Hsh, app_comm_cons, shape_app. done.
    + done.
    + apply Forall_app. by split; [|constructor].
    + rewrite nodes_of_app, <- Hdn. f_equal. cbn [nodes_of copy_entry]. rewrite Hps. unfold n, moved. f_equal. f_equal.
      unfold new_off. rewrite (shape_lsize _ _ Hsh), lsize_cons, (esize_dummy_len dps), Hdl. lia.
Qed.

(** The bytes that are copied. *)
Lemma body_at x ty ps :
  ent DUMMY_OFFSET es0 (n_off x) = Some (ERec ty (n_key x) (n_data x) ps) →
  (n ← RECSIZE (ser hd0 es0) (n_off x); slice (ser hd0 es0) (n_off x + 4) (n - 4))
    = Ok (drop 4 (ebytes (ERec ty (n_key x) (n_data x) ps))).
Proof using Hwf0.
  intros He. rewrite (RECSIZE_ent hd0 _ _ _ Hwf0 He). cbn [mbind result_bind].
  pose proof (ser_at hd0 _ _ _ He) as Hat. set (e := ERec _ _ _ _) in *.
  assert (ebytes e = be32 ty ++ drop 4 (ebytes e)) as Hb by done.
  rewrite Hb in Hat. apply bytes_at_app in Hat as [_ Hat]. rewrite blen_be32 in Hat.
  assert (esize e - 4 = blen (drop 4 (ebytes e))) as ->.
  { unfold esize. rewrite Hb at 1. rewrite blen_app, blen_be32. lia. }
  apply slice_at; [done|]. apply ent_range in He. unfold esize in He. rewrite Hb, blen_app, blen_be32 in He.
  rewrite blen_ser. unfold DUMMY_OFFSET, HEADER_SIZE in He. lia.
Qed.

Lemma wp_copy_records z a rest dn es u fuel Q h g hl pos t :
  l0 = a ++ rest → (length rest < fuel)%nat → blen z = 48 → shows g → copied es a dn → tails es mx dn u →
  (∀ pos' es' dn' u', copied es' l0 dn' → tails es' mx dn' u' →
     Q (0, u') (S_ (serz z es') (set_listsize (listsize h + Z.of_nat (length rest)) h) g hl pos' t)) →
  wp (copy_records fuel (hd_off rest) u) Q (S_ (serz z es) h g hl pos t).
Proof using Hroom Hoi Hold Hwf0 Hsl0 KO.
  intros Hl Hf Hz Hg. revert a dn es u fuel h pos Hl Hf.
  induction rest as [|x rest IH]; intros a dn es u fuel h pos Hl Hf Hcp Ht HQ;
    (destruct fuel as [|fuel]; [cbn in Hf; lia|]); cbn [copy_records hd_off].
  { apply wp_ret. rewrite app_nil_r in Hl. subst a. specialize (HQ pos es dn u Hcp Ht).
    change (Z.of_nat (length [])) with 0 in HQ. assert (set_listsize (listsize h + 0) h = h) as Hh.
    { destruct h. unfold set_listsize. cbn. f_equal. lia. }
    by rewrite Hh in HQ. }
  pose proof Hsl0 as Hsl. rewrite Hl in Hsl.
  destruct (node_rec _ _ _ _ _ _ Hsl) as (ty & ps & He & Hps & Hlv).
  destruct (off_nonzero _ _ _ Hwf0 He) as [Hx0 _]. destruct (Z.eqb_spec (n_off x) 0); [done|].
  pose proof (ser_at hd0 _ _ _ He) as Hat. pose proof (wf_ent _ _ _ Hwf0 He) as Hwe.
  destruct (copied_step _ _ _ _ _ _ _ _ Hcp Ht Hl He Hps) as (Hwf1 & Hno1 & Hcp1).
  apply wp_bind. eapply wp_read_old; [done|exact (LEVEL_at _ _ _ _ _ _ Hat Hwe)|].
  unfold modify_hdr. apply wp_bind. wstep. cbn [set_hdr hdr SkipRun.S_].
  change (set_hdr ?h' (SkipRun.S_ ino others nm nx name ?m ?h ?g ?hl ?p ?t)) with (S_ m h' g hl p t).
  set (h1 := set_listsize (listsize h + 1) h).
  apply wp_bind. eapply wp_read_old; [done|by apply body_at|].
  apply wp_bind, wp_lseek_end. pose proof (blen_serz z es Hz) as Hb.
  pose proof (esize_pos (copy_entry x ps)) as Hep. pose proof (proj2 Hwf1) as Hsz1. rewrite lsize_snoc in Hsz1.
  apply wp_bind, (wp_write Hroom).
  { done. }
  { rewrite Hb. pose proof (lsize_nonneg es). lia. }
  { rewrite copy_bytes. fold (esize (copy_entry x ps)). unfold DUMMY_OFFSET, HEADER_SIZE in Hsz1. lia. }
  rewrite copy_bytes, wr_append, <- serz_snoc. fold (esize (copy_entry x ps)).
  destruct (Z.ltb_spec (esize (copy_entry x ps)) 0); [lia|].
  replace (blen (serz z es)) with (new_off es) by (rewrite Hb; unfold new_off, DUMMY_OFFSET, HEADER_SIZE; lia).
  rewrite Hps, Nat2Z.id.
  apply wp_bind. eapply wp_copy_pointers; [done|apply Hcp|done|done|done|done| |done|].
  { pose proof (Forall_in _ _ x (no_lvl _ _ _ _ (sk_nodes _ _ _ _ Hsl0)) ltac:(rewrite Hl; apply elem_of_app; right; by left)).
    pose proof (no_curl _ _ _ _ (sk_nodes _ _ _ _ Hsl0)). cbn in *. lia. }
  intros pos1 u1 Ht1. cbn [Z.eqb negb].
  apply wp_bind. eapply wp_read_old; [done|by eapply (FORWARD_next hd0 es0)|].
  eapply IH with (a := a ++ [x]); [by rewrite <- app_assoc|cbn in Hf; lia|done|done|].
  intros pos2 es2 dn2 u2 Hcp2 Ht2. specialize (HQ pos2 es2 dn2 u2 Hcp2 Ht2).
  replace (set_listsize (listsize h1 + Z.of_nat (length rest)) h1)
    with (set_listsize (listsize h + Z.of_nat (length (x :: rest))) h); [done|].
  unfold h1, set_listsize. cbn. f_equal. lia.
Qed.

(** *** The new database *)

Lemma same_contents a dn : Forall2 same a dn → contents dn = contents a.
Proof using.
  intros Hs. unfold contents. f_equal. induction Hs as [|x n a dn (Hk & Hd & _) _ IH]; [done|].
  rewrite !fmap_cons, IH, Hk, Hd. done.
Qed.

Definition compressed (n : Z) : header := set_logstart n (set_listsize (Z.of_nat (length l0)) hd0).

Lemma copied_done es dn u :
  header_ok hd0 → version hd0 = SKIPLIST_VERSION → c = curl hd0 → mx = maxl hd0 →
  copied es l0 dn → tails es mx dn u →
  let es' := chain_end es mx dn in
  let hd' := compressed (new_off es') in
  wf_file es' ∧ slist es' c mx dn ∧ header_ok hd' ∧ log_ok (compar := compar) (keyok := keyok) hd' es' dn ∧
  lsize es' ≤ lsize es0 ∧ contents dn = contents l0.
Proof using Hwf0 Hsl0 KO.
  intros Hh Hv Hc Hm [Hwf Hch Hno Hsame Hsz (dps & cps & Hsh & Hdl & Hin & Hdn)] Ht es' hd'.
  assert (shape es' = shape es) as Hs' by apply shape_setps. pose proof (shape_lsize _ _ Hs') as Hls.
  assert (wf_file es') as Hwf' by (by apply wf_setps).
  assert (nodes_ok es' c mx dn) as Hno' by (rewrite <- (app_nil_r es'); by eapply nodes_ok_shape).
  pose proof (nodes_fit _ _ _ _ Hwf0 (sk_nodes _ _ _ _ Hsl0)) as Hfit.
  pose proof Hh as (Hh1 & Hh2 & Hh3 & Hh4 & Hh5 & Hh6 & Hh7).
  assert (∃ dps' cps', es' = ERec DUMMY [] [] dps' :: cps' ∧ length dps' = mx ∧ Forall is_inorder cps' ∧
    dn = nodes_of (DUMMY_OFFSET + DUMMY_SIZE (Z.of_nat mx)) cps' ∧
    lsize es' = DUMMY_SIZE (Z.of_nat mx) + lsize cps') as (dps' & cps' & Hes & Hdl' & Hin' & Hdn' & Hsz').
  { rewrite <- Hs' in Hsh. destruct es' as [|[ty k d ps| |] cps']; try done. cbn [shape fmap list_fmap eshape] in Hsh.
    injection Hsh as -> -> -> Hps Hcps. apply (f_equal length) in Hps. rewrite !length_replicate in Hps.
    exists ps, cps'. split_and!; [done|congruence|by eapply Forall_shape; [apply is_inorder_shape|symmetry; exact Hcps|]|..].
    - rewrite Hdn. apply nodes_of_shape. by symmetry.
    - rewrite lsize_cons, esize_dummy_len. congruence. }
  assert (Z.of_nat mx = maxlevel hd0) as Hmx by (rewrite Hm; unfold maxl; lia).
  split_and!; [done| | | |lia|by apply same_contents].
  - split; [done|]. intros i Hi. apply chained_end; [done| |by eapply offs_nodup|done].
    intros j Hj. by eapply tails_some.
  - pose proof (nodes_few _ _ _ _ hd0 (sk_nodes _ _ _ _ Hsl0)) as Hf. pose proof (blen_ser hd0 es0) as Hb.
    destruct Hwf0 as [_ Hs0]. destruct Hwf' as [_ Hs1]. unfold blen in Hb. pose proof (lsize_nonneg es').
    unfold header_ok, hd', compressed. cbn [version version_minor curlevel maxlevel listsize logstart last_recovery set_logstart set_listsize].
    unfold is_s32, is_off, new_off, DUMMY_OFFSET, HEADER_SIZE in *. split_and!; first [done|lia].
  - split_and!.
    + assert (logstart hd' = blen (ser hd' es')) as Hlg.
      { rewrite blen_ser. unfold hd', compressed. cbn. unfold new_off, DUMMY_OFFSET, HEADER_SIZE. lia. }
      split; [lia|]. destruct (exists_last (l := es')) as (pre & e & Hpe); [by rewrite Hes|].
      exists pre, e. split; [done|]. rewrite decide_True by done.
      assert (e ∈ es') as He by (rewrite Hpe; apply elem_of_app; right; by left).
      rewrite Hes in He. apply elem_of_cons in He as [->|He]; [by eexists _, _, _, _|].
      pose proof (Forall_in _ _ _ Hin' He). destruct e; try done. by eexists _, _, _, _.
    + exists dps', cps', []. rewrite app_nil_r. cbn zeta. unfold hd' in *. cbn. rewrite <- Hmx. rewrite Hes in Hno'.
      split_and!; [done|by rewrite Hdl', Hm|done| | | |done].
      * unfold new_off. lia.
      * rewrite <- Hdn'. rewrite Hc, Hm in Hno'. exact Hno'.
      * rewrite <- Hdn'. constructor.
    + done.
Qed.

Definition zeros : bytes := replicate 48 0.

Lemma copied_empty : wf_file [empty_head mx] → copied [empty_head mx] [] [].
Proof using Hsl0.
  intros Hwf. pose proof (no_curl _ _ _ _ (sk_nodes _ _ _ _ Hsl0)) as Hcm. split.
  - done.
  - apply chained_nil.
  - split; [apply SSorted_nil|apply Forall_nil_2|apply Forall_nil_2|apply Forall_nil_2| |done].
    exists (replicate mx 0). split; [done|apply length_replicate].
  - constructor.
  - rewrite lsize_cons. unfold empty_head. rewrite esize_dummy_len, length_replicate. done.
  - exists (replicate mx 0), []. split_and!; [done|apply length_replicate|done|done].
Qed.

Lemma empty_wf : wf_file [empty_head mx].
Proof using Hsl0.
  pose proof (no_curl _ _ _ _ (sk_nodes _ _ _ _ Hsl0)) as Hcm. split.
  - constructor; [|done]. split_and!; [by left|done|done| |rewrite length_replicate; lia].
    apply Forall_forall. intros y Hy. apply elem_of_replicate in Hy as [-> _]. done.
  - rewrite lsize_cons. unfold empty_head. rewrite esize_dummy_len, length_replicate. change (lsize []) with 0.
    unfold DUMMY_SIZE, DUMMY_OFFSET, HEADER_SIZE. lia.
Qed.

(** From an empty file to a database. *)
Lemma wp_write_checkpoint Q g hl t :
  header_ok hd0 → version hd0 = SKIPLIST_VERSION → c = curl hd0 → mx = maxl hd0 → shows g →
  (∀ pos' es' dn, let hd' := compressed (new_off es') in
     wf_file es' → slist es' c mx dn → header_ok hd' → log_ok (compar := compar) (keyok := keyok) hd' es' dn →
     logstart hd' = blen (ser hd' es') → lsize es' ≤ lsize es0 → contents dn = contents l0 →
     Q 0 (S_ (ser hd' es') hd' g hl pos' t)) →
  wp write_checkpoint Q (S_ [] hd0 g hl 0 t).
Proof using Hroom Hoi Hold Hwf0 Hsl0 KO.
  intros Hh Hv Hc Hm Hg HQ. pose proof Hh as (_ & _ & Hcl & Hml & _).
  pose proof (no_curl _ _ _ _ (sk_nodes _ _ _ _ Hsl0)) as Hcm.
  assert (maxlevel hd0 = Z.of_nat mx) as Hmx by (rewrite Hm; unfold maxl; lia).
  unfold write_checkpoint. apply wp_bind. unfold write_dummy. wstep. cbn [hdr SkipRun.S_].
  rewrite Hmx, dummy_bytes_head. apply wp_bind, wp_lseek; [done|].
  assert (blen (ebytes (empty_head mx)) = DUMMY_SIZE (Z.of_nat mx)) as Hb.
  { change (blen (ebytes ?e)) with (esize e). unfold empty_head. by rewrite esize_dummy_len, length_replicate. }
  apply wp_bind, (wp_write Hroom); [done|done|rewrite Hb; unfold DUMMY_SIZE, DUMMY_OFFSET, HEADER_SIZE; lia|].
  rewrite Hb, Z.eqb_refl. cbn [negb]. apply wp_ret.
  assert (wr [] DUMMY_OFFSET (ebytes (empty_head mx)) = serz zeros [empty_head mx]) as ->.
  { unfold serz. cbn [fmap list_fmap]. rewrite mjoin_cons, app_nil_r. unfold wr.
    change (pad_to [] DUMMY_OFFSET) with zeros. change (Z.to_nat DUMMY_OFFSET) with 48%nat. rewrite drop_ge by (unfold zeros; rewrite length_replicate; lia).
    by rewrite app_nil_r. }
  apply wp_bind. eapply wp_read_old; [done|by eapply (FORWARD_first hd0 es0)|].
  unfold modify_hdr. apply wp_bind. wstep. cbn [set_hdr hdr SkipRun.S_].
  change (set_hdr ?h' (SkipRun.S_ ino others nm nx name ?m ?h ?g ?hl ?p ?t)) with (S_ m h' g hl p t).
  apply wp_bind. eapply wp_read_old; [done|reflexivity|]. wstep. cbn [hdr SkipRun.S_ set_listsize maxlevel Z.eqb negb].
  rewrite Hmx. pose proof empty_wf as Hwfe.
  apply wp_bind. eapply (wp_copy_records zeros [] l0 [] [empty_head mx]);
    [done|by eapply Nat.lt_lt_succ_r, nodes_few, (sk_nodes _ _ _ _ Hsl0)|done|done|by apply copied_empty| |].
  { pose proof (tails_nil [empty_head mx] (Z.of_nat mx) (replicate mx 0)) as Ht. rewrite Nat2Z.id in Ht.
    apply Ht; [done|apply length_replicate]. }
  intros pos1 es1 dn u1 Hcp Ht. cbn [Z.eqb negb listsize set_listsize].
  destruct (copied_done _ _ _ Hh Hv Hc Hm Hcp Ht) as (Hwf' & Hsl' & Hh' & Hlg' & Hle & Hcont).
  apply wp_bind. rewrite Nat2Z.id. eapply (wp_zero_pointers_head Hroom); [done|apply Hcp|exact Ht|]. intros pos2.
  apply wp_bind, wp_lseek_end. apply wp_bind. wstep. cbn [set_hdr hdr SkipRun.S_].
  change (set_hdr ?h' (SkipRun.S_ ino others nm nx name ?m ?h ?g ?hl ?p ?t)) with (S_ m h' g hl p t).
  set (es' := chain_end es1 mx dn) in *.
  assert (blen (serz zeros es') = new_off es') as -> by (by apply blen_serz).
  replace (set_logstart (new_off es') (set_listsize (0 + Z.of_nat (length l0)) (set_listsize 0 hd0)))
    with (compressed (new_off es')) by (unfold compressed; f_equal).
  unfold write_header. wstep. cbn [hdr SkipRun.S_].
  apply wp_bind, wp_lseek; [lia|]. apply wp_bind, (wp_write Hroom); [done|lia|by rewrite blen_header|].
  rewrite blen_header. cbn [Z.eqb HEADER_SIZE negb Pos.eqb]. apply wp_ret.
  assert (wr (serz zeros es') 0 (header_bytes (compressed (new_off es'))) = ser (compressed (new_off es')) es') as ->.
  { apply (wr_overwrite [] zeros). done. }
  eapply HQ; try done. rewrite blen_ser. cbn. unfold new_off, DUMMY_OFFSET, HEADER_SIZE. lia.
Qed.
End Copy.

(** ** [mycheckpoint] *)

Section Checkpoint.
Context `{E : Env} `{KO : KeyOrder compar keyok}.
Context (Hcalls : ∀ n, fails n = false) (Hroom : 2147483648 ≤ file_limit).
Abbreviation slist := (slist (compar := compar) (keyok := keyok)).
Abbreviation log_ok := (log_ok (compar := compar) (keyok := keyok)).

(** The mapping grows to the whole file. *)
Lemma wp_map_refresh_all ino others nm nx name Q m h g hl pos t :
  (map_len g ≠ 0 → map_of g = ino) → 0 < blen m →
  (∀ g', covers ino g' m → map_size g' = map_size g → map_ino g' = map_ino g →
     Q tt (S_ ino others nm nx name m h g' hl pos t)) →
  wp (map_refresh None) Q (S_ ino others nm nx name m h g hl pos t).
Proof using.
  intros Hof Hn HQ. unfold map_refresh. wstep. cbn [fd S_]. wstep. wstep. cbn [from_option mp S_].
  rewrite (file_of_S ino others nm nx name m h g). destruct (Z.leb_spec (blen m) (map_len g)).
  - apply wp_ret, HQ; try done. split; [apply Hof; lia|done].
  - wstep. pose proof (map_round (blen m) ltac:(lia)) as Hr. apply HQ; try done.
Qed.

Lemma wp_consistent_locked ino others nm nx name Q hd es l c m h g hl pos t :
  covers ino g (ser hd es) → wf_file es → slist es c m l → 0 ≤ map_size g → Forall (λ n, n_off n ≤ map_size g) l →
  Q 0 (S_ ino others nm nx name (ser hd es) h g hl pos t) →
  wp (myconsistent compar None true) Q (S_ ino others nm nx name (ser hd es) h g hl pos t).
Proof using KO.
  intros Hc Hwf Hsl Hsz Hoffs HQ. unfold myconsistent. wstep. wstep. cbn [mp S_].
  apply wp_bind. eapply wp_read; [done|exact (consistent_body hd es c m l _ Hwf Hsl Hsz Hoffs)|]. cbn [Z.eqb negb]. by wstep.
Qed.

(** The second half: the new file takes the place of the old. *)
Lemma wp_mycheckpoint ino others nm nx name hd es l Q g hl pos t :
  header_ok hd → version hd = SKIPLIST_VERSION → wf_file es → slist es (curl hd) (maxl hd) l →
  nm !! name = Some ino → no_new nm nx name ino →
  (map_len g ≠ 0 → map_of g = ino) → map_ino g = ino → 0 ≤ map_size g → Forall (λ n, n_off n ≤ map_size g) l →
  (∀ g' pos' t' es' l' hd',
     wf_file es' → slist es' (curl hd') (maxl hd') l' → header_ok hd' → log_ok hd' es' l' →
     logstart hd' = blen (ser hd' es') → lsize es' ≤ lsize es → contents l' = contents l → fresh nx g' (ser hd' es') →
     Q 0 (S_ nx (<[ino := ser hd es]> others) (<[name := nx]> nm) (nx + 1) name (ser hd' es') hd' g'
            (delete ino (<[nx := LExclusive]> hl)) pos' t')) →
  wp (mycheckpoint compar true) Q (S_ ino others nm nx name (ser hd es) hd g hl pos t).
Proof using KO Hcalls Hroom.
  intros Hh Hv Hwf Hsl Hn [Hnew Hnx] Hof Hi Hsz Hoffs HQ. unfold mycheckpoint. wstep. cbn [fname S_].
  pose proof (blen_ser hd es) as Hb. pose proof (lsize_nonneg es).
  apply wp_bind, wp_bind, wp_map_refresh_all; [done|lia|]. intros g1 Hc1 Hs1 Hi1. apply wp_ret. cbn [Z.ltb Z.compare].
  apply wp_bind. eapply wp_consistent_locked; [done|done|done|by rewrite Hs1|by rewrite Hs1|]. cbn [Z.ltb Z.compare].
  wstep. cbn [fd S_]. apply wp_bind. unfold open_creat. apply wp_bind, (wp_sys_fails Hcalls). cbv iota.
  wstep. cbn [fs names S_]. rewrite Hnew. apply wp_bind. wstep. apply wp_ret. cbv iota. apply wp_bind. wstep.
  cbn [nextino inodes held ticks]. unfold set_fd, set_fs, S_. cbn [fs fname fd mp hdr inodes names held nextino ticks].
  set (nm1 := <[new_name name := nx]> nm). set (others' := <[ino := ser hd es]> others).
  change (St (Fs (<[nx := []]> others') nm1 hl (nx + 1) ?t) name (Some (nx, 0)) g1 hd)
    with (S_ nx others' nm1 (nx + 1) name [] hd g1 hl 0 t).
  assert (others' !! ino = Some (ser hd es)) as Hold by apply lookup_insert_eq.
  assert (new_name name ≠ name) as Hne by (intros Heq; rewrite Heq in Hnew; congruence).
  apply wp_bind. eapply (wp_write_checkpoint Hroom nx others' nm1 (nx + 1) name ino hd es l (curl hd) (maxl hd));
    [done|exact Hold|done|done|done|done|done|done|split; [apply Hc1|apply Hc1]|].
  intros pos1 es' l' hd' Hwf' Hsl' Hh' Hlg' Hls Hle Hcont. cbn [Z.eqb negb].
  pose proof (blen_ser hd' es') as Hb'. pose proof (lsize_nonneg es').
  apply wp_bind, wp_bind, (wp_fsync Hcalls). intros t1. apply wp_ret. cbn [Z.eqb negb].
  apply wp_bind. unfold write_lock. wstep. cbn [fname S_ from_option]. unfold id.
  apply wp_bind. unfold lock_reopen. apply (wp_lock_loop Hcalls); [apply lookup_insert_eq|].
  apply wp_bind, wp_refresh_locked; [done|split; [destruct Hc1; lia|congruence]|]. intros g2 Hc2 Hs2 Hi2.
  assert ((if curlevel hd' =? 0 then hd' else set_curlevel (curlevel hd') hd') = hd') as ->
    by (destruct (curlevel hd' =? 0); [done|apply set_curlevel_same]).
  apply wp_ret. cbn [Z.eqb negb]. apply wp_bind, wp_bind, (wp_sys_fails Hcalls). cbv iota.
  apply wp_bind. unfold modify_fs. wstep. apply wp_ret. cbn [Z.eqb negb].
  unfold set_fs, S_. cbn [fs fname fd mp hdr inodes names held nextino ticks].
  assert (nm1 !! new_name name = Some nx) as -> by apply lookup_insert_eq. unfold set_names. cbn [fs fname fd mp hdr inodes names held nextino ticks].
  assert (delete (new_name name) nm1 = nm) as -> by (unfold nm1; by rewrite delete_insert_id).
  set (nm2 := <[name := nx]> nm). set (hl2 := <[nx := LExclusive]> hl).
  change (St (Fs (<[nx := ?m]> others') nm2 hl2 (nx + 1) ?t) name (Some (nx, ?p)) g2 hd')
    with (S_ nx others' nm2 (nx + 1) name m hd' g2 hl2 p t).
  apply wp_bind, wp_bind, (wp_fsync Hcalls). intros t2. apply wp_ret. cbn [Z.eqb negb].
  apply wp_bind. unfold close_fd, drop_lock, modify_fs. wstep. set (hl3 := delete ino hl2).
  change (set_fs _ (SkipRun.S_ nx others' nm2 (nx + 1) name ?m hd' g2 hl2 ?p ?t))
    with (S_ nx others' nm2 (nx + 1) name m hd' g2 hl3 p t).
  apply wp_bind. unfold map_free. wstep. cbn [mp S_]. wstep.
  change (set_mp ?g' (SkipRun.S_ nx others' nm2 (nx + 1) name ?m hd' g2 hl3 ?p ?t))
    with (S_ nx others' nm2 (nx + 1) name m hd' g' hl3 p t).
  wstep. cbn [fd S_]. wstep. rewrite (file_of_S nx others' nm2 (nx + 1) name _ hd'). wstep. cbn [mp S_ map_of map_len].
  change (set_mp ?g' (SkipRun.S_ nx others' nm2 (nx + 1) name ?m hd' _ hl3 ?p ?t))
    with (S_ nx others' nm2 (nx + 1) name m hd' g' hl3 p t).
  apply wp_bind, wp_map_refresh; [done|lia|]. intros g3 Hof3 Hl3 _ Hs3 Hi3. cbn [map_size map_ino] in Hs3, Hi3.
  assert (covers nx g3 (ser hd' es')) as Hc3 by done.
  apply wp_bind. eapply wp_consistent_locked; [done|done|done|rewrite Hs3; apply blen_nonneg| |].
  { rewrite Hs3. by eapply nodes_inside, (sk_nodes _ _ _ _ Hsl'). }
  cbn [Z.ltb Z.compare]. wstep. by apply (HQ _ _ _ _ l').

Qed.
End Checkpoint.
