(* ===== verification/SkipReplay.v ===== *)
(** * SkipReplay: replaying the log

    The log of a file, up to its last commit, takes the list of the checkpoint
    to the list of its active records; a transaction that was not committed is
    cut off. *)
From S2P Require Import Prelude CMem.
From stdpp Require Import gmap sorting list.
From S2P Require Import CFile Prog DbFile CyrusDb BSearch Skiplist DbOrder SkipFile SkipList SkipStep SkipRun.
From S2P Require Import SkipFetch SkipWrite SkipTxn SkipRecover.
#[local] Open Scope Z_scope.

(** All pointers of a record written at once. *)
Lemma ser_setptrs hd pre ty k d ps vs post :
  is_off (blen k + 4) → is_off (blen d + 4) → length vs = length ps →
  wr (ser hd (pre ++ ERec ty k d ps :: post))
     (DUMMY_OFFSET + lsize pre + 12 + ROUNDUP (blen k) + ROUNDUP (blen d)) (mjoin (be32 <$> vs))
  = ser hd (pre ++ ERec ty k d vs :: post).
Proof.
  intros Hk Hd Hl. unfold ser. rewrite !fmap_app, !fmap_cons, !mjoin_app, !mjoin_cons. cbn [ebytes].
  unfold rec_bytes.
  set (A := header_bytes hd ++ mjoin (ebytes <$> pre) ++ be32 ty ++ be32 (blen k) ++ padded k ++
              be32 (blen d) ++ padded d).
  assert (blen A = DUMMY_OFFSET + lsize pre + 12 + ROUNDUP (blen k) + ROUNDUP (blen d)) as HA.
  { unfold A. autorewrite with blen. rewrite blen_header, blen_entries, !blen_padded by done.
    unfold DUMMY_OFFSET, HEADER_SIZE. lia. }
  rewrite <- HA.
  assert (length (mjoin (be32 <$> vs)) = length (mjoin (be32 <$> ps))) as Hw.
  { pose proof (blen_words vs). pose proof (blen_words ps). unfold blen in *. lia. }
  set (W := mjoin (be32 <$> ps)) in *. set (W' := mjoin (be32 <$> vs)) in *.
  set (R := mjoin (ebytes <$> post)).
  pose proof (wr_overwrite A W W' (be32 (-1) ++ R) (eq_sym Hw)) as H.
  unfold A in H |- *. rewrite <- !app_assoc in *. exact H.
Qed.

(** ** Looking ahead *)

Section FindCommit.
Context (hd : header).

Lemma ent_second pre e a post :
  ent DUMMY_OFFSET (pre ++ e :: a :: post) (DUMMY_OFFSET + lsize pre + esize e) = Some a.
Proof using. rewrite cons_middle, app_assoc, <- Z.add_assoc, <- lsize_snoc. apply ent_here. Qed.

Lemma not_commit_type e :
  wf_entry e → e ≠ ECommit →
  (match e with ERec ty _ _ _ => ty | EDel _ => DELETE | ECommit => COMMIT end =? COMMIT) = false.
Proof using. destruct e as [ty k d ps| |]; [|done..]. by intros [[-> |[-> | ->]] _]. Qed.

Lemma wf_second pre e a post : wf_file (pre ++ e :: a :: post) → wf_entry a.
Proof using.
  intros [Hwf _]. apply Forall_app in Hwf as [_ Hwf]. inversion_clear Hwf as [|?? _ Hw]. by inversion_clear Hw.
Qed.

(** The next commit. *)
Lemma find_commit_found pre e mid post fuel q :
  wf_file (pre ++ e :: mid ++ ECommit :: post) → Forall (λ e, e ≠ ECommit) mid →
  (length mid < fuel)%nat → DUMMY_OFFSET + lsize pre + esize e + lsize mid + 4 ≤ q →
  find_commit fuel (ser hd (pre ++ e :: mid ++ ECommit :: post)) (DUMMY_OFFSET + lsize pre) q
    = Ok (DUMMY_OFFSET + lsize pre + esize e + lsize mid).
Proof using.
  revert pre e fuel. induction mid as [|a mid IH]; intros pre e fuel Hwf Hm Hf Hq;
    (destruct fuel as [|fuel]; [cbn in Hf; lia|]); cbn [find_commit];
    rewrite (RECSIZE_ent hd _ _ e Hwf) by apply ent_here; cbn [mbind result_bind];
    pose proof (esize_pos e); (destruct (Z.leb_spec (esize e) 0); [lia|]).
  - change (lsize []) with 0 in *. cbn [app] in *.
    destruct (Z.leb_spec q (DUMMY_OFFSET + lsize pre + esize e)); [lia|].
    rewrite (TYPE_ent hd _ _ ECommit Hwf) by apply ent_second. cbn [mbind result_bind].
    rewrite Z.eqb_refl, Z.add_0_r. done.
  - rewrite lsize_cons in *. pose proof (esize_pos a). pose proof (lsize_nonneg mid).
    inversion_clear Hm as [|?? Ha Hm']. cbn [app] in *.
    destruct (Z.leb_spec q (DUMMY_OFFSET + lsize pre + esize e)); [lia|].
    rewrite (TYPE_ent hd _ _ a Hwf) by apply ent_second. cbn [mbind result_bind].
    rewrite not_commit_type by (try done; by eapply wf_second).
    specialize (IH (pre ++ [e]) a fuel). rewrite <- !app_assoc, lsize_snoc, Z.add_assoc in IH. cbn [app] in IH.
    rewrite Z.add_assoc. apply IH; [done|done|cbn in Hf; lia|lia].
Qed.

(** None: the end. *)
Lemma find_commit_none pre e mid fuel q :
  wf_file (pre ++ e :: mid) → Forall (λ e, e ≠ ECommit) mid → (length mid < fuel)%nat →
  q = DUMMY_OFFSET + lsize pre + esize e + lsize mid →
  find_commit fuel (ser hd (pre ++ e :: mid)) (DUMMY_OFFSET + lsize pre) q = Ok q.
Proof using.
  revert pre e fuel. induction mid as [|a mid IH]; intros pre e fuel Hwf Hm Hf Hq;
    (destruct fuel as [|fuel]; [cbn in Hf; lia|]); cbn [find_commit];
    rewrite (RECSIZE_ent hd _ _ e Hwf) by apply ent_here; cbn [mbind result_bind];
    pose proof (esize_pos e); (destruct (Z.leb_spec (esize e) 0); [lia|]).
  - change (lsize []) with 0 in *. destruct (Z.leb_spec q (DUMMY_OFFSET + lsize pre + esize e)); [|lia].
    f_equal. lia.
  - rewrite lsize_cons in *. pose proof (esize_pos a). pose proof (lsize_nonneg mid).
    inversion_clear Hm as [|?? Ha Hm'].
    destruct (Z.leb_spec q (DUMMY_OFFSET + lsize pre + esize e)); [lia|].
    rewrite (TYPE_ent hd _ _ a Hwf) by apply ent_second. cbn [mbind result_bind].
    rewrite not_commit_type by (try done; by eapply wf_second).
    specialize (IH (pre ++ [e]) a fuel). rewrite <- !app_assoc, lsize_snoc, Z.add_assoc in IH. cbn [app] in IH.
    apply IH; [done|done|cbn in Hf; lia|lia].
Qed.
End FindCommit.

(** ** One record *)

Section Replay.
Context `{E : Env} `{KO : KeyOrder compar keyok}.
Context (Hcalls : ∀ n, fails n = false) (Hroom : 2147483648 ≤ file_limit).
Context (ino : Z) (others : gmap Z bytes) (nm : gmap bytes Z) (nx : Z) (name : bytes).
Abbreviation S_ := (S_ ino others nm nx name).
Abbreviation covers := (covers ino).

Abbreviation slist := (slist (compar := compar) (keyok := keyok)).
Abbreviation below := (below (compar := compar)).
Abbreviation above := (above (compar := compar)).
Abbreviation prev_off := (prev_off (compar := compar)).
Abbreviation prev_offs := (prev_offs (compar := compar)).
Abbreviation log_step := (log_step (compar := compar) (keyok := keyok)).
Abbreviation log_run := (log_run (compar := compar) (keyok := keyok)).

(** The search with a header in memory that is not the file's. *)
Lemma wp_search hd es h l k Q g hl pos t :
  covers g (ser hd es) → wf_file es → slist es (curl h) (maxl h) l → keyok k →
  Q (hd_off (above k l), prev_offs k l (maxl h)) (S_ (ser hd es) h g hl pos t) →
  wp (m_find_node compar k) Q (S_ (ser hd es) h g hl pos t).
Proof using KO.
  intros Hc Hwf Hsl Hk HQ. unfold m_find_node. wstep. cbn [hdr SkipRun.S_].
  eapply wp_read; [done|by eapply find_node_ok|done].
Qed.

(** What is written is well formed. *)
Lemma wf_replayed esc es' e e' tl :
  wf_file (esc ++ e :: tl) → wf_file es' → shape es' = shape esc → wf_entry e' → esize e' = esize e →
  wf_file (es' ++ e' :: tl).
Proof using.
  intros [Hw Hs] [Hw' _] Hsh He' Hsz. apply Forall_app in Hw as [_ Hw]. inversion_clear Hw.
  split; [apply Forall_app; split; [done|by constructor]|].
  rewrite lsize_app, lsize_cons in *. by rewrite (shape_lsize _ _ Hsh), Hsz.
Qed.

Lemma wf_prefix es tl : wf_file (es ++ tl) → wf_file es.
Proof using.
  intros [[Hw _]%Forall_app Hs]. split; [done|]. rewrite lsize_app in Hs. pose proof (lsize_nonneg tl). lia.
Qed.

Lemma replay_add hd esc h l k d ps tl Q g hl pos t :
  let e := ERec ADD k d ps in
  wf_file (esc ++ e :: tl) → covers g (ser hd (esc ++ e :: tl)) → slist esc (curl h) (maxl h) l →
  keyok k → Forall (λ n, n_key n ≠ k) l → (1 ≤ length ps ≤ curl h)%nat →
  (∀ pos', wf_file (add_step (compar := compar) esc k d l (length ps) ++ tl) →
     Q 0 (S_ (ser hd (add_step (compar := compar) esc k d l (length ps) ++ tl))
                   (set_listsize (listsize h + 1) h) g hl pos' t)) →
  wp (replay_record compar (new_off esc) ADD) Q (S_ (ser hd (esc ++ e :: tl)) h g hl pos t).
Proof using KO Hroom.
  intros e Hwf Hc Hsl Hk Hnew Hl HQ. set (full := esc ++ e :: tl) in *.
  assert (slist full (curl h) (maxl h) l) as Hsl' by by apply slist_app.
  pose proof (no_curl _ _ _ _ (sk_nodes _ _ _ _ Hsl)) as Hcm.
  assert (ent DUMMY_OFFSET full (new_off esc) = Some e) as He by apply ent_here.
  unfold replay_record. change (ADD =? ADD) with true. cbv iota.
  apply wp_bind. eapply wp_read; [done|exact (rec_key_at _ _ _ _ _ _ (ser_at hd _ _ _ He) (wf_ent _ _ _ Hwf He))|].
  apply wp_bind. eapply wp_search; [done..|].
  apply (wp_bind_mono _ _ (λ b s, b = false ∧ s = S_ (ser hd full) h g hl pos t)).
  { destruct (above k l) as [|y rest] eqn:Hab; cbn [hd_off]; [by apply wp_ret|].
    destruct (above_node h full l Hwf Hsl' k y rest Hab) as (Hy & ty & qs & Hye & _ & _ & Hne).
    destruct (Z.eqb_spec (n_off y) 0); [done|]. apply wp_bind.
    eapply wp_read; [done|exact (rec_key_at _ _ _ _ _ _ (ser_at hd _ _ _ Hye) (wf_ent _ _ _ Hwf Hye))|].
    apply wp_ret. split; [|done]. pose proof (Forall_in _ _ _ Hnew Hy) as Hky. cbn in Hky.
    pose proof (Forall_in _ _ _ (no_keys _ _ _ _ (sk_nodes _ _ _ _ Hsl)) Hy) as Hyo. cbn in Hyo.
    destruct (Z.eqb_spec (compar k (n_key y)) 0) as [E'|]; [|done].
    apply ko_eq in E'; [congruence|done|done]. }
  intros b ? [-> ->]. apply wp_bind. unfold modify_hdr. wstep. cbn [set_hdr hdr SkipRun.S_].
  change (set_hdr ?h' (S_ ?m ?h ?g ?hl ?p ?t)) with (S_ m h' g hl p t).
  apply wp_bind. eapply wp_read; [done|exact (LEVEL_at _ _ _ _ _ _ (ser_at hd _ _ _ He) (wf_ent _ _ _ Hwf He))|].
  unfold SKIPLIST_MAXLEVEL. destruct (Z.ltb_spec 20 (Z.of_nat (length ps))); [lia|]. rewrite Nat2Z.id.
  assert (∀ i, (i < maxl h)%nat → fwd esc (prev_off k l i) i = Some (succs i (above k l))) as Hpf.
  { intros i Hi. by eapply prev_off_fwd. }
  apply wp_bind. eapply (wp_splice_loop Hroom) with (pf := prev_off k l) (w := λ i, succs i (above k l));
    [done|done|by apply (ent_off _ _ _ Hwf He)| |].
  { intros i Hi. split; [by apply uget_prev; lia|]. apply fwd_app_l, Hpf. lia. }
  intros pos'. unfold full. rewrite setps_app by (intros i Hi; rewrite Hpf by lia; eauto).
  fold (add_ptrs (compar := compar) esc k l (length ps)). set (esp := add_ptrs esc k l (length ps)).
  assert (shape esp = shape esc) as Hsh by apply shape_setps.
  assert (lsize esp = lsize esc) as Hls by by apply shape_lsize.
  assert (shape (esp ++ e :: tl) = shape full) as Hsh' by (unfold full; by rewrite !shape_app, Hsh).
  assert (wf_file esp) as Hwp.
  { apply wf_setps; [by eapply wf_prefix|]. intros i _. by apply (ent_off full _ e). }
  pose proof (wf_replayed _ _ _ e _ Hwf Hwp Hsh (wf_ent _ _ _ Hwf He) eq_refl) as Hwf'.
  assert (ent DUMMY_OFFSET (esp ++ e :: tl) (new_off esc) = Some e) as He'.
  { unfold new_off. rewrite <- Hls. apply ent_here. }
  pose proof (wf_ent _ _ _ Hwf' He') as (_ & Hkl & Hdl & _).
  apply wp_bind. eapply wp_read; [by eapply covers_shape|
    exact (FIRSTPTR_at _ _ _ _ _ _ (ser_at hd _ _ _ He') (wf_ent _ _ _ Hwf' He'))|].
  destruct (addr_range (esp ++ e :: tl) (new_off esc) (length ps - 1)
    (new_off esc + 12 + ROUNDUP (blen k) + ROUNDUP (blen d) + 4 * Z.of_nat (length ps - 1))) as [_ Hend].
  { done. } { exists ADD, k, d, ps. split_and!; [done|lia|done]. }
  pose proof (ent_off _ _ _ Hwf' He') as [[Hof _] _]. unfold is_off in *.
  pose proof (ROUNDUP_bounds (blen k) ltac:(pose proof (blen_nonneg k); lia)).
  pose proof (ROUNDUP_bounds (blen d) ltac:(pose proof (blen_nonneg d); lia)).
  pose proof (blen_nonneg k). pose proof (blen_nonneg d).
  assert (length ((λ i, succs i (above k l)) <$> seq 0 (length ps)) = length ps) as Hlen
    by by rewrite length_fmap, length_seq.
  apply wp_bind, wp_lseek; [lia|].
  apply wp_bind, (wp_write Hroom).
  { intros E'. apply (f_equal blen) in E'. rewrite blen_words, Hlen in E'. change (blen []) with 0 in E'. lia. }
  { lia. } { rewrite blen_words, Hlen. lia. }
  unfold new_off at 1, e. rewrite <- Hls, ser_setptrs by done. apply wp_ret.
  unfold add_step in HQ. fold esp in HQ. rewrite <- app_assoc in HQ. apply HQ.
  apply (wf_replayed _ _ _ _ _ Hwf Hwp Hsh); unfold new_ptrs.
  - destruct (wf_ent _ _ _ Hwf He) as (? & ? & ? & ? & ?). split_and!; auto; [|by rewrite Hlen].
    apply Forall_fmap, Forall_forall. intros i Hi%elem_of_seq. eapply (fwd_off full); [done|].
    apply fwd_app_l, Hpf. lia.
  - unfold esize, e. cbn [ebytes]. rewrite !blen_rec by done. by rewrite Hlen.
Qed.

Lemma replay_del hd esc h l k x rest tl Q g hl pos t :
  wf_file (esc ++ EDel (n_off x) :: tl) → covers g (ser hd (esc ++ EDel (n_off x) :: tl)) →
  slist esc (curl h) (maxl h) l → keyok k → above k l = x :: rest → n_key x = k →
  (∀ pos', wf_file (del_step (compar := compar) esc k l x rest ++ tl) →
     Q 0 (S_ (ser hd (del_step (compar := compar) esc k l x rest ++ tl))
                   (set_listsize (listsize h - 1) h) g hl pos' t)) →
  wp (replay_record compar (new_off esc) DELETE) Q (S_ (ser hd (esc ++ EDel (n_off x) :: tl)) h g hl pos t).
Proof using KO Hroom.
  intros Hwf Hc Hsl Hk Hab Hx HQ. set (full := esc ++ EDel (n_off x) :: tl) in *.
  assert (slist full (curl h) (maxl h) l) as Hsl' by by apply slist_app.
  assert (ent DUMMY_OFFSET full (new_off esc) = Some (EDel (n_off x))) as He by apply ent_here.
  destruct (above_node h full l Hwf Hsl' k x rest Hab) as (_ & ty & ps & Hxe & _ & _ & Hne).
  destruct (ent_off _ _ _ Hwf Hxe) as [Ho _]. unfold is_off in Ho.
  unfold replay_record. change (DELETE =? ADD) with false. cbv iota.
  apply wp_bind. eapply wp_read; [done| |].
  { pose proof (ser_at hd _ _ _ He) as Hat. cbn [ebytes] in Hat. apply bytes_at_app in Hat as [_ Hat].
    change (blen (be32 DELETE)) with 4 in Hat. rewrite (rd32_be32 _ _ _ Hat), to_u32_small by (unfold is_u32; lia). done. }
  apply wp_bind. eapply wp_read; [done|exact (rec_key_at _ _ _ _ _ _ (ser_at hd _ _ _ Hxe) (wf_ent _ _ _ Hwf Hxe))|].
  rewrite Hx. apply wp_bind. eapply wp_search; [done..|]. rewrite Hab. cbn [hd_off].
  destruct (Z.eqb_spec (n_off x) 0); [done|].
  apply wp_bind. unfold modify_hdr. wstep. cbn [set_hdr hdr SkipRun.S_].
  change (set_hdr ?h' (S_ ?m ?h ?g ?hl ?p ?t)) with (S_ m h' g hl p t). wstep. cbn [hdr SkipRun.S_ set_listsize curlevel].
  fold (curl h). pose proof (no_curl _ _ _ _ (sk_nodes _ _ _ _ Hsl)) as Hcm.
  apply wp_bind. eapply (wp_unlink Hroom); [done|done|done|done|done|lia|]. intros pos'. apply wp_ret.
  unfold del_step in HQ. rewrite <- app_assoc in HQ. apply HQ.
  eapply wf_replayed; [exact Hwf| |apply shape_setps|exact Ho|done].
  apply wf_setps; [by eapply wf_prefix|]. intros i Hi.
  eapply (fwd_off full (n_off x) i); [done|]. apply fwd_app_l. by eapply node_fwd.
Qed.

(** ** The log *)

(** A log that ends with its last transaction. *)
Definition committed (log : list entry) : Prop := log = [] ∨ last log = Some ECommit.

Lemma committed_tail e log : committed (e :: log) → committed log.
Proof using. intros [|H]; [done|]. destruct log as [|a log]; [by left|by right]. Qed.

Lemma committed_next e log :
  committed (e :: log) → e ≠ ECommit →
  ∃ mid post, log = mid ++ ECommit :: post ∧ Forall (λ e, e ≠ ECommit) mid.
Proof using.
  intros [|H] He; [done|]. destruct log as [|a log]; [by injection H|].
  assert (ECommit ∈ a :: log) as Hin.
  { rewrite last_cons_cons in H. apply last_Some in H as [l' ->]. apply elem_of_app. right. by left. }
  apply list_elem_of_split_l in Hin as (mid & post & -> & Hn). exists mid, post. split; [done|].
  apply Forall_forall. by intros x Hx ->.
Qed.

(** Whether there is a commit ahead. *)
Lemma look_ahead hd pre e log tail :
  wf_file (pre ++ (e :: log) ++ tail) → committed (e :: log) → e ≠ ECommit →
  let m := ser hd (pre ++ (e :: log) ++ tail) in
  ∃ p, find_commit (S (length m)) m (new_off pre) (blen m) = Ok p ∧ p < blen m.
Proof using.
  intros Hwf Hcm He m. destruct (committed_next _ _ Hcm He) as (mid & post & -> & Hmid).
  unfold m. clear m. cbn [app] in *. rewrite <- !app_assoc in *. cbn [app] in *.
  set (m := ser hd _). exists (DUMMY_OFFSET + lsize pre + esize e + lsize mid).
  assert (blen m = 48 + lsize pre + esize e + lsize mid + 4 + lsize (post ++ tail)) as Hb.
  { unfold m. rewrite blen_ser, !lsize_app, lsize_cons, lsize_app, lsize_cons, lsize_app.
    change (esize ECommit) with 4. lia. }
  pose proof (lsize_nonneg (post ++ tail)). pose proof (lsize_nonneg pre). pose proof (esize_pos e).
  pose proof (length_lsize mid). unfold DUMMY_OFFSET, HEADER_SIZE in *.
  split; [|lia]. apply find_commit_found; [done|done| |unfold DUMMY_OFFSET, HEADER_SIZE; lia].
  unfold blen in Hb. lia.
Qed.

Lemma no_commit hd pre e tail :
  wf_file (pre ++ e :: tail) → Forall is_change (e :: tail) →
  let m := ser hd (pre ++ e :: tail) in
  find_commit (S (length m)) m (new_off pre) (blen m) = Ok (blen m).
Proof using.
  intros Hwf Hch m. inversion_clear Hch as [|?? _ Hch'].
  assert (blen m = 48 + lsize pre + esize e + lsize tail) as Hb
    by (unfold m; rewrite blen_ser, lsize_app, lsize_cons; lia).
  pose proof (length_lsize tail). pose proof (lsize_nonneg pre). pose proof (esize_pos e).
  apply find_commit_none; [done| |unfold blen in Hb; lia|done].
  eapply Forall_impl; [exact Hch'|]. by intros [] ? [=].
Qed.

Lemma curl_listsize n h : curl (set_listsize n h) = curl h. Proof using. done. Qed.
Lemma maxl_listsize n h : maxl (set_listsize n h) = maxl h. Proof using. done. Qed.

(** The transaction that was not committed goes. *)
Lemma replay_cut hd esc tail Q fuel h g hl pos t :
  wf_file (esc ++ tail) → covers g (ser hd (esc ++ tail)) → map_size g = blen (ser hd (esc ++ tail)) →
  Forall is_change tail → (∀ t', Q 0 (S_ (ser hd esc) h g hl pos t')) →
  wp (replay_log compar (S fuel) (new_off esc)) Q (S_ (ser hd (esc ++ tail)) h g hl pos t).
Proof using Hcalls.
  intros Hwf Hc Hsz Hch HQ. cbn [replay_log]. wstep. cbn [mp SkipRun.S_]. rewrite Hsz.
  destruct tail as [|e tail].
  - rewrite app_nil_r. destruct (Z.ltb_spec (new_off esc) (blen (ser hd esc))) as [Hlt|_];
      [rewrite blen_ser in Hlt; unfold new_off, DUMMY_OFFSET, HEADER_SIZE in Hlt; lia|].
    cbn [negb]. by apply wp_ret.
  - destruct (Z.ltb_spec (new_off esc) (blen (ser hd (esc ++ e :: tail)))) as [_|Hge].
    2: { rewrite blen_ser, lsize_app, lsize_cons in Hge. pose proof (esize_pos e). pose proof (lsize_nonneg tail).
         unfold new_off, DUMMY_OFFSET, HEADER_SIZE in Hge. lia. }
    cbn [negb]. pose proof (blen_ser hd (esc ++ e :: tail)). pose proof (lsize_nonneg (esc ++ e :: tail)).
    apply wp_bind. unfold map_refresh. wstep. cbn [fd SkipRun.S_]. wstep. wstep. cbn [from_option id mp SkipRun.S_].
    unfold id. destruct Hc as [Ho Hle]. destruct (Z.leb_spec (blen (ser hd (esc ++ e :: tail))) (map_len g)); [|lia].
    apply wp_ret. apply wp_bind. eapply wp_read; [done|apply (TYPE_ent hd _ _ e Hwf), ent_here|].
    inversion_clear Hch as [|?? He Hch'].
    replace (_ =? COMMIT) with false by (destruct e as [ty k d ps| |]; [cbn in He; by subst ty|done..]).
    replace (negb _ && negb _) with false by (destruct e as [ty k d ps| |]; [cbn in He; by subst ty|done..]).
    apply wp_bind. eapply wp_read; [done|apply (no_commit hd esc e tail Hwf); by constructor|].
    rewrite Z.leb_refl. apply wp_bind.
    replace (new_off esc) with (blen (ser hd esc)) by (rewrite blen_ser; done).
    apply (wp_ftruncate Hcalls). intros t'. cbn [Z.ltb Z.compare]. apply wp_ret, HQ.
Qed.

(** The mapping is large enough: refreshing it does nothing. *)
Lemma wp_map_refresh_id Q m h g hl pos t :
  covers g m → Q tt (S_ m h g hl pos t) → wp (map_refresh (Some (blen m))) Q (S_ m h g hl pos t).
Proof using.
  intros [_ Hl] HQ. unfold map_refresh. wstep. cbn [fd SkipRun.S_]. wstep. wstep. cbn [from_option id mp SkipRun.S_].
  unfold id. destruct (Z.leb_spec (blen m) (map_len g)); [|lia]. by apply wp_ret.
Qed.

Lemma log_step_length off e l l1 :
  log_step off e l l1 → sorted (compar := compar) l → keys_ok (keyok := keyok) l →
  Z.of_nat (length l1) = Z.of_nat (length l) + match e with ERec _ _ _ _ => 1 | EDel _ => -1 | ECommit => 0 end.
Proof using KO.
  intros Hst Hs Hk. destruct Hst as [k d ps l Hkk _ _|k x rest l Hkk Hab _|]; [| |lia];
    pose proof (f_equal length (sorted_split k l Hs Hk Hkk)) as Hl; rewrite ?Hab in Hl;
    rewrite !length_app in *; cbn [length] in *; lia.
Qed.

(** One entry of the log: what it says is what replaying it does. *)
Lemma replay_entry hd esc h l l1 e tl size Q fuel g hl pos t :
  let full := esc ++ e :: tl in
  wf_file full → covers g (ser hd full) → map_size g = blen (ser hd full) → size = blen (ser hd full) →
  slist esc (curl h) (maxl h) l → log_step (new_off esc) e l l1 → lvl_ok (curl h) e →
  (e ≠ ECommit → ∃ p, find_commit (S (length (ser hd full))) (ser hd full) (new_off esc) size = Ok p ∧ p < size) →
  (∀ esc' h' pos', shape esc' = shape (esc ++ [e]) → wf_file (esc' ++ tl) →
     slist esc' (curl h) (maxl h) l1 →
     h' = set_listsize (listsize h + Z.of_nat (length l1) - Z.of_nat (length l)) h →
     wp (replay_log compar fuel (new_off esc')) Q (S_ (ser hd (esc' ++ tl)) h' g hl pos' t)) →
  wp (replay_log compar (S fuel) (new_off esc)) Q (S_ (ser hd full) h g hl pos t).
Proof using KO Hroom.
  intros full Hwf Hc Hsz -> Hsl Hst Hlv Hahead HQ. cbn [replay_log]. wstep. cbn [mp SkipRun.S_]. rewrite Hsz.
  assert (ent DUMMY_OFFSET full (new_off esc) = Some e) as He by apply ent_here.
  destruct (Z.ltb_spec (new_off esc) (blen (ser hd full))) as [_|Hge].
  2: { unfold full in Hge. rewrite blen_ser, lsize_app, lsize_cons in Hge. pose proof (esize_pos e).
       pose proof (lsize_nonneg tl). unfold new_off, DUMMY_OFFSET, HEADER_SIZE in Hge. lia. }
  cbn [negb]. apply wp_bind, wp_map_refresh_id; [done|].
  pose proof (sk_nodes _ _ _ _ Hsl) as Hno. pose proof (no_curl _ _ _ _ Hno) as Hcm.
  pose proof (log_step_length _ _ _ _ Hst (no_sorted _ _ _ _ Hno) (no_keys _ _ _ _ Hno)) as Hlen.
  apply wp_bind. eapply wp_read; [done|by apply (TYPE_ent hd _ _ e Hwf)|].
  assert (∀ esp e', shape esp = shape esc → esize e' = esize e →
            new_off esc + esize e = new_off (esp ++ [e'])) as Hnext.
  { intros esp e' Hsh Hes. unfold new_off. rewrite lsize_snoc, (shape_lsize _ _ Hsh), Hes. lia. }
  assert (∀ esp e', shape esp = shape esc → eshape e' = eshape e → wf_file ((esp ++ [e']) ++ tl) →
            ent DUMMY_OFFSET ((esp ++ [e']) ++ tl) (new_off esc) = Some e') as Hent.
  { intros esp e' Hsh _ _. rewrite <- app_assoc. unfold new_off. rewrite <- (shape_lsize _ _ Hsh). apply ent_here. }
  assert (∀ esp e', shape esp = shape esc → eshape e' = eshape e →
            covers g (ser hd ((esp ++ [e']) ++ tl))) as Hcov.
  { intros esp e' Hsh Hes. eapply covers_shape; [|exact Hc]. unfold full.
    rewrite <- app_assoc, !shape_app, Hsh. cbn [app shape fmap list_fmap]. by rewrite Hes. }
  destruct Hst as [k d ps l Hk Hnew Hps|k x rest l Hk Hab Hx|l]; cbn [lvl_ok] in Hlv.
  - change (ADD =? COMMIT) with false. change (negb (ADD =? ADD) && negb (ADD =? DELETE)) with false. cbv iota.
    destruct (Hahead ltac:(done)) as (p & Hp & Hlt).
    apply wp_bind. eapply wp_read; [done|exact Hp|]. destruct (Z.leb_spec (blen (ser hd full)) p); [lia|].
    apply wp_bind. eapply replay_add; [done..|by split|]. intros pos' Hwf'.
    set (e' := ERec ADD k d (new_ptrs (compar := compar) l k (length ps))).
    assert (eshape e' = eshape (ERec ADD k d ps)) as Hes.
    { unfold e', new_ptrs. cbn [eshape]. by rewrite length_fmap, length_seq. }
    pose proof (shape_setps esc (length ps) (prev_off k l) (λ _, new_off esc)) as Hsh.
    fold (add_ptrs (compar := compar) esc k l (length ps)) in Hsh.
    apply wp_bind. eapply wp_read; [by apply (Hcov _ e' Hsh)|eapply RECSIZE_ent; [done|by apply (Hent _ e' Hsh)]|].
    cbn [Z.eqb negb]. rewrite (eshape_esize _ _ Hes), (Hnext _ e' Hsh (eshape_esize _ _ Hes)).
    apply (HQ (add_step (compar := compar) esc k d l (length ps))).
    + unfold add_step. rewrite !shape_app, Hsh. cbn [shape fmap list_fmap]. fold e'. by rewrite Hes.
    + done.
    + rewrite <- (Nat.max_l (curl h) (length ps)) by done. by apply skip_add; [| | |lia].
    + unfold set_listsize. f_equal. lia.
  - change (DELETE =? COMMIT) with false. change (negb (DELETE =? ADD) && negb (DELETE =? DELETE)) with false. cbv iota.
    destruct (Hahead ltac:(done)) as (p & Hp & Hlt).
    apply wp_bind. eapply wp_read; [done|exact Hp|]. destruct (Z.leb_spec (blen (ser hd full)) p); [lia|].
    apply wp_bind. eapply replay_del; [done..|]. intros pos' Hwf'.
    pose proof (shape_setps esc (n_lvl x) (prev_off k l) (λ i, succs i rest)) as Hsh.
    fold (del_ptrs (compar := compar) esc k l x rest) in Hsh.
    apply wp_bind. eapply wp_read; [by apply (Hcov _ (EDel (n_off x)) Hsh)|eapply RECSIZE_ent; [done|by apply (Hent _ (EDel (n_off x)) Hsh)]|].
    cbn [Z.eqb negb]. rewrite (Hnext _ (EDel (n_off x)) Hsh eq_refl).
    apply (HQ (del_step (compar := compar) esc k l x rest)).
    + unfold del_step. by rewrite !shape_app, Hsh.
    + done.
    + by apply skip_del.
    + unfold set_listsize. f_equal. lia.
  - change (COMMIT =? COMMIT) with true. cbv iota.
    apply wp_bind. eapply wp_read; [done|by eapply RECSIZE_ent|].
    rewrite (Hnext esc ECommit eq_refl eq_refl). replace full with ((esc ++ [ECommit]) ++ tl) by (by rewrite <- app_assoc).
    apply (HQ (esc ++ [ECommit])); [done|by rewrite <- app_assoc|by apply slist_app|].
    rewrite Z.add_simpl_r. by destruct h.
Qed.

Lemma wp_replay_log hd log tail esc h l l' fuel Q g hl pos t :
  log_run (new_off esc) log l l' → wf_file (esc ++ log ++ tail) → covers g (ser hd (esc ++ log ++ tail)) →
  map_size g = blen (ser hd (esc ++ log ++ tail)) → slist esc (curl h) (maxl h) l →
  Forall (lvl_ok (curl h)) log → committed log → Forall is_change tail →
  (length log < fuel)%nat →
  (∀ es' pos' t', shape es' = shape (esc ++ log) → wf_file es' → slist es' (curl h) (maxl h) l' →
     Q 0 (S_ (ser hd es') (set_listsize (listsize h + Z.of_nat (length l') - Z.of_nat (length l)) h) g hl pos' t')) →
  wp (replay_log compar fuel (new_off esc)) Q (S_ (ser hd (esc ++ log ++ tail)) h g hl pos t).
Proof using KO Hcalls Hroom.
  revert esc h l fuel pos. induction log as [|e log IH]; intros esc h l fuel pos Hrun Hwf Hc Hsz Hsl Hlv Hcm Hch Hf HQ;
    (destruct fuel as [|fuel]; [cbn in Hf; lia|]).
  - inversion Hrun; subst. cbn [app] in *. apply replay_cut; [done..|]. intros t'.
    specialize (HQ esc pos t'). rewrite app_nil_r in HQ. specialize (HQ eq_refl (wf_prefix _ _ Hwf) Hsl).
    replace (listsize h + Z.of_nat (length l') - Z.of_nat (length l')) with (listsize h) in HQ by lia.
    by replace (set_listsize (listsize h) h) with h in HQ by by destruct h.
  - inversion Hrun as [|? ? ? ? l1 ? Hst Hrun']; subst. inversion_clear Hlv as [|?? Hle Hlv'].
    cbn [app] in *. eapply replay_entry; [done..| |].
    { intros He. rewrite Hsz. by apply (look_ahead hd esc e log tail). }
    intros esc' h' pos' Hsh Hwf' Hsl' ->.
    assert (new_off esc' = new_off esc + esize e) as Hoff.
    { unfold new_off. rewrite (shape_lsize _ _ Hsh), lsize_snoc. lia. }
    assert (shape (esc' ++ log ++ tail) = shape (esc ++ e :: log ++ tail)) as Hsh'.
    { change (e :: log ++ tail) with ([e] ++ log ++ tail). by rewrite !shape_app, Hsh, shape_app, <- app_assoc. }
    assert (blen (ser hd (esc' ++ log ++ tail)) = blen (ser hd (esc ++ e :: log ++ tail))) as Hb
      by (rewrite !blen_ser; by rewrite (shape_lsize _ _ Hsh')).
    eapply IH; try done.
    + by rewrite Hoff.
    + by eapply covers_shape.
    + by rewrite Hb.
    + by eapply committed_tail.
    + cbn in Hf. lia.
    + intros es' pos2 t2 Hs2 Hw2 Hl2. specialize (HQ es' pos2 t2).
      change (e :: log) with ([e] ++ log) in HQ.
      rewrite Hs2, !shape_app, Hsh, shape_app, <- app_assoc in HQ. specialize (HQ eq_refl Hw2 Hl2).
      cbn [listsize set_listsize].
      replace (listsize h + Z.of_nat (length l1) - Z.of_nat (length l) + Z.of_nat (length l') - Z.of_nat (length l1))
        with (listsize h + Z.of_nat (length l') - Z.of_nat (length l)) by lia. exact HQ.
Qed.
End Replay.
