(* ===== verification/SkipCrash.v ===== *)
(** * SkipCrash: recovery of a database file

    [recoverable hd es l]: the file with header [hd] and entries [es] has a head,
    the records of a checkpoint, committed transactions that leave the records
    [l], and the entries of at most one that was not committed; its pointers can
    be anything.  [recovery] makes it a sound database that holds [l]. *)
From S2P Require Import Prelude CMem.
From stdpp Require Import gmap sorting list.
From S2P Require Import CFile Prog DbFile CyrusDb BSearch Skiplist DbOrder SkipFile SkipList SkipStep SkipRun.
From S2P Require Import SkipFetch SkipWrite SkipTxn SkipRecover SkipReplay.
#[local] Open Scope Z_scope.

Lemma committed_shape es es' : shape es = shape es' → committed es → committed es'.
Proof.
  intros Hsh [->|Hl]; [left; by destruct es'|]. right.
  assert (last (shape es) = Some ECommit) as H by (unfold shape; by rewrite fmap_last, Hl).
  rewrite Hsh in H. unfold shape in H. rewrite fmap_last in H. destruct (last es') as [[]|]; done.
Qed.

Section Crash.
Context `{KO : KeyOrder compar keyok}.

Abbreviation slist := (slist (compar := compar) (keyok := keyok)).
Abbreviation nodes_ok := (nodes_ok (compar := compar) (keyok := keyok)).
Abbreviation log_run := (log_run (compar := compar) (keyok := keyok)).
Abbreviation logged := (logged (compar := compar) (keyok := keyok)).
Abbreviation log_ok := (log_ok (compar := compar) (keyok := keyok)).
Abbreviation wr_ops := (wr_ops (compar := compar) (keyok := keyok)).

(** [keep] is the file without the transaction that was not committed. *)
Definition recoverable (hd : header) (es : list entry) (l : list node) (keep : list entry) : Prop :=
  log_ok hd keep l ∧ ∃ tail, es = keep ++ tail ∧ Forall is_change tail.

(** Whatever happened to the pointers. *)
Lemma closed_shape hd hd' es es' :
  logstart hd' = logstart hd → shape es = shape es' → closed hd es → closed hd' es'.
Proof using.
  intros Hlg Hsh (Hle & pre & e & -> & Hc). rewrite blen_ser in *.
  rewrite shape_app in Hsh. symmetry in Hsh. apply fmap_app_inv in Hsh as (pre' & e' & Hpre & He & ->).
  destruct e' as [|e' [|]]; try done. injection He as He.
  assert (lsize (pre' ++ [e']) = lsize (pre ++ [e])) as Hl.
  { rewrite !lsize_snoc, (eshape_esize _ _ He). f_equal. symmetry. by apply shape_lsize. }
  split; [rewrite blen_ser, Hl, Hlg; done|]. exists pre', e'. split; [done|].
  rewrite blen_ser, Hl, Hlg in *. destruct (decide _).
  - destruct Hc as (? & ? & ? & ? & ->). destruct e'; try done. eauto.
  - subst e. by destruct e'.
Qed.

Lemma log_ok_shape hd es es' l : shape es = shape es' → log_ok hd es l → log_ok hd es' l.
Proof using.
  intros Hsh (Hcl & Hlg & Hv). split_and!; [|by eapply logged_shape|done]. by apply (closed_shape hd hd es).
Qed.

Lemma recoverable_shape hd es es' l keep :
  shape es = shape es' → recoverable hd es l keep → ∃ keep', shape keep = shape keep' ∧ recoverable hd es' l keep'.
Proof using.
  intros Hsh (Hlg & tail & -> & Hch).
  rewrite shape_app in Hsh. symmetry in Hsh. apply fmap_app_inv in Hsh as (keep' & tail' & Hk & Ht & ->).
  exists keep'. split; [done|]. split; [by eapply log_ok_shape|].
  exists tail'. split; [done|]. eapply Forall_shape; [apply is_change_shape|exact Ht|done].
Qed.

(** The parts recovery works on. *)
Lemma recoverable_parts hd es l keep :
  header_ok hd → recoverable hd es l keep → ∃ dps ino log tail,
    es = (ERec DUMMY [] [] dps :: ino) ++ log ++ tail ∧ keep = (ERec DUMMY [] [] dps :: ino) ++ log ∧
    length dps = maxl hd ∧ Forall is_inorder ino ∧
    logstart hd = DUMMY_OFFSET + DUMMY_SIZE (maxlevel hd) + lsize ino ∧
    let l0 := nodes_of (DUMMY_OFFSET + DUMMY_SIZE (maxlevel hd)) ino in
    nodes_ok (ERec DUMMY [] [] dps :: ino) (curl hd) (maxl hd) l0 ∧
    log_run (logstart hd) log l0 l ∧ Forall (lvl_ok (curl hd)) log ∧ committed log ∧ Forall is_change tail.
Proof using.
  intros Hh (((_ & pre & e & He & Hc) & (dps & ino & log & -> & Hd & Hin & Hls & Hno & Hrun & Hlv) & _) & tail & -> & Hch).
  exists dps, ino, log, tail. rewrite <- app_assoc. cbn zeta. split_and!; try done.
  destruct (decide (log = [])) as [->|Hne]; [by left|right].
  rewrite decide_False in Hc.
  - subst e. apply (f_equal last) in He. rewrite last_snoc in He.
    destruct log as [|a log]; [done|]. by rewrite last_app_cons in He.
  - rewrite Hls, blen_ser, lsize_app, lsize_cons, (esize_dummy hd) by done. destruct log as [|a log]; [done|].
    rewrite lsize_cons. pose proof (esize_pos a). pose proof (lsize_nonneg log). unfold DUMMY_OFFSET, HEADER_SIZE. lia.
Qed.

(** *** Dying in a transaction *)

Lemma wr_op_change hd es l hd' es' l' :
  wr_op (compar := compar) (keyok := keyok) hd es l hd' es' l' →
  ∃ e, shape es' = shape es ++ [eshape e] ∧ is_change e.
Proof using.
  intros []; unfold add_step, add_ptrs, del_step, del_ptrs; rewrite shape_app, shape_setps; by eexists.
Qed.

(** A transaction adds entries that are no commits. *)
Lemma wr_ops_changes hd0 es0 l0 hd es l :
  wr_ops hd0 es0 l0 hd es l → ∃ ms, shape es = shape es0 ++ shape ms ∧ Forall is_change ms.
Proof using.
  induction 1 as [|hd es l hd' es' l' _ (ms & Hsh & Hch) Hop]; [by exists []; rewrite app_nil_r|].
  destruct (wr_op_change _ _ _ _ _ _ Hop) as (e & He & Hce). exists (ms ++ [e]).
  rewrite He, Hsh, shape_app, <- app_assoc. split; [done|]. apply Forall_app. by split; [|constructor].
Qed.

(** The file [hdc], [esc] that is left when the process that has made [es] of
    [es0] dies before its [mycommit] is through with writing the last entry: the
    first [n] entries, with any pointers; the header is written before the entry
    that needs its level. *)
Record crashed (hd0 : header) (es0 : list entry) (hd : header) (es : list entry) (n : nat)
    (hdc : header) (esc : list entry) : Prop := {
  cr_header : ∃ c, hdc = set_curlevel c hd0 ∧ curlevel hd0 ≤ c ≤ maxlevel hd0 ∧ ((length es < n)%nat → curlevel hd ≤ c);
  cr_entries : shape esc = take n (shape (es ++ [ECommit]));
  cr_count : (length es0 ≤ n ≤ S (length es))%nat;
  cr_wf : wf_file esc;
}.

(** Recovery finds the transaction whole or not at all. *)
Lemma crashed_recoverable hd0 es0 l0 hd es l n hdc esc :
  header_ok hd0 → slist es0 (curl hd0) (maxl hd0) l0 → wf_file es0 → log_ok hd0 es0 l0 →
  wr_ops hd0 es0 l0 hd es l → crashed hd0 es0 hd es n hdc esc →
  header_ok hdc ∧ ∃ keep, recoverable hdc esc (if decide (n = S (length es)) then l else l0) keep.
Proof using KO.
  intros Hh Hsl Hwf Hlg Hops [(c & -> & Hc & Hcn) Hsh Hn _].
  destruct (wr_ops_inv _ _ _ _ _ _ Hh Hsl Hwf Hops) as (Hh' & _ & _ & _ & (c1 & -> & Hc1)).
  pose proof Hh as (? & ? & ? & ? & ? & ? & ?). pose proof Hh' as (_ & _ & ? & _).
  split; [unfold header_ok; cbn; split_and!; auto; lia|].
  assert (∃ es2 keep, shape es2 = shape esc ∧
    recoverable (set_curlevel c hd0) es2 (if decide (n = S (length es)) then l else l0) keep) as (es2 & keep & Hs2 & Hr).
  2: { destruct (recoverable_shape _ _ _ _ _ Hs2 Hr) as (keep' & _ & ?). by exists keep'. }
  destruct (decide (n = S (length es))) as [->|Hne].
  - exists (es ++ [ECommit]), (es ++ [ECommit]). split.
    + rewrite Hsh, take_ge; [done|]. unfold shape. rewrite length_fmap, length_app. cbn. lia.
    + split; [|by exists []; rewrite app_nil_r].
      pose proof (log_ok_commit _ _ _ _ _ _ Hh Hsl Hwf Hops Hlg) as Hlg'.
      apply (log_ok_level _ _ _ c) in Hlg'; [done|done|]. cbn in *. lia.
  - destruct (wr_ops_changes _ _ _ _ _ _ Hops) as (ms & Hms & Hch).
    exists (es0 ++ take (n - length es0) ms), es0. split.
    + rewrite Hsh, !shape_app, take_app_le by (unfold shape; rewrite length_fmap; lia). rewrite Hms, take_app.
      
      assert (length (shape es0) = length es0) as Hl by apply length_fmap.
      rewrite (take_ge (shape es0)), Hl by lia. f_equal. apply fmap_take.
    + split; [by apply log_ok_level|]. eexists. split; [done|]. by apply Forall_take.
Qed.

(** A list whose records are in a prefix of the file. *)
Lemma slist_prefix es tl c m l : nodes_ok es c m l → slist (es ++ tl) c m l → slist es c m l.
Proof using.
  intros Hno [_ Hl]. split; [done|]. intros i Hi. eapply links_ext; [|by apply Hl].
  intros x Hx. symmetry. eapply fwd_known; [done|]. by eapply in_at_lvl.
Qed.

Context `{E : Env}.
Context (Hcalls : ∀ n, fails n = false) (Hroom : 2147483648 ≤ file_limit).
Context (ino : Z) (others : gmap Z bytes) (nm : gmap bytes Z) (nx : Z) (name : bytes).
Abbreviation S_ := (S_ ino others nm nx name).
Abbreviation covers := (covers ino).

(** The test of the head. *)
Lemma dummy_good hd es dps mx :
  wf_file es → ent DUMMY_OFFSET es DUMMY_OFFSET = Some (ERec DUMMY [] [] dps) → Z.of_nat (length dps) = mx →
  (ty ← TYPE (ser hd es) DUMMY_OFFSET;
   if negb (ty =? DUMMY) then Ok true else
   kl ← KEYLEN (ser hd es) DUMMY_OFFSET;
   if negb (kl =? 0) then Ok true else
   dl ← DATALEN (ser hd es) DUMMY_OFFSET;
   if negb (dl =? 0) then Ok true else
   lvl ← LEVEL (ser hd es) DUMMY_OFFSET; Ok (negb (lvl =? mx))) = Ok false.
Proof using.
  intros Hwf He Hl. pose proof (ser_at hd _ _ _ He) as Hat. pose proof (wf_ent _ _ _ Hwf He) as Hwe.
  rewrite (TYPE_at _ _ _ _ _ _ Hat Hwe). cbn [mbind result_bind]. change (negb (DUMMY =? DUMMY)) with false.
  cbv iota. rewrite (KEYLEN_at _ _ _ _ _ _ Hat Hwe). cbn [mbind result_bind].
  change (negb (blen [] =? 0)) with false. cbv iota.
  rewrite (DATALEN_at _ _ _ _ _ _ Hat Hwe). cbn [mbind result_bind].
  change (negb (blen [] =? 0)) with false. cbv iota.
  rewrite (LEVEL_at _ _ _ _ _ _ Hat Hwe). cbn [mbind result_bind]. by rewrite Hl, Z.eqb_refl.
Qed.

Lemma wp_recover_records hd es l keep h Q g hl pos t :
  h = set_listsize (listsize h) hd → header_ok hd → wf_file es → covers g (ser hd es) →
  map_size g = blen (ser hd es) → recoverable hd es l keep →
  (∀ es' pos' t', shape es' = shape keep → wf_file es' → slist es' (curl hd) (maxl hd) l →
     Q 0 (S_ (ser hd es') (set_listsize (Z.of_nat (length l)) hd) g hl pos' t')) →
  wp (recover_records compar) Q (S_ (ser hd es) h g hl pos t).
Proof using KO Hcalls Hroom.
  intros Hh Hho Hwf Hc Hsz Hrec HQ.
  destruct (recoverable_parts _ _ _ _ Hho Hrec)
    as (dps & inos & log & tail & Hes & -> & Hd & Hin & Hls & Hno & Hrun & Hlv & Hcm & Hch). clear Hrec.
  set (pre := ERec DUMMY [] [] dps :: inos) in *. pose proof Hho as (_ & _ & Hcl & Hml & _).
  assert (Z.of_nat (maxl hd) = maxlevel hd) as Hmz by (unfold maxl; lia).
  assert (nodes_ok es (curl hd) (maxl hd) (nodes_of (DUMMY_OFFSET + DUMMY_SIZE (maxlevel hd)) inos)) as Hno'.
  { rewrite Hes. by eapply nodes_ok_shape. }
  assert (DUMMY_SIZE (maxlevel hd) = lsize [ERec DUMMY [] [] dps]) as Hds.
  { rewrite lsize_cons, (esize_dummy hd) by done. change (lsize []) with 0. lia. }
  assert (ent DUMMY_OFFSET es DUMMY_OFFSET = Some (ERec DUMMY [] [] dps)) as Hdm by (by rewrite Hes).
  unfold recover_records, modify_hdr. apply wp_bind. wstep. cbn [set_hdr hdr SkipRun.S_].
  change (set_hdr ?h' (S_ ?m ?h ?g ?hl ?p ?t)) with (S_ m h' g hl p t).
  replace (set_listsize 0 h) with (set_listsize 0 hd) by (rewrite Hh; done).
  wstep. cbn [hdr SkipRun.S_].
  apply wp_bind. eapply wp_read; [done|by apply (dummy_good hd es dps); [..|cbn [set_listsize maxlevel]; lia]|].
  cbv iota. apply wp_bind. eapply wp_read; [done|done|]. cbn [set_listsize maxlevel].
  apply wp_bind. rewrite Hds.
  eapply (wp_relink_inorder Hroom) with (pre := [ERec DUMMY [] [] dps]) (mid := inos) (dn := [])
    (post := log ++ tail) (m := maxl hd) (c := curl hd).
  { by rewrite Hes. } { done. } { by rewrite <- Hds. } { done. } { done. } { apply chained_nil. }
  { by apply (tails_nil es (maxlevel hd) dps). } { cbn [set_listsize logstart]. by rewrite <- Hds. }
  { assert (Z.of_nat (length inos) ≤ blen (ser hd es)) as Hlen; [|unfold blen in Hlen; lia].
    rewrite blen_ser, Hes, lsize_app. unfold pre. rewrite lsize_cons, lsize_app.
    pose proof (length_lsize inos). pose proof (lsize_nonneg log). pose proof (lsize_nonneg tail).
    pose proof (esize_pos (ERec DUMMY [] [] dps)). lia. }
  intros pos1 es1 u1 Hsh1 Hwf1 Hch1 Ht1. rewrite <- Hds in *.
  set (l0 := nodes_of (DUMMY_OFFSET + DUMMY_SIZE (maxlevel hd)) inos) in *. cbn [app Z.eqb negb] in *.
  apply wp_bind. change (Z.to_nat (maxlevel hd)) with (maxl hd).
  eapply (wp_zero_pointers Hroom); [done|done|]. intros pos2. cbn [Z.eqb negb].
  set (es2 := chain_end es1 (maxl hd) l0) in *.
  assert (shape es2 = shape es) as Hsh2 by (unfold es2, chain_end; by rewrite shape_setps).
  assert (wf_file es2) as Hwf2 by (apply wf_setps; [done|]; intros; unfold is_off; lia).
  assert (slist es2 (curl hd) (maxl hd) l0) as Hsl2.
  { assert (nodes_ok es2 (curl hd) (maxl hd) l0) as Hno2
      by (rewrite <- (app_nil_r es2); by eapply (nodes_ok_shape es)).
    split; [done|]. intros i Hi. apply chained_end; [done| |by eapply offs_nodup|done].
    intros j Hj. by eapply tails_some. }
  (* the parts of the file *)
  pose proof Hsh2 as Hparts. rewrite Hes, !shape_app in Hparts.
  apply fmap_app_inv in Hparts as (pre' & rest & Hpre & Hrest & Hes2).
  symmetry in Hrest. apply fmap_app_inv in Hrest as (log' & tail' & Hlog & Htail & ->).
  fold (shape pre') in Hpre. fold (shape log') in Hlog. fold (shape tail') in Htail. fold (shape pre) in Hpre.
  fold (shape log) in Hlog. fold (shape tail) in Htail.
  assert (new_off pre' = DUMMY_OFFSET + DUMMY_SIZE (maxlevel hd) + lsize inos) as Hoff.
  { unfold new_off. rewrite <- (shape_lsize _ _ Hpre). unfold pre. rewrite lsize_cons, (esize_dummy hd) by done. lia. }
  assert (slist pre' (curl hd) (maxl hd) l0) as Hsl'.
  { apply (slist_prefix pre' (log' ++ tail')); [|by rewrite <- Hes2].
    rewrite <- (app_nil_r pre'). by eapply nodes_ok_shape. }
  wstep. cbn [mp SkipRun.S_]. rewrite <- Hoff. rewrite Hes2 in Hwf2, Hsh2 |- *.
  assert (blen (ser hd (pre' ++ log' ++ tail')) = blen (ser hd es)) as Hb.
  { rewrite !blen_ser. by rewrite (shape_lsize _ _ Hsh2). }
  eapply (wp_replay_log Hcalls Hroom) with (l := l0) (l' := l).
  - rewrite Hoff, <- Hls. by eapply log_run_shape.
  - done.
  - by eapply covers_shape.
  - by rewrite Hb.
  - done.
  - eapply Forall_shape; [apply lvl_ok_shape|exact Hlog|done].
  - by eapply committed_shape.
  - eapply Forall_shape; [apply is_change_shape|exact Htail|done].
  - rewrite Hsz, <- Hb, blen_ser, !lsize_app. pose proof (length_lsize log').
    pose proof (lsize_nonneg pre'). pose proof (lsize_nonneg tail'). lia.
  - intros es' pos' t' Hsh' Hwf' Hsl3. cbn [listsize set_listsize].
    specialize (HQ es' pos' t').
    assert (shape es' = shape (pre ++ log)) as Hk by (rewrite Hsh', !shape_app, Hpre, Hlog; done).
    specialize (HQ Hk Hwf' Hsl3).
    assert (length l0 = length inos) as Hli.
    { unfold l0. clear -Hin. generalize (DUMMY_OFFSET + DUMMY_SIZE (maxlevel hd)). induction Hin as [|e es He _ IH];
        intros off; [done|]. destruct e; try done. cbn [nodes_of length]. by rewrite IH. }
    rewrite Hli. replace (0 + Z.of_nat (length inos) + Z.of_nat (length l) - Z.of_nat (length inos))
      with (Z.of_nat (length l)) by lia. exact HQ.
Qed.

(** ** [read_header] *)

Lemma rd_header_words hd es :
  let m := ser hd es in
  rd32 m OFFSET_VERSION = Ok (to_u32 (version hd)) ∧
  rd32 m OFFSET_VERSION_MINOR = Ok (to_u32 (version_minor hd)) ∧
  rd32 m OFFSET_MAXLEVEL = Ok (to_u32 (maxlevel hd)) ∧
  rd32 m OFFSET_LISTSIZE = Ok (to_u32 (listsize hd)) ∧
  rd32 m OFFSET_LOGSTART = Ok (to_u32 (logstart hd)) ∧
  rd32 m OFFSET_LASTRECOVERY = Ok (to_u32 (last_recovery hd)).
Proof using.
  cbn zeta. set (w := λ v, be32 (v hd)).
  assert (∀ off pre v post, header_bytes hd = pre ++ be32 v ++ post → blen pre = off →
    rd32 (ser hd es) off = Ok (to_u32 v)) as Hw by (intros; by eapply header_word).
  split_and!.
  - by eapply (Hw _ HEADER_MAGIC).
  - by eapply (Hw _ (HEADER_MAGIC ++ w version)).
  - by eapply (Hw _ (HEADER_MAGIC ++ w version ++ w version_minor)).
  - by eapply (Hw _ (HEADER_MAGIC ++ w version ++ w version_minor ++ w maxlevel ++ w curlevel)).
  - by eapply (Hw _ (HEADER_MAGIC ++ w version ++ w version_minor ++ w maxlevel ++ w curlevel ++ w listsize)).
  - eapply (Hw _ (HEADER_MAGIC ++ w version ++ w version_minor ++ w maxlevel ++ w curlevel ++ w listsize ++ w logstart)
      _ []); done.
Qed.

Lemma magic_at hd es : slice (ser hd es) 0 20 = Ok HEADER_MAGIC.
Proof using.
  apply (slice_at _ _ HEADER_MAGIC).
  - unfold ser, header_bytes. rewrite <- !app_assoc. apply (bytes_at_here []).
  - rewrite blen_ser. pose proof (lsize_nonneg es). change (blen HEADER_MAGIC) with 20. lia.
Qed.

Lemma s32_back v : is_s32 v → to_s32 (to_u32 v) = v.
Proof using. intros H. by rewrite to_s32_u32, to_s32_small. Qed.

Lemma wp_read_header hd es dps Q h g hl pos t :
  header_ok hd → version hd = SKIPLIST_VERSION → wf_file es → covers g (ser hd es) →
  ent DUMMY_OFFSET es DUMMY_OFFSET = Some (ERec DUMMY [] [] dps) → length dps = maxl hd →
  Q 0 (S_ (ser hd es) hd g hl pos t) →
  wp read_header Q (S_ (ser hd es) h g hl pos t).
Proof using.
  intros (Hv & Hvm & Hcl & Hml & Hli & Hlo & Hla) Hver Hwf Hc Hdm Hd HQ.
  destruct (rd_header_words hd es) as (H1 & H2 & H3 & H4 & H5 & H6). unfold is_off in Hlo.
  unfold read_header, modify_hdr. wstep. cbn [mp SkipRun.S_]. apply wp_bind, wp_assert.
  { destruct Hc as [_ Hc]. rewrite blen_ser in Hc. pose proof (lsize_nonneg es).
    destruct (Z.eqb_spec (map_len g) 0); [lia|done]. }
  apply wp_bind. eapply wp_read; [done|apply magic_at|]. rewrite bool_decide_true by done. cbn [negb].
  apply wp_bind. eapply wp_read; [done|exact H1|].
  apply wp_bind. eapply wp_read; [done|exact H2|]. wstep. cbn [set_hdr hdr SkipRun.S_].
  rewrite (s32_back (version hd)) by done. rewrite Hver, Z.eqb_refl. cbn [negb].
  apply wp_bind. eapply wp_read; [done|exact H3|]. wstep. cbn [set_hdr hdr SkipRun.S_].
  rewrite (s32_back (maxlevel hd)) by (unfold is_s32; lia).
  unfold SKIPLIST_MAXLEVEL. destruct (Z.ltb_spec 20 (maxlevel hd)); [lia|].
  apply wp_bind. eapply wp_read; [done|apply rd_curlevel|]. wstep. cbn [set_hdr hdr SkipRun.S_].
  rewrite (s32_back (curlevel hd)) by (unfold is_s32; lia).
  destruct (Z.ltb_spec (maxlevel hd) (curlevel hd)); [lia|].
  apply wp_bind. eapply wp_read; [done|exact H4|].
  apply wp_bind. eapply wp_read; [done|exact H5|].
  apply wp_bind. eapply wp_read; [done|exact H6|]. wstep. cbn [set_hdr hdr SkipRun.S_].
  rewrite (s32_back (version_minor hd)), (s32_back (listsize hd)), (s32_back (logstart hd)),
    (to_u32_small (last_recovery hd)) by (try done; unfold is_s32; lia).
  apply wp_bind. eapply wp_read; [done|apply (dummy_good hd es dps); [done|done|unfold maxl in Hd; lia]|].
  apply wp_ret.
  assert (hd = Hdr SKIPLIST_VERSION (version_minor hd) (maxlevel hd) (curlevel hd) (listsize hd) (logstart hd)
    (last_recovery hd)) as E' by (rewrite <- Hver; by destruct hd).
  unfold SkipRun.S_, set_hdr in *. cbn in *. by rewrite <- E'.
Qed.

(** ** [recovery] *)

Context (Hclock : ∀ n, is_u32 (clock n)).

(** The header recovery leaves. *)
Definition recovered (hd : header) (l : list node) (now : Z) : header :=
  set_last_recovery now (set_listsize (Z.of_nat (length l)) hd).

Lemma recovered_ok hd es l now :
  header_ok hd → wf_file es → slist es (curl hd) (maxl hd) l → is_u32 now → header_ok (recovered hd l now).
Proof using KO.
  intros (? & ? & ? & ? & _ & ? & _) [_ Hs] Hsl Hnow. unfold recovered. split_and!; cbn; try done; [lia..|].
  pose proof (nodes_few _ _ _ _ hd (sk_nodes _ _ _ _ Hsl)) as Hf. pose proof (blen_ser hd es) as Hb.
  unfold blen in Hb. unfold is_s32. unfold DUMMY_OFFSET, HEADER_SIZE in Hs. lia.
Qed.

Lemma recover_head hd es l keep :
  recoverable hd es l keep →
  ∃ dps, ent DUMMY_OFFSET es DUMMY_OFFSET = Some (ERec DUMMY [] [] dps) ∧ length dps = maxl hd.
Proof using. intros ((_ & (dps & ? & ? & -> & Hd & _) & _) & ? & -> & _). by exists dps. Qed.

(** Called with the lock held. *)
Lemma wp_recovery_locked hd es l keep h Q g hl pos t :
  header_ok hd → wf_file es → covers g (ser hd es) →
  map_size g = blen (ser hd es) → recoverable hd es l keep →
  (∀ es' now pos' t', let hd' := recovered hd l now in
     shape es' = shape keep → wf_file es' → slist es' (curl hd) (maxl hd) l → header_ok hd' →
     Q 0 (S_ (ser hd' es') hd' g hl pos' t')) →
  wp (recovery compar 0 (RECOVERY_FORCE + RECOVERY_CALLER_LOCKED)) Q (S_ (ser hd es) h g hl pos t).
Proof using KO Hcalls Hroom Hclock.
  intros Hho Hwf Hc Hsz Hrec HQ. pose proof Hrec as ((_ & _ & Hv) & _). unfold recovery. cbn zeta.
  change (Z.land _ RECOVERY_CALLER_LOCKED =? 0) with false.
  change (Z.land _ RECOVERY_FORCE =? 0) with false. cbn [negb andb].
  wstep. cbn [Z.ltb Z.compare].
  destruct (recover_head _ _ _ _ Hrec) as (dps & Hdm & Hd).
  apply wp_bind. eapply wp_read_header; [done..|]. cbn [Z.ltb Z.compare]. wstep. cbn [hdr SkipRun.S_].
  apply wp_bind. eapply wp_recover_records; [by destruct hd|done..|]. intros es' pos1 t1 Hsh Hwf' Hsl'.
  cbn [Z.eqb negb]. apply wp_bind, wp_bind, (wp_fsync Hcalls). intros t2. apply wp_ret.
  cbn [Z.eqb negb]. apply wp_bind, wp_bind, wp_time. unfold modify_hdr. wstep. cbn [set_hdr hdr SkipRun.S_].
  change (set_hdr ?h' (S_ ?m ?h ?g ?hl ?p ?t)) with (S_ m h' g hl p t).
  fold (recovered hd l (clock t2)). apply wp_bind, (wp_write_header Hroom).
  { destruct Hwf' as [_ Hs]. rewrite blen_ser. unfold DUMMY_OFFSET, HEADER_SIZE in Hs. lia. }
  intros pos2. apply wp_ret. cbn [Z.eqb negb].
  apply wp_bind, wp_bind, (wp_fsync Hcalls). intros t3. apply wp_ret. cbn [Z.eqb negb orb].
  apply wp_bind, wp_ret, wp_ret. apply HQ; try done. by eapply recovered_ok.
Qed.
End Crash.
