(* ===== verification/SkipSpec.v ===== *)
(** * SkipSpec: the backend is a transactional finite map

    The calls of [Skiplist] on an open database against the map it holds:
    [mystore] and [create] insert, [mydelete] deletes, a transaction is the
    sequence of its calls, [mycommit] makes its map the database's and [myabort]
    gives the map back that there was. *)
From S2P Require Import Prelude CMem.
From stdpp Require Import gmap sorting list.
From S2P Require Import CFile Prog DbFile CyrusDb BSearch Skiplist DbOrder SkipFile SkipList SkipStep SkipRun.
From S2P Require Import SkipFetch SkipWrite SkipScan SkipTxn SkipRecover SkipCheckpoint.
#[local] Open Scope Z_scope.

Section Spec.
Context `{E : Env} `{KO : KeyOrder compar keyok}.

Abbreviation slist := (slist (compar := compar) (keyok := keyok)).
Abbreviation above := (above (compar := compar)).
Abbreviation wr_op := (wr_op (compar := compar) (keyok := keyok)).
Abbreviation wr_ops := (wr_ops (compar := compar) (keyok := keyok)).
Abbreviation open_db := (open_db (compar := compar) (keyok := keyok)).
Abbreviation log_ok := (log_ok (compar := compar) (keyok := keyok)).
Abbreviation in_txn := (in_txn (compar := compar) (keyok := keyok)).

(** The transaction [x] began on the database [hd0], [es0], [l0]; its steps have
    made that [hd], [es], [l]. *)
Record live (s : st) (ino : Z) (hd0 : header) (es0 : list entry) (l0 : list node)
    (hd : header) (es : list entry) (l : list node) (x : txn) : Prop := {
  lv_txn : in_txn s ino hd es l x;
  lv_ops : wr_ops hd0 es0 l0 hd es l;
  lv_start : t_logstart x = blen (ser hd0 es0);
  lv_hd0 : header_ok hd0;
  lv_wf0 : wf_file es0;
  lv_list0 : slist es0 (curl hd0) (maxl hd0) l0;
  lv_log0 : log_ok hd0 es0 l0;
  lv_sync : t_logstart x ≠ t_logend x → syncfd x = true;
}.

Section Calls.
Context (Hcalls : ∀ n, fails n = false) (Hroom : 2147483648 ≤ file_limit).

Section State.
Context (ino : Z) (others : gmap Z bytes) (nm : gmap bytes Z) (nx : Z) (name : bytes).
Abbreviation S_ := (S_ ino others nm nx name).
Abbreviation covers := (covers ino).

(** A transaction begins: the log is closed, so there is nothing to recover. *)
Lemma wp_start_write tid c hd es Q g hl pos t :
  (tid = NoTid ∨ tid = NewTid) → c ≠ 0 → header_ok hd → wf_file es → closed hd es →
  mapping_ok ino g → nm !! name = Some ino →
  (∀ g' t', fresh ino g' (ser hd es) →
     Q (0, Txn false (blen (ser hd es)) (blen (ser hd es)))
       (S_ (ser hd es) hd g' (<[ino := LExclusive]> hl) pos t')) →
  wp (start_write compar tid) Q (S_ (ser hd es) (set_curlevel c hd) g hl pos t).
Proof using Hcalls.
  intros Htid Hc Hh Hwf Hcl Hg Hn HQ.
  assert (start_write compar tid = start_write compar NoTid) as -> by (by destruct Htid as [->| ->]).
  unfold start_write. apply wp_bind, (wp_write_lock Hcalls); [done..|]. intros g' t' Hcov Hsz Hino.
  rewrite open_refresh by done. cbn [Z.ltb Z.compare]. wstep. cbn [mp SkipRun.S_]. wstep. cbn [hdr SkipRun.S_].
  rewrite Hsz. apply wp_bind. eapply wp_read; [done|by apply closed_safe|]. cbv iota. wstep.
  cbn [Z.ltb Z.compare]. unfold newtxn. apply wp_bind. wstep. cbn [mp SkipRun.S_]. rewrite Hsz.
  by do 2 wstep; apply HQ.
Qed.

Context (hd : header) (es : list entry) (l : list node).
Context (Hhd : header_ok hd) (Hwf : wf_file es) (Hsl : slist es (curl hd) (maxl hd) l).
Abbreviation wrote := (wrote (compar := compar) (keyok := keyok) ino others nm nx name hd es l).

Lemma store_ok k d overwrite x Q g hl pos t :
  covers g (ser hd es) → keyok k → room hd es k d → t_logend x = blen (ser hd es) →
  overwrite = true ∨ contents l !! k = None →
  wrote x (λ x', Q (0, x')) k (λ m, <[k := d]> m) (8 + rsize k d 20) g hl →
  wp (store_entry compar k d overwrite x) Q (S_ (ser hd es) hd g hl pos t).
Proof using Hhd Hwf Hsl KO Hroom.
  intros Hc Hk Hr Hx Hov HQ. destruct (contents l !! k) as [d0|] eqn:Hd.
  - destruct Hov as [->|?]; [|done]. by eapply store_replace.
  - by eapply store_new.
Qed.

(** [myabort] *)
Lemma wp_myabort hd0 es0 l0 x Q g hl pos t :
  header_ok hd0 → slist es0 (curl hd0) (maxl hd0) l0 → wf_file es0 → wr_ops hd0 es0 l0 hd es l →
  t_logstart x = blen (ser hd0 es0) → t_logend x = blen (ser hd es) → covers g (ser hd es) →
  (∀ pos' t', Q 0 (S_ (ser hd es0) hd (set_map_size (t_logstart x) g) (delete ino hl) pos' t')) →
  wp (myabort compar x) Q (S_ (ser hd es) hd g hl pos t).
Proof using Hhd Hwf Hsl KO Hcalls Hroom.
  intros Hh0 Hsl0 Hwf0 Hops Hs He Hc HQ. unfold myabort.
  destruct (wr_ops_inv _ _ _ _ _ _ Hh0 Hsl0 Hwf0 Hops) as (_ & _ & _ & _ & (c & Hhd' & Hcc)).
  assert (blen (ser hd es0) = t_logstart x) as Hb by (by rewrite Hs, !blen_ser).
  apply wp_bind. rewrite <- (app_nil_r es) at 1.
  assert (wp (undo_log compar (S (Z.to_nat (t_logend x))) (blen (ser hd0 es0)) (blen (ser hd es)))
    (λ _ s', wp (r ← ftruncate (t_logstart x);
                 if r <? 0 then _ ← unlock; mret CYRUSDB_IOERROR else
                 set_msize (t_logstart x);; unlock) Q s') (S_ (ser hd (es ++ [])) hd g hl pos t)) as Hu.
  2: { by rewrite Hs, He in *. }
  pose proof Hhd as (_ & _ & ? & _).
  eapply (wp_undo_log Hroom); try done; rewrite ?app_nil_r; try done.
  - assert (maxlevel hd = maxlevel hd0) by by subst hd. lia.
  - by subst hd.
  - rewrite He, !blen_ser. pose proof (lsize_nonneg es). pose proof (lsize_nonneg es0). lia.
  - intros pos' tl' _ _. apply wp_bind. rewrite <- Hb. apply (wp_ftruncate Hcalls). intros t'.
    rewrite Hb. cbn [Z.ltb Z.compare]. unfold set_msize. wstep. apply (wp_unlock Hcalls).
    apply HQ.
Qed.

(** [mycommit], with the checkpoint when the log is long. *)
Lemma wp_mycommit x Q g hl pos t :
  version hd = SKIPLIST_VERSION → nm !! name = Some ino → no_new nm nx name ino →
  (map_len g ≠ 0 → map_of g = ino) → map_ino g = ino → t_logend x = blen (ser hd es) →
  blen (ser hd es) + 4 < 2147483648 → (t_logstart x ≠ t_logend x → syncfd x = true) →
  let tl := if decide (t_logstart x = t_logend x) then [] else [ECommit] in
  (∀ g' pos' t', covers g' (ser hd es) → map_ino g' = map_ino g →
     Q 0 (S_ (ser hd (es ++ tl)) hd g' (delete ino hl) pos' t')) →
  (∀ g' pos' t' es' l' hd',
     wf_file es' → slist es' (curl hd') (maxl hd') l' → header_ok hd' → log_ok hd' es' l' →
     contents l' = contents l → blen (ser hd' es') ≤ blen (ser hd (es ++ tl)) → fresh nx g' (ser hd' es') →
     Q 0 (SkipRun.S_ nx (<[ino := ser hd (es ++ tl)]> others) (<[name := nx]> nm) (nx + 1) name (ser hd' es') hd' g'
            (delete nx (delete ino (<[nx := LExclusive]> hl))) pos' t')) →
  wp (mycommit compar x) Q (S_ (ser hd es) hd g hl pos t).
Proof using Hhd Hwf Hsl KO Hcalls Hroom.
  intros Hv Hn Hnew Hg Hgi He Hsz Hsync tl HQ HQ'. unfold mycommit.
  pose proof (blen_ser hd es) as Hb. pose proof (lsize_nonneg es).
  apply wp_bind, wp_update_lock; [done|lia|]. intros g' H1 H2 H3 H4.
  assert (covers g' (ser hd es)) as Hcov by (split; [done|lia]).
  assert (wf_file (es ++ tl)) as Hwf'.
  { unfold tl. destruct (decide _); [by rewrite app_nil_r|]. apply wf_snoc; [done|done|].
    change (esize ECommit) with 4. unfold DUMMY_OFFSET, HEADER_SIZE. lia. }
  assert (∀ es' pos' t', es' = es ++ tl →
    wp (h ← get hdr;
        r ← (if (0 =? 0) && (to_s32 (2 * logstart h + SKIPLIST_MINREWRITE) <? t_logend x)
             then mycheckpoint compar true else mret 0);
        if negb (r =? 0) then _ ← myabort compar x; mret r else unlock) Q
      (S_ (ser hd es') hd g' hl pos' t')) as Hend.
  { intros es' pos' t' ->. wstep. cbn [hdr SkipRun.S_ Z.eqb andb].
    destruct (_ <? t_logend x).
    2: { wstep. cbn [Z.eqb negb]. apply (wp_unlock Hcalls), HQ; done. }
    apply wp_bind. eapply (wp_mycheckpoint Hcalls Hroom);
      [done|done|done|by apply slist_app|done|done|done|congruence|rewrite H3; lia| |].
    { rewrite H3, He. by eapply nodes_inside, (sk_nodes _ _ _ _ Hsl). }
    intros g2 pos2 t2 es2 l2 hd2 ? ? ? ? _ ? ? ?. cbn [Z.eqb negb]. apply (wp_unlock Hcalls).
    eapply HQ'; try done. rewrite !blen_ser. lia. }
  apply wp_bind. destruct (Z.eqb_spec (t_logstart x) (t_logend x)) as [E'|E'].
  { apply wp_ret, Hend. unfold tl. rewrite decide_True by done. by rewrite app_nil_r. }
  apply wp_bind, (wp_fsync Hcalls). intros t1. cbv iota. apply wp_bind, wp_assert; [by apply Hsync|].
  eapply (wp_append Hroom) with (tl := [ECommit]); [done|done|done|blia|]. intros pos'.
  apply wp_bind, (wp_fsync Hcalls). intros t2. apply wp_ret, Hend. unfold tl. by rewrite decide_False.
Qed.
End State.

(** *** The calls on states *)

Lemma live_S s ino hd0 es0 l0 hd es l x :
  live s ino hd0 es0 l0 hd es l x → ∃ pos,
    s = S_ ino (inodes (fs s)) (names (fs s)) (nextino (fs s)) (fname s) (ser hd es)
          hd (mp s) (held (fs s)) pos (ticks (fs s)).
Proof using. intros H. eapply in_txn_S, lv_txn, H. Qed.

(** What an operation that wrote makes of a transaction. *)
Lemma wrote_live s ino hd0 es0 l0 hd es l x k f cost :
  live s ino hd0 es0 l0 hd es l x →
  ∀ Q : txn → st → Prop,
  (∀ x' s' hd' es' l', live s' ino hd0 es0 l0 hd' es' l' x' → contents l' = f (contents l) →
     blen (ser hd' es') ≤ blen (ser hd es) + cost → Q x' s') →
  wrote (compar := compar) (keyok := keyok) ino (inodes (fs s)) (names (fs s)) (nextino (fs s)) (fname s)
    hd es l x Q k f cost (mp s) (held (fs s)).
Proof using KO.
  intros [[_ Hfile Hn _ (Hm1 & Hm2 & Hm3) Hh Hwf Hsl Hheld Hlog] Hops Hst Hh0 Hwf0 Hsl0 Hcl Hsync] Q HQ.
  intros hd' es' l' pos' t' x' Hop Hcont Hend Hst' Hs' Hcost.
  assert (wr_ops hd0 es0 l0 hd' es' l') as Hops'.
  { destruct Hop as [Hop|(hd1 & es1 & l1 & Ho1 & Ho2)]; [by eapply ops_snoc|].
    eapply ops_snoc; [|done]. by eapply ops_snoc. }
  destruct (wr_ops_inv _ _ _ _ _ _ Hh0 Hsl0 Hwf0 Hops') as (Hh' & Hsl' & Hwf' & _ & _).
  eapply HQ; [|done|by rewrite <- Hend, <- Hlog]. split; try done; [|congruence].
  by apply S_in_txn.
Qed.

(** An open database between transactions. *)
Definition ready (s : st) (ino : Z) (hd : header) (es : list entry) (l : list node) : Prop :=
  open_db s ino hd es l ∧ log_ok hd es l.

Lemma ready_start tid s ino hd es l :
  tid = NoTid ∨ tid = NewTid → ready s ino hd es l →
  wp (start_write compar tid) (λ a s', ∃ x, a = (0, x) ∧ live s' ino hd es l hd es l x ∧
    covers ino (mp s') (ser hd es)) s.
Proof using Hcalls.
  intros Ht [Ho Hlg]. pose proof Ho as [_ Hfile _ _ Hm Hh Hwf Hsl]. pose proof Hlg as (Hcl & _).
  destruct (open_db_S _ _ _ _ _ Ho) as (c & pos & Hc & Hn & ->). cbn in Hfile.
  apply wp_start_write; try done. intros g' t' Hf. eexists. split; [done|].
  destruct (fresh_ok ino g' hd es) as [_ ?]; [done|]. destruct Hf as ([? ?] & ? & ?).
  split; [|done]. split; try done; [|constructor].
  apply S_in_txn; try done. by rewrite lookup_insert_eq.
Qed.

Lemma live_update s ino hd0 es0 l0 hd es l x :
  live s ino hd0 es0 l0 hd es l x →
  wp (update_lock x) (λ _ s', live s' ino hd0 es0 l0 hd es l x ∧ covers ino (mp s') (ser hd es)) s.
Proof using.
  intros Hl. pose proof Hl as [Hin ? ? ? ? ? ? ?]. destruct (live_S _ _ _ _ _ _ _ _ _ Hl) as [pos E'].
  pose proof Hin as [_ Hfile Hn _ (Hm1 & Hm2 & Hm3) Hh Hwf Hsl Hheld Hlog].
  rewrite E'. clear E'. pose proof (blen_ser hd es). pose proof (lsize_nonneg es).
  apply wp_update_lock; [done|lia|]. intros g' G1 G2 G3 G4.
  assert (covers ino g' (ser hd es)) as Hcov by (split; [done|lia]). split; [|done].
  split; try done. apply S_in_txn; try done; [congruence|lia].
Qed.

(** [mystore] past its start. *)
Lemma live_store s ino hd0 es0 l0 hd es l x k d overwrite :
  live s ino hd0 es0 l0 hd es l x → covers ino (mp s) (ser hd es) → keyok k → room hd es k d →
  overwrite = true ∨ contents l !! k = None →
  wp (store_entry compar k d overwrite x) (λ a s', ∃ x' hd' es' l', a = (0, x') ∧
    live s' ino hd0 es0 l0 hd' es' l' x' ∧ contents l' = <[k := d]> (contents l) ∧
    blen (ser hd' es') ≤ blen (ser hd es) + (8 + rsize k d 20)) s.
Proof using KO Hroom.
  intros Hl Hc Hk Hr Hov. pose proof Hl as [[_ _ _ _ _ Hh Hwf Hsl _ Hlog] ? ? ? ? ? ? ?].
  destruct (live_S _ _ _ _ _ _ _ _ _ Hl) as [pos E']. rewrite E'.
  eapply store_ok; try done. eapply (wrote_live s); [done|]. intros. eauto 10.
Qed.

Lemma live_abort s ino hd0 es0 l0 hd es l x :
  live s ino hd0 es0 l0 hd es l x → covers ino (mp s) (ser hd es) →
  wp (myabort compar x) (λ r s', r = 0 ∧ (∃ c, hd = set_curlevel c hd0) ∧ ready s' ino hd es0 l0 ∧
    held (fs s') = delete ino (held (fs s))) s.
Proof using KO Hcalls Hroom.
  intros Hl Hc. pose proof Hl as [Hin Hops Hst Hh0 Hwf0 Hsl0 Hcl Hsync].
  pose proof Hin as [_ Hfile Hn _ (Hm1 & Hm2 & Hm3) Hh Hwf Hsl Hheld Hlog].
  destruct (wr_ops_inv _ _ _ _ _ _ Hh0 Hsl0 Hwf0 Hops) as (_ & _ & _ & _ & (c & Hhd & Hcc)).
  destruct (live_S _ _ _ _ _ _ _ _ _ Hl) as [pos E']. rewrite E'.
  eapply wp_myabort with (hd0 := hd0) (es0 := es0); try done. intros pos' t'. split; [done|]. split; [eauto|]. split; [|done].
  pose proof Hh as (_ & _ & ? & _). pose proof Hh0 as (_ & _ & ? & _).
  assert (maxlevel hd = maxlevel hd0) as Hmm by by subst hd. split.
  - apply S_open_db; try done; [|split; [cbn; lia|by right]].
    replace (maxl hd) with (maxl hd0) by (unfold maxl; by rewrite Hmm).
    eapply slist_curl; [done|]. unfold curl, maxl. subst hd. cbn in *. lia.
  - subst hd. apply log_ok_level; [done|done|]. cbn in *. lia.
Qed.

(** A transaction that has written nothing has nothing to undo, whatever is mapped. *)
Lemma live_abort_read s ino hd es l x :
  live s ino hd es l hd es l x → wp (myabort compar x) (λ r s', r = 0 ∧ ready s' ino hd es l) s.
Proof using KO Hcalls Hroom.
  intros Hl. pose proof Hl as [Hin _ Hst _ _ _ Hlg _].
  pose proof Hin as [_ Hfile Hn _ (Hm1 & Hm2 & Hm3) Hh Hwf Hsl Hheld Hlog].
  destruct (live_S _ _ _ _ _ _ _ _ _ Hl) as [pos E']. rewrite E'.
  unfold myabort. rewrite Hst, Hlog. apply wp_bind. cbn [undo_log]. rewrite Z.eqb_refl. apply wp_ret.
  apply wp_bind. replace (ser hd es) with (ser hd (es ++ [])) at 2 by by rewrite app_nil_r.
  apply (wp_ftruncate Hcalls). intros t'.
  cbn [Z.ltb Z.compare]. unfold set_msize. wstep. apply (wp_unlock Hcalls). split; [done|]. split; [|done].
  apply S_open_db; try done. split; [cbn; lia|by right].
Qed.

(** A refused [create] aborts the transaction. *)
Lemma live_exists s ino hd0 es0 l0 hd es l x k d :
  live s ino hd0 es0 l0 hd es l x → covers ino (mp s) (ser hd es) → keyok k → is_Some (contents l !! k) →
  wp (store_entry compar k d false x) (λ a s', a = (CYRUSDB_EXISTS, x) ∧
    (∃ c, hd = set_curlevel c hd0) ∧ ready s' ino hd es0 l0 ∧ held (fs s') = delete ino (held (fs s))) s.
Proof using KO Hcalls Hroom.
  intros Hl Hc Hk [d0 Hd]. pose proof Hl as [[_ _ _ _ _ Hh Hwf Hsl _ Hlog] ? ? ? ? ? ? ?].
  pose proof (live_S _ _ _ _ _ _ _ _ _ Hl) as [pos E']. rewrite E'.
  unfold store_entry. apply wp_bind. eapply wp_find_key; [done..|].
  rewrite (contents_lookup _ _ _ _ _ Hsl Hk) in Hd. unfold found.
  destruct (above k l) as [|y rest]; [done|]. case_decide; [|done].
  rewrite bool_decide_true by done. cbn [andb negb]. rewrite <- E'. apply wp_bind.
  eapply wp_mono; [by eapply live_abort|]. intros r s' (_ & ? & ? & ?). by apply wp_ret.
Qed.

(** Deletion, of a key that is there or has a greater one after it. *)
Lemma live_delete s ino hd0 es0 l0 hd es l x k :
  live s ino hd0 es0 l0 hd es l x → covers ino (mp s) (ser hd es) → keyok k →
  blen (ser hd es) + 8 < 2147483648 → above k l ≠ [] →
  wp (delete_entry compar k x) (λ x' s', ∃ hd' es' l', live s' ino hd0 es0 l0 hd' es' l' x' ∧
    contents l' = delete k (contents l) ∧ blen (ser hd' es') ≤ blen (ser hd es) + 8) s.
Proof using KO Hroom.
  intros Hl Hc Hk Hr Hab. pose proof Hl as [[_ _ _ _ _ Hh Hwf Hsl _ Hlog] ? ? ? ? ? ? ?].
  destruct (live_S _ _ _ _ _ _ _ _ _ Hl) as [pos E'].
  destruct (contents l !! k) as [d0|] eqn:Hd; rewrite E'.
  - eapply delete_found; try done. eapply (wrote_live s); [done|]. intros. eauto 10.
  - eapply delete_absent; try done. rewrite <- E'. exists hd, es, l.
    split; [done|]. split; [by rewrite delete_id|lia].
Qed.

Lemma live_commit s ino hd0 es0 l0 hd es l x :
  live s ino hd0 es0 l0 hd es l x → blen (ser hd es) + 4 < 2147483648 →
  wp (mycommit compar x) (λ r s', r = 0 ∧ ∃ ino' hd' es' l', ready s' ino' hd' es' l' ∧ contents l' = contents l ∧
    blen (ser hd' es') ≤ blen (ser hd es) + 4 ∧ held (fs s') !! ino' = None ∧
    (ino' ≠ ino ∨ blen (ser hd es) ≤ blen (ser hd' es'))) s.
Proof using KO Hcalls Hroom.
  intros Hl Hsz. pose proof Hl as [Hin Hops Hst Hh0 Hwf0 Hsl0 Hcl Hsync].
  pose proof Hin as [_ Hfile Hn _ (Hm1 & Hm2 & Hm3) Hh Hwf Hsl Hheld Hlog Hnew].
  destruct (wr_ops_inv _ _ _ _ _ _ Hh0 Hsl0 Hwf0 Hops) as (_ & _ & _ & _ & (c & Hhd & Hcc)).
  assert (version hd = SKIPLIST_VERSION) as Hv by (subst hd; apply Hcl).
  destruct (live_S _ _ _ _ _ _ _ _ _ Hl) as [pos E']. rewrite E'. pose proof Hnew as [Hnn Hnx].
  assert (blen (ser hd (es ++ if decide (t_logstart x = t_logend x) then [] else [ECommit])) ≤ blen (ser hd es) + 4) as Htl.
  { rewrite !blen_ser. case_decide; [rewrite app_nil_r|rewrite lsize_snoc; change (esize ECommit) with 4]; lia. }
  apply wp_mycommit with (l := l); try done.
  - intros g' pos' t' Hcov Hi. split; [done|]. set (tl := if decide _ then _ else _).
    exists ino, hd, (es ++ tl), l. split; [split|split; [done|split; [|split; [apply lookup_delete_eq|right]]]].
    3: exact Htl.
    3: rewrite !blen_ser; unfold tl; case_decide; [by rewrite app_nil_r|rewrite lsize_snoc; change (esize ECommit) with 4; lia].
    all: rewrite blen_ser in Hsz.
    + apply S_open_db; try done.
      * unfold tl. destruct (decide (t_logstart x = t_logend x)); [by rewrite app_nil_r|]. apply wf_snoc; [done|done|].
        change (esize ECommit) with 4. unfold DUMMY_OFFSET, HEADER_SIZE. lia.
      * by apply slist_app.
      * destruct Hcov. pose proof (blen_nonneg (ser hd es)). split; [lia|by right].
    + unfold tl. destruct (decide (t_logstart x = t_logend x)) as [Heq|Hne];
        [|exact (log_ok_commit _ _ _ _ _ _ Hh0 Hsl0 Hwf0 Hops Hcl)].
      rewrite app_nil_r. destruct (wr_ops_size _ _ _ _ _ _ Hops) as [(-> & -> & ->)|]; [done|].
      rewrite Hst, Hlog, !blen_ser in Heq. lia.
  - intros g' pos' t' es' l' hd' Hwf' Hsl' Hh' Hlg' Hcont Hle Hf. split; [done|].
    exists (nextino (fs s)), hd', es', l'. split; [split; [|done]|split_and!; [done|lia|apply lookup_delete_eq|by left]].
    apply S_open_db; try done; [apply lookup_insert_eq| |by eapply fresh_ok].
    split; [|lia]. rewrite lookup_insert_ne; [done|]. intros Heq. rewrite <- Heq in Hnn. congruence.
Qed.

(** [mycheckpoint] of an open database. *)
Lemma checkpoint_ok s ino hd es l x :
  in_txn s ino hd es l x → version hd = SKIPLIST_VERSION → map_size (mp s) = blen (ser hd es) →
  wp (mycheckpoint compar true) (λ r s', r = 0 ∧
    ∃ hd' es' l', let ino' := nextino (fs s) in
      ready s' ino' hd' es' l' ∧ contents l' = contents l ∧
      logstart hd' = blen (ser hd' es') ∧ blen (ser hd' es') ≤ blen (ser hd es) ∧
      held (fs s') !! ino' = Some LExclusive ∧
      inodes (fs s') !! ino = Some (ser hd es) ∧ held (fs s') !! ino = None) s.
Proof using KO Hcalls Hroom.
  intros Hin Hv Hsz. pose proof Hin as [_ _ Hn _ (Hm1 & Hm2 & _) Hh Hwf Hsl _ _ [Hnn Hnx]].
  destruct (in_txn_S _ _ _ _ _ _ Hin) as [pos E']. refine (eq_ind_r (wp _ _) _ E').
  eapply (wp_mycheckpoint Hcalls Hroom); try done; [rewrite Hsz; apply blen_nonneg| |].
  { rewrite Hsz. by eapply nodes_inside, (sk_nodes _ _ _ _ Hsl). }
  intros g' pos' t' es' l' hd' Hwf' Hsl' Hh' Hlg' Hls Hle Hcont Hf. split; [done|]. exists hd', es', l'. cbn zeta.
  destruct (fresh_ok _ _ _ _ Hf) as [Hg _]. pose proof (blen_ser hd es). pose proof (blen_ser hd' es').
  split_and!; [split; [|done]|done|done|lia|..].
  - apply S_open_db; try done; [apply lookup_insert_eq|].
    split; [|lia]. rewrite lookup_insert_ne; [done|]. intros Heq. rewrite <- Heq in Hnn. congruence.
  - cbn. rewrite lookup_delete_ne by done. apply lookup_insert_eq.
  - cbn. rewrite lookup_insert_ne by done. apply lookup_insert_eq.
  - cbn. apply lookup_delete_eq.
Qed.
End Calls.
End Spec.
