(* ===== verification/SkipOpen.v ===== *)
(** * SkipOpen: opening a database

    [myopen] of a file a crash may have left behind recovers it; [myopen] of a
    name that is not there makes an empty database. *)
From S2P Require Import Prelude CMem.
From stdpp Require Import gmap sorting list.
From S2P Require Import CFile Prog DbFile CyrusDb BSearch Skiplist DbOrder SkipFile SkipList SkipStep SkipRun.
From S2P Require Import SkipFetch SkipWrite SkipTxn SkipRecover SkipReplay SkipCrash SkipCheckpoint SkipSpec.
#[local] Open Scope Z_scope.

(** The head of a new file. *)
Definition new_dummy : entry := ERec DUMMY [] [] (replicate 20 0).

Lemma dummy_bytes_entry : dummy_bytes SKIPLIST_MAXLEVEL = ebytes new_dummy.
Proof. vm_compute. reflexivity. Qed.

Section Open.
Context `{E : Env} `{KO : KeyOrder compar keyok}.
Context (Hcalls : ∀ n, fails n = false) (Hroom : 2147483648 ≤ file_limit) (Hclock : ∀ n, is_u32 (clock n)).

Abbreviation slist := (slist (compar := compar) (keyok := keyok)).
Abbreviation nodes_ok := (nodes_ok (compar := compar) (keyok := keyok)).
Abbreviation log_ok := (log_ok (compar := compar) (keyok := keyok)).
Abbreviation recoverable := (recoverable (compar := compar) (keyok := keyok)).
Abbreviation ready := (ready (compar := compar) (keyok := keyok)).
Abbreviation wr_ops := (wr_ops (compar := compar) (keyok := keyok)).

Section State.
Context (ino : Z) (others : gmap Z bytes) (nm : gmap bytes Z) (nx : Z) (name : bytes).
Abbreviation S_ := (S_ ino others nm nx name).
Abbreviation covers := (covers ino).
Context (Hname : nm !! name = Some ino).

(** [recovery] as [myopen] calls it. *)
Lemma wp_recovery_open hd es l keep global Q g hl pos t :
  header_ok hd → wf_file es → mapping_ok ino g →
  recoverable hd es l keep → global = 0 ∨ last_recovery hd < global →
  (∀ es' now g' pos' t', let hd' := recovered hd l now in
     shape es' = shape keep → wf_file es' → slist es' (curl hd) (maxl hd) l → header_ok hd' →
     mapping_ok ino g' → 0 < map_len g' →
     Q 0 (S_ (ser hd' es') hd' g' (delete ino hl) pos' t')) →
  wp (recovery compar global 0) Q (S_ (ser hd es) hd g hl pos t).
Proof using KO Hcalls Hroom Hclock Hname.
  intros Hho Hwf Hg Hrec Hgl HQ. pose proof Hrec as ((_ & _ & Hv) & _). unfold recovery. cbn zeta.
  change (Z.land 0 RECOVERY_CALLER_LOCKED =? 0) with true.
  change (Z.land 0 RECOVERY_FORCE =? 0) with true. cbn [negb andb].
  apply wp_bind, (wp_write_lock Hcalls); [done..|]. intros g1 t1 Hc1 Hs1 Hi1.
  assert ((if curlevel hd =? 0 then hd else set_curlevel (curlevel hd) hd) = hd) as ->
    by (destruct (curlevel hd =? 0); [done|apply set_curlevel_same]).
  cbn [Z.ltb Z.compare].
  destruct (recover_head _ _ _ _ Hrec) as (dps & Hdm & Hd).
  apply wp_bind. eapply wp_read_header; [done..|]. cbn [Z.ltb Z.compare]. wstep. cbn [hdr SkipRun.S_].
  replace (negb (global =? 0) && (global <=? last_recovery hd)) with false
    by (destruct Hgl as [->|]; [done|]; destruct (Z.leb_spec global (last_recovery hd)); [lia|by rewrite andb_false_r]).
  apply wp_bind. eapply (wp_recover_records Hcalls Hroom); [by destruct hd|done..|]. intros es' pos1 t2 Hsh Hwf' Hsl'.
  cbn [Z.eqb negb]. apply wp_bind, wp_bind, (wp_fsync Hcalls). intros t3. apply wp_ret.
  cbn [Z.eqb negb]. apply wp_bind, wp_bind, wp_time. unfold modify_hdr. wstep. cbn [set_hdr hdr SkipRun.S_].
  change (set_hdr ?h' (SkipRun.S_ ino others nm nx name ?m ?h ?g ?hl ?p ?t)) with (S_ m h' g hl p t).
  fold (recovered hd l (clock t3)). apply wp_bind, (wp_write_header Hroom).
  { destruct Hwf' as [_ Hs]. rewrite blen_ser. unfold DUMMY_OFFSET, HEADER_SIZE in Hs. lia. }
  intros pos2. apply wp_ret. cbn [Z.eqb negb].
  apply wp_bind, wp_bind, (wp_fsync Hcalls). intros t4. apply wp_ret. cbn [Z.eqb negb orb].
  apply wp_bind, wp_bind, (wp_unlock Hcalls), wp_ret, wp_ret. rewrite delete_insert_eq.
  destruct Hc1 as [Ho1 Hl1]. pose proof (blen_ser hd es). pose proof (lsize_nonneg es).
  apply HQ; try done; [by eapply recovered_ok|split; [lia|by right]|lia].
Qed.

(** The second turn of [retry:], on a file with a header. *)
Lemma wp_open_loop hd es dps new Q fuel h g hl pos t :
  header_ok hd → version hd = SKIPLIST_VERSION → wf_file es → mapping_ok ino g →
  ent DUMMY_OFFSET es DUMMY_OFFSET = Some (ERec DUMMY [] [] dps) → length dps = maxl hd →
  (∀ g' t', mapping_ok ino g' → Q 0 (S_ (ser hd es) hd g' (delete ino hl) pos t')) →
  wp (open_loop (S fuel) new) Q (S_ (ser hd es) h g hl pos t).
Proof using Hcalls Hname.
  intros Hho Hv Hwf Hg Hdm Hd HQ. cbn [open_loop]. unfold modify_hdr. apply wp_bind. wstep.
  cbn [set_hdr hdr SkipRun.S_].
  change (set_hdr ?h' (SkipRun.S_ ino others nm nx name ?m ?h ?g ?hl ?p ?t)) with (S_ m h' g hl p t).
  set (h0 := set_curlevel 0 h). pose proof (blen_ser hd es) as Hb. pose proof (lsize_nonneg es).
  assert (∀ lk g' t', covers g' (ser hd es) → map_size g' = blen (ser hd es) → map_ino g' = ino →
    wp (if (0 <? 0) then dispose_db;; mret 0 else
        size ← get (λ s, map_size (mp s));
        (if new && (size =? 0) then _ ← init_file; mret tt else mret tt);;
        if size =? 0 then _ ← unlock; open_loop fuel true else
        r ← read_header;
        if negb (r =? 0) then dispose_db;; mret r else
        _ ← unlock; mret 0) Q (S_ (ser hd es) h0 g' (<[ino := lk]> hl) pos t')) as Hrest.
  { intros lk g' t' Hc Hs Hi. cbn [Z.ltb Z.compare]. wstep. cbn [mp SkipRun.S_]. rewrite Hs.
    destruct (Z.eqb_spec (blen (ser hd es)) 0); [lia|]. rewrite andb_false_r. wstep.
    apply wp_bind. eapply wp_read_header; [done..|]. cbn [Z.eqb negb].
    apply wp_bind, (wp_unlock Hcalls), wp_ret. rewrite delete_insert_eq. apply HQ.
    destruct Hc. split; [lia|by right]. }
  apply wp_bind. destruct new.
  - apply (wp_write_lock Hcalls); [done..|]. intros. by apply Hrest.
  - apply (wp_read_lock Hcalls); [done..|]. intros. by apply Hrest.
Qed.
End State.

(** ** Opening what is there *)

Lemma recovered_log hd es es' l now :
  log_ok hd es l → shape es' = shape es → log_ok (recovered hd l now) es' l.
Proof using.
  intros (Hcl & Hlg & Hv) Hsh. split_and!; [|eapply logged_shape; [symmetry; exact Hsh|exact Hlg]|done].
  eapply (closed_shape hd); [done|symmetry; exact Hsh|done].
Qed.

Lemma open_existing s name ino hd es l keep global create_flag :
  names (fs s) !! name = Some ino → no_new (names (fs s)) (nextino (fs s)) name ino →
  inodes (fs s) !! ino = Some (ser hd es) → header_ok hd → wf_file es → recoverable hd es l keep →
  global = 0 ∨ last_recovery hd < global →
  wp (myopen compar global name create_flag) (λ r s', r = 0 ∧ fname s' = name ∧
    ∃ now es', let hd' := recovered hd l now in
      ready s' ino hd' es' l ∧ shape es' = shape keep) s.
Proof using KO Hcalls Hroom Hclock.
  intros Hn Hnew Hf Hho Hwf Hrec Hgl. pose proof Hrec as ((_ & _ & Hv) & _). unfold myopen.
  apply wp_bind. wstep. apply wp_bind. wstep. cbn [fs set_db]. apply wp_bind.
  assert (set_db s name = St (fs s) name None (Map 0 0 0 0) (Hdr 0 0 0 0 0 0 0)) as -> by done.
  eapply wp_intro; [reflexivity|]. rewrite Hcalls, Hn. apply wp_bind. wstep. wstep. cbn [Z.ltb Z.compare].
  destruct s as [[inod nms hl nx tk] fn0 fd0 mp0 hd0]. cbn in Hn, Hf, Hnew. unfold set_fd, set_fs. cbn [fs inodes names held nextino ticks fname fd mp hdr].
  set (h0 := Hdr 0 0 0 0 0 0 0).
  assert (∀ t, St (Fs inod nms hl nx t) name (Some (ino, 0)) (Map 0 0 0 0) h0
    = S_ ino inod nms nx name (ser hd es) h0 (Map 0 0 0 0) hl 0 t) as -> by (intros t; unfold S_; by rewrite insert_id).
  assert (mapping_ok ino (Map 0 0 0 0)) as Hg0 by (split; [done|by left]).
  destruct (recover_head _ _ _ _ Hrec) as (dps & Hdm & Hd).
  apply wp_bind. eapply wp_open_loop; [done..|]. intros g1 t1 Hg1. cbn [Z.eqb negb]. wstep. cbn [hdr S_].
  assert ((global =? 0) || (last_recovery hd <? global) = true) as ->.
  { destruct Hgl as [->|]; [done|]. destruct (Z.ltb_spec (last_recovery hd) global); [by rewrite orb_true_r|lia]. }
  apply wp_bind. eapply wp_recovery_open; [done..|]. cbn zeta. intros es' now g2 pos2 t2 Hsh Hwf' Hsl' Hho' Hg2 _.
  cbn [Z.eqb negb]. apply wp_ret. split; [done|]. split; [done|]. exists now, es'.
  destruct Hrec as [Hlg _]. split; [split|done]; [by apply S_open_db|by eapply recovered_log].
Qed.

(** After a crash the transaction is there whole or not at all. *)
Lemma open_crashed s name ino hd0 es0 l0 hd es l n hdc esc global create_flag :
  header_ok hd0 → slist es0 (curl hd0) (maxl hd0) l0 → wf_file es0 → log_ok hd0 es0 l0 →
  wr_ops hd0 es0 l0 hd es l → crashed hd0 es0 hd es n hdc esc →
  names (fs s) !! name = Some ino → no_new (names (fs s)) (nextino (fs s)) name ino →
  inodes (fs s) !! ino = Some (ser hdc esc) →
  global = 0 ∨ last_recovery hd0 < global →
  wp (myopen compar global name create_flag) (λ r s', r = 0 ∧ fname s' = name ∧
    ∃ hd' es', ready s' ino hd' es' (if decide (n = S (length es)) then l else l0)) s.
Proof using KO Hcalls Hroom Hclock.
  intros Hh Hsl Hwf Hlg Hops Hcr Hn Hnew Hf Hgl. pose proof Hcr as [(c & Hc & _) _ _ Hwfc].
  destruct (crashed_recoverable _ _ _ _ _ _ _ _ _ Hh Hsl Hwf Hlg Hops Hcr) as [Hhc [keep Hrec]].
  eapply wp_mono; [eapply open_existing; [done..|by subst hdc]|].
  intros r s' (-> & Hfn & now & es' & Hr & _). split; [done|]. split; [done|]. eauto.
Qed.

(** ** A new database *)

Lemma ser_new hd : ser hd [new_dummy] = header_bytes hd ++ ebytes new_dummy.
Proof using. unfold ser. rewrite fmap_cons, mjoin_cons. cbn [fmap list_fmap]. by rewrite app_nil_r. Qed.

Lemma init_header_ok now : is_u32 now → header_ok (init_header now).
Proof using. intros H. unfold header_ok. split_and!; try done; apply H. Qed.

Lemma new_wf : wf_file [new_dummy].
Proof using.
  split; [|vm_compute; reflexivity]. constructor; [|done].
  split_and!; [by left|done|done| |rewrite length_replicate; lia]. apply Forall_forall. intros x Hx.
  apply elem_of_replicate in Hx as [-> _]. done.
Qed.

Lemma new_nodes now : nodes_ok [new_dummy] (curl (init_header now)) (maxl (init_header now)) [].
Proof using.
  split; [constructor|constructor|constructor|constructor|by exists (replicate 20 0)|].
  change (curl _) with 1%nat. change (maxl _) with 20%nat. lia.
Qed.

Lemma new_list now : slist [new_dummy] (curl (init_header now)) (maxl (init_header now)) [].
Proof using.
  split; [apply new_nodes|]. intros i Hi. change (maxl _) with 20%nat in Hi.
  split; [done|]. cbn [at_lvl filter list_filter last_off].
  unfold fwd, ptrs. cbn [ent new_dummy]. rewrite Z.eqb_refl. cbn [ptrs_of]. by apply lookup_replicate_2.
Qed.

Lemma new_recoverable now : recoverable (init_header now) [new_dummy] [] [new_dummy].
Proof using.
  split; [split_and!|by exists []].
  - split; [done|]. exists [], new_dummy. split; [done|].
    rewrite decide_True by done. by exists DUMMY, [], [], (replicate 20 0).
  - exists (replicate 20 0), [], []. cbn zeta. split_and!; [done|done|done|done|apply new_nodes|constructor|done].
  - done.
Qed.

Lemma wp_init_file ino others nm nx name Q h g hl t :
  (∀ pos' t' now, is_u32 now →
     Q 0 (S_ ino others nm nx name (ser (init_header now) [new_dummy]) (init_header now) g hl pos' t')) →
  wp init_file Q (S_ ino others nm nx name [] h g hl 0 t).
Proof using Hcalls Hroom Hclock.
  intros HQ. unfold init_file. apply wp_bind, wp_time. unfold modify_hdr. wstep. cbn [set_hdr hdr S_].
  change (set_hdr ?h' (SkipRun.S_ ino others nm nx name ?m ?h ?g ?hl ?p ?t)) with (S_ ino others nm nx name m h' g hl p t).
  set (hd := init_header (clock t)).
  apply wp_bind. unfold write_header. wstep. cbn [hdr S_]. apply wp_bind, wp_lseek; [lia|].
  apply wp_bind, (wp_write Hroom); [done|lia|rewrite blen_header; lia|]. rewrite blen_header.
  change (negb (48 =? HEADER_SIZE)) with false. cbv iota. apply wp_ret. cbn [Z.eqb negb].
  assert (wr [] 0 (header_bytes hd) = header_bytes hd) as -> by apply (wr_append []).
  apply wp_bind. unfold write_dummy. wstep. cbn [hdr S_]. apply wp_bind, wp_lseek; [done|].
  change (maxlevel hd) with SKIPLIST_MAXLEVEL. rewrite dummy_bytes_entry.
  assert (blen (ebytes new_dummy) = DUMMY_SIZE SKIPLIST_MAXLEVEL) as Hb by done.
  apply wp_bind, (wp_write Hroom); [done|done|by rewrite Hb|].
  rewrite Hb, Z.eqb_refl. cbn [negb]. apply wp_ret. cbn [Z.eqb negb].
  assert (wr (header_bytes hd) DUMMY_OFFSET (ebytes new_dummy) = ser hd [new_dummy]) as ->.
  { rewrite ser_new. apply (wr_append (header_bytes hd)). }
  apply wp_bind, (wp_fsync Hcalls). intros t'. apply wp_ret, HQ, Hclock.
Qed.

(** The first turn of [retry:]: the file is empty. *)
Lemma wp_open_empty ino others nm nx name Q fuel h hl t :
  nm !! name = Some ino →
  (∀ g' pos' t' now, is_u32 now → mapping_ok ino g' →
     Q 0 (S_ ino others nm nx name (ser (init_header now) [new_dummy]) (init_header now) g' (delete ino hl) pos' t')) →
  wp (open_loop (S (S fuel)) true) Q (S_ ino others nm nx name [] h (Map 0 0 0 0) hl 0 t).
Proof using Hcalls Hroom Hclock.
  intros Hn HQ. remember (S fuel) as fuel1 eqn:Hfuel. cbn [open_loop]. unfold modify_hdr. apply wp_bind. wstep.
  cbn [set_hdr hdr S_].
  change (set_hdr ?h' (SkipRun.S_ ino others nm nx name ?m ?h ?g ?hl ?p ?t)) with (S_ ino others nm nx name m h' g hl p t).
  set (h0 := set_curlevel 0 h).
  apply wp_bind. unfold write_lock. wstep. cbn [from_option id fname S_]. unfold id.
  apply wp_bind. unfold lock_reopen. apply (wp_lock_loop Hcalls); [done|].
  apply wp_bind. unfold refresh_locked. wstep. cbn [mp S_].
  apply (wp_bind_mono _ _ (λ _ s, s = S_ ino others nm nx name [] h0 (Map 0 0 0 0) (<[ino := LExclusive]> hl) 0 (S t))).
  { destruct (negb _); [|by apply wp_ret]. unfold map_free. wstep. wstep. done. }
  intros _ ? ->. wstep. rewrite (file_of_S ino others nm nx name [] h0 (Map 0 0 0 0)). wstep.
  cbn [mp S_ set_mp map_of map_len].
  change (set_mp ?g' (SkipRun.S_ ino others nm nx name ?m ?h ?g ?hl ?p ?t)) with (S_ ino others nm nx name m h g' hl p t).
  change (blen []) with 0. set (g1 := Map 0 0 0 ino).
  apply wp_bind. unfold map_refresh. wstep. cbn [fd S_]. wstep. wstep. cbn [from_option id mp S_]. unfold id.
  cbn [Z.leb Z.compare map_len g1]. apply wp_ret. wstep. cbn [hdr S_ h0 set_curlevel curlevel]. cbn [Z.eqb].
  apply wp_ret, wp_ret. cbn [Z.ltb Z.compare]. wstep. cbn [mp S_ map_size g1 Z.eqb andb].
  apply wp_bind, wp_bind, wp_init_file. intros pos1 t1 now Hnow. wstep. apply wp_bind, (wp_unlock Hcalls).
  rewrite delete_insert_eq, Hfuel.
  assert (mapping_ok ino g1) as Hg1 by (split; [done|by left]).
  eapply wp_open_loop with (dps := replicate 20 0);
    [done|by apply init_header_ok|done|apply new_wf|exact Hg1|done|done|].
  intros g' t' Hg'. rewrite delete_delete_eq. by apply HQ.
Qed.

Lemma new_name_ne name : blen name < 1023 → new_name name ≠ name.
Proof using.
  unfold new_name, blen. intros Hl H. apply (f_equal length) in H. rewrite length_take, length_app in H.
  cbn [length] in H. lia.
Qed.

Lemma open_new s name global :
  names (fs s) !! name = None → names (fs s) !! new_name name = None → blen name < 1023 →
  wp (myopen compar global name true) (λ r s', r = 0 ∧ fname s' = name ∧
    ∃ hd es, ready s' (nextino (fs s)) hd es []) s.
Proof using KO Hcalls Hroom Hclock.
  intros Hn Hnn Hlen. unfold myopen. apply wp_bind. wstep. apply wp_bind. wstep. cbn [fs set_db]. apply wp_bind.
  assert (set_db s name = St (fs s) name None (Map 0 0 0 0) (Hdr 0 0 0 0 0 0 0)) as -> by done.
  eapply wp_intro; [reflexivity|]. rewrite Hcalls, Hn. cbn [negb].
  apply wp_bind. apply wp_bind. eapply wp_intro; [reflexivity|]. rewrite Hcalls.
  apply wp_bind. unfold open_creat. apply wp_bind. eapply wp_intro; [reflexivity|]. rewrite Hcalls. wstep.
  destruct s as [[inod nms hl nx tk] fn0 fd0 mp0 hd0]. cbn in Hn, Hnn.
  unfold set_fd, set_fs. cbn [fs inodes names held nextino ticks fname fd mp hdr]. rewrite Hn.
  apply wp_bind. wstep. apply wp_ret. wstep. wstep. cbn [Z.ltb Z.compare].
  unfold set_fd, set_fs. cbn [fs inodes names held nextino ticks fname fd mp hdr].
  set (h0 := Hdr 0 0 0 0 0 0 0). set (nm1 := <[name := nx]> nms).
  assert (∀ t, St (Fs (<[nx := []]> inod) nm1 hl (nx + 1) t) name (Some (nx, 0)) (Map 0 0 0 0) h0
    = S_ nx inod nm1 (nx + 1) name [] h0 (Map 0 0 0 0) hl 0 t) as -> by done.
  assert (nm1 !! name = Some nx) as Hn1 by apply lookup_insert_eq.
  assert (no_new nm1 (nx + 1) name nx) as Hnew1.
  { split; [|lia]. unfold nm1. rewrite lookup_insert_ne; [done|]. by apply not_eq_sym, new_name_ne. }
  apply wp_bind. apply wp_open_empty; [done|]. intros g1 pos1 t1 now Hnow Hg1. cbn [Z.eqb negb].
  wstep. cbn [hdr S_]. pose proof (new_recoverable now) as Hrec. pose proof Hrec as [Hlg _].
  destruct (_ || _) eqn:Hgl.
  - apply wp_bind. eapply wp_recovery_open; [done|by apply init_header_ok|apply new_wf|done|done| |].
    { apply orb_true_iff in Hgl as [H%Z.eqb_eq|H%Z.ltb_lt]; [by left|by right]. }
    cbn zeta. intros es' now' g2 pos2 t2 Hsh Hwf' Hsl' Hho' Hg2 _. cbn [Z.eqb negb]. apply wp_ret.
    split; [done|]. split; [done|]. eexists _, es'. split; [by apply S_open_db|by eapply recovered_log].
  - apply wp_ret. split; [done|]. split; [done|]. exists (init_header now), [new_dummy].
    split; [|done]. apply S_open_db; [done|done|by apply init_header_ok|apply new_wf|apply new_list|done].
Qed.
End Open.
