(* ===== verification/SkipClient.v ===== *)
(** * SkipClient: transactions as their callers see them

    A client's calls, one after the other, with the transaction each returns
    given to the next; and what the same calls do to a finite map. *)
From S2P Require Import Prelude CMem.
From stdpp Require Import gmap sorting list.
From S2P Require Import CFile Prog DbFile CyrusDb BSearch Skiplist DbOrder SkipFile SkipList SkipStep SkipRun.
From S2P Require Import SkipFetch SkipWrite SkipScan SkipTxn SkipRecover SkipCheckpoint SkipSpec.
#[local] Open Scope Z_scope.

(** Bytes a call can add to the file. *)
Definition op_cost (o : op) : Z :=
  match o with OFetch _ => 0 | OStore k d | OCreate k d => 8 + rsize k d 20 | ODelete _ _ => 8 end.

Lemma op_cost_nonneg o : 0 ≤ op_cost o.
Proof.
  assert (∀ n, 0 ≤ ROUNDUP n) as H by (intros n; unfold ROUNDUP; apply Z.land_nonneg; right; lia).
  destruct o as [|k d|k d|]; cbn; unfold rsize; try pose proof (H (blen k)); try pose proof (H (blen d)); lia.
Qed.

Section Client.
Context `{E : Env} `{KO : KeyOrder compar keyok}.

Abbreviation slist := (slist (compar := compar) (keyok := keyok)).
Abbreviation above := (above (compar := compar)).
Abbreviation live := (live (compar := compar) (keyok := keyok)).
Abbreviation ready := (ready (compar := compar) (keyok := keyok)).

#[local] Instance backend : Backend := cyrusdb_skiplist compar.

(** A key the database can hold; for a deletion, one that is not past the last. *)
Definition op_ok (o : op) (m : gmap bytes bytes) : Prop :=
  match o with
  | OFetch k => keyok k
  | OStore k d | OCreate k d => keyok k ∧ k ≠ [] ∧ is_off (blen k + 4) ∧ is_off (blen d + 4)
  | ODelete k _ => keyok k ∧ ∃ k', is_Some (m !! k') ∧ 0 ≤ compar k' k
  end.

Lemma above_some l k k' :
  is_Some (contents l !! k') → 0 ≤ compar k' k → above k l ≠ [].
Proof using.
  intros [d Hd] Hk' Hab. apply elem_of_list_to_map_2 in Hd as Hd'.
  apply list_elem_of_fmap in Hd' as (n & [= -> ->] & Hn).
  assert (n ∈ above k l) as Hin by (apply list_elem_of_filter; split; [lia|done]).
  rewrite Hab in Hin. by apply elem_of_nil in Hin.
Qed.

(** ** Refinement *)

Section Calls.
Context (Hcalls : ∀ n, fails n = false) (Hroom : 2147483648 ≤ file_limit).

(** The state after a call that answers [a] and leaves [m], or the database as
    it was. *)
Definition after (ino : Z) (hd0 : header) (es0 : list entry) (l0 : list node) (sz : Z) (a : answer) (m : option (gmap bytes bytes))
    (r : Z * option bytes * option txn) (s' : st) : Prop :=
  match m with
  | Some m => ∃ x' hd' es' l', r = (a, Some x') ∧ live s' ino hd0 es0 l0 hd' es' l' x' ∧
      contents l' = m ∧ blen (ser hd' es') ≤ sz
  | None => r = (a, None) ∧ ∃ c, ready s' ino (set_curlevel c hd0) es0 l0
  end.

(** What a call does once its transaction has begun and the file is mapped. *)
Lemma op_live o s ino hd0 es0 l0 hd es l x k d ov :
  (o = OStore k d ∧ ov = true) ∨ (o = OCreate k d ∧ ov = false) →
  live s ino hd0 es0 l0 hd es l x → covers ino (mp s) (ser hd es) → op_ok o (contents l) →
  blen (ser hd es) + op_cost o < 2147483648 →
  wp (store_entry compar k d ov x)
    (λ r s', match spec_call o (contents l) with
       | (a, Some m) => ∃ x' hd' es' l', r = (0, x') ∧ a = (0, None) ∧ live s' ino hd0 es0 l0 hd' es' l' x' ∧
           contents l' = m ∧ blen (ser hd' es') ≤ blen (ser hd es) + op_cost o
       | (a, None) => r = (CYRUSDB_EXISTS, x) ∧ a = (CYRUSDB_EXISTS, None) ∧
           ∃ c, ready s' ino (set_curlevel c hd0) es0 l0
       end) s.
Proof using KO Hcalls Hroom.
  intros Ho Hl Hc Hok Hsz.
  assert (op_ok (OStore k d) (contents l) ∧ op_cost o = 8 + rsize k d 20) as [(Hk & _ & Hkl & Hdl) Hcost].
  { by destruct Ho as [[-> _]|[-> _]]. }
  assert (room hd es k d) as Hr by (split_and!; [done|done|lia]).
  destruct Ho as [[-> ->]|[-> ->]]; cbn [spec_call].
  - eapply wp_mono; [eapply live_store; first [done|by left|by right]|]. intros r s' (x' & hd' & es' & l' & -> & ? & ? & ?). cbn. eauto 12.
  - destruct (contents l !! k) eqn:Hd.
    + eapply wp_mono; [eapply live_exists; first [done|by eexists]|]. intros r s' (-> & [c ->] & ? & _). cbn. eauto 10.
    + eapply wp_mono; [eapply live_store; first [done|by left|by right]|]. intros r s' (x' & hd' & es' & l' & -> & ? & ? & ?). cbn.
      eauto 12.
Qed.

(** [mystore] in a transaction: [start] has begun or continued it. *)
Lemma call_store o tid s ino hd0 es0 l0 hd es l k d ov :
  (o = OStore k d ∧ ov = true) ∨ (o = OCreate k d ∧ ov = false) → tid ≠ NoTid →
  wp (start_write compar tid) (λ a s', ∃ x, a = (0, x) ∧ live s' ino hd0 es0 l0 hd es l x ∧
    covers ino (mp s') (ser hd es)) s →
  op_ok o (contents l) → blen (ser hd es) + op_cost o < 2147483648 →
  wp ('(r, t) ← mystore compar k d tid ov; mret (r, None, t))
    (after ino hd0 es0 l0 (blen (ser hd es) + op_cost o) (spec_call o (contents l)).1
       (spec_call o (contents l)).2) s.
Proof using KO Hcalls Hroom.
  intros Ho Htid Hst Hok Hsz. unfold mystore.
  assert (k ≠ []) as Hk by (destruct Ho as [[-> _]|[-> _]]; cbn in Hok; tauto).
  apply wp_bind, wp_bind, wp_assert.
  { destruct (Z.eqb_spec (blen k) 0) as [H0|]; [|done]. destruct k; [done|]. rewrite blen_cons in H0.
    pose proof (blen_nonneg k). lia. }
  apply wp_bind. eapply wp_mono; [exact Hst|]. intros a s1 (x & -> & Hl & Hc). cbn [Z.ltb Z.compare].
  apply wp_bind. eapply wp_mono; [by eapply op_live|]. intros r s2 H.
  destruct (spec_call o (contents l)) as [a [m|]]; cbn [fst snd after].
  - destruct H as (x' & hd' & es' & l' & -> & -> & H1 & H2 & H3). cbn [Z.ltb Z.compare].
    destruct tid; [done| |]; cbn [finish_write]; apply wp_ret, wp_ret; cbn; eauto 12.
  - destruct H as (-> & -> & c & H). apply wp_ret, wp_ret. cbn. eauto.
Qed.

Lemma call_delete tid s ino hd0 es0 l0 hd es l k force :
  tid ≠ NoTid →
  wp (start_write compar tid) (λ a s', ∃ x, a = (0, x) ∧ live s' ino hd0 es0 l0 hd es l x ∧
    covers ino (mp s') (ser hd es)) s →
  op_ok (ODelete k force) (contents l) → blen (ser hd es) + 8 < 2147483648 →
  wp ('(r, t) ← mydelete compar k tid force; mret (r, None, t))
    (after ino hd0 es0 l0 (blen (ser hd es) + 8) (0, None) (Some (delete k (contents l)))) s.
Proof using KO Hroom.
  intros Htid Hst (Hk & k' & Hk' & Hge) Hsz. unfold mydelete.
  apply wp_bind, wp_bind. eapply wp_mono; [exact Hst|]. intros a s1 (x & -> & Hl & Hc). cbn [Z.ltb Z.compare].
  apply wp_bind. eapply wp_mono; [eapply live_delete; first [done|by eapply above_some]|].
  intros x' s2 (hd' & es' & l' & H1 & H2 & H3).
  destruct tid; [done| |]; cbn [finish_write]; apply wp_ret, wp_ret; cbn; eauto 12.
Qed.

Lemma start_old s ino hd0 es0 l0 hd es l x :
  live s ino hd0 es0 l0 hd es l x →
  wp (start_write compar (OldTid x)) (λ a s', ∃ x, a = (0, x) ∧ live s' ino hd0 es0 l0 hd es l x ∧
    covers ino (mp s') (ser hd es)) s.
Proof using.
  intros Hl. cbn [start_write]. apply wp_bind. eapply wp_mono; [by eapply live_update|].
  intros _ s' [H1 H2]. apply wp_ret. eauto.
Qed.

(** A call in a transaction does what the specification says. *)
Lemma call_live o s ino hd0 es0 l0 hd es l x :
  live s ino hd0 es0 l0 hd es l x → op_ok o (contents l) →
  blen (ser hd es) + op_cost o < 2147483648 →
  wp (call o (OldTid x)) (after ino hd0 es0 l0 (blen (ser hd es) + op_cost o)
    (spec_call o (contents l)).1 (spec_call o (contents l)).2) s.
Proof using KO Hcalls Hroom.
  intros Hl Hok Hsz. pose proof (start_old _ _ _ _ _ _ _ _ _ Hl) as Hst. destruct o as [k|k d|k d|k force]; cbn [call db_fetch db_store db_create db_delete backend cyrusdb_skiplist db_txn].
  - pose proof Hl as [Hin ? ? ? ? ? ? ?]. eapply wp_mono; [by eapply fetch_txn|].
    intros r s' (-> & Hin' & _). cbn. exists x, hd, es, l. split_and!; [done| |done|lia]. by split.
  - eapply (call_store (OStore k d)); try done. by left.
  - eapply (call_store (OCreate k d)); try done. by right.
  - by eapply call_delete.
Qed.

(** The call that begins one. *)
Lemma call_begin o s ino hd es l :
  ready s ino hd es l → op_ok o (contents l) → blen (ser hd es) + op_cost o < 2147483648 →
  wp (call o NewTid) (after ino hd es l (blen (ser hd es) + op_cost o)
    (spec_call o (contents l)).1 (spec_call o (contents l)).2) s.
Proof using KO Hcalls Hroom.
  intros Hr Hok Hsz.
  pose proof (ready_start Hcalls NewTid s ino hd es l ltac:(by right) Hr) as Hst.
  destruct o as [k|k d|k d|k force]; cbn [call db_fetch db_store db_create db_delete backend cyrusdb_skiplist db_txn].
  - pose proof Hr as [Ho Hcl]. pose proof Ho as [_ _ _ _ _ ? ? ?].
    eapply wp_mono; [by eapply fetch_begin|].
    intros r s' (x & -> & Hin & Hs & _). cbn. exists x, hd, es, l. split_and!; [done| |done|lia].
    split; try done; [constructor|]. intros Hne. destruct Hne. by rewrite Hs, (it_log _ _ _ _ _ _ Hin).
  - eapply (call_store (OStore k d)); try done. by left.
  - eapply (call_store (OCreate k d)); try done. by right.
  - by eapply call_delete.
Qed.

(** *** Calls outside a transaction *)

(** The end of a call of its own: it is committed. *)
Lemma finish_alone s ino hd0 es0 l0 hd es l x :
  live s ino hd0 es0 l0 hd es l x → blen (ser hd es) + 4 < 2147483648 →
  wp (finish_write compar NoTid x) (λ r s', r = (0, None) ∧
    ∃ ino' hd' es' l', ready s' ino' hd' es' l' ∧ contents l' = contents l ∧
      blen (ser hd' es') ≤ blen (ser hd es) + 4 ∧ (ino' ≠ ino ∨ blen (ser hd es) ≤ blen (ser hd' es'))) s.
Proof using KO Hcalls Hroom.
  intros Hl Hsz. cbn [finish_write]. apply wp_bind.
  eapply wp_mono; [by eapply live_commit|]. intros r s' (-> & ino' & hd' & es' & l' & Hr & Hc & Hb & _ & ?).
  apply wp_ret. eauto 10.
Qed.

Lemma store_alone o s ino hd es l k d ov :
  (o = OStore k d ∧ ov = true) ∨ (o = OCreate k d ∧ ov = false) → ready s ino hd es l →
  op_ok o (contents l) → blen (ser hd es) + op_cost o + 4 < 2147483648 →
  wp (mystore compar k d NoTid ov) (λ r s', r = ((spec_call o (contents l)).1.1, None) ∧
    ∃ ino' hd' es' l', ready s' ino' hd' es' l' ∧ contents l' = default (contents l) (spec_call o (contents l)).2 ∧
      blen (ser hd' es') ≤ blen (ser hd es) + op_cost o + 4) s.
Proof using KO Hcalls Hroom.
  intros Ho Hr Hok Hsz. unfold mystore.
  assert (k ≠ []) as Hk by (destruct Ho as [[-> _]|[-> _]]; cbn in Hok; tauto).
  apply wp_bind, wp_assert.
  { destruct (Z.eqb_spec (blen k) 0) as [H0|]; [|done]. destruct k; [done|]. rewrite blen_cons in H0.
    pose proof (blen_nonneg k). lia. }
  apply wp_bind. eapply wp_mono; [eapply (ready_start Hcalls NoTid); [by left|done]|].
  intros a s1 (x & -> & Hl & Hc). cbn [Z.ltb Z.compare].
  apply wp_bind. eapply wp_mono; [eapply op_live; [done|done|done|done|lia]|]. intros r s2 H.
  destruct (spec_call o (contents l)) as [a [m|]]; cbn [fst snd default].
  - destruct H as (x' & hd' & es' & l' & -> & -> & H1 & H2 & H3). cbn [Z.ltb Z.compare].
    eapply wp_mono; [eapply finish_alone; [done|lia]|].
    intros r s3 (-> & ino' & hd2 & es2 & l2 & Hr2 & Hc2 & Hb2 & _). split; [done|]. exists ino', hd2, es2, l2.
    split_and!; [done|cbn; congruence|lia].
  - destruct H as (-> & -> & c & H). apply wp_ret. split; [done|]. exists ino, (set_curlevel c hd), es, l.
    pose proof (op_cost_nonneg o). split_and!; [done|done|rewrite !blen_ser; lia].
Qed.

(** A call does what the specification says, for itself. *)
Lemma call_alone o s ino hd es l :
  ready s ino hd es l → op_ok o (contents l) → blen (ser hd es) + op_cost o + 4 < 2147483648 →
  wp (call o NoTid) (λ r s', let '(a, m) := spec_call o (contents l) in
    r = (a, None) ∧ ∃ ino' hd' es' l', ready s' ino' hd' es' l' ∧ contents l' = default (contents l) m ∧
      blen (ser hd' es') ≤ blen (ser hd es) + op_cost o + 4) s.
Proof using KO Hcalls Hroom.
  intros Hr Hok Hsz. destruct o as [k|k d|k d|k force]; cbn [call db_fetch db_store db_create db_delete backend cyrusdb_skiplist db_txn].
  - pose proof Hr as [Ho Hlg]. eapply wp_mono; [by eapply fetch_open|].
    intros r s' (-> & Ho' & _). cbn. split; [done|]. exists ino, hd, es, l. split_and!; [by split|done|lia].
  - apply wp_bind. eapply wp_mono; [eapply (store_alone (OStore k d)); [by left|done..]|].
    intros r s' (-> & H). by apply wp_ret.
  - apply wp_bind. eapply wp_mono; [eapply (store_alone (OCreate k d)); [by right|done..]|].
    intros r s' (-> & H). apply wp_ret. cbn [spec_call] in *. by destruct (contents l !! k).
  - destruct Hok as (Hk & k' & Hk' & Hge). unfold mydelete. cbn [op_cost] in *. apply wp_bind, wp_bind.
    eapply wp_mono; [eapply (ready_start Hcalls NoTid); [by left|done]|].
    intros a s1 (x & -> & Hl & Hc). cbn [Z.ltb Z.compare]. apply wp_bind.
    eapply wp_mono; [eapply live_delete; [done|done|done|done|lia|by eapply above_some]|].
    intros x' s2 (hd' & es' & l' & H1 & H2 & H3).
    eapply wp_mono; [eapply finish_alone; [done|lia]|].
    intros r s3 (-> & ino' & hd2 & es2 & l2 & Hr2 & Hc2 & Hb2 & _). apply wp_ret. split; [done|].
    exists ino', hd2, es2, l2. cbn [spec_call snd default]. split_and!; [done|cbn; congruence|lia].
Qed.

(** *** The instance *)

Lemma ops_grow hd0 es0 l0 hd es l :
  wr_ops (compar := compar) (keyok := keyok) hd0 es0 l0 hd es l → blen (ser hd0 es0) ≤ blen (ser hd es).
Proof using.
  intros H%wr_ops_size. rewrite !blen_ser. destruct H as [(-> & -> & ->)|]; lia.
Qed.

#[local] Lemma after_during (ino : Z) (hd0 : header) (es0 : list entry) (l0 : list node) (sz n0 n : Z) (a : answer) (m : option (gmap bytes bytes)) r s' :
  after ino hd0 es0 l0 sz a m r s' → sz ≤ n → blen (ser hd0 es0) ≤ n0 →
  match m with
  | Some m => ∃ t, r = (a, Some t) ∧ ∃ ino hd0 es0 l0' hd es l, live s' ino hd0 es0 l0' hd es l t ∧
      contents l0' = contents l0 ∧ contents l = m ∧ blen (ser hd es) ≤ n
  | None => r = (a, None) ∧ ∃ ino hd es l, ready s' ino hd es l ∧ contents l = contents l0 ∧
      blen (ser hd es) ≤ n0
  end.
Proof using.
  unfold after. destruct m as [m|].
  - intros (x & hd & es & l & -> & Hl & Hc & Hb) ? ?. exists x. split; [done|].
    exists ino, hd0, es0, l0, hd, es, l. split_and!; [done|done|done|lia].
  - intros [-> [c Hr]] ? Hb. split; [done|]. exists ino, (set_curlevel c hd0), es0, l0.
    split_and!; [done|done|by rewrite !blen_ser in *].
Qed.

Lemma visit_scan {R} goodp (f : R → bytes → bytes → Z * R) rock l :
  visit goodp f rock l = scan goodp f rock ((λ n, (n_key n, n_data n)) <$> l).
Proof using.
  revert rock. induction l as [|x l IH]; intros rock; [done|]. cbn. destruct (goodp _ _ _); [|apply IH].
  destruct (f _ _ _) as [r rock']. destruct (r =? 0); [apply IH|done].
Qed.

#[local] Lemma skip_foreach_alone {R} fuel gp cb goodp (f : R → bytes → bytes → Z * R) pre c rest rock s ino hd es l :
  ready s ino hd es l → keyok pre → (size (contents l) < fuel)%nat →
  (∀ rock k d, contents l !! k = Some d → pre `prefix_of` k → gp rock k d = Ok (goodp rock k d)) →
  (∀ rock k d s, contents l !! k = Some d → pre `prefix_of` k → cb rock k d s = Ok (f rock k d, s)) →
  wp (db_foreach fuel gp cb (pre ++ c :: rest) (blen pre) rock) (λ a s', ∃ l',
    l' ≡ₚ map_to_list (contents l) ∧ StronglySorted (λ a b, compar a b < 0) l'.*1 ∧
    a = scan goodp f rock (filter (λ x, pre `prefix_of` x.1) l') ∧ ready s' ino hd es l) s.
Proof using KO Hcalls.
  intros [Ho Hlg] Hpre Hf Hgp Hcb. pose proof Ho as [_ _ _ _ _ _ _ Hsl]. pose proof (sk_nodes _ _ _ _ Hsl) as Hno.
  pose proof (no_sorted _ _ _ _ Hno) as Hs. pose proof (no_keys _ _ _ _ Hno) as Hk.
  set (kd := λ n, (n_key n, n_data n)). assert (StronglySorted (λ a b, compar a b < 0) (kd <$> l).*1) as Hsort.
  { clear -Hs. induction Hs as [|x l Hs IH Hx]; cbn; constructor; [done|]. apply Forall_fmap, Forall_fmap.
    eapply Forall_impl; [exact Hx|]. done. }
  assert (NoDup (kd <$> l).*1) as Hnd.
  { clear -Hsort Hk KO. induction l as [|x l IH]; cbn; [constructor|]. inversion_clear Hsort as [|?? Hs' Hx]. inversion_clear Hk.
    constructor; [|by apply IH]. intros Hin. rewrite Forall_forall in Hx. specialize (Hx _ Hin). cbn in Hx.
    pose proof (proj2 (ko_eq (n_key x) (n_key x) ltac:(done) ltac:(done)) eq_refl). lia. }
  assert (contents l = list_to_map (kd <$> l)) as Hc by done.
  assert (∀ x, x ∈ l → contents l !! n_key x = Some (n_data x)) as Hin.
  { intros x Hx. rewrite Hc. apply elem_of_list_to_map_1; [done|]. apply list_elem_of_fmap. by exists x. }
  assert (size (contents l) = length l) as Hsz by (rewrite Hc, map_size_list_to_map by done; by rewrite length_fmap).
  cbn [db_foreach backend cyrusdb_skiplist]. apply wp_bind. eapply wp_liftr; [apply slice_at; [apply (bytes_at_here [] pre (c :: rest))|rewrite blen_app, blen_cons; pose proof (blen_nonneg rest); lia]|].
  apply wp_bind. eapply wp_mono.
  { apply (foreach_open Hcalls goodp f); [exact Ho|done|lia|..].
    - intros rock' x Hx Hp. apply Hgp; [by apply Hin|done].
    - intros rock' x s' Hx Hp. apply Hcb; [by apply Hin|done]. }
  intros [[r rock'] ?] s' ([= Ha _] & Ho' & Hi). apply wp_ret. exists (kd <$> l). split_and!; [|done| |].
  - symmetry. rewrite Hc. by apply map_to_list_to_map.
  - rewrite Ha, visit_scan. f_equal. clear. induction l as [|x l IH]; [done|]. rewrite fmap_cons.
    destruct (decide (pre `prefix_of` n_key x)); [rewrite !filter_cons_True by done|rewrite !filter_cons_False by done; done].
    by rewrite fmap_cons, IH.
  - by split.
Qed.

#[export] Program Instance skiplist_ok : BackendOk (cyrusdb_skiplist compar) := {|
  db_holds s m n := ∃ ino hd es l, ready s ino hd es l ∧ contents l = m ∧ blen (ser hd es) ≤ n;
  db_during s m0 m n x := ∃ ino hd0 es0 l0 hd es l, live s ino hd0 es0 l0 hd es l x ∧
    contents l0 = m0 ∧ contents l = m ∧ blen (ser hd es) ≤ n;
  db_reading s m n x := ∃ ino hd es l, live s ino hd es l hd es l x ∧ contents l = m ∧ blen (ser hd es) ≤ n;
  db_op_ok := op_ok;
  db_before a b := compar a b < 0;
  db_prefix_ok := keyok;
  db_cost := op_cost;
  db_end_cost := 4;
|}.
Next Obligation. apply op_cost_nonneg. Qed.
Next Obligation. done. Qed.
Next Obligation. intros s m n n' (ino & hd & es & l & ? & ? & ?) ?. exists ino, hd, es, l. split; [done|]. split; [done|lia]. Qed.
Next Obligation.
  intros o s m n (ino & hd & es & l & Hr & <- & Hb) Hok Hn. unfold DB_LIMIT in Hn.
  eapply wp_mono; [eapply call_begin; [done|done|lia]|]. intros r s' Ha.
  by apply (after_during _ _ _ _ _ n (n + op_cost o)) in Ha; [|lia..].
Qed.
Next Obligation.
  intros o s m0 m n t (ino & hd0 & es0 & l0 & hd & es & l & Hl & <- & <- & Hb) Hok Hn. unfold DB_LIMIT in Hn.
  pose proof (ops_grow _ _ _ _ _ _ (lv_ops _ _ _ _ _ _ _ _ _ Hl)).
  eapply wp_mono; [eapply call_live; [done|done|lia]|]. intros r s' Ha.
  by apply (after_during _ _ _ _ _ n (n + op_cost o)) in Ha; [|lia..].
Qed.
Next Obligation.
  intros o s m n (ino & hd & es & l & Hr & <- & Hb) Hok Hn. unfold DB_LIMIT in Hn.
  eapply wp_mono; [eapply call_alone; [done|done|lia]|]. intros r s' Ha. cbv beta in Ha.
  destruct (spec_call o (contents l)) as [a m']. destruct Ha as (-> & ino' & hd' & es' & l' & ? & ? & ?).
  split; [done|]. exists ino', hd', es', l'. split; [done|]. split; [done|lia].
Qed.
Next Obligation.
  intros s m0 m n t (ino & hd0 & es0 & l0 & hd & es & l & Hl & _ & <- & Hb) Hn. unfold DB_LIMIT in Hn.
  eapply wp_mono; [eapply live_commit; [done|done|done|lia]|]. intros r s' (-> & ino' & hd' & es' & l' & ? & ? & ? & _).
  split; [done|]. exists ino', hd', es', l'. split; [done|]. split; [done|lia].
Qed.
Next Obligation. intros s m n t (ino & hd & es & l & ? & ? & ?). by exists ino, hd, es, l, hd, es, l. Qed.
Next Obligation.
  intros k s m n (ino & hd & es & l & [Ho Hlg] & <- & Hb) Hok Hn.
  eapply wp_mono; [by eapply fetch_open|]. intros r s' (-> & Ho' & _). split; [done|]. by exists ino, hd, es, l.
Qed.
Next Obligation.
  intros k s m n (ino & hd & es & l & [Ho Hlg] & <- & Hb) Hok Hn. pose proof Ho as [_ _ _ _ _ ? ? ?].
  eapply wp_mono; [by eapply fetch_begin|]. intros r s' (x & -> & Hin & Hs & _). exists x. split; [done|].
  exists ino, hd, es, l. split; [|done]. split; try done; [constructor|]. intros Hne. destruct Hne.
  by rewrite Hs, (it_log _ _ _ _ _ _ Hin).
Qed.
Next Obligation.
  intros k s m n t (ino & hd & es & l & Hl & <- & Hb) Hok Hn. pose proof Hl as [Hin ? ? ? ? ? ? ?].
  eapply wp_mono; [by eapply fetch_txn|]. intros r s' (-> & Hin' & _). exists t. split; [done|].
  exists ino, hd, es, l. by split; [split|].
Qed.
Next Obligation.
  intros s m n t (ino & hd & es & l & Hl & <- & Hb). eapply wp_mono; [by eapply live_abort_read|].
  intros r s' [-> ?]. split; [done|]. by exists ino, hd, es, l.
Qed.
Next Obligation.
  intros R fuel gp cb goodp f pre c rest rock s m n (ino & hd & es & l & Hr & <- & Hb) Hn Hpre Hf Hgp Hcb.
  eapply wp_mono; [by eapply skip_foreach_alone|]. intros a s' (l' & ? & ? & ? & ?). exists l'. split_and!; try done. by exists ino, hd, es, l.
Qed.

(** *** Deleting past the end *)

Lemma rd32_out m i : blen m ≤ i → rd32 m i = Fault OutOfBounds.
Proof using.
  intros Hi. unfold rd32, rd8. destruct (byte_at m i) as [b|] eqn:Hb; [apply byte_at_lt in Hb; lia|done].
Qed.

Lemma FORWARD_out m ptr kl i :
  KEYLEN m ptr = Ok kl → blen m ≤ ptr + 8 + ROUNDUP kl → FORWARD m ptr i = Fault OutOfBounds.
Proof using.
  intros Hk Hsz. unfold FORWARD, PTR, FIRSTPTR, DATALEN. rewrite Hk. cbn [mbind result_bind].
  by rewrite rd32_out.
Qed.

(** [FORWARD] of the head of the file: the magic is not a record. *)
Lemma header_no_record (hd : header) (es : list entry) (i : Z) :
  blen (ser hd es) < 1900000000 → FORWARD (ser hd es) 0 i = Fault OutOfBounds.
Proof using.
  intros H. apply (FORWARD_out _ _ 1936419184); [vm_compute; reflexivity|].
  assert (0 + 8 + ROUNDUP 1936419184 = 1936419192) as -> by (vm_compute; reflexivity). lia.
Qed.

Lemma delete_past s ino hd es l k tid force :
  ready s ino hd es l → keyok k → Forall (λ n, compar (n_key n) k < 0) l →
  blen (ser hd es) < 1900000000 → tid = NoTid ∨ tid = NewTid →
  mydelete compar k tid force s = Fault OutOfBounds.
Proof using KO Hcalls.
  intros Hr Hk Hl Hsz Ht. unfold mydelete.
  destruct (wp_ok _ _ _ (ready_start Hcalls tid s ino hd es l Ht Hr)) as ([r t] & s1 & E1 & x & [= -> ->] & Hlv & Hc).
  unfold mbind, Prog_bind. rewrite E1. cbn [mbind result_bind Z.ltb Z.compare].
  pose proof Hlv as [[_ _ _ _ _ Hh Hwf Hsl _ _] _ _ _ _ _ _ _].
  destruct (live_S _ _ _ _ _ _ _ _ _ Hlv) as [pos Es].
  assert (above k l = []) as Hab by by apply above_none.
  assert (wp (find_key compar k) (λ a s', a = (0, prev_offs (compar := compar) k l (maxl hd), false) ∧ s' = s1) s1) as Hf.
  { rewrite Es. eapply wp_find_key; [done..|]. unfold found. by rewrite Hab. }
  apply wp_ok in Hf as ([[p u] f] & ? & E2 & [= -> -> ->] & ->).
  unfold delete_entry, mbind, Prog_bind. rewrite E2. cbn [mbind result_bind Z.eqb orb get].
  pose proof (it_hdr _ _ _ _ _ _ (lv_txn _ _ _ _ _ _ _ _ _ Hlv)) as ->.
  destruct Hh as (_ & _ & Hcl & _). destruct (Z.to_nat (curlevel hd)) as [|n] eqn:Hn; [lia|].
  cbn [unlink_loop]. unfold mbind, Prog_bind, liftr, uget. cbn [Z.ltb Z.compare].
  assert (prev_offs (compar := compar) k l (maxl hd) !! Z.to_nat 0 = Some (prev_off (compar := compar) k l 0)) as ->.
  { unfold prev_offs. rewrite list_lookup_fmap, lookup_seq_lt by (unfold maxl; lia). done. }
  assert (view s1 = ser hd es) as Hv by (rewrite Es; by apply view_S).
  unfold rd. cbn [mbind result_bind]. rewrite Hv.
  pose proof (prev_off_fwd es (curl hd) (maxl hd) l k 0 Hsl Hk) as Hfw. rewrite Hab in Hfw.
  pose proof (FORWARD_fwd hd es _ 0 0 Hwf (Hfw ltac:(unfold maxl; lia))) as Hf.
  change (Z.of_nat 0) with 0 in Hf. rewrite Hf.
  cbn [mbind result_bind Z.eqb negb]. by rewrite Hv, header_no_record.
Qed.

End Calls.
End Client.
