(* ===== verification/SkipTheorems.v ===== *)
(** * SkipTheorems: the skiplist backend

    What the files before it prove, from the calls of [struct cyrusdb_backend]
    down to the file format, each on a database of the model's own making. *)
From S2P Require Import Prelude CMem.
From stdpp Require Import gmap sorting list.
From S2P Require Import CFile Prog DbFile CyrusDb BSearch Skiplist DbOrder SkipFile SkipList SkipStep SkipRun.
From S2P Require Import SkipFetch SkipWrite SkipScan SkipTxn SkipRecover SkipReplay SkipCrash.
From S2P Require Import SkipSpec SkipOpen SkipClient.
#[local] Open Scope Z_scope.

(** ** A database to try them on *)

(** No call fails; [rand] is heads every other time. *)
Definition demo_env : Env := Build_Env (λ _, false) Nat.odd (λ _, 1000) 2147483648 false.

Section Demo.
#[local] Existing Instance demo_env.

Definition demo_name : bytes := [109].
Definition demo_hdr : header := init_header 1000.
Definition demo_map : mapping := Map 0 0 0 0.
(** An empty database that is open. *)
Definition demo_st : st := S_ 1 ∅ {[demo_name := 1]} 2 demo_name (ser demo_hdr [new_dummy]) demo_hdr demo_map ∅ 0 0.
(** One that has been closed. *)
Definition demo_disk (m : bytes) : st := St (Fs {[1 := m]} {[demo_name := 1]} ∅ 2 0) [] None demo_map (Hdr 0 0 0 0 0 0 0).

Lemma demo_calls n : fails n = false. Proof. done. Qed.
Lemma demo_room : 2147483648 ≤ file_limit. Proof. done. Qed.
Lemma demo_clock n : is_u32 (clock n). Proof. done. Qed.

Lemma demo_hdr_ok : header_ok demo_hdr.
Proof. by apply init_header_ok. Qed.

Lemma demo_list : slist (compar := compare) (keyok := all_bytes) [new_dummy] (curl demo_hdr) (maxl demo_hdr) [].
Proof. apply new_list. Qed.

Lemma demo_log : log_ok (compar := compare) (keyok := all_bytes) demo_hdr [new_dummy] [].
Proof. apply (new_recoverable (compar := compare) (keyok := all_bytes) 1000). Qed.

(** It with a record, in a transaction that is going on. *)
Definition demo_entries : list entry := add_step (compar := compare) [new_dummy] [1] [2] [] 2.
Definition demo_nodes : list node := [Node 144 [1] [2] 2].
Definition demo_hdr2 : header := set_curlevel 2 demo_hdr.
Definition demo_txn : txn := Txn true 144 176.
Definition demo_live : st :=
  S_ 1 ∅ {[demo_name := 1]} 2 demo_name (ser demo_hdr2 demo_entries) demo_hdr2 (Map 1 16384 176 1)
    {[1 := LExclusive]} 0 0.

Lemma demo_step : wr_op (compar := compare) (keyok := all_bytes) demo_hdr [new_dummy] [] demo_hdr2 demo_entries demo_nodes.
Proof.
  assert (all_bytes [1]) as Hk by (constructor; [split; done|constructor]).
  apply (op_add demo_hdr [new_dummy] [] [1] [2] 2); [done|constructor|vm_compute; lia|].
  eapply (wf_add demo_hdr); [apply demo_hdr_ok|apply new_wf|apply demo_list|done|vm_compute; done|vm_compute; lia].
Qed.

Lemma demo_is_live :
  live (compar := compare) (keyok := all_bytes) demo_live 1 demo_hdr [new_dummy] [] demo_hdr2 demo_entries demo_nodes demo_txn.
Proof.
  destruct (wr_op_slist _ _ _ _ _ _ demo_hdr_ok demo_list demo_step) as (Hh & Hsl & Hwf).
  split; [|eapply ops_snoc; [constructor|apply demo_step]|done|apply demo_hdr_ok|apply new_wf|apply demo_list|apply demo_log|done].
  by apply S_in_txn.
Qed.

Lemma demo_ready : ready (compar := compare) (keyok := all_bytes) demo_st 1 demo_hdr [new_dummy] [].
Proof.
  split; [|apply demo_log].
  apply S_open_db; [done|done|apply demo_hdr_ok|apply new_wf|apply demo_list|]. split; [done|by left].
Qed.
End Demo.

(** ** The backend is a transactional map *)

Section Backend.
Context `{E : Env} `{KO : KeyOrder compar keyok}.
Context (Hcalls : ∀ n, fails n = false) (Hroom : 2147483648 ≤ file_limit) (Hclock : ∀ n, is_u32 (clock n)).

Abbreviation ready := (ready (compar := compar) (keyok := keyok)).
Abbreviation live := (live (compar := compar) (keyok := keyok)).
Abbreviation slist := (slist (compar := compar) (keyok := keyok)).
Abbreviation backend := (cyrusdb_skiplist compar).
Abbreviation ops_ok := (ops_ok (BO := skiplist_ok (compar := compar) (keyok := keyok) Hcalls Hroom)).
Abbreviation ops_cost := (ops_cost (BO := skiplist_ok (compar := compar) (keyok := keyok) Hcalls Hroom)).
Abbreviation history_ok := (history_ok (BO := skiplist_ok (compar := compar) (keyok := keyok) Hcalls Hroom)).
Abbreviation history_cost := (history_cost (BO := skiplist_ok (compar := compar) (keyok := keyok) Hcalls Hroom)).
Abbreviation op_ok := (op_ok (compar := compar) (keyok := keyok)).

(** C1: a transaction, any sequence of [fetch], [store], [create] and [delete]
    calls and the commit, returns, gives the answers a finite map gives, and
    leaves a sound database that holds the map they leave; a call that refuses
    ([create] of a key that is there) leaves the map of before.  Deletions are of
    keys that are not past the last one; a key that is not there is deleted with
    the answer 0 even without [force], which [cyrusdb.h] has for this.  The commit may start a checkpoint, which
    writes the database to a file of its own. *)
Theorem transaction_refines (o : op) (ops : list op) (s : st) (ino : Z) (hd : header) (es : list entry) (l : list node)
    (Hready : ready s ino hd es l) (Hok : ops_ok (o :: ops) (contents l))
    (Hsize : blen (ser hd es) + ops_cost (o :: ops) + 4 < 2147483648) :
  wp (transact (B := backend) o ops) (λ answers s',
    let '(expected, m) := spec_calls (o :: ops) (contents l) in
    answers = expected ∧ ∃ ino' hd' es' l', ready s' ino' hd' es' l' ∧ contents l' = default (contents l) m) s.
Proof using KO Hcalls Hroom.
  eapply wp_mono; [apply (transact_refine (BO := skiplist_ok Hcalls Hroom) o ops s (contents l) (blen (ser hd es)));
    [by exists ino, hd, es, l|exact Hok|exact Hsize]|].
  intros r s'. cbv beta. destruct (spec_calls _ _) as [rs m]. intros (-> & ino' & hd' & es' & l' & Hr & Hc & _).
  split; [done|]. by exists ino', hd', es', l'.
Qed.

(** C2: whatever a process had written of a transaction when it died, any of its
    log entries in order and any values in the pointers it was changing,
    [myopen] repairs the file: it holds what it held before, or, when the commit
    had reached it, all the transaction did. *)
Theorem crash_atomic (s0 : st) (name : bytes) (ino : Z) (hd0 : header) (es0 : list entry) (l0 : list node)
    (hd : header) (es : list entry) (l : list node) (x : txn) (n : nat) (hdc : header) (esc : list entry)
    (global : Z) (create_flag : bool) (s : st)
    (Htxn : live s0 ino hd0 es0 l0 hd es l x) (Hcrash : crashed hd0 es0 hd es n hdc esc)
    (Hname : names (fs s) !! name = Some ino) (Hnew : no_new (names (fs s)) (nextino (fs s)) name ino)
    (Hfile : inodes (fs s) !! ino = Some (ser hdc esc))
    (Hglobal : global = 0 ∨ last_recovery hd0 < global) :
  wp (myopen compar global name create_flag) (λ r s', r = 0 ∧
    ∃ hd' es' l', ready s' ino hd' es' l' ∧
      contents l' = if decide (n = S (length es)) then contents l else contents l0) s.
Proof using KO Hcalls Hroom Hclock.
  destruct Htxn as [_ Hops _ Hh Hwf Hsl Hlog _].
  eapply wp_mono; [by eapply open_crashed|]. intros r s' (-> & _ & hd' & es' & Hr).
  split; [done|]. exists hd', es', (if decide (n = S (length es)) then l else l0). split; [done|]. by case_decide.
Qed.

(** A call outside a transaction is a transaction of its own. *)
Theorem call_autocommits (o : op) (s : st) (ino : Z) (hd : header) (es : list entry) (l : list node)
    (Hready : ready s ino hd es l) (Hok : op_ok o (contents l))
    (Hsize : blen (ser hd es) + op_cost o + 4 < 2147483648) :
  wp (call (B := backend) o NoTid) (λ r s', let '(answer, m) := spec_call o (contents l) in
    r = (answer, None) ∧
    ∃ ino' hd' es' l', ready s' ino' hd' es' l' ∧ contents l' = default (contents l) m) s.
Proof using KO Hcalls Hroom.
  eapply wp_mono; [by eapply call_alone|]. intros r s'. destruct (spec_call _ _) as [a m].
  intros (-> & ino' & hd' & es' & l' & Hr & Hc & _). split; [done|]. by exists ino', hd', es', l'.
Qed.

(** C11: [myabort] takes every step of a transaction back: the entries of the file
    are bytes for bytes those it began with (the level in the header may stay
    raised), the database is sound, and the lock is released. *)
Theorem abort_undoes (s : st) (ino : Z) (hd0 : header) (es0 : list entry) (l0 : list node)
    (hd : header) (es : list entry) (l : list node) (x : txn)
    (Htxn : live s ino hd0 es0 l0 hd es l x) (Hmap : covers ino (mp s) (ser hd es)) :
  wp (myabort compar x) (λ r s', r = 0 ∧ ready s' ino hd es0 l0 ∧ (∃ c, hd = set_curlevel c hd0) ∧
    inodes (fs s') !! ino = Some (ser hd es0) ∧ held (fs s') !! ino = None) s.
Proof using KO Hcalls Hroom.
  eapply wp_mono; [by eapply live_abort|]. intros r s' (-> & Hc & Hr & Hheld). pose proof Hr as [Ho _].
  split_and!; try done; [apply Ho|]. rewrite Hheld. apply lookup_delete_eq.
Qed.

(** C12: [mycheckpoint] replaces the file of a database by a new one that holds
    the same records, is no larger, and whose log is empty; the new
    file is the one that is open and locked, the old one keeps its bytes and
    loses its lock. *)
Theorem checkpoint_compresses (s : st) (ino : Z) (hd : header) (es : list entry) (l : list node) (x : txn)
    (Htxn : in_txn (compar := compar) (keyok := keyok) s ino hd es l x)
    (Hversion : version hd = SKIPLIST_VERSION) (Hmap : map_size (mp s) = blen (ser hd es)) :
  wp (mycheckpoint compar true) (λ r s', r = 0 ∧
    ∃ hd' es' l', let ino' := nextino (fs s) in
      ready s' ino' hd' es' l' ∧ contents l' = contents l ∧
      logstart hd' = blen (ser hd' es') ∧ blen (ser hd' es') ≤ blen (ser hd es) ∧
      held (fs s') !! ino' = Some LExclusive ∧
      inodes (fs s') !! ino = Some (ser hd es) ∧ held (fs s') !! ino = None) s.
Proof using KO Hcalls Hroom. by eapply checkpoint_ok. Qed.

(** [myopen] of a name that is not there makes a sound, empty database. *)
Theorem open_creates (s : st) (name : bytes) (global : Z) 
    (Hname : names (fs s) !! name = None) (Hnew : names (fs s) !! new_name name = None) (Hlen : blen name < 1023) :
  wp (myopen compar global name true) (λ r s', r = 0 ∧ fname s' = name ∧
    ∃ hd es l, ready s' (nextino (fs s)) hd es l ∧ contents l = ∅) s.
Proof using KO Hcalls Hroom Hclock.
  eapply wp_mono; [by eapply open_new|]. intros r s' (-> & Hn & hd & es & Hr).
  split; [done|]. split; [done|]. by exists hd, es, [].
Qed.

(** C15: [foreach] shows the callback every record whose key has the prefix and
    that the test lets through, in the order of the keys, until it asks to stop,
    and returns what it asked with; the database is unchanged. *)
Theorem foreach_in_order {R : Type} (goodp : R → bytes → bytes → bool) (f : R → bytes → bytes → Z * R)
    (fuel : nat) (s : st) (ino : Z) (hd : header) (es : list entry) (l : list node) (pre : bytes) (rock : R)
    (Hready : ready s ino hd es l) (Hpre : keyok pre) (Hfuel : (length l < fuel)%nat) :
  wp (myforeach compar (λ rock k d, Ok (goodp rock k d)) (cb f) fuel pre NoTid rock) (λ a s',
    a = (visit goodp f rock (filter (λ n, pre `prefix_of` n_key n) l), None) ∧
    ready s' ino hd es l ∧ inodes (fs s') = inodes (fs s)) s.
Proof using KO Hcalls.
  destruct Hready as [Ho Hlg]. eapply wp_mono; [by eapply (foreach_open Hcalls goodp f)|]. intros a s' (-> & ? & ?). by split_and!.
Qed.

(** C24: [find_node] returns, for any key and file, the first node whose key is not
    below the key (0 when there is none), and for every level the last node
    of it whose key is below. *)
Theorem find_node_closest (hd h : header) (es : list entry) (l : list node) (k : bytes)
    (Hwf : wf_file es) (Hlist : slist es (curl h) (maxl h) l) (Hk : keyok k) :
  ∃ u, find_node compar (ser hd es) h k = Ok (hd_off (above (compar := compar) k l), u) ∧ length u = maxl h ∧
    ∀ i, (i < maxl h)%nat → u !! i = Some (last_off DUMMY_OFFSET (at_lvl i (below (compar := compar) k l))).
Proof using KO.
  exists (prev_offs (compar := compar) k l (maxl h)). split; [by apply find_node_ok|].
  unfold prev_offs. rewrite length_fmap, length_seq. split; [done|]. intros i Hi.
  rewrite list_lookup_fmap, lookup_seq_lt by done. done.
Qed.

(** [consistent] accepts every sound database. *)
Theorem consistent_accepts (s : st) (ino : Z) (hd : header) (es : list entry) (l : list node)
    (Hready : ready s ino hd es l) :
  wp (consistent compar) (λ r s', r = 0 ∧ ready s' ino hd es l ∧ inodes (fs s') = inodes (fs s)) s.
Proof using KO Hcalls.
  destruct Hready as [Ho Hlg]. eapply wp_mono; [by eapply consistent_ok|]. intros r s' (-> & ? & ?). by split_and!.
Qed.

(** C19: whatever is done to a database, it stays consistent.  Any number of
    transactions, any calls in each, answer one after the other what a finite
    map does, and [consistent], which walks the list at every level and
    compares its keys, then returns 0.  A call that is refused, the checkpoints the commits
    start, and what an insertion or a deletion leaves of the pointers are all seen by
    the walk. *)
Theorem always_consistent (ts : list (op * list op)) (s : st) (ino : Z) (hd : header) (es : list entry) (l : list node)
    (Hready : ready s ino hd es l) (Hok : history_ok ts (contents l))
    (Hsize : blen (ser hd es) + history_cost ts < 2147483648) :
  wp (rss ← history (B := backend) ts; r ← consistent compar; mret (rss, r)) (λ a s',
    let '(expected, m) := spec_history ts (contents l) in
    a = (expected, 0) ∧ ∃ ino' hd' es' l', ready s' ino' hd' es' l' ∧ contents l' = m) s.
Proof using KO Hcalls Hroom.
  apply wp_bind. eapply wp_mono; [apply (history_refine (BO := skiplist_ok Hcalls Hroom) ts s (contents l) (blen (ser hd es)));
    [by exists ino, hd, es, l|exact Hok|exact Hsize]|].
  intros rss s'. cbv beta. destruct (spec_history _ _) as [expected m]. intros (-> & ino' & hd' & es' & l' & [Ho Hlg] & Hc & _).
  apply wp_bind. eapply wp_mono; [by eapply consistent_ok|]. intros r s2 (-> & Ho' & _). apply wp_ret.
  split; [done|]. exists ino', hd', es', l'. by split; [split|].
Qed.

(** And the database that [myopen] has repaired after a crash is consistent. *)
Theorem recovered_consistent (s0 : st) (name : bytes) (ino : Z) (hd0 : header) (es0 : list entry) (l0 : list node)
    (hd : header) (es : list entry) (l : list node) (x : txn) (n : nat) (hdc : header) (esc : list entry)
    (global : Z) (create_flag : bool) (s : st)
    (Htxn : live s0 ino hd0 es0 l0 hd es l x) (Hcrash : crashed hd0 es0 hd es n hdc esc)
    (Hname : names (fs s) !! name = Some ino) (Hnew : no_new (names (fs s)) (nextino (fs s)) name ino)
    (Hfile : inodes (fs s) !! ino = Some (ser hdc esc))
    (Hglobal : global = 0 ∨ last_recovery hd0 < global) :
  wp (r ← myopen compar global name create_flag; c ← consistent compar; mret (r, c)) (λ a s', a = (0, 0)) s.
Proof using KO Hcalls Hroom Hclock.
  destruct Htxn as [_ Hops _ Hh Hwf Hsl Hlog _]. apply wp_bind.
  eapply wp_mono; [by eapply open_crashed|]. intros r s' (-> & _ & hd' & es' & [Ho _]). apply wp_bind.
  eapply wp_mono; [by eapply consistent_ok|]. intros c s2 (-> & _ & _). by apply wp_ret.
Qed.

(** C20: [mydelete] of a key greater than every key of the database reads the
    file's header as a record, whose key is longer than the file, and leaves the
    mapping; the condition lets the deletion start when [find_node] found
    nothing. *)
Theorem delete_past_end_faults (s : st) (ino : Z) (hd : header) (es : list entry) (l : list node) (k : bytes) (tid : tidp txn) (force : bool)
    (Hready : ready s ino hd es l) (Hk : keyok k) (Hpast : Forall (λ n, compar (n_key n) k < 0) l)
    (Hsize : blen (ser hd es) < 1900000000) (Htid : tid = NoTid ∨ tid = NewTid) :
  mydelete compar k tid force s = Fault OutOfBounds.
Proof using KO Hcalls. by eapply delete_past. Qed.
End Backend.

(** ** The file *)

(** What is in a record comes back through the macros that read it: the
    type, the key, the data, the level, every pointer, and the size. *)
Theorem record_roundtrip (hd : header) (es : list entry) (off ty : Z) (k d : bytes) (ps : list Z)
    (Hwf : wf_file es) (Hent : ent DUMMY_OFFSET es off = Some (ERec ty k d ps)) :
  let m := ser hd es in
  TYPE m off = Ok ty ∧ rec_key m off = Ok k ∧ rec_data m off = Ok d ∧ LEVEL m off = Ok (Z.of_nat (length ps)) ∧
  (∀ (i : nat) v, ps !! i = Some v → FORWARD m off (Z.of_nat i) = Ok v) ∧
  RECSIZE m off = Ok (blen (ebytes (ERec ty k d ps))).
Proof.
  pose proof (ser_at hd _ _ _ Hent) as Hat. pose proof (wf_ent _ _ _ Hwf Hent) as Hwe. cbn zeta.
  split_and!; [by eapply TYPE_at|by eapply rec_key_at|by eapply rec_data_at|by eapply LEVEL_at|by eapply FORWARD_at|].
  by rewrite (RECSIZE_ent hd _ _ _ Hwf Hent).
Qed.

Section Header.
Context `{E : Env} (Hroom : 2147483648 ≤ file_limit).

(** The header [write_header] writes over that of a file is the one
    [read_header] then reads, whatever the handle held. *)
Theorem header_roundtrip (ino : Z) (others : gmap Z bytes) (nm : gmap bytes Z) (nx : Z) (name : bytes)
    (hd0 hd h : header) (es : list entry) (dps : list Z) (g : mapping) (hl : gmap Z lock) (pos : Z) (t : nat)
    (Hhd : header_ok hd) (Hversion : version hd = SKIPLIST_VERSION) (Hwf : wf_file es)
    (Hdummy : ent DUMMY_OFFSET es DUMMY_OFFSET = Some (ERec DUMMY [] [] dps)) (Hlevels : length dps = maxl hd)
    (Hmap : covers ino g (ser hd0 es)) :
  wp (w ← write_header; modify_hdr (λ _, h);; r ← read_header; mret (w, r))
    (λ a s', a = (0, 0) ∧ hdr s' = hd ∧ inodes (fs s') !! ino = Some (ser hd es))
    (S_ ino others nm nx name (ser hd0 es) hd g hl pos t).
Proof using Hroom.
  pose proof (blen_ser hd0 es) as Hb. pose proof (blen_ser hd es) as Hb'. destruct Hmap as [Hof Hlen].
  apply wp_bind, (wp_write_header Hroom).
  { destruct Hwf as [_ Hs]. unfold DUMMY_OFFSET, HEADER_SIZE in Hs. lia. }
  intros pos'. unfold modify_hdr. apply wp_bind. wstep. cbn [set_hdr hdr S_].
  change (set_hdr h (SkipRun.S_ ino others nm nx name (ser hd es) hd g hl pos' t))
    with (SkipRun.S_ ino others nm nx name (ser hd es) h g hl pos' t).
  apply wp_bind. eapply wp_read_header; [done|done|done|split; [done|lia]|done|done|].
  apply wp_ret. split; [done|]. split; [done|]. cbn. by rewrite lookup_insert_eq.
Qed.
End Header.

(** [SAFE_TO_APPEND] says whether it is unsafe: a log that is empty or ends
    with a commit is safe, one that ends with a change is not. *)
Theorem safe_to_append_exact (hd : header) (es : list entry) (e : entry)
    (Hwf : wf_file (es ++ [e])) (Hlevels : levels_pos [e]) :
  let m := ser hd (es ++ [e]) in
  (closed hd (es ++ [e]) → SAFE_TO_APPEND m (blen m) (logstart hd) = Ok false) ∧
  (e ≠ ECommit → logstart hd ≠ blen m → SAFE_TO_APPEND m (blen m) (logstart hd) = Ok true).
Proof. cbn zeta. split; [by apply closed_safe|by apply unclosed_unsafe]. Qed.

(** ** The comparators *)

(** In the order of mailbox names a mailbox is followed at once by its
    hierarchy: no name comes between [p] and what is below [p.]. *)
Theorem children_follow_parent (p t k : bytes)
    (Hp : Forall mbox_char p) (Hk : Forall mbox_char k)
    (Hafter : bsearch_ncompare p k < 0) (Hother : ¬ (p ++ [46]) `prefix_of` k) :
  bsearch_ncompare (p ++ [46] ++ t) k < 0.
Proof.
  unfold bsearch_ncompare in *. rewrite compare_with_lex in *.
  revert k Hk Hafter Hother. induction Hp as [|x p Hx _ IH]; intros [|y k] Hk; cbn; try lia; inversion_clear Hk.
  - intros _ Hn. destruct (Z.eqb_spec (2 - TOCOMPARE y) 0) as [He|].
    + destruct Hn. exists k. cbn. f_equal. apply TOCOMPARE_inj; [done| |change (TOCOMPARE 46) with 2; lia].
      split_and!; done.
    + unfold mbox_char, is_byte, TOCOMPARE in *.
      destruct (Z.eqb_spec y 9), (Z.eqb_spec y 10), (Z.eqb_spec y 46), (Z.ltb_spec 0 y), (Z.ltb_spec y 9);
        cbn [orb andb] in *; lia.
  - destruct (Z.eqb_spec (TOCOMPARE x - TOCOMPARE y) 0) as [He|]; [|done].
    intros Hlt Hn. apply IH; [done|done|]. intros Hpre. apply Hn.
    assert (x = y) as -> by (apply TOCOMPARE_inj; [done|done|lia]). cbn. by apply prefix_cons.
Qed.

(** Both comparators are total orders that compare equal only equal keys. *)
Theorem comparators_order (a b c : bytes) :
  (all_bytes a → all_bytes b → compare a b = 0 ↔ a = b) ∧
  (Forall mbox_char a → Forall mbox_char b → bsearch_ncompare a b = 0 ↔ a = b) ∧
  (compare a b < 0 ↔ 0 < compare b a) ∧ (bsearch_ncompare a b < 0 ↔ 0 < bsearch_ncompare b a) ∧
  (compare a b < 0 → compare b c < 0 → compare a c < 0) ∧
  (bsearch_ncompare a b < 0 → bsearch_ncompare b c < 0 → bsearch_ncompare a c < 0).
Proof.
  split_and!; [apply ko_eq|apply ko_eq|apply (ko_sym (KeyOrder := compare_order))|
    apply (ko_sym (KeyOrder := bsearch_ncompare_order))|apply (ko_trans (KeyOrder := compare_order))|
    apply (ko_trans (KeyOrder := bsearch_ncompare_order))].
Qed.

(** ** The theorems at work on the empty database *)

Section Witnesses.
#[local] Existing Instance demo_env.

(** The skiplist backend as an instance, on this machine. *)
Abbreviation demo_ok := (skiplist_ok (compar := compare) (keyok := all_bytes) demo_calls demo_room).

Definition demo_ops : list op := [OFetch [1]; ODelete [0] false; ODelete [1] false; OStore [3] [4]; OCreate [3] [5]].

Lemma demo_key : all_bytes [1].
Proof. by constructor. Qed.

Lemma demo_fits : blen (ser demo_hdr [new_dummy]) = 144.
Proof. vm_compute. reflexivity. Qed.

Lemma demo_cost : ops_cost (BO := demo_ok) (OStore [1] [2] :: demo_ops) = 352.
Proof. vm_compute. reflexivity. Qed.

Lemma demo_store_ok : op_ok (compar := compare) (keyok := all_bytes) (OStore [1] [2]) (contents []).
Proof. split; [apply demo_key|vm_compute; done]. Qed.

Lemma demo_ops_ok : ops_ok (BO := demo_ok) (OStore [1] [2] :: demo_ops) (contents []).
Proof.
  split; [apply demo_store_ok|]. split; [apply demo_key|].
  do 2 (split; [split; [by constructor|exists [1]; split; [by exists [2]|vm_compute; done]]|]).
  split; [split; [by constructor|vm_compute; done]|]. split; [split; [by constructor|vm_compute; done]|done].
Qed.

Lemma transaction_refines_witness :
  wp (transact (B := cyrusdb_skiplist compare) (OStore [1] [2]) demo_ops) (λ answers s',
    answers = [(0, None); (0, Some [2]); (0, None); (0, None); (0, None); (CYRUSDB_EXISTS, None)] ∧
    ∃ ino' hd' es' l', ready (compar := compare) (keyok := all_bytes) s' ino' hd' es' l' ∧ contents l' = ∅) demo_st.
Proof.
  apply (transaction_refines demo_calls demo_room (OStore [1] [2]) demo_ops demo_st 1 demo_hdr [new_dummy] []);
    [apply demo_ready|apply demo_ops_ok|rewrite demo_fits, demo_cost; lia].
Defined.

(** Two transactions; the second is refused. *)
Definition demo_history : list (op * list op) := [(OStore [1] [2], [OStore [3] [4]]); (ODelete [1] false, [OCreate [3] [5]])].

Lemma demo_history_ok : history_ok (BO := demo_ok) demo_history (contents []).
Proof.
  split; [split; [apply demo_store_ok|]; split; [split; [by constructor|vm_compute; done]|done]|]. split; [|done].
  split; [|split; [split; [by constructor|vm_compute; done]|done]].
  split; [apply demo_key|]. exists [3]. split; [by exists [4]|vm_compute; done].
Qed.

Lemma demo_history_cost : history_cost (BO := demo_ok) demo_history = 352.
Proof. vm_compute. reflexivity. Qed.

Lemma always_consistent_witness :
  wp (rss ← history (B := cyrusdb_skiplist compare) demo_history; r ← consistent compare; mret (rss, r)) (λ a s',
    a = ([[(0, None); (0, None)]; [(0, None); (CYRUSDB_EXISTS, None)]], 0) ∧
    ∃ ino' hd' es' l', ready (compar := compare) (keyok := all_bytes) s' ino' hd' es' l' ∧
      contents l' = <[[3] := [4]]> {[[1] := [2]]}) demo_st.
Proof.
  apply (always_consistent demo_calls demo_room demo_history demo_st 1 demo_hdr [new_dummy] []);
    [apply demo_ready|apply demo_history_ok|rewrite demo_fits, demo_history_cost; lia].
Defined.

(** The record and its pointers had been written, the commit had not. *)
Lemma demo_crash : crashed demo_hdr [new_dummy] demo_hdr2 demo_entries 2 demo_hdr2 demo_entries.
Proof.
  destruct (wr_op_slist _ _ _ _ _ _ demo_hdr_ok demo_list demo_step) as (_ & _ & Hwf).
  split; [exists 2; repeat split; vm_compute; done|vm_compute; reflexivity|vm_compute; lia|exact Hwf].
Qed.

Lemma recovered_consistent_witness :
  wp (r ← myopen compare 0 demo_name false; c ← consistent compare; mret (r, c)) (λ a s', a = (0, 0))
    (demo_disk (ser demo_hdr2 demo_entries)).
Proof.
  apply (recovered_consistent demo_calls demo_room demo_clock demo_live demo_name 1 demo_hdr [new_dummy] [] demo_hdr2 demo_entries
    demo_nodes demo_txn 2 demo_hdr2 demo_entries 0 false); [apply demo_is_live|apply demo_crash|done|done|done|by left].
Defined.

(** Opening repairs it. *)
Lemma crash_atomic_witness :
  wp (myopen compare 0 demo_name false) (λ r s', r = 0 ∧
    ∃ hd' es' l', ready (compar := compare) (keyok := all_bytes) s' 1 hd' es' l' ∧ contents l' = contents [])
    (demo_disk (ser demo_hdr2 demo_entries)).
Proof.
  apply (crash_atomic demo_calls demo_room demo_clock demo_live demo_name 1 demo_hdr [new_dummy] [] demo_hdr2 demo_entries
    demo_nodes demo_txn 2 demo_hdr2 demo_entries 0 false); [apply demo_is_live|apply demo_crash|done|done|done|by left].
Defined.

Lemma call_autocommits_witness :
  wp (call (B := cyrusdb_skiplist compare) (OStore [1] [2]) NoTid) (λ r s', r = (0, None, None) ∧
    ∃ ino' hd' es' l', ready (compar := compare) (keyok := all_bytes) s' ino' hd' es' l' ∧ contents l' = {[[1] := [2]]}) demo_st.
Proof.
  apply (call_autocommits demo_calls demo_room (OStore [1] [2]) demo_st 1 demo_hdr [new_dummy] []);
    [apply demo_ready|apply demo_store_ok|rewrite demo_fits; vm_compute; done].
Defined.

Lemma abort_undoes_witness :
  wp (myabort compare demo_txn) (λ r s', r = 0 ∧
    ready (compar := compare) (keyok := all_bytes) s' 1 demo_hdr2 [new_dummy] [] ∧
    (∃ c, demo_hdr2 = set_curlevel c demo_hdr) ∧
    inodes (fs s') !! 1 = Some (ser demo_hdr2 [new_dummy]) ∧ held (fs s') !! 1 = None) demo_live.
Proof. apply (abort_undoes demo_calls demo_room demo_live 1 demo_hdr [new_dummy] [] demo_hdr2 demo_entries demo_nodes);
  [apply demo_is_live|by split]. Defined.

Lemma checkpoint_compresses_witness :
  wp (mycheckpoint compare true) (λ r s', r = 0 ∧
    ∃ hd' es' l', ready (compar := compare) (keyok := all_bytes) s' 2 hd' es' l' ∧ contents l' = contents demo_nodes ∧
      logstart hd' = blen (ser hd' es') ∧ blen (ser hd' es') ≤ blen (ser demo_hdr2 demo_entries) ∧
      held (fs s') !! 2 = Some LExclusive ∧
      inodes (fs s') !! 1 = Some (ser demo_hdr2 demo_entries) ∧ held (fs s') !! 1 = None) demo_live.
Proof.
  apply (checkpoint_compresses demo_calls demo_room demo_live 1 demo_hdr2 demo_entries demo_nodes demo_txn);
    [exact (lv_txn _ _ _ _ _ _ _ _ _ demo_is_live)|done|vm_compute; reflexivity].
Defined.

Lemma open_creates_witness :
  wp (myopen compare 0 [9] true) (λ r s', r = 0 ∧ fname s' = [9] ∧
    ∃ hd es l, ready (compar := compare) (keyok := all_bytes) s' 2 hd es l ∧ contents l = ∅) demo_st.
Proof. apply (open_creates demo_calls demo_room demo_clock demo_st [9] 0); reflexivity. Defined.

Lemma foreach_in_order_witness :
  wp (myforeach compare (λ (_ : Z) _ _, Ok true) (cb (λ n _ _, (0, n + 1))) 1 [] NoTid 5) (λ a s', a = ((0, 5), None) ∧
    ready (compar := compare) (keyok := all_bytes) s' 1 demo_hdr [new_dummy] [] ∧ inodes (fs s') = inodes (fs demo_st)) demo_st.
Proof.
  apply (foreach_in_order demo_calls (λ _ _ _, true) (λ n _ _, (0, n + 1)) 1 demo_st 1 demo_hdr [new_dummy] [] [] 5);
    [apply demo_ready|apply Forall_nil_2|vm_compute; lia].
Defined.

Lemma find_node_closest_witness :
  ∃ u, find_node compare (ser demo_hdr2 demo_entries) demo_hdr2 [3] = Ok (0, u) ∧ length u = 20%nat ∧
    ∀ i, (i < 20)%nat → u !! i = Some (last_off DUMMY_OFFSET (at_lvl i (below (compar := compare) [3] demo_nodes))).
Proof.
  destruct (wr_op_slist _ _ _ _ _ _ demo_hdr_ok demo_list demo_step) as (_ & Hsl & Hwf).
  apply (find_node_closest (KO := compare_order) demo_hdr2 demo_hdr2 demo_entries demo_nodes [3]); [exact Hwf|exact Hsl|by constructor].
Defined.

Lemma consistent_accepts_witness :
  wp (consistent compare) (λ r s', r = 0 ∧ ready (compar := compare) (keyok := all_bytes) s' 1 demo_hdr [new_dummy] [] ∧
    inodes (fs s') = inodes (fs demo_st)) demo_st.
Proof. apply (consistent_accepts demo_calls demo_st 1 demo_hdr [new_dummy] []). apply demo_ready. Defined.

Lemma delete_past_end_faults_witness : mydelete compare [7] NoTid false demo_st = Fault OutOfBounds.
Proof.
  apply (delete_past_end_faults (keyok := all_bytes) demo_calls demo_st 1 demo_hdr [new_dummy] [] [7] NoTid false);
    [apply demo_ready|by constructor|constructor|rewrite demo_fits; lia|by left].
Defined.

Lemma record_roundtrip_witness :
  let m := ser demo_hdr2 demo_entries in
  TYPE m 144 = Ok ADD ∧ rec_key m 144 = Ok [1] ∧ rec_data m 144 = Ok [2] ∧ LEVEL m 144 = Ok 2 ∧
  (∀ (i : nat) v, [0; 0] !! i = Some v → FORWARD m 144 (Z.of_nat i) = Ok v) ∧ RECSIZE m 144 = Ok 32.
Proof.
  destruct (wr_op_slist _ _ _ _ _ _ demo_hdr_ok demo_list demo_step) as (_ & _ & Hwf).
  apply (record_roundtrip demo_hdr2 demo_entries 144 ADD [1] [2] [0; 0]); [exact Hwf|vm_compute; reflexivity].
Defined.

Lemma header_roundtrip_witness :
  wp (w ← write_header; modify_hdr (λ _, demo_hdr);; r ← read_header; mret (w, r))
    (λ a s', a = (0, 0) ∧ hdr s' = demo_hdr2 ∧ inodes (fs s') !! 1 = Some (ser demo_hdr2 [new_dummy]))
    (S_ 1 ∅ {[demo_name := 1]} 2 demo_name (ser demo_hdr [new_dummy]) demo_hdr2 (Map 1 16384 144 1) ∅ 0 0).
Proof.
  destruct (wr_op_slist _ _ _ _ _ _ demo_hdr_ok demo_list demo_step) as (Hh & _ & _).
  apply (header_roundtrip demo_room) with (dps := replicate 20 0); [exact Hh|done|apply new_wf|done|done|by split].
Defined.

Lemma safe_to_append_exact_witness :
  let m := ser demo_hdr2 demo_entries in
  (closed demo_hdr2 demo_entries → SAFE_TO_APPEND m (blen m) 144 = Ok false) ∧
  (ERec ADD [1] [2] [0; 0] ≠ ECommit → 144 ≠ blen m → SAFE_TO_APPEND m (blen m) 144 = Ok true).
Proof.
  destruct (wr_op_slist _ _ _ _ _ _ demo_hdr_ok demo_list demo_step) as (_ & _ & Hwf).
  apply (safe_to_append_exact demo_hdr2 (add_ptrs (compar := compare) [new_dummy] [1] [] 2)); [exact Hwf|by constructor].
Defined.

(** [user.] is between [user] and [user-x]. *)
Lemma children_follow_parent_witness :
  bsearch_ncompare ([117; 115; 101; 114] ++ [46] ++ [97]) [117; 115; 101; 114; 45; 120] < 0.
Proof.
  apply children_follow_parent; [repeat constructor; done|repeat constructor; done|reflexivity|].
  intros [r Hr]. discriminate Hr.
Defined.
End Witnesses.

(** ** When things go wrong

    Runs of the model from a directory without files: the first process makes a
    database and stores in it, then a process dies, or the disk fills up.
    Each is a sequence of calls with what it returns. *)

(** A machine whose disk has room for files of [limit] bytes. *)
Definition machine (limit : Z) : Env := Build_Env (λ _, false) Nat.odd (λ _, 1000) limit false.
Definition nothing : st := St (Fs ∅ ∅ ∅ 7 0) [] None (Map 0 0 0 0) (Hdr 0 0 0 0 0 0 0).

(** What a run returns. *)
Definition outcome {A} (m : M A) : result A := '(a, _) ← m nothing; Ok a.

(** What other processes, or the system that goes down, do to the file. *)
Definition change_file (i : Z) (f : bytes → bytes) : M unit :=
  modify_fs (λ x, set_inodes (alter f i (inodes x)) x).

Section Runs.
Context (limit : Z).
#[local] Existing Instance machine.

Definition db : bytes := [109].
Definition mopen : M Z := myopen (E := machine limit) compare 0 db true.
Definition mput (k d : bytes) : M Z := '(r, _) ← store (E := machine limit) compare k d NoTid; mret r.
Definition mget (k : bytes) : M (Z * option bytes) :=
  '(r, d, _) ← myfetch (E := machine limit) compare k NoTid; mret (r, d).

(** Another process adds a record and dies before it commits; this one stores. *)
Definition store_after_death : M (Z * Z * Z * bytes) :=
  r1 ← mopen; r2 ← mput [1] [2; 3];
  size ← get (λ s, length (file_of s 7));
  change_file 7 (λ m, m ++ add_bytes [3] [] [0]);;
  r3 ← mput [2] [5];
  log ← get (λ s, take 24 (drop size (file_of s 7)));
  mret (r1, r2, r3, log).
Definition reopen_after_death : M (Z * Z * Z) :=
  '(r1, r2, r3, _) ← store_after_death; r ← mopen; mret (r2, r3, r).

(** The disk fills up. *)
Definition store_on_full_disk : M (Z * Z * Z) := r1 ← mopen; r2 ← mput [1] [2; 3]; r3 ← mput [2] [5]; mret (r1, r2, r3).
Definition fetch_on_full_disk : M (Z * option bytes) := _ ← store_on_full_disk; mget [2].

(** The last record is only partly on the disk when the machine comes up again. *)
Definition open_torn : M Z :=
  _ ← mopen; _ ← mput [1] [2; 3]; _ ← mput [2] [5]; change_file 7 (take 190);; mopen.
End Runs.

(** Two ways to lose a database.  [recovery] truncates the file and leaves
    [map_size] what it was, and [newtxn] starts the transaction there: a store
    that recovers first returns success with its committed record behind a hole
    of zeros, and the next [myopen], which recovers again, fails on the hole.
    [mystore] changes the pointers before it writes the record; when the disk is
    full it returns an error, but [myabort] finds nothing in the log to take
    back: the pointers lead past the end of the file, and the next fetch follows
    them out of the mapping. *)
Example recovery_and_full_disk_damage :
  outcome (store_after_death 2147483648) = Ok (0, 0, 0, replicate 24 0) ∧
  outcome (reopen_after_death 2147483648) = Ok (0, 0, CYRUSDB_IOERROR) ∧
  outcome (store_on_full_disk 200) = Ok (0, 0, CYRUSDB_IOERROR) ∧
  outcome (fetch_on_full_disk 200) = Fault OutOfBounds.
Proof. split_and!; vm_compute; reflexivity. Qed.

(** A record that is cut off has no end mark; [recovery] looks for it past the
    end of the mapping. *)
Example torn_record_faults : outcome (open_torn 2147483648) = Fault OutOfBounds.
Proof. vm_compute. reflexivity. Qed.
