(* ===== verification/DbAdmin.v ===== *)
(** * DbAdmin: archives, stamps and dumps

    What the backends do besides the calls on an open database:
    [cyrusdb_copyfile] of [lib/cyrusdb.c], [myarchive] of the skiplist and the
    flat backend (the same function twice), and [myinit] and [dump] of
    [lib/cyrusdb_skiplist.c]. *)
From stdpp Require Import gmap list.
From S2P Require Import Prelude CMem CString Prog DbFile CyrusDb BSearch Skiplist.
#[local] Open Scope Z_scope.

Section Admin.
Context `{E : Env}.

(** ** Copying *)

(** The loop of [read] and [retry_write]; [bufsize] is [st_blksize] of the source.
    [None] when the copy is complete. *)
Fixpoint copy_loop (fuel : nat) (src pos bufsize : Z) (dstfd : option (Z * Z)) (dstname : bytes) : M Z :=
  match fuel with
  | O => mfault OutOfFuel
  | S fuel' =>
      bad ← sys_fails;
      if (bad : bool) then close_fd (Some (src, pos));; close_fd dstfd;; unlink dstname;; mret (-1) else
      buf ← get (λ s, take (Z.to_nat bufsize) (drop (Z.to_nat pos) (file_of s src)));
      if blen buf =? 0 then close_fd (Some (src, pos));; close_fd dstfd;; mret 0 else
      '(n, dstfd) ← with_fd dstfd (retry_write buf);
      if negb (n =? blen buf) then close_fd (Some (src, pos));; close_fd dstfd;; unlink dstname;; mret (-1)
      else copy_loop fuel' src (pos + blen buf) bufsize dstfd dstname
  end.

(** [open(dstname, O_WRONLY | O_CREAT, ...)] does not truncate. *)
Definition cyrusdb_copyfile (bufsize : Z) (srcname dstname : bytes) : M Z :=
  bad ← sys_fails; src ← get (λ s, names (fs s) !! srcname);
  match src with
  | None => mret (-1)
  | Some src =>
      if (bad : bool) then mret (-1) else
      sbuf ← fstat (Some (src, 0));
      match sbuf with
      | None => close_fd (Some (src, 0));; mret (-1)
      | Some (_, size) =>
          dst ← open_creat dstname;
          match dst with
          | None => close_fd (Some (src, 0));; mret (-1)
          | Some dst => copy_loop (S (S (Z.to_nat size))) src 0 bufsize (Some (dst, 0)) dstname
          end
      end
  end.

(** [dstname] has 1024 bytes; a file name without a slash is a null pointer given
    to [strlcpy]. *)
Fixpoint archive_files (bufsize : Z) (fnames : list bytes) (dirname : bytes) : M Z :=
  match fnames with
  | [] => mret 0
  | fname :: fnames' =>
      match strrchr fname 47 with
      | None => mfault OutOfBounds
      | Some base =>
          r ← cyrusdb_copyfile bufsize fname (take 1023 (dirname ++ base));
          if negb (r =? 0) then mret CYRUSDB_IOERROR else archive_files bufsize fnames' dirname
      end
  end.
Definition myarchive (bufsize : Z) (fnames : list bytes) (dirname : bytes) : M Z :=
  archive_files bufsize fnames (take 1023 dirname).

(** ** The recovery stamp *)

(** [snprintf(sfile, sizeof(sfile), "%s/skipstamp", dbdir)] *)
Definition stamp_name (dbdir : bytes) : bytes :=
  take 1023 (dbdir ++ [47; 115; 107; 105; 112; 115; 116; 97; 109; 112]).

(** [write(fd, bs, n)]: what fits. *)
Definition c_write (bs : bytes) : M Z :=
  d ← get fd;
  match d with
  | None => mret (-1)
  | Some (ino, pos) =>
      let n := Z.min (blen bs) (Z.max 0 (file_limit - pos)) in
      if n =? 0 then mret (-1) else
      old ← get (λ s, file_of s ino);
      put_file ino (wr old pos (take (Z.to_nat n) bs));; modify (set_fd (Some (ino, pos + n)));; mret n
  end.

(** [myinit]: the code and [global_recovery].  A [time_t] of which only the first
    four bytes have been read is what was there before: reading it is a fault when
    the file had fewer. *)
Definition write_stamp (sfile : bytes) : M (Z * Z) :=
  now ← time_now;
  d ← open_creat sfile;
  match d with
  | None => mret (CYRUSDB_IOERROR, to_u32 now)
  | Some ino =>
      '(r, d) ← with_fd (Some (ino, 0)) (ftruncate 0);
      '(r, d) ← (if r =? -1 then mret (-1, d) else with_fd d (c_write (be32 now)));
      close_fd d;; mret (if r =? -1 then CYRUSDB_IOERROR else 0, to_u32 now)
  end.

Definition read_stamp (sfile : bytes) : M (Z * Z) :=
  bad ← sys_fails; ino ← get (λ s, names (fs s) !! sfile);
  match ino with
  | None => mret (0, 0)
  | Some ino =>
      if (bad : bool) then mret (0, 0) else
      bad ← sys_fails;
      m ← get (λ s, file_of s ino);
      close_fd (Some (ino, 0));;
      if (bad : bool) then mret (0, 0) else a ← liftr (rd32 m 0); mret (0, a)
  end.

Definition myinit (dbdir : bytes) (recover : bool) : M (Z * Z) :=
  if recover then write_stamp (stamp_name dbdir) else read_stamp (stamp_name dbdir).

(** ** [dump] *)

(** A line that is printed. *)
Inductive dump_line :=
  | DRecord (off type kl dl lvl : Z) (ptrs : list Z)
  | DDelete (off target : Z)
  | DOther (off type : Z).

Fixpoint dump_ptrs (n : nat) (m : bytes) (ptr i : Z) : result (list Z) :=
  match n with
  | O => Ok []
  | S n' => v ← FORWARD m ptr i; vs ← dump_ptrs n' m ptr (i + 1); Ok (v :: vs)
  end.

(** A record of unknown type has size 0: the loop does not end. *)
Fixpoint dump_loop (fuel : nat) (m : bytes) (ptr last : Z) : result (list dump_line) :=
  match fuel with
  | O => Fault OutOfFuel
  | S fuel' =>
      if negb (ptr <? last) then Ok [] else
      ty ← TYPE m ptr;
      l ← (if (ty =? DUMMY) || (ty =? INORDER) || (ty =? ADD) then
             kl ← KEYLEN m ptr; dl ← DATALEN m ptr; lvl ← LEVEL m ptr;
             ps ← dump_ptrs (Z.to_nat lvl) m ptr 0; Ok (DRecord ptr ty kl dl lvl ps)
           else if ty =? DELETE then t ← rd32 m (ptr + 4); Ok (DDelete ptr t)
           else Ok (DOther ptr ty));
      n ← RECSIZE m ptr;
      ls ← dump_loop fuel' m (ptr + n) last; Ok (l :: ls)
  end.

Definition dump : M (list dump_line) :=
  _ ← read_lock;
  size ← get (λ s, map_size (mp s));
  ls ← rd (λ m, dump_loop (S (length m)) m DUMMY_OFFSET size);
  _ ← unlock; mret ls.
End Admin.
