(* ===== verification/Flat.v ===== *)
(** * Flat: the flat file database backend

    [lib/cyrusdb_flat.c] over the file system of [DbFile].  A database is a text
    file of sorted lines, [key TAB data NEWLINE], that is only ever replaced: a
    change writes all of it to [fname.NEW], and a commit renames that.

    Of [struct db], [fname] and [fd] are those of the process state; [base] and
    [len] are the mapping [map_of], [map_len], [size] is [map_size], [ino]
    [map_ino].  The functions of [lib/] act on the descriptor of the state; for
    another one it is put there for the call ([with_fd]).  A [const char *key]
    is the memory from the key on, which may go on after [keylen] bytes. *)
From stdpp Require Import gmap.
From S2P Require Import Prelude CMem CString Prog DbFile CyrusDb BSearch.
#[local] Open Scope Z_scope.

(** [txn->fd] is [None] for 0. *)
Record ftxn := FTxn { fnamenew : option bytes; txnfd : option (Z * Z) }.

Section Backend.
Context `{E : Env}.

(** [db->size = n], [db->ino = n] *)
Definition set_size (n : Z) : M unit := modify (λ s, set_mp (set_map_size n (mp s)) s).
Definition set_ino (n : Z) : M unit :=
  modify (λ s, set_mp (Map (map_of (mp s)) (map_len (mp s)) (map_size (mp s)) n) s).

(** [map_free(&db->base, &db->len); map_refresh(d, 0, ...); db->size = size;] *)
Definition remap (d : option (Z * Z)) (size : Z) : M unit :=
  map_free;; _ ← with_fd d (map_refresh (Some size)); set_size size.

(** ** Transactions *)

Definition new_txn : ftxn := FTxn None None.

(** other routines call this one when they fail; the new file's descriptor stays open *)
Definition abort_txn (t : ftxn) : M Z :=
  (match fnamenew t with Some f => unlink f | None => mret tt end);;
  r ← lock_unlock;
  let r := if r =? -1 then CYRUSDB_IOERROR else r in
  (match fnamenew t with
   | None => mret tt
   | Some _ => (* return to our normally scheduled fd *)
       if negb (r =? 0) then mret tt else
       d ← get fd; sbuf ← fstat d;
       match sbuf with None => mret tt | Some (_, size) => remap d size end
   end);;
  mret 0.

(** The code, and what is at [*mytid] then. *)
Definition starttxn_or_refetch (mytid : tidp ftxn) : M (Z * option ftxn) :=
  name ← get fname; m ← get mp;
  match mytid with
  | OldTid t => mret (0, Some t)
  | NewTid => (* start txn; grab lock *)
      r ← lock_reopen name;
      match r with
      | None => mret (CYRUSDB_IOERROR, None)
      | Some ino =>
          size ← get (λ s, blen (file_of s ino));
          (if negb (map_ino m =? ino) then map_free else mret tt);;
          map_refresh (Some size);;
          (* we now have the latest & greatest open *)
          set_size size;; set_ino ino;; mret (0, Some new_txn)
      end
  | NoTid => (* no txn, but let's try to be reasonably up-to-date *)
      sbuf ← stat name;
      match sbuf with
      | None => mret (CYRUSDB_IOERROR, None)
      | Some (ino, size) =>
          r ← (if ino =? map_ino m then mret (Some size) else (* reopen *)
               bad ← sys_fails;
               if (bad : bool) then mret None else
               d ← get fd; close_fd d;; modify (set_fd (Some (ino, 0)));; close_fd (Some (ino, 0));;
               sbuf ← stat name;
               match sbuf with
               | None => mret None
               | Some (ino, size) => set_ino ino;; map_free;; mret (Some size)
               end);
          match r with
          | None => mret (CYRUSDB_IOERROR, None)
          | Some size => map_refresh (Some size);; set_size size;; mret (0, None)
          end
      end
  end.

(** ** [myopen], [myclose] *)

Definition set_db (s : st) : st := St (fs s) [] None (Map 0 0 0 0) (hdr s).

Definition myopen (name : bytes) (create_flag : bool) : M Z :=
  modify set_db;;
  f ← get fs; bad ← sys_fails;
  d ← (match names f !! name with
    | Some ino => mret (if (bad : bool) then None else Some ino)
    | None =>
        if negb create_flag then mret None else
        bad ← sys_fails; (* cyrus_mkdir *)
        if (bad : bool) then mret None else open_creat name
    end);
  match d with
  | None => mret CYRUSDB_IOERROR
  | Some ino =>
      modify (set_fd (Some (ino, 0)));;
      sbuf ← fstat (Some (ino, 0));
      match sbuf with
      | None => close_fd (Some (ino, 0));; modify (set_fd None);; mret CYRUSDB_IOERROR
      | Some (ino, size) =>
          set_ino ino;; map_refresh (Some size);; set_size size;;
          modify (λ s, St (fs s) name (fd s) (mp s) (hdr s));; mret 0
      end
  end.

Definition myclose : M Z :=
  map_free;; d ← get fd; close_fd d;; modify (set_fd None);; mret 0.

(** ** [myfetch] *)

(** The search, and the data: [*datalen] bytes from [*data]. *)
Definition find_data (key : bytes) (keylen : Z) : M (Z * option bytes) :=
  size ← get (λ s, map_size (mp s));
  '(offset, len) ← rd (λ m, bsearch_mem key true m size 0);
  if negb (len =? 0) then
    d ← rd (λ m, slice m (offset + keylen + 1) (to_s32 (len - keylen - 2))); mret (0, Some d)
  else mret (CYRUSDB_NOTFOUND, None).

Definition myfetch (key : bytes) (keylen : Z) (mytid : tidp ftxn) : M (Z * option bytes * option ftxn) :=
  '(r, tp) ← starttxn_or_refetch mytid;
  if negb (r =? 0) then mret (r, None, tp) else
  '(r, d) ← find_data key keylen; mret (r, d, tp).

Definition fetch := myfetch.
Definition fetchlock := myfetch.

(** A key with its NUL: the memory itself when it is terminated after [keylen]
    bytes, otherwise a copy. *)
Definition terminated (key : bytes) (keylen : Z) : result bytes :=
  c ← rd8 key keylen;
  if negb (c =? 0) then k ← slice key 0 keylen; Ok (k ++ [0]) else Ok key.

(** ** [foreach] *)

(** What [GETENTRY] sets, as offsets; [None] when the line is cut off. *)
Record fentry := FEntry { e_key : Z; e_keylen : Z; e_data : Z; e_datalen : Z }.
Definition GETENTRY (m : bytes) (p : Z) : result (option fentry) :=
  t ← strchr m p 9;
  match t with
  | None => Ok None
  | Some t =>
      e ← strchr m (t + 1) 10;
      match e with None => Ok None | Some e => Ok (Some (FEntry p (t - p) (t + 1) (e - (t + 1)))) end
  end.
Definition dataend (e : fentry) : Z := e_data e + e_datalen e.

(** A pointer into a mapped file is the file and an offset.  Without a
    transaction the loop has a mapping of its own, [Some] of file and length;
    with one it reads [db->base], and a pointer into a mapping that has been
    freed since cannot be used. *)
Definition at_base {A} (own : option (Z * Z)) (base_of : Z) (f : bytes → result A) : M A :=
  match own with
  | Some (ino, len) => λ s, a ← f (take (Z.to_nat len) (file_of s ino)); Ok (a, s)
  | None => cur ← get (λ s, map_of (mp s)); if cur =? base_of then rd f else mfault OutOfBounds
  end.

Section Foreach.
(** The caller's [rock], [goodp] and [cb]; the callback may use the database and
    the transaction at [*mytid]. *)
Context {R : Type} (goodp : R → bytes → bytes → result bool)
  (cb : option ftxn → R → bytes → bytes → M (Z * R * option ftxn)).

(** Keep the key for after the callback: [savebuflen] bytes are allocated. *)
Definition save_key (savebuflen keylen : Z) : result Z :=
  let savebuflen :=
    if savebuflen <? keylen then
      let dblsize := to_s32 (2 * savebuflen) in let addsize := to_s32 (keylen + 32) in
      if addsize <? dblsize then dblsize else addsize
    else savebuflen in
  if keylen <? savebuflen then Ok savebuflen else Fault OutOfBounds. (* savebuf[keylen] = 0 *)

(** Where to go on after a callback on [savebuf]: the entry there, and whether to
    look at it ([dontmove]) or at what follows it. *)
Definition reseek (savebuf : bytes) : M (option (fentry * bool)) :=
  size ← get (λ s, map_size (mp s));
  '(offset, _) ← rd (λ m, bsearch_mem (savebuf ++ [0]) true m size 0);
  e ← rd (λ m, GETENTRY m offset);
  match e with
  | None => mret None
  | Some e =>
      k ← rd (λ m, slice m (e_key e) (e_keylen e)); mret (Some (e, negb (bool_decide (k = savebuf))))
  end.

(** The while loop: the code, the rock, and [*mytid].  [pend] is not moved when the
    file is replaced; pointers into different mappings cannot be compared. *)
Fixpoint foreach_loop (fuel : nat) (intxn : bool) (own : option (Z * Z)) (prefix : bytes) (pend : Z * Z)
    (p : Z * Z) (dontmove : option fentry) (savebuflen : Z) (rock : R) (tp : option ftxn) : M (Z * R * option ftxn) :=
  match fuel with
  | O => mfault OutOfFuel
  | S fuel' =>
      if negb (p.1 =? pend.1) then mfault OutOfBounds else
      if negb (p.2 <? pend.2) then mret (0, rock, tp) else
      entry ← (match dontmove with Some e => mret (Some e) | None => at_base own p.1 (λ m, GETENTRY m p.2) end);
      match entry with
      | None => mret (CYRUSDB_IOERROR, rock, tp) (* huh, might be corrupted? *)
      | Some e =>
          (* does it still match prefix? *)
          if e_keylen e <? blen prefix then mret (0, rock, tp) else
          pre ← at_base own p.1 (λ m, slice m (e_key e) (blen prefix));
          if negb (blen prefix =? 0) && negb (bool_decide (pre = prefix)) then mret (0, rock, tp) else
          k ← at_base own p.1 (λ m, slice m (e_key e) (e_keylen e));
          d ← at_base own p.1 (λ m, slice m (e_data e) (e_datalen e));
          good ← liftr (goodp rock k d);
          if (good : bool) then
            m ← get mp;
            savebuflen ← (if intxn then liftr (save_key savebuflen (e_keylen e)) else mret savebuflen);
            '(r, rock, tp) ← cb tp rock k d;
            if negb (r =? 0) then mret (r, rock, tp) else
            m' ← get mp;
            if intxn && negb ((map_ino m =? map_ino m') && (map_size m =? map_size m')) then
              (* something changed in the file; reseek *)
              e' ← reseek k;
              match e' with
              | None => mret (CYRUSDB_IOERROR, rock, tp)
              | Some (e', stay) =>
                  foreach_loop fuel' intxn own prefix pend (map_of m', dataend e' + 1)
                    (if (stay : bool) then Some e' else None) savebuflen rock tp
              end
            else foreach_loop fuel' intxn own prefix pend (p.1, dataend e + 1) None savebuflen rock tp
          else foreach_loop fuel' intxn own prefix pend (p.1, dataend e + 1) None savebuflen rock tp
      end
  end.

(** [prefix] is [None] for NULL. *)
Definition foreach (fuel : nat) (prefix : option bytes) (prefixlen : Z) (mytid : tidp ftxn) (rock : R)
    : M (Z * R * option ftxn) :=
  '(r, tp) ← starttxn_or_refetch mytid;
  if negb (r =? 0) then mret (r, rock, tp) else
  size ← get (λ s, map_size (mp s)); base_of ← get (λ s, map_of (mp s)); d ← get fd;
  own ← (match mytid with
    | NoTid => (* dbfd = dup(db->fd), and a mapping of it *)
        bad ← sys_fails;
        match d with
        | Some (ino, _) => if (bad : bool) then mret None else _ ← lock_unlock; mret (Some (Some (ino, size)))
        | None => mret None
        end
    | _ => mret (Some None)
    end);
  match own with
  | None => mret (CYRUSDB_IOERROR, rock, tp)
  | Some own =>
      let base_of := match own with Some (ino, _) => ino | None => base_of end in
      '(offset, pre) ← (match prefix with
        | None => mret (0, [])
        | Some prefix =>
            pre ← liftr (slice prefix 0 prefixlen); realprefix ← liftr (terminated prefix prefixlen);
            '(offset, _) ← at_base own base_of (λ m, bsearch_mem realprefix true m size 0); mret (offset, pre)
        end);
      res ← foreach_loop fuel (match mytid with NoTid => false | _ => true end) own pre (base_of, size) (base_of, offset) None 0 rock tp;
      (match own with Some (ino, _) => close_fd (Some (ino, 0)) | None => mret tt end);;
      mret res
  end.
End Foreach.

(** ** [mystore] *)

(** [strlcpy(fnamebuf, db->fname, ...); strlcat(fnamebuf, ".NEW", ...)] with 1024 bytes. *)
Definition newfname (name : bytes) : bytes := take 1023 (take 1023 name ++ [46; 78; 69; 87]).

(** Lock the file, and look at what it is now: [sbuf]. *)
Definition lock_current : M (option (Z * Z)) :=
  name ← get fname; r ← lock_reopen name;
  match r with
  | None => mret None
  | Some ino =>
      size ← get (λ s, blen (file_of s ino)); m ← get mp;
      (if negb (ino =? map_ino m) then set_ino ino;; map_free;; map_refresh (Some size);; set_size size else mret tt);;
      mret (Some (ino, size))
  end.

(** Lock the file, if needed: the code, [sbuf] when it has been set, and what is
    at [*mytid]. *)
Definition store_lock (mytid : tidp ftxn) : M (Z * option (Z * Z) * option ftxn) :=
  match mytid with
  | OldTid t => mret (0, None, Some t)
  | _ =>
      sbuf ← lock_current;
      match sbuf with
      | None => mret (CYRUSDB_IOERROR, None, None)
      | Some _ => mret (0, sbuf, match mytid with NewTid => Some new_txn | _ => None end)
      end
  end.

(** The bytes of the new file: what is before the entry, the entry, what is after. *)
Definition new_contents (m key : bytes) (keylen : Z) (data : option bytes) (size offset len : Z) : result bytes :=
  pre ← (if negb (offset =? 0) then slice m 0 offset else Ok []);
  ent ← (match data with Some d => k ← slice key 0 keylen; Ok (k ++ [9] ++ d ++ [10]) | None => Ok [] end);
  let rest := to_u64 (size - (offset + len)) in
  post ← (if 0 <? rest then slice m (offset + len) rest else Ok []);
  Ok (pre ++ ent ++ post).

(** [if (mytid) abort_txn(db, *mytid)] *)
Definition abort_if (tp : option ftxn) : M unit :=
  match tp with Some t => _ ← abort_txn t; mret tt | None => mret tt end.

(** Setup so further accesses will be against fname.NEW; [sbuf] stays what it was
    when [fstat] fails. *)
Definition switch_to (t : ftxn) (fnamebuf : bytes) (writefd : option (Z * Z)) (sbuf : option (Z * Z)) : M (Z * option ftxn) :=
  st ← fstat writefd;
  match (match st with Some _ => st | None => sbuf end) with
  | None => mfault OutOfBounds (* [sbuf] has never been set *)
  | Some (_, size) =>
      close_fd (txnfd t);;
      remap writefd size;;
      mret (0, Some (FTxn (Some (default fnamebuf (fnamenew t))) writefd))
  end.

(** [fsync], [fstat] and [rename] of the new file: its [st_ino] and [st_size], [None]
    on failure, the file then being closed. *)
Definition install (writefd : option (Z * Z)) (fnamebuf name : bytes) : M (option (Z * Z)) :=
  r ← fsync writefd;
  sbuf ← (if r =? 0 then fstat writefd else mret None);
  match sbuf with
  | None => close_fd writefd;; mret None
  | Some sb =>
      r ← rename fnamebuf name;
      if r =? -1 then close_fd writefd;; mret None else mret (Some sb)
  end.

(** [close(db->fd); db->fd = writefd;] *)
Definition take_over (writefd : option (Z * Z)) : M unit := d ← get fd; close_fd d;; modify (set_fd writefd).

(** Commit immediately. *)
Definition store_now (fnamebuf : bytes) (writefd : option (Z * Z)) : M Z :=
  name ← get fname;
  sbuf ← install writefd fnamebuf name;
  match sbuf with
  | None => mret CYRUSDB_IOERROR
  | Some (ino, size) =>
      take_over writefd;;
      r ← lock_unlock; (* release lock *)
      set_ino ino;; remap writefd size;;
      mret (if r =? -1 then CYRUSDB_IOERROR else 0)
  end.

(** From [unlink] on. *)
Definition write_new (contents : bytes) (sbuf : option (Z * Z)) (tp : option ftxn) : M (Z * option ftxn) :=
  name ← get fname;
  let fnamebuf := match tp with
    | Some t => match fnamenew t with Some f => take 1023 f | None => newfname name end
    | None => newfname name end in
  unlink fnamebuf;;
  newfd ← open_creat fnamebuf;
  match newfd with
  | None => abort_if tp;; mret (CYRUSDB_IOERROR, None)
  | Some ino =>
      '(r, writefd) ← with_fd (Some (ino, 0)) (retry_write contents);
      if r =? -1 then
        close_fd writefd;;
        abort_if tp;;
        match tp with
        | Some _ => mfault OutOfBounds (* [abort_txn] has freed the transaction *)
        | None => r ← store_now fnamebuf None; mret (r, None)
        end
      else
        match tp with
        | Some t => switch_to t fnamebuf writefd sbuf
        | None => r ← store_now fnamebuf writefd; mret (r, None)
        end
  end.

(** Past the lock: find the entry, and write the file without it and with the new
    one; [data] is [None] for NULL, a deletion. *)
Definition store_entry (key : bytes) (keylen : Z) (data : option bytes) (overwrite : bool)
    (sbuf : option (Z * Z)) (tp : option ftxn) : M (Z * option ftxn) :=
  key ← liftr (terminated key keylen);
  size ← get (λ s, map_size (mp s));
  '(offset, len) ← rd (λ m, bsearch_mem key true m size 0); (* find entry, if it exists *)
  if negb (len =? 0) && negb overwrite then abort_if tp;; mret (CYRUSDB_EXISTS, None) else
  contents ← rd (λ m, new_contents m key keylen data size offset len);
  write_new contents sbuf tp.

Definition mystore (key : bytes) (keylen : Z) (data : option bytes) (mytid : tidp ftxn) (overwrite : bool)
    : M (Z * option ftxn) :=
  '(r, sbuf, tp) ← store_lock mytid;
  if negb (r =? 0) then mret (r, tp) else store_entry key keylen data overwrite sbuf tp.

Definition create (key : bytes) (keylen : Z) (data : bytes) (tid : tidp ftxn) := mystore key keylen (Some data) tid false.
Definition store (key : bytes) (keylen : Z) (data : bytes) (tid : tidp ftxn) := mystore key keylen (Some data) tid true.
(** [force] is not used. *)
Definition delete (key : bytes) (keylen : Z) (tid : tidp ftxn) (force : bool) := mystore key keylen None tid true.

(** ** [commit_txn] *)

Definition commit_txn (t : ftxn) : M Z :=
  match fnamenew t with
  | Some f => (* we wrote something *)
      name ← get fname;
      sbuf ← install (txnfd t) f name;
      match sbuf with
      | None => mret CYRUSDB_IOERROR
      | Some (ino, _) => take_over (txnfd t);; set_ino ino;; mret 0
      end
  | None => (* read-only txn *)
      r ← lock_unlock; mret (if r =? -1 then CYRUSDB_IOERROR else r)
  end.

(** The calls of the backend on an open database, with terminated keys. *)
Definition cyrusdb_flat : Backend := {|
  db_txn := ftxn;
  db_fetch k := fetch (k ++ [0]) (blen k);
  db_create k := create (k ++ [0]) (blen k);
  db_store k := store (k ++ [0]) (blen k);
  db_delete k tid force := delete (k ++ [0]) (blen k) tid force;
  db_commit := commit_txn;
  db_abort := abort_txn;
  db_foreach R fuel goodp cb prefix prefixlen rock :=
    '(r, rock, _) ← foreach goodp (λ tp rock k d, '(r, rock) ← cb rock k d; mret (r, rock, tp)) fuel (Some prefix) prefixlen NoTid rock;
    mret (r, rock);
|}.
End Backend.
