(* ===== verification/FlatSpec.v ===== *)
(** * FlatSpec: running the flat backend on files of lines

    What the system calls do when they succeed, as rules for [wp] on states that
    are written out; the number of calls made is whatever it is.  And what a change
    does to the list of records of a file, and the map they are. *)
From S2P Require Import Prelude CMem.
From stdpp Require Import gmap sorting list.
From S2P Require Import CString Prog DbFile CyrusDb BSearch DbOrder BSearchProof Flat.
#[local] Open Scope Z_scope.

(** The mapping is of [ino], if there is one; it shows the file [m]. *)
Definition maps (g : mapping) (ino : Z) : Prop := map_len g = 0 ∨ map_of g = ino.
Definition shows (g : mapping) (ino : Z) (m : bytes) : Prop := maps g ino ∧ blen m ≤ map_len g.

Section Run.
Context `{E : Env}.
Context (Hcalls : ∀ n, fails n = false) (Hroom : DB_LIMIT ≤ file_limit).

Section State.
Context (i : gmap Z bytes) (nm : gmap bytes Z) (nx : Z) (name : bytes) (h : header).
Abbreviation S_ hl d g t := (St (Fs i nm hl nx t) name d g h) (only parsing).

Lemma view_shows hl d g t ino m : i !! ino = Some m → shows g ino m → view (S_ hl d g t) = m.
Proof using.
  intros Hi [[H0|Ho] Hl]; unfold view; cbn [mp fs inodes].
  - rewrite H0 in *. destruct m as [|x m]; [done|]. rewrite blen_cons in Hl. pose proof (blen_nonneg m). lia.
  - rewrite Ho, Hi. cbn. apply take_ge. unfold blen in Hl. lia.
Qed.

Lemma wp_read_map {A} (f : bytes → result A) Q hl d g t ino m a :
  i !! ino = Some m → shows g ino m → f m = Ok a → Q a (S_ hl d g t) → wp (rd f) Q (S_ hl d g t).
Proof using. intros Hi Hs Hf. apply wp_rd. by rewrite (view_shows _ _ _ _ _ _ Hi Hs). Qed.

Lemma wp_call_ok Q hl d g t : (∀ t', Q false (S_ hl d g t')) → wp sys_fails Q (S_ hl d g t).
Proof using Hcalls. intros HQ. eapply wp_intro; [reflexivity|]. rewrite Hcalls. apply (HQ (S t)). Qed.

Lemma wp_with_fd {A} d' (m : M A) Q hl d g t :
  wp m (λ a s', Q (a, fd s') (set_fd d s')) (S_ hl d' g t) → wp (with_fd d' m) Q (S_ hl d g t).
Proof using.
  intros H. unfold with_fd. apply wp_bind, wp_get. apply wp_bind, wp_modify. apply wp_bind.
  eapply wp_mono; [exact H|]. intros a s' HQ. apply wp_bind, wp_get. apply wp_bind, wp_modify. by apply wp_ret.
Qed.

Lemma wp_fstat ino pos m Q hl d g t :
  i !! ino = Some m → (∀ t', Q (Some (ino, blen m)) (S_ hl d g t')) → wp (fstat (Some (ino, pos))) Q (S_ hl d g t).
Proof using Hcalls.
  intros Hi HQ. unfold fstat. apply wp_bind, wp_call_ok. intros t'. apply wp_bind, wp_get, wp_ret.
  unfold file_of. cbn [fs inodes]. rewrite Hi. apply HQ.
Qed.

Lemma wp_stat f ino m Q hl d g t :
  nm !! f = Some ino → i !! ino = Some m →
  (∀ t', Q (Some (ino, blen m)) (S_ hl d g t')) → wp (stat f) Q (S_ hl d g t).
Proof using Hcalls.
  intros Hn Hi HQ. unfold stat. apply wp_bind, wp_call_ok. intros t'. apply wp_bind, wp_get. cbn [fs names]. rewrite Hn.
  apply wp_bind, wp_get, wp_ret. unfold file_of. cbn [fs inodes]. rewrite Hi. apply HQ.
Qed.

Lemma wp_fsync_fd ino pos Q hl d g t : (∀ t', Q 0 (S_ hl d g t')) → wp (fsync (Some (ino, pos))) Q (S_ hl d g t).
Proof using Hcalls. intros HQ. unfold fsync. apply wp_bind, wp_call_ok. intros t'. apply wp_ret, HQ. Qed.

Lemma wp_close_fd ino pos Q hl d g t :
  Q tt (S_ (base.delete ino hl) d g t) → wp (close_fd (Some (ino, pos))) Q (S_ hl d g t).
Proof using. intros HQ. unfold close_fd, drop_lock, modify_fs. by apply wp_modify. Qed.

Lemma wp_lock_unlock ino pos Q hl g t :
  (∀ t', Q 0 (S_ (base.delete ino hl) (Some (ino, pos)) g t')) → wp lock_unlock Q (S_ hl (Some (ino, pos)) g t).
Proof using Hcalls.
  intros HQ. unfold lock_unlock. apply wp_bind, wp_get. cbn [fd]. apply wp_bind, wp_call_ok. intros t'.
  apply wp_bind. unfold drop_lock, modify_fs. apply wp_modify, wp_ret, HQ.
Qed.

Lemma wp_lock_reopen ino i0 pos0 Q hl g t :
  nm !! name = Some ino →
  (∀ pos hl' t', hl' !! ino = Some LExclusive → Q (Some ino) (S_ hl' (Some (ino, pos)) g t')) →
  wp (lock_reopen name) Q (S_ hl (Some (i0, pos0)) g t).
Proof using Hcalls.
  intros Hn HQ. unfold lock_reopen. cbn [lock_loop].
  apply wp_bind, wp_get. cbn [fd]. apply wp_bind, wp_call_ok. intros t1.
  unfold set_lock, modify_fs. apply wp_bind, wp_modify. apply wp_bind, wp_get. cbn [fs set_fs set_held names inodes held nextino ticks fd fname mp hdr].
  rewrite Hn. destruct (Z.eqb_spec i0 ino) as [->|Hne].
  { apply wp_ret, (HQ pos0 (<[ino := LExclusive]> hl) t1). apply lookup_insert_eq. }
  apply wp_bind, wp_call_ok. intros t2. unfold drop_lock, modify_fs. apply wp_bind, wp_modify. apply wp_bind, wp_modify.
  apply wp_bind, wp_get. cbn [fd set_fd]. apply wp_bind, wp_call_ok. intros t3. apply wp_bind, wp_modify. apply wp_bind, wp_get.
  cbn [fs set_fs set_fd set_held names inodes held nextino ticks fd fname mp hdr]. rewrite Hn, Z.eqb_refl.
  apply wp_ret, (HQ 0 (<[ino := LExclusive]> (base.delete i0 (<[i0 := LExclusive]> hl))) t3). apply lookup_insert_eq.
Qed.

(** After [map_refresh] to the size of the file the mapping shows it. *)
Lemma wp_map_to ino pos m Q hl g t :
  maps g ino →
  (∀ g', shows g' ino m → map_size g' = map_size g → map_ino g' = map_ino g → Q tt (S_ hl (Some (ino, pos)) g' t)) →
  wp (map_refresh (Some (blen m))) Q (S_ hl (Some (ino, pos)) g t).
Proof using.
  intros Hg HQ. unfold map_refresh. apply wp_bind, wp_get. cbn [fd]. apply wp_bind, wp_get, wp_bind, wp_get. cbn [from_option id mp]. unfold id.
  destruct (Z.leb_spec (blen m) (map_len g)); [apply wp_ret, HQ; [by split|done..]|].
  apply wp_modify. cbn [set_mp fs fname fd mp hdr]. apply HQ; [|done..]. split; [by right|]. cbn [map_len].
  pose proof (map_round (blen m) (blen_nonneg m)). lia.
Qed.

Lemma wp_remap ino pos m Q hl d g t :
  (∀ g', shows g' ino m → map_size g' = blen m → map_ino g' = map_ino g → Q tt (S_ hl d g' t)) →
  wp (remap (Some (ino, pos)) (blen m)) Q (S_ hl d g t).
Proof using.
  intros HQ. unfold remap, map_free. apply wp_bind, wp_bind, wp_get, wp_modify. cbn [set_mp fs fname fd mp hdr].
  apply wp_bind, wp_with_fd, wp_map_to; [by left|]. intros g' Hs Hsz Hi. cbn [fd set_fd fs fname mp hdr].
  unfold set_size. apply wp_modify. cbn [set_mp fs fname fd mp hdr]. by apply HQ.
Qed.

Lemma wp_set_size n Q hl d g t : Q tt (S_ hl d (set_map_size n g) t) → wp (set_size n) Q (S_ hl d g t).
Proof using. intros. by apply wp_modify. Qed.
Lemma wp_set_ino n Q hl d g t :
  Q tt (S_ hl d (Map (map_of g) (map_len g) (map_size g) n) t) → wp (set_ino n) Q (S_ hl d g t).
Proof using. intros. by apply wp_modify. Qed.
End State.

(** ** Calls that change the directory or a file *)

Section Change.
Context (i : gmap Z bytes) (nm : gmap bytes Z) (nx : Z) (name : bytes) (h : header).

Lemma wp_unlink_name f Q hl d g t :
  (∀ t', Q tt (St (Fs i (base.delete f nm) hl nx t') name d g h)) → wp (unlink f) Q (St (Fs i nm hl nx t) name d g h).
Proof using Hcalls.
  intros HQ. unfold unlink. apply wp_bind, wp_call_ok. intros t'. unfold modify_fs. apply wp_modify, HQ.
Qed.

Lemma wp_open_new f Q hl d g t :
  nm !! f = None →
  (∀ t', Q (Some nx) (St (Fs (<[nx := []]> i) (<[f := nx]> nm) hl (nx + 1) t') name d g h)) →
  wp (open_creat f) Q (St (Fs i nm hl nx t) name d g h).
Proof using Hcalls.
  intros Hn HQ. unfold open_creat. apply wp_bind, wp_call_ok. intros t'. apply wp_bind, wp_get. cbn [fs names].
  rewrite Hn. apply wp_bind, wp_modify. apply wp_ret, HQ.
Qed.

Lemma wp_write_all ino bs Q hl g t :
  i !! ino = Some [] → blen bs < DB_LIMIT →
  Q (blen bs) (St (Fs (<[ino := bs]> i) nm hl nx t) name (Some (ino, blen bs)) g h) →
  wp (retry_write bs) Q (St (Fs i nm hl nx t) name (Some (ino, 0)) g h).
Proof using Hroom.
  intros Hi Hl HQ. unfold retry_write. unfold DB_LIMIT in *. pose proof (blen_nonneg bs).
  destruct (Z.eqb_spec (blen bs) 0) as [H0|Hne].
  { assert (bs = []) as -> by (destruct bs; [done|rewrite blen_cons in H0; pose proof (blen_nonneg bs); lia]).
    apply wp_ret. by rewrite insert_id in HQ. }
  apply wp_bind, wp_get. cbn [fd]. apply wp_bind, wp_get. unfold file_of. cbn [fs inodes]. rewrite Hi.
  cbn [from_option id]. rewrite Z.max_r, Z.min_l by lia. destruct (Z.eqb_spec (blen bs) 0); [done|].
  unfold put_file, modify_fs. apply wp_bind, wp_bind, wp_modify. apply wp_modify. cbn [set_fd set_fs set_inodes fs inodes names held nextino ticks fname fd mp hdr].
  rewrite Z.eqb_refl. apply wp_ret. replace (Z.to_nat (blen bs)) with (length bs) by (unfold blen; lia).
  rewrite firstn_all. rewrite (wr_append [] bs : wr [] 0 bs = bs). exact HQ.
Qed.

Lemma wp_rename f f' w Q hl d g t :
  nm !! f = Some w →
  (∀ t', Q 0 (St (Fs i (<[f' := w]> (base.delete f nm)) hl nx t') name d g h)) →
  wp (rename f f') Q (St (Fs i nm hl nx t) name d g h).
Proof using Hcalls.
  intros Hn HQ. unfold rename. apply wp_bind, wp_call_ok. intros t'. apply wp_bind, wp_get. cbn [fs names]. rewrite Hn.
  unfold modify_fs. apply wp_bind, wp_modify. apply wp_ret, HQ.
Qed.
End Change.
End Run.

(** ** Files of lines as maps *)

Definition contents (l : list rec) : gmap bytes bytes := list_to_map l.

(** The records with the key, none or one. *)
Definition mid_of (k : bytes) (od : option bytes) : list rec := match od with Some d => [(k, d)] | None => [] end.

(** [k] belongs between [l1] and [l2]. *)
Definition between (k : bytes) (l1 l2 : list rec) : Prop :=
  Forall (λ x, bsearch_ncompare x.1 k < 0) l1 ∧ Forall (λ x, bsearch_ncompare k x.1 < 0) l2.

Lemma between_not_in k l1 l2 : between k l1 l2 → (k ∉ l1.*1) ∧ (k ∉ l2.*1).
Proof.
  assert (bsearch_ncompare k k = 0) as Hk by (unfold bsearch_ncompare; rewrite compare_with_lex; apply lex_refl).
  intros [H1 H2]. split; intros ([k' d] & [= ->] & Hin)%list_elem_of_fmap.
  - apply (proj1 (Forall_forall _ _) H1) in Hin. cbn in Hin. lia.
  - apply (proj1 (Forall_forall _ _) H2) in Hin. cbn in Hin. lia.
Qed.

(** What [bsearch_mem] found, with the record taken out of the list. *)
Lemma placed_split l k p :
  recs_ok l → Forall mbox_char k → placed l k p →
  ∃ l1 od l2, l = l1 ++ mid_of k od ++ l2 ∧ between k l1 l2 ∧ p = (blen (lines l1), blen (lines (mid_of k od))).
Proof.
  intros Hok Hk [(l1 & d & l2 & Hl & ->)|(l1 & l2 & Hl & -> & Hb & Ha)].
  - exists l1, (Some d), l2. split; [done|]. split.
    + destruct (rec_in l Hok l1 (k, d) l2 Hl) as (_ & H2 & H1). split; [exact H1|exact H2].
    + f_equal. cbn [mid_of]. rewrite lines_cons. by rewrite app_nil_r.
  - exists l1, None, l2. split; [done|]. by split.
Qed.

Lemma recs_ok_mid k l1 od l2 od' :
  recs_ok (l1 ++ mid_of k od ++ l2) → between k l1 l2 → Forall mbox_char k →
  (∀ d, od' = Some d → Forall data_char d) → recs_ok (l1 ++ mid_of k od' ++ l2).
Proof.
  intros [Hr Hs] [Hb Ha] Hk Hd. rewrite !Forall_app in Hr. destruct Hr as (Hr1 & _ & Hr2).
  apply StronglySorted_app in Hs as (Hx & Hs1 & Hs'). apply StronglySorted_app in Hs' as (_ & _ & Hs2).
  assert (∀ x, x ∈ l1 → ∀ y, y ∈ l2 → key_lt x y) as H12.
  { intros x Hx1 y Hy. apply (Hx x y Hx1). apply elem_of_app. by right. }
  destruct od' as [d|]; cbn [mid_of app].
  - split.
    + rewrite Forall_app, Forall_cons. split_and!; [done|split; [done|by apply Hd]|done].
    + apply StronglySorted_app. split_and!; [|done|].
      * intros x y Hx1 [->|Hy]%elem_of_cons; [|by apply H12].
        by apply (proj1 (Forall_forall _ _) Hb).
      * constructor; [done|]. exact Ha.
  - split; [by rewrite Forall_app|]. apply StronglySorted_app. split_and!; [|done|done].
    intros x y ??. by apply H12.
Qed.

Section Contents.
Context (k : bytes) (l1 l2 : list rec) (Hk : between k l1 l2).

Lemma contents_mid od :
  contents (l1 ++ mid_of k od ++ l2) = match od with Some d => <[k := d]> (contents l1 ∪ contents l2) | None => contents l1 ∪ contents l2 end.
Proof using Hk.
  destruct (between_not_in _ _ _ Hk) as [H1 H2]. unfold contents. destruct od as [d|]; cbn [mid_of app].
  - rewrite list_to_map_app, list_to_map_cons. symmetry. apply insert_union_r. by apply not_elem_of_list_to_map_1.
  - by rewrite list_to_map_app.
Qed.

Lemma contents_find od : contents (l1 ++ mid_of k od ++ l2) !! k = od.
Proof using Hk.
  rewrite contents_mid. destruct od as [d|]; [apply lookup_insert_eq|].
  destruct (between_not_in _ _ _ Hk) as [H1 H2]. unfold contents.
  by rewrite lookup_union_None_2 by by apply not_elem_of_list_to_map_1.
Qed.

Lemma contents_change od od' :
  contents (l1 ++ mid_of k od' ++ l2) =
    match od' with
    | Some d => <[k := d]> (contents (l1 ++ mid_of k od ++ l2))
    | None => base.delete k (contents (l1 ++ mid_of k od ++ l2))
    end.
Proof using Hk.
  rewrite !contents_mid. destruct od' as [d|].
  - destruct od; [by rewrite insert_insert_eq|done].
  - destruct (between_not_in _ _ _ Hk) as [H1 H2].
    assert ((contents l1 ∪ contents l2) !! k = None) as Hn by (unfold contents; by rewrite lookup_union_None_2 by by apply not_elem_of_list_to_map_1).
    destruct od; [by rewrite delete_insert_id|by rewrite delete_id].
Qed.
End Contents.

(** ** The new file *)

Lemma slice_app (a b c : bytes) : slice (a ++ b ++ c) (blen a) (blen b) = Ok b.
Proof.
  unfold slice. rewrite !blen_app. pose proof (blen_nonneg a). pose proof (blen_nonneg b). pose proof (blen_nonneg c).
  destruct (Z.leb_spec 0 (blen a)), (Z.leb_spec 0 (blen b)), (Z.leb_spec (blen a + blen b) (blen a + (blen b + blen c))); try lia.
  cbn [andb]. unfold blen. by rewrite !Nat2Z.id, drop_app_length, take_app_length.
Qed.

Lemma slice_parts (m a b c : bytes) o n : m = a ++ b ++ c → o = blen a → n = blen b → slice m o n = Ok b.
Proof. intros -> -> ->. apply slice_app. Qed.

Lemma blen_0 (m : bytes) : blen m = 0 → m = [].
Proof. destruct m; [done|]. rewrite blen_cons. pose proof (blen_nonneg m). lia. Qed.

Lemma new_contents_ok k rest l1 od l2 od' :
  let l := l1 ++ mid_of k od ++ l2 in blen (lines l) < DB_LIMIT →
  new_contents (lines l) (k ++ rest) (blen k) od' (blen (lines l)) (blen (lines l1)) (blen (lines (mid_of k od))) =
    Ok (lines (l1 ++ mid_of k od' ++ l2)).
Proof.
  intros l Hl. assert (lines l = lines l1 ++ lines (mid_of k od) ++ lines l2) as Hm by by (unfold l; rewrite !lines_app).
  unfold new_contents, DB_LIMIT in *. rewrite Hm in *. rewrite !blen_app in *.
  pose proof (blen_nonneg (lines l1)). pose proof (blen_nonneg (lines l2)). pose proof (blen_nonneg (lines (mid_of k od))).
  rewrite to_u64_small by lia.
  assert ((if negb (blen (lines l1) =? 0) then slice (lines l1 ++ lines (mid_of k od) ++ lines l2) 0 (blen (lines l1)) else Ok []) =
    Ok (lines l1)) as ->.
  { destruct (Z.eqb_spec (blen (lines l1)) 0) as [Hz|]; cbn [negb]; [by rewrite (blen_0 _ Hz)|].
    by apply (slice_parts _ [] (lines l1) (lines (mid_of k od) ++ lines l2)). }
  assert (match od' with Some d => k0 ← slice (k ++ rest) 0 (blen k); Ok (k0 ++ [9] ++ d ++ [10]) | None => Ok [] end =
    Ok (lines (mid_of k od'))) as Hent.
  { destruct od' as [d|]; [|done]. rewrite (slice_parts _ [] k rest) by done. cbn [mbind result_bind mid_of].
    rewrite lines_cons, app_nil_r. done. }
  cbn [mbind result_bind] in *. rewrite Hent. cbn [mbind result_bind].
  replace (blen (lines l1) + (blen (lines (mid_of k od)) + blen (lines l2)) - (blen (lines l1) + blen (lines (mid_of k od))))
    with (blen (lines l2)) by lia.
  assert ((if 0 <? blen (lines l2) then slice (lines l1 ++ lines (mid_of k od) ++ lines l2)
      (blen (lines l1) + blen (lines (mid_of k od))) (blen (lines l2)) else Ok []) = Ok (lines l2)) as Hpost.
  { destruct (Z.ltb_spec 0 (blen (lines l2))).
    - apply (slice_parts _ (lines l1 ++ lines (mid_of k od)) (lines l2) []); [by rewrite app_nil_r, app_assoc|by rewrite blen_app|done].
    - by rewrite (blen_0 (lines l2)) by lia. }
  rewrite Hpost. cbn [mbind result_bind]. by rewrite !lines_app.
Qed.

(** The data of the line found. *)
Lemma fetched_ok k l1 d l2 :
  blen (lines (l1 ++ mid_of k (Some d) ++ l2)) < DB_LIMIT →
  slice (lines (l1 ++ mid_of k (Some d) ++ l2)) (blen (lines l1) + blen k + 1)
    (to_s32 (blen (lines (mid_of k (Some d))) - blen k - 2)) = Ok d.
Proof.
  unfold DB_LIMIT. cbn [mid_of]. rewrite !lines_app, !lines_cons, app_nil_r, !blen_app, blen_line. cbn [fst snd]. intros Hl.
  pose proof (blen_nonneg (lines l1)). pose proof (blen_nonneg (lines l2)). pose proof (blen_nonneg k). pose proof (blen_nonneg d).
  rewrite to_s32_small by (unfold is_s32; lia).
  apply (slice_parts _ (lines l1 ++ k ++ [9]) d ([10] ++ lines l2)); [|blia|lia].
  unfold line. cbn [fst snd]. rewrite <- !app_assoc. cbn [app]. by rewrite <- !app_assoc.
Qed.

Lemma terminated_ok k r : terminated (k ++ 0 :: r) (blen k) = Ok (k ++ 0 :: r).
Proof. unfold terminated. by rewrite rd8_end. Qed.

Lemma terminated_copy k c r : c ≠ 0 → terminated (k ++ c :: r) (blen k) = Ok (k ++ [0]).
Proof.
  intros Hc. unfold terminated. rewrite rd8_end. cbn [mbind result_bind]. destruct (Z.eqb_spec c 0); [done|]. cbn [negb].
  by rewrite (slice_parts _ [] k (c :: r)).
Qed.

(** The key's memory, terminated or not. *)
Lemma terminated_key k c r : ∃ r', terminated (k ++ c :: r) (blen k) = Ok (k ++ 0 :: r').
Proof. destruct (decide (c = 0)) as [->|]; [exists r; apply terminated_ok|exists []; by apply terminated_copy]. Qed.
