(* ===== verification/FlatProof.v ===== *)
(** * FlatProof: the calls of the flat backend

    The invariant of an open database ([flat_db]), whose handle another process
    may have left behind, and of a transaction ([flat_txn]), and what each call
    does to them when no system call fails. *)
From S2P Require Import Prelude CMem.
From stdpp Require Import gmap sorting list.
From S2P Require Import CString Prog DbFile CyrusDb BSearch DbOrder BSearchProof Flat FlatSpec.
#[local] Open Scope Z_scope.

(** ** Invariants *)

(** The named file holds [l].  The descriptor and the mapping are of the file
    they were of last, which need not be this one. *)
Record flat_db (s : st) (ino : Z) (l : list rec) : Prop := {
  fb_name : names (fs s) !! fname s = Some ino;
  fb_file : inodes (fs s) !! ino = Some (lines l);
  fb_recs : recs_ok l;
  fb_size : blen (lines l) < DB_LIMIT;
  fb_short : blen (fname s) < 1020;
  fb_old : ino < nextino (fs s);
  fb_fd : ∃ pos, fd s = Some (map_ino (mp s), pos);
  fb_map : maps (mp s) (map_ino (mp s));
  fb_shown : map_ino (mp s) = ino → map_size (mp s) = blen (lines l) ∧ blen (lines l) ≤ map_len (mp s);
}.

(** A transaction: the named file is locked and holds what it held, [l0]; what the
    transaction sees, [l], is in it or in [fname.NEW]. *)
Record flat_txn (s : st) (ino : Z) (l0 l : list rec) (t : ftxn) : Prop := {
  ft_name : names (fs s) !! fname s = Some ino;
  ft_file : inodes (fs s) !! ino = Some (lines l0);
  ft_recs0 : recs_ok l0;
  ft_size0 : blen (lines l0) < DB_LIMIT;
  ft_short : blen (fname s) < 1020;
  ft_old : ino < nextino (fs s);
  ft_fd : ∃ pos, fd s = Some (ino, pos);
  ft_ino : map_ino (mp s) = ino;
  ft_lock : held (fs s) !! ino = Some LExclusive;
  ft_recs : recs_ok l;
  ft_size : blen (lines l) < DB_LIMIT;
  ft_msize : map_size (mp s) = blen (lines l);
  ft_new : match fnamenew t with
    | None => txnfd t = None ∧ l = l0 ∧ shows (mp s) ino (lines l)
    | Some f => f = newfname (fname s) ∧ ∃ w pos, txnfd t = Some (w, pos) ∧ w ≠ ino ∧
        w < nextino (fs s) ∧ names (fs s) !! f = Some w ∧ inodes (fs s) !! w = Some (lines l) ∧
        shows (mp s) w (lines l)
    end;
}.

Lemma txn_shows s ino l0 l t :
  flat_txn s ino l0 l t → ∃ w, inodes (fs s) !! w = Some (lines l) ∧ shows (mp s) w (lines l).
Proof.
  intros [_ Hf _ _ _ _ _ _ _ _ _ _ H]. destruct (fnamenew t).
  - destruct H as (_ & w & pos & _ & _ & _ & _ & ? & ?). by exists w.
  - destruct H as (_ & -> & ?). by exists ino.
Qed.

Lemma txn_view s ino l0 l t : flat_txn s ino l0 l t → view s = lines l.
Proof.
  intros H. destruct (txn_shows _ _ _ _ _ H) as (w & Hw & Hs). destruct s as [[i nm hl nx tk] name d g h].
  by eapply view_shows.
Qed.

Lemma db_view s ino l : flat_db s ino l → map_ino (mp s) = ino → view s = lines l.
Proof.
  intros [_ Hf _ _ _ _ _ Hm Hs] Hi. destruct s as [[i nm hl nx tk] name d g h]. cbn in *. subst ino.
  eapply view_shows; [exact Hf|]. split; [done|]. by apply Hs.
Qed.

(** A transaction that has written nothing leaves the database as it is. *)
Lemma txn_db s ino l0 l t : flat_txn s ino l0 l t → fnamenew t = None → flat_db s ino l0.
Proof.
  intros [? ? ? ? ? ? [pos Hfd] Hi ? ? ? ? Hn] Ht. rewrite Ht in Hn. destruct Hn as (_ & -> & Hm & Hl).
  split; try done; [exists pos; by rewrite Hi|by rewrite Hi].
Qed.

Lemma newfname_eq name : blen name < 1020 → newfname name = name ++ [46; 78; 69; 87].
Proof.
  intros H. unfold newfname, blen in *. rewrite (take_ge name) by lia. apply take_ge. rewrite length_app. cbn. lia.
Qed.

Lemma newfname_ne name : blen name < 1020 → newfname name ≠ name.
Proof. intros H. rewrite newfname_eq by done. intros He%(f_equal length). rewrite length_app in He. cbn in He. lia. Qed.

Lemma newfname_take name : blen name < 1020 → take 1023 (newfname name) = newfname name.
Proof. intros H. rewrite newfname_eq by done. apply take_ge. unfold blen in H. rewrite length_app. cbn. lia. Qed.

Section Calls.
Context `{E : Env}.
Context (Hcalls : ∀ n, fails n = false) (Hroom : DB_LIMIT ≤ file_limit).

(** ** Beginning *)

Lemma start_new s ino l :
  flat_db s ino l → wp (starttxn_or_refetch NewTid) (λ r s', r = (0, Some new_txn) ∧ flat_txn s' ino l l new_txn) s.
Proof using Hcalls.
  intros [Hn Hf Hr Hz Hsh Hold [pos Hfd] Hm Hs]. destruct s as [[i nm hl nx tk] name d g h]. cbn in *. subst d.
  unfold starttxn_or_refetch. apply wp_bind, wp_get, wp_bind, wp_get. cbn [fname mp].
  apply wp_bind, (wp_lock_reopen Hcalls _ _ _ _ _ ino); [done|]. intros pos' hl' t' Hl.
  apply wp_bind, wp_get. unfold file_of. cbn [fs inodes]. rewrite Hf. cbn [from_option id].
  assert (∀ g', map_ino g' = map_ino g → maps g' ino →
    wp (map_refresh (Some (blen (lines l)));; set_size (blen (lines l));; set_ino ino;; mret (0, Some new_txn))
      (λ r s', r = (0, Some new_txn) ∧ flat_txn s' ino l l new_txn) (St (Fs i nm hl' nx t') name (Some (ino, pos')) g' h)) as Hgo.
  { intros g' _ Hg'. apply wp_bind, wp_map_to; [done|]. intros g2 Hg2 _ _. apply wp_bind, wp_set_size.
    apply wp_bind, wp_set_ino, wp_ret. split; [done|]. destruct Hg2 as [? ?]. by split; cbn; try done; exists pos'. }
  apply wp_bind. destruct (Z.eqb_spec (map_ino g) ino) as [He|He]; cbn [negb].
  - apply wp_ret, Hgo; [done|by rewrite <- He].
  - unfold map_free. apply wp_bind, wp_get. cbn [mp]. apply wp_modify. apply Hgo; [done|by left].
Qed.

Lemma start_none s ino l :
  flat_db s ino l → wp (starttxn_or_refetch NoTid) (λ r s', r = (0, None) ∧ flat_db s' ino l ∧ map_ino (mp s') = ino ∧
    inodes (fs s') = inodes (fs s)) s.
Proof using Hcalls.
  intros [Hn Hf Hr Hz Hsh Hold [pos Hfd] Hm Hs]. destruct s as [[i nm hl nx tk] name d g h]. cbn in *. subst d.
  unfold starttxn_or_refetch. apply wp_bind, wp_get, wp_bind, wp_get. cbn [fname mp].
  apply wp_bind, (wp_stat Hcalls _ _ _ _ _ _ ino (lines l)); [done|done|]. intros t1.
  assert (∀ hl pos g t, map_ino g = ino → maps g ino →
    wp (map_refresh (Some (blen (lines l)));; set_size (blen (lines l));; mret (0, None : option ftxn))
      (λ r s', r = (0, None) ∧ flat_db s' ino l ∧ map_ino (mp s') = ino ∧ inodes (fs s') = i) (St (Fs i nm hl nx t) name (Some (ino, pos)) g h)) as Hgo.
  { intros hl' pos' g' t Hi Hg. apply wp_bind, wp_map_to; [done|]. intros g2 [? ?] _ Hi2. apply wp_bind, wp_set_size, wp_ret.
    split; [done|]. rewrite Hi in Hi2. split; [|done]. split; cbn; try done; rewrite Hi2; [by exists pos'|done]. }
  apply wp_bind. destruct (Z.eqb_spec ino (map_ino g)) as [He|He].
  { apply wp_ret. rewrite <- He in *. by apply Hgo. }
  apply wp_bind, (wp_call_ok Hcalls). intros t2. apply wp_bind, wp_get. cbn [fd]. apply wp_bind, wp_close_fd.
  apply wp_bind, wp_modify. cbn [set_fd fs fname fd mp hdr]. apply wp_bind, wp_close_fd.
  apply wp_bind, (wp_stat Hcalls _ _ _ _ _ _ ino (lines l)); [done|done|]. intros t3.
  apply wp_bind, wp_set_ino. unfold map_free. apply wp_bind, wp_bind, wp_get, wp_modify. apply wp_ret. cbn [set_mp fs fname fd mp hdr].
  apply Hgo; [done|by left].
Qed.

(** The lock of [mystore], with a transaction or without. *)
Lemma store_begin s ino l :
  flat_db s ino l → wp lock_current (λ r s', is_Some r ∧ flat_txn s' ino l l new_txn) s.
Proof using Hcalls.
  intros [Hn Hf Hr Hz Hsh Hold [pos Hfd] Hm Hs]. destruct s as [[i nm hl nx tk] name d g h]. cbn in *. subst d.
  unfold lock_current. apply wp_bind, wp_get. cbn [fname].
  apply wp_bind, (wp_lock_reopen Hcalls _ _ _ _ _ ino); [done|]. intros pos' hl' t' Hl.
  apply wp_bind, wp_get. unfold file_of. cbn [fs inodes]. rewrite Hf. cbn [from_option id]. apply wp_bind, wp_get. cbn [mp].
  apply wp_bind. destruct (Z.eqb_spec ino (map_ino g)) as [He|He]; cbn [negb].
  - apply wp_ret, wp_ret. split; [done|]. destruct Hs as [? ?]; [done|]. rewrite <- He in *.
    by split; cbn; try done; exists pos'.
  - apply wp_bind, wp_set_ino. unfold map_free. apply wp_bind, wp_bind, wp_get, wp_modify. cbn [set_mp fs fname fd mp hdr].
    apply wp_bind, wp_map_to; [by left|]. intros g2 Hg2 _ Hi2. apply wp_set_size, wp_ret. split; [done|].
    by split; cbn; try done; exists pos'.
Qed.

(** ** Finding *)

Lemma txn_find s ino l0 l t k r :
  flat_txn s ino l0 l t → Forall mbox_char k →
  ∃ l1 od l2, l = l1 ++ mid_of k od ++ l2 ∧ between k l1 l2 ∧
    bsearch_mem (k ++ 0 :: r) true (view s) (map_size (mp s)) 0 = Ok (blen (lines l1), blen (lines (mid_of k od))).
Proof using.
  intros Ht Hk. rewrite (txn_view _ _ _ _ _ Ht). pose proof Ht as [_ _ _ _ _ _ _ _ _ Hr Hz Hm _]. rewrite Hm.
  destruct (bsearch_mem_ok l k r Hr Hk Hz) as (p & Hp & Hpl).
  destruct (placed_split _ _ _ Hr Hk Hpl) as (l1 & od & l2 & Hl & Hb & ->). by exists l1, od, l2.
Qed.

(** ** Writing *)

(** The new file, whatever was under its name, and the bytes in it. *)
Lemma wp_new_file {A} f bs (a : M A) (k : Z → option (Z * Z) → M A) Q i nm hl nx tk name d g h :
  blen bs < DB_LIMIT →
  (∀ t', wp (k (blen bs) (Some (nx, blen bs))) Q
     (St (Fs (<[nx := bs]> i) (<[f := nx]> nm) hl (nx + 1) t') name d g h)) →
  wp (unlink f;; newfd ← open_creat f;
      match newfd with
      | None => a
      | Some ino => '(r, writefd) ← with_fd (Some (ino, 0)) (retry_write bs); k r writefd
      end) Q (St (Fs i nm hl nx tk) name d g h).
Proof using Hcalls Hroom.
  intros Hl HQ. apply wp_bind, (wp_unlink_name Hcalls). intros t1.
  apply wp_bind, (wp_open_new Hcalls); [apply lookup_delete_eq|]. intros t2. apply wp_bind, wp_with_fd.
  apply (wp_write_all Hroom); [apply lookup_insert_eq|done|]. cbn [fd set_fd fs fname mp hdr].
  rewrite insert_insert_eq, insert_delete_eq. apply HQ.
Qed.

Lemma write_txn s ino l0 l t l' sbuf :
  flat_txn s ino l0 l t → recs_ok l' → blen (lines l') < DB_LIMIT →
  wp (write_new (lines l') sbuf (Some t)) (λ r s', ∃ t', r = (0, Some t') ∧ flat_txn s' ino l0 l' t') s.
Proof using Hcalls Hroom.
  intros [Hn Hf Hr0 Hz0 Hsh Hold [pos Hfd] Hi Hlk Hr Hz Hm Hnew] Hr' Hz'.
  destruct s as [[i nm hl nx tk] name d g h]. cbn in *. subst d.
  pose proof (newfname_ne _ Hsh) as Hne. unfold write_new. apply wp_bind, wp_get. cbn [fname].
  set (F := newfname name) in *.
  assert (match fnamenew t with Some f => take 1023 f | None => F end = F) as ->.
  { destruct (fnamenew t); [|done]. destruct Hnew as [-> _]. by apply newfname_take. }
  apply wp_new_file; [done|]. intros t1. pose proof (blen_nonneg (lines l')).
  destruct (Z.eqb_spec (blen (lines l')) (-1)); [lia|].
  unfold switch_to. apply wp_bind, (wp_fstat Hcalls _ _ _ _ _ _ _ (lines l')); [apply lookup_insert_eq|]. intros t2.
  assert (∀ hl', hl' !! ino = Some LExclusive →
    wp (remap (Some (nx, blen (lines l'))) (blen (lines l'));; mret (0, Some (FTxn (Some (default F (fnamenew t))) (Some (nx, blen (lines l'))))))
      (λ r s', ∃ t', r = (0, Some t') ∧ flat_txn s' ino l0 l' t')
      (St (Fs (<[nx := lines l']> i) (<[F := nx]> nm) hl' (nx + 1) t2) name (Some (ino, pos)) g h)) as Hgo.
  { intros hl' Hl. apply wp_bind, wp_remap. intros g' Hg' Hs' Hi'. apply wp_ret. eexists. split; [done|].
    assert (default F (fnamenew t) = F) as -> by (destruct (fnamenew t); [by destruct Hnew as [-> _]|done]).
    split; cbn; try done; [by rewrite lookup_insert_ne|rewrite lookup_insert_ne by lia; done|lia|by exists pos|congruence|].
    split; [done|]. exists nx, (blen (lines l')). split_and!; [done|lia|lia|apply lookup_insert_eq|apply lookup_insert_eq|done]. }
  apply wp_bind. destruct (fnamenew t).
  - destruct Hnew as (-> & w & pw & -> & Hw & _). apply wp_close_fd, Hgo. by rewrite lookup_delete_ne.
  - destruct Hnew as (-> & _). apply wp_ret. by apply Hgo.
Qed.
(** ** Committing *)

Lemma wp_install f w pw name' m i nm hl nx tk name d g h Q :
  nm !! f = Some w → i !! w = Some m →
  (∀ t', Q (Some (w, blen m)) (St (Fs i (<[name' := w]> (base.delete f nm)) hl nx t') name d g h)) →
  wp (install (Some (w, pw)) f name') Q (St (Fs i nm hl nx tk) name d g h).
Proof using Hcalls.
  intros Hf Hi HQ. unfold install. apply wp_bind, (wp_fsync_fd Hcalls). intros t1. cbn [Z.eqb].
  apply wp_bind, (wp_fstat Hcalls _ _ _ _ _ _ _ m); [done|]. intros t2.
  apply wp_bind, (wp_rename Hcalls _ _ _ _ _ _ _ w); [done|]. intros t3. cbn [Z.eqb]. apply wp_ret, HQ.
Qed.

Lemma wp_take_over w ino pos i nm hl nx tk name g h Q :
  Q tt (St (Fs i nm (base.delete ino hl) nx tk) name w g h) →
  wp (take_over w) Q (St (Fs i nm hl nx tk) name (Some (ino, pos)) g h).
Proof using. intros HQ. unfold take_over. apply wp_bind, wp_get. cbn [fd]. apply wp_bind, wp_close_fd. by apply wp_modify. Qed.

Lemma write_now s ino l l' sbuf :
  flat_txn s ino l l new_txn → recs_ok l' → blen (lines l') < DB_LIMIT →
  wp (write_new (lines l') sbuf None) (λ r s', r = (0, None) ∧ ∃ ino', flat_db s' ino' l') s.
Proof using Hcalls Hroom.
  intros [Hn Hf Hr0 Hz0 Hsh Hold [pos Hfd] Hi Hlk Hr Hz Hm Hnew] Hr' Hz'.
  destruct s as [[i nm hl nx tk] name d g h]. cbn in *. subst d. clear Hnew.
  pose proof (newfname_ne _ Hsh) as Hne. unfold write_new. apply wp_bind, wp_get. cbn [fname].
  apply wp_new_file; [done|]. intros t1. pose proof (blen_nonneg (lines l')).
  destruct (Z.eqb_spec (blen (lines l')) (-1)); [lia|].
  unfold store_now. apply wp_bind, wp_bind, wp_get. cbn [fname].
  apply wp_bind, (wp_install _ nx _ _ (lines l')); [apply lookup_insert_eq|apply lookup_insert_eq|]. intros t2.
  apply wp_bind, wp_take_over. apply wp_bind, (wp_lock_unlock Hcalls). intros t3. apply wp_bind, wp_set_ino.
  apply wp_bind, wp_remap. intros g' [? ?] Hs' Hi'. cbn [map_ino] in Hi'. apply wp_ret, wp_ret. split; [done|]. exists nx.
  split; cbn; rewrite ?Hi'; try done; [apply lookup_insert_eq|apply lookup_insert_eq|lia|by eexists].
Qed.

Lemma commit_ok s ino l0 l t :
  flat_txn s ino l0 l t → wp (commit_txn t) (λ r s', r = 0 ∧ ∃ ino', flat_db s' ino' l) s.
Proof using Hcalls.
  intros Ht. pose proof Ht as [Hn Hf Hr0 Hz0 Hsh Hold [pos Hfd] Hi Hlk Hr Hz Hm Hnew].
  unfold commit_txn. destruct (fnamenew t) as [f|] eqn:Hfn.
  - destruct s as [[i nm hl nx tk] name d g h]. cbn in *. subst d.
    destruct Hnew as (-> & w & pw & -> & Hw & Hwn & Hfw & Hiw & [? ?]). pose proof (newfname_ne _ Hsh) as Hne.
    apply wp_bind, wp_get. cbn [fname]. apply wp_bind, (wp_install _ w _ _ (lines l)); [done|done|]. intros t1.
    apply wp_bind, wp_take_over. apply wp_bind, wp_set_ino, wp_ret. split; [done|]. exists w.
    split; cbn; try done; [apply lookup_insert_eq|by eexists].
  - destruct Hnew as (_ & -> & Hs). pose proof (txn_db _ _ _ _ _ Ht Hfn) as Hdb.
    destruct s as [[i nm hl nx tk] name d g h]. cbn in *. subst d.
    apply wp_bind, (wp_lock_unlock Hcalls). intros t1. apply wp_ret. split; [done|]. exists ino.
    destruct Hdb. by split.
Qed.

(** ** Aborting *)

Lemma abort_ok s ino l0 l t :
  flat_txn s ino l0 l t →
  wp (abort_txn t) (λ r s', r = 0 ∧ flat_db s' ino l0 ∧ map_ino (mp s') = ino ∧ held (fs s') !! ino = None ∧
    (∀ f, fnamenew t = Some f → names (fs s') !! f = None) ∧ fname s' = fname s) s.
Proof using Hcalls.
  intros Ht. pose proof Ht as [Hn Hf Hr0 Hz0 Hsh Hold [pos Hfd] Hi Hlk Hr Hz Hm Hnew].
  unfold abort_txn. destruct (fnamenew t) as [f|] eqn:Hfn.
  - destruct s as [[i nm hl nx tk] name d g h]. cbn in *. subst d.
    destruct Hnew as (-> & _). pose proof (newfname_ne _ Hsh) as Hne.
    apply wp_bind, (wp_unlink_name Hcalls). intros t1. apply wp_bind, (wp_lock_unlock Hcalls). intros t2. cbn [Z.eqb negb].
    apply wp_bind, wp_bind, wp_get. cbn [fd]. apply wp_bind, (wp_fstat Hcalls _ _ _ _ _ _ _ (lines l0)); [done|]. intros t3.
    apply wp_remap. intros g' [? ?] Hs' Hi'. apply wp_ret. split; [done|]. split.
    + split; cbn; rewrite ?Hi', ?Hi; try done; [by rewrite lookup_delete_ne|by exists pos].
    + cbn. split_and!; [congruence|apply lookup_delete_eq| |done]. intros f [= <-]. apply lookup_delete_eq.
  - destruct Hnew as (_ & -> & Hs). pose proof (txn_db _ _ _ _ _ Ht Hfn) as Hdb.
    destruct s as [[i nm hl nx tk] name d g h]. cbn in *. subst d.
    apply wp_bind, wp_ret. apply wp_bind, (wp_lock_unlock Hcalls). intros t1. cbn [Z.eqb]. apply wp_bind, wp_ret, wp_ret.
    split; [done|]. split; [by destruct Hdb; split|]. cbn. split_and!; [done|apply lookup_delete_eq|done|done].
Qed.
End Calls.
