(* ===== verification/FlatScan.v ===== *)
(** * FlatScan: [foreach] and [myopen] of the flat backend *)
From S2P Require Import Prelude CMem.
From stdpp Require Import gmap sorting list.
From S2P Require Import CString Prog DbFile CyrusDb BSearch DbOrder BSearchProof Flat FlatSpec FlatProof.
#[local] Open Scope Z_scope.

(** ** [GETENTRY] *)

Lemma key_no_tab k : Forall mbox_char k → Forall (λ x, x ≠ 9 ∧ x ≠ 0) k.
Proof. intros H. eapply Forall_impl; [exact H|]. intros x (_ & ? & ? & _). done. Qed.

Lemma data_no_newline d : Forall data_char d → Forall (λ x, x ≠ 10 ∧ x ≠ 0) d.
Proof. intros H. eapply Forall_impl; [exact H|]. intros x [? ?]. cbn. lia. Qed.

Definition entry_at (o : Z) (r : rec) : fentry := FEntry o (blen r.1) (o + blen r.1 + 1) (blen r.2).

Lemma lines_mid l1 r l2 : lines (l1 ++ r :: l2) = lines l1 ++ r.1 ++ 9 :: r.2 ++ 10 :: lines l2.
Proof. rewrite lines_app, lines_cons. unfold line. rewrite <- app_assoc. cbn [app]. by rewrite <- app_assoc. Qed.

Lemma GETENTRY_ok l1 r l2 :
  rec_ok r → GETENTRY (lines (l1 ++ r :: l2)) (blen (lines l1)) = Ok (Some (entry_at (blen (lines l1)) r)).
Proof.
  intros [Hk Hd]. unfold GETENTRY. rewrite lines_mid.
  rewrite strchr_found by first [done|by apply key_no_tab]. cbn [mbind result_bind].
  replace (lines l1 ++ r.1 ++ 9 :: r.2 ++ 10 :: lines l2) with ((lines l1 ++ r.1 ++ [9]) ++ r.2 ++ 10 :: lines l2)
    by (by rewrite <- !app_assoc).
  replace (blen (lines l1) + blen r.1 + 1) with (blen (lines l1 ++ r.1 ++ [9])) by blia.
  rewrite strchr_found by first [done|by apply data_no_newline]. cbn [mbind result_bind]. do 2 f_equal.
  unfold entry_at. f_equal; blia.
Qed.

Lemma entry_key l1 r l2 : slice (lines (l1 ++ r :: l2)) (blen (lines l1)) (blen r.1) = Ok r.1.
Proof. by apply (slice_parts _ (lines l1) r.1 (9 :: r.2 ++ 10 :: lines l2)); [apply lines_mid|..]. Qed.

Lemma entry_pre l1 r l2 n : (n ≤ length r.1)%nat → slice (lines (l1 ++ r :: l2)) (blen (lines l1)) (Z.of_nat n) = Ok (take n r.1).
Proof.
  intros Hn. apply (slice_parts _ (lines l1) (take n r.1) (drop n r.1 ++ 9 :: r.2 ++ 10 :: lines l2)); [|done|].
  - rewrite (app_assoc (take n r.1)), take_drop. apply lines_mid.
  - unfold blen. rewrite length_take. lia.
Qed.

Lemma entry_data l1 r l2 : slice (lines (l1 ++ r :: l2)) (blen (lines l1) + blen r.1 + 1) (blen r.2) = Ok r.2.
Proof.
  apply (slice_parts _ (lines l1 ++ r.1 ++ [9]) r.2 (10 :: lines l2)); [|blia|done].
  rewrite lines_mid, <- !app_assoc. done.
Qed.

(** ** What the callback gets to see *)

Section Prefix.
Context (pre : bytes) (Hpre : Forall mbox_char pre).
Abbreviation pfx x := (pre `prefix_of` x.1) (only parsing).

Lemma not_below_prefix l : Forall (λ x, bsearch_ncompare x.1 pre < 0) l → Forall rec_ok l → filter (λ x : rec, pfx x) l = [].
Proof using Hpre.
  intros H Hok. induction H as [|x l Hx _ IH]; [done|]. inversion_clear Hok as [|?? [Hk _] Hr].
  rewrite filter_cons_False; [by apply IH|]. intros Hp. cbn in Hx. pose proof (ko_prefix_le _ _ Hpre Hk Hp). lia.
Qed.

Lemma past_prefix x l :
  StronglySorted key_lt (x :: l) → Forall rec_ok (x :: l) → 0 ≤ bsearch_ncompare x.1 pre → ¬ pfx x →
  filter (λ x : rec, pfx x) (x :: l) = [].
Proof using Hpre.
  intros Hs Hok Hge Hx. rewrite filter_cons_False by done. inversion_clear Hs as [|?? _ Hlt]. inversion_clear Hok as [|?? [Hkx _] Hr].
  induction l as [|y l IH]; [done|]. inversion_clear Hlt. inversion_clear Hr as [|?? [Hky _] ?].
  rewrite filter_cons_False; [by apply IH|]. intros Hy. apply Hx. by eapply (ko_prefix_conv pre x.1 y.1).
Qed.
End Prefix.

Section Scan.
Context `{E : Env} (Hcalls : ∀ n, fails n = false).
Context {R : Type} (goodp : R → bytes → bytes → bool) (f : R → bytes → bytes → Z * R).
(** A callback that leaves the database alone. *)
Definition fcb (tp : option ftxn) (rock : R) (k d : bytes) : M (Z * R * option ftxn) :=
  let '(r, rock) := f rock k d in mret (r, rock, tp).
(** What the caller's functions do with the records that are there. *)
Context (gp : R → bytes → bytes → result bool) (cbm : option ftxn → R → bytes → bytes → M (Z * R * option ftxn)).

Section Loop.
Context (l : list rec) (s : st) (ino : Z) (Hok : recs_ok l) (Hfile : file_of s ino = lines l).
Context (pre : bytes) (Hpre : Forall mbox_char pre) (tp : option ftxn).
Context (Hgp : ∀ rock x, x ∈ l → pre `prefix_of` x.1 → gp rock x.1 x.2 = Ok (goodp rock x.1 x.2)).
Context (Hcb : ∀ tp rock x s, x ∈ l → pre `prefix_of` x.1 → cbm tp rock x.1 x.2 s = Ok (f rock x.1 x.2, tp, s)).

Lemma wp_at_base {A} b (g : bytes → result A) a Q :
  g (lines l) = Ok a → Q a s → wp (at_base (Some (ino, blen (lines l))) b g) Q s.
Proof using Hfile.
  intros Hg HQ. eapply wp_intro; [|exact HQ]. unfold at_base. rewrite Hfile. unfold blen at 1. rewrite Nat2Z.id, firstn_all, Hg. done.
Qed.

Lemma foreach_loop_ok a rest fuel rock save :
  l = a ++ rest → (length rest < fuel)%nat → Forall (λ x, 0 ≤ bsearch_ncompare x.1 pre) rest →
  wp (foreach_loop gp cbm fuel false (Some (ino, blen (lines l))) pre (ino, blen (lines l)) (ino, blen (lines a)) None save rock tp)
    (λ r s', r = (scan goodp f rock (filter (λ x : rec, pre `prefix_of` x.1) rest), tp) ∧ s' = s) s.
Proof using Hok Hfile Hpre Hgp Hcb.
  revert a fuel rock. induction rest as [|x rest IH]; intros a fuel rock Hl Hf Hge; (destruct fuel as [|fuel]; [cbn in Hf; lia|]);
    cbn [foreach_loop fst snd]; rewrite Z.eqb_refl; cbn [negb].
  { rewrite Hl, app_nil_r. destruct (Z.ltb_spec (blen (lines a)) (blen (lines a))); [lia|]. by apply wp_ret. }
  assert (x ∈ l) as Hin by (rewrite Hl; apply elem_of_app; right; left). pose proof (lines_split_len _ _ _ _ Hl) as Hb. pose proof (blen_line x). pose proof (blen_nonneg x.1). pose proof (blen_nonneg x.2).
  pose proof (blen_nonneg (lines rest)).
  destruct (Z.ltb_spec (blen (lines a)) (blen (lines l))); [|lia]. cbn [negb].
  destruct Hok as [Hr Hs]. rewrite Hl in Hr, Hs. apply Forall_app in Hr as [_ Hr]. apply StronglySorted_app in Hs as (_ & _ & Hs).
  pose proof Hr as [Hx Hr']%Forall_cons. pose proof Hge as [Hgx Hge']%Forall_cons.
  apply wp_bind. eapply wp_at_base; [rewrite Hl; by apply GETENTRY_ok|]. cbn [e_key e_keylen e_data e_datalen entry_at].
  destruct (Z.ltb_spec (blen x.1) (blen pre)) as [Hlt|Hle].
  { apply wp_ret. split; [|done]. rewrite past_prefix; [done..|]. intros [t Ht]. rewrite Ht, blen_app in Hlt.
    pose proof (blen_nonneg t). lia. }
  apply wp_bind. eapply wp_at_base; [rewrite Hl; apply entry_pre; unfold blen in Hle; lia|].
  destruct (negb (blen pre =? 0) && negb (bool_decide (take (length pre) x.1 = pre))) eqn:Htest.
  { apply wp_ret. split; [|done]. rewrite past_prefix; [done..|]. intros [t Ht]. rewrite Ht, take_app_length in Htest.
    rewrite bool_decide_true in Htest by done. by rewrite andb_false_r in Htest. }
  assert (pre `prefix_of` x.1) as Hp.
  { destruct (Z.eqb_spec (blen pre) 0) as [Hz|]; [rewrite (blen_0 _ Hz); apply prefix_nil|]. cbn [negb andb] in Htest.
    apply negb_false_iff, bool_decide_eq_true in Htest. rewrite <- Htest. apply prefix_take. }
  rewrite filter_cons_True by done. cbn [scan].
  apply wp_bind. eapply wp_at_base; [rewrite Hl; apply entry_key|].
  apply wp_bind. eapply wp_at_base; [rewrite Hl; apply entry_data|].
  assert (∀ rock, wp (foreach_loop gp cbm fuel false (Some (ino, blen (lines l))) pre (ino, blen (lines l))
      (ino, dataend (entry_at (blen (lines a)) x) + 1) None save rock tp)
    (λ r s', r = (scan goodp f rock (filter (λ x : rec, pre `prefix_of` x.1) rest), tp) ∧ s' = s) s) as Hnext.
  { intros rock'. replace (dataend (entry_at (blen (lines a)) x) + 1) with (blen (lines (a ++ [x])))
      by (rewrite lines_snoc_len; unfold dataend, entry_at; cbn [e_data e_datalen]; lia).
    apply IH; [by rewrite Hl, <- app_assoc|cbn in Hf; lia|done]. }
  apply wp_bind. eapply wp_liftr; [by apply Hgp|]. destruct (goodp rock x.1 x.2); [|apply Hnext].
  apply wp_bind, wp_get. apply wp_bind, wp_ret. apply wp_bind. eapply wp_intro; [by apply Hcb|].
  destruct (f rock x.1 x.2) as [r rock'] eqn:Hcbx.
  destruct (Z.eqb_spec r 0) as [->|Hne]; cbn [negb].
  - apply wp_bind, wp_get. cbn [andb]. apply Hnext.
  - by apply wp_ret.
Qed.
End Loop.

(** Every record with the prefix, outside a transaction; the prefix need not be
    terminated. *)
Lemma foreach_ok fuel s ino l pre c r rock :
  flat_db s ino l → Forall mbox_char pre → (length l < fuel)%nat →
  (∀ rock x, x ∈ l → pre `prefix_of` x.1 → gp rock x.1 x.2 = Ok (goodp rock x.1 x.2)) →
  (∀ tp rock x s, x ∈ l → pre `prefix_of` x.1 → cbm tp rock x.1 x.2 s = Ok (f rock x.1 x.2, tp, s)) →
  wp (foreach gp cbm fuel (Some (pre ++ c :: r)) (blen pre) NoTid rock) (λ a s',
    a = (scan goodp f rock (filter (λ x : rec, pre `prefix_of` x.1) l), None) ∧
    flat_db s' ino l ∧ inodes (fs s') = inodes (fs s)) s.
Proof using Hcalls.
  intros Hd Hpre Hf Hgp Hcb. unfold foreach. apply wp_bind. eapply wp_mono; [by eapply (start_none Hcalls)|].
  intros [? ?] s1 ([= -> ->] & Hd1 & Hi & Hin). cbn [Z.eqb negb]. rewrite <- Hin. clear Hin Hd s.
  pose proof Hd1 as [Hn Hfile Hr Hz Hsh Hold [pos Hfd] Hm Hs]. destruct (Hs Hi) as [Hms _].
  destruct s1 as [[i nm hl nx tk] name d g h]. cbn in *. subst d. rewrite Hi in *.
  apply wp_bind, wp_get, wp_bind, wp_get, wp_bind, wp_get. cbn [mp fd]. rewrite Hms.
  apply wp_bind, wp_bind, (wp_call_ok Hcalls). intros t1. cbv iota. apply wp_bind, (wp_lock_unlock Hcalls). intros t2. apply wp_ret.
  set (s2 := St _ _ _ _ _). assert (file_of s2 ino = lines l) as Hfo by (unfold file_of; cbn; by rewrite Hfile).
  destruct (terminated_key pre c r) as [r' Hterm].
  destruct (bsearch_mem_ok l pre r' Hr Hpre Hz) as (p & Hp & Hpl).
  destruct (placed_split _ _ _ Hr Hpre Hpl) as (l1 & od & l2 & Hl & [Hb Ha] & ->).
  apply wp_bind, wp_bind. eapply wp_liftr; [by apply (slice_parts _ [] pre (c :: r))|].
  apply wp_bind. eapply wp_liftr; [exact Hterm|].
  apply wp_bind. eapply (wp_at_base l s2 ino Hfo); [exact Hp|]. apply wp_ret.
  destruct Hr as [Hok Hsort]. pose proof Hok as Hok'. rewrite Hl, Forall_app in Hok'. destruct Hok' as [Hok1 _].
  assert (filter (λ x : rec, pre `prefix_of` x.1) l = filter (λ x : rec, pre `prefix_of` x.1) (mid_of pre od ++ l2)) as ->.
  { rewrite Hl at 1. rewrite filter_app. by rewrite not_below_prefix. }
  apply wp_bind. eapply wp_mono.
  { apply (foreach_loop_ok l s2 ino (conj Hok Hsort) Hfo pre Hpre None Hgp Hcb l1 (mid_of pre od ++ l2)); [exact Hl| |].
    - rewrite Hl, length_app in Hf. lia.
    - apply Forall_app. split.
      + destruct od; cbn [mid_of]; constructor; [|constructor]. unfold bsearch_ncompare. rewrite compare_with_lex, lex_refl. done.
      + eapply Forall_impl; [exact Ha|]. intros x Hx. cbn in *. apply (ko_sym pre x.1) in Hx. lia. }
  intros a s' [-> ->]. cbv beta iota. apply wp_bind. unfold s2. apply (wp_close_fd i nm nx name h ino 0), wp_ret. split; [done|]. split; [|done].
  split; cbn; rewrite ?Hi; try done. by exists pos.
Qed.
End Scan.

(** ** [myopen] *)

Section Open.
Context `{E : Env} (Hcalls : ∀ n, fails n = false).

Lemma open_tail i nm nx hl name h ino l g t :
  nm !! name = Some ino → i !! ino = Some (lines l) → recs_ok l → blen (lines l) < DB_LIMIT → blen name < 1020 → ino < nx →
  map_len g = 0 →
  wp (modify (set_fd (Some (ino, 0)));;
      sbuf ← fstat (Some (ino, 0));
      match sbuf with
      | None => close_fd (Some (ino, 0));; modify (set_fd None);; mret CYRUSDB_IOERROR
      | Some (ino, size) =>
          set_ino ino;; map_refresh (Some size);; set_size size;;
          modify (λ s, St (fs s) name (fd s) (mp s) (hdr s));; mret 0
      end) (λ r s', r = 0 ∧ fname s' = name ∧ flat_db s' ino l) (St (Fs i nm hl nx t) [] None g h).
Proof using Hcalls.
  intros Hn Hf Hr Hz Hsh Hold Hg. apply wp_bind, wp_modify. cbn [set_fd fs fname fd mp hdr].
  apply wp_bind, (wp_fstat Hcalls _ _ _ _ _ _ _ (lines l)); [done|]. intros t1. apply wp_bind, wp_set_ino.
  apply wp_bind, wp_map_to; [by left|]. intros g' [? ?] _ Hi. cbn [map_ino] in Hi. apply wp_bind, wp_set_size. apply wp_bind, wp_modify.
  cbn [fs fname fd mp hdr]. apply wp_ret. split; [done|]. split; [done|].
  split; cbn; rewrite ?Hi; try done. by eexists.
Qed.

Lemma flat_open_existing s name ino l create_flag :
  names (fs s) !! name = Some ino → inodes (fs s) !! ino = Some (lines l) → recs_ok l → blen (lines l) < DB_LIMIT →
  blen name < 1020 → ino < nextino (fs s) →
  wp (myopen name create_flag) (λ r s', r = 0 ∧ fname s' = name ∧ flat_db s' ino l) s.
Proof using Hcalls.
  intros Hn Hf Hr Hz Hsh Hold. destruct s as [[i nm hl nx tk] name0 d g h]. cbn in *.
  unfold myopen. apply wp_bind, wp_modify. unfold set_db. cbn [fs hdr]. apply wp_bind, wp_get.
  apply wp_bind, (wp_call_ok Hcalls). intros t1. cbn [fs names]. rewrite Hn. apply wp_bind, wp_ret. cbv iota.
  by apply open_tail.
Qed.

Lemma flat_open_new s name :
  names (fs s) !! name = None → blen name < 1020 →
  wp (myopen name true) (λ r s', r = 0 ∧ fname s' = name ∧ flat_db s' (nextino (fs s)) []) s.
Proof using Hcalls.
  intros Hn Hsh. destruct s as [[i nm hl nx tk] name0 d g h]. cbn in *.
  unfold myopen. apply wp_bind, wp_modify. unfold set_db. cbn [fs hdr]. apply wp_bind, wp_get.
  apply wp_bind, (wp_call_ok Hcalls). intros t1. cbn [fs names]. rewrite Hn. cbn [negb]. apply wp_bind, wp_bind, (wp_call_ok Hcalls). intros t2.
  apply (wp_open_new Hcalls); [done|]. intros t3. apply open_tail; [apply lookup_insert_eq|apply lookup_insert_eq| |done|done|lia|done].
  split; constructor.
Qed.
End Open.
