(* ===== verification/FlatClient.v ===== *)
(** * FlatClient: the flat backend as an instance

    Each call against the map the file is, and [BackendOk]. *)
From S2P Require Import Prelude CMem.
From stdpp Require Import gmap sorting list.
From S2P Require Import CString Prog DbFile CyrusDb BSearch DbOrder BSearchProof Flat FlatSpec FlatProof FlatScan.
#[local] Open Scope Z_scope.

(** What [fetch] answers. *)
Definition fetched (m : gmap bytes bytes) (k : bytes) : answer :=
  match m !! k with Some d => (0, Some d) | None => (CYRUSDB_NOTFOUND, None) end.

(** What [mystore] does to the map, and the bytes it can add. *)
Definition change (k : bytes) (data : option bytes) (m : gmap bytes bytes) : gmap bytes bytes :=
  match data with Some d => <[k := d]> m | None => base.delete k m end.
Definition data_cost (k : bytes) (data : option bytes) : Z :=
  match data with Some d => blen k + blen d + 2 | None => 0 end.
Definition data_ok (data : option bytes) : Prop := ∀ d, data = Some d → Forall data_char d.

Definition op_ok (o : op) : Prop :=
  match o with
  | OFetch k | ODelete k _ => Forall mbox_char k
  | OStore k d | OCreate k d => Forall mbox_char k ∧ Forall data_char d
  end.
Definition op_cost (o : op) : Z :=
  match o with OStore k d | OCreate k d => blen k + blen d + 2 | _ => 0 end.

Lemma mid_some_pos k d : 0 < blen (lines (mid_of k (Some d))).
Proof.
  cbn [mid_of]. rewrite lines_cons, app_nil_r, blen_line. cbn [fst snd].
  pose proof (blen_nonneg k). pose proof (blen_nonneg d). lia.
Qed.

Lemma mid_cost l1 l2 k od od' :
  blen (lines (l1 ++ mid_of k od' ++ l2)) ≤ blen (lines (l1 ++ mid_of k od ++ l2)) + data_cost k od'.
Proof.
  rewrite !lines_app, !blen_app. pose proof (blen_nonneg (lines (mid_of k od))).
  destruct od' as [d|]; cbn [mid_of data_cost]; [rewrite lines_cons, app_nil_r, blen_line; cbn [fst snd]|change (blen (lines [])) with 0]; lia.
Qed.

Lemma data_cost_nonneg k data : 0 ≤ data_cost k data.
Proof. destruct data as [d|]; cbn; [|done]. pose proof (blen_nonneg k). pose proof (blen_nonneg d). lia. Qed.

Section Calls.
Context `{E : Env}.
Context (Hcalls : ∀ n, fails n = false) (Hroom : DB_LIMIT ≤ file_limit).

(** ** [myfetch] *)

Lemma find_data_ok s l k r :
  view s = lines l → map_size (mp s) = blen (lines l) → recs_ok l → blen (lines l) < DB_LIMIT → Forall mbox_char k →
  wp (find_data (k ++ 0 :: r) (blen k)) (λ a s', a = fetched (contents l) k ∧ s' = s) s.
Proof using.
  intros Hv Hm Hr Hz Hk. unfold find_data. apply wp_bind, wp_get. rewrite Hm.
  destruct (bsearch_mem_ok l k r Hr Hk Hz) as (p & Hp & Hpl).
  destruct (placed_split _ _ _ Hr Hk Hpl) as (l1 & od & l2 & Hl & Hb & ->).
  apply wp_bind. eapply wp_rd; [rewrite Hv; exact Hp|]. unfold fetched. rewrite Hl, contents_find by done.
  destruct od as [d|].
  - pose proof (mid_some_pos k d). destruct (Z.eqb_spec (blen (lines (mid_of k (Some d)))) 0); [lia|]. cbn [negb].
    apply wp_bind. eapply wp_rd; [rewrite Hv, Hl; apply fetched_ok; by rewrite <- Hl|]. by apply wp_ret.
  - change (blen (lines (mid_of k None))) with 0. cbn [Z.eqb negb]. by apply wp_ret.
Qed.

Lemma flat_fetch_txn s ino l0 l t k r :
  flat_txn s ino l0 l t → Forall mbox_char k →
  wp (myfetch (k ++ 0 :: r) (blen k) (OldTid t)) (λ a s', a = (fetched (contents l) k, Some t) ∧ s' = s) s.
Proof using.
  intros Ht Hk. pose proof (txn_view _ _ _ _ _ Ht) as Hv. pose proof Ht as [_ _ _ _ _ _ _ _ _ Hr Hz Hm _].
  unfold myfetch, starttxn_or_refetch. apply wp_bind, wp_bind, wp_get, wp_bind, wp_get, wp_ret. cbn [Z.eqb negb].
  apply wp_bind. eapply wp_mono; [by eapply find_data_ok|]. intros [c d] s' [Ha ->]. apply wp_ret. by rewrite <- Ha.
Qed.

Lemma flat_fetch_begin s ino l k r :
  flat_db s ino l → Forall mbox_char k →
  wp (myfetch (k ++ 0 :: r) (blen k) NewTid)
    (λ a s', a = (fetched (contents l) k, Some new_txn) ∧ flat_txn s' ino l l new_txn) s.
Proof using Hcalls.
  intros Hd Hk. unfold myfetch. apply wp_bind. eapply wp_mono; [by eapply (start_new Hcalls)|].
  intros [? ?] s1 [[= -> ->] Ht]. cbn [Z.eqb negb].
  pose proof (txn_view _ _ _ _ _ Ht) as Hv. pose proof Ht as [_ _ _ _ _ _ _ _ _ Hr Hz Hm _].
  apply wp_bind. eapply wp_mono; [by eapply find_data_ok|]. intros [c d] s' [Ha ->]. apply wp_ret. by rewrite <- Ha.
Qed.

Lemma fetch_alone s ino l k r :
  flat_db s ino l → Forall mbox_char k →
  wp (myfetch (k ++ 0 :: r) (blen k) NoTid) (λ a s', a = (fetched (contents l) k, None) ∧ flat_db s' ino l) s.
Proof using Hcalls.
  intros Hd Hk. unfold myfetch. apply wp_bind. eapply wp_mono; [by eapply (start_none Hcalls)|].
  intros [? ?] s1 ([= -> ->] & Hd1 & Hi & _). cbn [Z.eqb negb].
  pose proof (db_view _ _ _ Hd1 Hi) as Hv. pose proof Hd1 as [_ _ Hr Hz _ _ _ _ Hm]. destruct (Hm Hi) as [Hm1 _].
  apply wp_bind. eapply wp_mono; [by eapply find_data_ok|]. intros [c d] s' [Ha ->]. apply wp_ret. by rewrite <- Ha.
Qed.

(** ** [mystore] *)

Lemma entry_ok s ino l0 l t k c r data ov sbuf tp :
  flat_txn s ino l0 l t → tp = Some t ∨ (tp = None ∧ t = new_txn ∧ l0 = l) → Forall mbox_char k → data_ok data →
  blen (lines l) + data_cost k data < DB_LIMIT →
  wp (store_entry (k ++ c :: r) (blen k) data ov sbuf tp) (λ a s',
    if bool_decide (is_Some (contents l !! k)) && negb ov
    then a = (CYRUSDB_EXISTS, None) ∧ flat_db s' ino l0 ∧ (tp = None → held (fs s') !! ino = Some LExclusive)
    else ∃ l', contents l' = change k data (contents l) ∧ blen (lines l') ≤ blen (lines l) + data_cost k data ∧
      match tp with
      | Some _ => ∃ t', a = (0, Some t') ∧ flat_txn s' ino l0 l' t'
      | None => a = (0, None) ∧ ∃ ino', flat_db s' ino' l'
      end) s.
Proof using Hcalls Hroom.
  intros Ht Htp Hk Hd Hz. destruct (terminated_key k c r) as [r' Hterm].
  destruct (txn_find _ _ _ _ _ k r' Ht Hk) as (l1 & od & l2 & Hl & Hb & Hs).
  pose proof (ft_recs _ _ _ _ _ Ht) as Hr. pose proof (ft_size _ _ _ _ _ Ht) as Hsz.
  pose proof (ft_msize _ _ _ _ _ Ht) as Hm. pose proof (txn_view _ _ _ _ _ Ht) as Hv.
  unfold store_entry. apply wp_bind. eapply wp_liftr; [exact Hterm|]. apply wp_bind, wp_get.
  apply wp_bind. eapply wp_rd; [exact Hs|]. cbv beta iota.
  assert (negb (blen (lines (mid_of k od)) =? 0) = bool_decide (is_Some (contents l !! k))) as ->.
  { rewrite Hl, contents_find by done. destruct od as [d|]; [|done]. pose proof (mid_some_pos k d).
    rewrite bool_decide_true by done. destruct (Z.eqb_spec (blen (lines (mid_of k (Some d)))) 0); [lia|done]. }
  destruct (bool_decide (is_Some (contents l !! k)) && negb ov).
  { destruct Htp as [-> | (-> & -> & ->)]; cbn [abort_if].
    - apply wp_bind, wp_bind. eapply wp_mono; [by eapply (abort_ok Hcalls)|]. intros _ s' (_ & ? & _). by apply wp_ret, wp_ret.
    - apply wp_bind, wp_ret, wp_ret. split; [done|]. split; [by eapply txn_db|]. by intros _; eapply ft_lock. }
  set (l' := l1 ++ mid_of k data ++ l2).
  assert (recs_ok l') as Hr' by (eapply recs_ok_mid; [rewrite <- Hl; exact Hr|done|done|exact Hd]).
  assert (blen (lines l') ≤ blen (lines l) + data_cost k data) as Hc by (rewrite Hl; apply mid_cost).
  apply wp_bind. eapply wp_rd.
  { rewrite Hv, Hm, Hl. rewrite Hl in Hsz. by apply (new_contents_ok k (0 :: r') l1 od l2 data). }
  fold l'. assert (contents l' = change k data (contents l)) as Hcl by (rewrite Hl; by apply contents_change).
  destruct Htp as [-> | (-> & -> & ->)].
  - eapply wp_mono; [eapply (write_txn Hcalls Hroom); [exact Ht|done|lia]|]. intros a s' (t' & -> & Ht').
    exists l'. split_and!; [done|done|]. by exists t'.
  - eapply wp_mono; [eapply (write_now Hcalls Hroom); [exact Ht|done|lia]|]. intros a s' [-> ?].
    exists l'. by split_and!.
Qed.
(** Calls that write, as arguments of [mystore]. *)
Definition as_store (o : op) : option (bytes * option bytes * bool) :=
  match o with
  | OFetch _ => None
  | OStore k d => Some (k, Some d, true)
  | OCreate k d => Some (k, Some d, false)
  | ODelete k _ => Some (k, None, true)
  end.

Lemma spec_store o k data ov m :
  as_store o = Some (k, data, ov) →
  spec_call o m =
    if bool_decide (is_Some (m !! k)) && negb ov then ((CYRUSDB_EXISTS, None), None)
    else ((0, None), Some (change k data m)).
Proof using.
  destruct o as [|k' d|k' d|k']; intros [= <- <- <-]; cbn [spec_call change negb]; rewrite ?andb_false_r, ?andb_true_r; try done.
  destruct (m !! k'); [by rewrite bool_decide_true|by rewrite bool_decide_false by by intros [? ?]].
Qed.

Lemma flat_call_store o k data ov tid :
  as_store o = Some (k, data, ov) →
  call (B := cyrusdb_flat) o tid = ('(r, t) ← mystore (k ++ [0]) (blen k) data tid ov; mret (r, None, t)).
Proof using. destruct o as [|k' d|k' d|k']; by intros [= <- <- <-]. Qed.

Lemma as_store_ok o k data ov :
  as_store o = Some (k, data, ov) → op_ok o → Forall mbox_char k ∧ data_ok data ∧ data_cost k data = op_cost o.
Proof using.
  destruct o as [|k' d|k' d|k']; intros [= <- <- <-]; cbn; [intros [? ?]..|intros ?]; (split; [done|]); (split; [|done]);
    intros ? [=]; by subst.
Qed.

(** [mystore] past its lock, as the class wants it. *)
Lemma store_refines o k data ov sbuf tp s ino l0 l t n :
  as_store o = Some (k, data, ov) → op_ok o → flat_txn s ino l0 l t →
  tp = Some t ∨ (tp = None ∧ t = new_txn ∧ l0 = l) → blen (lines l) ≤ n → n + op_cost o < DB_LIMIT →
  wp (store_entry (k ++ [0]) (blen k) data ov sbuf tp) (λ a s', let r := (a.1, None, a.2) in
    match (spec_call o (contents l)).2 with
    | Some m' =>
        ∃ l', contents l' = m' ∧ blen (lines l') ≤ n + op_cost o ∧
          match tp with
          | Some _ => ∃ t', r = ((spec_call o (contents l)).1, Some t') ∧ flat_txn s' ino l0 l' t'
          | None => r = ((spec_call o (contents l)).1, None) ∧ ∃ ino', flat_db s' ino' l'
          end
    | None => r = ((spec_call o (contents l)).1, None) ∧ flat_db s' ino l0
    end) s.
Proof using Hcalls Hroom.
  intros Ho Hok Ht Htp Hn Hz. destruct (as_store_ok _ _ _ _ Ho Hok) as (Hk & Hd & Hc).
  eapply wp_mono; [eapply (entry_ok _ _ _ _ _ k 0 []); [exact Ht|exact Htp|done|done|lia]|].
  intros [r t1] s1. rewrite (spec_store _ _ _ _ _ Ho). destruct (_ && _); cbn [fst snd].
  - by intros ([= -> ->] & ? & _).
  - intros (l' & Hl' & Hb & H). exists l'. split; [done|]. split; [lia|]. destruct tp.
    + destruct H as (t' & [= -> ->] & ?). by exists t'.
    + destruct H as [[= -> ->] ?]. done.
Qed.

Lemma flat_op_cost_nonneg o : 0 ≤ op_cost o.
Proof using. destruct o as [|k d|k d|]; cbn; try done; pose proof (blen_nonneg k); pose proof (blen_nonneg d); lia. Qed.

Lemma spec_fetch k m : spec_call (OFetch k) m = (fetched m k, Some m).
Proof using. done. Qed.

Lemma store_cases o : (∃ k, o = OFetch k) ∨ ∃ k data ov, as_store o = Some (k, data, ov).
Proof using. destruct o; [left|right..]; eauto. Qed.

(** After a call in a transaction that began on [l0]: the transaction goes on, or
    it is over and nothing has changed. *)
Definition txn_after (o : op) (ino : Z) (l0 l : list rec) (n : Z) (r : answer * option ftxn) (s' : st) : Prop :=
  match (spec_call o (contents l)).2 with
  | Some m' => ∃ t' l', r = ((spec_call o (contents l)).1, Some t') ∧ flat_txn s' ino l0 l' t' ∧
      contents l' = m' ∧ blen (lines l') ≤ n + op_cost o
  | None => r = ((spec_call o (contents l)).1, None) ∧ flat_db s' ino l0
  end.

Lemma flat_call_begin o s ino l n :
  flat_db s ino l → op_ok o → blen (lines l) ≤ n → n + op_cost o < DB_LIMIT →
  wp (call (B := cyrusdb_flat) o NewTid) (txn_after o ino l l n) s.
Proof using Hcalls Hroom.
  intros Hd Hok Hb Hn. pose proof (flat_op_cost_nonneg o). unfold txn_after.
  destruct (store_cases o) as [[k ->]|(k & data & ov & Ho)].
  - eapply wp_mono; [by eapply (flat_fetch_begin _ _ _ k [])|]. intros r s' [-> Ht]. rewrite spec_fetch. cbn [fst snd].
    exists new_txn, l. split; [done|]. split; [done|]. split; [done|]. cbn in *. lia.
  - rewrite (flat_call_store _ _ _ _ _ Ho). unfold mystore, store_lock. apply wp_bind, wp_bind, wp_bind.
    eapply wp_mono; [by eapply (store_begin Hcalls)|]. intros sb s1 [[x ->] Ht]. apply wp_ret. cbn [Z.eqb negb].
    eapply wp_mono; [eapply store_refines; [done|done|done|by left|done|done]|]. intros [r t1] s2 Ha. apply wp_ret.
    cbn [fst snd] in Ha. destruct (spec_call o (contents l)).2; cbn [fst snd] in *; [|done].
    destruct Ha as (l' & <- & Hl' & t' & -> & Ht'). by exists t', l'.
Qed.

Lemma call_txn o s ino l0 l t n :
  flat_txn s ino l0 l t → op_ok o → blen (lines l) ≤ n → n + op_cost o < DB_LIMIT →
  wp (call (B := cyrusdb_flat) o (OldTid t)) (txn_after o ino l0 l n) s.
Proof using Hcalls Hroom.
  intros Ht Hok Hb Hn. pose proof (flat_op_cost_nonneg o). unfold txn_after.
  destruct (store_cases o) as [[k ->]|(k & data & ov & Ho)].
  - eapply wp_mono; [by eapply (flat_fetch_txn _ _ _ _ _ k [])|]. intros r s' [-> ->]. rewrite spec_fetch. cbn [fst snd].
    exists t, l. split; [done|]. split; [done|]. split; [done|]. cbn in *. lia.
  - rewrite (flat_call_store _ _ _ _ _ Ho). unfold mystore, store_lock. apply wp_bind, wp_bind, wp_ret. cbn [Z.eqb negb].
    eapply wp_mono; [eapply store_refines; [done|done|done|by left|done|done]|]. intros [r t1] s2 Ha. apply wp_ret.
    cbn [fst snd] in Ha. destruct (spec_call o (contents l)).2; cbn [fst snd] in *; [|done].
    destruct Ha as (l' & <- & Hl' & t' & -> & Ht'). by exists t', l'.
Qed.

Lemma flat_call_alone o s ino l n :
  flat_db s ino l → op_ok o → blen (lines l) ≤ n → n + op_cost o < DB_LIMIT →
  wp (call (B := cyrusdb_flat) o NoTid) (λ r s', r = ((spec_call o (contents l)).1, None) ∧
    ∃ ino' l', flat_db s' ino' l' ∧ contents l' = default (contents l) (spec_call o (contents l)).2 ∧
      blen (lines l') ≤ n + op_cost o) s.
Proof using Hcalls Hroom.
  intros Hd Hok Hb Hn. pose proof (flat_op_cost_nonneg o).
  destruct (store_cases o) as [[k ->]|(k & data & ov & Ho)].
  - eapply wp_mono; [by eapply (fetch_alone _ _ _ k [])|]. intros r s' [-> Ht]. rewrite spec_fetch. cbn [fst snd default].
    split; [done|]. exists ino, l. split_and!; [done|done|lia].
  - rewrite (flat_call_store _ _ _ _ _ Ho). unfold mystore, store_lock. apply wp_bind, wp_bind, wp_bind.
    eapply wp_mono; [by eapply (store_begin Hcalls)|]. intros sb s1 [[x ->] Ht]. apply wp_ret. cbn [Z.eqb negb].
    eapply wp_mono; [eapply store_refines; [done|done|done|by right|done|lia]|]. intros [r t1] s2 Ha. apply wp_ret.
    cbn [fst snd] in Ha. destruct (spec_call o (contents l)).2; cbn [fst snd default from_option id] in *.
    + destruct Ha as (l' & <- & Hl' & -> & ino' & Hd'). split; [done|]. exists ino', l'. split_and!; [done|done|lia].
    + destruct Ha as [-> ?]. split; [done|]. exists ino, l. split_and!; [done|done|lia].
Qed.

Lemma sorted_nodup l : recs_ok l → NoDup l.*1.
Proof using.
  intros [Hok Hs]. induction Hs as [|x l Hs IH Hx]; [constructor|]. apply Forall_cons in Hok as [[Hk _] Hok].
  cbn. constructor; [|by apply IH]. intros (y & Hy & Hin)%list_elem_of_fmap. rewrite Forall_forall in Hx.
  specialize (Hx _ Hin). red in Hx. rewrite Hy in Hx. pose proof (proj2 (ko_eq y.1 y.1 ltac:(by rewrite <- Hy) ltac:(by rewrite <- Hy)) eq_refl). lia.
Qed.

Lemma flat_foreach_alone {R} fuel gp cb goodp (f : R → bytes → bytes → Z * R) pre c rest rock s ino l :
  flat_db s ino l → Forall mbox_char pre → (size (contents l) < fuel)%nat →
  (∀ rock k d, contents l !! k = Some d → pre `prefix_of` k → gp rock k d = Ok (goodp rock k d)) →
  (∀ rock k d s, contents l !! k = Some d → pre `prefix_of` k → cb rock k d s = Ok (f rock k d, s)) →
  wp (db_foreach (Backend := cyrusdb_flat) fuel gp cb (pre ++ c :: rest) (blen pre) rock) (λ a s', ∃ l',
    l' ≡ₚ map_to_list (contents l) ∧ StronglySorted (λ a b, bsearch_ncompare a b < 0) l'.*1 ∧
    a = scan goodp f rock (filter (λ x, pre `prefix_of` x.1) l') ∧ flat_db s' ino l) s.
Proof using Hcalls.
  intros Hd Hpre Hf Hgp Hcb. assert (recs_ok l) as Hr by apply Hd. pose proof (sorted_nodup _ Hr) as Hnd.
  assert (∀ x, x ∈ l → contents l !! x.1 = Some x.2) as Hin by (intros [k d] ?; by apply elem_of_list_to_map_1).
  assert (size (contents l) = length l) as Hsz by (unfold contents; by rewrite map_size_list_to_map).
  cbn [db_foreach cyrusdb_flat]. apply wp_bind. eapply wp_mono.
  { apply (foreach_ok Hcalls goodp f); [exact Hd|done|lia|intros rock' x Hx Hp; apply Hgp; [by apply Hin|done]|].
    intros tp rock' x s' Hx Hp. cbn. unfold mbind, Prog_bind. rewrite (Hcb _ _ _ _ (Hin _ Hx) Hp). by destruct (f _ _ _). }
  intros [[r rock'] ?] s' ([= Ha _] & Hd' & _). apply wp_ret. exists l. split_and!; [|..|done].
  - symmetry. by apply map_to_list_to_map.
  - destruct Hr as [_ Hs]. clear -Hs. induction Hs as [|x l Hs IH Hx]; cbn; constructor; [done|]. by apply Forall_fmap.
  - done.
Qed.

#[export] Program Instance flat_ok : BackendOk cyrusdb_flat := {|
  db_holds s m n := ∃ ino l, flat_db s ino l ∧ contents l = m ∧ blen (lines l) ≤ n;
  db_during s m0 m n t := ∃ ino l0 l, flat_txn s ino l0 l t ∧ contents l0 = m0 ∧ contents l = m ∧
    blen (lines l0) ≤ n ∧ blen (lines l) ≤ n;
  db_reading s m n t := ∃ ino l, flat_txn s ino l l t ∧ contents l = m ∧ blen (lines l) ≤ n;
  db_op_ok o _ := op_ok o;
  db_before a b := bsearch_ncompare a b < 0;
  db_prefix_ok := Forall mbox_char;
  db_cost := op_cost;
  db_end_cost := 0;
|}.
Next Obligation. apply flat_op_cost_nonneg. Qed.
Next Obligation. done. Qed.
Next Obligation. intros s m n n' (ino & l & ? & ? & ?) ?. exists ino, l. split_and!; [done|done|lia]. Qed.
Next Obligation.
  intros o s m n (ino & l & Hd & <- & Hb) Hok Hn. pose proof (flat_op_cost_nonneg o).
  eapply wp_mono; [by eapply flat_call_begin|]. unfold txn_after. intros r s'. destruct (spec_call o (contents l)).2.
  - intros (t & l' & -> & Ht & <- & ?). exists t. split; [done|]. exists ino, l, l'. split_and!; [done|done|done|lia|lia].
  - intros [-> ?]. split; [done|]. by exists ino, l.
Qed.
Next Obligation.
  intros o s m0 m n t (ino & l0 & l & Ht & <- & <- & Hb0 & Hb) Hok Hn. pose proof (flat_op_cost_nonneg o).
  eapply wp_mono; [by eapply call_txn|]. unfold txn_after. intros r s'. destruct (spec_call o (contents l)).2.
  - intros (t' & l' & -> & Ht' & <- & ?). exists t'. split; [done|]. exists ino, l0, l'. split_and!; [done|done|done|lia|lia].
  - intros [-> ?]. split; [done|]. by exists ino, l0.
Qed.
Next Obligation.
  intros o s m n (ino & l & Hd & <- & Hb) Hok Hn.
  eapply wp_mono; [eapply flat_call_alone; [done|done|done|lia]|]. intros r s' (-> & ino' & l' & Hd' & Hc & Hb').
  split; [done|]. exists ino', l'. split_and!; [done|done|lia].
Qed.
Next Obligation.
  intros s m0 m n t (ino & l0 & l & Ht & <- & <- & Hb0 & Hb) Hn.
  eapply wp_mono; [by eapply (commit_ok Hcalls)|]. intros r s' (-> & ino' & Hd). split; [done|]. exists ino', l.
  split_and!; [done|done|lia].
Qed.
Next Obligation. intros s m n t (ino & l & ? & ? & ?). by exists ino, l, l. Qed.
Next Obligation.
  intros k s m n (ino & l & Hd & <- & Hb) Hok Hn. eapply wp_mono; [by eapply (fetch_alone _ _ _ k [])|].
  intros r s' [-> ?]. split; [done|]. by exists ino, l.
Qed.
Next Obligation.
  intros k s m n (ino & l & Hd & <- & Hb) Hok Hn. eapply wp_mono; [by eapply (flat_fetch_begin _ _ _ k [])|].
  intros r s' [-> ?]. exists new_txn. split; [done|]. by exists ino, l.
Qed.
Next Obligation.
  intros k s m n t (ino & l & Ht & <- & Hb) Hok Hn. eapply wp_mono; [by eapply (flat_fetch_txn _ _ _ _ _ k [])|].
  intros r s' [-> ->]. exists t. split; [done|]. by exists ino, l.
Qed.
Next Obligation.
  intros s m n t (ino & l & Ht & <- & Hb). eapply wp_mono; [by eapply (abort_ok Hcalls)|].
  intros r s' (-> & ? & _). split; [done|]. by exists ino, l.
Qed.
Next Obligation.
  intros R fuel gp cb goodp f pre c rest rock s m n (ino & l & Hd & <- & Hb) Hn Hpre Hf Hgp Hcb.
  eapply wp_mono; [by eapply flat_foreach_alone|]. intros a s' (l' & ? & ? & ? & ?). exists l'. split_and!; try done. by exists ino, l.
Qed.
End Calls.
