(* ===== verification/FlatTheorems.v ===== *)
(** * FlatTheorems: the flat backend

    The theorems about [lib/cyrusdb_flat.c] and [bsearch_mem], each applied to a
    small database, and runs that end badly. *)
From S2P Require Import Prelude CMem.
From stdpp Require Import gmap sorting list.
From S2P Require Import CString Prog DbFile CyrusDb BSearch DbOrder BSearchProof Flat FlatSpec FlatProof.
From S2P Require Import FlatClient FlatScan.
#[local] Open Scope Z_scope.

(** ** A database to try them on *)

(** A machine whose disk has room for files of [limit] bytes, and the calls that
    fail. *)
Definition flat_machine (limit : Z) (bad : nat → bool) : Env := Build_Env bad Nat.odd (λ _, 1000) limit false.

Definition demo_recs : list rec := [([97], [1; 2]); ([97; 46], []); ([98], [3])].
(** A process that had opened a file which another has replaced since. *)
Definition demo_flat : st :=
  St (Fs {[1 := lines demo_recs]} {[ [109] := 1 ]} ∅ 2 0) [109] (Some (0, 0)) (Map 0 16384 0 0) (Hdr 0 0 0 0 0 0 0).

Lemma demo_key_ok k : Forall (λ c, 10 < c < 256) k → Forall mbox_char k.
Proof. intros H. eapply Forall_impl; [exact H|]. intros c Hc. cbn in Hc. unfold mbox_char, is_byte. lia. Qed.

Lemma demo_data_ok d : Forall (λ c, 0 < c < 10) d → Forall data_char d.
Proof. intros H. eapply Forall_impl; [exact H|]. intros c Hc. cbn in Hc. unfold data_char. lia. Qed.

(** Characters of literal keys and data. *)
Ltac literal := first [apply demo_key_ok|apply demo_data_ok]; repeat (constructor; [lia|]); constructor.

Lemma demo_recs_ok : recs_ok demo_recs.
Proof.
  split; [|repeat constructor].
  unfold demo_recs. rewrite !Forall_cons, Forall_nil. unfold rec_ok. cbn [fst snd]. split_and!; try done; literal.
Qed.

Lemma demo_flat_db : flat_db demo_flat 1 demo_recs.
Proof. split; try done; [apply demo_recs_ok|by exists 0|by right]. Qed.

(** ** The search *)

(** C22: [bsearch_mem] in a sorted file, for any word of key characters, returns
    without leaving the file; if a record has the word as its key, the offset and
    length of its line, otherwise 0 and the offset where its line belongs, after
    every smaller key and before every greater one. *)
Theorem bsearch_mem_finds (l : list rec) (w rest : bytes)
    (Hsorted : recs_ok l) (Hword : Forall mbox_char w) (Hsize : blen (lines l) < 2147483648) :
  ∃ l1 l2 offset len,
    bsearch_mem (w ++ 0 :: rest) true (lines l) (blen (lines l)) 0 = Ok (offset, len) ∧
    offset = blen (lines l1) ∧
    Forall (λ x, bsearch_ncompare x.1 w < 0) l1 ∧ Forall (λ x, bsearch_ncompare w x.1 < 0) l2 ∧
    ((∃ d, l = l1 ++ (w, d) :: l2 ∧ len = blen (line (w, d))) ∨ (l = l1 ++ l2 ∧ len = 0)).
Proof.
  destruct (bsearch_mem_ok l w rest Hsorted Hword Hsize) as (p & Hp & Hpl).
  destruct (placed_split _ _ _ Hsorted Hword Hpl) as (l1 & od & l2 & Hl & [Hb Ha] & ->).
  exists l1, l2, (blen (lines l1)), (blen (lines (mid_of w od))). split_and!; [done|done|done|done|].
  destruct od as [d|]; [left; exists d|right]; (split; [done|]); [cbn; by rewrite app_nil_r|done].
Qed.

(** ** The backend is a transactional map *)

Section Backend.
Context `{E : Env} (Hcalls : ∀ n, fails n = false) (Hroom : DB_LIMIT ≤ file_limit).
Abbreviation ops_ok := (ops_ok (BO := flat_ok Hcalls Hroom)).
Abbreviation ops_cost := (ops_cost (BO := flat_ok Hcalls Hroom)).

Lemma flat_ops_ok os m : Forall op_ok os → ops_ok os m.
Proof using. intros H. revert m. induction H as [|o os Ho _ IH]; intros m; [done|]. split; [done|]. by destruct (spec_call o m).2. Qed.

(** C5: a transaction on a flat database, any sequence of [fetch], [store],
    [create] and [delete] calls and the commit, returns, gives the answers a finite map gives,
    and leaves a sound database with the map they leave; a call that refuses
    leaves the map of before.  A key that is not there is deleted with the answer 0
    even without [force], which [cyrusdb.h] has for this.  The handle may be of a file that another process
    has replaced: the transaction is on the file of now. *)
Theorem flat_transaction_refines (o : op) (ops : list op) (s : st) (ino : Z) (l : list rec)
    (Hdb : flat_db s ino l) (Hok : Forall op_ok (o :: ops))
    (Hsize : blen (lines l) + ops_cost (o :: ops) < DB_LIMIT) :
  wp (transact (B := cyrusdb_flat) o ops) (λ answers s',
    let '(expected, m) := spec_calls (o :: ops) (contents l) in
    answers = expected ∧ ∃ ino' l', flat_db s' ino' l' ∧ contents l' = default (contents l) m) s.
Proof using Hcalls Hroom.
  eapply wp_mono; [apply (transact_refine (BO := flat_ok Hcalls Hroom) o ops s (contents l) (blen (lines l)));
    [by exists ino, l|by apply flat_ops_ok|cbn [db_end_cost flat_ok]; lia]|].
  intros r s'. cbv beta. destruct (spec_calls _ _) as [rs m]. intros (-> & ino' & l' & Hd & Hc & _).
  split; [done|]. by exists ino', l'.
Qed.

Lemma calls_invisible ops s ino l0 l t :
  flat_txn s ino l0 l t → Forall op_ok ops → blen (lines l) + ops_cost ops < DB_LIMIT →
  wp (calls (B := cyrusdb_flat) ops t) (λ r s',
    match r.2 with Some t' => ∃ l', flat_txn s' ino l0 l' t' | None => flat_db s' ino l0 end) s.
Proof using Hcalls Hroom.
  revert s l t. induction ops as [|o ops IH]; intros s l t Ht Hok Hz; cbn [calls]; [apply wp_ret; by exists l|].
  inversion_clear Hok as [|?? Ho Hoks]. cbn [CyrusDb.ops_cost db_cost flat_ok] in Hz. pose proof (flat_op_cost_nonneg o).
  pose proof (ops_cost_nonneg (BO := flat_ok Hcalls Hroom) ops).
  apply wp_bind. eapply wp_mono; [eapply (call_txn Hcalls Hroom); [exact Ht|done|done|lia]|].
  unfold txn_after. intros [[r d] t'] s1. destruct (spec_call o (contents l)).2.
  - intros (t1 & l1 & [= _ ->] & Ht1 & _ & Hb). apply wp_bind. eapply wp_mono; [eapply IH; [exact Ht1|done|lia]|].
    intros [rs e] s2 H2. by apply wp_ret.
  - intros [[= _ ->] Hd]. by apply wp_ret.
Qed.

(** C21: until it is committed a transaction is invisible: whatever calls it has made, the
    name is still of the same file, with the bytes it had, and locked; and
    [abort_txn] returns, gives the handle that file again, and unlocks it. *)
Theorem flat_transaction_invisible (o : op) (ops : list op) (s : st) (ino : Z) (l : list rec)
    (Hdb : flat_db s ino l) (Hok : Forall op_ok (o :: ops))
    (Hsize : blen (lines l) + ops_cost (o :: ops) < DB_LIMIT) :
  wp (begin (B := cyrusdb_flat) o ops) (λ r s',
    names (fs s') !! fname s' = Some ino ∧ inodes (fs s') !! ino = Some (lines l) ∧
    match r.2 with
    | Some t => held (fs s') !! ino = Some LExclusive ∧
        wp (abort_txn t) (λ r s'', r = 0 ∧ flat_db s'' ino l ∧ view s'' = lines l ∧ held (fs s'') !! ino = None) s'
    | None => flat_db s' ino l
    end) s.
Proof using Hcalls Hroom.
  inversion_clear Hok as [|?? Ho Hoks]. cbn [CyrusDb.ops_cost db_cost flat_ok] in Hsize. pose proof (flat_op_cost_nonneg o).
  pose proof (ops_cost_nonneg (BO := flat_ok Hcalls Hroom) ops). unfold begin.
  apply wp_bind. eapply wp_mono; [eapply (flat_call_begin Hcalls Hroom); [exact Hdb|done|done|lia]|].
  assert (∀ s' l' t, flat_txn s' ino l l' t → held (fs s') !! ino = Some LExclusive ∧
    wp (abort_txn t) (λ r s'', r = 0 ∧ flat_db s'' ino l ∧ view s'' = lines l ∧ held (fs s'') !! ino = None) s') as Habort.
  { intros s' l' t Ht. split; [apply Ht|]. eapply wp_mono; [by eapply (abort_ok Hcalls)|].
    intros r s'' (-> & Hd & Hi & Hh & _). split_and!; [done|done|by eapply db_view|done]. }
  unfold txn_after. intros [[r d] t'] s1. destruct (spec_call o (contents l)).2.
  - intros (t1 & l1 & [= _ ->] & Ht1 & _ & Hb). apply wp_bind. eapply wp_mono; [eapply calls_invisible; [exact Ht1|done|lia]|].
    intros [rs e] s2 H2. apply wp_ret. cbn [snd] in *. destruct e as [t2|].
    + destruct H2 as [l2 Ht2]. split; [apply Ht2|]. split; [apply Ht2|]. by eapply Habort.
    + split; [apply H2|]. split; [apply H2|done].
  - intros [[= _ ->] Hd]. apply wp_ret. cbn [snd]. split; [apply Hd|]. split; [apply Hd|done].
Qed.

(** [foreach] without a transaction shows the callback every record whose key has
    the prefix and that the test lets through, in the order of the file, until
    it asks to stop, and returns what it asked with; no file is changed. *)
Theorem flat_foreach_in_order {R : Type} (goodp : R → bytes → bytes → bool) (f : R → bytes → bytes → Z * R)
    (fuel : nat) (s : st) (ino : Z) (l : list rec) (pre : bytes) (c : Z) (rest : bytes) (rock : R)
    (Hdb : flat_db s ino l) (Hpre : Forall mbox_char pre) (Hfuel : (length l < fuel)%nat) :
  wp (foreach (λ rock k d, Ok (goodp rock k d)) (fcb f) fuel (Some (pre ++ c :: rest)) (blen pre) NoTid rock) (λ a s',
    a = (scan goodp f rock (filter (λ x : rec, pre `prefix_of` x.1) l), None) ∧
    flat_db s' ino l ∧ inodes (fs s') = inodes (fs s)) s.
Proof using Hcalls. apply (foreach_ok Hcalls goodp f); [done..|]. intros tp rock' x s' _. unfold fcb. by destruct (f _ _ _). Qed.
End Backend.

(** ** Runs that end badly *)

Section Runs.
Context (limit : Z) (bad : nat → bool).
#[local] Instance run_env : Env := flat_machine limit bad.
#[local] Instance run_backend : Backend := cyrusdb_flat.

(** What a process returns that starts without files. *)
Definition nothing : st := St (Fs ∅ ∅ ∅ 7 0) [] None (Map 0 0 0 0) (Hdr 0 0 0 0 0 0 0).
Definition outcome {A} (m : M A) : result A := '(a, _) ← m nothing; Ok a.
Definition one (o : op) : M answer := '(r, d, _) ← call o NoTid; mret (r, d).

(** [create] of a key that is there, and the lock afterwards. *)
Definition create_again : M (answer * option lock) :=
  _ ← myopen [109] true; _ ← one (OStore [97] [1]); a ← one (OCreate [97] [2]);
  h ← get (λ s, held (fs s) !! map_ino (mp s)); mret (a, h).

(** A commit, the number of system calls before it, and what is read after it. *)
Definition fetch_after_commit : M (nat * Z * answer) :=
  _ ← myopen [109] true; _ ← one (OStore [97] [1]); '(_, t) ← db_store [97] [2] NewTid;
  n ← get (λ s, ticks (fs s));
  match t with Some t => r ← commit_txn t; a ← one (OFetch [97]); mret (n, r, a) | None => mret (n, 0, (0, None)) end.

(** A transaction on a disk that fills up. *)
Definition store_without_room : M Z :=
  _ ← myopen [109] true; _ ← one (OStore [97] [1]); '(r, _) ← db_store [98] [2; 3; 4; 5; 6; 7] NewTid; mret r.

(** [foreach] in a transaction over two keys, with a callback that counts them. *)
Definition count_keys (k : bytes) : M (Z * Z) :=
  _ ← myopen [109] true; _ ← one (OStore [97] [1]); _ ← one (OStore k [1]);
  '(r, n, _) ← foreach (λ _ _ _, Ok true) (λ tp n _ _, mret (0, n + 1, tp)) 10 None 0 NewTid 0; mret (r, n).

(** The same with a callback that stores, in the transaction. *)
Definition update_all (d : bytes) : M (Z * Z) :=
  _ ← myopen [109] true; _ ← one (OStore [97] [1]); _ ← one (OStore [98] [1]);
  '(r, n, _) ← foreach (λ _ _ _, Ok true)
    (λ tp n k _, match tp with Some t => '(r, t) ← db_store k d (OldTid t); mret (r, n + 1, t) | None => mret (0, n, tp) end)
    10 None 0 NewTid 0;
  mret (r, n).
End Runs.

(** Such runs: the lock that stays after a refused [create]; a handle that shows
    what a failed commit has not committed; a store in a transaction for which there is
    no room, which aborts the transaction and goes on using it; the NUL behind the
    buffer for keys, when a key is as long as the buffer (33 bytes, after one of 1) and
    not when it is longer; a callback that replaces data by data of the same length and
    leaves [foreach] with a pointer into the mapping that is gone. *)
Example flat_bad_runs :
  outcome (create_again DB_LIMIT (λ _, false)) = Ok ((CYRUSDB_EXISTS, None), Some LExclusive) ∧
  outcome (fetch_after_commit DB_LIMIT (Nat.eqb 15)) = Ok (15%nat, CYRUSDB_IOERROR, (0, Some [2])) ∧
  outcome (store_without_room 9 (λ _, false)) = Fault OutOfBounds ∧
  outcome (count_keys DB_LIMIT (λ _, false) (replicate 33 98)) = Fault OutOfBounds ∧
  outcome (count_keys DB_LIMIT (λ _, false) (replicate 34 98)) = Ok (0, 2) ∧
  outcome (update_all DB_LIMIT (λ _, false) [5]) = Fault OutOfBounds.
Proof. split_and!; vm_compute; reflexivity. Qed.

Section Failures.
Context `{E : Env}.

(** C26: on any flat database, [create] of a key that is there answers
    [CYRUSDB_EXISTS] and changes nothing; without a transaction it leaves the file
    locked against every other process. *)
Theorem create_keeps_lock (s : st) (ino : Z) (l : list rec) (k d : bytes)
    (Hcalls : ∀ n, fails n = false) (Hroom : DB_LIMIT ≤ file_limit)
    (Hdb : flat_db s ino l) (Hkey : Forall mbox_char k) (Hdata : Forall data_char d)
    (Hthere : is_Some (contents l !! k)) (Hsize : blen (lines l) + op_cost (OCreate k d) < DB_LIMIT) :
  wp (call (B := cyrusdb_flat) (OCreate k d) NoTid) (λ r s',
    r = (CYRUSDB_EXISTS, None, None) ∧ flat_db s' ino l ∧ held (fs s') !! ino = Some LExclusive) s.
Proof using.
  rewrite (flat_call_store (OCreate k d) k (Some d) false NoTid eq_refl). unfold mystore, store_lock. apply wp_bind, wp_bind, wp_bind.
  eapply wp_mono; [by eapply (store_begin Hcalls)|]. intros sb s1 [[x ->] Ht]. apply wp_ret. cbn [Z.eqb negb].
  eapply wp_mono; [eapply (entry_ok Hcalls Hroom _ _ _ _ _ k 0 []); [exact Ht|by right|done|by intros ? [= <-]|done]|].
  intros [r t1] s2. rewrite bool_decide_true by done. cbn [negb andb]. intros ([= -> ->] & Hd & Hl). apply wp_ret.
  split; [done|]. split; [done|by apply Hl].
Qed.

(** C27: a commit of a transaction that has written, whose [fsync] fails, returns an
    error with the database what it was on the disk; but the handle still shows
    the contents that were not committed, and the file stays locked. *)
Theorem failed_commit_shows (s : st) (ino : Z) (l0 l : list rec) (t : ftxn) (f : bytes)
    (Htxn : flat_txn s ino l0 l t) (Hwrote : fnamenew t = Some f) (Hbad : fails (ticks (fs s)) = true) :
  wp (commit_txn t) (λ r s', r = CYRUSDB_IOERROR ∧
    names (fs s') !! fname s' = Some ino ∧ inodes (fs s') !! ino = Some (lines l0) ∧
    view s' = lines l ∧ held (fs s') !! ino = Some LExclusive) s.
Proof using.
  pose proof (txn_view _ _ _ _ _ Htxn) as Hv. destruct Htxn as [Hn Hf _ _ _ _ _ _ Hlk _ _ _ Hnew]. rewrite Hwrote in Hnew.
  destruct Hnew as (-> & w & pw & Hfd & Hw & _).
  unfold commit_txn. rewrite Hwrote. apply wp_bind, wp_get. unfold install. rewrite Hfd. apply wp_bind, wp_bind. unfold fsync.
  apply wp_bind. eapply wp_intro; [reflexivity|]. rewrite Hbad. apply wp_ret. cbn [Z.eqb Z.opp]. apply wp_bind, wp_ret.
  apply wp_bind. unfold close_fd, drop_lock, modify_fs. apply wp_modify, wp_ret, wp_ret. split; [done|]. cbn.
  split_and!; [done|done|by rewrite <- Hv|by rewrite lookup_delete_ne].
Qed.

(** The buffer for keys of [foreach] is too short exactly when the key fills it. *)
Theorem save_key_overflows (savebuflen keylen : Z)
    (Hbuf : 0 ≤ savebuflen < 2 ^ 30) (Hkey : 0 ≤ keylen < 2 ^ 30) :
  save_key savebuflen keylen = Fault OutOfBounds ↔ keylen = savebuflen.
Proof using.
  unfold save_key. destruct (Z.ltb_spec savebuflen keylen) as [H|H].
  - rewrite !to_s32_small by (unfold is_s32; lia).
    destruct (Z.ltb_spec (keylen + 32) (2 * savebuflen)).
    + destruct (Z.ltb_spec keylen (2 * savebuflen)); [|lia]. split; [done|lia].
    + destruct (Z.ltb_spec keylen (keylen + 32)); [|lia]. split; [done|lia].
  - destruct (Z.ltb_spec keylen savebuflen); split; try done; lia.
Qed.
End Failures.

(** ** The theorems at work *)

Section Witnesses.
#[local] Instance demo_machine : Env := flat_machine DB_LIMIT (λ _, false).

Lemma demo_quiet n : fails n = false. Proof. done. Qed.
Lemma demo_space : DB_LIMIT ≤ file_limit. Proof. done. Qed.

Lemma bsearch_mem_finds_witness :
  ∃ l1 l2 offset len,
    bsearch_mem ([97; 46] ++ [0]) true (lines demo_recs) (blen (lines demo_recs)) 0 = Ok (offset, len) ∧
    offset = blen (lines l1) ∧
    Forall (λ x, bsearch_ncompare x.1 [97; 46] < 0) l1 ∧ Forall (λ x, bsearch_ncompare [97; 46] x.1 < 0) l2 ∧
    ((∃ d, demo_recs = l1 ++ ([97; 46], d) :: l2 ∧ len = blen (line ([97; 46], d))) ∨ (demo_recs = l1 ++ l2 ∧ len = 0)).
Proof.
  apply (bsearch_mem_finds demo_recs [97; 46] []); [apply demo_recs_ok|literal|vm_compute; reflexivity].
Defined.

Definition demo_calls_on : list op := [OFetch [97]; ODelete [98] false; OCreate [98; 99] [7]; OFetch [98]].

Lemma demo_calls_ok : Forall op_ok (OStore [97] [5; 6] :: demo_calls_on).
Proof.
  unfold demo_calls_on. rewrite !Forall_cons, Forall_nil. cbn.
  split_and!; try done; literal.
Qed.

Lemma flat_transaction_refines_witness :
  wp (transact (B := cyrusdb_flat) (OStore [97] [5; 6]) demo_calls_on) (λ answers s',
    answers = [(0, None); (0, Some [5; 6]); (0, None); (0, None); (CYRUSDB_NOTFOUND, None)] ∧
    ∃ ino' l', flat_db s' ino' l' ∧ contents l' = contents [([97], [5; 6]); ([97; 46], []); ([98; 99], [7])]) demo_flat.
Proof.
  apply (flat_transaction_refines demo_quiet demo_space (OStore [97] [5; 6]) demo_calls_on demo_flat 1 demo_recs);
    [apply demo_flat_db|apply demo_calls_ok|vm_compute; reflexivity].
Defined.

Lemma flat_transaction_invisible_witness :
  wp (begin (B := cyrusdb_flat) (OStore [97] [5; 6]) demo_calls_on) (λ r s',
    names (fs s') !! fname s' = Some 1 ∧ inodes (fs s') !! 1 = Some (lines demo_recs) ∧
    match r.2 with
    | Some t => held (fs s') !! 1 = Some LExclusive ∧
        wp (abort_txn t) (λ r s'', r = 0 ∧ flat_db s'' 1 demo_recs ∧ view s'' = lines demo_recs ∧ held (fs s'') !! 1 = None) s'
    | None => flat_db s' 1 demo_recs
    end) demo_flat.
Proof.
  apply (flat_transaction_invisible demo_quiet demo_space (OStore [97] [5; 6]) demo_calls_on demo_flat 1 demo_recs);
    [apply demo_flat_db|apply demo_calls_ok|vm_compute; reflexivity].
Defined.

Lemma flat_foreach_in_order_witness :
  wp (foreach (λ _ _ _, Ok true) (fcb (λ n k _, (0, k :: n))) 4 (Some ([97] ++ 0 :: [])) (blen [97]) NoTid [])
    (λ a s', a = ((0, [[97; 46]; [97]]), None) ∧ flat_db s' 1 demo_recs ∧ inodes (fs s') = inodes (fs demo_flat)) demo_flat.
Proof.
  apply (flat_foreach_in_order demo_quiet (λ _ _ _, true) (λ n k _, (0, k :: n)) 4 demo_flat 1 demo_recs [97] 0 [] []);
    [apply demo_flat_db|literal|cbn; lia].
Defined.

Lemma create_keeps_lock_witness :
  wp (call (B := cyrusdb_flat) (OCreate [98] [7]) NoTid) (λ r s',
    r = (CYRUSDB_EXISTS, None, None) ∧ flat_db s' 1 demo_recs ∧ held (fs s') !! 1 = Some LExclusive) demo_flat.
Proof.
  apply (create_keeps_lock demo_flat 1 demo_recs [98] [7] demo_quiet demo_space);
    [apply demo_flat_db|literal|literal|by exists [3]|vm_compute; reflexivity].
Defined.
End Witnesses.

(** In a transaction that has taken out the last record, the new file is open when
    [fsync] fails. *)
Section FailedCommit.
#[local] Instance failing_machine : Env := flat_machine DB_LIMIT (Nat.eqb 5).
Definition shorter_recs : list rec := [([97], [1; 2]); ([97; 46], [])].
Definition demo_open_txn : ftxn := FTxn (Some [109; 46; 78; 69; 87]) (Some (2, 9)).
Definition demo_writing : st :=
  St (Fs (<[2 := lines shorter_recs]> {[1 := lines demo_recs]}) (<[ [109; 46; 78; 69; 87] := 2 ]> {[ [109] := 1 ]})
       {[1 := LExclusive]} 3 5) [109] (Some (1, 0)) (Map 2 16384 9 1) (Hdr 0 0 0 0 0 0 0).

Lemma demo_writing_txn : flat_txn demo_writing 1 demo_recs shorter_recs demo_open_txn.
Proof.
  split; try done; [apply demo_recs_ok|by exists 0| |].
  - split; [|repeat constructor]. unfold shorter_recs. rewrite !Forall_cons, Forall_nil. unfold rec_ok. cbn [fst snd].
    split_and!; try done; literal.
  - split; [done|]. exists 2, 9. split_and!; try done. split; [by right|vm_compute; done].
Qed.

Lemma failed_commit_shows_witness :
  wp (commit_txn demo_open_txn) (λ r s', r = CYRUSDB_IOERROR ∧
    names (fs s') !! fname s' = Some 1 ∧ inodes (fs s') !! 1 = Some (lines demo_recs) ∧
    view s' = lines shorter_recs ∧ held (fs s') !! 1 = Some LExclusive) demo_writing.
Proof.
  apply (failed_commit_shows demo_writing 1 demo_recs shorter_recs demo_open_txn [109; 46; 78; 69; 87]);
    [apply demo_writing_txn|reflexivity|reflexivity].
Defined.
End FailedCommit.
