(* ===== verification/Mboxlist.v ===== *)
(** * Mboxlist: the list of mailboxes

    [imap/mboxlist.c]: each mailbox has an entry "type partition acl" in a
    database.  The functions that look mailboxes up, create, delete and rename
    them and change their access control lists, over any backend; the files of
    mailboxes and the MUPDATE server are the class [Outside].  The buffers that
    [mboxlist_mylookup] returns pointers into are part of the state. *)
From stdpp Require Import gmap list.
From S2P Require Import Prelude CMem CString Prog DbFile CyrusDb Auth Acl Mboxname.
#[local] Open Scope Z_scope.

Definition MBTYPE_REMOTE : Z := 1.
Definition MBTYPE_RESERVE : Z := 2.
Definition MBTYPE_NETNEWS : Z := 4.
Definition MBTYPE_MOVING : Z := 8.
Definition MAX_PARTITION_LEN : Z := 64.
Definition HOSTNAME_SIZE : Z := 512.
Definition MAX_MAILBOX_PATH : Z := 4096.

Definition IMAP_IOERROR : Z := -1904809471.
Definition IMAP_SYS_ERROR : Z := -1904809470.
Definition IMAP_PERMISSION_DENIED : Z := -1904809468.
Definition IMAP_MAILBOX_NOTSUPPORTED : Z := -1904809461.
Definition IMAP_MAILBOX_NONEXISTENT : Z := -1904809460.
Definition IMAP_MAILBOX_EXISTS : Z := -1904809459.
Definition IMAP_MAILBOX_RESERVED : Z := -1904809456.
Definition IMAP_PARTITION_UNKNOWN : Z := -1904809454.
Definition IMAP_INVALID_IDENTIFIER : Z := -1904809453.
Definition IMAP_AGAIN : Z := -1904809437.
Definition CYRUSDB_AGAIN : Z := -2.

Definition has (x flag : Z) : bool := negb (Z.land x flag =? 0).

(** ** Surroundings *)

(** [imapd.conf], and what the stack holds where [mboxname_userownsmailbox] has
    its buffer. *)
Class Site := {
  config_partitiondir : bytes → option bytes;
  config_metapartitiondir : bytes → option bytes;
  config_virtdomains : bool;
  config_defdomain : option bytes;
  config_hashimapspool : bool;
  fulldirhash : bool;
  config_implicitrights : Z;
  unixhierarchysep : bool;
  deleteright : Z;
  defaultacl : bytes;
  config_defpartition : bytes;
  allowusermoves : bool;
  anyoneuseracl : bool;
  config_mupdate_server : bool;
  config_mupdate_unified : bool;
  config_servername : bytes;
  stack_inbox : bytes;
}.

(** The files of mailboxes ([imap/mailbox.c]), annotations ([imap/annotate.c]) and
    the MUPDATE server ([imap/mupdate-client.c]): their state, and the calls, which
    return a code.  A [struct mailbox] that could not be opened is one too.  The
    handle of a connection is not NULL after [mupdate_connect]. *)
Class Outside := {
  world : Type;
  mailbox : Type;
  mailbox_create : bytes → bytes → bytes → bool → world → Z * world;
  mailbox_open_locked : bytes → bytes → option bytes → bytes → world → Z * mailbox * world;
  mailbox_open_header_path : bytes → bytes → option bytes → bytes → world → Z * mailbox * world;
  mailbox_lock_header : mailbox → world → Z * world;
  mailbox_write_header : mailbox → bytes → world → Z * world;
  mailbox_close : mailbox → world → world;
  mailbox_delete : mailbox → world → Z * world;
  mailbox_rename_copy : mailbox → bytes → bytes → world → Z * mailbox * world;
  mailbox_rename_cleanup : mailbox → bool → world → world;
  annotatemore_delete : bytes → world → world;
  mupdate_handle : Type;
  mupdate_connect : world → Z * mupdate_handle * world;
  mupdate_reserve : mupdate_handle → bytes → bytes → world → Z * world;
  mupdate_activate : option mupdate_handle → bytes → bytes → bytes → world → Z * world;
  mupdate_delete : option mupdate_handle → bytes → world → Z * world;
  mupdate_disconnect : mupdate_handle → world → world;
}.

(** ** State

    The database, the rest of the world, and the static buffers of
    [mboxlist_mylookup] and [mboxlist_getpath]: [acl_gen] counts how often
    [aclresult] has been reallocated. *)
Record mbstate `{Outside} := Mb {
  disk : st; outer : world;
  partition_buf : bytes; acl_buf : bytes; acl_size : Z; acl_gen : nat;
  pathresult : bytes; mpathresult : bytes }.

Section Setters.
Context `{Ou : Outside}.
Definition set_disk (x : st) (m : mbstate) : mbstate :=
  Mb _ x (outer m) (partition_buf m) (acl_buf m) (acl_size m) (acl_gen m) (pathresult m) (mpathresult m).
Definition set_outer (x : world) (m : mbstate) : mbstate :=
  Mb _ (disk m) x (partition_buf m) (acl_buf m) (acl_size m) (acl_gen m) (pathresult m) (mpathresult m).
Definition set_partition (x : bytes) (m : mbstate) : mbstate :=
  Mb _ (disk m) (outer m) x (acl_buf m) (acl_size m) (acl_gen m) (pathresult m) (mpathresult m).
(** [if (acllen >= aclresultalloced) { aclresultalloced = acllen + 100; xrealloc }], and the copy. *)
Definition set_acl (x : bytes) (m : mbstate) : mbstate :=
  let grows := acl_size m <=? blen x in
  Mb _ (disk m) (outer m) (partition_buf m) x (if grows then blen x + 100 else acl_size m)
    (if grows then S (acl_gen m) else acl_gen m) (pathresult m) (mpathresult m).
Definition set_paths (x y : bytes) (m : mbstate) : mbstate :=
  Mb _ (disk m) (outer m) (partition_buf m) (acl_buf m) (acl_size m) (acl_gen m) x y.
End Setters.

Section Mboxlist.
Context `{B : Backend} `{Si : Site} `{Ou : Outside}.
Abbreviation P := (Prog mbstate).

(** A call of the database, and of the rest of the world. *)
Definition db {A} (p : M A) : P A := λ m, '(a, s) ← p (disk m); Ok (a, set_disk s m).
Definition out {A} (f : world → A * world) : P A := λ m, let '(a, w) := f (outer m) in Ok (a, set_outer w m).
Definition out_ (f : world → world) : P unit := modify (λ m, set_outer (f (outer m)) m).

(** [struct txn **tid]: NULL, or the variable. *)
Definition tidref : Type := option (option db_txn).
Definition tid_arg (tid : tidref) : tidp db_txn :=
  match tid with None => NoTid | Some None => NewTid | Some (Some t) => OldTid t end.
Definition tid_after (tid : tidref) (t : option db_txn) : tidref := match tid with None => None | Some _ => Some t end.

(** ** Entries *)

(** [sprintf("%d")] of an [int]. *)
Fixpoint decimal (fuel : nat) (n : Z) (a : bytes) : bytes :=
  match fuel with
  | O => a
  | S fuel' => let a := 48 + n mod 10 :: a in if n / 10 =? 0 then a else decimal fuel' (n / 10) a
  end.
Definition print_int (n : Z) : bytes := if n <? 0 then 45 :: decimal 10 (- n) [] else decimal 10 n [].
Definition mboxlist_makeentry (mbtype : Z) (part acl : bytes) : bytes :=
  print_int mbtype ++ [32] ++ part ++ [32] ++ acl.

(** [strtol(data, &p, 10)]: the number, as an [int], and [p]. *)
Fixpoint strtol_digits (fuel : nat) (m : bytes) (p n : Z) : result (Z * Z) :=
  match fuel with
  | O => Fault OutOfBounds
  | S fuel' => c ← rd8 m p; if isdigit c then strtol_digits fuel' m (p + 1) (10 * n + (c - 48)) else Ok (n, p)
  end.
Fixpoint strtol_space (fuel : nat) (m : bytes) (p : Z) : result Z :=
  match fuel with
  | O => Fault OutOfBounds
  | S fuel' => c ← rd8 m p; if isspace c then strtol_space fuel' m (p + 1) else Ok p
  end.
Definition strtol (m : bytes) : result (Z * Z) :=
  let fuel := S (length m) in
  p ← strtol_space fuel m 0;
  c ← rd8 m p;
  let neg := c =? 45 in
  let start := if neg || (c =? 43) then p + 1 else p in
  '(n, e) ← strtol_digits fuel m start 0;
  if e =? start then Ok (0, 0) (* no number: p is the beginning *)
  else let n := if neg then - n else n in Ok (to_s32 (Z.max (- 2 ^ 63) (Z.min n (2 ^ 63 - 1))), e).

(** Copy out the partition name: [partition] and [p]; the NUL goes in, too. *)
Fixpoint copy_partition (room : nat) (m : bytes) (p : Z) : result (bytes * Z) :=
  match room with
  | O => Fault OutOfBounds
  | S room' => c ← rd8 m p; if c =? 32 then Ok ([], p) else '(q, p') ← copy_partition room' m (p + 1); Ok (c :: q, p')
  end.
Definition PARTITION_SIZE : nat := Z.to_nat (MAX_PARTITION_LEN + HOSTNAME_SIZE + 2).

(** The type, the partition, and the rest. *)
Definition parse_entry (data : bytes) : result (Z * bytes * bytes) :=
  '(mbtype, p) ← strtol data;
  c ← rd8 data p;
  let p := if c =? 32 then p + 1 else p in
  '(part, p) ← copy_partition PARTITION_SIZE data p;
  part ← cstr (part ++ [0]); acl ← cstr (from (p + 1) data ++ [0]);
  Ok (mbtype, part, acl).

(** ** Paths *)

(** [tolower], and a hash of the first component. *)
Fixpoint dir_hash_loop (name : bytes) (n : Z) : Z :=
  match name with
  | c :: name' => if c =? DOT then n else dir_hash_loop name' (to_u32 (Z.lxor (Z.lxor (Z.shiftl n 3) (Z.shiftr n 5)) c))
  | [] => n
  end.
Definition dir_hash_c (name : bytes) : Z :=
  if fulldirhash then 65 + dir_hash_loop name 0 mod 23 else
  let c := TOLOWER (default 0 (head name)) in if (97 <=? c) && (c <=? 122) then c else 113.

(** [snprintf(buf, buf_len, ...)] *)
Definition snprint (n : Z) (s : bytes) : bytes := take (Z.to_nat (n - 1)) s.
Definition FNAME_DOMAINDIR : bytes := [47; 100; 111; 109; 97; 105; 110; 47].
Definition dots_to_slashes (s : bytes) : bytes := map (λ c, if c =? DOT then SLASH else c) s.

Definition mailbox_hash_mbox (root name : bytes) : bytes :=
  let n := MAX_MAILBOX_PATH + 1 in
  let a := snprint n root in
  let n := n - blen a in
  let '(b, name) := match (if config_virtdomains then chr_pos name BANG else None) with
    | Some i =>
        let d := prec i name in
        (snprint n (FNAME_DOMAINDIR ++ (if config_hashimapspool then [dir_hash_c d; SLASH] else []) ++ d), from (i + 1) name)
    | None => ([], name)
    end in
  let n := n - blen b in
  let c := if config_hashimapspool then
             let idx := match chr_pos name DOT with Some i => from (i + 1) name | None => name end in
             snprint n ([SLASH; dir_hash_c idx; SLASH] ++ name)
           else snprint n (SLASH :: name) in
  a ++ b ++ dots_to_slashes c.

(** [*mpathp] is NULL, or the second buffer. *)
Definition mboxlist_getpath (partition name : bytes) (mpath : bool) : P (Z * bool) :=
  match config_partitiondir partition with
  | None => mret (IMAP_PARTITION_UNKNOWN, false)
  | Some root =>
      modify (λ m, set_paths (mailbox_hash_mbox root name) (mpathresult m) m);;
      match (if mpath then config_metapartitiondir partition else None) with
      | Some root => modify (λ m, set_paths (pathresult m) (mailbox_hash_mbox root name) m);; mret (0, true)
      | None => mret (0, false)
      end
  end.

(** ** [mboxlist_mylookup] *)

(** What it returns through its pointers: [path] and [acl] point to the static
    buffers. *)
Inductive pathptr := PathResult | PartitionBuf.
Record found := Found { f_type : Z; f_path : pathptr; f_mpath : bool; f_acl : nat }.
Definition nothing_found : found := Found 0 PathResult false 0.

(** The string a pointer to [aclresult] shows: none once that has moved. *)
Definition read_acl (f : found) : P bytes :=
  g ← get acl_gen; if (f_acl f =? g)%nat then get acl_buf else mfault OutOfBounds.
Definition read_path (f : found) : P bytes :=
  match f_path f with PathResult => get pathresult | PartitionBuf => get partition_buf end.
Definition read_mpath (f : found) : P (option bytes) :=
  if f_mpath f then m ← get mpathresult; mret (Some m) else mret None.

(** Which of its pointers are not NULL. *)
Record wants := Wants { w_path : bool; w_mpath : bool; w_acl : bool }.
Definition all_wanted : wants := Wants true true true.
Definition acl_wanted : wants := Wants false false true.

(** Construct pathname if requested: the code, the path, and whether there is an [mpath]. *)
Definition find_path (mbtype : Z) (partition name : bytes) (mpath : bool) : P (Z * pathptr * bool) :=
  if has mbtype MBTYPE_REMOTE then mret (0, PartitionBuf, false)
  else if has mbtype MBTYPE_MOVING then
    match chr_pos partition BANG with
    | None => mret (IMAP_SYS_ERROR, PathResult, false)
    | Some i => (* skip the !, go to the beginning of the partition name *)
        '(r, mp) ← mboxlist_getpath (from (i + 1) partition) name mpath; mret (r, PathResult, mp)
    end
  else '(r, mp) ← mboxlist_getpath partition name mpath; mret (r, PathResult, mp).

Definition mboxlist_mylookup (name : bytes) (w : wants) (tid : tidref) : P (Z * found * tidref) :=
  match name with
  | [] => mret (IMAP_MAILBOX_NONEXISTENT, nothing_found, tid)
  | _ =>
      '(r, data, t) ← db (db_fetch name (tid_arg tid));
      let tid := tid_after tid t in
      if r =? CYRUSDB_OK then
        match data with
        | None => mfault OutOfBounds
        | Some data =>
            (* copy out interesting parts *)
            '(mbtype, part, acl) ← liftr (parse_entry data);
            modify (set_partition part);;
            '(r, path, mp) ← (if w_path w then find_path mbtype part name (w_mpath w) else mret (0, PathResult, false));
            if negb (r =? 0) then mret (r, nothing_found, tid) else
            (if w_acl w then modify (set_acl acl) else mret tt);;
            g ← get acl_gen;
            mret (0, Found mbtype path mp g, tid)
        end
      else if r =? CYRUSDB_AGAIN then mret (IMAP_AGAIN, nothing_found, tid)
      else if r =? CYRUSDB_NOTFOUND then mret (IMAP_MAILBOX_NONEXISTENT, nothing_found, tid)
      else mret (IMAP_IOERROR, nothing_found, tid)
  end.

Definition mboxlist_lookup (name : bytes) : P (Z * found) :=
  '(r, f, _) ← mboxlist_mylookup name acl_wanted None; mret (r, f).
Definition mboxlist_detail (name : bytes) (w : wants) : P (Z * found) :=
  '(r, f, _) ← mboxlist_mylookup name w None; mret (r, f).

Definition STAGE : bytes := [47; 115; 116; 97; 103; 101; 46; 47].
Definition mboxlist_findstage (name : bytes) (sd_len : Z) : P (Z * bytes) :=
  '(r, _, _) ← mboxlist_mylookup name (Wants false false false) None;
  if negb (r =? 0) then mret (r, []) else
  part ← get partition_buf;
  mret (match config_partitiondir part with
        | None => (IMAP_PARTITION_UNKNOWN, [])
        | Some root => (0, snprint sd_len (root ++ STAGE))
        end).

(** ** The end of a transaction *)

Definition commit_tid (tid : tidref) : P Z :=
  match tid with Some (Some t) => db (db_commit t) | _ => mfault OutOfBounds end.
(** [if (tid) DB->abort(mbdb, tid);] *)
Definition abort_tid (tid : tidref) : P unit :=
  match tid with Some (Some t) => _ ← db (db_abort t); mret tt | _ => mret tt end.

Definition store_entry (name : bytes) (mbtype : Z) (part acl : bytes) (tid : tidref) : P (Z * tidref) :=
  '(r, t) ← db (db_store name (mboxlist_makeentry mbtype part acl) (tid_arg tid)); mret (r, tid_after tid t).
Definition delete_entry (name : bytes) (tid : tidref) : P (Z * tidref) :=
  '(r, t) ← db (db_delete name (tid_arg tid) false); mret (r, tid_after tid t).

(** ** MUPDATE *)

(** [snprintf(buf, sizeof(buf), "%s!%s", config_servername, partition)] *)
Definition mupdate_location (partition : bytes) : bytes :=
  snprint (MAX_PARTITION_LEN + HOSTNAME_SIZE + 2) (config_servername ++ [BANG] ++ partition).

(** Disconnect, reconnect, and retry, when the connection was lost: the code and the handle. *)
Definition mupdate_retry (op : option mupdate_handle → world → Z * world) (h : option mupdate_handle) :
    P (Z * option mupdate_handle) :=
  r ← out (op h);
  if negb (0 <? r) then mret (r, h) else
  (match h with Some h => out_ (mupdate_disconnect h) | None => mret tt end);;
  w ← get outer;
  let '(r, h, w) := mupdate_connect w in
  modify (set_outer w);;
  if negb (r =? 0) then mret (r, Some h) else r ← out (op (Some h)); mret (r, Some h).

Definition connect : P (Z * mupdate_handle) :=
  w ← get outer; let '(r, h, w) := mupdate_connect w in modify (set_outer w);; mret (r, h).
Definition disconnect (h : option mupdate_handle) : P unit :=
  match h with Some h => out_ (mupdate_disconnect h) | None => mret tt end.

Definition mboxlist_update (name : bytes) (flags : Z) (part acl : bytes) (localonly : bool) : P Z :=
  '(r, tid) ← store_entry name flags part acl (Some None);
  r ← (if (r =? 0) && negb localonly && config_mupdate_server then
         (* commit the update to MUPDATE *)
         '(r, h) ← connect;
         r ← (if negb (r =? 0) then mret r else out (mupdate_activate (Some h) name (mupdate_location part) acl));
         disconnect (Some h);; mret r
       else mret r);
  (match tid with
   | Some (Some t) => _ ← db (if negb (r =? 0) then db_abort t else db_commit t); mret tt
   | _ => mret tt
   end);;
  mret r.

(** ** Creating *)

Section User.
(** The user ([auth_state]); [isadmin] is an argument. *)
Context `{A : Auth}.

Definition myrights (acl : bytes) : result Z := '(n, _) ← cyrus_acl_myrights deleteright (acl ++ [0]); Ok n.

(** User has admin rights over their own mailbox namespace. *)
Definition owns (userid : option bytes) (name : bytes) : result bool :=
  mboxname_userownsmailbox config_virtdomains config_defdomain userid name stack_inbox.

(** Search for a parent - stop if we hit the domain separator: the code, the
    parent's partition and list, and the transaction. *)
Fixpoint find_parent (fuel : nat) (parent : bytes) (tid : tidref) : P (Z * option (bytes * bytes) * tidref) :=
  match fuel with
  | O => mfault OutOfFuel
  | S fuel' =>
      match rchr_pos parent DOT with
      | None => mret (0, None, tid)
      | Some p =>
          match chr_pos (from p parent) BANG with
          | Some _ => mret (0, None, tid)
          | None =>
              let parent := prec p parent in
              '(r, f, tid) ← mboxlist_mylookup parent acl_wanted tid;
              if r =? 0 then
                part ← get partition_buf; acl ← read_acl f; mret (0, Some (part, acl), tid)
              else if r =? IMAP_MAILBOX_NONEXISTENT then find_parent fuel' parent tid
              else mret (r, None, tid)
          end
      end
  end.

(** The list [defaultacl] says: pairs of an identifier and rights. *)
Fixpoint skip_space (s : bytes) : bytes :=
  match s with c :: s' => if isspace c then skip_space s' else s | [] => [] end.
Fixpoint span_word (s : bytes) : bytes * bytes :=
  match s with
  | c :: s' => if isspace c then ([], s) else let '(w, r) := span_word s' in (c :: w, r)
  | [] => ([], [])
  end.
Fixpoint default_acl (fuel : nat) (s acl : bytes) : result bytes :=
  match fuel with
  | O => Fault OutOfFuel
  | S fuel' =>
      let '(identifier, s) := span_word (skip_space s) in
      match s with
      | [] => Ok acl
      | _ :: s =>
          match skip_space s with
          | [] => Ok acl
          | s =>
              let '(rights, s) := span_word s in
              '(_, acl) ← cyrus_acl_set deleteright acl identifier ACL_MODE_SET (cyrus_acl_strtomask deleteright rights) None;
              default_acl fuel' (tail s) acl
          end
      end
  end.

(** The identifier of the user whose mailbox [mbox] is. *)
Definition owner_identifier (name mbox : bytes) : bytes :=
  let u := from 5 mbox in
  let u := match chr_pos u DOT with Some i => prec i u | None => u end in
  let u := if unixhierarchysep then map (λ c, if c =? DOTCHAR then DOT else c) u else u in
  if blen mbox <? blen name then u ++ [AT] ++ prec (blen name - blen mbox - 1) name else u.

(** The list of a mailbox without a parent; [None] for user.X.* when no user.X. *)
Definition top_acl (name mbox : bytes) (force_user_create : bool) : result (option bytes) :=
  if starts_with mbox user_dot then
    if negb force_user_create && match chr_pos (from 5 mbox) DOT with Some _ => true | None => false end then Ok None else
    '(_, acl) ← cyrus_acl_set deleteright [0] (owner_identifier name mbox) ACL_MODE_SET ACL_ALL None;
    acl ← cstr acl; Ok (Some acl)
  else
    acl ← default_acl (S (length defaultacl)) defaultacl [0]; acl ← cstr acl; Ok (Some acl).

(** [newacl] and [newpartition] when the code is 0.  The case of the parent's name in
    [name] is what it was: parents are found by their exact names. *)
Definition mboxlist_mycreatemailboxcheck (name : bytes) (partition : option bytes) (isadmin : bool) (userid : option bytes)
    (localonly force_user_create : bool) (tid : tidref) : P (Z * option (bytes * bytes) * tidref) :=
  (* Check for invalid name/partition *)
  if match partition with Some p => MAX_PARTITION_LEN <? blen p | None => false end
  then mret (IMAP_PARTITION_UNKNOWN, None, tid) else
  let mbox := match (if config_virtdomains then chr_pos name BANG else None) with
              | Some i => from (i + 1) name | None => name end in
  r ← liftr (mboxname_policycheck unixhierarchysep (mbox ++ [0]));
  if negb (r =? 0) then mret (r, None, tid) else
  (* you must be a real admin to create a local-only mailbox *)
  if negb isadmin && localonly then mret (IMAP_PERMISSION_DENIED, None, tid) else
  if negb isadmin && force_user_create then mret (IMAP_PERMISSION_DENIED, None, tid) else
  own ← liftr (owns userid name);
  let isadmin := if own && match chr_pos (from 5 name) DOT with Some _ => true | None => false end
                    && has config_implicitrights ACL_ADMIN then true else isadmin in
  (* Check to see if new mailbox exists *)
  '(r, f, tid) ← mboxlist_mylookup name acl_wanted tid;
  if r =? 0 then
    rights ← (if isadmin then mret 0 else acl ← read_acl f; liftr (myrights acl));
    (* Lie about error if privacy demands *)
    mret (if negb isadmin && negb (has rights ACL_LOOKUP) then IMAP_PERMISSION_DENIED
          else if has (f_type f) MBTYPE_RESERVE then IMAP_MAILBOX_RESERVED else IMAP_MAILBOX_EXISTS, None, tid)
  else if negb (r =? IMAP_MAILBOX_NONEXISTENT) then mret (r, None, tid) else
  '(r, p, tid) ← find_parent (S (length name)) (take (Z.to_nat MAX_MAILBOX_NAME) name) tid;
  if negb (r =? 0) then mret (r, None, tid) else
  match p with
  | Some (parentpartition, parentacl) =>
      rights ← (if isadmin then mret 0 else liftr (myrights parentacl));
      if negb isadmin && negb (has rights ACL_CREATE) then mret (IMAP_PERMISSION_DENIED, None, tid) else
      mret (0, Some (parentacl, default parentpartition partition), tid)
  | None =>
      if negb isadmin then mret (IMAP_PERMISSION_DENIED, None, tid) else
      acl ← liftr (top_acl name mbox force_user_create);
      match acl with
      | None => mret (IMAP_PERMISSION_DENIED, None, tid)
      | Some acl =>
          match partition with
          | Some p => mret (0, Some (acl, p), tid)
          | None =>
              if MAX_PARTITION_LEN <? blen config_defpartition then mfault AssertFailed (* fatal *)
              else mret (0, Some (acl, config_defpartition), tid)
          end
      end
  end.

Definition mboxlist_createmailboxcheck (name : bytes) (partition : option bytes) (isadmin : bool) (userid : option bytes)
    (forceuser : bool) : P (Z * option (bytes * bytes)) :=
  '(r, x, _) ← mboxlist_mycreatemailboxcheck name partition isadmin userid false forceuser None; mret (r, x).

(** A failed creation: the reserved entry goes, here and on the MUPDATE server. *)
Definition undo_create (name : bytes) (tid : tidref) (newreserved madereserved : bool) (h : option mupdate_handle) :
    P (option mupdate_handle) :=
  abort_tid tid;;
  (if newreserved then _ ← delete_entry name None; mret tt else mret tt);;
  if madereserved && config_mupdate_server then '(_, h) ← mupdate_retry (λ h, mupdate_delete h name) h; mret h else mret h.

(** Steps 3 and 4: reserve the mailbox in the local database and in MUPDATE; the code, what
    has been reserved and the connection.  [None]: retry. *)
Definition reserve (name : bytes) (mbtype : Z) (localonly : bool) (newpartition acl : bytes) (tid : tidref) :
    P (option (Z * bool * option mupdate_handle)) :=
  '(r, tid) ← store_entry name (Z.lor mbtype MBTYPE_RESERVE) newpartition acl tid;
  if negb (r =? 0) then mret None else
  _ ← commit_tid tid;
  if config_mupdate_server && negb localonly then
    '(r, h) ← connect;
    if negb (r =? 0) then mret (Some (r, false, Some h)) else
    r ← out (mupdate_reserve h name (mupdate_location newpartition));
    mret (Some (r, r =? 0, Some h))
  else mret (Some (0, true, None)).

(** [done]: the files, and the entry, or not.  [x] is the list and partition when the checks are passed. *)
Definition finish_create (name : bytes) (mbtype : Z) (localonly dbonly : bool) (r : Z) (x : option (bytes * bytes))
    (tid : tidref) (newreserved madereserved : bool) (h : option mupdate_handle) : P Z :=
  let '(acl, newpartition) := default ([], []) x in
  r ← (if (r =? 0) && negb dbonly && negb (has mbtype MBTYPE_REMOTE) then
         out (mailbox_create name newpartition acl (has mbtype MBTYPE_NETNEWS)) else mret r);
  '(r, h) ← (if negb (r =? 0) then h ← undo_create name tid newreserved madereserved h; mret (r, h)
             else (* all is well - activate the mailbox *)
               '(r, _) ← store_entry name mbtype newpartition acl None;
               mret (if r =? 0 then 0 else IMAP_IOERROR, h));
  '(r, h) ← (if (r =? 0) && config_mupdate_server && negb localonly then
               mupdate_retry (λ h, mupdate_activate h name (mupdate_location newpartition) acl) h
             else mret (r, h));
  (if config_mupdate_server then disconnect h else mret tt);;
  mret r.

(** [retries] bounds the times the database asks to try again. *)
Fixpoint mboxlist_createmailbox (retries : nat) (name : bytes) (mbtype : Z) (partition : option bytes) (isadmin : bool)
    (userid : option bytes) (localonly forceuser dbonly : bool) : P Z :=
  match retries with
  | O => mfault OutOfFuel
  | S retries' =>
      let retry := mboxlist_createmailbox retries' name mbtype partition isadmin userid localonly forceuser dbonly in
      let done := finish_create name mbtype localonly dbonly in
      '(r, x, tid) ← mboxlist_mycreatemailboxcheck name partition isadmin userid localonly forceuser (Some None);
      if r =? IMAP_AGAIN then retry else
      if negb (r =? 0) then done r None tid false false None else
      (* You can't explicitly create a MOVING or RESERVED mailbox *)
      if has mbtype (Z.lor MBTYPE_MOVING MBTYPE_RESERVE) then done IMAP_MAILBOX_NOTSUPPORTED x tid false false None else
      let '(acl, newpartition) := default ([], []) x in
      res ← reserve name mbtype localonly newpartition acl tid;
      match res with
      | None => retry
      | Some (r, madereserved, h) => done r x (Some None) true madereserved h
      end
  end.

(** ** Remote mailboxes *)

Definition mboxlist_insertremote (name : bytes) (mbtype : Z) (host acl : bytes) (tid : tidref) : P (Z * tidref) :=
  let '(mbtype, host) := match chr_pos host BANG with
    | Some len => (* remote mailbox *)
        if config_mupdate_unified && strcaseeq (prec len host) config_servername
        then (Z.land mbtype (Z.lnot MBTYPE_REMOTE), from (len + 1) host) (* its on our server, make it a local mailbox *)
        else (Z.lor mbtype MBTYPE_REMOTE, host)
    | None => (mbtype, host)
    end in
  '(r, tid) ← store_entry name mbtype host acl tid;
  if r =? CYRUSDB_OK then mret (r, tid)
  else if r =? CYRUSDB_AGAIN then mfault AssertFailed (* abort *)
  else mret (IMAP_IOERROR, tid).

(** [retries] bounds the turns of the two loops. *)
Fixpoint deleteremote_del (retries : nat) (name : bytes) (tid : tidref) : P (Z * tidref) :=
  match retries with
  | O => mfault OutOfFuel
  | S retries' =>
      '(r, tid) ← delete_entry name tid;
      if r =? CYRUSDB_OK then mret (0, tid)
      else if r =? CYRUSDB_AGAIN then deleteremote_del retries' name tid
      else mret (IMAP_IOERROR, tid)
  end.
(** Lookups that are repeated while the database asks for it. *)
Fixpoint lookup_again (retries : nat) (name : bytes) (w : wants) (tid : tidref) : P (Z * found * tidref) :=
  match retries with
  | O => mfault OutOfFuel
  | S retries' =>
      '(r, f, tid) ← mboxlist_mylookup name w tid;
      if r =? IMAP_AGAIN then lookup_again retries' name w tid else mret (r, f, tid)
  end.

(** [in_tid] is NULL, or the caller's transaction. *)
Definition mboxlist_deleteremote (retries : nat) (name : bytes) (in_tid : tidref) : P (Z * tidref) :=
  let own := match in_tid with None => true | Some _ => false end in
  let tid := match in_tid with None => Some None | _ => in_tid end in
  let done (r : Z) (tid : tidref) : P (Z * tidref) :=
    (if negb (r =? 0) && own then abort_tid tid else mret tt);; mret (r, tid) in
  '(r, f, tid) ← lookup_again retries name (Wants false false false) tid;
  if negb (r =? 0) then done r tid else
  part ← get partition_buf;
  if has (f_type f) MBTYPE_REMOTE && match chr_pos part BANG with None => true | Some _ => false end then done 0 tid else
  '(r, tid) ← deleteremote_del retries name tid;
  if own then
    c ← commit_tid tid;
    (* tid = NULL: after an error the transaction is aborted through it *)
    if c =? 0 then mret (0, None) else mfault OutOfBounds
  else done r tid.

(** ** Deleting *)

(** The end: an open transaction is aborted, or committed by force. *)
Definition finish_delete (name : bytes) (force : bool) (r : Z) (tid : tidref) : P Z :=
  match tid with
  | Some (Some t) =>
      if negb (r =? 0) && negb force then _ ← db (db_abort t); mret r
      else if force then _ ← db (db_commit t); out_ (annotatemore_delete name);; mret r
      else mret r
  | _ => mret r
  end.

(** Can't DELETE INBOX (your own inbox); only admins may delete user. *)
Definition delete_forbidden (name : bytes) (isadmin : bool) (userid : option bytes) : option Z :=
  match mboxname_isusermailbox name true with
  | None => None
  | Some p =>
      if match userid with
         | Some u =>
             let u := match (if config_virtdomains then chr_pos u AT else None) with Some i => prec i u | None => u end in
             bool_decide (u = p)
         | None => false
         end
      then Some IMAP_MAILBOX_NOTSUPPORTED
      else if negb isadmin then Some IMAP_PERMISSION_DENIED else None
  end.

(** From the entry's removal on; [None]: retry. *)
Definition delete_files (name : bytes) (local_only force isremote : bool) (mb : option mailbox) (tid : tidref) : P (option Z) :=
  '(r, tid) ← delete_entry name tid;
  if r =? CYRUSDB_AGAIN then mret None else
  let r := if r =? 0 then 0 else IMAP_IOERROR in
  if negb (r =? 0) && negb force then r ← finish_delete name force r tid; mret (Some r) else
  (* commit local db operations *)
  c ← commit_tid tid;
  let r := if c =? 0 then 0 else IMAP_IOERROR in
  (* remove from mupdate *)
  '(r, over) ← (if ((r =? 0) || force) && negb isremote && negb local_only && config_mupdate_server then
                  '(r, h) ← connect;
                  if negb (r =? 0) then mret (r, true) else
                  r ← out (mupdate_delete (Some h) name); disconnect (Some h);; mret (r, false)
                else mret (r, false));
  if over || (negb (r =? 0) && negb force) || isremote then mret (Some r) else
  match mb with
  | Some mb => r ← out (mailbox_delete mb); mret (Some r)
  | None => mfault OutOfBounds
  end.

Fixpoint mboxlist_deletemailbox (retries : nat) (name : bytes) (isadmin : bool) (userid : option bytes)
    (checkacl local_only force : bool) (tid : tidref) : P Z :=
  match retries with
  | O => mfault OutOfFuel
  | S retries' =>
      let retry := mboxlist_deletemailbox retries' name isadmin userid checkacl local_only force in
      let done := finish_delete name force in
      if negb isadmin && force then mret IMAP_PERMISSION_DENIED else
      match delete_forbidden name isadmin userid with
      | Some r => done r tid
      | None =>
          '(r, f, tid) ← mboxlist_mylookup name all_wanted tid;
          if r =? IMAP_AGAIN then retry tid else
          if negb (r =? 0) then done r tid else
          let isremote := has (f_type f) MBTYPE_REMOTE in
          (* are we reserved? *)
          if negb isremote && has (f_type f) MBTYPE_RESERVE && negb force then done IMAP_MAILBOX_RESERVED tid else
          (* check if user has Delete right *)
          acl ← read_acl f;
          access ← (if checkacl then liftr (myrights acl) else mret ACL_DELETEMBOX);
          if negb (has access ACL_DELETEMBOX) then
            own ← liftr (owns userid name);
            let isadmin := if own && has config_implicitrights ACL_ADMIN then true else isadmin in
            (* Lie about error if privacy demands *)
            done (if isadmin || has access ACL_LOOKUP then IMAP_PERMISSION_DENIED else IMAP_MAILBOX_NONEXISTENT) tid
          else
            (* Lock the mailbox if it isn't a remote mailbox *)
            path ← read_path f; mpath ← read_mpath f;
            '(r, mb) ← (if isremote then mret (0, None) else
                          '(r, mb) ← out (λ w, let '(r, mb, w) := mailbox_open_locked name path mpath acl w in ((r, mb), w));
                          mret (r, Some mb));
            if negb (r =? 0) && negb force then done r tid else
            res ← delete_files name local_only force isremote mb tid;
            match res with None => retry tid | Some r => mret r end
      end
  end.

(** ** Renaming *)

(** The variables that survive a retry. *)
Record rename_vars := Vars {
  newreserved : bool; madenew : bool; handle : option mupdate_handle;
  oldmailbox : option mailbox; newmailbox : option mailbox }.
Definition no_vars : rename_vars := Vars false false None None None.

(** The userid without its domain. *)
Definition user_part (u : bytes) : bytes :=
  match (if config_virtdomains then chr_pos u AT else None) with Some i => prec i u | None => u end.
Definition is_user_inbox (name : bytes) : bool := match mboxname_isusermailbox name true with Some _ => true | None => false end.

(** 2. verify acls: the code, [isusermbox] and [partitionmove]. *)
Definition rename_rights (oldname newname : bytes) (partition : option bytes) (isadmin : bool) (userid : option bytes)
    (mbtype : Z) (oldpath acl : bytes) : result (Z * bool * bool) :=
  let ordinary :=
    access ← myrights acl;
    Ok (if negb (has access ACL_DELETEMBOX) && negb isadmin then
          if isadmin || has access ACL_LOOKUP then IMAP_PERMISSION_DENIED else IMAP_MAILBOX_NONEXISTENT
        else 0, false, false) in
  if bool_decide (oldname = newname) && negb (has mbtype MBTYPE_REMOTE) then
    (* Attempt to move mailbox across partition *)
    Ok (if negb isadmin then IMAP_PERMISSION_DENIED else
        match partition with
        | None => IMAP_PARTITION_UNKNOWN
        | Some p =>
            match config_partitiondir p with
            | None => IMAP_PARTITION_UNKNOWN
            | Some root => if starts_with oldpath (root ++ [SLASH]) then IMAP_MAILBOX_EXISTS else 0
            end
        end, false, true)
  else match mboxname_isusermailbox oldname true with
  | None => ordinary
  | Some p =>
      match userid with
      | None => Fault OutOfBounds
      | Some u =>
          if starts_with p (user_part u) then (* Special case of renaming inbox *)
            access ← myrights acl;
            Ok (if negb (has access ACL_DELETEMBOX) then IMAP_PERMISSION_DENIED else 0, true, false)
          else if allowusermoves && is_user_inbox newname then ordinary (* Special case of renaming a user *)
          else Ok (IMAP_MAILBOX_NOTSUPPORTED, false, false) (* Only admins can rename users (INBOX to INBOX) *)
      end
  end.

(** Check ability to create new mailbox. *)
Definition rename_target (oldname newname : bytes) (isadmin : bool) : Z :=
  if is_user_inbox newname then
    if allowusermoves && is_user_inbox oldname then if negb isadmin then IMAP_MAILBOX_NOTSUPPORTED else 0
    else IMAP_MAILBOX_NOTSUPPORTED
  else 0.

(** [done]: commit or cleanup. *)
Definition finish_rename (oldname newname : bytes) (isusermbox partitionmove : bool) (r : Z) (newpartition newacl : bytes)
    (tid : tidref) (v : rename_vars) : P Z :=
  '(r, h) ← (if negb (r =? 0) then h ← undo_create newname tid (newreserved v) (madenew v) (handle v); mret (r, h)
             else c ← commit_tid tid; mret (if c =? 0 then 0 else IMAP_IOERROR, handle v));
  '(r, h) ← (if (r =? 0) && config_mupdate_server then
               mupdate_retry (λ h, mupdate_activate h newname (mupdate_location newpartition) newacl) h
             else mret (r, h));
  '(r, h) ← (if (r =? 0) && negb partitionmove && negb isusermbox && config_mupdate_server then
               mupdate_retry (λ h, mupdate_delete h oldname) h
             else mret (r, h));
  (match newmailbox v with Some mb => out_ (mailbox_close mb) | None => mret tt end);;
  (if config_mupdate_server then disconnect h else mret tt);;
  (match oldmailbox v with
   | Some mb => (if r =? 0 then out_ (mailbox_rename_cleanup mb isusermbox) else mret tt);; out_ (mailbox_close mb)
   | None => mret tt
   end);;
  mret r.

(** 4 and 5, up to the copy: the code and the variables; whether the rename is over. *)
Definition rename_files (oldname newname : bytes) (partitionmove : bool) (f : found) (newpartition : bytes)
    (v : rename_vars) : P (Z * bool * rename_vars) :=
  (* 4. Open mupdate connection and reserve new name (if needed) *)
  '(r, v) ← (if config_mupdate_server then
               '(r, h) ← connect;
               let v := Vars (newreserved v) (madenew v) (Some h) (oldmailbox v) (newmailbox v) in
               if negb (r =? 0) || partitionmove then mret (r, v) else
               r ← out (mupdate_reserve h newname (mupdate_location newpartition));
               mret (r, Vars (newreserved v) ((r =? 0) || madenew v) (Some h) (oldmailbox v) (newmailbox v))
             else mret (0, v));
  if negb (r =? 0) then mret (r, true, v) else
  (* 5. Lock oldname/oldpath *)
  path ← read_path f; mpath ← read_mpath f; oldacl ← read_acl f;
  '(r, mb) ← out (λ w, let '(r, mb, w) := mailbox_open_locked oldname path mpath oldacl w in ((r, mb), w));
  let v := Vars (newreserved v) (madenew v) (handle v) (Some mb) (newmailbox v) in
  (* 6. Copy mailbox *)
  if (r =? 0) && negb (has (f_type f) MBTYPE_REMOTE) then
    '(r, new) ← out (λ w, let '(r, new, w) := mailbox_rename_copy mb newname newpartition w in ((r, new), w));
    if negb (r =? 0) then mret (r, true, v)
    else mret (0, false, Vars (newreserved v) (madenew v) (handle v) (Some mb) (Some new))
  else mret (r, false, v).

(** 4. and 7.: the entries; [None] for retry. *)
Definition rename_entries (oldname newname : bytes) (isusermbox : bool) (mbtype : Z) (newpartition newacl : bytes)
    (tid : tidref) (v : rename_vars) : P (option Z * tidref) :=
  '(r, tid) ← (if isusermbox then mret (0, tid) else delete_entry oldname tid);
  if r =? CYRUSDB_AGAIN then mret (None, tid) else
  if negb (r =? 0) then
    (match newmailbox v with Some mb => out_ (mailbox_close mb) | None => mfault OutOfBounds end);; mret (Some IMAP_IOERROR, tid)
  else
    '(r, tid) ← store_entry newname mbtype newpartition newacl tid;
    if r =? CYRUSDB_AGAIN then mret (None, tid) else mret (Some (if r =? 0 then 0 else IMAP_IOERROR), tid).

Fixpoint mboxlist_rename (retries : nat) (oldname newname : bytes) (partition : option bytes) (isadmin : bool)
    (userid : option bytes) (forceuser : bool) (tid : tidref) (v : rename_vars) : P Z :=
  match retries with
  | O => mfault OutOfFuel
  | S retries' =>
      let retry := mboxlist_rename retries' oldname newname partition isadmin userid forceuser in
      (* 1. get path & acl from mboxlist *)
      '(r, f, tid) ← mboxlist_mylookup oldname all_wanted tid;
      if r =? IMAP_AGAIN then retry tid v else
      let fail r newpartition newacl tid v := finish_rename oldname newname false false r newpartition newacl tid v in
      if negb (r =? 0) then fail r [] [] tid v else
      let mbtype := f_type f in
      if has mbtype MBTYPE_RESERVE then fail IMAP_MAILBOX_RESERVED [] [] tid v else
      newacl ← read_acl f; oldpath ← read_path f;
      '(r, isusermbox, partitionmove) ← liftr (rename_rights oldname newname partition isadmin userid mbtype oldpath newacl);
      if negb (r =? 0) then fail r [] newacl tid v else
      (* We don't support renaming mailboxes in transit *)
      if has mbtype MBTYPE_MOVING then fail IMAP_MAILBOX_NOTSUPPORTED [] newacl tid v else
      let r := if (partitionmove : bool) then 0 else rename_target oldname newname isadmin in
      if negb (r =? 0) then fail r [] newacl tid v else
      '(r, x, tid) ← (if partitionmove then mret (0, Some ([], default [] partition), tid)
                      else mboxlist_mycreatemailboxcheck newname partition isadmin userid false forceuser tid);
      if r =? IMAP_AGAIN then retry tid v else
      if negb (r =? 0) then fail r [] newacl tid v else
      let newpartition := match x with Some (_, p) => p | None => [] end in
      (* 3a. mark as reserved in the local DB *)
      '(r, tid) ← (if partitionmove then mret (0, tid)
                   else store_entry newname (Z.lor mbtype MBTYPE_RESERVE) newpartition newacl tid);
      if negb (r =? 0) then fail r newpartition newacl tid v else
      (* 3b. unlock mboxlist (before calling out to mupdate) *)
      _ ← commit_tid tid;
      let v := Vars (negb partitionmove || newreserved v) (madenew v) (handle v) (oldmailbox v) (newmailbox v) in
      '(r, over, v) ← rename_files oldname newname partitionmove f newpartition v;
      if (over : bool) then finish_rename oldname newname isusermbox partitionmove r newpartition newacl (Some None) v else
      (* the code of opening the mailbox is forgotten *)
      '(r, tid) ← rename_entries oldname newname isusermbox mbtype newpartition newacl (Some None) v;
      match r with
      | None => retry tid v
      | Some r => finish_rename oldname newname isusermbox partitionmove r newpartition newacl tid v
      end
  end.
Definition mboxlist_renamemailbox (retries : nat) (oldname newname : bytes) (partition : option bytes) (isadmin : bool)
    (userid : option bytes) (forceuser : bool) : P Z :=
  mboxlist_rename retries oldname newname partition isadmin userid forceuser (Some None) no_vars.

(** ** Access control lists *)

(** The identifier, fully qualified. *)
Definition IDENT_SIZE : Z := 256.
Definition canon_ident (name identifier : bytes) (rights : option bytes) (isadmin : bool) : Z + bytes :=
  if negb config_virtdomains then inr identifier else
  let domain := chr_pos name BANG in
  match chr_pos identifier AT with
  | Some cp =>
      let d := from (cp + 1) identifier in
      let cross := match domain with
                   | Some _ => negb (starts_case name d)
                   | None => match config_defdomain with None => true | Some dd => negb (strcaseeq dd d) end
                   end in
      if match rights with Some _ => cross | None => false end then inl IMAP_INVALID_IDENTIFIER (* can't set cross-domain ACLs *)
      else if match config_defdomain with Some dd => strcaseeq dd d | None => false end
              || bool_decide (identifier = anonymous) || bool_decide (identifier = anyone)
      then inr (snprint IDENT_SIZE (prec cp identifier)) else inr (snprint IDENT_SIZE identifier)
  | None =>
      let ident := snprint IDENT_SIZE identifier in
      match domain with
      | Some n => if negb isadmin && bool_decide (ident ≠ anonymous) && bool_decide (ident ≠ anyone)
                  then inr (snprint IDENT_SIZE (ident ++ [AT] ++ prec n name)) else inr ident
      | None => inr ident
      end
  end.

(** [isusermbox] *)
Definition users_mailbox (name userid : bytes) : bool :=
  let useridlen := match (if config_virtdomains then chr_pos userid AT else None) with Some i => i | None => blen userid end in
  let mbox := match (if config_virtdomains then chr_pos name BANG else None) with Some i => from (i + 1) name | None => name end in
  let next := default 0 (head (from (5 + useridlen) mbox)) in
  starts_with mbox user_dot
  && match chr_pos userid DOT with None => true | Some cp => useridlen <? cp end
  && starts_with (from 5 mbox) (prec useridlen userid) && ((next =? 0) || (next =? DOT)).

Definition mboxlist_ensureOwnerRights (owner identifier : bytes) (access : Z) : Z :=
  if bool_decide (identifier = owner) then Z.lor access config_implicitrights else access.

(** How the rights are given. *)
Definition rights_mode (rights : bytes) : acl_mode * bytes :=
  match rights with
  | 43 :: rights => (ACL_MODE_ADD, rights)
  | 45 :: rights => (ACL_MODE_REMOVE, rights)
  | _ => (ACL_MODE_SET, rights)
  end.

(** Make change to ACL. *)
Definition changed_acl (acl identifier : bytes) (rights : option bytes) (owner : option bytes) : result (Z * bytes) :=
  let canonproc := mboxlist_ensureOwnerRights <$> owner in
  '(r, block) ←
    match rights with
    | Some rights =>
        let '(mode, rights) := rights_mode rights in
        cyrus_acl_set deleteright (acl ++ [0]) identifier mode (cyrus_acl_strtomask deleteright rights) canonproc
    | None => cyrus_acl_remove deleteright (acl ++ [0]) identifier canonproc
    end;
  newacl ← cstr block;
  Ok (if r =? 0 then 0 else IMAP_INVALID_IDENTIFIER, newacl).

(** [done] *)
Definition finish_setacl (r : Z) (tid : tidref) (mb : option mailbox) : P Z :=
  (if negb (r =? 0) then abort_tid tid else mret tt);;
  (match mb with Some mb => out_ (mailbox_close mb) | None => mret tt end);;
  mret r.

(** 1. Start Transaction: lookup the mailbox, and if it is not a remote one lock it and
    look it up again.  The code, what was found, the transaction and the mailbox. *)
Definition setacl_start (retries : nat) (name : bytes) (mpath : bool) : P (Z * found * tidref * option mailbox) :=
  '(r, f, tid) ← lookup_again retries name all_wanted (Some None);
  (* Can't do this to an in-transit or reserved mailbox *)
  let r := if (r =? 0) && has (f_type f) (Z.lor MBTYPE_MOVING MBTYPE_RESERVE) then IMAP_MAILBOX_NOTSUPPORTED else r in
  if (r =? 0) && negb (has (f_type f) MBTYPE_REMOTE) then
    (match tid with Some (Some t) => _ ← db (db_abort t); mret tt | _ => mfault OutOfBounds end);;
    (* open & lock mailbox header *)
    path ← read_path f; mp ← read_mpath f; acl ← read_acl f;
    '(r, mb) ← out (λ w, let '(r, mb, w) := mailbox_open_header_path name path mp acl w in ((r, mb), w));
    if negb (r =? 0) then mret (r, f, Some None, None) else
    r ← out (mailbox_lock_header mb);
    if negb (r =? 0) then mret (r, f, Some None, Some mb) else
    '(r, f, tid) ← lookup_again retries name (Wants true mpath true) (Some None);
    mret (r, f, tid, Some mb)
  else mret (r, f, tid, None).

(** 3. Set DB Entry to 6. Change mupdate entry: the code and the transaction. *)
Fixpoint store_again (retries : nat) (name : bytes) (mbtype : Z) (part acl : bytes) (tid : tidref) : P (Z * tidref) :=
  match retries with
  | O => mfault OutOfFuel
  | S retries' =>
      '(r, tid) ← store_entry name mbtype part acl tid;
      if r =? CYRUSDB_AGAIN then store_again retries' name mbtype part acl tid else mret (r, tid)
  end.
Definition setacl_store (retries : nat) (name : bytes) (mbtype : Z) (newacl : bytes) (tid : tidref) (mb : option mailbox) :
    P (Z * tidref) :=
  partition ← get partition_buf;
  '(r, tid) ← store_again retries name mbtype partition newacl tid;
  if negb (r =? 0) then mret (IMAP_IOERROR, tid) else
  (* 4. Change backup copy (cyrus.header) *)
  r ← (if has mbtype MBTYPE_REMOTE then mret 0 else
       match mb with Some mb => out (mailbox_write_header mb newacl) | None => mfault OutOfBounds end);
  if negb (r =? 0) then mret (r, tid) else
  (* 5. Commit transaction *)
  c ← commit_tid tid;
  if negb (c =? 0) then mret (IMAP_IOERROR, Some None) else
  (* 6. Change mupdate entry *)
  if config_mupdate_server then
    '(r, h) ← connect;
    r ← (if negb (r =? 0) then mret r else out (mupdate_activate (Some h) name (mupdate_location partition) newacl));
    disconnect (Some h);; mret (r, Some None)
  else mret (0, Some None).

Definition mboxlist_setacl (retries : nat) (name identifier : bytes) (rights : option bytes) (isadmin : bool) (userid : bytes) : P Z :=
  match canon_ident name identifier rights isadmin with
  | inl r => mret r
  | inr identifier =>
      '(r, f, tid, mb) ← setacl_start retries name false;
      if negb (r =? 0) then finish_setacl r tid mb else
      (* 2. Check Rights *)
      acl ← read_acl f;
      access ← (if isadmin then mret ACL_ADMIN else liftr (myrights acl));
      if negb (has access ACL_ADMIN) then
        finish_setacl (if has access ACL_LOOKUP then IMAP_PERMISSION_DENIED else IMAP_MAILBOX_NONEXISTENT) tid mb
      (* 2.1 Only admin user can set 'anyone' rights if config says so *)
      else if negb isadmin && negb anyoneuseracl && starts_with identifier anyone then finish_setacl IMAP_PERMISSION_DENIED tid mb
      else
        '(r, newacl) ← liftr (changed_acl acl identifier rights (if users_mailbox name userid then Some userid else None));
        if negb (r =? 0) then finish_setacl r tid mb else
        '(r, tid) ← setacl_store retries name (f_type f) newacl tid mb;
        finish_setacl r tid mb
  end.

Definition mboxlist_sync_setacls (retries : nat) (name newacl : bytes) : P Z :=
  '(r, f, tid, mb) ← setacl_start retries name true;
  if negb (r =? 0) then finish_setacl r tid mb else
  '(r, tid) ← setacl_store retries name (f_type f) newacl tid mb;
  finish_setacl r tid mb.
End User.
End Mboxlist.
