(* ===== verification/MboxlistSpec.v ===== *)
(** * MboxlistSpec: the list of mailboxes as a map

    Entries are read back as they were written; the database, seen through them,
    is a map from names to entries; and a lookup is a lookup in it.  What a
    database must do for its callers is the class [ListDb]. *)
From S2P Require Import Prelude CMem.
From stdpp Require Import gmap list.
From S2P Require Import CString Prog DbFile CyrusDb DbOrder BSearchProof Auth Acl AclSpec Mboxname MboxNames Mboxlist.
#[local] Open Scope Z_scope.

(** ** Numbers *)

Definition number (ds : bytes) : Z := fold_left (λ n c, 10 * n + (c - 48)) ds 0.
Definition digit (c : Z) : Prop := 48 ≤ c ≤ 57.

Lemma isdigit_ok c : isdigit c = true ↔ digit c.
Proof. unfold isdigit, digit. rewrite andb_true_iff, !Z.leb_le. done. Qed.

Lemma number_snoc ds c : number (ds ++ [c]) = 10 * number ds + (c - 48).
Proof. unfold number. by rewrite fold_left_app. Qed.

Lemma number_from ds v : fold_left (λ n c, 10 * n + (c - 48)) ds v = v * 10 ^ Z.of_nat (length ds) + number ds.
Proof.
  unfold number. revert v. induction ds as [|c ds IH]; intros v; cbn [fold_left length].
  { change (Z.of_nat 0) with 0. lia. }
  rewrite IH, (IH (10 * 0 + (c - 48))), Nat2Z.inj_succ, Z.pow_succ_r by lia. ring.
Qed.

Lemma decimal_ok fuel n a : 0 ≤ n < 10 ^ Z.of_nat fuel → (0 < fuel)%nat →
  ∃ ds, decimal fuel n a = ds ++ a ∧ Forall digit ds ∧ ds ≠ [] ∧ number ds = n.
Proof.
  revert n a. induction fuel as [|fuel IH]; intros n a Hn Hf; [lia|]. cbn [decimal].
  rewrite Nat2Z.inj_succ, Z.pow_succ_r in Hn by lia. pose proof (Z.mod_pos_bound n 10 ltac:(lia)).
  assert (digit (48 + n mod 10)) as Hd by (unfold digit; lia).
  destruct (Z.eqb_spec (n / 10) 0) as [H0|Hne].
  - exists [48 + n mod 10]. split_and!; [done|by constructor|done|]. unfold number. cbn. pose proof (Z.div_mod n 10). lia.
  - assert (0 < fuel)%nat.
    { destruct fuel; [|lia]. change (Z.of_nat 0) with 0 in Hn. rewrite Z.pow_0_r in Hn. rewrite Z.div_small in Hne by lia. done. }
    destruct (IH (n / 10) (48 + n mod 10 :: a)) as (ds & E & Hds & Hne' & Hnum); [|done|].
    { split; [apply Z.div_pos; lia|]. apply Z.div_lt_upper_bound; lia. }
    exists (ds ++ [48 + n mod 10]). split_and!.
    + rewrite E, <- app_assoc. done.
    + apply Forall_app. split; [done|by constructor].
    + by destruct ds.
    + rewrite number_snoc, Hnum. pose proof (Z.div_mod n 10). lia.
Qed.

Lemma strtol_digits_ok fuel pre ds c r n : Forall digit ds → ¬ digit c → (length ds < fuel)%nat →
  strtol_digits fuel (pre ++ ds ++ c :: r) (blen pre) n =
    Ok (fold_left (λ n c, 10 * n + (c - 48)) ds n, blen pre + blen ds).
Proof.
  intros Hds Hc. revert fuel pre n. induction Hds as [|d ds Hd _ IH]; intros fuel pre n Hf;
    (destruct fuel as [|fuel]; [cbn in Hf; lia|]); cbn [strtol_digits app]; rewrite rd8_end; cbn [mbind result_bind].
  - destruct (isdigit c) eqn:E; [by apply isdigit_ok in E|]. rewrite blen_nil, Z.add_0_r. done.
  - apply isdigit_ok in Hd as ->. replace (pre ++ d :: ds ++ c :: r) with ((pre ++ [d]) ++ ds ++ c :: r) by by rewrite <- app_assoc.
    replace (blen pre + 1) with (blen (pre ++ [d])) by (rewrite blen_app; done). rewrite IH by (cbn in Hf; lia).
    cbn [fold_left]. rewrite blen_app, !blen_cons, blen_nil. do 2 f_equal. lia.
Qed.

Lemma print_int_ok n : is_s32 n →
  ∃ ds, Forall digit ds ∧ ds ≠ [] ∧ print_int n = (if n <? 0 then [45] else []) ++ ds ∧ number ds = Z.abs n.
Proof.
  intros Hn. unfold is_s32 in Hn. unfold print_int.
  destruct (Z.ltb_spec n 0); (edestruct (decimal_ok 10) as (ds & E & ? & ? & ?); [|lia|]; [|rewrite E; exists ds]).
  all: try (change (10 ^ Z.of_nat 10) with 10000000000; lia).
  all: rewrite app_nil_r; split_and!; [done|done|done|lia].
Qed.

Lemma strtol_ok n r : is_s32 n → strtol (print_int n ++ 32 :: r) = Ok (n, blen (print_int n)).
Proof.
  intros Hn. destruct (print_int_ok n Hn) as (ds & Hds & Hne & -> & Hnum).
  assert (¬ digit 32) as H32 by (unfold digit; lia). unfold strtol.
  destruct ds as [|d ds]; [done|]. pose proof (proj1 (Forall_cons_1 _ _ _ Hds)) as Hd.
  unfold is_s32 in Hn. pose proof (blen_nonneg ds).
  assert (isspace d = false ∧ (d =? 45) = false ∧ (d =? 43) = false) as (Hs & Hm & Hp).
  { unfold digit in Hd. unfold isspace. repeat split; repeat (rewrite ?orb_false_iff, ?andb_false_iff); lia. }
  set (m := ((if n <? 0 then [45] else []) ++ d :: ds) ++ 32 :: r).
  assert (rd8 m 0 = Ok (if n <? 0 then 45 else d)) as H0 by (subst m; by destruct (n <? 0)).
  pose proof (strtol_digits_ok (S (length m)) (if n <? 0 then [45] else []) (d :: ds) 32 r 0 Hds H32) as E.
  rewrite app_assoc in E. fold m in E. unfold number in Hnum.
  assert (blen (if n <? 0 then [45] else []) = if n <? 0 then 1 else 0) as Hb by by destruct (n <? 0).
  rewrite Hb, Hnum in E. specialize (E ltac:(unfold m; rewrite !length_app; lia)).
  cbn [strtol_space]. rewrite H0. cbn [mbind result_bind]. rewrite blen_app, Hb.
  assert (isspace (if n <? 0 then 45 else d) = false) as -> by by destruct (n <? 0).
  cbn [mbind result_bind]. rewrite H0. cbn [mbind result_bind]. rewrite blen_cons in *.
  destruct (Z.ltb_spec n 0); [change (45 =? 45) with true; change (0 + 1) with 1|rewrite Hm, Hp]; cbn [orb]; rewrite E; cbn [mbind result_bind].
  - destruct (Z.eqb_spec (1 + (1 + blen ds)) 1); [lia|]. rewrite to_s32_small by (unfold is_s32; lia). do 2 f_equal. lia.
  - destruct (Z.eqb_spec (0 + (1 + blen ds)) 0); [lia|]. rewrite to_s32_small by (unfold is_s32; lia). do 2 f_equal. lia.
Qed.

(** ** Entries *)

Lemma copy_partition_ok room pre part r : Forall (λ c, c ≠ 32) part → (length part < room)%nat →
  copy_partition room (pre ++ part ++ 32 :: r) (blen pre) = Ok (part, blen pre + blen part).
Proof.
  intros Hp. revert room pre. induction Hp as [|c part Hc _ IH]; intros room pre Hl;
    (destruct room as [|room]; [cbn in Hl; lia|]); cbn [copy_partition app]; rewrite rd8_end; cbn [mbind result_bind].
  - by rewrite Z.eqb_refl, blen_nil, Z.add_0_r.
  - destruct (Z.eqb_spec c 32); [done|]. replace (pre ++ c :: part ++ 32 :: r) with ((pre ++ [c]) ++ part ++ 32 :: r) by by rewrite <- app_assoc.
    replace (blen pre + 1) with (blen (pre ++ [c])) by (rewrite blen_app; done). rewrite IH by (cbn in Hl; lia). cbn [mbind result_bind].
    rewrite blen_app, !blen_cons, blen_nil. do 2 f_equal. lia.
Qed.

Definition part_ok (part : bytes) : Prop :=
  is_cstring part ∧ Forall (λ c, c ≠ 32) part ∧ blen part ≤ MAX_PARTITION_LEN + HOSTNAME_SIZE + 1.

Lemma parse_makeentry mbtype part acl : is_s32 mbtype → part_ok part → is_cstring acl →
  parse_entry (mboxlist_makeentry mbtype part acl) = Ok (mbtype, part, acl).
Proof.
  intros Ht (Hp & Hsp & Hl) Ha. unfold parse_entry, mboxlist_makeentry. cbn [app].
  rewrite strtol_ok by done. cbn [mbind result_bind]. rewrite rd8_end. cbn [mbind result_bind]. rewrite Z.eqb_refl. cbv iota.
  set (a := print_int mbtype).
  replace (a ++ 32 :: part ++ 32 :: acl) with ((a ++ [32]) ++ part ++ 32 :: acl) by by rewrite <- app_assoc.
  replace (blen a + 1) with (blen (a ++ [32])) by (rewrite blen_app; done).
  rewrite copy_partition_ok; [|done|unfold PARTITION_SIZE, blen in *; lia]. cbn [mbind result_bind].
  rewrite (cstr_terminated part []) by done. cbn [mbind result_bind].
  replace ((a ++ [32]) ++ part ++ 32 :: acl) with (((a ++ [32]) ++ part) ++ 32 :: acl) by by rewrite <- !app_assoc.
  rewrite <- blen_app, from_blen_1, (cstr_terminated acl []) by done. done.
Qed.

(** A mailbox: its type, its partition (or where a remote one is), and who has
    which rights. *)
Record mbent := Ent { e_type : Z; e_part : bytes; e_acl : table }.
Definition ent_acl (e : mbent) : bytes := encode (e_acl e).
Definition ent_data (e : mbent) : bytes := mboxlist_makeentry (e_type e) (e_part e) (ent_acl e).

(** Lists and partitions that can stand on a line, of a reasonable size. *)
Definition ACL_SIZE : Z := 8388608.
Definition acl_ok (acl : table) : Prop := table_ok acl ∧ Forall (λ c, c ≠ 10) (encode acl) ∧ blen (encode acl) ≤ ACL_SIZE.
Definition place_ok (part : bytes) : Prop := part_ok part ∧ Forall (λ c, c ≠ 10) part.
Definition ent_ok (e : mbent) : Prop := is_s32 (e_type e) ∧ place_ok (e_part e) ∧ acl_ok (e_acl e).
#[export] Instance is_s32_dec z : Decision (is_s32 z).
Proof. unfold is_s32. apply _. Defined.
#[export] Instance is_cstring_dec s : Decision (is_cstring s).
Proof. unfold is_cstring. apply _. Defined.
#[export] Instance acl_ok_dec acl : Decision (acl_ok acl).
Proof. unfold acl_ok. apply _. Defined.
#[export] Instance ent_ok_dec e : Decision (ent_ok e).
Proof. unfold ent_ok, place_ok, part_ok. apply _. Defined.

Lemma acl_cstring acl : acl_ok acl → is_cstring (encode acl).
Proof. intros [[H _] _]. by apply encode_cstring. Qed.

Lemma parse_ent e : ent_ok e → parse_entry (ent_data e) = Ok (e_type e, e_part e, ent_acl e).
Proof. intros (Ht & [Hp _] & Ha). apply parse_makeentry; [done|done|by apply acl_cstring]. Qed.

(** ** What the list needs of its database *)

Definition list_key (k : bytes) : Prop := Forall mbox_char k ∧ k ≠ [] ∧ blen k ≤ 1024.
Definition list_data (d : bytes) : Prop := Forall data_char d ∧ blen d < 16777216.
Definition LIST_COST : Z := 33554432.

(** Names and lines can be stored, for at most 32 MB; what is there can be deleted;
    a prefix may be any characters of names. *)
Class ListDb {B : Backend} (BO : BackendOk B) := {
  list_fetch k m : list_key k → db_op_ok (OFetch k) m;
  list_store k d m : list_key k → list_data d → db_op_ok (OStore k d) m ∧ db_cost (OStore k d) + db_end_cost ≤ LIST_COST;
  list_delete k m : list_key k → is_Some (m !! k) → db_op_ok (ODelete k false) m ∧ db_cost (ODelete k false) + db_end_cost ≤ LIST_COST;
  list_prefix k : Forall mbox_char k → db_prefix_ok k;
}.

Lemma data_chars s : is_cstring s → Forall (λ c, c ≠ 10) s → Forall data_char s.
Proof. intros H1 H2. apply Forall_and. split; [|done]. eapply Forall_impl; [exact H1|done]. Qed.

Lemma print_int_chars n : is_s32 n → Forall data_char (print_int n).
Proof.
  intros Hn. destruct (print_int_ok n Hn) as (ds & Hds & _ & -> & _). apply Forall_app. split.
  - destruct (n <? 0); [|constructor]. constructor; [|constructor]. unfold data_char. lia.
  - eapply Forall_impl; [exact Hds|]. intros c. unfold digit, data_char. lia.
Qed.

Lemma decimal_len fuel n a : blen (decimal fuel n a) ≤ Z.of_nat fuel + blen a.
Proof.
  revert n a. induction fuel as [|fuel IH]; intros n a; cbn [decimal]; [lia|].
  destruct (_ =? 0); [rewrite blen_cons; lia|]. specialize (IH (n / 10) (48 + n mod 10 :: a)). rewrite blen_cons in IH. lia.
Qed.

Lemma ent_data_ok e : ent_ok e → list_data (ent_data e).
Proof.
  intros (Ht & [(Hp & _ & Hl) Hp10] & Ha). pose proof (acl_cstring _ Ha) as Hc. destruct Ha as (_ & Ha & Hal).
  assert (data_char 32) as H32 by (unfold data_char; lia). split.
  - unfold ent_data, mboxlist_makeentry. rewrite !Forall_app. split_and!; first [by apply print_int_chars|by apply data_chars|by constructor].
  - unfold ent_data, mboxlist_makeentry, print_int, ent_acl. rewrite !blen_app. change (blen [32]) with 1.
    unfold MAX_PARTITION_LEN, HOSTNAME_SIZE, ACL_SIZE in *.
    pose proof (decimal_len 10 (- e_type e) []). pose proof (decimal_len 10 (e_type e) []). rewrite !blen_nil in *.
    destruct (e_type e <? 0); rewrite ?blen_cons; lia.
Qed.

(** ** The list in the database *)

Definition lines_of (L : gmap bytes mbent) : gmap bytes bytes := ent_data <$> L.
Definition list_ok (L : gmap bytes mbent) : Prop := map_Forall (λ k e, list_key k ∧ ent_ok e) L.

Lemma lines_lookup L k : lines_of L !! k = ent_data <$> L !! k.
Proof. apply lookup_fmap. Qed.
Lemma lines_insert L k e : lines_of (<[k := e]> L) = <[k := ent_data e]> (lines_of L).
Proof. apply fmap_insert. Qed.
Lemma lines_delete L k : lines_of (delete k L) = delete k (lines_of L).
Proof. apply fmap_delete. Qed.

Section Programs.
Context `{B : Backend} {BO : BackendOk B} {LD : ListDb BO} `{Si : Site} `{Ou : Outside} `{A : Auth}.
Implicit Types (m : mbstate) (L : gmap bytes mbent) (n : Z).

(** A call of the database, or of what is outside, in the larger state. *)
Lemma wp_db {X} (p : M X) Q m : wp p (λ a s, Q a (set_disk s m)) (disk m) → wp (db p) Q m.
Proof using. intros (a & s & E & H)%wp_ok. eapply wp_intro; [|exact H]. unfold db. by rewrite E. Qed.
Lemma wp_out {X} (f : world → X * world) Q m : Q (f (outer m)).1 (set_outer (f (outer m)).2 m) → wp (out f) Q m.
Proof using. intros H. unfold out. eapply wp_intro; [|exact H]. by destruct (f (outer m)). Qed.
Lemma wp_reads {X} (p : Prog mbstate X) a Q m : p m = Ok (a, m) → Q a m → wp p Q m.
Proof using. intros E H. by eapply wp_intro. Qed.

(** [Holds m L n]: the list is [L], in a file of at most [n] bytes; [Open m L n tid]: the
    same, read in the transaction that [tid] refers to. *)
Definition Holds m L n : Prop := list_ok L ∧ db_holds (disk m) (lines_of L) n.
Definition Open m L n (tid : tidref) : Prop :=
  list_ok L ∧ match tid with Some (Some t) => db_reading (disk m) (lines_of L) n t | _ => db_holds (disk m) (lines_of L) n end.

(** A transaction that is wanted has begun. *)
Definition begun (tid tid' : tidref) : Prop :=
  match tid with None => tid' = None | Some _ => ∃ t, tid' = Some (Some t) end.

Lemma begun_trans t1 t2 t3 : begun t1 t2 → begun t2 t3 → begun t1 t3.
Proof using. destruct t1; cbn; [intros [t ->]|intros ->]; done. Qed.

Lemma Open_begun m L n tid tid' : begun tid tid' → Open m L n tid' ↔
  list_ok L ∧ match tid' with Some (Some t) => db_reading (disk m) (lines_of L) n t | _ => db_holds (disk m) (lines_of L) n end.
Proof using. done. Qed.

Lemma wp_fetch k tid Q m L n :
  Open m L n tid → list_key k → n < DB_LIMIT →
  (∀ s t, Open (set_disk s m) L n (tid_after tid t) → begun tid (tid_after tid t) →
     Q ((match L !! k with Some e => 0 | None => CYRUSDB_NOTFOUND end), ent_data <$> L !! k, t) (set_disk s m)) →
  wp (db (db_fetch k (tid_arg tid))) Q m.
Proof using LD.
  intros [HL Ho] Hk Hn HQ. apply wp_db. pose proof (list_fetch k (lines_of L) Hk) as Hok.
  assert ((spec_call (OFetch k) (lines_of L)).1 =
    ((match L !! k with Some e => 0 | None => CYRUSDB_NOTFOUND end), ent_data <$> L !! k)) as Ha.
  { cbn [spec_call fst]. rewrite lines_lookup. by destruct (L !! k). }
  destruct tid as [[t|]|]; cbn [tid_arg].
  - eapply wp_mono; [by eapply db_read_on|]. intros r s (t' & -> & Ht'). rewrite Ha. apply HQ; [by split|by exists t'].
  - eapply wp_mono; [by eapply db_read_begin|]. intros r s (t' & -> & Ht'). rewrite Ha. apply HQ; [by split|by exists t'].
  - eapply wp_mono; [by eapply db_read_alone|]. intros r s (-> & Ht'). rewrite Ha. apply HQ; [by split|done].
Qed.

(** *** Lookups *)

Definition MOVING_part (e : mbent) : option bytes :=
  if has (e_type e) MBTYPE_MOVING then (λ i, from (i + 1) (e_part e)) <$> chr_pos (e_part e) BANG else Some (e_part e).
(** Where the files of a mailbox are, or an error; where a remote one is. *)
Definition entry_path (name : bytes) (e : mbent) : Z + (bytes * option bytes) :=
  if has (e_type e) MBTYPE_REMOTE then inr (e_part e, None)
  else match MOVING_part e with
  | None => inl IMAP_SYS_ERROR
  | Some p =>
      match config_partitiondir p with
      | None => inl IMAP_PARTITION_UNKNOWN
      | Some root => inr (mailbox_hash_mbox root name, (λ r, mailbox_hash_mbox r name) <$> config_metapartitiondir p)
      end
  end.
Definition path_code (w : wants) (name : bytes) (e : mbent) : Z :=
  if w_path w then match entry_path name e with inl c => c | inr _ => 0 end else 0.

Lemma entry_path_error name e c : entry_path name e = inl c → c ≠ 0.
Proof using.
  unfold entry_path. destruct (has _ _); [done|]. destruct (MOVING_part e); [|by intros [= <-]].
  by destruct (config_partitiondir _); [|intros [= <-]].
Qed.

(** What the pointers show. *)
Definition shows m (f : found) (w : wants) (name : bytes) (e : mbent) : Prop :=
  f_type f = e_type e ∧ partition_buf m = e_part e ∧
  (w_acl w = true → read_acl f m = Ok (ent_acl e, m)) ∧
  ∀ path mpath, w_path w = true → entry_path name e = inr (path, mpath) →
    read_path f m = Ok (path, m) ∧ read_mpath f m = Ok (if w_mpath w then mpath else None, m) ∧
    (has (e_type e) MBTYPE_REMOTE = false → f_path f = PathResult).

(** Every list fits the buffer. *)
Definition lists_fit m L : Prop := ∀ k e, L !! k = Some e → blen (ent_acl e) < acl_size m.

(** A lookup changes the buffers only, and moves none that is large enough. *)
Definition looked m m' L : Prop :=
  outer m' = outer m ∧ (lists_fit m L → acl_gen m' = acl_gen m ∧ acl_size m' = acl_size m).

Lemma looked_refl m L s : looked m (set_disk s m) L.
Proof using. done. Qed.
Lemma looked_trans m1 m2 m3 L : looked m1 m2 L → looked m2 m3 L → looked m1 m3 L.
Proof using.
  intros [H1 H2] [H3 H4]. split; [congruence|]. intros Hf. destruct (H2 Hf) as [E1 E2].
  destruct H4 as [E3 E4]; [|by rewrite E3, E4]. intros k e He. rewrite E2. by eapply Hf.
Qed.

Definition paths_only m m' : Prop := m' = set_paths (pathresult m') (mpathresult m') m.

Lemma wp_find_path e name mp m :
  wp (find_path (e_type e) (e_part e) name mp) (λ '(r, path, b) m', paths_only m m' ∧
    match entry_path name e with
    | inl c => r = c
    | inr (p, mpo) => r = 0 ∧ (partition_buf m = e_part e → ∀ ty g,
        read_path (Found ty path b g) m' = Ok (p, m') ∧ read_mpath (Found ty path b g) m' = Ok (if mp then mpo else None, m') ∧
        (has (e_type e) MBTYPE_REMOTE = false → path = PathResult))
    end) m.
Proof using.
  assert (∀ p, wp ('(r, x) ← mboxlist_getpath p name mp; mret (r, PathResult, x)) (λ '(r, path, b) m', paths_only m m' ∧
    match (match config_partitiondir p with
           | None => inl IMAP_PARTITION_UNKNOWN
           | Some root => inr (mailbox_hash_mbox root name, (λ r, mailbox_hash_mbox r name) <$> config_metapartitiondir p)
           end : Z + (bytes * option bytes)) with
    | inl c => r = c
    | inr (p, mpo) => r = 0 ∧ (partition_buf m = e_part e → ∀ ty g,
        read_path (Found ty path b g) m' = Ok (p, m') ∧ read_mpath (Found ty path b g) m' = Ok (if mp then mpo else None, m') ∧
        (has (e_type e) MBTYPE_REMOTE = false → path = PathResult))
    end) m) as Hp.
  { intros p. unfold mboxlist_getpath. apply wp_bind. destruct (config_partitiondir p) as [root|].
    - destruct mp, (config_metapartitiondir p) as [r|]; repeat wstep; done.
    - do 2 wstep. split; [by destruct m|done]. }
  unfold find_path, entry_path, MOVING_part. destruct (has (e_type e) MBTYPE_REMOTE).
  { wstep. split; [by destruct m|]. split; [done|]. intros <- ty g. split; [done|]. split; [by destruct mp|done]. }
  destruct (has (e_type e) MBTYPE_MOVING); [|apply Hp].
  destruct (chr_pos (e_part e) BANG) as [i|]; [apply Hp|]. wstep. split; [by destruct m|done].
Qed.

Lemma read_path_same f f' m m' p : partition_buf m' = partition_buf m → pathresult m' = pathresult m → f_path f' = f_path f →
  read_path f m = Ok (p, m) → read_path f' m' = Ok (p, m').
Proof using. unfold read_path, get. intros H1 H2 ->. destruct (f_path f); rewrite ?H1, ?H2; by intros [= ->]. Qed.
Lemma read_mpath_same f f' m m' p : mpathresult m' = mpathresult m → f_mpath f' = f_mpath f →
  read_mpath f m = Ok (p, m) → read_mpath f' m' = Ok (p, m').
Proof using.
  unfold read_mpath, get, mbind, Prog_bind. intros H1 ->. destruct (f_mpath f); cbn; rewrite ?H1; by intros [= ->].
Qed.

Lemma read_acl_same f m m' a : acl_gen m' = acl_gen m → acl_buf m' = acl_buf m → read_acl f m = Ok (a, m) → read_acl f m' = Ok (a, m').
Proof using.
  unfold read_acl, get, mbind, Prog_bind. cbn. intros -> Hb. destruct (_ =? _)%nat; [|done]. rewrite Hb. by intros [= ->].
Qed.

(** What a pointer to the list shows later, if the buffer has not moved. *)
Lemma read_acl_later f m m' a : read_acl f m = Ok (a, m) → acl_gen m' = acl_gen m →
  acl_buf m = a ∧ read_acl f m' = Ok (acl_buf m', m').
Proof using.
  unfold read_acl, get, mbind, Prog_bind. cbn. intros H ->. destruct (_ =? _)%nat; [|done]. by injection H as ->.
Qed.

(** [mboxlist_mylookup] is a lookup in the map. *)
Lemma wp_mylookup name w tid m L n :
  Open m L n tid → list_key name → n < DB_LIMIT →
  wp (mboxlist_mylookup name w tid) (λ '(r, f, tid') m', Open m' L n tid' ∧ begun tid tid' ∧ looked m m' L ∧
    match L !! name with
    | None => r = IMAP_MAILBOX_NONEXISTENT
    | Some e => r = path_code w name e ∧ (r = 0 → shows m' f w name e)
    end) m.
Proof using LD.
  intros Ho Hk Hn. unfold mboxlist_mylookup. pose proof Hk as (_ & Hne & _). destruct name as [|c name']; [done|].
  set (name := c :: name') in *. apply wp_bind. eapply wp_fetch; [done..|]. intros s t Ho' Ht.
  destruct (L !! name) as [e|] eqn:He.
  2:{ cbn [Z.eqb CYRUSDB_NOTFOUND CYRUSDB_OK CYRUSDB_AGAIN]. apply wp_ret. done. }
  destruct (proj1 (map_Forall_lookup _ _) (proj1 Ho) _ _ He) as [_ Hok].
  cbn [fmap option_fmap option_map]. change (0 =? CYRUSDB_OK) with true. cbv iota.
  apply wp_bind. eapply wp_liftr; [by apply parse_ent|]. do 1 wstep.
  set (m1 := set_partition (e_part e) (set_disk s m)).
  assert (looked m m1 L) as Hlk by done.
  assert (∀ path b m2, paths_only m1 m2 → (∀ p mpo, w_path w = true → entry_path name e = inr (p, mpo) → ∀ ty g,
      read_path (Found ty path b g) m2 = Ok (p, m2) ∧ read_mpath (Found ty path b g) m2 = Ok (if w_mpath w then mpo else None, m2) ∧
      (has (e_type e) MBTYPE_REMOTE = false → path = PathResult)) →
    wp ((if w_acl w then modify (set_acl (ent_acl e)) else mret tt);; g ← get acl_gen; mret (0, Found (e_type e) path b g, tid_after tid t))
      (λ '(r, f, tid') m', Open m' L n tid' ∧ begun tid tid' ∧ looked m m' L ∧ r = 0 ∧ shows m' f w name e) m2) as Hend.
  { intros path b m2 Hpo Hread. rewrite Hpo in *. apply wp_bind. destruct (w_acl w) eqn:Hw; wstep; repeat wstep.
    - split; [done|]. split; [done|]. split.
      { split; [done|]. intros Hf. pose proof (Hf _ _ He). cbn. destruct (Z.leb_spec (acl_size m) (blen (ent_acl e))); [lia|done]. }
      split; [done|]. split; [done|]. split; [done|]. split.
      { intros _. unfold read_acl, mbind, Prog_bind, get. cbn [f_acl mbind result_bind]. by rewrite Nat.eqb_refl. }
      intros p mpo Hwp Hep. destruct (Hread p mpo Hwp Hep (e_type e) 0%nat) as (H1 & H2 & H3).
      split_and!; [by eapply read_path_same in H1|by eapply read_mpath_same in H2|done].
    - split; [done|]. split; [done|]. split; [done|]. split; [done|]. split; [done|]. split; [done|]. split; [congruence|].
      intros p mpo Hwp Hep. by apply (Hread p mpo Hwp Hep). }
  apply wp_bind. unfold path_code. destruct (w_path w) eqn:Hw.
  - eapply wp_mono; [apply wp_find_path|]. intros [[r path] b] m2 [Hpo Hr]. destruct (entry_path name e) as [c'|[p mpo]] eqn:Hep.
    + subst r. apply entry_path_error in Hep. destruct (Z.eqb_spec c' 0) as [->|Hc]; [done|]. cbn [negb]. wstep. rewrite Hpo. done.
    + destruct Hr as [-> Hr]. cbn [Z.eqb negb]. eapply wp_mono; [apply Hend; [done|]|].
      * intros p' mpo' _ [= <- <-]. by apply Hr.
      * intros [[r f] tid'] m' (H1 & H2 & H3 & -> & H4). done.
  - wstep. cbn [Z.eqb negb]. eapply wp_mono; [apply Hend; [by subst m1; destruct m|done]|].
    intros [[r f] tid'] m' (H1 & H2 & H3 & -> & H4). done.
Qed.

(** Lookups of the list alone leave the paths, and the list last found in its buffer. *)
Definition kept m m' (o : option mbent) : Prop :=
  pathresult m' = pathresult m ∧ mpathresult m' = mpathresult m ∧ acl_buf m' = from_option ent_acl (acl_buf m) o.

Lemma kept_trans m1 m2 m3 o : kept m1 m2 None → kept m2 m3 o → kept m1 m3 o.
Proof using. intros (E1 & E2 & E3) (E4 & E5 & E6). split_and!; [congruence|congruence|]. rewrite E6. destruct o; [done|exact E3]. Qed.

Lemma wp_lookup_acl name tid m L n :
  Open m L n tid → list_key name → n < DB_LIMIT →
  wp (mboxlist_mylookup name acl_wanted tid) (λ '(r, f, tid') m', Open m' L n tid' ∧ begun tid tid' ∧ looked m m' L ∧
    kept m m' (L !! name) ∧
    match L !! name with
    | None => r = IMAP_MAILBOX_NONEXISTENT
    | Some e => r = 0 ∧ shows m' f acl_wanted name e
    end) m.
Proof using LD.
  intros Ho Hk Hn. assert (wp (mboxlist_mylookup name acl_wanted tid) (λ _ m', kept m m' (L !! name)) m) as Hkept.
  { pose proof Hk as (_ & Hne & _). destruct name as [|c name']; [done|]. unfold mboxlist_mylookup.
    set (name := c :: name') in *. apply wp_bind. eapply wp_fetch; [done..|]. intros s t Ho' Ht.
    destruct (L !! name) as [e|] eqn:He; [|by cbn [Z.eqb CYRUSDB_NOTFOUND CYRUSDB_OK CYRUSDB_AGAIN]; apply wp_ret].
    destruct (proj1 (map_Forall_lookup _ _) (proj1 Ho) _ _ He) as [_ Hok].
    cbn [fmap option_fmap option_map]. change (0 =? CYRUSDB_OK) with true. cbv iota.
    apply wp_bind. eapply wp_liftr; [by apply parse_ent|]. wstep. cbn [w_path w_acl acl_wanted]. wstep. cbn [Z.eqb negb]. by repeat wstep. }
  pose proof (wp_and _ _ _ _ (wp_mylookup name acl_wanted tid m L n Ho Hk Hn) Hkept) as H. eapply wp_mono; [exact H|].
  intros [[r f] tid'] m' ((H1 & H2 & H3 & H4) & H5). split_and!; [done..|]. destruct (L !! name) as [e|]; [|done].
  destruct H4 as [-> H4]. split; [done|]. by apply H4.
Qed.

(** *** Changes *)

(** [During m L0 L n t]: the transaction [t] has made [L0] [L]; committed, it takes
    at most [n] bytes. *)
Definition During m L0 L n (t : db_txn) : Prop :=
  list_ok L ∧ ∃ n', n' + db_end_cost ≤ n ∧ db_during (disk m) (lines_of L0) (lines_of L) n' t.

Lemma Holds_mono m L n n' : Holds m L n → n ≤ n' → Holds m L n'.
Proof using. intros [HL H] Hn. split; [done|]. by eapply db_holds_mono. Qed.

Lemma Open_Holds m L n : Open m L n (Some None) ↔ Holds m L n.
Proof using. done. Qed.

(** The calls that write, for any of them. *)
Lemma wp_call_alone {X} (f : Z → option db_txn → X) o (p : M (Z * option db_txn)) Q m L L' n :
  call o NoTid = ('(r, t) ← p; mret (r, None, t)) →
  spec_call o (lines_of L) = ((0, None), Some (lines_of L')) →
  Holds m L n → list_ok L' → db_op_ok o (lines_of L) → db_cost o + db_end_cost ≤ LIST_COST → n + LIST_COST < DB_LIMIT →
  (∀ s, Holds (set_disk s m) L' (n + LIST_COST) → Q (f 0 None) (set_disk s m)) →
  wp ('(r, t) ← db p; mret (f r t)) Q m.
Proof using.
  intros Hc Hs [HL Hh] HL' Hok Hcost Hn HQ. apply wp_bind, wp_db.
  pose proof (db_alone o (disk m) (lines_of L) n Hh Hok ltac:(lia)) as H. rewrite Hc, Hs in H.
  apply wp_ok in H as (a & s & E & -> & H). unfold mbind, Prog_bind in E.
  destruct (p (disk m)) as [[[r t] s1]|] eqn:Ep; [|done]. injection E as -> -> ->. eapply wp_intro; [exact Ep|].
  apply wp_ret, HQ. split; [done|]. eapply db_holds_mono; [exact H|lia].
Qed.

Lemma wp_call_txn {X} (f : Z → option db_txn → X) o (p : M (Z * option db_txn)) Q m L L' n tid :
  call o (tid_arg (Some tid)) = ('(r, t) ← p; mret (r, None, t)) →
  spec_call o (lines_of L) = ((0, None), Some (lines_of L')) →
  Open m L n (Some tid) → list_ok L' → db_op_ok o (lines_of L) → db_cost o + db_end_cost ≤ LIST_COST → n + LIST_COST < DB_LIMIT →
  (∀ s t, During (set_disk s m) L L' (n + LIST_COST) t → Q (f 0 (Some t)) (set_disk s m)) →
  wp ('(r, t) ← db p; mret (f r t)) Q m.
Proof using.
  intros Hc Hs [HL Ho] HL' Hok Hcost Hn HQ. apply wp_bind, wp_db. pose proof db_end_cost_nonneg.
  assert (wp (call o (tid_arg (Some tid))) (λ r s', ∃ t, r = ((0, None), Some t) ∧
    db_during s' (lines_of L) (lines_of L') (n + db_cost o) t) (disk m)) as H'.
  { destruct tid as [t|]; cbn [tid_arg].
    - pose proof (db_go_on o (disk m) (lines_of L) (lines_of L) n t (db_reading_during _ _ _ _ Ho) Hok ltac:(lia)) as H1. by rewrite Hs in H1.
    - pose proof (db_begin o (disk m) (lines_of L) n Ho Hok ltac:(lia)) as H1. by rewrite Hs in H1. }
  rewrite Hc in H'. apply wp_ok in H' as (a & s & E & t & -> & Hd). unfold mbind, Prog_bind in E.
  destruct (p (disk m)) as [[[r t'] s1]|] eqn:Ep; [|done]. injection E as -> -> ->. eapply wp_intro; [exact Ep|].
  apply wp_ret, HQ. split; [done|]. exists (n + db_cost o). split; [lia|done].
Qed.

Lemma end_cost_le : db_end_cost ≤ LIST_COST.
Proof using LD.
  destruct (list_store [1] [] ∅) as [_ Hc]; [|by split|pose proof (db_cost_nonneg (OStore [1] [])); lia].
  split_and!; [|done|done]. constructor; [|constructor]. unfold mbox_char, is_byte. lia.
Qed.

Lemma list_ok_insert L k e : list_ok L → list_key k → ent_ok e → list_ok (<[k := e]> L).
Proof using. intros HL Hk He. by apply map_Forall_insert_2. Qed.
Lemma list_ok_delete L k : list_ok L → list_ok (delete k L).
Proof using. intros HL. by apply map_Forall_delete. Qed.

Lemma spec_entry_store L k e : spec_call (OStore k (ent_data e)) (lines_of L) = ((0, None), Some (lines_of (<[k := e]> L))).
Proof using. by rewrite lines_insert. Qed.
Lemma spec_delete L k : spec_call (ODelete k false) (lines_of L) = ((0, None), Some (lines_of (delete k L))).
Proof using. by rewrite lines_delete. Qed.

Lemma wp_store_alone k e Q m L n :
  Holds m L n → list_key k → ent_ok e → n + LIST_COST < DB_LIMIT →
  (∀ s, Holds (set_disk s m) (<[k := e]> L) (n + LIST_COST) → Q (0, None) (set_disk s m)) →
  wp (store_entry k (e_type e) (e_part e) (ent_acl e) None) Q m.
Proof using LD.
  intros Hh Hk He Hn HQ. destruct (list_store k (ent_data e) (lines_of L) Hk (ent_data_ok e He)) as [Hok Hcost].
  eapply (wp_call_alone (λ r t, (r, tid_after None t)) (OStore k (ent_data e)));
    [done|apply spec_entry_store|done|apply list_ok_insert; [apply Hh|done..]|done..].
Qed.

Lemma wp_store_txn k e tid Q m L n :
  Open m L n (Some tid) → list_key k → ent_ok e → n + LIST_COST < DB_LIMIT →
  (∀ s t, During (set_disk s m) L (<[k := e]> L) (n + LIST_COST) t → Q (0, Some (Some t)) (set_disk s m)) →
  wp (store_entry k (e_type e) (e_part e) (ent_acl e) (Some tid)) Q m.
Proof using LD.
  intros Hh Hk He Hn HQ. destruct (list_store k (ent_data e) (lines_of L) Hk (ent_data_ok e He)) as [Hok Hcost].
  eapply (wp_call_txn (λ r t, (r, tid_after (Some tid) t)) (OStore k (ent_data e)));
    [done|apply spec_entry_store|done|apply list_ok_insert; [apply Hh|done..]|done..].
Qed.

Lemma wp_delete_alone k Q m L n :
  Holds m L n → is_Some (L !! k) → n + LIST_COST < DB_LIMIT →
  (∀ s, Holds (set_disk s m) (delete k L) (n + LIST_COST) → Q (0, None) (set_disk s m)) →
  wp (delete_entry k None) Q m.
Proof using LD.
  intros Hh [e He] Hn HQ. destruct (proj1 (map_Forall_lookup _ _) (proj1 Hh) _ _ He) as [Hk _].
  destruct (list_delete k (lines_of L) Hk) as [Hok Hcost]; [by rewrite lines_lookup, He|].
  eapply (wp_call_alone (λ r t, (r, tid_after None t)) (ODelete k false));
    [done|apply spec_delete|done|apply list_ok_delete; apply Hh|done..].
Qed.

Lemma wp_delete_txn k tid Q m L n :
  Open m L n (Some tid) → is_Some (L !! k) → n + LIST_COST < DB_LIMIT →
  (∀ s t, During (set_disk s m) L (delete k L) (n + LIST_COST) t → Q (0, Some (Some t)) (set_disk s m)) →
  wp (delete_entry k (Some tid)) Q m.
Proof using LD.
  intros Hh [e He] Hn HQ. destruct (proj1 (map_Forall_lookup _ _) (proj1 Hh) _ _ He) as [Hk _].
  destruct (list_delete k (lines_of L) Hk) as [Hok Hcost]; [by rewrite lines_lookup, He|].
  eapply (wp_call_txn (λ r t, (r, tid_after (Some tid) t)) (ODelete k false));
    [done|apply spec_delete|done|apply list_ok_delete; apply Hh|done..].
Qed.

Lemma wp_commit_tid Q m L0 L n t :
  During m L0 L n t → n < DB_LIMIT →
  (∀ s, Holds (set_disk s m) L n → Q 0 (set_disk s m)) → wp (commit_tid (Some (Some t))) Q m.
Proof using.
  intros (HL & n' & Hn' & Hd) Hn HQ. apply wp_db. eapply wp_mono; [eapply db_committed; [done|lia]|].
  intros r s [-> Hh]. apply HQ. split; [done|]. eapply db_holds_mono; [exact Hh|lia].
Qed.

Lemma wp_abort_tid tid Q m L n :
  Open m L n tid → (∀ s, Holds (set_disk s m) L n → Q tt (set_disk s m)) → wp (abort_tid tid) Q m.
Proof using.
  intros [HL Ho] HQ. assert (m = set_disk (disk m) m) as Hm by by destruct m.
  destruct tid as [[t|]|]; cbn [abort_tid].
  - apply wp_bind, wp_db. eapply wp_mono; [by eapply db_aborted|]. intros r s [_ Hh]. apply wp_ret, HQ. done.
  - apply wp_ret. rewrite Hm. by apply HQ.
  - apply wp_ret. rewrite Hm. by apply HQ.
Qed.
End Programs.
