(* ===== verification/MboxlistCreate.v ===== *)
(** * MboxlistCreate: new mailboxes

    Who may create a mailbox, and what it is given, as a function of the list;
    and that [mboxlist_createmailbox] does just that. *)
From S2P Require Import Prelude CMem.
From stdpp Require Import gmap list.
From S2P Require Import CString Prog DbFile CyrusDb DbOrder BSearchProof Auth Acl AclSpec Mboxname MboxNames MboxPolicy MboxRound.
From S2P Require Import Mboxlist MboxlistSpec.
#[local] Open Scope Z_scope.

(** ** The closest ancestor *)

(** [name] is below [p], in the same domain. *)
Definition below_mbox (name p : bytes) : Prop := ∃ rest, name = p ++ DOT :: rest ∧ (BANG ∉ rest).

(** The mailbox closest above [name], if there is one. *)
Definition nearest (L : gmap bytes mbent) (name : bytes) (o : option mbent) : Prop :=
  match o with
  | Some e => ∃ p, below_mbox name p ∧ L !! p = Some e ∧ ∀ q, below_mbox name q → blen p < blen q → L !! q = None
  | None => ∀ q, below_mbox name q → L !! q = None
  end.

Lemma below_last u v q : (DOT ∉ v) → below_mbox (u ++ DOT :: v) q ↔ (BANG ∉ v) ∧ (q = u ∨ below_mbox u q).
Proof.
  intros Hv. split.
  - intros (rest & E & Hb). apply app_eq_inv in E as [([|c k] & -> & E)|([|c k] & -> & E)]; cbn in E.
    + injection E as ->. rewrite app_nil_r. auto.
    + injection E as <- ->. rewrite not_elem_of_app, not_elem_of_cons in Hb. destruct Hb as (Hk & _ & Hb').
      split; [done|]. right. exists k. by split.
    + injection E as ->. rewrite app_nil_r. auto.
    + injection E as <- ->. destruct Hv. rewrite elem_of_app, elem_of_cons. auto.
  - intros (Hb & [->|(rest & -> & Hr)]); [by exists v|]. exists (rest ++ DOT :: v). rewrite <- app_assoc. split; [done|].
    by rewrite not_elem_of_app, not_elem_of_cons.
Qed.

Lemma none_below parent q : (DOT ∉ parent) → ¬ below_mbox parent q.
Proof. intros Hd (rest & -> & _). destruct Hd. rewrite elem_of_app, elem_of_cons. auto. Qed.

Lemma below_prefix name p q : below_mbox name p → below_mbox name q → blen p = blen q → p = q.
Proof.
  intros (r & -> & _) (r' & E & _) Hl. unfold blen in Hl. apply app_inj_1 in E as [-> _]; [done|lia].
Qed.

Lemma nearest_unique L name o o' : nearest L name o → nearest L name o' → o = o'.
Proof.
  destruct o as [e|], o' as [e'|]; cbn [nearest]; [|intros (p & Hp & He & _) H; by rewrite H in He| |done].
  - intros (p & Hp & He & Hmax) (q & Hq & He' & Hmax'). assert (p = q) as ->; [|congruence].
    apply (below_prefix name); [done|done|]. destruct (Z.lt_trichotomy (blen p) (blen q)) as [Hl|[Hl|Hl]]; [|done|].
    + by rewrite Hmax in He'.
    + by rewrite Hmax' in He.
  - intros H (p & Hp & He & _). by rewrite H in He.
Qed.

Lemma rchr_none s c : rchr_pos s c = None → c ∉ s.
Proof.
  induction s as [|x s IH]; cbn [rchr_pos]; [by intros _ ?%elem_of_nil|]. destruct (rchr_pos s c); [done|].
  destruct (Z.eqb_spec x c); [done|]. intros _. rewrite not_elem_of_cons. auto.
Qed.

Lemma list_key_prefix u v : list_key (u ++ v) → u = [] ∨ list_key u.
Proof.
  intros (H & _ & Hl). apply Forall_app in H as [H _]. destruct u as [|c u]; [by left|right]. split; [done|]. split; [done|].
  rewrite blen_app in Hl. pose proof (blen_nonneg v). lia.
Qed.

Lemma list_key_cstring k : list_key k → is_cstring k.
Proof. intros [H _]. eapply Forall_impl; [exact H|]. unfold mbox_char, is_byte. intros c Hc. cbn in Hc. lia. Qed.

Section Programs.
Context `{B : Backend} {BO : BackendOk B} {LD : ListDb BO} `{Si : Site} `{Ou : Outside} `{A : Auth}.
Implicit Types (m : mbstate) (L : gmap bytes mbent) (n : Z).

Lemma no_empty_name L : list_ok L → L !! [] = None.
Proof using. intros HL. destruct (L !! []) as [e|] eqn:He; [|done]. destruct (proj1 (map_Forall_lookup _ _) HL _ _ He) as [(_ & ? & _) _]. done. Qed.

Lemma wp_find_parent fuel parent tid m L n :
  (length parent < fuel)%nat → Open m L n tid → begun tid tid → parent = [] ∨ list_key parent → n < DB_LIMIT →
  wp (find_parent fuel parent tid) (λ '(r, p, tid') m', r = 0 ∧ Open m' L n tid' ∧ begun tid tid' ∧ looked m m' L ∧
    ∃ o, nearest L parent o ∧ kept m m' o ∧ p = (λ e, (e_part e, ent_acl e)) <$> o) m.
Proof using LD.
  revert parent tid m. induction fuel as [|fuel IH]; intros parent tid m Hf Ho Ht Hk Hn; [lia|]. cbn [find_parent].
  destruct (rchr_pos parent DOT) as [p|] eqn:Hp.
  2:{ wstep. split_and!; [done..|]. exists None. split; [|done]. intros q Hq. by apply none_below in Hq; [|apply rchr_none]. }
  apply rchr_pos_ok in Hp as (u & v & -> & -> & Hv). rewrite from_blen. cbn [chr_pos Z.eqb Pos.eqb].
  change (DOT =? BANG) with false. cbv iota. destruct (chr_pos v BANG) as [i|] eqn:Hb; cbn [fmap option_fmap option_map].
  { wstep. split_and!; [done..|]. exists None. split; [|done]. intros q Hq%below_last; [|done]. destruct Hq as [Hno _].
    apply chr_pos_ok in Hb as (? & ? & -> & _). destruct Hno. rewrite elem_of_app, elem_of_cons. auto. }
  apply chr_pos_none in Hb. rewrite prec_take, take_blen by apply blen_nonneg.
  assert (∀ o, L !! u = None → nearest L u o → nearest L (u ++ DOT :: v) o) as Hnear.
  { intros [e|] Hu; cbn [nearest].
    - intros (q & Hq & He & Hmax). exists q. split; [apply below_last; auto|]. split; [done|].
      intros q' Hq' Hl. apply below_last in Hq' as [_ [->|Hq']]; auto.
    - intros H q Hq. apply below_last in Hq as [_ [->|Hq]]; auto. }
  rewrite length_app in Hf. cbn [length] in Hf.
  assert (u = [] ∨ list_key u) as Hku by (destruct Hk as [Hk|Hk]; [by destruct u|by eapply list_key_prefix]).
  apply wp_bind. destruct Hku as [->|Hku].
  { cbn [mboxlist_mylookup]. wstep. cbn [Z.eqb IMAP_MAILBOX_NONEXISTENT]. change (IMAP_MAILBOX_NONEXISTENT =? IMAP_MAILBOX_NONEXISTENT) with true. cbv iota.
    eapply wp_mono; [apply IH; [cbn in *; lia|done|done|by left|done]|]. intros [[r p] tid'] m' (-> & H1 & H2 & H3 & o & H4 & H5 & ->).
    split_and!; [done..|]. exists o. split; [|done]. apply Hnear; [|done]. by apply no_empty_name, Ho. }
  eapply wp_mono; [by apply wp_lookup_acl|]. intros [[r f] tid'] m1 (Ho1 & Ht1 & Hl1 & Hk1 & Hr).
  destruct (L !! u) as [e|] eqn:He.
  - destruct Hr as [-> (_ & Hpart & Hacl & _)]. cbn [Z.eqb].
    wstep. apply wp_bind. eapply wp_reads; [by apply Hacl|]. wstep. split_and!; [done..|]. exists (Some e).
    cbn [fmap option_fmap option_map]. rewrite Hpart. split; [|done]. exists u. split; [by apply below_last; auto|]. split; [done|].
    intros q Hq Hlen. apply below_last in Hq as [_ [->|(rest & -> & _)]]; [lia| |done].
    rewrite blen_app, blen_cons in Hlen. pose proof (blen_nonneg rest). lia.
  - subst r. change (IMAP_MAILBOX_NONEXISTENT =? 0) with false. change (IMAP_MAILBOX_NONEXISTENT =? IMAP_MAILBOX_NONEXISTENT) with true. cbv iota.
    assert (begun tid' tid') as Ht1'.
    { destruct tid; cbn in Ht1; [destruct Ht1 as [t ->]; by exists t|by subst]. }
    eapply wp_mono; [apply IH; [lia|done|done|by right|done]|]. intros [[r p] tid2] m2 (-> & H1 & H2 & H3 & o & H4 & H5 & ->).
    split_and!; [done|done|by eapply begun_trans|by eapply looked_trans|]. exists o. split; [by apply Hnear|].
    split; [by eapply kept_trans|done].
Qed.
(** ** Rights *)

Definition rights_on (acl : table) : Z := Z.land (given deleteright acl) (Z.lnot (taken deleteright acl)).

Lemma myrights_on acl : acl_ok acl → myrights (encode acl) = Ok (rights_on acl).
Proof using. intros [[H _] _]. unfold myrights. rewrite (myrights_ok deleteright acl []) by done. done. Qed.

Lemma owns_returns userid name : opt_cstring userid → MAX_MAILBOX_NAME < blen stack_inbox → ∃ own, owns userid name = Ok own.
Proof using.
  intros Hu Hs. unfold owns, mboxname_userownsmailbox.
  destruct (tointernal_prints config_virtdomains config_defdomain (Namespace DOT false false (INBOX_name ++ [DOT]) user_dot [])
    ltac:(by left) INBOX_name userid stack_inbox ltac:(by apply (bool_decide_unpack _)) Hu Hs) as (z & m & -> & _ & Hm).
  cbn [mbind result_bind]. destruct (internal_name _ _ _ _ _) as [t|]; [|subst z; by exists false].
  destruct Hm as (-> & (_ & Ht & r & ->) & _). cbn [Z.eqb negb]. rewrite cstr_terminated by done. cbn [mbind result_bind].
  rewrite under_ok by (intros s; apply starts_with_blen). cbn [mbind result_bind]. eauto.
Qed.

(** ** The check *)

(** The name without its domain. *)
Definition local_name (name : bytes) : bytes :=
  match (if config_virtdomains then chr_pos name BANG else None) with Some i => from (i + 1) name | None => name end.

(** Owners administer what is below their INBOX, when implicit rights say so. *)
Definition admin_of (isadmin own : bool) (name : bytes) : bool :=
  if own && match chr_pos (from 5 name) DOT with Some _ => true | None => false end && has config_implicitrights ACL_ADMIN
  then true else isadmin.

(** The refusal, or the list and the partition of the new mailbox.  [bad] is what the policy
    says of the name, [own] whether it is the user's, [above] the closest mailbox
    above and [top] the list for want of one. *)
Definition create_check L (name : bytes) (partition : option bytes) (isadmin localonly force_user_create own : bool)
    (bad : Z) (above : option mbent) (top : option table) : Z + (table * bytes) :=
  if match partition with Some p => MAX_PARTITION_LEN <? blen p | None => false end then inl IMAP_PARTITION_UNKNOWN
  else if negb (bad =? 0) then inl bad
  else if negb isadmin && localonly then inl IMAP_PERMISSION_DENIED
  else if negb isadmin && force_user_create then inl IMAP_PERMISSION_DENIED
  else
    let isadmin := admin_of isadmin own name in
    match L !! name with
    | Some e =>
        inl (if negb isadmin && negb (has (rights_on (e_acl e)) ACL_LOOKUP) then IMAP_PERMISSION_DENIED
             else if has (e_type e) MBTYPE_RESERVE then IMAP_MAILBOX_RESERVED else IMAP_MAILBOX_EXISTS)
    | None =>
        match above with
        | Some p => if negb isadmin && negb (has (rights_on (e_acl p)) ACL_CREATE) then inl IMAP_PERMISSION_DENIED
                    else inr (e_acl p, default (e_part p) partition)
        | None => if negb isadmin then inl IMAP_PERMISSION_DENIED else
                  match top with None => inl IMAP_PERMISSION_DENIED | Some acl => inr (acl, default config_defpartition partition) end
        end
    end.

Lemma create_check_code L name partition isadmin localonly force own bad above top c : decided bad →
  create_check L name partition isadmin localonly force own bad above top = inl c → c ≠ 0 ∧ c ≠ IMAP_AGAIN.
Proof using.
  intros Hb. unfold create_check. destruct (match partition with Some p => _ | None => _ end); [by intros [= <-]|].
  destruct (Z.eqb_spec bad 0) as [->|Hne]; cbn [negb]; [|destruct Hb as [->| ->]; [done|by intros [= <-]]].
  do 2 (destruct (negb isadmin && _); [by intros [= <-]|]). destruct (L !! name) as [e|].
  { destruct (negb _ && _); [by intros [= <-]|]. by destruct (has _ _); intros [= <-]. }
  destruct above as [p|]; [by destruct (negb _ && _); [intros [= <-]|]|]. destruct (negb _); [by intros [= <-]|].
  by destruct top; [|intros [= <-]].
Qed.

Lemma policy_decided name bad : is_cstring name → mboxname_policycheck unixhierarchysep (local_name name ++ [0]) = Ok bad → decided bad.
Proof using.
  intros Hn Hb. destruct (policycheck_ok unixhierarchysep (local_name name) []) as (z & Hz & ? & _); [|congruence].
  unfold local_name. destruct (if config_virtdomains then _ else _); [by apply from_cstring|done].
Qed.

Lemma create_check_rights L name partition isadmin localonly force own bad above top acl part :
  create_check L name partition isadmin localonly force own bad above top = inr (acl, part) →
  match above with
  | Some p => acl = e_acl p ∧ part = default (e_part p) partition ∧
      (isadmin = true ∨ has (rights_on (e_acl p)) ACL_CREATE = true ∨ (own = true ∧ has config_implicitrights ACL_ADMIN = true))
  | None => top = Some acl ∧ part = default config_defpartition partition ∧
      (isadmin = true ∨ (own = true ∧ has config_implicitrights ACL_ADMIN = true))
  end.
Proof using.
  unfold create_check. destruct (match partition with Some p => _ | None => _ end); [done|].
  destruct (negb (bad =? 0)); [done|]. do 2 (destruct (negb isadmin && _); [done|]). destruct (L !! name); [done|].
  assert (admin_of isadmin own name = true → isadmin = true ∨ (own = true ∧ has config_implicitrights ACL_ADMIN = true)) as Hadm.
  { unfold admin_of. destruct own; [|auto]. cbn [andb]. destruct (match chr_pos _ _ with Some _ => _ | None => _ end); [|auto]. cbn [andb].
    destruct (has config_implicitrights ACL_ADMIN); auto. }
  destruct above as [p|].
  - destruct (admin_of isadmin own name), (has (rights_on (e_acl p)) ACL_CREATE); cbn [negb andb]; try done; intros [= <- <-];
      (split; [done|split; [done|]]); first [specialize (Hadm eq_refl); tauto|auto].
  - destruct (admin_of isadmin own name); cbn [negb]; [|done]. destruct top as [a|]; [|done]. intros [= <- <-]. auto.
Qed.

Section Check.
Context L (HL : list_ok L).
Context (name : bytes) (partition : option bytes) (userid : option bytes) (isadmin localonly force own : bool).
Context (bad : Z) (above : option mbent) (top : option table).
Context (Hkey : list_key name) (Hlen : blen name ≤ MAX_MAILBOX_NAME).
Context (Hbad : mboxname_policycheck unixhierarchysep (local_name name ++ [0]) = Ok bad).
Context (Hown : owns userid name = Ok own).
Context (Hnear : nearest L name above).
Context (Htop : top_acl name (local_name name) force = Ok (encode <$> top)).
Context (Hdef : blen config_defpartition ≤ MAX_PARTITION_LEN).

Lemma nearest_ok e : above = Some e → ent_ok e.
Proof using HL Hnear.
  intros ->. destruct Hnear as (p & _ & He & _). by destruct (proj1 (map_Forall_lookup _ _) HL _ _ He).
Qed.

(** [mboxlist_mycreatemailboxcheck] says what the check says, and changes nothing. *)
Lemma wp_check tid m n :
  Open m L n tid → n < DB_LIMIT →
  wp (mboxlist_mycreatemailboxcheck name partition isadmin userid localonly force tid) (λ '(r, x, tid') m',
    Open m' L n tid' ∧ (tid' = tid ∨ begun tid tid') ∧ looked m m' L ∧
    match create_check L name partition isadmin localonly force own bad above top with
    | inl c => r = c ∧ x = None
    | inr (acl, part) => r = 0 ∧ x = Some (encode acl, part) ∧ begun tid tid' ∧ kept m m' above
    end) m.
Proof using LD Hkey Hlen Hbad Hown Htop Hdef Hnear HL.
  intros Ho Hn. unfold mboxlist_mycreatemailboxcheck, create_check. fold (local_name name).
  destruct (match partition with Some p => _ | None => _ end); [by wstep; split_and!; auto|].
  apply wp_bind. eapply wp_liftr; [exact Hbad|]. destruct (negb (bad =? 0)); [by wstep; split_and!; auto|].
  do 2 (destruct (negb isadmin && _); [by wstep; split_and!; auto|]).
  apply wp_bind. eapply wp_liftr; [exact Hown|]. cbv zeta. fold (admin_of isadmin own name).
  set (adm := admin_of isadmin own name). apply wp_bind. eapply wp_mono; [by apply wp_lookup_acl|].
  intros [[r f] tid1] m1 (Ho1 & Ht1 & Hl1 & Hk1 & Hr). destruct (L !! name) as [e|] eqn:He.
  - destruct Hr as [-> (-> & _ & Hacl & _)]. cbn [Z.eqb]. destruct (proj1 (map_Forall_lookup _ _) HL _ _ He) as [_ (_ & _ & Hok)].
    apply wp_bind. apply wp_mono with (P := λ rights m', m' = m1 ∧ (adm = false → rights = rights_on (e_acl e))).
    { destruct adm; [by wstep|]. apply wp_bind. eapply wp_reads; [by apply Hacl|]. eapply wp_liftr; [by apply myrights_on|done]. }
    intros rights m' [-> Hrights]. wstep. split_and!; auto. destruct adm; cbn [negb andb]; [done|]. by rewrite Hrights.
  - subst r. change (IMAP_MAILBOX_NONEXISTENT =? 0) with false. change (negb (IMAP_MAILBOX_NONEXISTENT =? IMAP_MAILBOX_NONEXISTENT)) with false.
    cbv iota. apply wp_bind. rewrite take_ge by (unfold blen in Hlen; lia).
    assert (begun tid1 tid1) as Ht1' by (destruct tid; cbn in Ht1; [destruct Ht1 as [t ->]; by exists t|by subst]).
    eapply wp_mono; [apply wp_find_parent; [lia|done|done|by right|done]|].
    intros [[r p] tid2] m2 (-> & Ho2 & Ht2 & Hl2 & o & Ho' & Hk2 & ->). cbn [Z.eqb negb].
    pose proof (kept_trans _ _ _ _ Hk1 Hk2) as Hkept.
    assert (begun tid tid2) by by eapply begun_trans. assert (looked m m2 L) by by eapply looked_trans.
    pose proof (nearest_unique _ _ _ _ Hnear Ho') as <-. pose proof nearest_ok as Hnok. destruct above as [pe|]; cbn [fmap option_fmap option_map].
    + destruct (Hnok pe eq_refl) as (_ & _ & Hok).
      apply wp_bind. apply wp_mono with (P := λ rights m', m' = m2 ∧ (adm = false → rights = rights_on (e_acl pe))).
      { destruct adm; [by wstep|]. cbn [negb]. eapply wp_liftr; [by apply myrights_on|done]. }
      intros rights m' [-> Hrights]. destruct adm; cbn [negb andb]; [wstep; split_and!; auto|].
      rewrite Hrights by done. destruct (negb _); wstep; split_and!; auto.
    + destruct adm; cbn [negb]; [|wstep; split_and!; auto]. apply wp_bind. eapply wp_liftr; [exact Htop|].
      destruct top as [acl|]; cbn [fmap option_fmap option_map]; [|wstep; split_and!; auto].
      destruct partition as [p|]; [wstep; split_and!; auto|].
      destruct (Z.ltb_spec MAX_PARTITION_LEN (blen config_defpartition)); [lia|]. wstep; split_and!; auto.
Qed.
(** ** [mboxlist_createmailbox], on a server of its own *)

Context (Hsolo : config_mupdate_server = false).
Context (mbtype : Z) (dbonly : bool) (Hty : 0 ≤ mbtype < 16).
Context (Hpart : ∀ p, partition = Some p → place_ok p) (Hdefok : place_ok config_defpartition).
Context (Hacl : ∀ acl, top = Some acl → acl_ok acl).
Abbreviation check := (create_check L name partition isadmin localonly force own bad above top).

Lemma new_ent_ok acl part : check = inr (acl, part) → place_ok part ∧ acl_ok acl ∧ L !! name = None.
Proof using HL Hnear Hpart Hdefok Hacl Htop.
  unfold create_check. destruct (match partition with Some p => _ | None => _ end); [done|].
  destruct (negb (bad =? 0)); [done|]. do 2 (destruct (negb isadmin && _); [done|]). destruct (L !! name); [done|].
  assert (∀ q, place_ok q → place_ok (default q partition)) as Hdq by (intros q Hq; destruct partition as [p|]; [by apply Hpart|done]).
  pose proof nearest_ok as Hnok. destruct above as [pe|].
  - destruct (Hnok pe eq_refl) as (_ & ? & ?). destruct (negb _ && _); [done|]. intros [= <- <-]. auto.
  - destruct (negb _); [done|]. destruct top as [a|]; [|done]. intros [= <- <-]. auto.
Qed.

Lemma reserved_type : is_s32 (Z.lor mbtype MBTYPE_RESERVE).
Proof using Hty.
  pose proof (all_below 16 (λ t, (0 <=? Z.lor t MBTYPE_RESERVE) && (Z.lor t MBTYPE_RESERVE <? 16)) ltac:(by vm_compute) mbtype Hty) as H.
  cbv beta in H. apply andb_true_iff in H as [?%Z.leb_le ?%Z.ltb_lt]. unfold is_s32. lia.
Qed.

Lemma wp_undo_early tid h Q m n :
  Open m L n tid → (∀ s, Holds (set_disk s m) L n → Q h (set_disk s m)) → wp (undo_create name tid false false h) Q m.
Proof using.
  intros Ho HQ. unfold undo_create. apply wp_bind. eapply wp_abort_tid; [done|]. intros s Hs. repeat wstep. by apply HQ.
Qed.

Lemma wp_refused r x tid Q m n : r ≠ 0 → Open m L n tid → (∀ s, Holds (set_disk s m) L n → Q r (set_disk s m)) →
  wp (finish_create name mbtype localonly dbonly r x tid false false None) Q m.
Proof using Hsolo.
  intros Hr%Z.eqb_neq Ho HQ. unfold finish_create. rewrite Hr. destruct (default ([], []) x) as [acl part].
  cbn [andb negb]. wstep. rewrite Hr. apply wp_bind, wp_bind. eapply wp_undo_early; [exact Ho|]. intros s Hs. wstep.
  rewrite Hr, Hsolo. cbn [andb]. repeat wstep. by apply HQ.
Qed.

(** The files are made, or not; then the entry stands for good, or goes. *)
Lemma wp_make acl part Q m n :
  Holds m (<[name := Ent (Z.lor mbtype MBTYPE_RESERVE) part acl]> L) n → n + LIST_COST < DB_LIMIT → L !! name = None →
  place_ok part → acl_ok acl →
  (let '(c, w) := if dbonly || has mbtype MBTYPE_REMOTE then (0, outer m)
                  else mailbox_create name part (encode acl) (has mbtype MBTYPE_NETNEWS) (outer m) in
   ∀ m', Holds m' (if c =? 0 then <[name := Ent mbtype part acl]> L else L) (n + LIST_COST) → outer m' = w → Q c m') →
  wp (finish_create name mbtype localonly dbonly 0 (Some (encode acl, part)) (Some None) true true None) Q m.
Proof using LD Hkey Hsolo Hty.
  intros Hh Hn HLn Hp Ha HQ. unfold finish_create. cbn [default from_option id].
  set (cw := if dbonly || has mbtype MBTYPE_REMOTE then (0, outer m)
             else mailbox_create name part (encode acl) (has mbtype MBTYPE_NETNEWS) (outer m)) in *.
  apply wp_bind. apply wp_mono with (P := λ c m', c = cw.1 ∧ m' = set_outer cw.2 m).
  { subst cw. change (0 =? 0) with true. destruct dbonly, (has mbtype MBTYPE_REMOTE); cbn [andb orb negb];
      try (wstep; split; [done|by destruct m]). by apply wp_out. }
  intros c m' [-> ->]. destruct cw as [c w]. cbn [fst snd] in *. rewrite Hsolo. cbn [andb].
  destruct (c =? 0) eqn:Hc; cbn [negb andb].
  - apply Z.eqb_eq in Hc as ->. apply wp_bind, wp_bind.
    eapply (wp_store_alone name (Ent mbtype part acl)); [exact Hh|done|split_and!; [unfold is_s32; cbn [e_type]; lia|done|done]|done|].
    intros s Hs. cbn [Z.eqb]. repeat wstep. apply HQ; [|done].
    by rewrite insert_insert_eq in Hs.
  - unfold undo_create. apply wp_bind, wp_bind, wp_bind. cbn [abort_tid]. wstep. cbn [andb]. apply wp_bind, wp_bind.
    eapply wp_delete_alone; [exact Hh|by rewrite lookup_insert_eq; eexists|done|]. intros s Hs. wstep. rewrite Hsolo. do 2 wstep.
    rewrite Hc. cbn [andb]. repeat wstep. apply HQ; [|done].
    by rewrite delete_insert_id in Hs.
Qed.

(** The code, the files and the list. *)
Definition create_result (m m' : mbstate) (r : Z) (n : Z) : Prop :=
  match check with
  | inl c => r = c ∧ outer m' = outer m ∧ Holds m' L n
  | inr (acl, part) =>
      if has mbtype (Z.lor MBTYPE_MOVING MBTYPE_RESERVE) then r = IMAP_MAILBOX_NOTSUPPORTED ∧ outer m' = outer m ∧ Holds m' L n
      else
        let '(c, w) := if dbonly || has mbtype MBTYPE_REMOTE then (0, outer m)
                       else mailbox_create name part (encode acl) (has mbtype MBTYPE_NETNEWS) (outer m) in
        r = c ∧ outer m' = w ∧ Holds m' (if c =? 0 then <[name := Ent mbtype part acl]> L else L) (n + 2 * LIST_COST)
  end.

Lemma wp_create retries m n :
  Holds m L n → n + 2 * LIST_COST < DB_LIMIT →
  wp (mboxlist_createmailbox (S retries) name mbtype partition isadmin userid localonly force dbonly)
    (λ r m', create_result m m' r n) m.
Proof using All.
  intros Hh Hn. cbn [mboxlist_createmailbox]. apply wp_bind. unfold LIST_COST, DB_LIMIT in *.
  assert (decided bad) as Hdec by (eapply policy_decided; [by apply list_key_cstring|done]).
  eapply wp_mono; [apply (wp_check (Some None) m n); [exact Hh|unfold DB_LIMIT; lia]|].
  intros [[r x] tid] m1 (Ho & Ht & [Hl _] & Hr). unfold create_result.
  pose proof (create_check_code L name partition isadmin localonly force own bad above top) as Hcode.
  pose proof new_ent_ok as Hnew. destruct check as [c|[acl part]].
  - destruct Hr as [-> ->]. destruct (Hcode c Hdec eq_refl) as [H0 H1].
    destruct (Z.eqb_spec c IMAP_AGAIN); [done|]. destruct (Z.eqb_spec c 0); [done|]. cbn [negb].
    eapply wp_refused; [done|exact Ho|]. intros s Hs. done.
  - destruct Hr as (-> & -> & [t ->] & _). destruct (Hnew acl part eq_refl) as (Hp & Ha & HLn).
    change (0 =? IMAP_AGAIN) with false. cbn [Z.eqb negb].
    destruct (has mbtype (Z.lor MBTYPE_MOVING MBTYPE_RESERVE)).
    { eapply wp_refused; [done|exact Ho|]. intros s Hs. done. }
    cbn [default from_option id]. apply wp_bind. unfold reserve. apply wp_bind.
    eapply (wp_store_txn name (Ent (Z.lor mbtype MBTYPE_RESERVE) part acl));
      [exact Ho|done|split_and!; [apply reserved_type|done|done]|unfold LIST_COST, DB_LIMIT; lia|].
    intros s t' Hd. cbn [Z.eqb negb]. apply wp_bind. eapply wp_commit_tid; [exact Hd|unfold LIST_COST, DB_LIMIT; lia|].
    intros s' Hs'. rewrite Hsolo. cbn [andb]. wstep.
    eapply wp_make; [exact Hs'|unfold LIST_COST, DB_LIMIT; lia|done|done|done|].
    change (outer (set_disk s' (set_disk s m1))) with (outer m1). rewrite Hl.
    destruct (if dbonly || _ then _ else _) as [c w]. intros m' Hm' Hw. split_and!; [done|done|].
    eapply Holds_mono; [exact Hm'|unfold LIST_COST; lia].
Qed.
End Check.
End Programs.
