(* ===== verification/MboxlistAcl.v ===== *)
(** * MboxlistAcl: changing who has which rights

    [mboxlist_setacl] as a function of the list, and that the code does what it
    says. *)
From S2P Require Import Prelude CMem.
From stdpp Require Import gmap list.
From S2P Require Import CString Prog DbFile CyrusDb DbOrder BSearchProof Auth Acl AclSpec Mboxname MboxNames.
From S2P Require Import Mboxlist MboxlistSpec MboxlistCreate.
#[local] Open Scope Z_scope.

Section Programs.
Context `{B : Backend} {BO : BackendOk B} {LD : ListDb BO} `{Si : Site} `{Ou : Outside} `{A : Auth} {HA : AuthOk A}.
Implicit Types (m : mbstate) (L : gmap bytes mbent) (n : Z).

(** ** The change *)

Definition change_mode (rights : option bytes) : acl_mode * Z :=
  match rights with
  | Some rights => let '(mode, rights) := rights_mode rights in (mode, cyrus_acl_strtomask deleteright rights)
  | None => (ACL_MODE_SET, 0)
  end.

(** The owner keeps the implicit rights. *)
Definition owner_of (name userid : bytes) : option bytes := if users_mailbox name userid then Some userid else None.
Definition change_of (identifier : bytes) (rights owner : option bytes) : result (option (bytes * Z)) :=
  canon_identifier identifier (change_mode rights).2 (mboxlist_ensureOwnerRights <$> owner).
Definition new_acl (acl : table) (identifier : bytes) (rights owner : option bytes) : option table :=
  match change_of identifier rights owner with
  | Ok (Some (id, a)) => Some (changed deleteright acl id (access_of (change_mode rights).1 a (rights_in deleteright acl id)))
  | _ => None
  end.

Lemma changed_cstring acl id a : table_ok acl → (a ≠ 0 → clean id) → is_cstring (encode (changed deleteright acl id a)).
Proof using. intros Ht Hid. apply encode_cstring. by destruct (changed_ok deleteright acl id a Ht Hid). Qed.

Lemma changed_acl_ok acl identifier rights owner :
  table_ok acl → is_cstring identifier → (∀ acl', new_acl acl identifier rights owner = Some acl' → acl_ok acl') →
  changed_acl (encode acl) identifier rights owner =
    Ok (match new_acl acl identifier rights owner with
        | Some acl' => (0, encode acl')
        | None => (IMAP_INVALID_IDENTIFIER, encode acl)
        end).
Proof using HA.
  intros Ht Hi Hnew. unfold changed_acl. set (canonproc := mboxlist_ensureOwnerRights <$> owner).
  assert (∀ mode mask, change_mode rights = (mode, mask) →
    ('(r, block) ← cyrus_acl_set deleteright (encode acl ++ [0]) identifier mode mask canonproc;
     newacl ← cstr block; Ok (if r =? 0 then 0 else IMAP_INVALID_IDENTIFIER, newacl)) =
    Ok (match new_acl acl identifier rights owner with
        | Some acl' => (0, encode acl')
        | None => (IMAP_INVALID_IDENTIFIER, encode acl)
        end)) as H.
  { intros mode mask Hm. unfold new_acl, change_of in *. rewrite Hm in *. cbn [fst snd] in *. fold canonproc in Hnew |- *.
    destruct (canon_identifier_returns HA identifier mask canonproc Hi) as [o Ho]. rewrite Ho in *.
    destruct o as [[id a]|].
    - destruct (set_ok deleteright acl [] identifier mode mask canonproc id a) as [r' ->]; [apply Ht|done|].
      cbn [mbind result_bind]. rewrite cstr_terminated by by apply acl_cstring, Hnew. done.
    - unfold cyrus_acl_set. rewrite Ho. cbn [mbind result_bind]. rewrite cstr_terminated by (apply encode_cstring, Ht). done. }
  destruct rights as [rights|]; [|by apply (H ACL_MODE_SET 0)].
  unfold change_mode in H. by destruct (rights_mode rights) as [mode rs]; apply H.
Qed.
(** The owner's access includes the implicit rights. *)
Lemma owner_access identifier rights owner id a : negative owner = false → id = owner →
  change_of identifier rights (Some owner) = Ok (Some (id, a)) → Z.land a config_implicitrights = config_implicitrights.
Proof using.
  intros Hn -> Hc. unfold change_of, canon_identifier in Hc.
  set (plain := if negative identifier then tail identifier else identifier) in *.
  destruct (auth_canonifyid plain) as [c|]; [|done]. cbn [mbind result_bind fmap option_fmap option_map] in Hc.
  destruct (match c with None => _ | Some _ => _ end); [done|]. injection Hc as Hid <-. destruct (negative identifier).
  - subst owner. done.
  - unfold mboxlist_ensureOwnerRights. rewrite Hid, bool_decide_true by done. rewrite Z.land_lor_distr_l, Z.land_diag.
    apply Z.bits_inj'. intros k Hk. rewrite Z.lor_spec, Z.land_spec. by destruct (Z.testbit _ k), (Z.testbit _ k).
Qed.

(** For anybody else, and in a mailbox of somebody else, the access is what was asked for. *)
Lemma other_access identifier rights owner id a :
  owner ≠ Some (if negative identifier then tail id else id) →
  change_of identifier rights owner = Ok (Some (id, a)) → a = (change_mode rights).2.
Proof using.
  intros Ho Hc. unfold change_of, canon_identifier in Hc.
  set (plain := if negative identifier then tail identifier else identifier) in *.
  destruct (auth_canonifyid plain) as [c|]; [|done]. cbn [mbind result_bind fmap option_fmap option_map] in Hc.
  destruct owner as [o|]; cbn [fmap option_fmap option_map] in Hc.
  - destruct (match c with None => _ | Some _ => _ end); [done|]. unfold mboxlist_ensureOwnerRights in Hc.
    destruct (negative identifier); injection Hc as <- <-; rewrite bool_decide_false by (cbn in Ho; congruence); [apply Z.lnot_involutive|done].
  - destruct (match c with None => _ | Some _ => _ end); [done|]. by destruct (negative identifier); injection Hc as <- <-.
Qed.

(** The owner cannot deny himself the implicit rights. *)
Lemma owner_denied identifier rights owner id a : negative identifier = true → tail id = owner →
  change_of identifier rights (Some owner) = Ok (Some (id, a)) → a = Z.land (change_mode rights).2 (Z.lnot config_implicitrights).
Proof using.
  intros Hn Ho Hc. unfold change_of, canon_identifier in Hc. rewrite Hn in Hc.
  destruct (auth_canonifyid (tail identifier)) as [c|]; [|done]. cbn [mbind result_bind fmap option_fmap option_map] in Hc.
  destruct (match c with None => _ | Some _ => _ end); [done|]. injection Hc as <- <-. cbn in Ho.
  unfold mboxlist_ensureOwnerRights. rewrite bool_decide_true by done. by rewrite Z.lnot_lor, Z.lnot_involutive.
Qed.

(** ** [mboxlist_setacl] *)

(** The files of the mailbox are locked, unless it is remote: the code, the mailbox that has
    been opened, and the world. *)
Definition open_header (name path : bytes) (mpath : option bytes) (e : mbent) (w : world) : Z * option mailbox * world :=
  if has (e_type e) MBTYPE_REMOTE then (0, None, w) else
  let '(c, mb, w) := mailbox_open_header_path name path mpath (ent_acl e) w in
  if c =? 0 then let '(c, w) := mailbox_lock_header mb w in (c, Some mb, w) else (c, None, w).
Definition close_header (mb : option mailbox) (w : world) : world := match mb with Some mb => mailbox_close mb w | None => w end.
Definition write_header (mb : option mailbox) (acl : bytes) (w : world) : world :=
  match mb with Some mb => (mailbox_write_header mb acl w).2 | None => w end.

(** Whether the user may change the list, and the change. *)
Definition acl_check (e : mbent) (identifier : bytes) (rights : option bytes) (isadmin : bool) (owner : option bytes) : Z + table :=
  if negb isadmin && negb (has (rights_on (e_acl e)) ACL_ADMIN) then
    inl (if has (rights_on (e_acl e)) ACL_LOOKUP then IMAP_PERMISSION_DENIED else IMAP_MAILBOX_NONEXISTENT)
  else if negb isadmin && negb anyoneuseracl && starts_with identifier anyone then inl IMAP_PERMISSION_DENIED
  else match new_acl (e_acl e) identifier rights owner with Some acl => inr acl | None => inl IMAP_INVALID_IDENTIFIER end.

(** The code, the new list if there is one, and the world. *)
Definition setacl_result L (name identifier : bytes) (rights : option bytes) (isadmin : bool) (userid : bytes) (w : world) :
    Z * option mbent * world :=
  match canon_ident name identifier rights isadmin with
  | inl c => (c, None, w)
  | inr identifier =>
      match L !! name with
      | None => (IMAP_MAILBOX_NONEXISTENT, None, w)
      | Some e =>
          match entry_path name e with
          | inl c => (c, None, w)
          | inr (path, mpath) =>
              if has (e_type e) (Z.lor MBTYPE_MOVING MBTYPE_RESERVE) then (IMAP_MAILBOX_NOTSUPPORTED, None, w) else
              let '(c, mb, w) := open_header name path mpath e w in
              if negb (c =? 0) then (c, None, close_header mb w) else
              match acl_check e identifier rights isadmin (owner_of name userid) with
              | inl c => (c, None, close_header mb w)
              | inr acl => (0, Some (Ent (e_type e) (e_part e) acl), close_header mb (write_header mb (encode acl) w))
              end
          end
      end
  end.

Lemma canon_ident_error name identifier rights isadmin c : canon_ident name identifier rights isadmin = inl c → c ≠ 0.
Proof using.
  unfold canon_ident. destruct (negb config_virtdomains); [done|]. destruct (chr_pos identifier AT) as [cp|].
  - destruct (match rights with Some _ => _ | None => _ end); [by intros [= <-]|]. by destruct (_ || _).
  - destruct (chr_pos name BANG) as [p|]; [|done]. by destruct (_ && _).
Qed.

(** Either nothing changes, or the user may change the list and this is the change. *)
Lemma setacl_result_ok L name identifier rights isadmin userid w c e' w' :
  setacl_result L name identifier rights isadmin userid w = (c, e', w') →
  (c ≠ 0 ∧ e' = None) ∨
  (c = 0 ∧ ∃ e ident id a, L !! name = Some e ∧ (isadmin = true ∨ has (rights_on (e_acl e)) ACL_ADMIN = true) ∧
     canon_ident name identifier rights isadmin = inr ident ∧ change_of ident rights (owner_of name userid) = Ok (Some (id, a)) ∧
     e' = Some (Ent (e_type e) (e_part e)
       (changed deleteright (e_acl e) id (access_of (change_mode rights).1 a (rights_in deleteright (e_acl e) id))))).
Proof using.
  unfold setacl_result. destruct (canon_ident name identifier rights isadmin) as [c0|ident] eqn:Hid.
  { intros [= <- <- <-]. left. split; [by eapply canon_ident_error|done]. }
  destruct (L !! name) as [e|] eqn:He; [|by intros [= <- <- <-]; left].
  destruct (entry_path name e) as [c0|[path mpath]] eqn:Hp; [intros [= <- <- <-]; left; by split; [eapply entry_path_error|]|].
  destruct (has (e_type e) _); [by intros [= <- <- <-]; left|].
  destruct (open_header name path mpath e w) as [[c0 mb] w0]. destruct (Z.eqb_spec c0 0) as [->|Hc]; cbn [negb].
  2:{ intros [= <- <- <-]. by left. }
  unfold acl_check. destruct (negb isadmin && negb (has (rights_on (e_acl e)) ACL_ADMIN)) eqn:Hadm.
  { intros [= <- <- <-]. left. split; [by case_match|done]. }
  destruct (_ && _ && _); [by intros [= <- <- <-]; left|]. unfold new_acl.
  destruct (change_of ident rights (owner_of name userid)) as [[[id a]|]|] eqn:Hch; [|by intros [= <- <- <-]; left..].
  intros [= <- <- <-]. right. split; [done|]. exists e, ident, id, a. split_and!; try done.
  destruct isadmin; [by left|]. right. by destruct (has (rights_on (e_acl e)) ACL_ADMIN).
Qed.

(** The rights the change leaves include those of the access, unless it takes them away. *)
Lemma owner_keeps mode a old k : Z.land a config_implicitrights = config_implicitrights →
  Z.testbit (Z.land config_implicitrights ACL_FULL) k = true →
  Z.testbit (Z.land (access_of mode a old) ACL_FULL) k = match mode with ACL_MODE_REMOVE => false | _ => true end.
Proof using.
  intros Ha. rewrite !Z.land_spec, !andb_true_iff. intros [Hk Hf]. rewrite Hf, andb_true_r. pose proof Hk as Hk'. rewrite <- Ha, Z.land_spec in Hk.
  apply andb_true_iff in Hk as [Hk _]. destruct mode; cbn; [done|by rewrite Z.lor_spec, Hk|].
  assert (0 ≤ k) by (destruct (Z_lt_ge_dec k 0); [by rewrite Z.testbit_neg_r in Hk|lia]).
  by rewrite Z.land_spec, Z.lnot_spec, Hk, andb_false_r.
Qed.

Lemma snprint_cstring k s : is_cstring s → is_cstring (snprint k s).
Proof using. apply cstring_take. Qed.

Lemma canon_ident_cstring name identifier rights isadmin id : is_cstring name → is_cstring identifier →
  canon_ident name identifier rights isadmin = inr id → is_cstring id.
Proof using.
  intros Hn Hi. unfold canon_ident. destruct (negb config_virtdomains); [by intros [= <-]|].
  destruct (chr_pos identifier AT) as [cp|].
  - destruct (match rights with Some _ => _ | None => _ end); [done|].
    destruct (_ || _); intros [= <-]; apply snprint_cstring; [by apply prec_cstring|done].
  - destruct (chr_pos name BANG) as [p|]; [|by intros [= <-]; apply snprint_cstring].
    destruct (_ && _); intros [= <-]; apply snprint_cstring; [|done].
    apply cstring_app; [by apply snprint_cstring|]. constructor; [done|by apply prec_cstring].
Qed.

Lemma entry_path_again name e c : entry_path name e = inl c → c ≠ IMAP_AGAIN.
Proof using.
  unfold entry_path. destruct (has _ _); [done|]. destruct (MOVING_part e); [|by intros [= <-]].
  by destruct (config_partitiondir _); [|intros [= <-]].
Qed.

Lemma wp_lookup_again retries name w tid m L n :
  Open m L n tid → list_key name → n < DB_LIMIT →
  wp (lookup_again (S retries) name w tid) (λ '(r, f, tid') m', Open m' L n tid' ∧ begun tid tid' ∧ looked m m' L ∧
    match L !! name with
    | None => r = IMAP_MAILBOX_NONEXISTENT
    | Some e => r = path_code w name e ∧ (r = 0 → shows m' f w name e)
    end) m.
Proof using LD.
  intros Ho Hk Hn. cbn [lookup_again]. apply wp_bind. eapply wp_mono; [by apply wp_mylookup|].
  intros [[r f] tid'] m' (H1 & H2 & H3 & H4).
  assert (r ≠ IMAP_AGAIN) as Hr.
  { destruct (L !! name) as [e|]; [|by subst]. destruct H4 as [-> _]. unfold path_code. destruct (w_path w); [|done].
    destruct (entry_path name e) eqn:E; [by eapply entry_path_again|done]. }
  destruct (Z.eqb_spec r IMAP_AGAIN); [done|]. by wstep.
Qed.

Lemma wp_finish r tid mb Q m L n :
  Open m L n tid → r ≠ 0 →
  (∀ m', Holds m' L n → outer m' = close_header mb (outer m) → Q r m') → wp (finish_setacl r tid mb) Q m.
Proof using.
  intros Ho Hr%Z.eqb_neq HQ. unfold finish_setacl. rewrite Hr. cbn [negb]. apply wp_bind. eapply wp_abort_tid; [exact Ho|].
  intros s Hs. apply wp_bind. destruct mb as [mb|]; repeat wstep; by apply HQ.
Qed.

(** What the start of a change leaves, when it succeeds. *)
Definition started m' L n (e : mbent) (f : found) (tid : tidref) (mb : option mailbox) : Prop :=
  Open m' L n tid ∧ begun (Some None) tid ∧ f_type f = e_type e ∧ partition_buf m' = e_part e ∧
  read_acl f m' = Ok (ent_acl e, m') ∧ (mb = None ↔ has (e_type e) MBTYPE_REMOTE = true).

Lemma wp_start retries name mp m L n :
  Holds m L n → list_key name → n < DB_LIMIT →
  wp (setacl_start (S retries) name mp) (λ '(r, f, tid, mb) m', Open m' L n tid ∧
    match L !! name with
    | None => r = IMAP_MAILBOX_NONEXISTENT ∧ mb = None ∧ outer m' = outer m
    | Some e =>
        match entry_path name e with
        | inl c => r = c ∧ r ≠ 0 ∧ mb = None ∧ outer m' = outer m
        | inr (path, mpath) =>
            if has (e_type e) (Z.lor MBTYPE_MOVING MBTYPE_RESERVE) then r = IMAP_MAILBOX_NOTSUPPORTED ∧ mb = None ∧ outer m' = outer m
            else let '(c, mb', w) := open_header name path mpath e (outer m) in
              r = c ∧ mb = mb' ∧ outer m' = w ∧ (r = 0 → started m' L n e f tid mb)
        end
    end) m.
Proof using LD.
  intros Hh Hk Hn. unfold setacl_start. apply wp_bind.
  eapply wp_mono; [by apply (wp_lookup_again retries name all_wanted (Some None) m L n)|].
  intros [[r f] tid] m1 (Ho & Ht & [Hl _] & Hr). destruct (L !! name) as [e|] eqn:He.
  2:{ subst r. change (IMAP_MAILBOX_NONEXISTENT =? 0) with false. cbn [andb]. wstep. auto. }
  destruct Hr as [-> Hs]. unfold path_code in *. change (w_path all_wanted) with true in *. cbv iota in *.
  destruct (entry_path name e) as [c|[path mpath]] eqn:Hp.
  { pose proof (entry_path_error _ _ _ Hp) as Hc%Z.eqb_neq. rewrite Hc. cbn [andb]. rewrite Hc. cbn [andb]. wstep.
    apply Z.eqb_neq in Hc. auto. }
  destruct (Hs eq_refl) as (Hty & Hpart & Hacl & Hpaths). rewrite Hty. cbn [Z.eqb andb].
  destruct (has (e_type e) (Z.lor MBTYPE_MOVING MBTYPE_RESERVE)) eqn:Hmv.
  { change (IMAP_MAILBOX_NOTSUPPORTED =? 0) with false. cbn [andb]. by wstep. }
  cbn [Z.eqb andb]. unfold open_header. destruct (has (e_type e) MBTYPE_REMOTE) eqn:Hrem; cbn [negb].
  { wstep. split; [done|]. split_and!; [done..|]. intros _. split_and!; try done. by apply Hacl. }
  destruct Ht as [t ->]. apply wp_bind, wp_bind. eapply wp_db, wp_mono; [apply db_aborted, Ho|]. intros a s [_ Hs']. do 1 wstep.
  set (m2 := set_disk s m1). assert (Holds m2 L n) as Hh2 by (split; [apply Ho|done]).
  destruct (Hpaths path mpath eq_refl Hp) as (Hp1 & Hp2 & _).
  apply wp_bind. eapply wp_reads; [by eapply (read_path_same f f m1 m2)|].
  apply wp_bind. eapply wp_reads; [by eapply (read_mpath_same f f m1 m2)|].
  assert (read_acl f m2 = Ok (ent_acl e, m2)) as Ha2.
  { eapply (read_acl_same f m1); [done|done|by apply Hacl]. }
  apply wp_bind. eapply wp_reads; [exact Ha2|]. apply wp_bind, wp_out. change (if w_mpath all_wanted then mpath else None) with mpath. change (outer m2) with (outer m1). rewrite Hl.
  destruct (mailbox_open_header_path name path mpath (ent_acl e) (outer m)) as [[c mb] w1] eqn:Eo. cbn [fst snd].
  destruct (c =? 0) eqn:Hc; cbn [negb]; [|wstep; by apply Z.eqb_neq in Hc].
  apply wp_bind, wp_out. cbn [outer set_outer]. destruct (mailbox_lock_header mb w1) as [c2 w2] eqn:El. cbn [fst snd].
  destruct (c2 =? 0) eqn:Hc2; cbn [negb]; [|wstep; by apply Z.eqb_neq in Hc2].
  apply Z.eqb_eq in Hc2 as ->. apply wp_bind.
  eapply wp_mono; [by apply (wp_lookup_again retries name (Wants true mp true) (Some None) _ L n)|].
  intros [[r2 f2] tid2] m3 (Ho3 & Ht3 & [Hl3 _] & Hr3). rewrite He in Hr3. unfold path_code in Hr3. cbn [w_path] in Hr3. rewrite Hp in Hr3.
  destruct Hr3 as [-> Hs3]. destruct (Hs3 eq_refl) as (Hty3 & Hpart3 & Hacl3 & _). wstep. split; [done|]. split_and!; [done..|].
  intros _. split_and!; try done; [by apply Hacl3|by rewrite Hrem..].
Qed.
(** *** The store *)

Context (Hsolo : config_mupdate_server = false).
(** Locked headers can be written: else the transaction is aborted after its store, which
    [db_aborted] says nothing about. *)
Context (Hwrite : ∀ mb acl w, (mailbox_write_header mb acl w).1 = 0).

Lemma wp_setacl_store retries name e acl f tid mb Q m L n :
  started m L n e f tid mb → list_key name → ent_ok e → acl_ok acl → n + LIST_COST < DB_LIMIT →
  (∀ m', Holds m' (<[name := Ent (e_type e) (e_part e) acl]> L) (n + LIST_COST) → outer m' = write_header mb (encode acl) (outer m) →
     Q (0, Some None) m') →
  wp (setacl_store (S retries) name (f_type f) (encode acl) tid mb) Q m.
Proof using LD Hsolo Hwrite.
  intros (Ho & [t ->] & -> & Hpart & _ & Hmb) Hk He Ha Hn HQ. unfold setacl_store. wstep. rewrite Hpart. cbn [store_again].
  apply wp_bind, wp_bind. eapply (wp_store_txn name (Ent (e_type e) (e_part e) acl));
    [exact Ho|done|split_and!; [apply He|apply He|done]|done|]. intros s t' Hd.
  change (0 =? CYRUSDB_AGAIN) with false. cbv iota. wstep. cbn [Z.eqb negb]. apply wp_bind.
  apply wp_mono with (P := λ r m', r = 0 ∧ m' = set_outer (write_header mb (encode acl) (outer m)) (set_disk s m)).
  { destruct (has (e_type e) MBTYPE_REMOTE) eqn:Hrem.
    - wstep. rewrite (proj2 Hmb eq_refl). split; [done|]. by destruct m.
    - destruct mb as [mb|]; [|by specialize (proj1 Hmb eq_refl)]. apply wp_out. split; [apply Hwrite|done]. }
  intros r m' [-> ->]. cbn [Z.eqb negb]. apply wp_bind. eapply (wp_commit_tid _ _ L); [exact Hd|done|]. intros s' Hs'.
  cbn [Z.eqb negb]. rewrite Hsolo. wstep. by apply HQ.
Qed.

(** [mboxlist_setacl] does what [setacl_result] says. *)
Lemma wp_setacl retries name identifier rights isadmin userid m L n :
  Holds m L n → list_key name → n + LIST_COST < DB_LIMIT → is_cstring identifier →
  (∀ e id acl, L !! name = Some e → canon_ident name identifier rights isadmin = inr id →
     new_acl (e_acl e) id rights (owner_of name userid) = Some acl → acl_ok acl) →
  wp (mboxlist_setacl (S retries) name identifier rights isadmin userid) (λ r m',
    let '(c, e, w) := setacl_result L name identifier rights isadmin userid (outer m) in
    r = c ∧ outer m' = w ∧ Holds m' (match e with Some e => <[name := e]> L | None => L end) (n + LIST_COST)) m.
Proof using LD HA Hsolo Hwrite.
  intros Hh Hk Hn Hi Hnew. unfold mboxlist_setacl, setacl_result. unfold LIST_COST, DB_LIMIT in Hn.
  assert (Holds m L (n + LIST_COST)) as Hh' by (eapply Holds_mono; [exact Hh|unfold LIST_COST; lia]).
  destruct (canon_ident name identifier rights isadmin) as [c|id] eqn:Hid; [by wstep|].
  assert (is_cstring id) as Hidc by (eapply canon_ident_cstring; [by apply list_key_cstring|done..]).
  apply wp_bind. eapply wp_mono; [apply (wp_start retries name false m L n); [done|done|unfold DB_LIMIT; lia]|].
  intros [[[r f] tid] mb] m1 (Ho & Hr).
  assert (∀ c Q, c ≠ 0 → (∀ m', outer m' = close_header mb (outer m1) → Holds m' L (n + LIST_COST) → Q c m') →
    wp (finish_setacl c tid mb) Q m1) as Hfin.
  { intros c Q Hc HQ. eapply wp_finish; [exact Ho|done|]. intros m' Hm' Ho'. apply HQ; [done|].
    eapply Holds_mono; [exact Hm'|unfold LIST_COST; lia]. }
  destruct (L !! name) as [e|] eqn:He.
  2:{ destruct Hr as (-> & -> & Hw). apply Hfin; [done|]. intros m' Hm' Hh2. by rewrite Hm', Hw. }
  destruct (entry_path name e) as [c|[path mpath]].
  { destruct Hr as (-> & Hc & -> & Hw). rewrite (proj2 (Z.eqb_neq c 0) Hc). apply Hfin; [done|]. intros m' Hm' Hh2. by rewrite Hm', Hw. }
  destruct (has (e_type e) (Z.lor MBTYPE_MOVING MBTYPE_RESERVE)).
  { destruct Hr as (-> & -> & Hw). apply Hfin; [done|]. intros m' Hm' Hh2. by rewrite Hm', Hw. }
  destruct (open_header name path mpath e (outer m)) as [[c mb'] w]. destruct Hr as (-> & <- & Hw & Hst).
  destruct (c =? 0) eqn:Hc; cbn [negb].
  2:{ apply Z.eqb_neq in Hc. apply Hfin; [done|]. intros m' Hm' Hh2. by rewrite Hm', Hw. }
  apply Z.eqb_eq in Hc as ->. specialize (Hst eq_refl). pose proof Hst as (_ & _ & _ & _ & Hacl & _).
  destruct (proj1 (map_Forall_lookup _ _) (proj1 Hh) _ _ He) as [_ Heok]. pose proof Heok as (_ & _ & Hacok).
  apply wp_bind. eapply wp_reads; [exact Hacl|]. apply wp_bind.
  apply wp_mono with (P := λ access m', access = (if isadmin then ACL_ADMIN else rights_on (e_acl e)) ∧ m' = m1).
  { destruct isadmin; [by wstep|]. eapply wp_liftr; [by apply myrights_on|done]. }
  intros access m' [-> ->]. unfold acl_check.
  assert (has (if isadmin then ACL_ADMIN else rights_on (e_acl e)) ACL_ADMIN = isadmin || has (rights_on (e_acl e)) ACL_ADMIN) as ->
    by by destruct isadmin.
  destruct isadmin, (has (rights_on (e_acl e)) ACL_ADMIN) eqn:Hadm; cbn [negb orb andb];
    try (apply Hfin; [by case_match|]; intros m' Hm' Hh2; by rewrite Hm', Hw).
  all: try (destruct (negb anyoneuseracl && starts_with id anyone); [apply Hfin; [done|]; intros m' Hm' Hh2; by rewrite Hm', Hw|]).
  all: fold (owner_of name userid); apply wp_bind; (eapply wp_liftr; [apply changed_acl_ok; [apply Hacok|done|by intros acl'; apply (Hnew e id)]|]).
  all: destruct (new_acl (e_acl e) id rights (owner_of name userid)) as [acl|] eqn:Hna;
    [|change (IMAP_INVALID_IDENTIFIER =? 0) with false; apply Hfin; [done|]; intros m' Hm' Hh2; by rewrite Hm', Hw].
  all: cbn [Z.eqb negb]; apply wp_bind; eapply wp_setacl_store; [exact Hst|done|done|by apply (Hnew e id)|unfold LIST_COST, DB_LIMIT; lia|].
  all: intros m' Hm' Hw'; unfold finish_setacl; cbn [Z.eqb negb]; wstep; apply wp_bind; destruct mb as [mb|]; repeat wstep;
    (split; [done|split; [cbn; by rewrite Hw', Hw|done]]).
Qed.
End Programs.
