(* ===== verification/MboxlistFind.v ===== *)
(** * MboxlistFind: listing mailboxes

    [mboxlist_findall] and [mboxlist_findall_alt] of [imap/mboxlist.c], which LIST and
    its relatives call: the INBOX, the mailboxes of the user, and the others that
    match a pattern and that the user may look up are given to a callback.  The
    backend goes through the list with [foreach], the test [find_p] and the
    callback [find_cb]. *)
From stdpp Require Import gmap list.
From S2P Require Import Prelude CMem CString Prog DbFile CyrusDb Auth Acl Glob Mboxname Mboxlist.
#[local] Open Scope Z_scope.

Definition CYRUSDB_DONE : Z := 1.
Definition NAMESPACE_INBOX : Z := 0.
Definition NAMESPACE_USER : Z := 1.
Definition NAMESPACE_SHARED : Z := 2.

(** [struct find_rock], without [checkshared], which changes, and the caller's [proc]. *)
Record find_rock := Rock {
  r_glob : glob;
  r_namespace : option namespace;
  find_namespace : Z;
  r_domainlen : Z;
  inboxoffset : Z;
  inboxcase : bytes;
  usermboxname : option bytes;
  checkmboxlist : bool;
  r_isadmin : bool;
}.

Definition user_word : bytes := [117; 115; 101; 114].
Definition inbox_dot : bytes := [105; 110; 98; 111; 120; 46].

Section Find.
Context `{B : Backend} `{Si : Site} `{Ou : Outside} `{A : Auth}.
(** A key is shown where it is in the database, not terminated: what follows it, up
    to the next NUL. *)
Context (behind : bytes → bytes).
(** The caller's [proc], with its [rock]: the name, the length of the match, [maycreate]. *)
Context (proc : bytes → Z → bool → Prog mbstate Z).

(** ** One mailbox *)

(** The user's own: [usermboxname], or below it. *)
Definition own_mailbox (u : option bytes) (key : bytes) : bool :=
  match u with
  | Some u => starts_with key u && ((blen key =? blen u) || (default 0 (byte_at key (blen u)) =? DOT))
  | None => false
  end.

(** [namebuf]: the key, with INBOX in the place of the user. *)
Definition namebuf (rk : find_rock) (key : bytes) : result bytes :=
  if inboxoffset rk =? 0 then Ok key else
  if blen key <? inboxoffset rk + 5 then Fault OutOfBounds else Ok (wr key (inboxoffset rk) (take 5 (inboxcase rk))).

(** [strchr] in the data of an entry, which has a space there. *)
Definition past_space (s : bytes) : result bytes :=
  match chr_pos s 32 with Some i => Ok (from (i + 1) s) | None => Fault OutOfBounds end.

(** return non-zero if we like this one *)
Definition find_p (rk : find_rock) (key data : bytes) : result bool :=
  let mem := key ++ behind key ++ [0] in
  (* don't list mailboxes outside of the default domain *)
  if (r_domainlen rk =? 0) && negb (r_isadmin rk) && bool_decide (BANG ∈ mem) then Ok false else
  if negb (inboxoffset rk =? 0) && (MAX_MAILBOX_NAME + 1 <=? blen key) then Ok false else
  text ← (if inboxoffset rk =? 0 then Ok mem else n ← namebuf rk key; Ok (from (inboxoffset rk) n ++ [0]));
  '(matchlen, _) ← glob_test (r_glob rk) text (blen key - inboxoffset rk) (Some 0);
  (* If its not a match, skip it -- partial matches are ok. *)
  if matchlen =? -1 then Ok false else
  (* this would've been output with the inbox stuff, so skip it *)
  if negb (find_namespace rk =? NAMESPACE_INBOX) && own_mailbox (usermboxname rk) key then Ok false else
  (* this would've been output with the user stuff, so skip it *)
  if (find_namespace rk =? NAMESPACE_SHARED) && match r_namespace rk with Some ns => isalt ns | None => false end
     && starts_with (from (r_domainlen rk) mem) user_word
     && (let c := default 0 (byte_at mem (r_domainlen rk + 4)) in (c =? 0) || (c =? DOT)) then Ok false else
  (* check acl *)
  if r_isadmin rk then Ok true else
  part ← past_space data; acl ← past_space part; acl ← cstr (acl ++ [0]);
  rights ← myrights acl; Ok (has rights ACL_LOOKUP).

(** The matches in one name: all of it, and the mailboxes above it; the code, and
    [checkshared].  [minmatch] grows with every turn. *)
Fixpoint find_cb_loop (fuel : nat) (rk : find_rock) (key : bytes) (checkshared minmatch : Z) : Prog mbstate (Z * Z) :=
  match fuel with
  | O => mfault OutOfFuel
  | S fuel' =>
      if minmatch <? 0 then mret (0, checkshared) else
      if MAX_MAILBOX_NAME + 1 <=? blen key then mret (0, checkshared) else
      if negb (find_namespace rk =? NAMESPACE_INBOX) && own_mailbox (usermboxname rk) key then mret (0, checkshared) else
      (* make sure it's in the mailboxes db *)
      r ← (if checkmboxlist rk then '(r, _) ← mboxlist_lookup key; mret r else mret 0);
      name ← liftr (if r =? 0 then namebuf rk key else Ok key);
      '(matchlen, minmatch) ←
        liftr (glob_test (r_glob rk) (from (inboxoffset rk) name ++ [0]) (blen key - inboxoffset rk) (Some minmatch));
      if matchlen =? -1 then mret (0, checkshared) else
      let next := find_cb_loop fuel' rk key in
      let minmatch := default (-1) minmatch in
      if r =? 0 then
        (* found the entry; output it *)
        done ← (match r_namespace rk with
                | Some ns =>
                    if (find_namespace rk =? NAMESPACE_SHARED) && negb (checkshared =? 0) then
                      (* special case:  LIST "" *% -- output prefix *)
                      _ ← proc (prefix_shared ns) (blen (prefix_shared ns) - 1) true; mret (1 <? checkshared)
                    else mret false
                | None => mret false
                end);
        if (done : bool) then mret (CYRUSDB_DONE, checkshared) else
        r ← proc (from (inboxoffset rk) name) matchlen true;
        if negb (r =? 0) then mret (r, 0) else next 0 minmatch
      else if r =? IMAP_MAILBOX_NONEXISTENT then next checkshared minmatch (* didn't find the entry *)
      else mret (r, checkshared)
  end.
Definition find_cb (rk : find_rock) (key : bytes) (checkshared : Z) : Prog mbstate (Z * Z) :=
  find_cb_loop (S (S (length key))) rk key checkshared 0.

(** ** All of them *)

(** [DB->foreach(mbdb, prefix, prefixlen, &find_p, &find_cb, &cbrock, NULL)]: the code, and
    [checkshared].  The callback's rock is the process, but for the database. *)
Definition list_cb (rk : find_rock) (x : Z * mbstate) (key data : bytes) : M (Z * (Z * mbstate)) := λ s,
  '((r, cs), m) ← find_cb rk key x.1 (set_disk s x.2); Ok ((r, (cs, set_disk (disk x.2) m)), disk m).
Definition list_foreach (fuel : nat) (rk : find_rock) (checkshared : Z) (prefix : bytes) (prefixlen : Z) : Prog mbstate (Z * Z) := λ m,
  '((r, (cs, m')), s) ← db_foreach fuel (λ (_ : Z * mbstate) key data, find_p rk key data) (list_cb rk) prefix prefixlen (checkshared, m) (disk m);
  Ok ((r, cs), set_disk s m').

Definition SIZE : Z := MAX_MAILBOX_NAME + 1.

(** The pattern without a domain, [domainlen], [userlen] and [domainpat]; or a code. *)
Definition list_pattern (pattern : bytes) (userid : option bytes) : result (Z + bytes * Z * Z * bytes) :=
  let plain := snprint SIZE pattern in
  if negb config_virtdomains then Ok (inr (pattern, 0, blen (default [] userid), plain)) else
  let x := match userid with
    | Some u =>
        match rchr_pos u AT with
        | Some userlen =>
            let domain := from (userlen + 1) u in
            match chr_pos pattern BANG with
            | Some p =>
                (* don't allow cross-domain access *)
                if bool_decide (prec p pattern ≠ domain) then inl IMAP_MAILBOX_BADNAME
                else inr (from (p + 1) pattern, blen domain + 1, userlen, snprint SIZE (domain ++ [BANG] ++ from (p + 1) pattern))
            | None => inr (pattern, blen domain + 1, userlen, snprint SIZE (domain ++ [BANG] ++ pattern))
            end
        | None => inr (pattern, 0, blen u, [])
        end
    | None => inr (pattern, 0, 0, [])
    end in
  match x with
  | inl r => Ok (inl r)
  | inr (pattern, domainlen, userlen, domainpat) =>
      match rchr_pos pattern AT with
      | None => Ok (inr (pattern, domainlen, userlen, match domainpat with [] => snprint SIZE pattern | _ => domainpat end))
      | Some p =>
          (* global admin specified mbox@domain; can't do both user@domain and mbox@domain *)
          if negb (domainlen =? 0) then Ok (inl IMAP_MAILBOX_BADNAME) else
          let d := from (p + 1) pattern in let local := prec p pattern in
          '(domainlen, domainpat) ←
            (* don't prepend default domain *)
            (if match config_defdomain with Some dd => strcaseeq dd d | None => false end then Ok (0, snprint SIZE local)
             else if SIZE <? blen d + 1 then Fault OutOfBounds (* behind [domainpat] *)
             else Ok (blen d + 1, prec (SIZE - 1) (d ++ [BANG]) ++ snprint (SIZE - (blen d + 1)) local));
          Ok (inr (pattern, domainlen, userlen, match domainpat with [] => snprint SIZE pattern | _ => domainpat end))
      end
  end.

(** Build [usermboxname]; [None] for no user. *)
Definition user_box (userid : option bytes) (userlen domainlen : Z) : result (option bytes) :=
  match userid with
  | None => Ok None
  | Some u =>
      if match chr_pos u DOT with None => true | Some p => userlen <? p end && (blen u + 5 <? MAX_MAILBOX_NAME) then
        if domainlen =? 0 then Ok (Some (user_dot ++ prec userlen u)) else
        if blen u <=? userlen then Fault OutOfBounds (* [userid+userlen+1] is behind the NUL *)
        else Ok (Some (from (userlen + 1) u ++ [BANG] ++ user_dot ++ prec userlen u))
      else Ok None
  end.

(** [DB->fetch] of the INBOX, and [proc] when it is there. *)
Definition show_inbox (u name : bytes) (len : Z) (maycreate : bool) : Prog mbstate Z :=
  '(r, data, _) ← db (db_fetch u NoTid);
  if r =? 0 then match data with Some _ => proc name len maycreate | None => mret 0 end
  else mret (if r =? CYRUSDB_NOTFOUND then 0 else r).

(** Check for INBOX first of all. *)
Definition inbox_first (g : glob) (pattern : bytes) (domainlen : Z) (u : bytes) : Prog mbstate Z :=
  let ib := take 5 (inbox g) in let local := from domainlen u in
  i ← liftr (GLOB_TEST g (INBOX ++ [0]));
  if negb (i =? -1) then show_inbox u ib 5 true else
  if negb (starts_with pattern local) then mret 0 else
  j ← liftr (GLOB_TEST g (local ++ [0]));
  if negb (j =? -1) then show_inbox u u (blen u) true else mret 0.

(** The fixed-string prefix of a pattern. *)
Fixpoint fixed_prefix (p : bytes) : bytes :=
  match p with
  | c :: p' => if (c =? STAR) || (c =? PCT) || (c =? QUEST) || (c =? AT) then [] else c :: fixed_prefix p'
  | [] => []
  end.

(** If user.X.* or INBOX.* can match pattern, search for those mailboxes next. *)
Definition list_own (fuel : nat) (g : glob) (fixed domainpat : bytes) (domainlen userlen : Z) (u : bytes) (admin : bool) : Prog mbstate Z :=
  let named := starts_with fixed (from domainlen u) in
  let n := Z.min (blen fixed) 6 in
  if negb named && negb (bool_decide (map TOLOWER (prec n inbox_dot) = map TOLOWER (prec n fixed))) then mret 0 else
  (* switch to pattern with domain prepended *)
  g' ← (if named then liftr (glob_init (domainpat ++ [0]) GLOB_HIERARCHY) else mret g);
  let rk := Rock g' None NAMESPACE_INBOX domainlen (if named then 0 else domainlen + userlen) (inbox g) (Some (u ++ [DOT])) false admin in
  '(r, _) ← list_foreach fuel rk 0 (u ++ [DOT] ++ [0]) (blen u + 1); mret r.

(** search for all remaining mailboxes. *)
Definition list_rest (fuel : nat) (g : glob) (fixed domainpat : bytes) (domainlen : Z) (u : option bytes) (admin : bool) : Prog mbstate Z :=
  g' ← liftr (glob_init (domainpat ++ [0]) GLOB_HIERARCHY);
  let rk := Rock g' None NAMESPACE_USER domainlen 0 (inbox g) u false admin in
  '(r, _) ← list_foreach fuel rk 0 (domainpat ++ [0]) (domainlen + blen fixed); mret r.

(** Find all mailboxes that match 'pattern'. *)
Definition mboxlist_findall (fuel : nat) (pattern : bytes) (admin : bool) (userid : option bytes) : Prog mbstate Z :=
  x ← liftr (list_pattern pattern userid);
  match x with
  | inl r => mret r
  | inr (pattern, domainlen, userlen, domainpat) =>
      g ← liftr (glob_init (pattern ++ [0]) (Z.lor GLOB_HIERARCHY GLOB_INBOXCASE));
      u ← liftr (user_box userid userlen domainlen);
      r ← (match u with Some u => inbox_first g pattern domainlen u | None => mret 0 end);
      if negb (r =? 0) then mret r else
      let fixed := fixed_prefix pattern in
      r ← (match u with Some u => list_own fuel g fixed domainpat domainlen userlen u admin | None => mret 0 end);
      if negb (r =? 0) then mret r else
      list_rest fuel g fixed domainpat domainlen u admin
  end.

(** ** The alternate namespace *)

(** [userlen], [domainlen] and [domainpat]. *)
Definition alt_domain (userid : option bytes) : result (Z * Z * bytes) :=
  match (if config_virtdomains then userid else None) with
  | Some u =>
      match chr_pos u AT with
      | Some userlen =>
          let domain := from (userlen + 1) u in
          (* [domainpat + domainlen] is written to later *)
          if SIZE <? blen domain + 1 then Fault OutOfBounds
          else Ok (userlen, blen domain + 1, snprint SIZE (domain ++ [BANG]))
      | None => Ok (blen u, 0, [])
      end
  | None => Ok (blen (default [] userid), 0, [])
  end.

(** [strlcpy(domainpat+domainlen, s, sizeof(domainpat)-domainlen)] *)
Definition put_pattern (domain : bytes) (domainlen : Z) (s : bytes) : bytes := domain ++ snprint (SIZE - domainlen) s.

(** The length of a namespace's prefix without its separator, and whether the pattern can match it. *)
Definition prefix_len (prefix : bytes) : Z := Z.max 0 (blen prefix - 1).
Definition can_match (prefix pattern : bytes) (prefixlen : Z) : bool :=
  let n := Z.min prefixlen (prefix_len prefix) in bool_decide (prec n prefix = prec n pattern).

(** Skip pattern which matches shared namespace prefix. *)
Fixpoint skip_shared (p : bytes) : bytes :=
  match p with c :: p' => if c =? PCT then skip_shared p' else if c =? DOT then p' else p | [] => [] end.

(** Personal (INBOX) namespace; what [foreach] returns is not looked at. *)
Definition alt_own (fuel : nat) (pattern : bytes) (domainlen userlen : Z) (u : bytes) (ns : namespace) (admin : bool) : Prog mbstate unit :=
  g ← liftr (glob_init (snprint SIZE (INBOX ++ [DOT] ++ pattern) ++ [0]) (Z.lor GLOB_HIERARCHY GLOB_INBOXCASE));
  let rk := Rock g (Some ns) NAMESPACE_INBOX domainlen (domainlen + userlen) (inbox g) (Some (u ++ [DOT])) false admin in
  _ ← list_foreach fuel rk 0 (u ++ [DOT] ++ [0]) (blen u + 1); mret tt.

(** Other Users namespace. *)
Definition alt_users (fuel : nat) (pattern domain : bytes) (domainlen prefixlen : Z) (u : option bytes) (ns : namespace) (ib : bytes) (admin : bool) : Prog mbstate unit :=
  let prefix := prefix_user ns in
  if negb (can_match prefix pattern prefixlen) then mret tt else
  let pat := if prefixlen <? prefix_len prefix then put_pattern domain domainlen (from prefixlen pattern)
             else snprint SIZE (put_pattern domain domainlen user_word ++ from (prefix_len prefix) pattern) in
  g ← liftr (glob_init (pat ++ [0]) GLOB_HIERARCHY);
  let rk := Rock g (Some ns) NAMESPACE_USER domainlen 0 ib u false admin in
  let start := put_pattern domain domainlen user_word in
  _ ← list_foreach fuel rk 0 (start ++ [0]) (blen start); mret tt.

(** Shared namespace: search for all remaining mailboxes. *)
Definition alt_shared (fuel : nat) (pattern domain : bytes) (domainlen prefixlen : Z) (u : option bytes) (ns : namespace) (ib : bytes) (admin : bool) : Prog mbstate unit :=
  let prefix := prefix_shared ns in let len := prefix_len prefix in
  if negb (can_match prefix pattern prefixlen) then mret tt else
  let search (pat : bytes) (checkshared : Z) (start : bytes) (startlen : Z) : Prog mbstate unit :=
    g ← liftr (glob_init (pat ++ [0]) GLOB_HIERARCHY);
    let rk := Rock g (Some ns) NAMESPACE_SHARED domainlen 0 ib u false admin in
    _ ← list_foreach fuel rk checkshared (start ++ [0]) startlen; mret tt in
  if prefixlen <=? len then
    (* [domainpat[domainlen]] is written *)
    (if SIZE <=? domainlen then mfault OutOfBounds else mret tt);;
    let p := skip_shared (from prefixlen pattern) in
    (* special case:  LIST "" *% -- output prefix *)
    let special := negb (bool_decide (DOT ∈ pattern)) && (default 0 (list.last pattern) =? PCT) in
    if (special || (prefixlen =? len)) && bool_decide (p = []) then
      (* special case:  LIST "" % -- output prefix (if we have a shared mbox) and quit *)
      search (put_pattern domain domainlen [STAR]) 2 domain domainlen
    else search (put_pattern domain domainlen p) (if special then 1 else 0) domain domainlen
  else if default 0 (byte_at pattern len) =? DOT then
    let pat := put_pattern domain domainlen (from (len + 1) pattern) in
    search pat 0 pat (domainlen + prefixlen - (len + 1))
  else mret tt.

Definition mboxlist_findall_alt (fuel : nat) (ns : namespace) (pattern : bytes) (admin : bool) (userid : option bytes) : Prog mbstate Z :=
  '(userlen, domainlen, domain) ← liftr (alt_domain userid);
  g ← liftr (glob_init (pattern ++ [0]) (Z.lor GLOB_HIERARCHY GLOB_INBOXCASE));
  u ← liftr (user_box userid userlen domainlen);
  (* Check for INBOX first of all *)
  r ← (match u with
       | Some u =>
           i ← liftr (GLOB_TEST g (INBOX ++ [0]));
           if negb (i =? -1) then show_inbox u (take 5 (inbox g)) 5 false else mret 0
       | None => mret 0
       end);
  if negb (r =? 0) then mret r else
  let prefixlen := blen (fixed_prefix pattern) in
  (match u with Some u => alt_own fuel pattern domainlen userlen u ns admin | None => mret tt end);;
  alt_users fuel pattern domain domainlen prefixlen u ns (inbox g) admin;;
  alt_shared fuel pattern domain domainlen prefixlen u ns (inbox g) admin;;
  mret r.
End Find.
