(* ===== verification/MboxlistFiles.v ===== *)
(** * MboxlistFiles: deleting and renaming a mailbox

    [mboxlist_deletemailbox], and [mboxlist_renamemailbox] of a local mailbox, as
    functions of the list and the files, and that the code does what they say:
    what the files are opened with, and what happens when they cannot be,
    included. *)
From S2P Require Import Prelude CMem.
From stdpp Require Import gmap list.
From S2P Require Import CString Prog DbFile CyrusDb DbOrder BSearchProof Auth Acl AclSpec Mboxname MboxNames MboxPolicy.
From S2P Require Import Mboxlist MboxlistSpec MboxlistCreate MboxlistAcl.
#[local] Open Scope Z_scope.

Section Programs.
Context `{B : Backend} {BO : BackendOk B} {LD : ListDb BO} `{Si : Site} `{Ou : Outside} `{A : Auth}.
Implicit Types (m : mbstate) (L : gmap bytes mbent) (n : Z).

(** ** Deleting *)

(** The files are locked, unless the mailbox is remote. *)
Definition lock_files (name path : bytes) (mpath : option bytes) (e : mbent) (w : world) : Z * option mailbox * world :=
  if has (e_type e) MBTYPE_REMOTE then (0, None, w) else
  let '(c, mb, w) := mailbox_open_locked name path mpath (ent_acl e) w in (c, Some mb, w).
Definition remove_files (mb : option mailbox) (w : world) : Z * world :=
  match mb with Some mb => mailbox_delete mb w | None => (0, w) end.

(** What the caller may not delete: a mailbox that has not been made, or one without
    the right to; which refusal depends on whether it may be seen. *)
Definition delete_check (e : mbent) (isadmin checkacl own force : bool) : option Z :=
  if negb (has (e_type e) MBTYPE_REMOTE) && has (e_type e) MBTYPE_RESERVE && negb force then Some IMAP_MAILBOX_RESERVED
  else
    let access := if checkacl then rights_on (e_acl e) else ACL_DELETEMBOX in
    if has access ACL_DELETEMBOX then None else
    Some (if (own && has config_implicitrights ACL_ADMIN) || isadmin || has access ACL_LOOKUP then IMAP_PERMISSION_DENIED
          else IMAP_MAILBOX_NONEXISTENT).

(** The world after a refusal in a transaction: by force, the annotations go all the same. *)
Definition refused (name : bytes) (force : bool) (w : world) : world := if force then annotatemore_delete name w else w.

(** The code, whether the entry is gone, and the world. *)
Definition delete_result L (name : bytes) (isadmin : bool) (userid : option bytes) (checkacl own force : bool) (w : world) : Z * bool * world :=
  if negb isadmin && force then (IMAP_PERMISSION_DENIED, false, w) else
  match delete_forbidden name isadmin userid with
  | Some c => (c, false, w)
  | None =>
      match L !! name with
      | None => (IMAP_MAILBOX_NONEXISTENT, false, refused name force w)
      | Some e =>
          match entry_path name e with
          | inl c => (c, false, refused name force w)
          | inr (path, mpath) =>
              match delete_check e isadmin checkacl own force with
              | Some c => (c, false, refused name force w)
              | None =>
                  let '(c, mb, w) := lock_files name path mpath e w in
                  if negb (c =? 0) && negb force then (c, false, w) else
                  let '(c, w) := remove_files mb w in (c, true, w)
              end
          end
      end
  end.

Section Delete.
Context (Hsolo : config_mupdate_server = false).

Lemma wp_finish_delete name force r tid Q m L n :
  Open m L n tid → begun (Some None) tid → r ≠ 0 → n + LIST_COST < DB_LIMIT →
  (∀ m', Holds m' L (n + LIST_COST) → outer m' = refused name force (outer m) → Q r m') → wp (finish_delete name force r tid) Q m.
Proof using LD.
  intros [HL Ho] [t ->] Hr%Z.eqb_neq Hn HQ. unfold finish_delete. rewrite Hr. cbn [negb andb].
  pose proof end_cost_le as Hend.
  destruct force; cbn [negb].
  - apply wp_bind, wp_db. eapply wp_mono; [eapply db_committed; [apply db_reading_during, Ho|lia]|]. intros a s [_ Hh].
    repeat wstep. apply HQ; [|done]. split; [done|]. eapply db_holds_mono; [exact Hh|lia].
  - apply wp_bind, wp_db. eapply wp_mono; [apply db_aborted, Ho|]. intros a s [_ Hh].
    repeat wstep. apply HQ; [|done]. split; [done|]. eapply db_holds_mono; [exact Hh|unfold LIST_COST; lia].
Qed.

Lemma wp_delete_files name e local_only force mb tid Q m L n :
  Open m L n tid → begun (Some None) tid → L !! name = Some e → n + LIST_COST < DB_LIMIT →
  (mb = None ↔ has (e_type e) MBTYPE_REMOTE = true) →
  (∀ m', Holds m' (delete name L) (n + LIST_COST) → outer m' = (remove_files mb (outer m)).2 → Q (Some (remove_files mb (outer m)).1) m') →
  wp (delete_files name local_only force (has (e_type e) MBTYPE_REMOTE) mb tid) Q m.
Proof using LD Hsolo.
  intros Ho [t ->] He Hn Hmb HQ. unfold delete_files. apply wp_bind.
  eapply wp_delete_txn; [exact Ho|by eexists|done|]. intros s t' Hd. change (0 =? CYRUSDB_AGAIN) with false. cbn [Z.eqb negb andb].
  apply wp_bind. eapply wp_commit_tid; [exact Hd|done|]. intros s' Hs'. cbn [Z.eqb negb andb orb]. rewrite Hsolo, !andb_false_r.
  wstep. cbn [orb negb andb Z.eqb]. destruct (has (e_type e) MBTYPE_REMOTE) eqn:Hrem.
  - rewrite (proj2 Hmb eq_refl) in *. wstep. by apply HQ.
  - destruct mb as [mb|]; [|by specialize (proj1 Hmb eq_refl)]. apply wp_bind, wp_out. wstep. by apply HQ.
Qed.

(** [mboxlist_deletemailbox] does what [delete_result] says. *)
Lemma wp_delete retries name isadmin userid checkacl local_only force own m L n :
  Holds m L n → list_key name → n + LIST_COST < DB_LIMIT → owns userid name = Ok own →
  wp (mboxlist_deletemailbox (S retries) name isadmin userid checkacl local_only force (Some None)) (λ r m',
    let '(c, gone, w) := delete_result L name isadmin userid checkacl own force (outer m) in
    r = c ∧ outer m' = w ∧ Holds m' (if gone then delete name L else L) (n + LIST_COST)) m.
Proof using LD Hsolo.
  intros Hh Hk Hn Hown. cbn [mboxlist_deletemailbox]. unfold delete_result. pose proof Hn as Hn'. unfold LIST_COST, DB_LIMIT in Hn'.
  assert (Holds m L (n + LIST_COST)) as Hh' by (eapply Holds_mono; [exact Hh|unfold LIST_COST; lia]).
  destruct (negb isadmin && force); [by wstep|]. destruct (delete_forbidden name isadmin userid) as [c|]; [by wstep|].
  apply wp_bind. eapply wp_mono; [apply (wp_mylookup name all_wanted (Some None) m L n); [done|done|unfold DB_LIMIT; lia]|].
  intros [[r f] tid] m1 (Ho & Ht & [Hl _] & Hr).
  assert (∀ c Q, c ≠ 0 → (∀ m', outer m' = refused name force (outer m) → Holds m' L (n + LIST_COST) → Q c m') →
    wp (finish_delete name force c tid) Q m1) as Hfin.
  { intros c Q Hc HQ. eapply wp_finish_delete; [exact Ho|done|done|done|]. intros m' Hm' Ho'. apply HQ; [congruence|done]. }
  destruct (L !! name) as [e|] eqn:He.
  2:{ subst r. change (IMAP_MAILBOX_NONEXISTENT =? IMAP_AGAIN) with false. change (IMAP_MAILBOX_NONEXISTENT =? 0) with false. cbv iota. cbn [negb].
      by apply Hfin. }
  destruct Hr as [-> Hs]. unfold path_code in *. change (w_path all_wanted) with true in *. cbv iota in *.
  destruct (entry_path name e) as [c|[path mpath]] eqn:Hp.
  { pose proof (entry_path_error _ _ _ Hp) as Hc. rewrite (proj2 (Z.eqb_neq c IMAP_AGAIN)) by by eapply entry_path_again.
    rewrite (proj2 (Z.eqb_neq c 0)) by done. cbn [negb]. by apply Hfin. }
  destruct (Hs eq_refl) as (Hty & _ & Hacl & Hpaths). rewrite Hty. change (0 =? IMAP_AGAIN) with false. cbn [Z.eqb negb].
  unfold delete_check. destruct (negb (has (e_type e) MBTYPE_REMOTE) && has (e_type e) MBTYPE_RESERVE && negb force); [by apply Hfin|].
  destruct (proj1 (map_Forall_lookup _ _) (proj1 Hh) _ _ He) as [_ (_ & _ & Hacok)].
  apply wp_bind. eapply wp_reads; [by apply Hacl|]. apply wp_bind.
  apply wp_mono with (P := λ access m', access = (if checkacl then rights_on (e_acl e) else ACL_DELETEMBOX) ∧ m' = m1).
  { destruct checkacl; [|by wstep]. eapply wp_liftr; [by apply myrights_on|done]. }
  intros access m' [-> ->]. set (access := if checkacl then _ else _). destruct (has access ACL_DELETEMBOX); cbn [negb].
  2:{ apply wp_bind. eapply wp_liftr; [exact Hown|]. destruct (own && has config_implicitrights ACL_ADMIN), isadmin, (has access ACL_LOOKUP); by apply Hfin. }
  destruct (Hpaths path mpath eq_refl Hp) as (Hp1 & Hp2 & _). apply wp_bind. eapply wp_reads; [exact Hp1|].
  apply wp_bind. eapply wp_reads; [exact Hp2|]. change (if w_mpath all_wanted then mpath else None) with mpath.
  apply wp_bind. destruct (lock_files name path mpath e (outer m)) as [[c mb] w] eqn:Elock.
  apply wp_mono with (P := λ x m', x = (c, mb) ∧ m' = set_outer w m1 ∧ (mb = None ↔ has (e_type e) MBTYPE_REMOTE = true)).
  { unfold lock_files in Elock. destruct (has (e_type e) MBTYPE_REMOTE).
    - injection Elock as <- <- <-. wstep. split; [done|]. split; [by rewrite <- Hl; destruct m1|done].
    - apply wp_bind, wp_out. rewrite Hl. destruct (mailbox_open_locked _ _ _ _ _) as [[c0 mb0] w0]. injection Elock as <- <- <-.
      cbn [fst snd]. by wstep. }
  intros x m2 (-> & -> & Hmb). destruct (negb (c =? 0) && negb force) eqn:Hlock.
  { apply andb_true_iff in Hlock as [Hc%negb_true_iff%Z.eqb_neq Hf%negb_true_iff]. subst force.
    eapply (wp_finish_delete name false c tid _ (set_outer w m1)); [exact Ho|done|done|done|]. intros m' Hm' Ho'. split; [done|]. split; [done|done]. }
  apply wp_bind. eapply (wp_delete_files name e); [exact Ho|done|done|done|done|]. intros m' Hm' Hw. wstep.
  change (outer (set_outer w m1)) with w in *. destruct (remove_files mb w) as [c' w']. by cbn in *.
Qed.
End Delete.

(** ** Renaming *)

(** A store in a transaction that has changed the list. *)
Lemma wp_store_during k e t Q m L0 L n :
  During m L0 L n t → list_key k → ent_ok e → n + LIST_COST < DB_LIMIT →
  (∀ s t, During (set_disk s m) L0 (<[k := e]> L) (n + LIST_COST) t → Q (0, Some (Some t)) (set_disk s m)) →
  wp (store_entry k (e_type e) (e_part e) (ent_acl e) (Some (Some t))) Q m.
Proof using LD.
  intros (HL & n' & Hn' & Hd) Hk He Hn HQ. destruct (list_store k (ent_data e) (lines_of L) Hk (ent_data_ok e He)) as [Hok Hcost].
  pose proof db_end_cost_nonneg. pose proof (db_cost_nonneg (OStore k (ent_data e))). unfold LIST_COST in *.
  unfold store_entry. apply wp_bind, wp_db. cbn [tid_arg].
  pose proof (db_go_on _ _ _ _ _ _ Hd Hok ltac:(lia)) as H'. rewrite spec_entry_store in H'. cbn [snd fst] in H'.
  apply wp_ok in H' as (a & s & E & t' & -> & Hd'). unfold call, mbind, Prog_bind in E. fold (ent_data e) in *.
  destruct (db_store k (ent_data e) (OldTid t) (disk m)) as [[[r t1] s1]|] eqn:Ep; [|done]. injection E as -> -> ->.
  eapply wp_intro; [exact Ep|]. apply wp_ret, HQ. split; [by apply list_ok_insert|]. eexists. split; [|exact Hd']. lia.
Qed.

Section Rename.
Context L (HL : list_ok L).
Context (oldname newname : bytes) (partition : option bytes) (userid : option bytes) (isadmin force own : bool).
Context (bad : Z) (above : option mbent) (top : option table).
Context (Hold : list_key oldname) (Hkey : list_key newname) (Hlen : blen newname ≤ MAX_MAILBOX_NAME).
Context (Hbad : mboxname_policycheck unixhierarchysep (local_name newname ++ [0]) = Ok bad).
Context (Hown : owns userid newname = Ok own).
Context (Hnear : nearest L newname above).
Context (Htop : top_acl newname (local_name newname) force = Ok (encode <$> top)).
Context (Hdef : blen config_defpartition ≤ MAX_PARTITION_LEN).
Context (Hsolo : config_mupdate_server = false).
Context (Hpart : ∀ p, partition = Some p → place_ok p) (Hdefok : place_ok config_defpartition).
Context (Hacl : ∀ acl, top = Some acl → acl_ok acl).

(** What is done to the files and to the list, when all checks are passed.  The files are opened
    with the list that the buffer shows now: that of the mailbox above the new
    name, if there is one.  A mailbox whose files cannot be opened is renamed
    without them. *)
Definition rename_done (e : mbent) (path : bytes) (mpath : option bytes) (part : bytes) (isuser move : bool) (w : world) :
    Z * gmap bytes mbent * world :=
  let shown := if move then ent_acl e else from_option ent_acl (ent_acl e) above in
  let new := <[newname := Ent (e_type e) part (e_acl e)]> (if isuser then L else delete oldname L) in
  let '(c, mb, w) := mailbox_open_locked oldname path mpath shown w in
  if c =? 0 then
    let '(c, nmb, w) := mailbox_rename_copy mb newname part w in
    if c =? 0 then (0, new, mailbox_close mb (mailbox_rename_cleanup mb isuser (mailbox_close nmb w)))
    else (c, L, mailbox_close mb w)
  else (0, new, mailbox_close mb (mailbox_rename_cleanup mb isuser w)).

(** The code, the list, and the world. *)
Definition rename_result (w : world) : Z * gmap bytes mbent * world :=
  match L !! oldname with
  | None => (IMAP_MAILBOX_NONEXISTENT, L, w)
  | Some e =>
      match entry_path oldname e with
      | inl c => (c, L, w)
      | inr (path, mpath) =>
          if has (e_type e) MBTYPE_RESERVE then (IMAP_MAILBOX_RESERVED, L, w) else
          match rename_rights oldname newname partition isadmin userid (e_type e) path (ent_acl e) with
          | Fault _ => (0, L, w)
          | Ok (c, isuser, move) =>
              if negb (c =? 0) then (c, L, w)
              else if has (e_type e) MBTYPE_MOVING then (IMAP_MAILBOX_NOTSUPPORTED, L, w)
              else if negb move && negb (rename_target oldname newname isadmin =? 0) then (rename_target oldname newname isadmin, L, w)
              else match (if move then inr ([], default [] partition)
                          else create_check L newname partition isadmin false force own bad above top) with
                   | inl c => (c, L, w)
                   | inr (_, part) => rename_done e path mpath part isuser move w
                   end
          end
      end
  end.

Lemma wp_fail r na np tid v Q m n :
  Open m L n tid → r ≠ 0 → v = no_vars → (∀ m', Holds m' L n → outer m' = outer m → Q r m') →
  wp (finish_rename oldname newname false false r np na tid v) Q m.
Proof using Hsolo.
  intros Ho Hr%Z.eqb_neq -> HQ. unfold finish_rename. rewrite Hr. cbn [negb no_vars newreserved madenew handle newmailbox oldmailbox].
  apply wp_bind, wp_bind. unfold undo_create. apply wp_bind. eapply wp_abort_tid; [exact Ho|]. intros s Hs. do 2 wstep.
  rewrite Hr, Hsolo. cbn [andb]. wstep. rewrite Hr. cbn [andb]. repeat wstep. by apply HQ.
Qed.
(** The end of a rename whose files have been opened: the entries. *)
Lemma wp_entries (retry : tidref → rename_vars → Prog mbstate Z) (e : mbent) (part : bytes) (isuser move : bool) (mb : mailbox) (nmb : option mailbox) (Q : Z → mbstate → Prop) m n L1 :
  Holds m L1 n → is_Some (L1 !! oldname) → ent_ok e → place_ok part → n + 2 * LIST_COST < DB_LIMIT →
  (∀ m', Holds m' (<[newname := Ent (e_type e) part (e_acl e)]> (if isuser then L1 else delete oldname L1)) (n + 2 * LIST_COST) →
     outer m' = mailbox_close mb (mailbox_rename_cleanup mb isuser (close_header nmb (outer m))) → Q 0 m') →
  wp ('(r, tid) ← rename_entries oldname newname isuser (e_type e) part (ent_acl e) (Some None) (Vars (negb move) false None (Some mb) nmb);
      match r with
      | None => retry tid (Vars (negb move) false None (Some mb) nmb)
      | Some r => finish_rename oldname newname isuser move r part (ent_acl e) tid (Vars (negb move) false None (Some mb) nmb)
      end) Q m.
Proof using LD Hkey Hsolo.
  intros Hh Hsome He Hp Hn HQ. unfold LIST_COST, DB_LIMIT in Hn.
  set (e' := Ent (e_type e) part (e_acl e)). assert (ent_ok e') as He' by (split_and!; [apply He|apply Hp..|apply He]).
  assert (∀ s t, During (set_disk s m) L1 (<[newname := e']> (if isuser then L1 else delete oldname L1)) (n + 2 * LIST_COST) t →
    wp (finish_rename oldname newname isuser move 0 part (ent_acl e) (Some (Some t)) (Vars (negb move) false None (Some mb) nmb)) Q (set_disk s m)) as Hfin.
  { intros s t Hd. unfold finish_rename. cbn [Z.eqb negb]. apply wp_bind, wp_bind. eapply wp_commit_tid; [exact Hd|unfold LIST_COST, DB_LIMIT; lia|].
    intros s' Hs'. wstep. cbn [Z.eqb andb handle oldmailbox newmailbox]. rewrite Hsolo. wstep. cbn [Z.eqb andb]. rewrite !andb_false_r. wstep.
    apply wp_bind. destruct nmb as [nmb|]; repeat wstep; cbn [Z.eqb]; repeat wstep; by apply HQ. }
  unfold rename_entries. apply wp_bind, wp_bind. destruct isuser.
  - wstep. change (0 =? CYRUSDB_AGAIN) with false. cbn [Z.eqb negb]. apply wp_bind.
    eapply (wp_store_txn newname e'); [exact Hh|done|done|unfold LIST_COST, DB_LIMIT; lia|]. intros s t Hd.
    change (0 =? CYRUSDB_AGAIN) with false. cbn [Z.eqb]. wstep. apply Hfin. destruct Hd as (H1 & n' & H2 & H3). split; [done|]. exists n'.
    split; [unfold LIST_COST in *; lia|done].
  - eapply wp_delete_txn; [exact Hh|done|unfold LIST_COST, DB_LIMIT; lia|]. intros s t Hd.
    change (0 =? CYRUSDB_AGAIN) with false. cbn [Z.eqb negb]. apply wp_bind.
    eapply (wp_store_during newname e'); [exact Hd|done|done|unfold LIST_COST, DB_LIMIT; lia|]. intros s' t' Hd'.
    change (0 =? CYRUSDB_AGAIN) with false. cbn [Z.eqb]. wstep. apply (Hfin s' t'). replace (n + 2 * LIST_COST) with (n + LIST_COST + LIST_COST) by lia. done.
Qed.

(** A copy that failed: the reserved name goes. *)
Lemma wp_copy_failed (c : Z) (part na : bytes) (move : bool) (mb : mailbox) (Q : Z → mbstate → Prop) m n L1 :
  Holds m L1 n → c ≠ 0 → (move = false → is_Some (L1 !! newname)) → n + LIST_COST < DB_LIMIT →
  (∀ m', Holds m' (if move then L1 else delete newname L1) (n + LIST_COST) → outer m' = mailbox_close mb (outer m) → Q c m') →
  ∀ isuser, wp (finish_rename oldname newname isuser move c part na (Some None) (Vars (negb move) false None (Some mb) None)) Q m.
Proof using LD Hsolo.
  intros Hh Hc%Z.eqb_neq Hsome Hn HQ isuser. unfold finish_rename. rewrite Hc. cbn [negb newreserved madenew handle newmailbox oldmailbox].
  apply wp_bind, wp_bind. unfold undo_create. cbn [abort_tid]. wstep. apply wp_bind.
  apply wp_mono with (P := λ _ m', ∃ s, m' = set_disk s m ∧ Holds m' (if move then L1 else delete newname L1) (n + LIST_COST)).
  { destruct move; cbn [negb].
    - wstep. exists (disk m). split; [by destruct m|]. eapply Holds_mono; [exact Hh|unfold LIST_COST; lia].
    - apply wp_bind. eapply wp_delete_alone; [exact Hh|by apply Hsome|done|]. intros s Hs. wstep. by exists s. }
  intros _ m' (s & -> & Hs). rewrite Hsolo. cbn [andb]. do 2 wstep. rewrite Hc. cbn [andb]. wstep. rewrite Hc. cbn [andb]. do 3 wstep.
  apply wp_bind. rewrite Hc. repeat wstep. by apply HQ.
Qed.
Lemma put_back o k x y : <[k := x]> (delete o (<[k := y]> L)) = <[k := x]> (delete o L).
Proof using.
  apply map_eq. intros i. destruct (decide (i = k)) as [->|Hk]; [by rewrite !lookup_insert_eq|].
  rewrite !(lookup_insert_ne _ k) by done. destruct (decide (i = o)) as [->|Ho]; [by rewrite !lookup_delete_eq|].
  by rewrite !lookup_delete_ne, lookup_insert_ne by done.
Qed.

(** The files, once the new name is reserved. *)
Lemma wp_rename_rest retry f e path mpath part (isuser move : bool) m n :
  let L1 := if move then L else <[newname := Ent (Z.lor (e_type e) MBTYPE_RESERVE) part (e_acl e)]> L in
  let shown := if move then ent_acl e else from_option ent_acl (ent_acl e) above in
  let v := Vars (negb move) false None None None in
  Holds m L1 n → L !! oldname = Some e → ent_ok e → has (e_type e) MBTYPE_REMOTE = false → place_ok part →
  (move = false → L !! newname = None) → n + 2 * LIST_COST < DB_LIMIT →
  f_type f = e_type e → read_path f m = Ok (path, m) → read_mpath f m = Ok (mpath, m) → read_acl f m = Ok (shown, m) →
  wp ('(r, over, v) ← rename_files oldname newname move f part v;
      if (over : bool) then finish_rename oldname newname isuser move r part (ent_acl e) (Some None) v else
      '(r, tid) ← rename_entries oldname newname isuser (e_type e) part (ent_acl e) (Some None) v;
      match r with
      | None => retry tid v
      | Some r => finish_rename oldname newname isuser move r part (ent_acl e) tid v
      end) (λ r m', let '(c, L', w) := rename_done e path mpath part isuser move (outer m) in
        r = c ∧ outer m' = w ∧ Holds m' L' (n + 2 * LIST_COST)) m.
Proof using LD Hkey Hsolo.
  intros L1 shown v Hh He Heok Hrem Hp Hnew Hn Hty Hp1 Hp2 Ha. unfold rename_files, rename_done. fold shown. rewrite Hsolo, Hty, Hrem.
  assert (is_Some (L1 !! oldname)) as Hsome.
  { subst L1. destruct move; [by eexists|]. destruct (decide (oldname = newname)) as [E|];
      [rewrite E, lookup_insert_eq; by eexists|rewrite lookup_insert_ne by done; by eexists]. }
  assert (∀ x, <[newname := x]> (if isuser then L1 else delete oldname L1) = <[newname := x]> (if isuser then L else delete oldname L)) as HL1.
  { intros x. subst L1. destruct move, isuser; [done..|apply insert_insert_eq|apply put_back]. }
  apply wp_bind, wp_bind. wstep. cbn [Z.eqb negb]. apply wp_bind. eapply wp_reads; [exact Hp1|]. apply wp_bind. eapply wp_reads; [exact Hp2|].
  apply wp_bind. eapply wp_reads; [exact Ha|]. apply wp_bind, wp_out.
  destruct (mailbox_open_locked oldname path mpath shown (outer m)) as [[c mb] w1]. cbn [fst snd newreserved madenew handle newmailbox v].
  destruct (c =? 0) eqn:Hc; cbn [negb andb].
  - apply wp_bind, wp_out. cbn [outer set_outer]. destruct (mailbox_rename_copy mb newname part w1) as [[c2 nmb] w2]. cbn [fst snd].
    destruct (c2 =? 0) eqn:Hc2; cbn [negb].
    + wstep. eapply (wp_entries retry e part isuser move mb (Some nmb)); [exact Hh|done..|].
      intros m' Hm' Hw. rewrite HL1 in Hm'. done.
    + wstep. apply Z.eqb_neq in Hc2. unfold LIST_COST, DB_LIMIT in Hn.
      eapply wp_copy_failed; [exact Hh|done| |unfold LIST_COST, DB_LIMIT; lia|].
      { intros ->. subst L1. rewrite lookup_insert_eq. by eexists. }
      intros m' Hm' Hw. split; [done|]. split; [done|]. eapply Holds_mono; [|instantiate (1 := n + LIST_COST); unfold LIST_COST; lia].
      subst L1. destruct move; [done|]. by rewrite delete_insert_id in Hm' by auto.
  - wstep. eapply (wp_entries retry e part isuser move mb None); [exact Hh|done..|]. intros m' Hm' Hw. rewrite HL1 in Hm'. done.
Qed.

(** [mboxlist_renamemailbox] does what [rename_result] says, to a local mailbox, when no list is
    too long for the buffer. *)
Lemma wp_renamemailbox retries m n :
  Holds m L n → n + 3 * LIST_COST < DB_LIMIT → lists_fit m L →
  (∀ e, L !! oldname = Some e → 0 ≤ e_type e < 16 ∧ has (e_type e) MBTYPE_REMOTE = false ∧
     ∀ path mpath, entry_path oldname e = inr (path, mpath) →
       ∃ x, rename_rights oldname newname partition isadmin userid (e_type e) path (ent_acl e) = Ok x) →
  wp (mboxlist_renamemailbox (S retries) oldname newname partition isadmin userid force) (λ r m',
    let '(c, L', w) := rename_result (outer m) in r = c ∧ outer m' = w ∧ Holds m' L' (n + 3 * LIST_COST)) m.
Proof using All.
  intros Hh Hn Hfit Hlocal. unfold mboxlist_renamemailbox, rename_result. cbn [mboxlist_rename]. unfold LIST_COST, DB_LIMIT in Hn.
  apply wp_bind. eapply wp_mono; [apply (wp_mylookup oldname all_wanted (Some None) m L n); [done|done|unfold DB_LIMIT; lia]|].
  intros [[r f] tid] m1 (Ho & Ht & [Hl Hg] & Hr). destruct (Hg Hfit) as [Hgen Hsize].
  assert (∀ c na np Q, c ≠ 0 → (∀ m', outer m' = outer m → Holds m' L (n + 3 * LIST_COST) → Q c m') →
    wp (finish_rename oldname newname false false c np na tid no_vars) Q m1) as Hfail.
  { intros c na np Q Hc HQ. eapply wp_fail; [exact Ho|done|done|]. intros m' Hm' Ho'. apply HQ; [congruence|].
    eapply Holds_mono; [exact Hm'|unfold LIST_COST; lia]. }
  destruct (L !! oldname) as [e|] eqn:He.
  2:{ subst r. change (IMAP_MAILBOX_NONEXISTENT =? IMAP_AGAIN) with false. change (IMAP_MAILBOX_NONEXISTENT =? 0) with false. cbn [negb].
      by apply Hfail. }
  destruct (Hlocal e eq_refl) as (Hty & Hrem & Hrights). destruct (proj1 (map_Forall_lookup _ _) HL _ _ He) as [_ Heok].
  destruct Hr as [-> Hs]. unfold path_code in *. change (w_path all_wanted) with true in *. cbv iota in *.
  destruct (entry_path oldname e) as [c|[path mpath]] eqn:Hp.
  { pose proof (entry_path_error _ _ _ Hp) as Hc. rewrite (proj2 (Z.eqb_neq c IMAP_AGAIN)) by by eapply entry_path_again.
    rewrite (proj2 (Z.eqb_neq c 0)) by done. cbn [negb]. by apply Hfail. }
  destruct (Hs eq_refl) as (Htype & _ & Hacl1 & Hpaths). rewrite Htype. change (0 =? IMAP_AGAIN) with false. cbn [Z.eqb negb].
  destruct (Hpaths path mpath eq_refl Hp) as (Hp1 & Hp2 & Hp3). specialize (Hp3 Hrem). specialize (Hacl1 eq_refl).
  change (if w_mpath all_wanted then mpath else None) with mpath in Hp2.
  destruct (has (e_type e) MBTYPE_RESERVE) eqn:Hres; [by apply Hfail|].
  apply wp_bind. eapply wp_reads; [exact Hacl1|]. apply wp_bind. eapply wp_reads; [exact Hp1|].
  destruct (Hrights path mpath eq_refl) as [[[c isuser] move] Hrr]. rewrite Hrr. apply wp_bind. eapply wp_liftr; [reflexivity|]. cbv beta iota zeta.
  destruct (c =? 0) eqn:Hc; cbn [negb]; [|apply Z.eqb_neq in Hc; by apply Hfail].
  destruct (has (e_type e) MBTYPE_MOVING) eqn:Hmv; [by apply Hfail|].
  assert (((if move then 0 else rename_target oldname newname isadmin) =? 0) =
    negb (negb move && negb (rename_target oldname newname isadmin =? 0))) as Htgt by (destruct move; [done|]; cbn [negb andb]; by rewrite negb_involutive).
  rewrite Htgt. destruct (negb move && negb (rename_target oldname newname isadmin =? 0)) eqn:Ht2; cbn [negb].
  { apply andb_true_iff in Ht2 as [->%negb_true_iff Ht2%negb_true_iff%Z.eqb_neq]. by apply Hfail. }
  assert (decided bad) as Hdec by (eapply policy_decided; [by apply list_key_cstring|done]).
  apply wp_bind. destruct move.
  - wstep. change (0 =? IMAP_AGAIN) with false. cbn [Z.eqb negb]. wstep. cbn [Z.eqb negb]. apply wp_bind.
    destruct Ht as [t ->]. pose proof end_cost_le. eapply wp_db, wp_mono; [eapply db_committed; [apply db_reading_during, Ho|unfold DB_LIMIT, LIST_COST in *; lia]|].
    intros a s [_ Hh']. set (m2 := set_disk s m1).
    assert (Holds m2 L (n + LIST_COST)) as Hh2 by (split; [done|]; eapply db_holds_mono; [exact Hh'|lia]).
    destruct (read_acl_later f m1 m2 (ent_acl e) Hacl1 eq_refl) as [Hbuf Hacl2].
    eapply wp_mono; [apply (wp_rename_rest (mboxlist_rename retries oldname newname partition isadmin userid force) f e path mpath
      (default [] partition) isuser true m2 (n + LIST_COST)); try done|].
    + destruct partition as [p|]; [by apply Hpart|]. by apply (bool_decide_unpack _); vm_compute.
    + unfold LIST_COST, DB_LIMIT; lia.
    + by eapply (read_path_same f f m1).
    + by eapply (read_mpath_same f f m1).
    + rewrite Hacl2. change (acl_buf m2) with (acl_buf m1). by rewrite Hbuf.
    + intros r m'. change (outer m2) with (outer m1). rewrite Hl. destruct (rename_done _ _ _ _ _ _ _) as [[c' L'] w]. cbn [default from_option id].
      by replace (n + LIST_COST + 2 * LIST_COST) with (n + 3 * LIST_COST) by lia.
  - eapply wp_mono; [apply (wp_check L HL newname partition userid isadmin false force own bad above top Hkey Hlen Hbad Hown Hnear Htop Hdef tid m1 n);
      [exact Ho|unfold DB_LIMIT; lia]|].
    intros [[r x] tid2] m2 (Ho2 & _ & [Hl2 Hg2] & Hr).
    pose proof (create_check_code L newname partition isadmin false force own bad above top) as Hcode.
    pose proof (new_ent_ok L HL newname partition isadmin false force own bad above top Hnear Htop Hpart Hdefok Hacl) as Hnew.
    destruct (create_check L newname partition isadmin false force own bad above top) as [c'|[acl part]].
    { destruct Hr as [-> ->]. destruct (Hcode c' Hdec eq_refl) as [H0 H1]. rewrite (proj2 (Z.eqb_neq c' IMAP_AGAIN)), (proj2 (Z.eqb_neq c' 0)) by done.
      cbn [negb]. eapply wp_fail; [exact Ho2|done|done|]. intros m' Hm' Hw. split; [done|]. split; [congruence|].
      eapply Holds_mono; [exact Hm'|unfold LIST_COST; lia]. }
    destruct Ht as [t0 ->]. destruct Hr as (-> & -> & [t Ht3] & (Hk1 & Hk2 & Hk3)). destruct (Hnew acl part eq_refl) as (Hpok & _ & HLn).
    change (0 =? IMAP_AGAIN) with false. cbn [Z.eqb negb]. apply wp_bind. subst tid2.
    eapply (wp_store_txn newname (Ent (Z.lor (e_type e) MBTYPE_RESERVE) part (e_acl e)));
      [exact Ho2|done|split_and!; [by apply reserved_type|apply Hpok..|apply Heok]|unfold LIST_COST, DB_LIMIT; lia|].
    intros s t' Hd. cbn [Z.eqb negb]. apply wp_bind. eapply wp_commit_tid; [exact Hd|unfold LIST_COST, DB_LIMIT; lia|].
    intros s' Hs'. set (m3 := set_disk s' (set_disk s m2)).
    destruct (Hg2 ltac:(intros k x Hx; rewrite Hsize; by eapply Hfit)) as [Hgen2 _].
    destruct (read_acl_later f m1 m3 (ent_acl e) Hacl1 Hgen2) as [Hbuf Hacl2].
    eapply wp_mono; [apply (wp_rename_rest (mboxlist_rename retries oldname newname partition isadmin userid force) f e path mpath
      part isuser false m3 (n + LIST_COST)); try done|].
    + unfold LIST_COST, DB_LIMIT; lia.
    + unfold read_path, get in *. rewrite Hp3 in *. change (pathresult m3) with (pathresult m2). rewrite Hk1. by injection Hp1 as ->.
    + by eapply (read_mpath_same f f m1).
    + rewrite Hacl2. change (acl_buf m3) with (acl_buf m2). rewrite Hk3. by destruct above; cbn; rewrite ?Hbuf.
    + intros r m'. change (outer m3) with (outer m2). rewrite Hl2, Hl. destruct (rename_done _ _ _ _ _ _ _) as [[c' L'] w].
      by replace (n + LIST_COST + 2 * LIST_COST) with (n + 3 * LIST_COST) by lia.
Qed.
End Rename.
End Programs.
