(* ===== verification/MboxlistListing.v ===== *)
(** * MboxlistListing: what LIST shows

    [mboxlist_findall] for a caller that does no more than write down what it is shown: the
    calls it gets, in terms of the list and of the language of the pattern.
    First one mailbox ([find_p], [find_cb]), then all that have a prefix
    ([DB->foreach]), then the three parts of the search: the INBOX, the
    mailboxes of the user, and the others. *)
From S2P Require Import Prelude CMem.
From stdpp Require Import gmap sorting list.
From S2P Require Import CString Prog DbFile CyrusDb DbOrder BSearchProof Auth Acl AclSpec Glob GlobSpec GlobInit GlobMin.
From S2P Require Import Mboxname MboxNames MboxRound Mboxlist MboxlistSpec MboxlistCreate MboxlistFind.
#[local] Open Scope Z_scope.

(** ** The matches in one name *)

(** From [m] on: where the matches end. *)
Fixpoint matches_of (fuel : nat) (g : glob) (text : bytes) (len m : Z) : result (list Z) :=
  match fuel with
  | O => Fault OutOfFuel
  | S fuel' =>
      if m <? 0 then Ok [] else
      '(a, mo) ← glob_test g text len (Some m);
      if a =? -1 then Ok [] else
      l ← matches_of fuel' g text len (default (-1) mo); Ok (a :: l)
  end.

(** All of the name, or what is above a separator. *)
Definition part_len (t : bytes) (a : Z) : Prop := a = blen t ∨ (0 ≤ a < blen t ∧ byte_at t a = Some 46).

Section Matches.
Context (fl : Z) (p : bytes) (g : glob) (n : bytes) (Hc : compiled fl p g n).
Context (t r : bytes) (Ht : is_cstring t) (Hne : t ≠ []) (Hmax : blen t < 2147483648).
Context (Hr : flag fl GLOB_INBOXCASE = false ∨ ∃ r', r = 0 :: r').

Lemma matches_ok fuel m : 0 ≤ m → (2 + (blen t - m) ≤ Z.of_nat fuel) → (2 ≤ fuel)%nat →
  ∃ l, matches_of fuel g (t ++ r) (blen t) m = Ok l ∧ Forall (part_len t) l.
Proof using Hc Ht Hne Hr Hmax.
  revert m. induction fuel as [|fuel IH]; intros m Hm Hf Hf2; [lia|]. cbn [matches_of].
  destruct (Z.ltb_spec m 0); [lia|]. destruct (glob_test_verdict _ _ _ _ Hc _ _ Ht Hne Hmax Hr m Hm) as (a & mo & -> & Hv).
  cbn [mbind result_bind from_option id]. pose proof (blen_nonneg t).
  assert (matches_of fuel g (t ++ r) (blen t) (-1) = Ok []) as Hend by (destruct fuel; [lia|done]).
  destruct Hv as [[-> ->]|[[-> ->]|(Ha & Hb & Hmo)]].
  - exists []. done.
  - destruct (Z.eqb_spec (blen t) (-1)); [lia|]. rewrite Hend. cbn [mbind result_bind]. exists [blen t]. split; [done|].
    constructor; [by left|constructor].
  - destruct (Z.eqb_spec a (-1)); [lia|]. assert (part_len t a) as Hp by (right; split; [lia|done]).
    destruct Hmo as [-> | ->].
    + rewrite Hend. exists [a]. split; [done|by constructor].
    + destruct (IH (a + 1)) as (l & -> & Hl); [lia|lia|lia|]. exists (a :: l). split; [done|by constructor].
Qed.

Context (Hfl : fl = GLOB_HIERARCHY) (Htame : tame true false n = true) (Hpct : PCT ∉ n).

(** Without percent signs, the whole name is one of them exactly when the pattern matches it. *)
Lemma matches_all fuel m l : 0 ≤ m → matches_of fuel g (t ++ r) (blen t) m = Ok l → (blen t ∈ l ↔ gmatch true 46 Z.eqb p t).
Proof using Hc Ht Hne Hr Hmax Hfl Htame Hpct.
  revert m l. induction fuel as [|fuel IH]; intros m l Hm H; [done|]. cbn [matches_of] in H.
  destruct (Z.ltb_spec m 0); [lia|].
  destruct (glob_test_some _ _ _ _ Hc _ _ Ht Hne Hmax Hr Hfl Htame Hpct m Hm) as (a & mo & E & Hv). rewrite E in H. cbn [mbind result_bind from_option id] in H.
  pose proof (blen_nonneg t). destruct Hv as [(Ha & _ & ->)|(-> & b & -> & Hb)].
  - destruct (Z.eqb_spec a (-1)); [lia|]. apply bind_ok_inv in H as (l' & Hl & H). injection H as <-.
    rewrite elem_of_cons, (IH (a + 1) l') by (done || lia). split; [intros [|]; [lia|done]|by right].
  - rewrite <- Hb. destruct b; [|injection H as <-; split; [by intros ?%elem_of_nil|done]].
    destruct (Z.eqb_spec (blen t) (-1)); [lia|]. apply bind_ok_inv in H as (l' & _ & H). injection H as <-.
    split; [done|]. by left.
Qed.

(** The test before them. *)
Lemma first_match : ∃ a mo, glob_test g (t ++ r) (blen t) (Some 0) = Ok (a, Some mo) ∧ (gmatch true 46 Z.eqb p t → a ≠ -1).
Proof using Hc Ht Hne Hr Hmax Hfl Htame Hpct.
  destruct (glob_test_some _ _ _ _ Hc _ _ Ht Hne Hmax Hr Hfl Htame Hpct 0 ltac:(lia)) as (a & mo & E & Hv). exists a, mo. split; [done|].
  intros Hm. pose proof (blen_nonneg t). destruct Hv as [(Ha & _ & _)|(_ & b & -> & Hb)]; [lia|].
  apply Hb in Hm as ->. lia.
Qed.
End Matches.

(** A pattern matches only names that begin with its fixed part. *)
Lemma gmatch_fixed p t : gmatch true 46 Z.eqb p t → fixed_prefix p `prefix_of` t.
Proof.
  induction 1 as [|p u t _ _|p u t _ _ _ _|c p x t H _ _ _|c p x t H1 H2 _ E _ IH]; cbn [fixed_prefix]; try apply prefix_nil; [done|].
  destruct ((c =? STAR) || (c =? PCT) || (c =? QUEST) || (c =? AT)); [apply prefix_nil|]. apply Z.eqb_eq in E as ->. by apply prefix_cons.
Qed.

Lemma fixed_prefix_of p : fixed_prefix p `prefix_of` p.
Proof.
  induction p as [|c p IH]; cbn [fixed_prefix]; [done|].
  destruct ((c =? STAR) || (c =? PCT) || (c =? QUEST) || (c =? AT)); [apply prefix_nil|by apply prefix_cons].
Qed.

(** ** The calls *)

(** A call of the caller's [proc]: name, length and [maycreate]. *)
Definition shown_name : Type := bytes * Z * bool.

Section Calls.
Context {W : Type} (tell : bytes → Z → bool → W → Z * W).
(** One after the other, until one does not return 0. *)
Fixpoint run_calls (cs : list shown_name) (w : W) : Z * W :=
  match cs with
  | [] => (0, w)
  | (name, len, maycreate) :: cs' =>
      let '(r, w) := tell name len maycreate w in if r =? 0 then run_calls cs' w else (r, w)
  end.

Lemma run_calls_app a b w : run_calls (a ++ b) w = let '(r, w) := run_calls a w in if r =? 0 then run_calls b w else (r, w).
Proof.
  revert w. induction a as [|[[name len] mc] a IH]; intros w; [done|]. cbn [run_calls app].
  destruct (tell name len mc w) as [r w']. destruct (Z.eqb_spec r 0) as [->|Hr]; [apply IH|].
  destruct (Z.eqb_spec r 0); [done|]. done.
Qed.

Fixpoint after_calls (cs : list shown_name) (w : W) : W :=
  match cs with [] => w | (name, len, maycreate) :: cs' => after_calls cs' (tell name len maycreate w).2 end.

Lemma run_calls_zero cs w : (∀ name len mc w, (tell name len mc w).1 = 0) → run_calls cs w = (0, after_calls cs w).
Proof.
  intros H. revert w. induction cs as [|[[name len] mc] cs IH]; intros w; [done|]. cbn [run_calls after_calls]. specialize (H name len mc w).
  destruct (tell name len mc w) as [r w']. cbn in *. subst r. apply IH.
Qed.
End Calls.

Lemma bind_run {S X Y} (p : Prog S X) (f : X → Prog S Y) s a s' : p s = Ok (a, s') → (p ≫= f) s = f a s'.
Proof. unfold mbind, Prog_bind. by intros ->. Qed.

(** ** One mailbox *)

Lemma rewritten_as (key : bytes) off w : 0 ≤ off → off + 5 ≤ blen key → length w = 5%nat → from off (wr key off w) = w ++ from (off + 5) key.
Proof.
  intros Ho Hl Hw. unfold from, wr. rewrite pad_to_id by lia.
  assert (length (take (Z.to_nat off) key) = Z.to_nat off) as Ht by (rewrite length_take; unfold blen in *; lia).
  rewrite drop_app_ge, Ht, Nat.sub_diag, Hw by lia. by replace (Z.to_nat off + 5)%nat with (Z.to_nat (off + 5)) by lia.
Qed.

Lemma mbox_cstring s : Forall mbox_char s → is_cstring s.
Proof. intros H. eapply Forall_impl; [exact H|]. intros c (Hc & ? & _). unfold is_byte in Hc. lia. Qed.

Section Listing.
Context `{B : Backend} {BO : BackendOk B} {LD : ListDb BO} `{Si : Site} `{Ou : Outside} `{A : Auth}.
(** What is behind a key in the database, up to the next NUL. *)
Context (behind : bytes → bytes) (Hbehind : ∀ k, is_cstring (behind k)).
(** The caller is outside. *)
Context (tell : bytes → Z → bool → world → Z * world).
Implicit Types (m : mbstate) (L : gmap bytes mbent) (n : Z) (k key : bytes).

Definition write_down (name : bytes) (len : Z) (maycreate : bool) : Prog mbstate Z := out (tell name len maycreate).

(** The name as it is matched and shown. *)
Definition shown_as (rk : find_rock) key : bytes :=
  if inboxoffset rk =? 0 then key else from (inboxoffset rk) (wr key (inboxoffset rk) (take 5 (inboxcase rk))).

(** Neither too long nor shown already. *)
Definition listable (rk : find_rock) key : bool :=
  (blen key <=? MAX_MAILBOX_NAME) && negb (negb (find_namespace rk =? NAMESPACE_INBOX) && own_mailbox (usermboxname rk) key).

Definition calls_of (rk : find_rock) key : list shown_name :=
  if listable rk key then
    match matches_of (S (S (length key))) (r_glob rk) (shown_as rk key ++ [0]) (blen (shown_as rk key)) 0 with
    | Ok l => (λ a, (shown_as rk key, a, true)) <$> l
    | Fault _ => []
    end
  else [].

(** A search: the glob is that of [p], normalised to [pn]; only its own part of a name is
    replaced; there are no domains and no alternate namespace. *)
Record search_ok (fl : Z) (p pn : bytes) (rk : find_rock) : Prop := {
  so_glob : compiled fl p (r_glob rk) pn;
  so_namespace : r_namespace rk = None;
  so_check : checkmboxlist rk = false;
  so_domain : r_domainlen rk = 0;
  so_inbox : flag fl GLOB_INBOXCASE = false ∨ inboxoffset rk ≠ 0;
  so_word : inbox_word (inboxcase rk);
}.
(** A key in which there is something to replace. *)
Definition long_for (rk : find_rock) key : Prop := inboxoffset rk = 0 ∨ 0 < inboxoffset rk ∧ inboxoffset rk + 5 < blen key.

Lemma shown_name_ok rk key : list_key key → long_for rk key → inbox_word (inboxcase rk) →
  is_cstring (shown_as rk key) ∧ shown_as rk key ≠ [] ∧ blen (shown_as rk key) = blen key - inboxoffset rk ∧ blen (shown_as rk key) < 2147483648 ∧
  ∃ nm, namebuf rk key = Ok nm ∧ from (inboxoffset rk) nm = shown_as rk key.
Proof using.
  intros (Hk & Hne & Hkl) Hlong Hw. pose proof (mbox_cstring _ Hk) as Hkc. unfold shown_as, namebuf. destruct Hlong as [->|[Hpos Hlong]].
  { cbn [Z.eqb]. split_and!; [done|done|lia|lia|]. by exists key. }
  rewrite (proj2 (Z.eqb_neq (inboxoffset rk) 0)) by lia. rewrite (proj2 (Z.ltb_ge (blen key) (inboxoffset rk + 5))) by lia.
  destruct Hw as (w & -> & Hw). pose proof (says_inbox_len _ Hw) as Hl. destruct Hw as [Hwc _].
  assert (take 5 (w ++ [0]) = w) as E by (rewrite take_app_le by lia; by apply take_ge; lia). rewrite E.
  set (s := wr key (inboxoffset rk) w). assert (blen s = blen key) as Hs.
  { unfold s. rewrite blen_wr by lia. unfold blen at 2. rewrite Hl. lia. }
  assert (blen (from (inboxoffset rk) s) = blen key - inboxoffset rk) as Hlen.
  { unfold from, blen in *. rewrite length_drop. lia. }
  split_and!; [|intros E'; rewrite E' in Hlen; change (blen []) with 0 in Hlen; lia|done|lia|by exists s].
  apply cstring_drop. unfold s, wr. rewrite pad_to_id by lia. apply cstring_app; [by apply cstring_take|].
  apply cstring_app; [done|by apply cstring_drop].
Qed.

(** *** [find_p] *)

Definition may_see (admin : bool) (e : mbent) : bool := admin || has (rights_on (e_acl e)) ACL_LOOKUP.
(** What [strchr] sees of a domain. *)
Definition domainless (admin : bool) key : bool := admin || negb (bool_decide (BANG ∈ key ++ behind key)).

Lemma past_space_ok a b : Forall (λ c, c ≠ 32) a → past_space (a ++ 32 :: b) = Ok b.
Proof using.
  intros Ha. unfold past_space. rewrite chr_pos_first by (intros H; by apply (proj1 (Forall_forall _ _) Ha) in H).
  by rewrite from_blen_1.
Qed.

Lemma print_int_no_space z : is_s32 z → Forall (λ c, c ≠ 32) (print_int z).
Proof using.
  intros Hz. destruct (print_int_ok z Hz) as (ds & Hds & _ & -> & _). apply Forall_app. split.
  - destruct (z <? 0); [|constructor]. constructor; [done|constructor].
  - eapply Forall_impl; [exact Hds|]. intros c. unfold digit. lia.
Qed.

(** The rights on an entry, as [find_p] finds them in the data. *)
Lemma data_rights e : ent_ok e →
  (part ← past_space (ent_data e); acl ← past_space part; acl ← cstr (acl ++ [0]);
   rights ← myrights acl; Ok (has rights ACL_LOOKUP)) = Ok (has (rights_on (e_acl e)) ACL_LOOKUP).
Proof using.
  intros (Ht & [(_ & Hp & _) _] & Ha). unfold ent_data, mboxlist_makeentry. cbn [app].
  rewrite past_space_ok by by apply print_int_no_space. cbn [mbind result_bind]. rewrite past_space_ok by done. cbn [mbind result_bind].
  unfold ent_acl. rewrite (cstr_terminated _ []) by by apply acl_cstring. cbn [mbind result_bind]. by rewrite myrights_on.
Qed.

Section One.
Context (fl : Z) (p pn : bytes) (rk : find_rock) (Hs : search_ok fl p pn rk).
Context key (Hk : list_key key) (Hlong : long_for rk key).

(** What is matched, with what is behind it. *)
Definition behind_shown : bytes := if inboxoffset rk =? 0 then behind key ++ [0] else [0].

Lemma behind_shown_ok : flag fl GLOB_INBOXCASE = false ∨ ∃ r', behind_shown = 0 :: r'.
Proof using Hs.
  destruct (so_inbox _ _ _ _ Hs) as [|Hoff]; [by left|]. right. exists []. unfold behind_shown. by rewrite (proj2 (Z.eqb_neq _ _) Hoff).
Qed.

Definition selects (a : Z) e : bool :=
  domainless (r_isadmin rk) key && ((inboxoffset rk =? 0) || (blen key <=? MAX_MAILBOX_NAME)) && negb (a =? -1) &&
  negb (negb (find_namespace rk =? NAMESPACE_INBOX) && own_mailbox (usermboxname rk) key) && may_see (r_isadmin rk) e.

Lemma find_p_ok e a mo : ent_ok e → glob_test (r_glob rk) (shown_as rk key ++ behind_shown) (blen (shown_as rk key)) (Some 0) = Ok (a, Some mo) →
  find_p behind rk key (ent_data e) = Ok (selects a e).
Proof using Hs Hk Hlong.
  intros He Hg. pose proof Hs as [_ Hns _ Hd _ Hw]. destruct (shown_name_ok rk key Hk Hlong Hw) as (_ & _ & Hl & _ & nm & Hnm & Hfrom).
  unfold find_p, selects, domainless, may_see. rewrite Hd, Hns, andb_false_r. cbn [Z.eqb andb negb].
  assert (bool_decide (BANG ∈ key ++ behind key ++ [0]) = bool_decide (BANG ∈ key ++ behind key)) as ->.
  { apply bool_decide_ext. rewrite app_assoc, elem_of_app. split; [|by left]. intros [|H%list_elem_of_singleton]; done. }
  destruct (negb (r_isadmin rk) && bool_decide (BANG ∈ key ++ behind key)) eqn:Hdom.
  { destruct (r_isadmin rk); [done|]. cbn in Hdom. cbn [orb]. by rewrite Hdom. }
  assert (r_isadmin rk || negb (bool_decide (BANG ∈ key ++ behind key)) = true) as ->.
  { destruct (r_isadmin rk); [done|]. cbn in *. by rewrite Hdom. }
  cbn [andb]. rewrite Hl in Hg. unfold behind_shown, shown_as in *. destruct (Z.eqb_spec (inboxoffset rk) 0) as [E|E]; cbn [negb andb orb].
  - cbn [mbind result_bind]. rewrite Hg. cbn [mbind result_bind].
    destruct (a =? -1); cbn [negb andb]; [done|]. destruct (_ && own_mailbox _ _); cbn [negb andb]; [done|].
    destruct (r_isadmin rk); [done|]. by rewrite data_rights.
  - replace (blen key <=? MAX_MAILBOX_NAME) with (negb (MAX_MAILBOX_NAME + 1 <=? blen key)) by lia.
    destruct (MAX_MAILBOX_NAME + 1 <=? blen key); cbn [negb andb]; [done|]. rewrite Hnm. cbn [mbind result_bind]. rewrite Hfrom, Hg. cbn [mbind result_bind].
    destruct (a =? -1); cbn [negb andb]; [done|]. destruct (_ && own_mailbox _ _); cbn [negb andb]; [done|].
    destruct (r_isadmin rk); [done|]. by rewrite data_rights.
Qed.

(** *** [find_cb] *)

(** [checkshared] afterwards. *)
Definition checked {X} (cs : Z) (l : list X) : Z := match l with [] => cs | _ => 0 end.

Lemma find_cb_loop_ok fuel cs mm l m nm : namebuf rk key = Ok nm → from (inboxoffset rk) nm = shown_as rk key → listable rk key = true →
  matches_of fuel (r_glob rk) (shown_as rk key ++ [0]) (blen key - inboxoffset rk) mm = Ok l →
  find_cb_loop write_down fuel rk key cs mm m =
    let '(r, w) := run_calls tell ((λ a, (shown_as rk key, a, true)) <$> l) (outer m) in Ok ((r, checked cs l), set_outer w m).
Proof using Hs.
  intros Hnm Hfrom Hlist. pose proof Hs as [_ Hns Hck Hd _ Hw]. unfold listable in Hlist. apply andb_true_iff in Hlist as [H1%Z.leb_le H2%negb_true_iff].
  revert cs mm l m. induction fuel as [|fuel IH]; intros cs mm l m Hm; [done|]. cbn [matches_of find_cb_loop] in *.
  assert (∀ cs, (mret (0, cs) : Prog mbstate (Z * Z)) m = Ok ((0, cs), set_outer (outer m) m)) as Hnone by (intros; by destruct m).
  destruct (mm <? 0); [injection Hm as <-; apply Hnone|].
  rewrite (proj2 (Z.leb_gt (MAX_MAILBOX_NAME + 1) (blen key))) by lia. rewrite H2, Hck. apply bind_ok_inv in Hm as ([a mo] & Hg & Hm).
  erewrite bind_run by done. cbn [Z.eqb]. erewrite bind_run by (unfold liftr; by rewrite Hnm).
  erewrite bind_run by (unfold liftr; by rewrite Hfrom, Hg). cbv beta iota.
  destruct (a =? -1); [injection Hm as <-; apply Hnone|]. apply bind_ok_inv in Hm as (l' & Hl' & Hm). injection Hm as <-. rewrite Hns.
  erewrite bind_run by done. cbv beta iota. rewrite Hfrom. cbn [fmap list_fmap run_calls].
  destruct (tell (shown_as rk key) a true (outer m)) as [r w] eqn:Ht. erewrite bind_run by (unfold write_down, out; rewrite Ht; reflexivity).
  destruct (Z.eqb_spec r 0) as [->|Hr]; cbn [negb].
  - rewrite (IH 0 (default (-1) mo) l' (set_outer w m) Hl'). cbn [outer set_outer]. destruct (run_calls tell _ w).
    assert (checked 0 l' = 0) as -> by by destruct l'. by destruct m.
  - done.
Qed.

Lemma find_cb_ok cs m : find_cb write_down rk key cs m =
  let '(r, w) := run_calls tell (calls_of rk key) (outer m) in Ok ((r, checked cs (calls_of rk key)), set_outer w m).
Proof using Hs Hk Hlong.
  pose proof (so_word _ _ _ _ Hs) as Hw. destruct (shown_name_ok rk key Hk Hlong Hw) as (Hc & Hne & Hl & Hmax & nm & Hnm & Hfrom).
  unfold calls_of. destruct (listable rk key) eqn:Hlist.
  - destruct (matches_ok _ _ _ _ (so_glob _ _ _ _ Hs) (shown_as rk key) [0] Hc Hne Hmax) with (fuel := S (S (length key))) (m := 0) as (l & E & _);
      [by right; exists []|done|unfold blen in *; destruct Hlong; lia|lia|].
    rewrite E. rewrite Hl in E. unfold find_cb. rewrite (find_cb_loop_ok _ _ _ _ _ nm Hnm Hfrom Hlist E). by destruct l.
  - unfold find_cb. cbn [find_cb_loop Z.ltb Z.compare]. unfold listable in Hlist. apply andb_false_iff in Hlist as [H|H%negb_false_iff].
    + rewrite (proj2 (Z.leb_le (MAX_MAILBOX_NAME + 1) (blen key))) by lia. cbn. by destruct m.
    + rewrite H. destruct (_ <=? _); cbn; by destruct m.
Qed.
(** What is shown of a mailbox that is selected; and, for a pattern without percent
    signs, that all of it is when it matches. *)
Definition shows_of (admin : bool) e (c : shown_name) : Prop :=
  may_see admin e = true ∧ part_len c.1.1 c.1.2 ∧ c.2 = true.

Lemma glob_args : let t := shown_as rk key in is_cstring t ∧ t ≠ [] ∧ blen t < 2147483648.
Proof using Hs Hk Hlong. destruct (shown_name_ok rk key Hk Hlong (so_word _ _ _ _ Hs)) as (? & ? & _ & ? & _). done. Qed.

Lemma find_p_returns e : ent_ok e → ∃ a, find_p behind rk key (ent_data e) = Ok (selects a e).
Proof using Hs Hk Hlong.
  intros He. destruct glob_args as (Ht & Hne & Hmax).
  destruct (glob_test_verdict _ _ _ _ (so_glob _ _ _ _ Hs) _ _ Ht Hne Hmax behind_shown_ok 0 ltac:(lia)) as (a & mo & E & _).
  exists a. by eapply find_p_ok.
Qed.

Lemma calls_sound c : c ∈ calls_of rk key → listable rk key = true ∧ c.1.1 = shown_as rk key ∧ part_len c.1.1 c.1.2 ∧ c.2 = true.
Proof using Hs Hk Hlong.
  unfold calls_of. destruct (listable rk key); [|by intros ?%elem_of_nil]. destruct glob_args as (Ht & Hne & Hmax).
  destruct (matches_ok _ _ _ _ (so_glob _ _ _ _ Hs) (shown_as rk key) [0] Ht Hne Hmax) with (fuel := S (S (length key))) (m := 0) as (l & -> & Hl);
    [by right; exists []|done| |lia|].
  { destruct (shown_name_ok rk key Hk Hlong (so_word _ _ _ _ Hs)) as (_ & _ & Hb & _). unfold blen in *. destruct Hlong; lia. }
  intros (a & -> & Ha)%list_elem_of_fmap. cbn [fst snd]. split_and!; [done|done| |done]. by apply (proj1 (Forall_forall _ _) Hl).
Qed.

Lemma select_sound e : ent_ok e → find_p behind rk key (ent_data e) = Ok true → may_see (r_isadmin rk) e = true.
Proof using Hs Hk Hlong.
  intros He H. destruct (find_p_returns e He) as [a E]. rewrite E in H. unfold selects in H. injection H as H.
  by apply andb_true_iff in H as [_ H].
Qed.

Lemma calls_complete e : fl = GLOB_HIERARCHY → tame true false pn = true → (PCT ∉ pn) → ent_ok e →
  domainless (r_isadmin rk) key = true → listable rk key = true → may_see (r_isadmin rk) e = true →
  (find_p behind rk key (ent_data e) = Ok true ∧ (shown_as rk key, blen (shown_as rk key), true) ∈ calls_of rk key) ↔
    gmatch true 46 Z.eqb p (shown_as rk key).
Proof using Hs Hk Hlong.
  intros Hfl Htame Hpct He Hdom Hlist Hsee. destruct glob_args as (Ht & Hne & Hmax). unfold calls_of. rewrite Hlist.
  destruct (matches_ok _ _ _ _ (so_glob _ _ _ _ Hs) (shown_as rk key) [0] Ht Hne Hmax) with (fuel := S (S (length key))) (m := 0) as (l & El & _);
    [by right; exists []|done| |lia|].
  { destruct (shown_name_ok rk key Hk Hlong (so_word _ _ _ _ Hs)) as (_ & _ & Hb & _). unfold blen in *. destruct Hlong; lia. }
  rewrite El. rewrite <- (matches_all _ _ _ _ (so_glob _ _ _ _ Hs) (shown_as rk key) [0] Ht Hne Hmax (or_intror (ex_intro _ [] eq_refl)) Hfl Htame Hpct _ 0 l ltac:(lia) El).
  split.
  - intros [_ (a & [= <-] & Ha)%list_elem_of_fmap]. done.
  - intros Hin. split; [|apply list_elem_of_fmap; by exists (blen (shown_as rk key))].
    destruct (first_match _ _ _ _ (so_glob _ _ _ _ Hs) _ _ Ht Hne Hmax behind_shown_ok Hfl Htame Hpct) as (a & mo & E & Ha).
    rewrite (find_p_ok e a mo He E). f_equal. unfold selects. rewrite Hdom, Hsee. unfold listable in Hlist. apply andb_true_iff in Hlist as [Hb Hown].
    rewrite Hb, Hown, orb_true_r. rewrite (proj2 (Z.eqb_neq a (-1))); [done|]. apply Ha.
    by apply (matches_all _ _ _ _ (so_glob _ _ _ _ Hs) (shown_as rk key) [0] Ht Hne Hmax (or_intror (ex_intro _ [] eq_refl)) Hfl Htame Hpct _ 0 l ltac:(lia) El).
Qed.
End One.

(** ** All with a prefix *)

Section Search.
Context (fl : Z) (p pn : bytes) (rk : find_rock) (Hs : search_ok fl p pn rk).
Context (pre : bytes) (Hpre : Forall mbox_char pre) (Hlong : ∀ k, list_key k → pre `prefix_of` k → long_for rk k).
Context L (HL : list_ok L).

Definition selected key (data : bytes) : bool := match find_p behind rk key data with Ok b => b | Fault _ => false end.
Definition listing (l : list (bytes * bytes)) : list shown_name := l ≫= λ x, if selected x.1 x.2 then calls_of rk x.1 else [].
Definition visit_one (x : Z * mbstate) key (data : bytes) : Z * (Z * mbstate) :=
  let '(r, w) := run_calls tell (calls_of rk key) (outer x.2) in (r, (checked x.1 (calls_of rk key), set_outer w x.2)).

Lemma scan_listing l x : ∃ cs,
  scan (λ _, selected) visit_one x l = let '(r, w) := run_calls tell (listing l) (outer x.2) in (r, (cs, set_outer w x.2)).
Proof using.
  revert x. induction l as [|[k d] l IH]; intros [cs m]; cbn [scan fst snd].
  { exists cs. cbn. by destruct m. }
  unfold listing. cbn [mbind list_bind fst snd]. fold (listing l). destruct (selected k d); [|apply IH]. unfold visit_one at 1. cbn [fst snd].
  rewrite run_calls_app. destruct (run_calls tell (calls_of rk k) (outer m)) as [r w]. destruct (Z.eqb_spec r 0) as [->|Hr]; cbn [negb].
  - destruct (IH (checked cs (calls_of rk k), set_outer w m)) as [cs' E]. exists cs'. rewrite E. cbn [fst snd outer set_outer].
    destruct (run_calls tell (listing l) w). by destruct m.
  - by eexists.
Qed.

(** The mailboxes in the search that are shown, and as what. *)
Lemma listing_in l c : l ≡ₚ map_to_list (lines_of L) → c ∈ listing (filter (λ x, pre `prefix_of` x.1) l) ↔
  ∃ k e, L !! k = Some e ∧ pre `prefix_of` k ∧ selected k (ent_data e) = true ∧ c ∈ calls_of rk k.
Proof using.
  intros Hl. unfold listing. rewrite list_elem_of_bind. split.
  - intros ([k d] & Hc & [Hp Hin]%list_elem_of_filter). rewrite Hl, elem_of_map_to_list, lines_lookup in Hin. cbn [fst snd] in *.
    destruct (L !! k) as [e|] eqn:He; [|done]. injection Hin as <-. destruct (selected k (ent_data e)) eqn:Hsel; [|by apply elem_of_nil in Hc].
    by exists k, e.
  - intros (k & e & He & Hp & Hsel & Hc). exists (k, ent_data e). cbn [fst snd]. rewrite Hsel. split; [done|].
    apply list_elem_of_filter. split; [done|]. by rewrite Hl, elem_of_map_to_list, lines_lookup, He.
Qed.

Lemma wp_list_foreach fuel c rest m n : Holds m L n → n < DB_LIMIT → (base.size L < fuel)%nat →
  wp (list_foreach behind write_down fuel rk 0 (pre ++ c :: rest) (blen pre)) (λ '(r, _) m', ∃ cs,
    (r, outer m') = run_calls tell cs (outer m) ∧ Holds m' L n ∧
    (∀ c, c ∈ cs ↔ ∃ k e, L !! k = Some e ∧ pre `prefix_of` k ∧ find_p behind rk k (ent_data e) = Ok true ∧ c ∈ calls_of rk k)) m.
Proof using LD Hs Hpre Hlong HL.
  intros [_ Hh] Hn Hf.
  assert (∀ k e, L !! k = Some e → pre `prefix_of` k → ∃ b, find_p behind rk k (ent_data e) = Ok b) as Hfind.
  { intros k e He Hp. destruct (proj1 (map_Forall_lookup _ _) HL _ _ He) as [Hk Hok].
    destruct (find_p_returns fl p pn rk Hs k Hk (Hlong k Hk Hp) e Hok) as [a Ea]. by eexists. }
  assert (∀ k d, lines_of L !! k = Some d → ∃ e, L !! k = Some e ∧ d = ent_data e) as Hline.
  { intros k d. rewrite lines_lookup. destruct (L !! k) as [e|]; [|done]. intros [= <-]. by exists e. }
  pose proof (db_foreach_alone fuel (λ (_ : Z * mbstate) key data, find_p behind rk key data) (list_cb write_down rk)
    (λ _, selected) visit_one pre c rest (0, m) (disk m) (lines_of L) n Hh Hn (list_prefix pre Hpre)) as H.
  apply wp_ok in H as ([r [cs' m']] & s & E & l & Hl & _ & Ha & Hh').
  - destruct (scan_listing (filter (λ x, pre `prefix_of` x.1) l) (0, m)) as [cs E2]. rewrite E2 in Ha. cbn [snd outer] in Ha.
    eapply wp_intro; [unfold list_foreach; rewrite E; reflexivity|]. exists (listing (filter (λ x, pre `prefix_of` x.1) l)).
    destruct (run_calls tell _ (outer m)) as [r' w]. injection Ha as -> -> ->. split_and!; [done|by split|]. intros c'. rewrite (listing_in l c' Hl).
    split; intros (k & e & He & Hp & Hsel & Hc); exists k, e; split_and!; try done; destruct (Hfind k e He Hp) as [b Hb]; unfold selected in *; rewrite Hb in *; congruence.
  - unfold lines_of. by rewrite map_size_fmap.
  - intros rock k d Hk Hp. destruct (Hline k d Hk) as (e & He & ->). destruct (Hfind k e He Hp) as [b Hb]. unfold selected. by rewrite Hb.
  - intros [cs m1] k d s Hk Hp. destruct (Hline k d Hk) as (e & He & ->). destruct (proj1 (map_Forall_lookup _ _) HL _ _ He) as [Hkey _].
    unfold list_cb, visit_one. cbn [fst snd]. rewrite (find_cb_ok fl p pn rk Hs k Hkey (Hlong k Hkey Hp)). cbn [outer set_disk].
    destruct (run_calls tell (calls_of rk k) (outer m1)) as [r w]. cbn [mbind result_bind]. by destruct m1.
Qed.
(** What is shown is of mailboxes that may be seen; and, for a pattern without percent signs,
    every one of them is that it matches. *)
Definition search_sound (cs : list shown_name) : Prop := ∀ c, c ∈ cs →
  ∃ k e, L !! k = Some e ∧ pre `prefix_of` k ∧ listable rk k = true ∧ c.1.1 = shown_as rk k ∧ shows_of (r_isadmin rk) e c.
Definition search_complete (cs : list shown_name) : Prop :=
  inboxoffset rk = 0 → fl = GLOB_HIERARCHY → tame true false pn = true → PCT ∉ pn → ∀ k e, L !! k = Some e → pre `prefix_of` k →
    may_see (r_isadmin rk) e = true → domainless (r_isadmin rk) k = true → listable rk k = true →
    ((k, blen k, true) ∈ cs ↔ gmatch true 46 Z.eqb p k).

Lemma wp_listing fuel c rest m n : Holds m L n → n < DB_LIMIT → (base.size L < fuel)%nat →
  wp ('(r, _) ← list_foreach behind write_down fuel rk 0 (pre ++ c :: rest) (blen pre); mret r) (λ r m', ∃ cs,
    (r, outer m') = run_calls tell cs (outer m) ∧ Holds m' L n ∧ search_sound cs ∧ search_complete cs) m.
Proof using LD Hbehind Hs Hpre Hlong HL.
  intros Hh Hn Hf. apply wp_bind. eapply wp_mono; [by apply wp_list_foreach|]. intros [r cs0] m' (cs & Hr & Hh' & Hcs). apply wp_ret.
  exists cs. split_and!; [done|done|..].
  - intros c' (k & e & He & Hp & Hfp & Hin)%Hcs. destruct (proj1 (map_Forall_lookup _ _) HL _ _ He) as [Hk Hok].
    pose proof (Hlong k Hk Hp) as Hl. destruct (calls_sound _ _ _ _ Hs k Hk Hl c' Hin) as (? & ? & ? & ?).
    exists k, e. split_and!; try done. by eapply select_sound in Hfp.
  - intros Hoff Hfl Htame Hpn k e He Hp Hsee Hdom Hli. destruct (proj1 (map_Forall_lookup _ _) HL _ _ He) as [Hk Hok].
    assert (∀ k, shown_as rk k = k) as Hshown by (intros; unfold shown_as; by rewrite Hoff).
    pose proof (calls_complete _ _ _ _ Hs k Hk (Hlong k Hk Hp) e Hfl Htame Hpn Hok Hdom Hli Hsee) as Hcc. rewrite !Hshown in Hcc.
    rewrite Hcs, <- Hcc. split; [|intros [Hfp Hin]; by exists k, e].
    intros (k' & e' & He' & Hp' & Hfp & Hin). destruct (proj1 (map_Forall_lookup _ _) HL _ _ He') as [Hk' _].
    destruct (calls_sound _ _ _ _ Hs k' Hk' (Hlong k' Hk' Hp') _ Hin) as (_ & E & _). cbn in E. rewrite Hshown in E. subst k'.
    assert (e' = e) as -> by congruence. done.
Qed.
End Search.

(** ** [mboxlist_findall] *)

(** The INBOX of a user: of one whose name can be part of that of a mailbox. *)
Definition inbox_of (userid : option bytes) : option bytes :=
  match userid with
  | Some u => if bool_decide (DOT ∉ u) && (blen u + 5 <? MAX_MAILBOX_NAME) then Some (user_dot ++ u) else None
  | None => None
  end.

Lemma shown_own rk uid k : inbox_word (inboxcase rk) → inboxoffset rk = 0 ∨ inboxoffset rk = blen uid → blen uid + 5 < blen k →
  shown_as rk k = k ∨ ∃ w, says_inbox w ∧ shown_as rk k = w ++ from (blen uid + 5) k.
Proof using.
  intros (w & Hib & Hw) Hoff Hk. unfold shown_as. destruct (Z.eqb_spec (inboxoffset rk) 0) as [|Ho]; [by left|].
  destruct Hoff as [|Ho']; [done|]. right. exists w. split; [done|]. pose proof (says_inbox_len w Hw) as Hwl.
  rewrite Hib, take_app_le, take_ge by lia. rewrite Ho'. pose proof (blen_nonneg uid). apply rewritten_as; [done|lia|done].
Qed.

Section Findall.
Context (pattern : bytes) (userid : option bytes) (admin : bool).
Context (Hvirt : config_virtdomains = false) (Hpat : Forall mbox_char pattern) (Hlen : blen pattern ≤ MAX_MAILBOX_NAME).
Context (Huser : ∀ u, userid = Some u → Forall mbox_char u ∧ u ≠ []).

Lemma list_pattern_ok : list_pattern pattern userid = Ok (inr (pattern, 0, blen (default [] userid), pattern)).
Proof using Hvirt Hlen.
  unfold list_pattern. rewrite Hvirt. cbn [negb]. unfold snprint, SIZE, blen in *. by rewrite take_ge by lia.
Qed.

Lemma user_box_ok : user_box userid (blen (default [] userid)) 0 = Ok (inbox_of userid).
Proof using.
  clear Huser. unfold user_box, inbox_of. destruct userid as [u|]; [|done]. cbn [from_option id].
  assert (match chr_pos u DOT with None => true | Some q => blen u <? q end = bool_decide (DOT ∉ u)) as ->.
  { destruct (chr_pos u DOT) as [q|] eqn:E.
    - destruct (chr_pos_ok _ _ _ E) as (v & w & -> & -> & _). rewrite bool_decide_false.
      + apply Z.ltb_ge. rewrite blen_app. pose proof (blen_nonneg (DOT :: w)). lia.
      + intros H. apply H, elem_of_app. right. by left.
    - apply chr_pos_none in E. by rewrite bool_decide_true. }
  destruct (_ && _); [|done]. cbn [Z.eqb]. by rewrite prec_all.
Qed.

(** The INBOX as a key, and what it begins. *)
Lemma inbox_of_ok u : inbox_of userid = Some u → ∃ uid, userid = Some uid ∧ u = user_dot ++ uid ∧ Forall mbox_char u ∧ uid ≠ [] ∧ list_key u.
Proof using Huser.
  unfold inbox_of. destruct userid as [uid|]; [|done]. destruct (_ && _) eqn:E; [|done]. intros [= <-].
  apply andb_true_iff in E as [_ E%Z.ltb_lt]. destruct (Huser uid eq_refl) as [Hu Hne]. exists uid.
  assert (Forall mbox_char (user_dot ++ uid)) as Hc.
  { apply Forall_app. split; [|done]. repeat constructor; unfold is_byte; lia. }
  split_and!; try done. split_and!; [done|done|]. rewrite !blen_cons. unfold MAX_MAILBOX_NAME in E. lia.
Qed.

Context L (HL : list_ok L) n (Hn : n < DB_LIMIT).

(** *** The INBOX *)

(** The INBOX is shown under that word, or as it is. *)
Definition inbox_call (u : bytes) (c : shown_name) : Prop :=
  c.1.2 = blen c.1.1 ∧ c.2 = true ∧ (says_inbox c.1.1 ∨ c.1.1 = u).

Lemma wp_show_inbox u name len m : Holds m L n → list_key u →
  wp (show_inbox write_down u name len true) (λ r m', ∃ cs, (r, outer m') = run_calls tell cs (outer m) ∧ Holds m' L n ∧
    (∀ c, c ∈ cs ↔ is_Some (L !! u) ∧ c = (name, len, true))) m.
Proof using LD Hn.
  intros Hh Hu. unfold show_inbox. apply wp_bind. eapply (wp_fetch u None); [exact Hh|done|done|]. intros s t Ho _.
  assert (Holds (set_disk s m) L n) as Hh' by (by destruct t; exact Ho || done).
  destruct (L !! u) as [e|]; cbn [fmap option_fmap option_map].
  - cbn [Z.eqb]. unfold write_down. apply wp_out. exists [(name, len, true)]. cbn [run_calls set_disk outer].
    destruct (tell name len true (outer m)) as [r w]. cbn [fst snd]. split_and!; [by destruct (Z.eqb_spec r 0) as [->|]|done|].
    intros c. rewrite list_elem_of_singleton. split; [intros ->; split; [by eexists|done]|by intros [_ ->]].
  - change (CYRUSDB_NOTFOUND =? 0) with false. cbv iota. apply wp_ret. exists []. split_and!; [done|done|].
    intros c. split; [by intros ?%elem_of_nil|by intros [[? ?] _]].
Qed.

Context (g : glob) (pn : bytes) (Hg : glob_init (pattern ++ [0]) (Z.lor GLOB_HIERARCHY GLOB_INBOXCASE) = Ok g).
Context (Hc : compiled (Z.lor GLOB_HIERARCHY GLOB_INBOXCASE) pattern g pn).

Lemma wp_inbox_first u m : Holds m L n → list_key u →
  wp (inbox_first write_down g pattern 0 u) (λ r m', ∃ cs, (r, outer m') = run_calls tell cs (outer m) ∧ Holds m' L n ∧
    (∀ c, c ∈ cs → is_Some (L !! u) ∧ inbox_call u c)) m.
Proof using LD Hn Hg Hc.
  intros Hh Hu. pose proof Hu as (Hum & Hne & Hul). destruct (glob_init_inbox _ _ _ _ _ Hg Hc) as (w & Ew & Hw). pose proof (says_inbox_len w Hw) as Hwl.
  assert (take 5 (inbox g) = w) as E by (rewrite Ew, take_app_le by lia; apply take_ge; lia).
  unfold inbox_first. rewrite E. change (from 0 u) with u.
  assert (is_cstring INBOX) as HI by (repeat constructor; done).
  destruct (GLOB_TEST_ok _ _ _ _ INBOX [] Hc HI) as [i Hi]; [done|done|].
  destruct (GLOB_TEST_ok _ _ _ _ u [] Hc (mbox_cstring _ Hum) Hne) as [j Hj]; [lia|].
  apply wp_bind. eapply wp_liftr; [exact Hi|]. destruct (negb (i =? -1)).
  { eapply wp_mono; [by apply wp_show_inbox|]. intros r m' (cs & ? & ? & Hcs). exists cs. split_and!; [done|done|].
    intros c [? ->]%Hcs. split; [done|]. split_and!; [|done|by left]. cbn. unfold blen. by rewrite Hwl. }
  destruct (negb (starts_with pattern u)); [|apply wp_bind; eapply wp_liftr; [exact Hj|]; destruct (negb (j =? -1))].
  2:{ eapply wp_mono; [by apply wp_show_inbox|]. intros r m' (cs & ? & ? & Hcs). exists cs. split_and!; [done|done|].
      intros c [? ->]%Hcs. split; [done|]. split_and!; [done|done|by right]. }
  all: apply wp_ret; exists []; split_and!; [done|done|]; by intros c ?%elem_of_nil.
Qed.

(** *** The mailboxes of the user *)

Context (fuel : nat) (Hfuel : (base.size L < fuel)%nat).

Definition own_call (u : bytes) (c : shown_name) : Prop :=
  ∃ k e, L !! k = Some e ∧ (u ++ [DOT]) `prefix_of` k ∧ (c.1.1 = k ∨ ∃ w, says_inbox w ∧ c.1.1 = w ++ from (blen u) k) ∧ shows_of admin e c.

(** The pattern is one of those mailboxes', or of INBOX. *)
Definition names_own (u : bytes) : bool := starts_with (fixed_prefix pattern) u.

(** Every one of them is shown that a pattern without percent signs matches. *)
Definition own_complete (u : bytes) (cs : list shown_name) : Prop :=
  names_own u = true → PCT ∉ pattern → ∀ k e, L !! k = Some e → (u ++ [DOT]) `prefix_of` k → may_see admin e = true →
    domainless admin k = true → blen k ≤ MAX_MAILBOX_NAME → ((k, blen k, true) ∈ cs ↔ gmatch true 46 Z.eqb pattern k).

Lemma pattern_cstring : is_cstring pattern.
Proof using Hpat. by apply mbox_cstring. Qed.

Lemma plain_pattern g0 (n0 : bytes) : glob_init (pattern ++ [0]) GLOB_HIERARCHY = Ok g0 → compiled GLOB_HIERARCHY pattern g0 n0 →
  PCT ∉ pattern → tame true false n0 = true ∧ PCT ∉ n0.
Proof using Hpat.
  intros Hg0 Hc0 Hpct. destruct (compiled_plain pattern pattern_cstring Hpct) as (g1 & n1 & Hg1 & Hc1 & Ht1 & Hp1).
  assert (g1 = g0) as -> by congruence. assert (n1 = n0) as ->; [|done].
  pose proof (c_str _ _ _ _ Hc0) as E0. rewrite (c_str _ _ _ _ Hc1) in E0. by apply app_inj_tail in E0 as [-> _].
Qed.

Lemma wp_list_own uid u m : userid = Some uid → u = user_dot ++ uid → Forall mbox_char u → uid ≠ [] → Holds m L n →
  wp (list_own behind write_down fuel g (fixed_prefix pattern) pattern 0 (blen uid) u admin) (λ r m', ∃ cs,
    (r, outer m') = run_calls tell cs (outer m) ∧ Holds m' L n ∧ (∀ c, c ∈ cs → own_call u c) ∧ own_complete u cs) m.
Proof using LD Hbehind Hpat HL Hfuel Hn Hg Hc.
  intros Huid Hu Hum Hne Hh. unfold list_own. change (from 0 u) with u. fold (names_own u).
  assert (Forall mbox_char (u ++ [DOT])) as Hpre. { apply Forall_app. split; [done|]. constructor; [|constructor]. unfold mbox_char, is_byte, DOT. lia. }
  assert (0 < blen uid) as Hpos. { destruct uid; [done|]. rewrite blen_cons. pose proof (blen_nonneg uid). lia. }
  assert (∀ k, (u ++ [DOT]) `prefix_of` k → blen uid + 5 < blen k ∧ blen u = blen uid + 5) as Hbelow.
  { intros k [v ->]. rewrite Hu, !blen_app. change (blen user_dot) with 5. change (blen [DOT]) with 1. pose proof (blen_nonneg v). lia. }
  set (skip := negb (names_own u) && _). destruct skip eqn:Hskip.
  { apply wp_ret. exists []. split_and!; [done|done|by intros c ?%elem_of_nil|]. intros Hnam. subst skip. by rewrite Hnam in Hskip. }
  clear Hskip skip. replace (u ++ [DOT] ++ [0]) with ((u ++ [DOT]) ++ 0 :: []) by by rewrite <- app_assoc.
  replace (blen u + 1) with (blen (u ++ [DOT])) by (rewrite blen_app; done).
  pose proof (glob_init_inbox _ _ _ _ _ Hg Hc) as Hword.
  set (search := λ g' off, Rock g' None NAMESPACE_INBOX 0 off (inbox g) (Some (u ++ [DOT])) false admin).
  assert (∀ fl pn' g' off, compiled fl pattern g' pn' → (flag fl GLOB_INBOXCASE = false ∨ off ≠ 0) → off = 0 ∨ off = blen uid →
    (names_own u = true → off = 0 ∧ (PCT ∉ pattern → fl = GLOB_HIERARCHY ∧ tame true false pn' = true ∧ PCT ∉ pn')) →
    wp ('(r, _) ← list_foreach behind write_down fuel (search g' off) 0 ((u ++ [DOT]) ++ 0 :: []) (blen (u ++ [DOT])); mret r) (λ r m', ∃ cs,
    (r, outer m') = run_calls tell cs (outer m) ∧ Holds m' L n ∧ (∀ c, c ∈ cs → own_call u c) ∧ own_complete u cs) m) as Hsearch.
  { intros fl pn' g' off Hc' Hib Hoff Hplain. assert (search_ok fl pattern pn' (search g' off)) as Hs by done.
    assert (∀ k, list_key k → (u ++ [DOT]) `prefix_of` k → long_for (search g' off) k) as Hlong.
    { intros k _ Hp. destruct (Hbelow k Hp). unfold long_for. cbn. destruct Hoff; [by left|right; lia]. }
    eapply wp_mono; [by apply (wp_listing fl pattern pn' (search g' off) Hs (u ++ [DOT]) Hpre Hlong L HL fuel 0 [] m n)|].
    intros r m' (cs & Hr & Hh' & Hsound & Hcomp). exists cs. split_and!; [done|done|..].
    - intros c (k & e & He & Hp & _ & E & Hsh)%Hsound. exists k, e. split_and!; [done|done| |done]. rewrite E. destruct (Hbelow k Hp) as [? ->].
      by apply shown_own.
    - intros Hnam Hpct k e He Hp Hsee Hdom Hkl. destruct (Hplain Hnam) as [-> Hpl]. destruct (Hpl Hpct) as (Hfl & Htame & Hpn).
      apply (Hcomp eq_refl Hfl Htame Hpn k e He Hp Hsee Hdom). unfold listable. cbn. by rewrite (proj2 (Z.leb_le _ _) Hkl). }
  apply wp_bind. destruct (names_own u) eqn:Hnam.
  - destruct (glob_init_ok GLOB_HIERARCHY pattern [] eq_refl pattern_cstring) as (g0 & n0 & Hg0 & Hc0). eapply wp_liftr; [exact Hg0|].
    apply (Hsearch _ _ _ _ Hc0); [by left|by left|]. intros _. split; [done|]. intros Hpct. split; [done|]. by eapply plain_pattern.
  - apply wp_ret. apply (Hsearch _ _ _ _ Hc); [right; lia|right; lia|done].
Qed.

(** *** The others *)

Definition other_call (c : shown_name) : Prop :=
  ∃ e, L !! c.1.1 = Some e ∧ own_mailbox (inbox_of userid) c.1.1 = false ∧ shows_of admin e c.
Definition other_complete (cs : list shown_name) : Prop :=
  PCT ∉ pattern → ∀ k e, L !! k = Some e → own_mailbox (inbox_of userid) k = false → may_see admin e = true →
    domainless admin k = true → blen k ≤ MAX_MAILBOX_NAME → ((k, blen k, true) ∈ cs ↔ gmatch true 46 Z.eqb pattern k).

Lemma wp_list_rest m : Holds m L n →
  wp (list_rest behind write_down fuel g (fixed_prefix pattern) pattern 0 (inbox_of userid) admin) (λ r m', ∃ cs,
    (r, outer m') = run_calls tell cs (outer m) ∧ Holds m' L n ∧ (∀ c, c ∈ cs → other_call c) ∧ other_complete cs) m.
Proof using LD Hbehind Hpat HL Hfuel Hn Hg Hc.
  intros Hh. unfold list_rest. destruct (glob_init_ok GLOB_HIERARCHY pattern [] eq_refl pattern_cstring) as (g0 & n0 & Hg0 & Hc0).
  apply wp_bind. eapply wp_liftr; [exact Hg0|]. set (rk := Rock _ _ _ _ _ _ _ _ _).
  assert (search_ok GLOB_HIERARCHY pattern n0 rk) as Hs. { split; try done; [by left|by apply (glob_init_inbox _ _ _ _ _ Hg Hc)]. }
  assert (∀ k, list_key k → fixed_prefix pattern `prefix_of` k → long_for rk k) as Hlong by (intros; by left).
  destruct (fixed_prefix_of pattern) as [v Hv]. assert (Forall mbox_char (fixed_prefix pattern)) as Hpre.
  { rewrite Hv in Hpat. by apply Forall_app in Hpat as [? _]. }
  assert (∃ c rest, pattern ++ [0] = fixed_prefix pattern ++ c :: rest) as (c & rest & ->).
  { assert (pattern ++ [0] = fixed_prefix pattern ++ (v ++ [0])) as E by by rewrite app_assoc, <- Hv. rewrite E. destruct v as [|c v]; [by exists 0, []|by exists c, (v ++ [0])]. }
  eapply wp_mono; [by apply (wp_listing _ _ _ rk Hs _ Hpre Hlong L HL fuel c rest m n)|].
  intros r m' (cs & Hr & Hh' & Hsound & Hcomp). exists cs.
  assert (∀ c, c ∈ cs → fixed_prefix pattern `prefix_of` c.1.1 ∧ other_call c) as Hall.
  { intros c' (k & e & He & Hp & Hli & E & Hsh)%Hsound. change (shown_as rk k) with k in E. rewrite <- E in *. split; [done|]. exists e. split_and!; [done| |done].
    unfold listable in Hli. by apply andb_true_iff in Hli as [_ H%negb_true_iff]. }
  split_and!; [done|done|by intros c' [_ ?]%Hall|]. intros Hpct k e He Hown Hsee Hdom Hkl.
  destruct (plain_pattern _ _ Hg0 Hc0 Hpct) as [Ht Hpn].
  assert (listable rk k = true) as Hli by (unfold listable; cbn; by rewrite (proj2 (Z.leb_le _ _) Hkl), Hown).
  split.
  - intros Hin. apply (Hcomp eq_refl eq_refl Ht Hpn k e He (proj1 (Hall _ Hin)) Hsee Hdom Hli). done.
  - intros Hm. by apply (Hcomp eq_refl eq_refl Ht Hpn k e He (gmatch_fixed _ _ Hm) Hsee Hdom Hli).
Qed.
End Findall.

(** Everything that is shown: the INBOX, the mailboxes of the user, and the others. *)
Definition inbox_part L (userid : option bytes) (cs : list shown_name) : Prop :=
  ∀ c, c ∈ cs → ∃ u, inbox_of userid = Some u ∧ is_Some (L !! u) ∧ inbox_call u c.
Definition own_part L (userid : option bytes) (admin : bool) (cs : list shown_name) : Prop :=
  ∀ c, c ∈ cs → ∃ u, inbox_of userid = Some u ∧ own_call admin L u c.

Lemma wp_findall fuel pattern admin userid m L n :
  config_virtdomains = false → Forall mbox_char pattern → blen pattern ≤ MAX_MAILBOX_NAME →
  (∀ u, userid = Some u → Forall mbox_char u ∧ u ≠ []) → Holds m L n → n < DB_LIMIT → (base.size L < fuel)%nat →
  wp (mboxlist_findall behind write_down fuel pattern admin userid) (λ r m', ∃ inb own rest,
    (r, outer m') = run_calls tell (inb ++ own ++ rest) (outer m) ∧ Holds m' L n ∧
    inbox_part L userid inb ∧ own_part L userid admin own ∧ (∀ c, c ∈ rest → other_call userid admin L c) ∧
    (r = 0 → (∀ u, inbox_of userid = Some u → own_complete pattern admin L u own) ∧ other_complete pattern userid admin L rest)) m.
Proof using LD Hbehind.
  intros Hvirt Hpat Hlen Huser Hh Hn Hfuel. pose proof (proj1 Hh) as HL. unfold mboxlist_findall.
  apply wp_bind. eapply wp_liftr; [by apply list_pattern_ok|]. cbv beta iota.
  destruct (glob_init_ok (Z.lor GLOB_HIERARCHY GLOB_INBOXCASE) pattern [] eq_refl (mbox_cstring _ Hpat)) as (g & pn & Hg & Hc).
  apply wp_bind. eapply wp_liftr; [exact Hg|]. apply wp_bind. eapply wp_liftr; [apply user_box_ok|].
  (* the INBOX *)
  apply wp_bind. apply wp_mono with (P := λ r m1, ∃ inb, (r, outer m1) = run_calls tell inb (outer m) ∧ Holds m1 L n ∧ inbox_part L userid inb).
  { destruct (inbox_of userid) as [u|] eqn:Hu.
    - destruct (inbox_of_ok userid Huser u Hu) as (uid & _ & _ & _ & _ & Hk). eapply wp_mono; [by apply (wp_inbox_first pattern L n Hn g pn Hg Hc)|].
      intros r m1 (cs & ? & ? & Hcs). exists cs. split_and!; [done|done|]. intros c [? ?]%Hcs. by exists u.
    - apply wp_ret. exists []. split_and!; [done|done|]. by intros c ?%elem_of_nil. }
  intros r1 m1 (inb & Hr1 & Hh1 & Hinb). destruct (Z.eqb_spec r1 0) as [->|Hne]; cbn [negb].
  2:{ apply wp_ret. exists inb, [], []. rewrite !app_nil_r. split_and!; [done|done|done|..]; try by intros c ?%elem_of_nil. done. }
  (* the mailboxes of the user *)
  apply wp_bind. apply wp_mono with (P := λ r m2, ∃ own, (r, outer m2) = run_calls tell own (outer m1) ∧ Holds m2 L n ∧ own_part L userid admin own ∧
    ∀ u, inbox_of userid = Some u → own_complete pattern admin L u own).
  { destruct (inbox_of userid) as [u|] eqn:Hu.
    - destruct (inbox_of_ok userid Huser u Hu) as (uid & -> & -> & Hum & Hne & _). cbn [from_option id].
      eapply wp_mono; [by eapply (wp_list_own pattern (Some uid) admin Hpat L HL n Hn g pn Hg Hc fuel Hfuel uid)|].
      intros r m2 (cs & ? & ? & Hcs & ?). exists cs. split_and!; [done|done|..]; [|by intros u [= <-]]. intros c ?%Hcs. by eexists.
    - apply wp_ret. exists []. split_and!; [done|done|by intros c ?%elem_of_nil|done]. }
  intros r2 m2 (own & Hr2 & Hh2 & Hown & Hco). pose proof (run_calls_app tell inb own (outer m)) as Happ. rewrite <- Hr1, <- Hr2 in Happ.
  destruct (Z.eqb_spec r2 0) as [->|Hne]; cbn [negb].
  2:{ apply wp_ret. exists inb, own, []. rewrite !app_nil_r. split_and!; [done|done|done|done|..]; [by intros c ?%elem_of_nil|done]. }
  (* the others *)
  eapply wp_mono; [by apply (wp_list_rest pattern userid admin Hpat L HL n Hn g pn Hg Hc fuel Hfuel)|].
  intros r3 m3 (rest & Hr3 & Hh3 & Hrest & Hcr). exists inb, own, rest. split_and!; [|done|done|done|done|done].
  rewrite app_assoc, run_calls_app, Happ. by rewrite Z.eqb_refl, <- Hr3.
Qed.
End Listing.
