(* ===== verification/MboxlistTheorems.v ===== *)
(** * MboxlistTheorems: the list of mailboxes

    The skiplist and the flat backend keep what [ListDb] asks for.  The theorems
    about [imap/mboxlist.c], over any backend that keeps what
    [BackendOk] and [ListDb] promise, on a server of its own; each on a small list
    in a flat file; and what goes wrong. *)
From Stdlib Require Import String.
From S2P Require Import Prelude CMem.
From stdpp Require Import gmap sorting list.
From S2P Require Import CString Prog DbFile CyrusDb DbOrder BSearch BSearchProof Auth Acl AclSpec AclTheorems Glob GlobSpec GlobInit GlobMin Mboxname MboxNames MboxPolicy.
From S2P Require Skiplist SkipFile SkipClient.
From S2P Require Flat FlatSpec FlatProof FlatClient.
From S2P Require Import Mboxlist MboxlistSpec MboxlistCreate MboxlistAcl MboxlistFiles MboxlistFind MboxlistListing.
#[local] Open Scope Z_scope.

(** ** The backends are databases for the list *)

Section Backends.
Import Flat FlatSpec FlatProof FlatClient.
Context `{E : Env} (Hcalls : ∀ n, fails n = false).

#[export] Instance flat_list (Hroom : DB_LIMIT ≤ file_limit) : ListDb (flat_ok Hcalls Hroom).
Proof.
  split.
  - intros k m (H & _ & _). exact H.
  - intros k d m (Hk & _ & Hkl) (Hd & Hdl). split; [done|]. cbn. unfold LIST_COST. lia.
  - intros k m (Hk & _ & _) _. split; [done|]. cbn. unfold LIST_COST. lia.
  - done.
Defined.

#[export] Instance skiplist_list `{KO : KeyOrder compar keyok} (Hroom : 2147483648 ≤ file_limit)
    (Hkeys : ∀ k, Forall mbox_char k → keyok k) :
  ListDb (SkipClient.skiplist_ok (compar := compar) (keyok := keyok) Hcalls Hroom).
Proof.
  split.
  - intros k m (H & _ & _). cbn. by apply Hkeys.
  - intros k d m (Hk & Hne & Hkl) (_ & Hdl). pose proof (blen_nonneg k). pose proof (blen_nonneg d). split.
    + cbn. unfold SkipFile.is_off. split_and!; [by apply Hkeys|done|lia..].
    + cbn. unfold SkipFile.rsize, LIST_COST. pose proof (ROUNDUP_bounds (blen k)). pose proof (ROUNDUP_bounds (blen d)). lia.
  - intros k m (Hk & _ & _) Hs. split; [|cbn; unfold LIST_COST; lia]. cbn. split; [by apply Hkeys|]. exists k. split; [done|].
    apply Hkeys in Hk. by rewrite (proj2 (ko_eq (compar := compar) k k Hk Hk) eq_refl).
  - exact Hkeys.
Defined.
End Backends.

(** ** A server *)

Section Server.
(** What opening the files of a mailbox returns, and the MUPDATE server when it is told of one; virtual domains; MUPDATE. *)
Context (open_code activate_code : Z) (virt mup : bool).

Definition demo_site : Site := {|
  config_partitiondir := λ p, if bool_decide (p = chars "default") then Some (chars "/s") else None;
  config_metapartitiondir := λ _, None;
  config_virtdomains := virt;
  config_defdomain := None;
  config_hashimapspool := false;
  fulldirhash := false;
  config_implicitrights := Z.lor ACL_LOOKUP (Z.lor ACL_CREATE ACL_ADMIN);
  unixhierarchysep := false;
  deleteright := 99;
  defaultacl := chars "anyone lrs";
  config_defpartition := chars "default";
  allowusermoves := false;
  anyoneuseracl := true;
  config_mupdate_server := mup;
  config_mupdate_unified := false;
  config_servername := chars "srv";
  stack_inbox := replicate 491 1;
|}.

(** Mailboxes always can be made and copied; the lists they are opened with are written down. *)
Definition demo_outside : Outside := {|
  world := list (bytes * bytes);
  mailbox := bytes;
  mailbox_create := λ name _ acl _ w, (0, w);
  mailbox_open_locked := λ name _ _ acl w, (open_code, name, (name, acl) :: w);
  mailbox_open_header_path := λ name _ _ acl w, (open_code, name, (name, acl) :: w);
  mailbox_lock_header := λ _ w, (0, w);
  mailbox_write_header := λ name acl w, (0, (name, acl) :: w);
  mailbox_close := λ _ w, w;
  mailbox_delete := λ _ w, (0, w);
  mailbox_rename_copy := λ _ name _ w, (0, name, w);
  mailbox_rename_cleanup := λ _ _ w, w;
  annotatemore_delete := λ _ w, w;
  mupdate_handle := unit;
  mupdate_connect := λ w, (0, tt, w);
  mupdate_reserve := λ _ _ _ w, (0, w);
  mupdate_activate := λ _ _ _ _ w, (activate_code, w);
  mupdate_delete := λ _ _ w, (0, w);
  mupdate_disconnect := λ _ w, w;
|}.
End Server.

(** ** A list *)

Definition bob_rights : bytes := chars "lrswipkxtea".
Definition demo_boxes : list (bytes * mbent) :=
  [ (chars "team", Ent 0 (chars "default") [(chars "bob", chars "lrka")]);
    (chars "user.bob", Ent 0 (chars "default") [(chars "bob", bob_rights)]) ].
Definition demo_L : gmap bytes mbent := list_to_map demo_boxes.
Definition demo_lines : list rec := prod_map id ent_data <$> demo_boxes.

Section State.
Import Flat FlatSpec FlatProof FlatClient.
#[local] Instance demo_env : Env := Build_Env (λ _, false) Nat.odd (λ _, 1000) 2147483648 false.
Lemma no_call_fails n : fails n = false. Proof. done. Qed.
Lemma disk_is_large : DB_LIMIT ≤ file_limit. Proof. done. Qed.

Definition demo_disk : st :=
  St (Fs {[1 := lines demo_lines]} {[ [109] := 1 ]} ∅ 2 0) [109] (Some (0, 0)) (Map 0 16384 0 0) (Hdr 0 0 0 0 0 0 0).
Definition demo_server `{Ou : Outside} (w : world) : mbstate := Mb _ demo_disk w [] [] 256 0 [] [].

#[local] Instance mbox_char_dec c : Decision (mbox_char c).
Proof. unfold mbox_char, is_byte. apply _. Defined.
#[local] Instance data_char_dec c : Decision (data_char c).
Proof. unfold data_char. apply _. Defined.
#[local] Instance rec_ok_dec r : Decision (rec_ok r).
Proof. unfold rec_ok. apply _. Defined.
#[local] Instance list_key_dec k : Decision (list_key k).
Proof. unfold list_key. apply _. Defined.

Lemma demo_records : recs_ok demo_lines.
Proof.
  split; [|repeat constructor]. apply (bool_decide_unpack _). by vm_compute.
Qed.

Lemma demo_list_file : flat_db demo_disk 1 demo_lines.
Proof. split; try done; [apply demo_records|by exists 0|by right]. Qed.

Lemma demo_list_ok : list_ok demo_L.
Proof.
  apply map_Forall_to_list. assert (Forall (λ x : bytes * mbent, list_key x.1 ∧ ent_ok x.2) (map_to_list demo_L)) as H.
  { apply (bool_decide_unpack _). by vm_compute. }
  eapply Forall_impl; [exact H|]. by intros [k e].
Qed.

Lemma demo_holds (open_code activate_code : Z) (w : list (bytes * bytes)) :
  Holds (BO := flat_ok no_call_fails disk_is_large) (Ou := demo_outside open_code activate_code)
    (demo_server (Ou := demo_outside open_code activate_code) w) demo_L 1000.
Proof.
  split; [apply demo_list_ok|]. exists 1, demo_lines. split; [apply demo_list_file|]. split; [|by vm_compute].
  unfold contents, lines_of, demo_L, demo_lines. by rewrite <- list_to_map_fmap.
Qed.
End State.

(** ** Entries *)

(** The entry [mboxlist_makeentry] writes for a mailbox is read back by
    [mboxlist_mylookup] as its type, partition and list, whatever the int, for a
    partition without spaces that fits the buffer. *)
Theorem entry_roundtrip (mbtype : Z) (part acl : bytes) (Htype : is_s32 mbtype) (Hpart : part_ok part) (Hacl : is_cstring acl) :
  parse_entry (mboxlist_makeentry mbtype part acl) = Ok (mbtype, part, acl).
Proof. by apply parse_makeentry. Qed.

(** ** The operations *)

Section Server.
Context `{B : Backend} {BO : BackendOk B} {LD : ListDb BO} `{Si : Site} `{Ou : Outside} `{A : Auth}.
Context (Hsolo : config_mupdate_server = false).
Implicit Types (m : mbstate) (L : gmap bytes mbent) (n : Z).

Section Create.
Context L (name : bytes) (partition userid : option bytes) (isadmin localonly force own : bool).
Context (bad : Z) (above : option mbent) (top : option table) (mbtype : Z) (dbonly : bool).
Context (Hkey : list_key name) (Hlen : blen name ≤ MAX_MAILBOX_NAME) (Htype : 0 ≤ mbtype < 16).
Context (Hbad : mboxname_policycheck unixhierarchysep (local_name name ++ [0]) = Ok bad).
Context (Hown : owns userid name = Ok own).
Context (Hnear : nearest L name above).
Context (Htop : top_acl name (local_name name) force = Ok (encode <$> top)) (Hacl : ∀ acl, top = Some acl → acl_ok acl).
Context (Hpart : ∀ p, partition = Some p → place_ok p).
Context (Hdefpart : place_ok config_defpartition) (Hdefsize : blen config_defpartition ≤ MAX_PARTITION_LEN).

(** C6: [mboxlist_createmailbox] is a function of the list and the files.  It
    refuses what [create_check] refuses, with its code, and types that cannot be
    asked for; otherwise it makes the files, unless the mailbox is remote or only
    an entry, and returns what that returns.  When it returns 0 the list has the new
    entry and is otherwise what it was, and when it does not the list is what it
    was: no reserved entry is left behind. *)
Theorem createmailbox_refines (retries : nat) (m : mbstate) (n : Z)
    (Hlist : Holds m L n) (Hroom : n + 2 * LIST_COST < DB_LIMIT) :
  wp (mboxlist_createmailbox (S retries) name mbtype partition isadmin userid localonly force dbonly) (λ r m',
    match create_check L name partition isadmin localonly force own bad above top with
    | inl c => r = c ∧ r ≠ 0 ∧ outer m' = outer m ∧ Holds m' L n
    | inr (acl, part) =>
        if has mbtype (Z.lor MBTYPE_MOVING MBTYPE_RESERVE)
        then r = IMAP_MAILBOX_NOTSUPPORTED ∧ outer m' = outer m ∧ Holds m' L n
        else
          let '(c, w) := if dbonly || has mbtype MBTYPE_REMOTE then (0, outer m)
                         else mailbox_create name part (encode acl) (has mbtype MBTYPE_NETNEWS) (outer m) in
          r = c ∧ outer m' = w ∧ L !! name = None ∧
          Holds m' (if c =? 0 then <[name := Ent mbtype part acl]> L else L) (n + 2 * LIST_COST)
    end) m.
Proof using All.
  pose proof (proj1 Hlist) as HL. eapply wp_mono.
  { by apply (wp_create L HL name partition userid isadmin localonly force own bad above top). }
  assert (decided bad) as Hdec by (eapply policy_decided; [by apply list_key_cstring|done]).
  intros r m'. unfold create_result. pose proof (new_ent_ok L HL name partition isadmin localonly force own bad above top Hnear Htop Hpart Hdefpart Hacl) as Hnew.
  pose proof (create_check_code L name partition isadmin localonly force own bad above top) as Hcode.
  destruct (create_check L name partition isadmin localonly force own bad above top) as [c|[acl part]].
  - intros (-> & ? & ?). split_and!; try done. by apply Hcode.
  - destruct (Hnew acl part eq_refl) as (_ & _ & HLn). destruct (has mbtype (Z.lor _ _)); [done|].
    destruct (if dbonly || _ then _ else _) as [c w]. intros (-> & -> & ?). done.
Qed.

(** C7: who can create a mailbox, and what it is given.  When
    [mboxlist_createmailbox] returns 0 there was no mailbox of that name, the list gains
    just that one, of the type asked for, on the partition asked for or that of
    the closest mailbox above, with that one's list of rights, and the user is an administrator, or has the
    right to create there, or it is below the own INBOX and implicit rights
    include administration.  Where there is nothing above, only administrators can. *)
Theorem create_by_rights (retries : nat) (m : mbstate) (n : Z)
    (Hlist : Holds m L n) (Hroom : n + 2 * LIST_COST < DB_LIMIT) :
  wp (mboxlist_createmailbox (S retries) name mbtype partition isadmin userid localonly force dbonly) (λ r m',
    r = 0 → L !! name = None ∧ ∃ acl part,
      Holds m' (<[name := Ent mbtype part acl]> L) (n + 2 * LIST_COST) ∧
      match above with
      | Some p => acl = e_acl p ∧ part = default (e_part p) partition ∧
          (isadmin = true ∨ has (rights_on (e_acl p)) ACL_CREATE = true ∨ (own = true ∧ has config_implicitrights ACL_ADMIN = true))
      | None => top = Some acl ∧ part = default config_defpartition partition ∧
          (isadmin = true ∨ (own = true ∧ has config_implicitrights ACL_ADMIN = true))
      end) m.
Proof using All.
  pose proof (proj1 Hlist) as HL. eapply wp_mono.
  { by apply (wp_create L HL name partition userid isadmin localonly force own bad above top). }
  assert (decided bad) as Hdec by (eapply policy_decided; [by apply list_key_cstring|done]).
  intros r m' Hr Hr0. subst r. unfold create_result in Hr.
  pose proof (new_ent_ok L HL name partition isadmin localonly force own bad above top Hnear Htop Hpart Hdefpart Hacl) as Hnew.
  pose proof (create_check_code L name partition isadmin localonly force own bad above top) as Hcode.
  destruct (create_check L name partition isadmin localonly force own bad above top) as [c|[acl part]] eqn:Hcheck.
  { destruct Hr as [Hc _]. by destruct (Hcode c Hdec eq_refl). }
  destruct (Hnew acl part eq_refl) as (_ & _ & HLn). split; [done|]. exists acl, part.
  destruct (has mbtype (Z.lor _ _)); [by destruct Hr|].
  destruct (if dbonly || _ then _ else _) as [c w]. destruct Hr as (<- & _ & Hh). split; [exact Hh|].
  by eapply create_check_rights.
Qed.
End Create.

(** *** Access control lists *)

Section Setacl.
Context {HA : AuthOk A}.
Context (Hwrite : ∀ mb acl w, (mailbox_write_header mb acl w).1 = 0).
Context L (name identifier : bytes) (rights : option bytes) (isadmin : bool) (userid : bytes).
Context (Hkey : list_key name) (Hident : is_cstring identifier).
Context (Hfits : ∀ e id acl, L !! name = Some e → canon_ident name identifier rights isadmin = inr id →
  new_acl (e_acl e) id rights (owner_of name userid) = Some acl → acl_ok acl).

(** C16: [mboxlist_setacl] is a function of the list and the files, [setacl_result]: it
    returns its code, leaves the files as it says, closed again, and the list changed
    in the one entry, or not at all.  Headers of locked mailboxes can be
    written. *)
Theorem setacl_refines (retries : nat) (m : mbstate) (n : Z) (Hlist : Holds m L n) (Hroom : n + LIST_COST < DB_LIMIT) :
  wp (mboxlist_setacl (S retries) name identifier rights isadmin userid) (λ r m',
    let '(c, e, w) := setacl_result L name identifier rights isadmin userid (outer m) in
    r = c ∧ outer m' = w ∧ Holds m' (match e with Some e => <[name := e]> L | None => L end) (n + LIST_COST)) m.
Proof using All. by apply wp_setacl. Qed.

(** C8: who can change rights, and which.  When [mboxlist_setacl] does not return 0 the list
    is what it was.  When it does, the mailbox was there, the user is an
    administrator or has the right to administer it, and in its entry the
    rights of the identifier, in its canonical form, are those that were asked for, and everybody else's are what they
    were.  The implicit rights are added to what was asked for only when the owner
    of the mailbox changes his own entry: they are his afterwards, or, when he takes
    rights away with "-", lost; and in the entry that denies him rights they are not
    among the rights that are asked for.  For anybody else, an administrator who sets the
    rights of the owner included, the access is exactly what was asked for. *)
Theorem setacl_by_rights (retries : nat) (m : mbstate) (n : Z) (Hlist : Holds m L n) (Hroom : n + LIST_COST < DB_LIMIT)
    (Hdr : right_of deleteright = 0 ∨ deleteright = 120) (Huser : negative userid = false) :
  wp (mboxlist_setacl (S retries) name identifier rights isadmin userid) (λ r m',
    (r ≠ 0 → Holds m' L (n + LIST_COST)) ∧
    (r = 0 → ∃ e ident id a acl,
       L !! name = Some e ∧ (isadmin = true ∨ has (rights_on (e_acl e)) ACL_ADMIN = true) ∧
       canon_ident name identifier rights isadmin = inr ident ∧
       change_of ident rights (owner_of name userid) = Ok (Some (id, a)) ∧
       Holds m' (<[name := Ent (e_type e) (e_part e) acl]> L) (n + LIST_COST) ∧
       (∀ j, rights_in deleteright acl j =
          if bool_decide (j = id) then Z.land (access_of (change_mode rights).1 a (rights_in deleteright (e_acl e) id)) ACL_FULL
          else rights_in deleteright (e_acl e) j) ∧
       (owner_of name userid = Some id →
          ∀ k, Z.testbit (Z.land config_implicitrights ACL_FULL) k = true →
            Z.testbit (rights_in deleteright acl id) k = match (change_mode rights).1 with ACL_MODE_REMOVE => false | _ => true end) ∧
       (negative ident = true → owner_of name userid = Some (tail id) →
          a = Z.land (change_mode rights).2 (Z.lnot config_implicitrights)) ∧
       (owner_of name userid ≠ Some (if negative ident then tail id else id) → a = (change_mode rights).2))) m.
Proof using All.
  eapply wp_mono; [by apply wp_setacl|]. intros r m'. destruct (setacl_result _ _ _ _ _ _ _) as [[c e'] w] eqn:Hres.
  intros (-> & _ & Hh). destruct (setacl_result_ok _ _ _ _ _ _ _ _ _ _ Hres) as [[Hc ->]|(Hc & e & ident & id & a & He & Hright & Hident' & Hch & ->)].
  { split; [done|]. done. }
  subst c. split; [done|]. intros _. destruct (proj1 (map_Forall_lookup _ _) (proj1 Hlist) _ _ He) as [_ (_ & _ & [[_ Hnd] _])].
  pose proof (λ j, changed_rights deleteright (e_acl e) id (access_of (change_mode rights).1 a (rights_in deleteright (e_acl e) id)) j Hdr Hnd) as Hrights.
  exists e, ident, id, a. eexists. split_and!; [done|done|done|done|exact Hh|exact Hrights| | |by intros Ho; eapply other_access].
  2: { intros Hn Ho. rewrite Ho in Hch. by eapply owner_denied. }
  intros Ho k Hk. rewrite Hrights, bool_decide_true by done. rewrite Ho in Hch.
  assert (owner_of name userid = Some id → id = userid) as Hu by (unfold owner_of; destruct (users_mailbox _ _); [by intros [=]|done]).
  eapply owner_keeps; [|done]. eapply owner_access; [|reflexivity|exact Hch]. by rewrite (Hu Ho).
Qed.
End Setacl.

(** *** Deleting and renaming *)

(** C17: [mboxlist_deletemailbox] is a function of the list and the files,
    [delete_result]: it refuses without the right to delete, and lies about it to
    those who may not look; otherwise the entry goes, and only that one, and then the files; what
    it returns is what removing them returned. *)
Theorem deletemailbox_refines (retries : nat) L (name : bytes) (isadmin : bool) (userid : option bytes) (checkacl local_only force own : bool)
    (m : mbstate) (n : Z) (Hlist : Holds m L n) (Hroom : n + LIST_COST < DB_LIMIT) (Hkey : list_key name) (Hown : owns userid name = Ok own) :
  wp (mboxlist_deletemailbox (S retries) name isadmin userid checkacl local_only force (Some None)) (λ r m',
    let '(c, gone, w) := delete_result L name isadmin userid checkacl own force (outer m) in
    r = c ∧ outer m' = w ∧ Holds m' (if gone then delete name L else L) (n + LIST_COST)) m.
Proof using All. by apply wp_delete. Qed.

Section Rename.
Context L (oldname newname : bytes) (partition userid : option bytes) (isadmin force own : bool).
Context (bad : Z) (above : option mbent) (top : option table).
Context (Hold : list_key oldname) (Hkey : list_key newname) (Hlen : blen newname ≤ MAX_MAILBOX_NAME).
Context (Hbad : mboxname_policycheck unixhierarchysep (local_name newname ++ [0]) = Ok bad).
Context (Hown : owns userid newname = Ok own).
Context (Hnear : nearest L newname above).
Context (Htop : top_acl newname (local_name newname) force = Ok (encode <$> top)) (Hacl : ∀ acl, top = Some acl → acl_ok acl).
Context (Hpart : ∀ p, partition = Some p → place_ok p).
Context (Hdefpart : place_ok config_defpartition) (Hdefsize : blen config_defpartition ≤ MAX_PARTITION_LEN).
Context (Hlocal : ∀ e, L !! oldname = Some e → 0 ≤ e_type e < 16 ∧ has (e_type e) MBTYPE_REMOTE = false ∧
  ∀ path mpath, entry_path oldname e = inr (path, mpath) →
    ∃ x, rename_rights oldname newname partition isadmin userid (e_type e) path (ent_acl e) = Ok x).

(** C18: [mboxlist_renamemailbox] of a local mailbox is a function of the list and the
    files, [rename_result], when every list of rights fits the buffer it is looked up in.  The entry
    moves with its type and rights, to the partition asked for or that of the
    mailbox above the new name; the INBOX of the user stays.  A copy that
    fails leaves the list as it was.  It also says what should not be: the files are
    opened with the rights of the mailbox above the new name, and when they cannot be opened
    the entry moves without them. *)
Theorem renamemailbox_refines (retries : nat) (m : mbstate) (n : Z)
    (Hlist : Holds m L n) (Hroom : n + 3 * LIST_COST < DB_LIMIT) (Hfit : lists_fit m L) :
  wp (mboxlist_renamemailbox (S retries) oldname newname partition isadmin userid force) (λ r m',
    let '(c, L', w) := rename_result L oldname newname partition userid isadmin force own bad above top (outer m) in
    r = c ∧ outer m' = w ∧ Holds m' L' (n + 3 * LIST_COST)) m.
Proof using All. apply wp_renamemailbox; try done. apply Hlist. Qed.
End Rename.

Section List.
Context (Hvirt : config_virtdomains = false).
Context (behind : bytes → bytes) (Hbehind : ∀ k, is_cstring (behind k)) (tell : bytes → Z → bool → world → Z * world).
Context (pattern : bytes) (Hpat : Forall mbox_char pattern) (Hlen : blen pattern ≤ MAX_MAILBOX_NAME).
Context (userid : option bytes) (Huser : ∀ u, userid = Some u → Forall mbox_char u ∧ u ≠ []) (admin : bool).
Context (fuel : nat) (m : mbstate) L (n : Z) (Hlist : Holds m L n) (Hroom : n < DB_LIMIT) (Hfuel : (base.size L < fuel)%nat).

(** C9: LIST shows nobody what he may not see.  Whatever the pattern and the database, every call
    that [mboxlist_findall] makes is about a mailbox of the list: the INBOX of the user, or
    one that he may look up, or any for an administrator.  It is shown under its name, or, if it is
    the user's, with the word INBOX, in any case, in place of "user" and the user; and as a whole,
    or as what is above a separator.  The list stays what it was, and the
    code returned is that of the last call. *)
Theorem findall_sound :
  wp (mboxlist_findall behind (write_down tell) fuel pattern admin userid) (λ r m', Holds m' L n ∧ ∃ cs,
    (r, outer m') = run_calls tell cs (outer m) ∧
    ∀ name len maycreate, (name, len, maycreate) ∈ cs → maycreate = true ∧ part_len name len ∧ ∃ k e, L !! k = Some e ∧
      ((inbox_of userid = Some k ∧ (says_inbox name ∨ name = k)) ∨
       (may_see admin e = true ∧
        (name = k ∨ ∃ u w, inbox_of userid = Some u ∧ (u ++ [DOT]) `prefix_of` k ∧ says_inbox w ∧ name = w ++ from (blen u) k)))) m.
Proof using LD Hvirt Hbehind Hpat Hlen Huser Hlist Hroom Hfuel.
  eapply wp_mono; [by apply (wp_findall behind Hbehind tell fuel pattern admin userid m L n)|].
  intros r m' (inb & own & rest & Hr & Hh & Hinb & Hown & Hrest & _). split; [done|]. exists (inb ++ own ++ rest). split; [done|].
  intros name len mc [Hc|[Hc|Hc]%elem_of_app]%elem_of_app.
  - destruct (Hinb _ Hc) as (u & Hu & [e He] & Hl & Hmc & Hn). cbn [fst snd] in *. split_and!; [done|by left|]. exists u, e. auto.
  - destruct (Hown _ Hc) as (u & Hu & k & e & He & Hp & Hn & Hs & Hl & Hmc). cbn [fst snd] in *. split_and!; [done|done|].
    exists k, e. split; [done|]. right. split; [done|]. destruct Hn as [|(w & ? & ?)]; [by left|right]. by exists u, w.
  - destruct (Hrest _ Hc) as (e & He & _ & Hs & Hl & Hmc). cbn [fst snd] in *. split_and!; [done|done|]. exists name, e. auto.
Qed.

(** C10: and he is shown everything that he asks for.  For a pattern without percent signs, and a
    caller that goes on, the calls are those for the INBOX, for the user's mailboxes, and for the others;
    a mailbox that the user may look up and that is not his is shown as a whole exactly when its name is in
    the language of the pattern, and so is one of his, when the
    pattern begins with the name of his INBOX.  (No name is longer than a mailbox name
    may be, and for users who are not administrators no "!" is before the next NUL.) *)
Theorem findall_complete (Hplain : PCT ∉ pattern) (Hgoeson : ∀ name len mc w, (tell name len mc w).1 = 0) :
  wp (mboxlist_findall behind (write_down tell) fuel pattern admin userid) (λ r m', r = 0 ∧ ∃ inb own rest,
    (0, outer m') = run_calls tell (inb ++ own ++ rest) (outer m) ∧
    ∀ k e, L !! k = Some e → may_see admin e = true → domainless behind admin k = true → blen k ≤ MAX_MAILBOX_NAME →
      (own_mailbox (inbox_of userid) k = false → ((k, blen k, true) ∈ rest ↔ gmatch true 46 Z.eqb pattern k)) ∧
      (∀ u, inbox_of userid = Some u → starts_with (fixed_prefix pattern) u = true → (u ++ [DOT]) `prefix_of` k →
         ((k, blen k, true) ∈ own ↔ gmatch true 46 Z.eqb pattern k))) m.
Proof using LD Hvirt Hbehind Hpat Hlen Huser Hlist Hroom Hfuel.
  eapply wp_mono; [by apply (wp_findall behind Hbehind tell fuel pattern admin userid m L n)|].
  intros r m' (inb & own & rest & Hr & _ & _ & _ & _ & Hall). rewrite run_calls_zero in Hr by done. injection Hr as -> Ho.
  destruct (Hall eq_refl) as [Hown Hrest]. split; [done|]. exists inb, own, rest. rewrite run_calls_zero by done. rewrite <- Ho. split; [done|].
  intros k e He Hs Hd Hl. split; [intros ?; by eapply Hrest|]. intros u Hu Hn Hp. by eapply (Hown u Hu).
Qed.
End List.
End Server.

(** ** On a small list *)

(** A caller that writes down what it is shown, and how much of it. *)
Definition tell_to (r : Z) (name : bytes) (len : Z) (maycreate : bool) (w : list (bytes * bytes)) : Z * list (bytes * bytes) :=
  (r, (name, prec len name) :: w).

Section Demo.
#[local] Existing Instance demo_env.
#[local] Instance demo_backend : Backend := Flat.cyrusdb_flat.
#[local] Instance demo_flat : BackendOk Flat.cyrusdb_flat := FlatClient.flat_ok no_call_fails disk_is_large.
#[local] Instance demo_list_db : ListDb demo_flat := flat_list no_call_fails disk_is_large.
#[local] Instance site : Site := demo_site false false.
#[local] Instance files : Outside := demo_outside 0 0.
#[local] Existing Instance bobs_auth.
#[local] Instance bobs_auth_ok : AuthOk bobs_auth := auth_unix_ok no_groups false no_groups_ok _.

Definition team : bytes := chars "team".
Definition team_ent : mbent := Ent 0 (chars "default") [(bob, chars "lrka")].
Definition demo_start : mbstate := demo_server [].

Lemma entry_roundtrip_witness :
  parse_entry (mboxlist_makeentry (-12) (chars "default") (chars "bob")) = Ok (-12, chars "default", chars "bob").
Proof. apply entry_roundtrip; [by vm_compute|split_and!; [|..|done]; apply (bool_decide_unpack _); by vm_compute|apply (bool_decide_unpack _); by vm_compute]. Defined.

Lemma team_is_above : nearest demo_L (team ++ chars ".x") (Some team_ent).
Proof using.
  exists team. split; [exists (chars "x"); split; [done|]; apply (bool_decide_unpack _); by vm_compute|]. split; [done|].
  intros q Hq Hl. apply (below_last team (chars "x") q) in Hq as [_ [->|Hq]]; [lia| |].
  - apply none_below in Hq; [done|]. apply (bool_decide_unpack _); by vm_compute.
  - apply (bool_decide_unpack _); by vm_compute.
Qed.

Lemma default_place : place_ok (chars "default").
Proof using. split; [split_and!|]; apply (bool_decide_unpack _); by vm_compute. Qed.

Lemma default_acl_ok acl : Some [(anyone, chars "lrs")] = Some acl → acl_ok acl.
Proof using. intros [= <-]. apply (bool_decide_unpack _). by vm_compute. Qed.

Lemma team_is_there : demo_L !! team = Some team_ent.
Proof using. vm_compute; reflexivity. Qed.

(** What is to be checked of the arguments of a creation. *)
Ltac checks := first
  [ apply default_acl_ok | apply default_place | apply demo_holds | done
  | vm_compute; reflexivity
  | split_and!; [apply (bool_decide_unpack _); by vm_compute|done|by vm_compute] ].

(** Bob, who may create below "team", does. *)
Lemma createmailbox_refines_witness :
  wp (mboxlist_createmailbox 1 (team ++ chars ".x") 0 None false (Some bob) false false false) (λ r m',
    r = 0 ∧ outer m' = [] ∧ Holds m' (<[team ++ chars ".x" := team_ent]> demo_L) (1000 + 2 * LIST_COST)) demo_start.
Proof.
  eapply wp_mono; [eapply (createmailbox_refines (Si := site) (Ou := files) eq_refl demo_L (team ++ chars ".x") None (Some bob)
    false false false false 0 (Some team_ent) (Some [(anyone, chars "lrs")]) 0 false); [checks|checks|checks|checks|checks|apply team_is_above|checks|checks|by intros p [=]|checks..]|].
  intros r m'. by intros (-> & -> & _ & ?).
Defined.
Lemma create_by_rights_witness :
  wp (mboxlist_createmailbox 1 (team ++ chars ".x") 0 None false (Some bob) false false false) (λ r m',
    r = 0 → ∃ acl part, Holds m' (<[team ++ chars ".x" := Ent 0 part acl]> demo_L) (1000 + 2 * LIST_COST) ∧ acl = [(bob, chars "lrka")]) demo_start.
Proof.
  eapply wp_mono; [eapply (create_by_rights (Si := site) (Ou := files) eq_refl demo_L (team ++ chars ".x") None (Some bob)
    false false false false 0 (Some team_ent) (Some [(anyone, chars "lrs")]) 0 false);
    [checks|checks|checks|checks|checks|apply team_is_above|checks|checks|by intros p [=]|checks..]|].
  intros r m' H Hr. destruct (H Hr) as (_ & acl & part & ? & -> & _ & _). by eexists _, part.
Defined.

(** Bob lets everybody read his INBOX. *)
Definition bobs_inbox : bytes := chars "user.bob".
Definition bobs_new_acl : table := [(bob, bob_rights); (anyone, [114])].

Lemma inbox_fits e id acl : demo_L !! bobs_inbox = Some e → canon_ident bobs_inbox anyone (Some (chars "+r")) false = inr id →
  new_acl (e_acl e) id (Some (chars "+r")) (owner_of bobs_inbox bob) = Some acl → acl_ok acl.
Proof using.
  assert (demo_L !! bobs_inbox = Some (Ent 0 (chars "default") [(bob, bob_rights)])) as -> by (vm_compute; reflexivity).
  intros [= <-] [= <-] H. assert (Some acl = Some bobs_new_acl) as [= ->] by (rewrite <- H; vm_compute; reflexivity).
  apply (bool_decide_unpack _). by vm_compute.
Qed.

Lemma setacl_refines_witness :
  wp (mboxlist_setacl 1 bobs_inbox anyone (Some (chars "+r")) false bob) (λ r m',
    r = 0 ∧ Holds m' (<[bobs_inbox := Ent 0 (chars "default") bobs_new_acl]> demo_L) (1000 + LIST_COST)) demo_start.
Proof.
  eapply wp_mono; [eapply (setacl_refines (Si := site) (Ou := files) eq_refl (λ _ _ _, eq_refl) demo_L bobs_inbox anyone (Some (chars "+r")) false bob);
    [checks|apply (bool_decide_unpack _); by vm_compute|apply inbox_fits|checks|checks]|].
  assert (setacl_result demo_L bobs_inbox anyone (Some (chars "+r")) false bob (outer demo_start) =
    (0, Some (Ent 0 (chars "default") bobs_new_acl), [(bobs_inbox, encode bobs_new_acl); (bobs_inbox, encode [(bob, bob_rights)])])) as ->
    by (vm_compute; reflexivity).
  intros r m'. by intros (-> & _ & ?).
Defined.

Lemma setacl_by_rights_witness :
  wp (mboxlist_setacl 1 bobs_inbox anyone (Some (chars "+r")) false bob) (λ r m',
    r = 0 → ∃ acl, Holds m' (<[bobs_inbox := Ent 0 (chars "default") acl]> demo_L) (1000 + LIST_COST) ∧
      rights_in deleteright acl anyone = ACL_READ) demo_start.
Proof.
  eapply wp_mono; [eapply (setacl_by_rights (Si := site) (Ou := files) eq_refl (λ _ _ _, eq_refl) demo_L bobs_inbox anyone (Some (chars "+r")) false bob);
    [checks|apply (bool_decide_unpack _); by vm_compute|apply inbox_fits|checks|checks|by left|done]|].
  assert (demo_L !! bobs_inbox = Some (Ent 0 (chars "default") [(bob, bob_rights)])) as -> by (vm_compute; reflexivity).
  assert (change_of anyone (Some (chars "+r")) (owner_of bobs_inbox bob) = Ok (Some (anyone, ACL_READ))) as Hch by (vm_compute; reflexivity).
  intros r m' [_ H] Hr. destruct (H Hr) as (e & ident & id & a & acl & [= <-] & _ & [= <-] & Hc & Hh & Hri & _).
  rewrite Hch in Hc. injection Hc as <- <-. exists acl. split; [exact Hh|]. rewrite Hri, bool_decide_true by done. vm_compute; reflexivity.
Defined.

(** An administrator deletes "team" without its rights. *)
Lemma deletemailbox_refines_witness :
  wp (mboxlist_deletemailbox 1 team true (Some bob) false false false (Some None)) (λ r m',
    r = 0 ∧ Holds m' (delete team demo_L) (1000 + LIST_COST)) demo_start.
Proof.
  eapply wp_mono; [eapply (deletemailbox_refines (Si := site) (Ou := files) eq_refl 0 demo_L team true (Some bob) false false false false); checks|].
  assert (delete_result demo_L team true (Some bob) false false false (outer demo_start) = (0, true, [(team, encode (e_acl team_ent))])) as ->
    by (vm_compute; reflexivity).
  intros r m'. by intros (-> & _ & ?).
Defined.

(** And renames it; its files are opened with the rights of Bob's INBOX. *)
Definition below_inbox : bytes := bobs_inbox ++ chars ".old".

Lemma inbox_is_above : nearest demo_L below_inbox (Some (Ent 0 (chars "default") [(bob, bob_rights)])).
Proof using.
  exists bobs_inbox. split; [exists (chars "old"); split; [done|]; apply (bool_decide_unpack _); by vm_compute|].
  split; [vm_compute; reflexivity|].
  intros q Hq Hl. apply (below_last bobs_inbox (chars "old") q) in Hq as [_ [->|Hq]]; [lia| |apply (bool_decide_unpack _); by vm_compute].
  apply (below_last (chars "user") bob q) in Hq as [_ [->|Hq]]; [by vm_compute in Hl| |apply (bool_decide_unpack _); by vm_compute].
  apply none_below in Hq; [done|]. apply (bool_decide_unpack _); by vm_compute.
Qed.

Lemma demo_room_fits : lists_fit demo_start demo_L.
Proof using.
  assert (map_Forall (λ k e, blen (ent_acl e) < acl_size demo_start) demo_L) as H; [|by intros k e He; apply (H k)].
  apply map_Forall_to_list. assert (Forall (λ x : bytes * mbent, blen (ent_acl x.2) < 256) (map_to_list demo_L)) as H.
  { apply (bool_decide_unpack _). by vm_compute. }
  eapply Forall_impl; [exact H|]. by intros [k e].
Qed.

Lemma renamemailbox_refines_witness :
  wp (mboxlist_renamemailbox 1 team below_inbox None true (Some bob) false) (λ r m',
    r = 0 ∧ outer m' = [(team, encode [(bob, bob_rights)])] ∧ Holds m' (<[below_inbox := team_ent]> (delete team demo_L)) (1000 + 3 * LIST_COST)) demo_start.
Proof.
  eapply wp_mono; [eapply (renamemailbox_refines (Si := site) (Ou := files) eq_refl demo_L team below_inbox None (Some bob) true false true 0
    (Some (Ent 0 (chars "default") [(bob, bob_rights)])) None);
    [checks|checks|checks|checks|checks|apply inbox_is_above|checks|by intros acl [=]|by intros p [=]|checks|checks| |checks|checks|apply demo_room_fits]|].
  - rewrite team_is_there. intros e [= <-]. split; [done|]. split; [done|]. intros path mpath _. eexists. unfold rename_rights.
    destruct (bool_decide_reflect (team = below_inbox)) as [E|]; [exfalso; by vm_compute in E|]. vm_compute; reflexivity.
  - assert (rename_result demo_L team below_inbox None (Some bob) true false true 0
      (Some (Ent 0 (chars "default") [(bob, bob_rights)])) None (outer demo_start) =
      (0, <[below_inbox := team_ent]> (delete team demo_L), [(team, encode [(bob, bob_rights)])])) as -> by (vm_compute; reflexivity).
    intros r m'. by intros (-> & -> & ?).
Defined.

Lemma list_words (p : bytes) : bool_decide (Forall (λ c, 10 < c < 256) p) = true → Forall mbox_char p.
Proof using. intros H%bool_decide_eq_true. eapply Forall_impl; [exact H|]. intros c. unfold mbox_char, is_byte. cbn. lia. Qed.

Lemma few_boxes : (base.size demo_L < 10)%nat.
Proof using. apply Nat.ltb_lt. by vm_compute. Qed.

Lemma bobs_name u : Some bob = Some u → Forall mbox_char u ∧ u ≠ [].
Proof using. intros [= <-]. split; [by apply list_words; vm_compute|done]. Qed.

(** Bob asks for everything. *)
Lemma findall_sound_witness :
  wp (mboxlist_findall (λ _, []) (write_down (tell_to 0)) 10 [STAR] false (Some bob)) (λ r m', Holds m' demo_L 1000 ∧ ∃ cs,
    (r, outer m') = run_calls (tell_to 0) cs [] ∧
    ∀ name len maycreate, (name, len, maycreate) ∈ cs → ∃ k e, demo_L !! k = Some e ∧ (inbox_of (Some bob) = Some k ∨ may_see false e = true)) demo_start.
Proof.
  eapply wp_mono; [eapply (findall_sound (Si := site) (Ou := files) eq_refl (λ _, []) (λ _, List.Forall_nil _) (tell_to 0) [STAR]);
    [by apply list_words; vm_compute|done|apply bobs_name|apply demo_holds|done|apply few_boxes]|].
  intros r m' (Hh & cs & Hr & Hcs). split; [done|]. exists cs. split; [done|].
  intros name len mc Hc. destruct (Hcs _ _ _ Hc) as (_ & _ & k & e & He & [[? _]|[? _]]); exists k, e; auto.
Defined.

(** And for what begins with "te". *)
Lemma findall_complete_witness :
  wp (mboxlist_findall (λ _, []) (write_down (tell_to 0)) 10 (chars "te*") false (Some bob)) (λ r m', r = 0 ∧ ∃ cs,
    (0, outer m') = run_calls (tell_to 0) cs [] ∧ (team, 4, true) ∈ cs) demo_start.
Proof.
  eapply wp_mono; [eapply (findall_complete (Si := site) (Ou := files) eq_refl (λ _, []) (λ _, List.Forall_nil _) (tell_to 0) (chars "te*"));
    [by apply list_words; vm_compute|by vm_compute|apply bobs_name|apply demo_holds|done|apply few_boxes|by apply (bool_decide_unpack _); vm_compute|done]|].
  intros r m' (-> & inb & own & rest & Hr & Hall). split; [done|]. exists (inb ++ own ++ rest). split; [done|].
  apply elem_of_app. right. apply elem_of_app. right.
  destruct (Hall team team_ent team_is_there) as [H _]; [by vm_compute|by vm_compute|by vm_compute|]. apply H; [by vm_compute|].
  apply backtrack_ok. by vm_compute.
Defined.
End Demo.

(** ** What goes wrong *)

Section Runs.
(** The code of opening files, that of the MUPDATE server, and whether there is one. *)
Context (open_code activate_code : Z) (mup : bool).
#[local] Existing Instance demo_env.
#[local] Instance run_backend : Backend := Flat.cyrusdb_flat.
#[local] Instance run_site : Site := demo_site false mup.
#[local] Instance run_files : Outside := demo_outside open_code activate_code.
#[local] Existing Instance bobs_auth.

(** A process that has just started. *)
Definition outcome {X} (p : Prog mbstate X) : result X := '(x, _) ← p (Mb _ demo_disk [] [] [] 0 0 [] []); Ok x.
Definition acl_of (name : bytes) : Prog mbstate (Z * bytes) :=
  '(r, f) ← mboxlist_lookup name; if r =? 0 then acl ← read_acl f; mret (r, acl) else mret (r, []).

Definition rename_team : Prog mbstate (Z * list (bytes * bytes) * (Z * bytes)) :=
  r ← mboxlist_renamemailbox 1 team below_inbox None true (Some bob) false;
  w ← get outer; x ← acl_of below_inbox; mret (r, w, x).
(** The same, when many have rights on Bob's INBOX. *)
Definition rename_below_many : Prog mbstate (Z * list (bytes * bytes) * (Z * bytes)) :=
  _ ← mboxlist_update bobs_inbox 0 (chars "default") (encode ((λ i, ([i], chars "lrs")) <$> seqZ 97 26)) true;
  rename_team.

Definition setacl_run (rights : bytes) : Prog mbstate (Z * (Z * bytes)) :=
  r ← mboxlist_setacl 1 bobs_inbox bob (Some rights) false bob; x ← acl_of bobs_inbox; mret (r, x).

Definition create_run : Prog mbstate (Z * (Z * bytes)) :=
  r ← mboxlist_createmailbox 1 (team ++ chars ".x") 0 None true None false false false;
  x ← acl_of (team ++ chars ".x"); mret (r, x).

(** Removing a mailbox that is said to be remote, but not where, and the lock afterwards. *)
Definition deleteremote_run : Prog mbstate (Z * option lock) :=
  _ ← mboxlist_update team MBTYPE_REMOTE (chars "srv") [] true;
  '(r, _) ← mboxlist_deleteremote 1 team None; h ← get (λ m, held (fs (disk m)) !! map_ino (mp (disk m))); mret (r, h).

(** What Bob, who has a mailbox below his INBOX, is shown; of the alternate namespace; by a caller that returns a code. *)
Definition below_x : bytes := bobs_inbox ++ chars ".x".
Definition with_x {X} (p : Prog mbstate X) : Prog mbstate (X * list (bytes * bytes)) :=
  _ ← mboxlist_update below_x 0 (chars "default") (encode [(bob, bob_rights)]) true; x ← p; w ← get outer; mret (x, w).
Definition list_run (behind : bytes) (pattern : bytes) : Prog mbstate (Z * list (bytes * bytes)) :=
  with_x (mboxlist_findall (λ _, behind) (write_down (tell_to 0)) 10 pattern false (Some bob)).
Definition alt_ns : namespace := Namespace DOT true false [] (chars "Other Users.") (chars "Shared Folders.").
Definition alt_run (code : Z) (pattern : bytes) : Prog mbstate (Z * list (bytes * bytes)) :=
  with_x (mboxlist_findall_alt (λ _, []) (write_down (tell_to code)) 10 alt_ns pattern false (Some bob)).
End Runs.

(** Where [imap/mboxlist.c] goes wrong.  A mailbox whose files cannot be opened is
    renamed, and they are opened with the rights of the mailbox above the new name;
    when those are longer than the buffer, which moves, memory is read that has been
    freed.  An owner who takes a right from himself with "-" loses
    the implicit rights, which [mboxlist_ensureOwnerRights] adds to what is
    taken.  When the MUPDATE server refuses a new mailbox the code of the
    error is returned, and the mailbox is there.  [mboxlist_deleteremote] of a
    mailbox that is not at another server returns 0 and leaves the database locked.  For the rights to rename, "user.bobby" is
    the INBOX of "bob".  Of the domain of a user only as many characters are compared with that
    of the mailbox as the first has: "ex" may have rights in "example.com".  LIST shows Bob his mailbox
    "user.bob.x" for "*" and for "user.bob.*", but not for "user.*"; none at all but the INBOX when a "!" is in what
    the flat backend has behind the key, the data of this mailbox and of those after it; in
    the alternate namespace it goes on, and returns 0, when the caller stops it at one of his own mailboxes.  A
    pattern for a long domain is written behind its buffer. *)
Example mboxlist_goes_wrong :
  outcome (-1) 0 (rename_team (-1) 0 false) = Ok (0, [(team, encode [(bob, bob_rights)])], (0, encode [(bob, chars "lrka")])) ∧
  outcome 0 0 (rename_below_many 0 0 false) = Fault OutOfBounds ∧
  outcome 0 0 (setacl_run 0 0 false (chars "-w")) = Ok (0, (0, encode [(bob, chars "rsipxtecd")])) ∧
  outcome 0 (-1) (create_run 0 (-1) true) = Ok (-1, (0, encode [(bob, chars "lrka")])) ∧
  outcome 0 0 (deleteremote_run 0 0 false) = Ok (0, Some LExclusive) ∧
  rename_rights (Si := demo_site false false) (A := bobs_auth) (chars "user.bobby") (chars "user.eve") None false (Some bob) 0 []
    (encode [(bob, chars "x")]) = Ok (0, true, false) ∧
  canon_ident (Si := demo_site true false) (chars "example.com!user.bob") (chars "eve@ex") (Some (chars "lrs")) false = inr (chars "eve@ex") ∧
  outcome 0 0 (list_run 0 0 false [] (chars "*")) = Ok (0, [(team, team); (chars "INBOX.x", chars "INBOX.x"); (INBOX, INBOX)]) ∧
  outcome 0 0 (list_run 0 0 false [] (chars "user.bob.*")) = Ok (0, [(below_x, below_x)]) ∧
  outcome 0 0 (list_run 0 0 false [] (chars "user.*")) = Ok (0, []) ∧
  outcome 0 0 (list_run 0 0 false (chars "!") (chars "*")) = Ok (0, [(INBOX, INBOX)]) ∧
  outcome 0 0 (alt_run 0 0 false 7 (chars "x")) = Ok (0, [(chars "INBOX.x", chars "INBOX.x")]) ∧
  list_pattern (Si := demo_site true false) (chars "x@" ++ replicate 491 97) None = Fault OutOfBounds.
Proof. split_and!; vm_compute; reflexivity. Qed.
